(* ===== verification/_CoqProject ===== *)
-Q . S2P
Prelude.v
Quota_guard.v
Double_list.v
Cpu_scheduler.v
Cpu_scheduler_inv.v
Cpu_scheduler_props.v
Bit_array.v
Bit_allocator.v
Register.v
Page_table_allocator.v
Page_table.v
Page_table_spec.v
X86_64.v
Riscv.v
Lpae.v
Short_table.v
Short_table_laws.v
Short_table_props.v
Chunk.v
Avl_tree.v
Avl_nodes.v
Avl_trees.v
Allocator_avl.v
Allocator_avl_blocks.v
Allocator_avl_spec.v
Allocator_avl_ops.v
Allocator_avl_props.v
Slab.v
Slab_ring.v
Slab_ops.v
Slab_spec.v
Slab_props.v
Slab_life.v
Slab_demo.v
Slab_meta.v
Linked_list.v
Heap.v
Heap_inv.v
Heap_ops.v
Heap_spec.v
Heap_props.v
Sliced_heap.v
Heap_demo.v
Cstring.v
Output.v
Ram_file.v
Ram_fs.v
Ram_fs_spec.v
Ram_fs_props.v
Fifo.v
Kernel_thread.v
Kernel_inv.v
Kernel_ipc.v
Kernel_props.v
Signal.v
Signal_inv.v
Signal_props.v
Signal_account.v
Signal_threads.v
