(* ===== verification/Prelude.v ===== *)
(** * Verification of core parts of the Genode OS framework

    This library models parts of the C++ code of the framework as functional programs
    and proves what makes them correct.  All paths below are relative to [src/repos/].
    The parts follow the dependencies of the code: containers and arithmetic first,
    then the kernel of base-hw, then components on top of them.

    ** The program's parts and where they are modelled

    - Resource accounting.  [Quota_guard] is [base/include/base/quota_guard.h].
    - Containers.  [Double_list] is the kernel's [double_list.h]; [Fifo] is
      [base/include/util/fifo.h]; [Bit_array] and [Bit_allocator] are the files of the
      same name in [base/include/util/]; [Avl_tree] is [base/include/util/avl_tree.h] with
      [base/src/lib/base/avl_tree.cc] as functions on trees; [Avl_nodes] is the same code
      on nodes with child and parent pointers, and [Avl_trees] its proof; [Chunk] is [os/include/ram_fs/chunk.h].
    - Memory.  [Allocator_avl] is the range allocator of
      [base/include/base/allocator_avl.h] and [base/src/lib/base/allocator_avl.cc];
      [Allocator_avl_blocks] holds its search functions on the sequence of blocks,
      [Allocator_avl_spec] and [Allocator_avl_ops] what each operation does to the tree and
      to this sequence, [Allocator_avl_props] the specification on free bytes and
      allocations, the theorems and a concrete supply of meta data.  [Slab] is the slab
      allocator of [base/include/base/slab.h] and [base/src/lib/base/slab.cc]; [Slab_ring]
      and [Slab_ops] hold its invariant and what its parts do to the ring of blocks,
      [Slab_spec] the contract of the backing store and the nested calls, [Slab_props] and
      [Slab_life] the theorems, [Slab_demo] two backing stores and runs, and [Slab_meta]
      the range allocator on top of the slab, as [Allocator_avl_tpl] combines them: its
      [add_range] detaches the slab from its backing store for the time of the call.
      [Linked_list] is [base/include/util/list.h].  [Heap] is the heap of
      [base/include/base/heap.h] and [base/src/lib/base/heap.cc]; [Heap_inv] holds the
      contract of the RAM allocator and the region map and the invariant, [Heap_ops] and
      [Heap_spec] what its steps and operations do, [Heap_props] the theorems;
      [Sliced_heap] is [base/src/lib/base/sliced_heap.cc], and [Heap_demo] a concrete memory
      with runs of both.
    - Text.  [Cstring] is [base/include/util/string.h]; [Output] is the conversion of
      values to text in [base/src/lib/base/output.cc] and its headers.
    - Scheduling.  [Cpu_scheduler], [Cpu_scheduler_inv] and [Cpu_scheduler_props] are
      [base-hw/src/core/kernel/cpu_scheduler.h] and [cpu_scheduler.cc].
    - Threads and synchronous IPC.  [Kernel_thread] is [ipc_node.cc] and the scheduling
      and IPC part of [thread.cc] in [base-hw/src/core/kernel/]; [Kernel_inv] and
      [Kernel_ipc] prove what its operations do, [Kernel_props] runs them as a state
      machine.
    - Asynchronous notifications.  [Signal] is [signal_receiver.h], [signal_receiver.cc] and
      the signal calls of [thread.cc]; [Signal_inv] states what they rely on and keep,
      [Signal_props] runs the calls as a state machine, [Signal_account] keeps the account of
      each context, and [Signal_threads] composes them with the threads and IPC of
      [Kernel_thread].
    - Virtual memory.  [Register] is [base/include/util/register.h];
      [Page_table_allocator] is [base-hw/src/include/hw/page_table_allocator.h];
      [Page_table] and [Page_table_spec] hold what the page-table formats share, [X86_64],
      [Riscv], [Lpae] and [Short_table] are the page tables of the architectures in
      [base-hw/src/include/hw/spec/]; [Short_table_laws] and [Short_table_props] prove the
      last one, which has 32-bit addresses and loops of its own.
    - File system.  [Ram_file], [Ram_fs], [Ram_fs_spec] and [Ram_fs_props] are
      [os/src/lib/vfs/ram_file_system.h].

    ** How the parts interact

    The scheduler works on the sequences that [Double_list] is proved to implement, the
    IPC nodes on those of [Fifo].  The page tables allocate from [Table_pool], a type
    class whose laws [Page_table_allocator] discharges with [Bit_allocator], which is in
    turn proved against [Bit_array].  The formats of page tables are instances of the
    class [Format], so that the theorems of [Page_table_spec] hold for each of them.  A
    file is a client of the class [Chunk_entry], whose laws [Chunk] proves for blocks and
    for indices of any depth; a directory keeps its entries in an [Avl_tree], and path
    names are scanned with the functions of [Cstring].  The range allocator keeps its blocks
    in the tree of [Avl_nodes], whose class [Policy] it instantiates with the order of
    addresses and the annotation [_max_avail]; the memory of the nodes comes from the class
    [Metadata], which also detaches and attaches the backing store of this memory, and whose
    laws are the class [Metadata_laws]; [Slab_meta] discharges them with the slab.  What
    [~Allocator_avl_tpl] gives back of empty slab blocks comes from the class [Empty_blocks].
    The slab in turn is a client of the class [Backing], whose laws [Backing_laws]
    let the backing store call back into the slab while it is asked for a block, for three
    elements at most, and forbid it to allocate from the slab while a block is given back;
    such a call is a [Script].  The flag [own_share_active] of a
    thread stands for the share that the scheduler has made ready.  Signals are proved
    against an interface to threads, the classes [Thread_ops] and [Thread_laws], which the
    threads of [Kernel_thread] implement under their own invariant.  The heaps get
    dataspaces and attach them through the class [Memory], whose laws are [Memory_laws]; the
    [Heap] is proved against the specification of the range allocator, keeps its objects in
    memory of this allocator and links them with [Linked_list]; detaching a region takes the
    objects in it away.

    ** State, errors, integers

    Objects linked by pointers live in stores, finite maps from identities to their
    fields.  A C++ function becomes a function on the state; where the code may follow a
    null or dangling pointer, violate an [assert] or throw, the result is an option, a
    [result] or a computation of the monad [exc] of this file, whose errors name the
    cases, and the theorems show which of them cannot happen.  Machine integers are [Z]
    with their wrap-around written out.

    ** Fuel

    Loops and recursions over pointers carry fuel.  It is the number of elements of the
    store, or one more ([Fifo], [Kernel_thread], [Double_list]), the number of words or
    bits of an array ([Bit_array], [Bit_allocator]), of levels of a table, or of characters
    of a path ([Ram_fs]); running out is an error of its own, and the theorems show that
    it does not occur.  The recursions along the tree of [Avl_nodes] have the size of the
    store as fuel, those of the allocator the number of nodes, and its loops two more than
    that, as each turn takes a block away; with two meta-data entries in reserve they end,
    and without them [destructor_spins] shows the destructor that does not.  The loops of [Slab] over the ring have the number of
    blocks as fuel, and so has the nesting of its calls with those of its backing store, as
    a nested release gives a block away.  The loops of the heaps over the list of dataspaces
    have one more than the number of elements, and an allocation of [Heap] nests twice at
    most, for a big allocation and the object that it needs.  The recursion along helping relationships has no bound in the
    code; it ends because there is no helping cycle, which [Kernel_props] proves of all
    admissible calls, and which fails without the guarantee ([self_request_diverges]).

    ** What the theorems show

    - Safety: in every reachable state of the scheduler and of the threads, IPC and signals
      of the kernel no assertion fails, no pointer is followed into nothing and every loop
      ends ([scheduler_safe], [ipc_safe], [signal_safe]).  For the scheduler this includes
      arbitrary changes of quotas.
    - Choice of the CPU: the scheduler chooses the best share, notices each wake-up, and
      the job behind an active share is runnable ([update_chooses_best],
      [no_missed_schedule], [ipc_safe]).  The first needs that no share gets a quota while
      it holds an unspent claim of an earlier one; [stale_claim_missed] shows what happens
      otherwise.
    - Progress: a client is answered after a bounded number of answers of its server
      ([client_answered]); the end of a server is reported ([server_deleted]).
    - Signals: none is lost or delivered twice, they go to the waiting threads in order, and
      nobody waits while something is due ([signals_conserved], [signal_delivery],
      [signal_safe]).
    - Translations: inserting and removing a range changes exactly the translations of the
      range, as the memory-management unit reads the tables, for four formats.  Of the
      stage-2 tables of [Lpae] the addresses are right, but the rights are those of the code,
      which ignores the flags of the request; no property claims them.
    - Containers refine sequences, sets or maps ([double_list_refines], [fifo_refines],
      [avl_refines_sequence], [linked_tree_refines_sequence], [bit_array_set],
      [alloc_sound_complete]).
    - Memory: the range allocator refines a set of free bytes and a map of allocations, never
      gives a byte away twice, finds what there is, and releases its meta data
      ([allocator_refines], [allocations_apart], [alloc_complete], [destructor_releases]).
      The restrictions on arguments ([valid], [request_ok]) are those the code needs: no
      empty or wrapping ranges; the lemmas at the end of [Allocator_avl_props] show what
      happens without them.  The destructors need two meta-data entries in reserve.  The
      slab refines a set of used elements for every backing store within its contract, and
      keeps, from its construction on, the three elements in reserve that such a store may
      take ([slab_refines], [slab_elements_apart], [slab_nested_reserve]); together with it
      the range allocator relies on nothing but the store of the slab ([allocator_on_slab]).
      The heap refines a map of blocks and keeps its used quota within the bounds the
      theorems state (a big block that was released leaves the 32 bytes of its object
      charged), gives out attached memory only, and its destructor, that of its local
      allocator included, never reads an object that went with an earlier dataspace, if two
      meta-data entries are in reserve ([heap_refines], [heap_blocks_apart],
      [heap_destructor_releases]).  The exception is a chunk whose object cannot be
      allocated: its detached memory stays in the local allocator; this is a result of its
      own ([stale]), with which the histories of the other two theorems end.
    - Files refine byte sequences ([file_refines_bytes]), each of the three errors of the
      allocator included: lack of memory cuts a write to 0 bytes, lack of capabilities and
      denied allocations are thrown, and each byte is the old or the new one.  Paths,
      creation and removal in the file system act on exactly the named nodes
      ([lookup_resolves], [open_create_spec], [unlink_spec]).
    - Text: numbers other than the most negative one survive printing and parsing, buffers
      are never exceeded ([print_parse_roundtrip], [copy_cstring_spec]).
    - Where the code does not do what it means to, a lemma gives the inputs; these lemmas
      stand at the end of their files and are not among the properties.

    ** What is not modelled

    Of the range allocator: printing, the user data that [Allocator_avl_tpl] attaches to
    blocks, and an allocator that is the backing store of its own slab.  Of the slab: the
    messages about corrupt elements; a backing store whose [free] allocates from the slab,
    or whose [try_alloc] takes more than three elements, is outside of the contract; a
    self-backed [Allocator_avl_tpl] and the allocator that [bootstrap] builds are such
    stores, as they keep their own meta data in the slab.  Of the heap: the mutex, the
    exchange of the RAM allocator and region map, and the meta data that its range allocator
    takes from its own memory, which comes from [Metadata] here, in memory of its own.

    Drivers, protocol stacks, ports of foreign code, graphical components and tools; code
    generated at build time; floating-point text; the transfer of capabilities, interrupts,
    virtual machines and the MMU side of threads; cache maintenance; concurrency within a
    component below the granularity of an operation (the kernel runs under one lock). *)

From Stdlib Require Export ZArith Lia.
From stdpp Require Export base option gmap sets numbers list.

#[export] Set Default Goal Selector "!".

Declare Scope word_scope.
Delimit Scope word_scope with W.

(** ** Machine words

    A [w]-bit unsigned integer of the C++ code is a [Z]; every operation that can
    leave the range writes its wrap-around out with [wrap]. *)

Definition wrap (w z : Z) : Z := (z mod 2 ^ w)%Z.

(** [addr_t], [size_t] and [uint64_t] on the 64-bit targets. *)
Abbreviation u64 := (wrap 64).
(** [unsigned] and [uint32_t]. *)
Abbreviation u32 := (wrap 32).
(** [uint8_t] and the byte view of [char]. *)
Abbreviation u8 := (wrap 8).

Notation "a +64 b" := (u64 (a + b)%Z) (at level 50, left associativity) : word_scope.
Notation "a -64 b" := (u64 (a - b)%Z) (at level 50, left associativity) : word_scope.
Notation "a *64 b" := (u64 (a * b)%Z) (at level 40, left associativity) : word_scope.
Notation "a +32 b" := (u32 (a + b)%Z) (at level 50, left associativity) : word_scope.
Notation "a -32 b" := (u32 (a - b)%Z) (at level 50, left associativity) : word_scope.
(** Bitwise complement of a 64-bit word. *)
Notation "~64 a" := (u64 (Z.lnot a)) (at level 35, right associativity) : word_scope.

Definition in_range (w z : Z) : Prop := (0 ≤ z < 2 ^ w)%Z.
Abbreviation is_u64 := (in_range 64).
Abbreviation is_u32 := (in_range 32).
Abbreviation is_u8 := (in_range 8).

Open Scope Z_scope.

(** [lia] with the range predicates open. *)
Ltac word_lia := unfold in_range in *; lia.

Lemma wrap_range w z : 0 ≤ w → in_range w (wrap w z).
Proof. intros Hw. apply Z.mod_pos_bound. lia. Qed.

Lemma wrap_small w z : in_range w z → wrap w z = z.
Proof. apply Z.mod_small. Qed.

Lemma wrap_wrap w z : 0 ≤ w → wrap w (wrap w z) = wrap w z.
Proof. intros Hw. apply wrap_small, wrap_range, Hw. Qed.

Lemma wrap_overflow w a b :
  0 ≤ w → in_range w a → in_range w b → ¬ in_range w (a + b) →
  wrap w (a + b) = a + b - 2 ^ w.
Proof.
  unfold wrap, in_range. intros Hw Ha Hb Hn.
  symmetry. apply (Z.mod_unique _ _ 1); lia.
Qed.

Lemma wrap_underflow w a b :
  in_range w a → in_range w b → a < b → wrap w (a - b) = a - b + 2 ^ w.
Proof.
  unfold wrap, in_range. intros Ha Hb Hn.
  symmetry. apply (Z.mod_unique _ _ (-1)); lia.
Qed.

Lemma wrap_testbit w z i :
  0 ≤ w → 0 ≤ i → Z.testbit (wrap w z) i = (i <? w) && Z.testbit z i.
Proof.
  intros Hw Hi. unfold wrap. destruct (Z.ltb_spec i w) as [H|H].
  - rewrite Z.mod_pow2_bits_low by lia. done.
  - rewrite Z.mod_pow2_bits_high by lia. done.
Qed.

Lemma in_range_testbit w z i : in_range w z → w ≤ i → Z.testbit z i = false.
Proof.
  intros Hz Hi. destruct (decide (0 ≤ w)) as [Hw|Hw].
  - rewrite <- (wrap_small w z Hz), wrap_testbit by lia.
    destruct (Z.ltb_spec i w); [lia|done].
  - unfold in_range in Hz. rewrite Z.pow_neg_r in Hz by lia. lia.
Qed.

Lemma in_range_land_l w a b : 0 ≤ b → in_range w a → in_range w (Z.land a b).
Proof.
  unfold in_range. intros Hb Ha. split; [apply Z.land_nonneg; lia|].
  destruct (decide (0 ≤ w)) as [Hw|Hw];
    [|rewrite Z.pow_neg_r in Ha by lia; lia].
  rewrite <- (Z.mod_small a (2 ^ w)) by lia.
  rewrite <- Z.land_ones, <- Z.land_assoc, (Z.land_comm _ b), Z.land_assoc,
    Z.land_ones by lia.
  apply Z.mod_pos_bound. lia.
Qed.

Lemma in_range_bits w z :
  0 ≤ w → 0 ≤ z → (∀ i, w ≤ i → Z.testbit z i = false) → in_range w z.
Proof.
  intros Hw Hz Hbits. split; [done|].
  destruct (decide (z = 0)) as [->|Hn]; [lia|].
  apply Z.log2_lt_pow2; [lia|].
  destruct (Z.lt_ge_cases (Z.log2 z) w) as [|Hge]; [done|].
  pose proof (Hbits (Z.log2 z) Hge) as Hb.
  rewrite Z.bit_log2 in Hb by lia. done.
Qed.

Lemma in_range_lor w a b : 0 ≤ w → in_range w a → in_range w b → in_range w (Z.lor a b).
Proof.
  intros Hw Ha Hb. apply in_range_bits; [done| |].
  - apply Z.lor_nonneg; destruct Ha, Hb; lia.
  - intros i Hi. rewrite Z.lor_spec, (in_range_testbit w a), (in_range_testbit w b); done.
Qed.

(** [n & ~(2^k - 1)] clears the low [k] bits. *)
Lemma land_align_down n k :
  is_u64 n → 0 ≤ k < 64 → Z.land n (u64 (Z.lnot (u64 (2 ^ k - 1)))) = n / 2 ^ k * 2 ^ k.
Proof.
  intros Hn Hk. assert (u64 (2 ^ k - 1) = Z.ones k) as ->.
  { rewrite Z.ones_equiv. apply wrap_small. pose proof (Z.pow_lt_mono_r 2 k 64). word_lia. }
  rewrite <- Z.shiftr_div_pow2, <- Z.shiftl_mul_pow2 by lia.
  apply Z.bits_inj'. intros i Hi. rewrite Z.land_spec, wrap_testbit, Z.lnot_spec by lia.
  destruct (decide (i < k)).
  - rewrite Z.testbit_ones, Z.shiftl_spec_low by lia.
    destruct (Z.leb_spec 0 i), (Z.ltb_spec i k); simpl; lia.
  - rewrite Z.testbit_ones, Z.shiftl_spec, Z.shiftr_spec by lia.
    replace (i - k + k) with i by lia.
    destruct (Z.ltb_spec i k); [lia|]. rewrite andb_false_r. simpl.
    destruct (Z.ltb_spec i 64); simpl; [by rewrite andb_true_r|].
    by rewrite (in_range_testbit 64) by (done || lia).
Qed.

(** ** Results

    A C++ function that throws or returns an [Attempt] gives a [result]. *)

Inductive result (E A : Type) : Type :=
  | Ok (a : A)
  | Err (e : E).
Arguments Ok {E A} a.
Arguments Err {E A} e.

#[export] Instance result_ret E : MRet (result E) := fun A a => Ok a.
#[export] Instance result_bind E : MBind (result E) := fun A B f m =>
  match m with Ok a => f a | Err e => Err e end.
#[export] Instance result_fmap E : FMap (result E) := fun A B f m =>
  match m with Ok a => Ok (f a) | Err e => Err e end.

Definition is_ok {E A} (r : result E A) : bool :=
  match r with Ok _ => true | Err _ => false end.

(** A stateful function that may throw: the state an exception leaves behind is
    the state its handler sees. *)
Definition exc (S E A : Type) : Type := S → result E A * S.

#[export] Instance exc_ret S E : MRet (exc S E) := fun A a s => (Ok a, s).
#[export] Instance exc_bind S E : MBind (exc S E) := fun A B f m s =>
  match m s with
  | (Ok a, s') => f a s'
  | (Err e, s') => (Err e, s')
  end.

Definition throw {S E A} (e : E) : exc S E A := fun s => (Err e, s).
Definition get_state {S E} : exc S E S := fun s => (Ok s, s).
Definition put_state {S E} (s : S) : exc S E unit := fun _ => (Ok tt, s).
Definition modify {S E} (f : S → S) : exc S E unit := fun s => (Ok tt, f s).
Definition catch {S E A} (m : exc S E A) (h : E → exc S E A) : exc S E A := fun s =>
  match m s with
  | (Err e, s') => h e s'
  | r => r
  end.

Lemma bind_ok {S Er B C} (m : exc S Er B) (f : B → exc S Er C) s a s' :
  m s = (Ok a, s') → mbind f m s = f a s'.
Proof. intros Hm. unfold mbind, exc_bind. by rewrite Hm. Qed.

(** One step of a computation, by a lemma about its result. *)
Tactic Notation "mrun" uconstr(H) := rewrite (bind_ok _ _ _ _ _ H).

(** ** Lists *)

Lemma filter_all {A} (P : A → Prop) `{∀ x, Decision (P x)} l : Forall P l → filter P l = l.
Proof. induction 1; [done|]. rewrite filter_cons_True by done. by f_equal. Qed.

Lemma fold_left_snoc {A} (l a : list A) : fold_left (λ l i, l ++ [i]) l a = a ++ l.
Proof.
  revert a. induction l as [|i l IH]; intros a; simpl; [by rewrite app_nil_r|].
  by rewrite IH, <- app_assoc.
Qed.

Lemma NoDup_snoc {A} (l : list A) x : NoDup (l ++ [x]) ↔ NoDup l ∧ x ∉ l.
Proof.
  rewrite NoDup_app. split; [intros (?&H&_); split; [done|intros Hx; by apply (H x Hx), list_elem_of_singleton]|].
  intros [? ?]. split_and!; [done|set_solver|apply NoDup_singleton].
Qed.

(** The first element of a segment, or what follows it. *)
Definition hd_or {A} (l : list A) (d : option A) : option A :=
  match l with [] => d | x :: _ => Some x end.

(** The last element of a segment, or what precedes it. *)
Definition last_or {A} (d : option A) (l : list A) : option A :=
  match last l with None => d | o => o end.

Lemma hd_or_app {A} (l k : list A) d : hd_or (l ++ k) d = hd_or l (hd_or k d).
Proof. by destruct l. Qed.

Lemma last_or_app {A} (l k : list A) d : last_or d (l ++ k) = last_or (last_or d l) k.
Proof. unfold last_or. rewrite last_app. by destruct (last k). Qed.

Lemma last_or_snoc {A} (l : list A) x d : last_or d (l ++ [x]) = Some x.
Proof. by rewrite last_or_app. Qed.

Lemma last_or_cons {A} (l : list A) x d : last_or d (x :: l) = last_or (Some x) l.
Proof. apply (last_or_app [x] l). Qed.

Lemma last_or_nil {A} (d : option A) : last_or d [] = d.
Proof. done. Qed.

Lemma hd_or_notin {A} (l : list A) x d : x ∉ l → d ≠ Some x → hd_or l d ≠ Some x.
Proof. destruct l; [done|]. set_solver. Qed.

Lemma last_or_notin {A} (l : list A) x d : x ∉ l → d ≠ Some x → last_or d l ≠ Some x.
Proof.
  unfold last_or. destruct (last l) eqn:E; [|done].
  apply last_Some in E as [? ->]. set_solver.
Qed.

#[export] Hint Rewrite @hd_or_app @last_or_app @last_or_cons @last_or_snoc @last_or_nil @app_nil_r : ends.

(** A list is empty or ends in an element. *)
Lemma list_snoc_case {A} (l : list A) : l = [] ∨ ∃ k x, l = k ++ [x].
Proof. destruct l using rev_ind; eauto. Qed.

(** ** Automation *)

Create HintDb words.
#[export] Hint Resolve wrap_range in_range_land_l in_range_lor : words.
#[export] Hint Extern 1 (_ ≤ _)%Z => lia : words.
#[export] Hint Extern 1 (_ < _)%Z => lia : words.

(** Case analysis on the boolean comparisons of a goal or hypothesis. *)
Ltac zcases :=
  repeat match goal with
  | |- context [Z.ltb ?a ?b] => destruct (Z.ltb_spec a b)
  | |- context [Z.leb ?a ?b] => destruct (Z.leb_spec a b)
  | |- context [Z.eqb ?a ?b] => destruct (Z.eqb_spec a b)
  | H : context [Z.ltb ?a ?b] |- _ => destruct (Z.ltb_spec a b)
  | H : context [Z.leb ?a ?b] |- _ => destruct (Z.leb_spec a b)
  | H : context [Z.eqb ?a ?b] |- _ => destruct (Z.eqb_spec a b)
  end.
