(* ===== verification/Quota_guard.v ===== *)
(** * Quota_guard: tracking of RAM and capability quotas

    Model of [src/repos/base/include/base/quota_guard.h].  The state of a
    [Quota_guard_untyped] is its limit and its used amount, both [size_t]; every
    method is a function on that record, with the unsigned arithmetic of the
    code.  [with_reservation] and the deprecated [Reservation] object are
    modelled together with the destructor that runs when they leave scope. *)

From S2P Require Import Prelude.

Open Scope Z_scope.
Open Scope word_scope.

Module Untyped.

Record t := Mk { _limit : Z; _used : Z }.

Definition empty : t := Mk 0 0.

Definition avail (g : t) : Z := _limit g -64 _used g.
Definition used (g : t) : Z := _used g.
Definition limit (g : t) : Z := _limit g.

Definition upgrade (amount : Z) (g : t) : t :=
  let new_limit := _limit g +64 amount in
  let overflow := new_limit <? _limit g in
  Mk (if overflow then u64 (-1) else new_limit) (_used g).

Definition try_downgrade (amount : Z) (g : t) : bool * t :=
  if avail g <? amount then (false, g)
  else (true, Mk (_limit g -64 amount) (_used g)).

Definition try_withdraw (amount : Z) (g : t) : bool * t :=
  if avail g <? amount then (false, g)
  else (true, Mk (_limit g) (_used g +64 amount)).

Definition replenish (amount : Z) (g : t) : t :=
  let underflow := _used g <? amount in
  Mk (_limit g) (if underflow then 0 else _used g -64 amount).

(** The guard object of one reservation: the amount and whether the user of the
    reservation cancelled it. *)
Record reservation_guard := Reservation_guard { _amount : Z; _canceled : bool }.

Definition cancel (r : reservation_guard) : reservation_guard :=
  Reservation_guard (_amount r) true.

(** [~Reservation_guard] *)
Definition drop_reservation_guard (r : reservation_guard) (g : t) : t :=
  if _canceled r then replenish (_amount r) g else g.

End Untyped.

(** The typed [Quota_guard<UNIT>] forwards to the untyped guard; [withdraw] turns
    a refusal into the exception [Limit_exceeded]. *)
Module Guard.
Import Untyped.

Inductive error := Limit_exceeded.

Definition create (amount : Z) : t := upgrade amount empty.

Definition have_avail (amount : Z) (g : t) : bool := amount <=? avail g.

Definition withdraw (amount : Z) : exc t error unit := fun g =>
  match try_withdraw amount g with
  | (false, g') => (Err Limit_exceeded, g')
  | (true, g') => (Ok tt, g')
  end.

(** The deprecated [Reservation]: the constructor withdraws, the destructor
    gives the amount back unless it was acknowledged. *)
Record reservation := Reservation { r_amount : Z; _ack : bool }.

Definition reserve (amount : Z) : exc t error reservation := fun g =>
  match withdraw amount g with
  | (Err e, g') => (Err e, g')
  | (Ok _, g') => (Ok (Reservation amount false), g')
  end.

Definition acknowledge (r : reservation) : reservation := Reservation (r_amount r) true.

Definition drop_reservation (r : reservation) (g : t) : t :=
  if _ack r then g else replenish (r_amount r) g.

(** [with_reservation amount fn error_fn]: [fn] runs on the guard after the
    withdrawal, sees only the reservation object (which it may [cancel]) and
    returns it with its result; the guard object is destroyed afterwards. *)
Definition with_reservation {RET : Type} (amount : Z)
    (fn : reservation_guard → t → RET * reservation_guard * t)
    (error_fn : t → RET * t) (g : t) : RET * t :=
  match try_withdraw amount g with
  | (false, g') => error_fn g'
  | (true, g') =>
      let '(ret, r, g'') := fn (Reservation_guard amount false) g' in
      (ret, drop_reservation_guard r g'')
  end.

End Guard.

Import Untyped Guard.

(** ** Invariant: the used amount never exceeds the limit *)

Definition wf (g : t) : Prop := 0 ≤ _used g ≤ _limit g ∧ is_u64 (_limit g).

Lemma avail_exact g : wf g → avail g = _limit g - _used g.
Proof. intros [Hu Hl]. unfold avail. apply wrap_small. word_lia. Qed.

Lemma wf_empty : wf empty.
Proof. split; unfold in_range; simpl; lia. Qed.

(** What [upgrade] computes: addition that saturates at the largest [size_t]. *)
Lemma upgrade_limit g amount :
  wf g → is_u64 amount → _limit (upgrade amount g) = Z.min (_limit g + amount) (2 ^ 64 - 1).
Proof.
  intros [_ Hl] Ha. unfold upgrade; simpl.
  destruct (decide (in_range 64 (_limit g + amount))) as [Hi|Hi].
  - rewrite wrap_small by done. zcases; word_lia.
  - rewrite wrap_overflow by (try done; lia). change (u64 (-1)) with (2 ^ 64 - 1).
    zcases; word_lia.
Qed.

Lemma replenish_used g amount :
  wf g → 0 ≤ amount → _used (replenish amount g) = Z.max 0 (_used g - amount).
Proof.
  intros [Hu Hl] Ha. unfold replenish; simpl. zcases; [lia|].
  rewrite wrap_small by word_lia. lia.
Qed.

Lemma replenish_exact g amount :
  0 ≤ amount ≤ _used g → is_u64 (_used g) →
  replenish amount g = Mk (_limit g) (_used g - amount).
Proof.
  intros Ha Hu. unfold replenish. zcases; [lia|]. by rewrite wrap_small by word_lia.
Qed.

Lemma try_withdraw_spec g amount :
  wf g → 0 ≤ amount →
  try_withdraw amount g =
    if decide (amount ≤ _limit g - _used g) then (true, Mk (_limit g) (_used g + amount))
    else (false, g).
Proof.
  intros Hwf Ha. unfold try_withdraw. rewrite avail_exact by done.
  destruct Hwf as [Hu Hl]. case_decide; zcases; try lia; [|done].
  rewrite wrap_small by word_lia. done.
Qed.

(** The operations a client can issue on one guard. *)
Inductive op := OUpgrade (n : Z) | ODowngrade (n : Z) | OWithdraw (n : Z) | OReplenish (n : Z).

Definition op_amount (o : op) : Z :=
  match o with OUpgrade n | ODowngrade n | OWithdraw n | OReplenish n => n end.

Definition run_op (o : op) (g : t) : t :=
  match o with
  | OUpgrade n => upgrade n g
  | ODowngrade n => (try_downgrade n g).2
  | OWithdraw n => (withdraw n g).2
  | OReplenish n => replenish n g
  end.

Lemma run_op_wf o g : is_u64 (op_amount o) → wf g → wf (run_op o g).
Proof.
  intros Ha Hwf. pose proof Hwf as [Hu Hl]. destruct o as [n|n|n|n]; simpl in *.
  - unfold wf. rewrite upgrade_limit by done. unfold upgrade; simpl. word_lia.
  - unfold try_downgrade. rewrite avail_exact by done. zcases; [done|].
    unfold wf; simpl. rewrite wrap_small by word_lia. word_lia.
  - unfold withdraw. rewrite try_withdraw_spec by (done || word_lia).
    case_decide; [|done]. unfold wf; simpl. word_lia.
  - unfold wf. rewrite replenish_used by (done || word_lia). simpl. word_lia.
Qed.

(** C19: every sequence of operations on a fresh guard keeps the used amount within
    the limit, so [avail] is the exact difference and never wraps around. *)
Theorem quota_invariant ops :
  Forall (fun o => is_u64 (op_amount o)) ops →
  let g := foldl (flip run_op) empty ops in
  wf g ∧ avail g = limit g - used g.
Proof.
  intros Hops. cut (wf (foldl (flip run_op) empty ops)).
  { intros Hwf. split; [done|]. by apply avail_exact. }
  generalize wf_empty. generalize empty as g.
  induction Hops as [|o ops Ho _ IH]; intros g Hg; simpl; [done|].
  apply IH, run_op_wf; done.
Qed.

Definition demo_quota_ops : list op :=
  [OUpgrade 1000; OWithdraw 300; ODowngrade 800; OWithdraw 900; OReplenish 500;
   OUpgrade (2 ^ 64 - 1)].

Lemma quota_invariant_witness :
  let g := foldl (flip run_op) empty demo_quota_ops in
  wf g ∧ avail g = limit g - used g.
Proof.
  apply quota_invariant. unfold demo_quota_ops, in_range. repeat constructor; simpl; lia.
Defined.

(** a reservation whose amount is available runs its function on the guard with
    the amount withdrawn.  Whatever that function withdraws for itself in
    addition stays withdrawn; the reserved amount itself is given back exactly
    when the function cancels.  Without enough quota only [error_fn] runs, on the
    unchanged guard. *)
Theorem with_reservation_spec {RET} amount extra (ret err : RET) (cancels : bool) g :
  wf g → is_u64 amount → is_u64 extra →
  with_reservation amount
    (fun r g => (ret, if cancels then cancel r else r, (withdraw extra g).2))
    (fun g => (err, g)) g =
  if decide (amount ≤ limit g - used g) then
    let kept := if cancels then 0 else amount in
    let more := if decide (extra ≤ limit g - used g - amount) then extra else 0 in
    (ret, Mk (limit g) (used g + kept + more))
  else (err, g).
Proof.
  intros Hwf Ha He. unfold with_reservation.
  rewrite try_withdraw_spec by (done || word_lia). unfold limit, used.
  case_decide as Hd; [|done]. unfold withdraw.
  assert (wf (Mk (_limit g) (_used g + amount))) as Hwf' by (unfold wf in *; simpl; word_lia).
  rewrite try_withdraw_spec by (done || word_lia). simpl. rewrite Z.sub_add_distr.
  unfold drop_reservation_guard. destruct Hwf as [Hu Hl].
  case_decide; destruct cancels; simpl; rewrite ?replenish_exact by (simpl; word_lia);
    simpl; do 2 f_equal; lia.
Qed.

Lemma with_reservation_spec_witness :
  with_reservation 300 (fun r g => (1, cancel r, (withdraw 50 g).2)) (fun g => (2, g)) (Mk 1000 100) =
  (1, Mk 1000 150).
Proof.
  rewrite (with_reservation_spec 300 50 1 2 true (Mk 1000 100));
    [vm_compute; reflexivity|unfold wf, in_range; simpl; lia|unfold in_range; lia|unfold in_range; lia].
Defined.
