(* ===== verification/Double_list.v ===== *)
(** * Double_list: the kernel's doubly-linked list

    Model of [src/repos/base-hw/src/core/kernel/double_list.h].  The items live in
    a store from item identities to their [_next]/[_prev] pointers, and the list
    object holds [_head] and [_tail]; every method is the sequence of pointer
    writes of the code.  Dereferencing a null pointer makes the operation [None],
    so a theorem that an operation is [Some] also says that it is memory safe.
    The module [Seq] gives the abstract sequence each operation implements; the
    scheduler is modelled on top of it. *)

From S2P Require Import Prelude.

Definition id := nat.

Record item := Item { _next : option id; _prev : option id }.

(** The store of all items and the list object. *)
Record t := Mk { heap : gmap id item; _head : option id; _tail : option id }.

Definition deref (p : option id) (s : t) : option item := i ← p; heap s !! i.

Definition get_next (p : option id) (s : t) : option (option id) := _next <$> deref p s.
Definition get_prev (p : option id) (s : t) : option (option id) := _prev <$> deref p s.

Definition set_next (p v : option id) (s : t) : option t :=
  i ← p; it ← heap s !! i;
  Some (Mk (<[i := Item v (_prev it)]> (heap s)) (_head s) (_tail s)).

Definition set_prev (p v : option id) (s : t) : option t :=
  i ← p; it ← heap s !! i;
  Some (Mk (<[i := Item (_next it) v]> (heap s)) (_head s) (_tail s)).

Definition set_head (v : option id) (s : t) : option t := Some (Mk (heap s) v (_tail s)).
Definition set_tail (v : option id) (s : t) : option t := Some (Mk (heap s) (_head s) v).

Definition empty (h : gmap id item) : t := Mk h None None.

Definition _connect_neighbors (i : id) (s : t) : option t :=
  ip ← get_prev (Some i) s; inx ← get_next (Some i) s;
  s ← set_next ip inx s;
  inx ← get_next (Some i) s; ip ← get_prev (Some i) s;
  set_prev inx ip s.

Definition _to_tail (i : id) (s : t) : option t :=
  if decide (Some i = _tail s) then Some s
  else
    s ← _connect_neighbors i s;
    s ← set_prev (Some i) (_tail s) s;
    s ← set_next (Some i) None s;
    s ← set_next (_tail s) (Some i) s;
    set_tail (Some i) s.

Definition _to_head (i : id) (s : t) : option t :=
  if decide (Some i = _head s) then Some s
  else
    s ← _connect_neighbors i s;
    s ← set_next (Some i) (_head s) s;
    s ← set_prev (Some i) None s;
    s ← set_prev (_head s) (Some i) s;
    set_head (Some i) s.

Definition _tail_to_head (s : t) : option t :=
  if bool_decide (_tail s = None) || bool_decide (_tail s = _head s) then Some s
  else
    s ← set_next (_tail s) (_head s) s;
    s ← set_prev (_head s) (_tail s) s;
    tp ← get_prev (_tail s) s;
    s ← set_tail tp s;
    s ← set_next (_tail s) None s;
    hp ← get_prev (_head s) s;
    s ← set_head hp s;
    set_prev (_head s) None s.

Definition head_to_tail (s : t) : option t :=
  if bool_decide (_head s = None) || bool_decide (_head s = _tail s) then Some s
  else
    s ← set_prev (_head s) (_tail s) s;
    s ← set_next (_tail s) (_head s) s;
    hn ← get_next (_head s) s;
    s ← set_head hn s;
    s ← set_prev (_head s) None s;
    tn ← get_next (_tail s) s;
    s ← set_tail tn s;
    set_next (_tail s) None s.

Definition to_tail (i : id) (s : t) : option t :=
  if decide (Some i = _head s) then head_to_tail s else _to_tail i s.

Definition to_head (i : id) (s : t) : option t :=
  if decide (Some i = _tail s) then _tail_to_head s else _to_head i s.

Definition insert_tail (i : id) (s : t) : option t :=
  s ← match _tail s with Some _ => set_next (_tail s) (Some i) s | None => set_head (Some i) s end;
  s ← set_prev (Some i) (_tail s) s;
  s ← set_next (Some i) None s;
  set_tail (Some i) s.

Definition insert_head (i : id) (s : t) : option t :=
  s ← match _head s with Some _ => set_prev (_head s) (Some i) s | None => set_tail (Some i) s end;
  s ← set_next (Some i) (_head s) s;
  s ← set_prev (Some i) None s;
  set_head (Some i) s.

Definition remove (i : id) (s : t) : option t :=
  s ← (if decide (Some i = _tail s)
       then ip ← get_prev (Some i) s; set_tail ip s
       else inx ← get_next (Some i) s; ip ← get_prev (Some i) s; set_prev inx ip s);
  if decide (Some i = _head s)
  then inx ← get_next (Some i) s; set_head inx s
  else ip ← get_prev (Some i) s; inx ← get_next (Some i) s; set_next ip inx s.

(** [for_each f]: [f] is applied along the [_next] pointers; [fuel] bounds the
    number of items visited. *)
Fixpoint for_each_from {A} (fuel : nat) (f : id → A → A) (p : option id) (s : t) (a : A) : option A :=
  match p, fuel with
  | None, _ => Some a
  | Some _, O => None
  | Some i, S fuel =>
      let a := f i a in
      n ← get_next (Some i) s; for_each_from fuel f n s a
  end.

Definition for_each {A} (fuel : nat) (f : id → A → A) (s : t) (a : A) : option A :=
  for_each_from fuel f (_head s) s a.

(** ** The sequence operations the list implements *)
Module Seq.
Definition remove (i : id) (l : list id) : list id := filter (λ j, j ≠ i) l.
Definition insert_tail (i : id) (l : list id) : list id := l ++ [i].
Definition insert_head (i : id) (l : list id) : list id := i :: l.
Definition to_tail (i : id) (l : list id) : list id := remove i l ++ [i].
Definition to_head (i : id) (l : list id) : list id := i :: remove i l.
Definition head_to_tail (l : list id) : list id :=
  match l with [] => [] | i :: l' => l' ++ [i] end.

Lemma remove_app_notin i l k : i ∉ l → i ∉ k → remove i (l ++ i :: k) = l ++ k.
Proof.
  intros Hl Hk. unfold remove. rewrite filter_app, filter_cons_False by naive_solver.
  f_equal; apply filter_all, Forall_forall; set_solver.
Qed.

Lemma remove_hd i l : i ∉ l → remove i (i :: l) = l.
Proof. intros Hi. apply (remove_app_notin i []); set_solver. Qed.

Lemma remove_last i l : i ∉ l → remove i (l ++ [i]) = l.
Proof. intros Hi. rewrite remove_app_notin by set_solver. apply app_nil_r. Qed.

Lemma elem_of_remove i j l : j ∈ remove i l ↔ j ∈ l ∧ j ≠ i.
Proof. unfold remove. rewrite list_elem_of_filter. naive_solver. Qed.

Lemma remove_NoDup i l : NoDup l → NoDup (remove i l).
Proof. apply NoDup_filter. Qed.

Lemma remove_notin i l : i ∉ l → remove i l = l.
Proof. intros Hi. apply filter_all, Forall_forall. set_solver. Qed.
End Seq.

(** ** Representation of a sequence by linked items *)

Fixpoint links (h : gmap id item) (p : option id) (l : list id) (n : option id) : Prop :=
  match l with
  | [] => True
  | i :: l' => h !! i = Some (Item (hd_or l' n) p) ∧ links h (Some i) l' n
  end.

Record rep (s : t) (l : list id) : Prop := {
  rep_nodup : NoDup l;
  rep_head : _head s = hd_or l None;
  rep_tail : _tail s = last_or None l;
  rep_links : links (heap s) None l None }.

Lemma links_app h p l k n :
  links h p (l ++ k) n ↔ links h p l (hd_or k n) ∧ links h (last_or p l) k n.
Proof.
  revert p. induction l as [|i l IH]; intros p; simpl; [naive_solver|].
  rewrite IH, hd_or_app, last_or_cons. naive_solver.
Qed.

Lemma links_insert_ne h i v p l n : i ∉ l → links (<[i:=v]> h) p l n ↔ links h p l n.
Proof.
  revert p. induction l as [|j l IH]; intros p Hi; simpl; [done|].
  rewrite IH by set_solver. rewrite lookup_insert_ne by set_solver. done.
Qed.

(** Symbolic execution of the pointer operations on a store whose relevant items
    are known. *)
Ltac run_step :=
  unfold get_next, get_prev, set_next, set_prev, set_head, set_tail, deref; simpl;
  simplify_map_eq.

Ltac exec :=
  repeat (progress (run_step; rewrite ?decide_True by done; try (rewrite decide_False by congruence);
    rewrite ?lookup_insert_ne by congruence)).

Lemma links_set_prev_first h p p' y k n :
  y ∉ k → links h p (y :: k) n → links (<[y := Item (hd_or k n) p']> h) p' (y :: k) n.
Proof.
  simpl. intros Hy [_ Hk]. rewrite lookup_insert_eq. split; [done|].
  by rewrite links_insert_ne.
Qed.

Lemma links_set_next_last h p n n' k x :
  x ∉ k → links h p (k ++ [x]) n →
  links (<[x := Item n' (last_or p k)]> h) p (k ++ [x]) n'.
Proof.
  intros Hx. rewrite !links_app. simpl. rewrite lookup_insert_eq.
  rewrite links_insert_ne by done. naive_solver.
Qed.

Lemma links_lookup_last h p k x n :
  links h p (k ++ [x]) n → h !! x = Some (Item n (last_or p k)).
Proof. rewrite links_app. simpl. naive_solver. Qed.

Ltac bind_some :=
  match goal with |- context [Some ?a ≫= ?f] => change (Some a ≫= f) with (f a); cbv beta end.

Ltac end_ne :=
  first [apply hd_or_notin | apply last_or_notin]; [set_solver | intros [= ->]; set_solver].

Section Refinement.
Implicit Types (s : t) (l : list id) (i : id).

Lemma rep_empty h : rep (empty h) [].
Proof. split; [constructor|done..]. Qed.

(** Everything outside the list (and the item operated on) keeps its pointers. *)
Definition frame (s s' : t) (l : list id) : Prop :=
  ∀ j, j ∉ l → heap s' !! j = heap s !! j.

Lemma insert_tail_rep s l i :
  rep s l → i ∉ l → is_Some (heap s !! i) →
  ∃ s', insert_tail i s = Some s' ∧ rep s' (Seq.insert_tail i l) ∧ frame s s' (i :: l).
Proof.
  intros [Hnd Hh Ht Hl] Hi [[n p] Hit]. unfold insert_tail.
  destruct s as [h hd tl]; simpl in *; subst.
  destruct (list_snoc_case l) as [->|(k & x & ->)].
  - run_step. eexists; split_and!; [done| |].
    + split; simpl; [apply NoDup_singleton|done..|by rewrite lookup_insert_eq].
    + intros j Hj; simpl. rewrite !lookup_insert_ne by set_solver. done.
  - rewrite last_or_snoc in *. pose proof (links_lookup_last _ _ _ _ _ Hl) as Hx.
    assert (i ≠ x) by set_solver. exec.
    eexists; split_and!; [done| |].
    + split; simpl.
      * apply NoDup_app. split_and!; [done|set_solver|apply NoDup_singleton].
      * unfold Seq.insert_tail. by destruct k.
      * unfold Seq.insert_tail. by rewrite last_or_snoc.
      * unfold Seq.insert_tail. apply links_app; simpl. apply NoDup_app in Hnd as (?&?&?).
        rewrite lookup_insert_eq, last_or_snoc. split; [|done].
        rewrite !links_insert_ne by set_solver. eapply links_set_next_last; [set_solver|done].
    + intros j Hj; simpl. rewrite !lookup_insert_ne by set_solver. done.
Qed.

(** A list member splits the list into what precedes and follows it. *)
Lemma rep_split s l i : rep s l → i ∈ l →
  ∃ k1 k2, l = k1 ++ i :: k2 ∧ i ∉ k1 ∧ i ∉ k2 ∧ NoDup (k1 ++ k2) ∧
    heap s !! i = Some (Item (hd_or k2 None) (last_or None k1)).
Proof.
  intros [Hnd _ _ Hl] (k1 & k2 & ->)%list_elem_of_split.
  exists k1, k2. apply links_app in Hl as [_ [Hi _]].
  apply NoDup_app in Hnd as (H1 & H2 & H3). apply NoDup_cons in H3 as [H3 H4].
  split_and!; [done|set_solver|done| |done].
  apply NoDup_app. set_solver.
Qed.

Lemma insert_head_rep s l i :
  rep s l → i ∉ l → is_Some (heap s !! i) →
  ∃ s', insert_head i s = Some s' ∧ rep s' (Seq.insert_head i l) ∧ frame s s' (i :: l).
Proof.
  intros [Hnd Hh Ht Hl] Hi [[n p] Hit]. unfold insert_head, Seq.insert_head.
  destruct s as [h hd tl]; simpl in *; subst.
  destruct l as [|x l]; simpl in *.
  - run_step. eexists; split_and!; [done| |].
    + split; simpl; [apply NoDup_singleton|done..|by rewrite lookup_insert_eq].
    + intros j Hj; simpl. rewrite !lookup_insert_ne by set_solver. done.
  - destruct Hl as [Hx Hl]. run_step. rewrite lookup_insert_ne by set_solver.
    run_step. eexists; split_and!; [done| |].
    + apply NoDup_cons in Hnd as [? ?].
      split; simpl; [by rewrite !NoDup_cons|done|by rewrite !last_or_cons|].
      rewrite lookup_insert_eq. split; [done|].
      rewrite !lookup_insert_ne, lookup_insert_eq by set_solver.
      split; [done|]. by rewrite !links_insert_ne by set_solver.
    + intros j Hj; simpl. rewrite !lookup_insert_ne by set_solver. done.
Qed.

Lemma remove_rep s l i :
  rep s l → i ∈ l →
  ∃ s', remove i s = Some s' ∧ rep s' (Seq.remove i l) ∧ frame s s' (Seq.remove i l).
Proof.
  intros Hr Hin. destruct (rep_split s l i Hr Hin) as (k1 & k2 & -> & Hk1 & Hk2 & Hnd & Hi).
  rewrite Seq.remove_app_notin by done. destruct Hr as [_ Hh Ht Hl].
  unfold remove. destruct s as [h hd tl]; simpl in *; subst.
  rewrite hd_or_app, last_or_app, last_or_cons; simpl.
  destruct k2 as [|y k2]; destruct (list_snoc_case k1) as [->|(k & x & ->)]; simpl in *;
    rewrite ?last_or_snoc in *; simpl in *; autorewrite with ends in *.
  - exec. eexists; split_and!; [done|by split|done].
  - assert (hd_or k (Some x) ≠ Some i) by end_ne.
    apply links_app in Hl as [Hl _]. pose proof (links_lookup_last _ _ _ _ _ Hl) as Hx.
    exec. eexists; split_and!; [done| |].
    + split; simpl; autorewrite with ends; [done..|].
      eapply links_set_next_last; [|done]. by apply NoDup_snoc in Hnd as [? ?].
    + intros j Hj; simpl. by rewrite lookup_insert_ne by set_solver.
  - assert (last_or (Some y) k2 ≠ Some i) by end_ne.
    destruct Hl as (_ & Hy & Hl). exec. eexists; split_and!; [done| |].
    + split; simpl; [done..|by rewrite last_or_cons|].
      rewrite lookup_insert_eq. split; [done|].
      apply NoDup_cons in Hnd as [? ?]. by rewrite links_insert_ne.
    + intros j Hj; simpl. by rewrite lookup_insert_ne by set_solver.
  - assert (hd_or k (Some x) ≠ Some i) by end_ne.
    assert (last_or (Some y) k2 ≠ Some i) by end_ne.
    apply links_app in Hl as [Hl1 (_ & Hl2)]; simpl in *.
    pose proof (links_lookup_last _ _ _ _ _ Hl1) as Hx.
    assert (x ≠ y ∧ x ∉ k ∧ y ∉ k2 ∧ y ∉ k ∧ x ∉ k2) as (?&?&?&?&?).
    { apply NoDup_app in Hnd as ([? ?]%NoDup_snoc & ? & [? ?]%NoDup_cons). set_solver. }
    destruct Hl2 as [Hy Hl2]. exec.
    eexists; split_and!; [done| |].
    + split; simpl; autorewrite with ends; [done..|].
      apply links_app; simpl; autorewrite with ends. split.
      * apply links_set_next_last with (n := Some i); [done|].
        apply links_insert_ne; [set_solver|done].
      * rewrite lookup_insert_ne, lookup_insert_eq by congruence. split; [done|].
        by rewrite !links_insert_ne.
    + intros j Hj; simpl. by rewrite !lookup_insert_ne by set_solver.
Qed.

Lemma head_to_tail_rep s l :
  rep s l → ∃ s', head_to_tail s = Some s' ∧ rep s' (Seq.head_to_tail l) ∧ frame s s' l.
Proof.
  intros Hr. pose proof Hr as [Hnd Hh Ht Hl]. unfold head_to_tail.
  destruct s as [h hd tl]; simpl in *; subst.
  destruct l as [|i l]; simpl in *; [by eexists|].
  destruct (list_snoc_case l) as [->|(k & x & ->)]; simpl in *.
  { rewrite bool_decide_true by done. by eexists. }
  autorewrite with ends in *. simpl. destruct Hl as [Hi Hl].
  pose proof (links_lookup_last _ _ _ _ _ Hl) as Hx.
  apply NoDup_cons in Hnd as [Hix [Hk Hxk]%NoDup_snoc].
  assert (i ≠ x) by set_solver. rewrite bool_decide_false by congruence. simpl.
  destruct k as [|y k]; simpl in *.
  - exec. eexists; split_and!; [done| |].
    + split; simpl; [|done..|].
      * apply NoDup_cons. split; [set_solver|apply NoDup_singleton].
      * exec. done.
    + intros j Hj; simpl. by rewrite !lookup_insert_ne by set_solver.
  - destruct Hl as [Hy Hl]. assert (i ≠ y ∧ x ≠ y ∧ y ∉ k) as (?&?&?).
    { apply NoDup_cons in Hk. set_solver. }
    exec. eexists; split_and!; [done| |].
    + split; simpl; autorewrite with ends; [|done..|].
      * change (NoDup ((y :: k ++ [x]) ++ [i])). apply NoDup_snoc. split; [|done].
        change (NoDup ((y :: k) ++ [x])). by apply NoDup_snoc.
      * autorewrite with ends. exec. split; [done|]. apply links_app; simpl.
        autorewrite with ends. exec. split; [|done].
        rewrite links_insert_ne by set_solver. rewrite links_insert_ne by set_solver.
        apply links_set_next_last with (n := None); [set_solver|].
        by apply links_insert_ne; [set_solver|].
    + intros j Hj; simpl. by rewrite !lookup_insert_ne by set_solver.
Qed.

Lemma tail_to_head_rep s l i :
  rep s (l ++ [i]) → ∃ s', _tail_to_head s = Some s' ∧ rep s' (i :: l) ∧ frame s s' (i :: l).
Proof.
  intros Hr. pose proof Hr as [Hnd Hh Ht Hl]. unfold _tail_to_head.
  destruct s as [h hd tl]; simpl in *; subst. autorewrite with ends in *.
  destruct l as [|x l]; simpl in *.
  { rewrite bool_decide_true by done. by eexists. }
  apply NoDup_cons in Hnd as [Hx [Hnd Hil]%NoDup_snoc]. assert (i ≠ x) by set_solver.
  rewrite bool_decide_false by congruence. simpl. destruct Hl as [Hx' Hl].
  pose proof (links_lookup_last _ _ _ _ _ Hl) as Hi.
  destruct (list_snoc_case l) as [->|(k & y & ->)]; simpl in *; autorewrite with ends in *.
  - exec. eexists; split_and!; [done| |].
    + split; simpl; [|done..|].
      * apply NoDup_cons. split; [set_solver|apply NoDup_singleton].
      * exec. done.
    + intros j Hj; simpl. by rewrite !lookup_insert_ne by set_solver.
  - apply links_app in Hl as [Hl _]. simpl in Hl.
    pose proof (links_lookup_last _ _ _ _ _ Hl) as Hy.
    apply NoDup_snoc in Hnd as [Hk Hyk]. assert (i ≠ y ∧ x ≠ y) as [??] by set_solver.
    exec. eexists; split_and!; [done| |].
    + split; simpl; autorewrite with ends; [|done..|].
      * apply NoDup_cons. split; [set_solver|]. apply NoDup_cons.
        split; [set_solver|by apply NoDup_snoc].
      * exec. split; [done|]. autorewrite with ends. exec. split; [done|].
        rewrite links_insert_ne by set_solver.
        apply links_set_next_last with (n := Some i); [done|].
        by rewrite !links_insert_ne by set_solver.
    + intros j Hj; simpl. by rewrite !lookup_insert_ne by set_solver.
Qed.

Lemma outside_weaken s s' l l' : (∀ j, j ∈ l → j ∈ l') → frame s s' l → frame s s' l'.
Proof. intros Hsub Hf j Hj. apply Hf. naive_solver. Qed.

(** The private [_to_tail] moves an inner item (the head goes through
    [head_to_tail]); [_connect_neighbors] then has the effect of [remove]. *)
Lemma connect_neighbors_rep s k1 x i y k2 :
  rep s ((k1 ++ [x]) ++ i :: y :: k2) →
  ∃ s', _connect_neighbors i s = Some s' ∧ rep s' ((k1 ++ [x]) ++ y :: k2) ∧
    frame s s' ((k1 ++ [x]) ++ y :: k2) ∧ _tail s' = _tail s ∧ _head s' = _head s.
Proof.
  intros Hr. destruct (remove_rep s _ i Hr) as (s' & Hs' & Hr' & Hf); [set_solver|].
  destruct Hr as [Hnd Hh Ht Hl].
  assert (i ∉ k1 ++ [x] ∧ i ∉ y :: k2 ∧ x ≠ i ∧ y ≠ i) as (Hi1 & Hi2 & ? & ?).
  { apply NoDup_app in Hnd as (_ & Hd & [Hi2 _]%NoDup_cons). set_solver. }
  rewrite Seq.remove_app_notin in Hr', Hf by done.
  unfold remove in Hs'. destruct s as [h hd tl]; simpl in *; subst.
  autorewrite with ends in *. simpl in *; autorewrite with ends in *.
  rewrite decide_False in Hs' by (apply not_eq_sym; end_ne).
  apply links_app in Hl as [Hl1 (Hi & Hy & Hl2)]; autorewrite with ends in *; simpl in *.
  pose proof (links_lookup_last _ _ _ _ _ Hl1) as Hx.
  assert (hd_or k1 (Some x) ≠ Some i) by end_ne.
  assert (x ≠ y) by (apply NoDup_app in Hnd as (_ & Hd & [_ [? _]%NoDup_cons]%NoDup_cons); set_solver).
  unfold _connect_neighbors. revert Hs'. exec.
  intros [= <-]. rewrite insert_insert_ne in Hr', Hf by congruence.
  by eexists; split_and!.
Qed.

(** The re-linking at the end of [_to_tail] and [_to_head] is the insertion
    with its independent writes in another order. *)
Lemma relink_tail s i x :
  _tail s = Some x → x ≠ i → is_Some (heap s !! i) → is_Some (heap s !! x) →
  (s ← set_prev (Some i) (_tail s) s; s ← set_next (Some i) None s;
   s ← set_next (_tail s) (Some i) s; set_tail (Some i) s) = insert_tail i s.
Proof.
  intros Ht Hxi [[n p] Hi] [[n' p'] Hx]. unfold insert_tail. destruct s as [h hd tl].
  simpl in *; subst. exec. rewrite !insert_insert_eq. by rewrite insert_insert_ne.
Qed.

Lemma relink_head s i x :
  _head s = Some x → x ≠ i → is_Some (heap s !! i) → is_Some (heap s !! x) →
  (s ← set_next (Some i) (_head s) s; s ← set_prev (Some i) None s;
   s ← set_prev (_head s) (Some i) s; set_head (Some i) s) = insert_head i s.
Proof.
  intros Ht Hxi [[n p] Hi] [[n' p'] Hx]. unfold insert_head. destruct s as [h hd tl].
  simpl in *; subst. exec. rewrite !insert_insert_eq. by rewrite insert_insert_ne.
Qed.

Lemma rep_lookup s l i : rep s l → i ∈ l → is_Some (heap s !! i).
Proof. intros Hr Hi. destruct (rep_split s l i Hr Hi) as (?&?&?&?&?&?&->). eauto. Qed.

Lemma inner_split l i :
  NoDup l → i ∈ l → Some i ≠ hd_or l None → Some i ≠ last_or None l →
  ∃ k1 x y k2, l = (k1 ++ [x]) ++ i :: y :: k2.
Proof.
  intros Hnd (k1 & k2 & ->)%list_elem_of_split Hh Ht.
  destruct (list_snoc_case k1) as [->|(k & x & ->)]; [done|].
  destruct k2 as [|y k2]; [by rewrite last_or_snoc in Ht|]. by eexists k, x, y, k2.
Qed.

Theorem to_tail_rep s l i :
  rep s l → i ∈ l →
  ∃ s', to_tail i s = Some s' ∧ rep s' (Seq.to_tail i l) ∧ frame s s' l.
Proof.
  intros Hr Hi. unfold to_tail. pose proof Hr as [Hnd Hh Ht _]. case_decide as Hhd.
  { destruct (head_to_tail_rep s l Hr) as (s' & ? & Hr' & ?). exists s'.
    split_and!; [done| |done]. destruct l as [|j l]; [set_solver|].
    rewrite Hh in Hhd; simplify_eq/=. unfold Seq.to_tail.
    apply NoDup_cons in Hnd as [? ?]. by rewrite Seq.remove_hd. }
  unfold _to_tail. case_decide as Htl.
  { exists s. split_and!; [done| |done]. rewrite Ht in Htl.
    destruct (list_snoc_case l) as [->|(k & x & ->)]; [set_solver|].
    rewrite last_or_snoc in Htl; simplify_eq. apply NoDup_snoc in Hnd as [? ?].
    unfold Seq.to_tail. by rewrite Seq.remove_last. }
  destruct (inner_split l i) as (k1 & x & y & k2 & ->); [done|done|congruence..|].
  pose proof (rep_lookup _ _ _ Hr Hi) as Hit.
  destruct (connect_neighbors_rep s k1 x i y k2 Hr) as (s1 & -> & Hr1 & Hf1 & Ht1 & Hh1).
  assert (i ∉ (k1 ++ [x]) ++ y :: k2) as Hni.
  { apply NoDup_app in Hnd as (_ & Hd & [Hi2 _]%NoDup_cons). set_solver. }
  rewrite <- (Hf1 i Hni) in Hit.
  assert (∃ z, _tail s1 = Some z ∧ z ∈ (k1 ++ [x]) ++ y :: k2) as (z & Hz & Hzin).
  { rewrite (rep_tail _ _ Hr1), last_or_app, last_or_cons.
    destruct (list_snoc_case k2) as [->|(k & z & ->)]; [exists y; set_solver|].
    rewrite last_or_snoc. exists z. set_solver. }
  bind_some. rewrite (relink_tail s1 i z) by (done || set_solver || by eapply rep_lookup).
  destruct (insert_tail_rep s1 _ i Hr1 Hni Hit) as (s2 & -> & Hr2 & Hf2).
  exists s2. split_and!; [done| |].
  - unfold Seq.to_tail. by rewrite Seq.remove_app_notin by set_solver.
  - intros j Hj. rewrite (Hf2 j), (Hf1 j); [done|set_solver..].
Qed.

Theorem to_head_rep s l i :
  rep s l → i ∈ l →
  ∃ s', to_head i s = Some s' ∧ rep s' (Seq.to_head i l) ∧ frame s s' l.
Proof.
  intros Hr Hi. unfold to_head. pose proof Hr as [Hnd Hh Ht _]. case_decide as Htl.
  { rewrite Ht in Htl. destruct (list_snoc_case l) as [->|(k & x & ->)]; [set_solver|].
    rewrite last_or_snoc in Htl; simplify_eq.
    destruct (tail_to_head_rep s k x Hr) as (s' & ? & Hr' & Hf'). exists s'.
    apply NoDup_snoc in Hnd as [? ?]. split_and!; [done| |].
    - unfold Seq.to_head. by rewrite Seq.remove_last.
    - eapply outside_weaken; [|done]. set_solver. }
  unfold _to_head. case_decide as Hhd.
  { exists s. split_and!; [done| |done]. destruct l as [|j l]; [set_solver|].
    rewrite Hh in Hhd; simplify_eq/=. apply NoDup_cons in Hnd as [? ?].
    unfold Seq.to_head. by rewrite Seq.remove_hd. }
  destruct (inner_split l i) as (k1 & x & y & k2 & ->); [done|done|congruence..|].
  pose proof (rep_lookup _ _ _ Hr Hi) as Hit.
  destruct (connect_neighbors_rep s k1 x i y k2 Hr) as (s1 & -> & Hr1 & Hf1 & Ht1 & Hh1).
  assert (i ∉ (k1 ++ [x]) ++ y :: k2) as Hni.
  { apply NoDup_app in Hnd as (_ & Hd & [Hi2 _]%NoDup_cons). set_solver. }
  rewrite <- (Hf1 i Hni) in Hit.
  assert (∃ z, _head s1 = Some z ∧ z ∈ (k1 ++ [x]) ++ y :: k2) as (z & Hz & Hzin).
  { rewrite (rep_head _ _ Hr1). destruct k1 as [|z k1]; simpl; eexists; split; try done; set_solver. }
  bind_some. rewrite (relink_head s1 i z) by (done || set_solver || by eapply rep_lookup).
  destruct (insert_head_rep s1 _ i Hr1 Hni Hit) as (s2 & -> & Hr2 & Hf2).
  exists s2. split_and!; [done| |].
  - unfold Seq.to_head. by rewrite Seq.remove_app_notin by set_solver.
  - intros j Hj. rewrite (Hf2 j), (Hf1 j); [done|set_solver..].
Qed.

(** [for_each] terminates and visits the items in list order. *)
Lemma for_each_from_links {A} (f : id → A → A) fuel s p l a :
  links (heap s) p l None → (length l ≤ fuel)%nat →
  for_each_from fuel f (hd_or l None) s a = Some (fold_left (λ a i, f i a) l a).
Proof.
  revert p fuel a. induction l as [|i l IH]; intros p fuel a Hl Hf; simpl in *.
  { by destruct fuel. }
  destruct fuel as [|fuel]; [lia|]. destruct Hl as [Hi Hl]. simpl. run_step.
  eapply IH; [done|lia].
Qed.

Lemma for_each_rep {A} (f : id → A → A) fuel s l a :
  rep s l → (length l ≤ fuel)%nat →
  for_each fuel f s a = Some (fold_left (λ a i, f i a) l a).
Proof.
  intros [_ Hh _ Hl] Hf. unfold for_each. rewrite Hh. by eapply for_each_from_links.
Qed.
End Refinement.

(** ** The list as an abstract data type *)

Inductive op :=
  | Insert_tail (i : id) | Insert_head (i : id) | Remove (i : id)
  | To_tail (i : id) | To_head (i : id) | Head_to_tail.

Definition run (o : op) : t → option t :=
  match o with
  | Insert_tail i => insert_tail i | Insert_head i => insert_head i | Remove i => remove i
  | To_tail i => to_tail i | To_head i => to_head i | Head_to_tail => head_to_tail
  end.

Definition abs_run (o : op) : list id → list id :=
  match o with
  | Insert_tail i => Seq.insert_tail i | Insert_head i => Seq.insert_head i
  | Remove i => Seq.remove i | To_tail i => Seq.to_tail i | To_head i => Seq.to_head i
  | Head_to_tail => Seq.head_to_tail
  end.

(** What a caller must guarantee: an inserted item exists and is not yet in the
    list, a moved or removed one is. *)
Definition pre (h : gmap id item) (o : op) (l : list id) : bool :=
  match o with
  | Insert_tail i | Insert_head i => bool_decide (i ∉ l) && bool_decide (is_Some (h !! i))
  | Remove i | To_tail i | To_head i => bool_decide (i ∈ l)
  | Head_to_tail => true
  end.

Lemma run_refines s l o :
  rep s l → pre (heap s) o l = true →
  ∃ s', run o s = Some s' ∧ rep s' (abs_run o l) ∧
    ∀ j, is_Some (heap s !! j) → is_Some (heap s' !! j).
Proof.
  intros Hr Hp. cut (∃ s' k, run o s = Some s' ∧ rep s' (abs_run o l) ∧ frame s s' k ∧
    ∀ j, j ∈ k → j ∈ abs_run o l).
  { intros (s' & k & ? & Hr' & Hf & Hk). exists s'. split_and!; [done..|].
    intros j Hj. destruct (decide (j ∈ k)) as [Hin|Hin].
    - eapply rep_lookup; [done|naive_solver].
    - by rewrite Hf. }
  destruct o as [i|i|i|i|i|]; simpl in *;
    rewrite ?andb_true_iff, ?bool_decide_eq_true in Hp; destruct_and?.
  - destruct (insert_tail_rep s l i) as (s' & ? & ? & ?); [done..|].
    exists s', (i :: l). split_and!; [done..|]. unfold Seq.insert_tail. set_solver.
  - destruct (insert_head_rep s l i) as (s' & ? & ? & ?); [done..|].
    exists s', (i :: l). by split_and!.
  - destruct (remove_rep s l i) as (s' & ? & ? & ?); [done..|]. by eexists s', _.
  - destruct (to_tail_rep s l i) as (s' & ? & ? & ?); [done..|].
    exists s', l. split_and!; [done..|]. unfold Seq.to_tail. intros j Hj.
    rewrite elem_of_app, Seq.elem_of_remove. destruct (decide (j = i)); set_solver.
  - destruct (to_head_rep s l i) as (s' & ? & ? & ?); [done..|].
    exists s', l. split_and!; [done..|]. unfold Seq.to_head. intros j Hj.
    rewrite elem_of_cons, Seq.elem_of_remove. destruct (decide (j = i)); set_solver.
  - destruct (head_to_tail_rep s l) as (s' & ? & ? & ?); [done..|].
    exists s', l. split_and!; [done..|]. destruct l; set_solver.
Qed.

Fixpoint run_all (os : list op) (s : t) : option t :=
  match os with [] => Some s | o :: os => s ← run o s; run_all os s end.

Fixpoint abs_run_all (os : list op) (l : list id) : list id :=
  match os with [] => l | o :: os => abs_run_all os (abs_run o l) end.

Fixpoint valid_trace (h : gmap id item) (os : list op) (l : list id) : bool :=
  match os with [] => true | o :: os => pre h o l && valid_trace h os (abs_run o l) end.

Lemma pre_mono h h' o l :
  (∀ j, is_Some (h !! j) → is_Some (h' !! j)) → pre h o l = true → pre h' o l = true.
Proof. destruct o; simpl; rewrite ?andb_true_iff, ?bool_decide_eq_true; naive_solver. Qed.

Lemma valid_trace_mono h h' os l :
  (∀ j, is_Some (h !! j) → is_Some (h' !! j)) →
  valid_trace h os l = true → valid_trace h' os l = true.
Proof.
  intros Hh. revert l. induction os as [|o os IH]; intros l; simpl; [done|].
  rewrite !andb_true_iff. intros [? ?]. eauto using pre_mono.
Qed.

(** C18: the linked list refines the sequence.  Every sequence of operations whose
    callers keep to the contract runs without dereferencing a null or foreign
    pointer, and afterwards [for_each] enumerates exactly the items the sequence
    operations give, in their order. *)
Theorem double_list_refines h os :
  valid_trace h os [] = true →
  ∃ s, run_all os (empty h) = Some s ∧ rep s (abs_run_all os []) ∧
    ∀ fuel, (length (abs_run_all os []) ≤ fuel)%nat →
      for_each fuel (λ i l, l ++ [i]) s [] = Some (abs_run_all os []).
Proof.
  intros Hv. cut (∃ s, run_all os (empty h) = Some s ∧ rep s (abs_run_all os [])).
  { intros (s & Hs & Hr). exists s. split_and!; [done..|]. intros fuel Hf.
    by rewrite (for_each_rep _ _ _ _ _ Hr Hf), fold_left_snoc. }
  pose proof (rep_empty h) as Hr. change h with (heap (empty h)) in Hv.
  revert Hv Hr. generalize (@nil id) as l. generalize (empty h) as s.
  induction os as [|o os IH]; intros s l Hv Hr; simpl in *; [eauto|].
  apply andb_true_iff in Hv as [Hp Hv].
  destruct (run_refines s l o Hr Hp) as (s' & -> & Hr' & Hdom). simpl.
  eapply IH; [|done]. eapply valid_trace_mono; done.
Qed.

(** The witness runs four items through every operation. *)
Definition demo_heap : gmap id item :=
  list_to_map ((λ i, (i, Item None None)) <$> [1; 2; 3; 4]%nat).

Definition demo_ops : list op :=
  [Insert_tail 1; Insert_tail 2; Insert_head 3; Insert_tail 4; To_tail 1; To_head 2;
   To_tail 2; To_head 1; Head_to_tail; Remove 4; Insert_tail 4]%nat.

Lemma double_list_refines_witness :
  valid_trace demo_heap demo_ops [] = true ∧
  ∃ s, run_all demo_ops (empty demo_heap) = Some s ∧
    for_each 4 (λ i l, l ++ [i]) s [] = Some [3; 2; 1; 4]%nat.
Proof.
  split; [vm_compute; reflexivity|].
  destruct (double_list_refines demo_heap demo_ops) as (s & Hs & _ & Hf);
    [vm_compute; reflexivity|].
  exists s. split; [exact Hs|]. rewrite Hf; [reflexivity|vm_compute; lia].
Defined.

(** The sequence operations with the contract of the list made explicit: [None]
    when the caller breaks it (a list the pointer code would corrupt). *)
Definition abs_step (o : op) (l : list id) : option (list id) :=
  match o with
  | Insert_tail i | Insert_head i => if decide (i ∉ l) then Some (abs_run o l) else None
  | Remove i | To_tail i | To_head i => if decide (i ∈ l) then Some (abs_run o l) else None
  | Head_to_tail => Some (abs_run o l)
  end.
