(* ===== verification/Cpu_scheduler.v ===== *)
(** * Cpu_scheduler: claims and fills of CPU time

    Model of [src/repos/base-hw/src/core/kernel/cpu_scheduler.h] and
    [cpu_scheduler.cc].  A share is identified by the identity of its list items;
    its fields are in the store [shares].  The lists are the sequences that
    [Double_list] implements, used through [Double_list.abs_step], so an operation
    is [None] when it would violate the contract of a list, fail an [assert], or
    dereference a null head. *)

From stdpp Require Import functions.
From S2P Require Import Prelude.
From S2P Require Import Double_list.

Open Scope Z_scope.
Open Scope word_scope.

(** [Kernel::cpu_priorities] of [kernel/configuration.h]. *)
Definition cpu_priorities : Z := 4.

Definition Prio_min : Z := 0.
Definition Prio_max : Z := cpu_priorities - 1.

(** The constructor of [Cpu_priority] clamps. *)
Definition Cpu_priority (v : Z) : Z := Z.min v Prio_max.

Record share := Share {
  _prio : Z; s_quota : Z; _claim : Z; s_fill : Z; _ready : bool }.

Definition Cpu_share (p q : Z) : share := Share (Cpu_priority p) q q 0 false.

Definition set_claim (v : Z) (s : share) := Share (_prio s) (s_quota s) v (s_fill s) (_ready s).
Definition set_fill (v : Z) (s : share) := Share (_prio s) (s_quota s) (_claim s) v (_ready s).
Definition set_quota (v : Z) (s : share) := Share (_prio s) v (_claim s) (s_fill s) (_ready s).
Definition set_ready (v : bool) (s : share) := Share (_prio s) (s_quota s) (_claim s) (s_fill s) v.

Record t := Mk {
  shares : gmap id share;
  _rcl : Z → list id;          (* ready claims, one list per priority *)
  _ucl : Z → list id;          (* unready claims *)
  _fills : list id;            (* ready fills *)
  _idle : id;
  _head : option id;
  _head_quota : Z;
  _head_claims : bool;
  _head_yields : bool;
  _head_was_removed : bool;
  _quota : Z;
  _residual : Z;
  _fill : Z;
  _need_to_schedule : bool;
  _last_time : Z }.

(** Field updates. *)
Definition with_shares v s := Mk v (_rcl s) (_ucl s) (_fills s) (_idle s) (_head s) (_head_quota s) (_head_claims s) (_head_yields s) (_head_was_removed s) (_quota s) (_residual s) (_fill s) (_need_to_schedule s) (_last_time s).
Definition with_rcl v s := Mk (shares s) v (_ucl s) (_fills s) (_idle s) (_head s) (_head_quota s) (_head_claims s) (_head_yields s) (_head_was_removed s) (_quota s) (_residual s) (_fill s) (_need_to_schedule s) (_last_time s).
Definition with_ucl v s := Mk (shares s) (_rcl s) v (_fills s) (_idle s) (_head s) (_head_quota s) (_head_claims s) (_head_yields s) (_head_was_removed s) (_quota s) (_residual s) (_fill s) (_need_to_schedule s) (_last_time s).
Definition with_fills v s := Mk (shares s) (_rcl s) (_ucl s) v (_idle s) (_head s) (_head_quota s) (_head_claims s) (_head_yields s) (_head_was_removed s) (_quota s) (_residual s) (_fill s) (_need_to_schedule s) (_last_time s).
Definition with_head h q c s := Mk (shares s) (_rcl s) (_ucl s) (_fills s) (_idle s) h q c (_head_yields s) (_head_was_removed s) (_quota s) (_residual s) (_fill s) (_need_to_schedule s) (_last_time s).
Definition with_yields v s := Mk (shares s) (_rcl s) (_ucl s) (_fills s) (_idle s) (_head s) (_head_quota s) (_head_claims s) v (_head_was_removed s) (_quota s) (_residual s) (_fill s) (_need_to_schedule s) (_last_time s).
Definition with_removed v s := Mk (shares s) (_rcl s) (_ucl s) (_fills s) (_idle s) (_head s) (_head_quota s) (_head_claims s) (_head_yields s) v (_quota s) (_residual s) (_fill s) (_need_to_schedule s) (_last_time s).
Definition with_residual v s := Mk (shares s) (_rcl s) (_ucl s) (_fills s) (_idle s) (_head s) (_head_quota s) (_head_claims s) (_head_yields s) (_head_was_removed s) (_quota s) v (_fill s) (_need_to_schedule s) (_last_time s).
Definition with_need v s := Mk (shares s) (_rcl s) (_ucl s) (_fills s) (_idle s) (_head s) (_head_quota s) (_head_claims s) (_head_yields s) (_head_was_removed s) (_quota s) (_residual s) (_fill s) v (_last_time s).
Definition with_last_time v s := Mk (shares s) (_rcl s) (_ucl s) (_fills s) (_idle s) (_head s) (_head_quota s) (_head_claims s) (_head_yields s) (_head_was_removed s) (_quota s) (_residual s) (_fill s) (_need_to_schedule s) v.

Definition update_share (i : id) (f : share → share) (s : t) : t := with_shares (alter f i (shares s)) s.

Definition on_rcl (p : Z) (o : op) (s : t) : option t :=
  l ← abs_step o (_rcl s p); Some (with_rcl (<[p := l]> (_rcl s)) s).
Definition on_ucl (p : Z) (o : op) (s : t) : option t :=
  l ← abs_step o (_ucl s p); Some (with_ucl (<[p := l]> (_ucl s)) s).
Definition on_fills (o : op) (s : t) : option t :=
  l ← abs_step o (_fills s); Some (with_fills l s).

(** [_for_each_prio]: the priorities from the highest to the lowest. *)
Definition prios : list Z := [3; 2; 1; 0].

Definition _reset (s : share) : share := set_claim (s_quota s) s.

Definition reset_all (l : list id) (m : gmap id share) : gmap id share :=
  fold_left (λ m i, alter _reset i m) l m.

Definition _reset_claims (p : Z) (s : t) : t :=
  with_shares (reset_all (_ucl s p) (reset_all (_rcl s p) (shares s))) s.

Definition _next_round (s : t) : t :=
  fold_left (λ s p, _reset_claims p s) prios (with_residual (_quota s) s).

Definition _consumed (q : Z) (s : t) : t :=
  if q <? _residual s then with_residual (_residual s - q) s else _next_round s.

Definition _set_head (i : id) (q : Z) (c : bool) (s : t) : t := with_head (Some i) q c s.

Definition _next_fill (h : id) (s : t) : option t :=
  on_fills Head_to_tail (update_share h (set_fill (_fill s)) s).

Definition _head_claimed (h : id) (r : Z) (s : t) : option t :=
  sh ← shares s !! h;
  if s_quota sh =? 0 then Some s
  else
    let claim := if s_quota sh <? r then s_quota sh else r in
    let s := update_share h (set_claim claim) s in
    if negb (claim =? 0) || negb (_ready sh) then Some s
    else
      s ← on_rcl (_prio sh) (To_tail h) s;
      if negb (_head_yields s) then on_fills (To_head h) s else Some s.

Definition _head_filled (h : id) (r : Z) (s : t) : option t :=
  if decide (head (_fills s) = Some h) then
    if negb (r =? 0) then Some (update_share h (set_fill r) s) else _next_fill h s
  else Some s.

(** The share the scan over the priorities stops at. *)
Fixpoint find_claim (ps : list Z) (s : t) : option (id * Z) :=
  match ps with
  | [] => None
  | p :: ps =>
      match head (_rcl s p) with
      | None => find_claim ps s
      | Some i =>
          match shares s !! i with
          | None => None
          | Some sh => if _claim sh =? 0 then find_claim ps s else Some (i, _claim sh)
          end
      end
  end.

Definition _claim_for_head (s : t) : bool * t :=
  match find_claim prios s with
  | None => (false, s)
  | Some (i, q) => (true, _set_head i q true s)
  end.

Definition _fill_for_head (s : t) : bool * t :=
  match head (_fills s) with
  | None => (false, s)
  | Some i => (true, _set_head i (from_option s_fill 0 (shares s !! i)) false s)
  end.

(** Returns the remaining quota of the head and the trimmed consumption. *)
Definition _trim_consumption (q : Z) (s : t) : Z * Z :=
  let q := Z.min (Z.min q (_head_quota s)) (_residual s) in
  (if negb (_head_yields s) then _head_quota s - q else 0, q).

Definition _quota_introduction (i : id) (s : t) : option t :=
  sh ← shares s !! i;
  if _ready sh then on_rcl (_prio sh) (Insert_tail i) s
  else on_ucl (_prio sh) (Insert_tail i) s.

Definition _quota_revokation (i : id) (s : t) : option t :=
  sh ← shares s !! i;
  if _ready sh then on_rcl (_prio sh) (Remove i) s
  else on_ucl (_prio sh) (Remove i) s.

Definition _quota_adaption (i : id) (q : Z) (s : t) : option t :=
  sh ← shares s !! i;
  if negb (q =? 0) then
    Some (if q <? _claim sh then update_share i (set_claim q) s else s)
  else _quota_revokation i s.

(** The choice of the next head that ends [update]. *)
Definition choose_head (s : t) : t :=
  let '(done, s) := _claim_for_head s in
  if done then s else
  let '(done, s) := _fill_for_head s in
  if done then s else _set_head (_idle s) (_fill s) false s.

Definition account_head (duration : Z) (s : t) : option t :=
  match _head s with
  | Some h =>
      let '(r, duration) := _trim_consumption duration s in
      s ← (if _head_claims s then _head_claimed h r s else _head_filled h r s);
      Some (_consumed duration (with_yields false s))
  | None =>
      if _head_was_removed s then
        let '(_, duration) := _trim_consumption duration s in
        Some (_consumed duration (with_yields false (with_removed false s)))
      else Some s
  end.

Definition update (time : Z) (s : t) : option t :=
  let duration := u32 (time -64 _last_time s) in
  let s := with_need false (with_last_time time s) in
  s ← account_head duration s;
  Some (choose_head s).

Definition timeout (s : t) : t := with_need true s.

(** Whether a share with unconsumed claim of priority [p] asks for a schedule. *)
Definition preempts (p : Z) (s : t) : bool :=
  match _head s with
  | Some h =>
      if _head_claims s then
        match shares s !! h with Some hs => _prio hs <=? p | None => true end
      else true
  | None => true
  end.

Definition ready (i : id) (s : t) : option t :=
  sh ← shares s !! i;
  if _ready sh || bool_decide (i = _idle s) then None (* assert *)
  else
    let s := update_share i (set_ready true) s in
    s ← (if negb (s_quota sh =? 0) then
           s ← on_ucl (_prio sh) (Remove i) s;
           if negb (_claim sh =? 0) then
             s ← on_rcl (_prio sh) (Insert_head i) s;
             Some (if preempts (_prio sh) s then with_need true s else s)
           else on_rcl (_prio sh) (Insert_tail i) s
         else Some s);
    let s := update_share i (set_fill (_fill s)) s in
    s ← on_fills (Insert_tail i) s;
    Some (if bool_decide (_head s = None) || bool_decide (_head s = Some (_idle s))
          then with_need true s else s).

Definition unready (i : id) (s : t) : option t :=
  sh ← shares s !! i;
  if negb (_ready sh) || bool_decide (i = _idle s) then None (* assert *)
  else
    let s := if decide (_head s = Some i) then with_need true s else s in
    let s := update_share i (set_ready false) s in
    s ← on_fills (Remove i) s;
    if s_quota sh =? 0 then Some s
    else
      s ← on_rcl (_prio sh) (Remove i) s;
      on_ucl (_prio sh) (Insert_tail i) s.

Definition yield (s : t) : t := with_need true (with_yields true s).

Definition remove (i : id) (s : t) : option t :=
  sh ← shares s !! i;
  if bool_decide (i = _idle s) then None (* assert *)
  else
    s ← (if _ready sh then unready i s else Some s);
    let s := if decide (_head s = Some i)
             then with_removed true (with_head None (_head_quota s) (_head_claims s) s) else s in
    if s_quota sh =? 0 then Some s else on_ucl (_prio sh) (Remove i) s.

Definition insert (i : id) (s : t) : option t :=
  sh ← shares s !! i;
  if _ready sh then None (* assert *)
  else if s_quota sh =? 0 then Some s
  else on_ucl (_prio sh) (Insert_head i) (update_share i (set_claim (s_quota sh)) s).

Definition quota (i : id) (q : Z) (s : t) : option t :=
  sh ← shares s !! i;
  if bool_decide (i = _idle s) then None (* assert *)
  else
    s ← (if negb (s_quota sh =? 0) then _quota_adaption i q s
         else if negb (q =? 0) then _quota_introduction i s else Some s);
    Some (update_share i (set_quota q) s).

(** [head()] falls back to an [update] at the last time when there is no head. *)
Definition get_head (s : t) : option (id * t) :=
  match _head s with
  | Some h => Some (h, s)
  | None => s ← update (_last_time s) s; h ← _head s; Some (h, s)
  end.

Definition head_quota (s : t) : Z := Z.min (_head_quota s) (_residual s).

(** The constructor, for an idle share that is part of the store of shares. *)
Definition Cpu_scheduler (m : gmap id share) (i : id) (q f : Z) : t :=
  _set_head i f false
    (Mk m (λ _, []) (λ _, []) [] i None 0 false false false q q f true 0).
