(* ===== verification/Cpu_scheduler_inv.v ===== *)
(** * Cpu_scheduler_inv: the scheduler's invariant and the quality of its choice

    Proofs about [Cpu_scheduler]: every operation keeps the lists consistent with
    the fields of the shares, breaks no list contract, and [update] chooses the
    head the claim and fill discipline asks for. *)

From stdpp Require Import functions sorting.
From S2P Require Import Prelude.
From S2P Require Import Double_list.
From S2P Require Import Cpu_scheduler.

Open Scope Z_scope.

(** ** Which list a share is in

    [M] is the set of shares that are inserted into the scheduler; it is implicit
    in the code (the callers of [insert] and [remove] keep it). *)

Definition fill_member (M : gset id) (m : gmap id share) (j : id) : Prop :=
  j ∈ M ∧ ∃ sh, m !! j = Some sh ∧ _ready sh = true.

Definition claim_member (M : gset id) (m : gmap id share) (b : bool) (p : Z) (j : id) : Prop :=
  j ∈ M ∧ ∃ sh, m !! j = Some sh ∧ _ready sh = b ∧ s_quota sh ≠ 0 ∧ _prio sh = p.

(** The duplicate-free list of exactly the shares with property [P]. *)
Definition lists (l : list id) (P : id → Prop) : Prop := NoDup l ∧ ∀ j, j ∈ l ↔ P j.

Definition lists_ok (M : gset id) (s : t) : Prop :=
  lists (_fills s) (fill_member M (shares s)) ∧
  (∀ p, lists (_rcl s p) (claim_member M (shares s) true p)) ∧
  (∀ p, lists (_ucl s p) (claim_member M (shares s) false p)).

Lemma fills_ok M s : lists_ok M s → lists (_fills s) (fill_member M (shares s)).
Proof. by intros (? & _). Qed.
Lemma rcl_ok M s : lists_ok M s → ∀ p, lists (_rcl s p) (claim_member M (shares s) true p).
Proof. by intros (_ & ? & _). Qed.
Lemma ucl_ok M s : lists_ok M s → ∀ p, lists (_ucl s p) (claim_member M (shares s) false p).
Proof. by intros (_ & _ & ?). Qed.

Lemma lists_equiv l P Q : (∀ j, P j ↔ Q j) → lists l P → lists l Q.
Proof. intros H [? Hl]. split; [done|]. intros j. rewrite Hl. apply H. Qed.

Definition step_effect (o : op) (l : list id) (j : id) : Prop :=
  match o with
  | Insert_tail i | Insert_head i => j = i ∨ j ∈ l
  | Remove i => j ≠ i ∧ j ∈ l
  | _ => j ∈ l
  end.

Lemma abs_step_effect o l l' :
  NoDup l → abs_step o l = Some l' → lists l' (step_effect o l).
Proof.
  intros Hl. destruct o as [i|i|i|i|i|]; simpl; try case_decide; intros [= <-];
    unfold Seq.insert_tail, Seq.insert_head, Seq.to_tail, Seq.to_head, Seq.head_to_tail.
  - split; [by apply NoDup_snoc|set_solver].
  - split; [by apply NoDup_cons|set_solver].
  - split; [by apply Seq.remove_NoDup|]. intros j. rewrite Seq.elem_of_remove. naive_solver.
  - split.
    + apply NoDup_snoc. rewrite Seq.elem_of_remove. split; [by apply Seq.remove_NoDup|naive_solver].
    + intros j. rewrite elem_of_app, Seq.elem_of_remove. destruct (decide (j = i)); set_solver.
  - split.
    + apply NoDup_cons. rewrite Seq.elem_of_remove. split; [naive_solver|by apply Seq.remove_NoDup].
    + intros j. rewrite elem_of_cons, Seq.elem_of_remove. destruct (decide (j = i)); set_solver.
  - destruct l as [|i l]; [by split|]. apply NoDup_cons in Hl as [? ?].
    split; [by apply NoDup_snoc|]. set_solver.
Qed.

(** When a list operation is defined. *)
Lemma abs_step_lists o l P :
  lists l P →
  match o with
  | Insert_tail i | Insert_head i => ¬ P i
  | Remove i | To_tail i | To_head i => P i
  | Head_to_tail => True
  end →
  ∃ l', abs_step o l = Some l' ∧ lists l' (step_effect o l).
Proof.
  intros [Hnd Hl] Ho. destruct (abs_step o l) as [l'|] eqn:E.
  - exists l'. split; [done|]. by eapply abs_step_effect.
  - exfalso. destruct o as [i|i|i|i|i|]; simpl in *; try done; rewrite <- Hl in Ho;
      by case_decide.
Qed.

(** The fields that decide about list membership. *)
Definition key (sh : share) : Z * Z * bool := (_prio sh, s_quota sh, _ready sh).
Definition same_keys (m m' : gmap id share) : Prop := ∀ j, key <$> m' !! j = key <$> m !! j.

Lemma same_keys_lookup m m' j sh :
  same_keys m m' → m !! j = Some sh →
  ∃ sh', m' !! j = Some sh' ∧ _prio sh' = _prio sh ∧ s_quota sh' = s_quota sh ∧ _ready sh' = _ready sh.
Proof.
  intros Hk Hj. specialize (Hk j). rewrite Hj in Hk. destruct (m' !! j) as [sh'|]; [|done].
  injection Hk as ???. eauto.
Qed.

Lemma same_keys_sym m m' : same_keys m m' → same_keys m' m.
Proof. intros H j. by rewrite H. Qed.

Lemma same_keys_alter f i m : (∀ sh, key (f sh) = key sh) → same_keys m (alter f i m).
Proof.
  intros Hf j. rewrite lookup_alter. case_decide as Hij; [rewrite <- Hij|done].
  destruct (m !! i); simpl; [|done]. by rewrite Hf.
Qed.

Lemma same_keys_trans m1 m2 m3 : same_keys m1 m2 → same_keys m2 m3 → same_keys m1 m3.
Proof. intros H1 H2 j. by rewrite H2. Qed.

Lemma fill_member_keys_1 M m m' j : same_keys m m' → fill_member M m j → fill_member M m' j.
Proof.
  intros Hk (HM & sh & Hj & Hr). split; [done|].
  destruct (same_keys_lookup m m' j sh) as (sh' & ? & ? & ? & ?); [done..|].
  exists sh'. split; congruence.
Qed.

Lemma fill_member_keys M m m' j : same_keys m m' → fill_member M m j ↔ fill_member M m' j.
Proof. split; apply fill_member_keys_1; [done|by apply same_keys_sym]. Qed.

Lemma claim_member_keys_1 M m m' b p j :
  same_keys m m' → claim_member M m b p j → claim_member M m' b p j.
Proof.
  intros Hk (HM & sh & Hj & Hr & Hq & Hp). split; [done|].
  destruct (same_keys_lookup m m' j sh) as (sh' & ? & ? & ? & ?); [done..|].
  exists sh'. split_and!; congruence.
Qed.

Lemma claim_member_keys M m m' b p j :
  same_keys m m' → claim_member M m b p j ↔ claim_member M m' b p j.
Proof. split; apply claim_member_keys_1; [done|by apply same_keys_sym]. Qed.

Lemma fills_ok_keys M m m' l :
  same_keys m m' → lists l (fill_member M m) → lists l (fill_member M m').
Proof. intros Hk. apply lists_equiv. intros j. by apply fill_member_keys. Qed.

Lemma claims_ok_keys M m m' b p l :
  same_keys m m' → lists l (claim_member M m b p) → lists l (claim_member M m' b p).
Proof. intros Hk. apply lists_equiv. intros j. by apply claim_member_keys. Qed.

Lemma fill_member_ne M M' m m' i j :
  j ≠ i → m' !! j = m !! j → (j ∈ M ↔ j ∈ M') → fill_member M m j ↔ fill_member M' m' j.
Proof. unfold fill_member. intros ? -> ->. done. Qed.

Lemma claim_member_ne M M' m m' b p i j :
  j ≠ i → m' !! j = m !! j → (j ∈ M ↔ j ∈ M') →
  claim_member M m b p j ↔ claim_member M' m' b p j.
Proof. unfold claim_member. intros ? -> ->. done. Qed.

Lemma fill_member_eq M m i sh :
  m !! i = Some sh → fill_member M m i ↔ i ∈ M ∧ _ready sh = true.
Proof. unfold fill_member. intros ->. naive_solver. Qed.

Lemma claim_member_eq M m b p i sh :
  m !! i = Some sh →
  claim_member M m b p i ↔ i ∈ M ∧ _ready sh = b ∧ s_quota sh ≠ 0 ∧ _prio sh = p.
Proof. unfold claim_member. intros ->. naive_solver. Qed.

(** Changing one share [i] and the lists it is in. *)
Lemma claims_upd M M' m m' b p i l l' :
  lists l (claim_member M m b p) → NoDup l' →
  (∀ j, j ≠ i → j ∈ l' ↔ j ∈ l) → (i ∈ l' ↔ claim_member M' m' b p i) →
  (∀ j, j ≠ i → m' !! j = m !! j) → (∀ j, j ≠ i → j ∈ M ↔ j ∈ M') →
  lists l' (claim_member M' m' b p).
Proof.
  intros [_ Hl] Hnd Hne Hi Hm HM. split; [done|]. intros j.
  destruct (decide (j = i)) as [->|Hj]; [done|].
  rewrite Hne, Hl by done. apply (claim_member_ne _ _ _ _ _ _ i); auto.
Qed.

Lemma fills_upd M M' m m' i l l' :
  lists l (fill_member M m) → NoDup l' →
  (∀ j, j ≠ i → j ∈ l' ↔ j ∈ l) → (i ∈ l' ↔ fill_member M' m' i) →
  (∀ j, j ≠ i → m' !! j = m !! j) → (∀ j, j ≠ i → j ∈ M ↔ j ∈ M') →
  lists l' (fill_member M' m').
Proof.
  intros [_ Hl] Hnd Hne Hi Hm HM. split; [done|]. intros j.
  destruct (decide (j = i)) as [->|Hj]; [done|].
  rewrite Hne, Hl by done. apply (fill_member_ne _ _ _ _ i); auto.
Qed.

(** Unconsumed claims precede depleted ones. *)
Definition depleted (m : gmap id share) (i : id) : Prop := ∀ sh, m !! i = Some sh → _claim sh = 0.
Definition claims_first (m : gmap id share) (l : list id) : Prop :=
  StronglySorted (λ i j, depleted m i → depleted m j) l.

Lemma claims_first_filter m (P : id → Prop) `{∀ x, Decision (P x)} l :
  claims_first m l → claims_first m (filter P l).
Proof.
  unfold claims_first. induction l as [|i l IH]; [done|].
  rewrite StronglySorted_cons. intros [Hf Hs]. rewrite filter_cons. case_decide; [|auto].
  apply StronglySorted_cons. split; [|auto]. rewrite Forall_forall in *.
  intros j [_ ?]%list_elem_of_filter. auto.
Qed.

Lemma claims_first_snoc m l i : claims_first m l → depleted m i → claims_first m (l ++ [i]).
Proof.
  intros Hl Hi. apply StronglySorted_app. split_and!; [|done|constructor; constructor].
  intros x1 x2 _ ->%list_elem_of_singleton. done.
Qed.

Lemma claims_first_cons m l i : claims_first m l → ¬ depleted m i → claims_first m (i :: l).
Proof. intros Hl Hi. apply StronglySorted_cons. split; [|done]. by apply Forall_forall. Qed.

Lemma claims_first_none m l : (∀ i, i ∈ l → ¬ depleted m i) → claims_first m l.
Proof.
  intros Hl. induction l as [|i l IH]; [constructor|]. apply claims_first_cons; set_solver.
Qed.

Lemma claims_first_equiv m m' l :
  (∀ i, i ∈ l → depleted m i ↔ depleted m' i) → claims_first m l → claims_first m' l.
Proof.
  intros Heq. induction l as [|i l IH]; [constructor|]. unfold claims_first.
  rewrite !StronglySorted_cons, !Forall_forall. intros [Hf Hs]. split.
  - intros j Hj. rewrite <- !Heq by set_solver. auto.
  - apply IH; set_solver.
Qed.

(** A depleted head of the list means that the whole list is depleted. *)
Lemma claims_first_head m l i :
  claims_first m l → head l = Some i → depleted m i → ∀ j, j ∈ l → depleted m j.
Proof.
  destruct l as [|i' l]; [done|]. simpl. intros Hs [= ->] Hi j.
  apply StronglySorted_cons in Hs as [Hf _]. rewrite Forall_forall in Hf. set_solver.
Qed.

Lemma depleted_eq m i sh : m !! i = Some sh → depleted m i ↔ _claim sh = 0.
Proof. unfold depleted. intros ->. naive_solver. Qed.

Lemma depleted_ne m m' j : m' !! j = m !! j → depleted m j ↔ depleted m' j.
Proof. unfold depleted. by intros ->. Qed.

Lemma depleted_alter f h m i :
  (∀ sh, _claim (f sh) = _claim sh) → depleted m i ↔ depleted (alter f h m) i.
Proof.
  intros Hf. destruct (decide (i = h)) as [->|Hne].
  - unfold depleted. rewrite lookup_alter_eq. destruct (m !! h) as [sh|]; simpl; [|done].
    split; intros H ? [= <-]; [rewrite Hf|rewrite <- Hf]; by apply H.
  - apply depleted_ne. by rewrite lookup_alter_ne.
Qed.

Definition share_ok (sh : share) : Prop :=
  0 ≤ _prio sh ≤ Prio_max ∧ 0 ≤ s_quota sh ∧ 0 ≤ _claim sh ∧ 0 ≤ s_fill sh.

Record wf0 (M : gset id) (s : t) : Prop := {
  wf_lists : lists_ok M s;
  wf_members i : i ∈ M → is_Some (shares s !! i);
  wf_shares i sh : shares s !! i = Some sh → share_ok sh;
  wf_outside i sh : i ∉ M → shares s !! i = Some sh → _ready sh = false;
  wf_idle : _idle s ∉ M ∧ is_Some (shares s !! _idle s);
  wf_head h : _head s = Some h → h ∈ M ∨ h = _idle s ∧ _head_claims s = false;
  wf_time : 0 < _residual s ≤ _quota s ∧ 0 ≤ _fill s ∧ 0 ≤ _head_quota s }.

(** The order of the ready claims is part of the invariant for the histories
    that respect it: [D] says whether the history at hand does ([no_stale_claim]
    below tells which calls break the order). *)
Section Invariant.
Context (D : Prop).

Definition order_ok (s : t) : Prop := D → ∀ p, claims_first (shares s) (_rcl s p).

Definition wf (M : gset id) (s : t) : Prop := wf0 M s ∧ order_ok s.

(** The head of a claim has not consumed it; [update] relies on this between two
    calls and restores it. *)
Definition head_claim_ok (s : t) : Prop :=
  ∀ h sh, _head_claims s = true → _head s = Some h → shares s !! h = Some sh → _claim sh ≠ 0.

(** ** The steps of [update] *)

Lemma reset_all_lookup l m j :
  NoDup l → reset_all l m !! j = if decide (j ∈ l) then _reset <$> m !! j else m !! j.
Proof.
  unfold reset_all. revert m. induction l as [|i l IH]; intros m Hnd; cbn [fold_left].
  { by rewrite decide_False by set_solver. }
  apply NoDup_cons in Hnd as [Hi Hnd]. rewrite IH by done.
  destruct (decide (j = i)) as [->|Hne].
  - rewrite decide_False, decide_True by set_solver. by rewrite lookup_alter_eq.
  - rewrite lookup_alter_ne by done. destruct (decide (j ∈ l)).
    + by rewrite decide_True by set_solver.
    + by rewrite decide_False by set_solver.
Qed.

(** Starting a round restores the claim of exactly the shares in the claim lists. *)
Lemma next_round_lookup M s j :
  lists_ok M s → (∀ i sh, shares s !! i = Some sh → share_ok sh) →
  shares (_next_round s) !! j =
    if decide (j ∈ M) then
      (λ sh, if s_quota sh =? 0 then sh else _reset sh) <$> shares s !! j
    else shares s !! j.
Proof.
  intros (_ & Hr & Hu) Hs. unfold _next_round, prios. simpl.
  assert (∀ p m, reset_all (_ucl s p) (reset_all (_rcl s p) m) !! j =
    if decide (j ∈ _rcl s p ∨ j ∈ _ucl s p) then _reset <$> m !! j else m !! j) as Hp.
  { intros p m. rewrite !reset_all_lookup by (apply Hr || apply Hu).
    repeat case_decide; try tauto. by destruct (m !! j). }
  rewrite !Hp. destruct (shares s !! j) as [sh|] eqn:Hj; [|by repeat case_decide].
  assert (∀ p, j ∈ _rcl s p ∨ j ∈ _ucl s p ↔ j ∈ M ∧ s_quota sh ≠ 0 ∧ _prio sh = p) as Hmem.
  { intros p. rewrite (proj2 (Hr p)), (proj2 (Hu p)), !(claim_member_eq _ _ _ _ _ _ Hj).
    destruct (_ready sh); naive_solver. }
  pose proof (Hs _ _ Hj) as [[Hp0 Hp3] _]. unfold Prio_max, cpu_priorities in Hp3.
  assert (_prio sh = 0 ∨ _prio sh = 1 ∨ _prio sh = 2 ∨ _prio sh = 3) as Hcase by lia.
  repeat (let Hd := fresh "Hd" in case_decide as Hd; rewrite ?Hmem in Hd); simpl;
    repeat match goal with |- context [?a =? ?b] => destruct (Z.eqb_spec a b) end;
    try done; exfalso; first [tauto | destruct_and?; lia].
Qed.

Lemma next_round_frame s :
  _rcl (_next_round s) = _rcl s ∧ _ucl (_next_round s) = _ucl s ∧
  _fills (_next_round s) = _fills s ∧ _idle (_next_round s) = _idle s ∧
  _head (_next_round s) = _head s ∧ _head_quota (_next_round s) = _head_quota s ∧
  _head_claims (_next_round s) = _head_claims s ∧ _quota (_next_round s) = _quota s ∧
  _residual (_next_round s) = _quota s ∧ _fill (_next_round s) = _fill s.
Proof. done. Qed.

Lemma next_round_keys M s :
  wf M s → same_keys (shares s) (shares (_next_round s)).
Proof.
  intros Hw j. rewrite (next_round_lookup M) by apply (proj1 Hw). case_decide; [|done].
  destruct (shares s !! j) as [sh|]; [|done]. simpl. by destruct (_ =? _).
Qed.

#[global] Arguments _next_round : simpl never.

(** [wf0] only depends on the keys of the shares and the ranges. *)
Lemma wf0_same_lists M s s' :
  wf0 M s → same_keys (shares s) (shares s') →
  _rcl s' = _rcl s → _ucl s' = _ucl s → _fills s' = _fills s → _idle s' = _idle s →
  (∀ i sh, shares s' !! i = Some sh → 0 ≤ _claim sh ∧ 0 ≤ s_fill sh) →
  (∀ h, _head s' = Some h → h ∈ M ∨ h = _idle s' ∧ _head_claims s' = false) →
  0 < _residual s' ≤ _quota s' → 0 ≤ _fill s' → 0 ≤ _head_quota s' →
  wf0 M s'.
Proof.
  intros Hw Hk Hr Hu Hf Hid Hcl Hh Hres Hfill Hhq. destruct Hw.
  assert (∀ j, is_Some (shares s !! j) → is_Some (shares s' !! j)) as Hdom.
  { intros j [sh Hj]. destruct (same_keys_lookup _ _ _ _ Hk Hj) as (? & -> & _). eauto. }
  assert (∀ j sh, shares s' !! j = Some sh → ∃ sh0, shares s !! j = Some sh0 ∧
    _prio sh0 = _prio sh ∧ s_quota sh0 = s_quota sh ∧ _ready sh0 = _ready sh) as Hback.
  { intros j sh Hj. apply (same_keys_lookup (shares s')); [by apply same_keys_sym|done]. }
  constructor; try done.
  - destruct wf_lists0 as (? & ? & ?). split_and!.
    + rewrite Hf. by eapply fills_ok_keys.
    + intros p. rewrite Hr. by eapply claims_ok_keys.
    + intros p. rewrite Hu. by eapply claims_ok_keys.
  - auto.
  - intros i sh Hi. destruct (Hback i sh Hi) as (sh0 & H0 & Hp & Hq & _).
    destruct (wf_shares0 _ _ H0) as (? & ? & _). destruct (Hcl _ _ Hi).
    unfold share_ok. rewrite <- Hp, <- Hq. lia.
  - intros i sh Hi Hj. destruct (Hback i sh Hj) as (sh0 & H0 & _ & _ & <-). eauto.
  - rewrite Hid. naive_solver.
Qed.

Lemma consumed_wf M s q : wf M s → 0 ≤ q → wf M (_consumed q s).
Proof.
  intros Hw Hq. pose proof Hw as [[] wf_order0]. unfold _consumed. zcases.
  { split; [|done]. apply (wf0_same_lists M s); try apply Hw; try done; simpl; try lia. }
  split.
  - apply (wf0_same_lists M s); try apply Hw; try done; try (simpl; lia).
    + by apply next_round_keys with M.
    + intros i sh. rewrite (next_round_lookup M) by done.
      destruct (shares s !! i) as [sh0|] eqn:Hi; [|by case_decide].
      pose proof (wf_shares0 _ _ Hi) as (?&?&?&?).
      case_decide; simpl; [|by intros [= <-]]. zcases; intros [= <-]; done.
  - intros _ p. apply claims_first_none. intros i Hi.
    apply (rcl_ok _ _ wf_lists0) in Hi as (HM & sh & Hi & _ & Hq0 & _).
    rewrite (depleted_eq _ _ (_reset sh)); [done|].
    rewrite (next_round_lookup M), decide_True, Hi by done. simpl. by destruct (Z.eqb_spec (s_quota sh) 0).
Qed.

(** Rearranging a list without changing its members. *)
Lemma wf0_fills_perm M s l :
  wf0 M s → lists l (λ j, j ∈ _fills s) → wf0 M (with_fills l s).
Proof.
  intros [] Hl. constructor; try done.
  destruct wf_lists0 as (Hf & ? & ?). split_and!; try done. simpl.
  eapply lists_equiv; [|done]. simpl. apply Hf.
Qed.

Lemma wf0_rcl_perm M s p l :
  wf0 M s → lists l (λ j, j ∈ _rcl s p) → wf0 M (with_rcl (<[p := l]> (_rcl s)) s).
Proof.
  intros [] Hl. constructor; try done.
  destruct wf_lists0 as (? & Hr & ?). split_and!; try done. simpl. intros q.
  destruct (decide (p = q)) as [->|]; [|by rewrite fn_lookup_insert_ne].
  rewrite fn_lookup_insert. eapply lists_equiv; [|done]. simpl. apply Hr.
Qed.

(** Changing the claim or the fill of one share. *)
Lemma wf0_alter M s h f :
  wf0 M s → (∀ sh, key (f sh) = key sh) →
  (∀ sh, 0 ≤ _claim sh → 0 ≤ s_fill sh → 0 ≤ _claim (f sh) ∧ 0 ≤ s_fill (f sh)) →
  wf0 M (update_share h f s).
Proof.
  intros Hw Hk Hf. pose proof Hw as [].
  apply (wf0_same_lists M s); try done; simpl; try lia.
  - by apply same_keys_alter.
  - intros i sh Hi. rewrite lookup_alter in Hi.
    case_decide as E; [rewrite E in Hi|by apply wf_shares0 in Hi as (?&?&?&?)].
    destruct (shares s !! i) as [sh0|] eqn:H0; simplify_eq/=.
    apply wf_shares0 in H0 as (?&?&?&?). auto.
Qed.

Lemma wf_set_fill M s h v : wf M s → 0 ≤ v → wf M (update_share h (set_fill v) s).
Proof.
  intros [Hw Ho] Hv. split; [by apply wf0_alter|].
  intros HD p. eapply claims_first_equiv; [|by apply Ho]. intros i _. by apply depleted_alter.
Qed.

Lemma head_filled_wf M s h r :
  wf M s → 0 ≤ r → ∃ s', _head_filled h r s = Some s' ∧ wf M s' ∧
    _need_to_schedule s' = _need_to_schedule s.
Proof.
  intros Hw Hr. pose proof Hw as [[] wf_order0]. unfold _head_filled.
  case_decide as Hhd; [|by eexists]. destruct (r =? 0) eqn:Er; simpl.
  - unfold _next_fill, on_fills.
    destruct (abs_step_lists Head_to_tail (_fills s) _ (fills_ok _ _ wf_lists0)) as (l & Hl & Hll); [done|].
    simpl in Hl. injection Hl as <-. simpl. eexists; split_and!; [done| |done].
    destruct (wf_set_fill M s h (_fill s) Hw) as [Hw' Ho']; [lia|].
    split; [by apply wf0_fills_perm|done].
  - eexists; split_and!; [done| |done]. by apply wf_set_fill.
Qed.

Lemma wf_set_claim M s h sh v :
  wf M s → shares s !! h = Some sh → 0 ≤ v →
  (h ∈ _rcl s (_prio sh) → _claim sh = 0 ↔ v = 0) →
  wf M (update_share h (set_claim v) s).
Proof.
  intros [Hw Ho] Hh Hv Hz. split; [by apply wf0_alter|].
  intros HD p. eapply claims_first_equiv; [|by apply Ho]. intros i Hi.
  destruct (decide (i = h)) as [->|Hne].
  - rewrite (depleted_eq (shares s) h sh) by done.
    rewrite (depleted_eq _ _ (set_claim v sh)) by (simpl; by rewrite lookup_alter_eq, Hh). simpl.
    apply Hz. apply (rcl_ok _ _ (wf_lists _ _ Hw)) in Hi as Hi'.
    destruct Hi' as (_ & sh' & Hsh' & _ & _ & <-). by simplify_eq.
  - apply depleted_ne. simpl. by rewrite lookup_alter_ne.
Qed.

(** Depleting the claim of [h] and moving it behind the others. *)
Lemma wf_deplete M s h sh :
  wf M s → shares s !! h = Some sh → h ∈ _rcl s (_prio sh) →
  wf M (with_rcl (<[_prio sh := Seq.to_tail h (_rcl s (_prio sh))]> (_rcl s))
          (update_share h (set_claim 0) s)).
Proof.
  intros [Hw Ho] Hh Hin. split.
  - apply (wf0_rcl_perm M (update_share h (set_claim 0) s)); [by apply wf0_alter|]. simpl.
    destruct (rcl_ok _ _ (wf_lists _ _ Hw) (_prio sh)) as [Hnd _].
    eapply (abs_step_effect (To_tail h)); [done|]. simpl. by rewrite decide_True.
  - intros HD p. specialize (Ho HD). simpl. destruct (decide (_prio sh = p)) as [<-|Hne].
    + rewrite fn_lookup_insert. apply claims_first_snoc.
      * eapply claims_first_equiv; [|by apply claims_first_filter].
        intros i [Hi _]%list_elem_of_filter. apply depleted_ne. by rewrite lookup_alter_ne.
      * intros sh'. rewrite lookup_alter_eq, Hh. simpl. by intros [= <-].
    + rewrite fn_lookup_insert_ne by done. eapply claims_first_equiv; [|apply Ho].
      intros i Hi. apply depleted_ne. rewrite lookup_alter_ne; [done|]. intros <-.
      apply (rcl_ok _ _ (wf_lists _ _ Hw)) in Hi as (_ & sh' & ? & _ & _ & ?). congruence.
Qed.

Lemma head_claimed_wf M s h r :
  wf M s → h ∈ M → 0 ≤ r → head_claim_ok s → _head s = Some h → _head_claims s = true →
  ∃ s', _head_claimed h r s = Some s' ∧ wf M s' ∧ _need_to_schedule s' = _need_to_schedule s.
Proof.
  intros Hw HM Hr Hhc Hh Hc. pose proof Hw as [[] wf_order0]. unfold _head_claimed.
  destruct (wf_members0 h HM) as [sh Hsh]. rewrite Hsh. simpl.
  destruct (Z.eqb_spec (s_quota sh) 0) as [|Hq]; [by eexists|].
  pose proof (Hhc h sh Hc Hh Hsh) as Hcl. pose proof (wf_shares0 _ _ Hsh) as (_ & ? & ? & ?).
  set (v := if s_quota sh <? r then s_quota sh else r).
  assert (0 ≤ v) by (unfold v; zcases; lia).
  destruct (Z.eqb_spec v 0) as [Hv|Hv]; simpl; cycle 1.
  { eexists; split_and!; [done| |done]. apply (wf_set_claim M s h sh); [done..|]. tauto. }
  destruct (_ready sh) eqn:Hready; simpl; cycle 1.
  { eexists; split_and!; [done| |done]. apply (wf_set_claim M s h sh); [done..|].
    intros Hin. apply (rcl_ok _ _ wf_lists0) in Hin as (_ & sh' & ? & ? & _). congruence. }
  assert (h ∈ _rcl s (_prio sh)) as Hin.
  { apply (rcl_ok _ _ wf_lists0), (claim_member_eq _ _ _ _ _ _ Hsh). by split_and!. }
  pose proof (wf_deplete M s h sh Hw Hsh Hin) as Hw'. rewrite Hv.
  unfold on_rcl. simpl. rewrite decide_True by done. simpl.
  destruct (negb (_head_yields s)); [|by eexists]. unfold on_fills. simpl.
  assert (h ∈ _fills s) as Hf.
  { apply (fills_ok _ _ wf_lists0), (fill_member_eq _ _ _ _ Hsh). done. }
  rewrite decide_True by done. simpl. eexists; split_and!; [done| |done].
  destruct Hw' as [Hw' Ho']. split; [|done]. apply wf0_fills_perm; [done|]. simpl.
  destruct (fills_ok _ _ wf_lists0) as [Hnd _].
  eapply (abs_step_effect (To_head h)); [done|]. simpl. by rewrite decide_True.
Qed.

(** ** Choosing the head *)

Definition candidate (M : gset id) (s : t) (i : id) (sh : share) : Prop :=
  i ∈ M ∧ shares s !! i = Some sh ∧ _ready sh = true ∧ s_quota sh ≠ 0 ∧ _claim sh ≠ 0.

(** What the claim and fill discipline asks of the head. *)
Definition best_head (M : gset id) (s : t) : Prop :=
  (∃ h sh, candidate M s h sh ∧ _head s = Some h ∧ _head_claims s = true ∧
     _head_quota s = _claim sh ∧ head (_rcl s (_prio sh)) = Some h ∧
     ∀ i shi, candidate M s i shi → _prio shi ≤ _prio sh) ∨
  ((∀ i sh, ¬ candidate M s i sh) ∧ _head_claims s = false ∧
     match head (_fills s) with
     | Some h => _head s = Some h ∧ ∃ sh, shares s !! h = Some sh ∧ _head_quota s = s_fill sh
     | None => _head s = Some (_idle s) ∧ _head_quota s = _fill s
     end).

Lemma find_claim_spec M s ps :
  wf M s → D →
  match find_claim ps s with
  | Some (i, q) => ∃ sh, candidate M s i sh ∧ q = _claim sh ∧ _prio sh ∈ ps ∧
      head (_rcl s (_prio sh)) = Some i ∧
      ∃ ps1 ps2, ps = ps1 ++ _prio sh :: ps2 ∧
        ∀ j shj, candidate M s j shj → _prio shj ∉ ps1
  | None => ∀ j shj, candidate M s j shj → _prio shj ∉ ps
  end.
Proof.
  intros [Hw Ho] HD. specialize (Ho HD). pose proof Hw as [(_ & Hrcl & _) Hmem _ _ _ _ _].
  induction ps as [|p ps IH]; [set_solver|]. simpl.
  (* a depleted or missing head of a list leaves no candidate of that priority *)
  assert ((∀ j, j ∈ _rcl s p → depleted (shares s) j) →
    ∀ j shj, candidate M s j shj → _prio shj ≠ p) as Hskip.
  { intros Hd j shj (HM & Hj & Hr & Hq & Hc) <-. apply Hc.
    apply (Hd j); [|done]. apply Hrcl, (claim_member_eq _ _ _ _ _ _ Hj). by split_and!. }
  assert ((∀ j, j ∈ _rcl s p → depleted (shares s) j) →
    match find_claim ps s with
    | Some (i, q) => ∃ sh, candidate M s i sh ∧ q = _claim sh ∧ _prio sh ∈ p :: ps ∧
        head (_rcl s (_prio sh)) = Some i ∧
        ∃ ps1 ps2, p :: ps = ps1 ++ _prio sh :: ps2 ∧
          ∀ j shj, candidate M s j shj → _prio shj ∉ ps1
    | None => ∀ j shj, candidate M s j shj → _prio shj ∉ p :: ps
    end) as Hnext.
  { intros Hd. specialize (Hskip Hd). destruct (find_claim ps s) as [[i q]|].
    - destruct IH as (sh & ? & ? & ? & ? & ps1 & ps2 & -> & Hbest).
      exists sh. split_and!; [done..|set_solver|done|]. exists (p :: ps1), ps2.
      split; [done|]. intros j shj Hj. specialize (Hskip j shj Hj). specialize (Hbest j shj Hj). set_solver.
    - intros j shj Hj. specialize (Hskip j shj Hj). specialize (IH j shj Hj). set_solver. }
  destruct (head (_rcl s p)) as [i|] eqn:Hhd; cycle 1.
  { apply Hnext. destruct (_rcl s p); [set_solver|done]. }
  assert (i ∈ _rcl s p) as Hi by (destruct (_rcl s p); simplify_eq/=; set_solver).
  apply Hrcl in Hi as (HM & sh & Hsh & Hr & Hq & Hp). rewrite Hsh.
  destruct (Z.eqb_spec (_claim sh) 0) as [Hc|Hc].
  - apply Hnext. apply (claims_first_head (shares s) _ i); [apply Ho|done|].
    by rewrite depleted_eq.
  - exists sh. subst p. split_and!; [by split_and!|done|set_solver|done|].
    exists [], ps. split; [done|set_solver].
Qed.

Lemma prios_best ps1 p ps2 q :
  prios = ps1 ++ p :: ps2 → 0 ≤ q ≤ Prio_max → q ∉ ps1 → q ≤ p.
Proof.
  unfold prios, Prio_max, cpu_priorities. intros Hps Hq Hn.
  destruct ps1 as [|? [|? [|? [|? ps1]]]]; simplify_eq/=; try lia;
    rewrite ?not_elem_of_cons in Hn; lia.
Qed.

Lemma prios_all q : 0 ≤ q ≤ Prio_max → q ∈ prios.
Proof.
  unfold prios, Prio_max, cpu_priorities. intros Hq.
  assert (q = 0 ∨ q = 1 ∨ q = 2 ∨ q = 3) as [|[|[|]]] by lia; subst; set_solver.
Qed.

Lemma wf_set_head M s h q c :
  wf M s → 0 ≤ q → (h ∈ M ∨ h = _idle s ∧ c = false) → wf M (_set_head h q c s).
Proof.
  intros [[] Ho] Hq Hh. split; [|done]. constructor; try done.
  - simpl. by intros h' [= <-].
  - simpl. lia.
Qed.

(** What the scan finds in any case: the first claim of the highest priority
    whose first claim is not consumed. *)
Lemma find_claim_first M s ps :
  wf M s →
  match find_claim ps s with
  | Some (i, q) => ∃ sh, candidate M s i sh ∧ q = _claim sh ∧ _prio sh ∈ ps ∧
      head (_rcl s (_prio sh)) = Some i
  | None => True
  end.
Proof.
  intros [[(_ & Hrcl & _) _ _ _ _ _ _] _]. induction ps as [|p ps IH]; [done|]. simpl.
  assert (match find_claim ps s with
    | Some (i, q) => ∃ sh, candidate M s i sh ∧ q = _claim sh ∧ _prio sh ∈ p :: ps ∧
        head (_rcl s (_prio sh)) = Some i
    | None => True
    end) as Hnext.
  { destruct (find_claim ps s) as [[i q]|]; [|done].
    destruct IH as (sh & ? & ? & ? & ?). exists sh. split_and!; [done..|set_solver|done]. }
  destruct (head (_rcl s p)) as [i|] eqn:Hhd; [|done].
  assert (i ∈ _rcl s p) as Hi by (destruct (_rcl s p); simplify_eq/=; set_solver).
  apply Hrcl in Hi as (HM & sh & Hsh & Hr & Hq & Hp). rewrite Hsh.
  destruct (Z.eqb_spec (_claim sh) 0) as [Hc|Hc]; [done|].
  exists sh. subst p. split_and!; [by split_and!|done|set_solver|done].
Qed.

Lemma choose_head_spec M s :
  wf M s →
  let s' := choose_head s in
  wf M s' ∧ (D → best_head M s') ∧ is_Some (_head s') ∧ head_claim_ok s' ∧
  shares s' = shares s ∧ _residual s' = _residual s ∧ _need_to_schedule s' = _need_to_schedule s.
Proof.
  intros Hw. pose proof Hw as [[] _]. unfold choose_head, _claim_for_head, _fill_for_head.
  pose proof (find_claim_spec M s prios Hw) as Hfc. pose proof (find_claim_first M s prios Hw) as Hff.
  destruct (find_claim prios s) as [[i q]|]; simpl.
  - destruct Hff as (sh & Hc & -> & Hp & Hhd).
    pose proof Hc as (HM & Hsh & Hr & Hq & Hcl). pose proof (wf_shares0 _ _ Hsh) as (_&_&?&_).
    split_and!; [apply wf_set_head; auto| |done| |done..].
    + intros HD. destruct (Hfc HD) as (sh' & (_ & ? & _) & _ & _ & _ & ps1 & ps2 & Hps & Hbest).
      assert (sh' = sh) as -> by congruence.
      left. exists i, sh. split_and!; [done..|]. intros j shj Hj.
      eapply prios_best; [done| |by eapply Hbest].
      destruct Hj as (_ & Hj & _). by apply wf_shares0 in Hj as [? _].
    + intros h sh' _ [= <-] Hsh'. simpl in Hsh'. congruence.
  - assert (D → ∀ j shj, ¬ candidate M s j shj) as Hnone.
    { intros HD j shj Hj. apply (Hfc HD j shj Hj), prios_all.
      destruct Hj as (_ & Hj & _). by apply wf_shares0 in Hj as [? _]. }
    destruct (head (_fills s)) as [h|] eqn:Hhd; simpl.
    + assert (h ∈ _fills s) as Hin by (destruct (_fills s); simplify_eq/=; set_solver).
      apply (fills_ok _ _ wf_lists0) in Hin as (HM & sh & Hsh & _).
      pose proof (wf_shares0 _ _ Hsh) as (_&_&_&?). rewrite Hsh. simpl.
      split_and!; [apply wf_set_head; auto| |done| |done..].
      * right. simpl. rewrite Hhd. eauto 10.
      * by intros ?? [=].
    + split_and!; [apply wf_set_head; [done|lia|auto]| |done| |done..].
      * right. simpl. rewrite Hhd. eauto 10.
      * by intros ?? [=].
Qed.

Lemma account_head_wf M s d :
  wf M s → head_claim_ok s → 0 ≤ d → ∃ s', account_head d s = Some s' ∧ wf M s' ∧
    _need_to_schedule s' = _need_to_schedule s.
Proof.
  intros Hw Hhc Hd. pose proof Hw as [[] _]. unfold account_head, _trim_consumption.
  set (q := Z.min (Z.min d (_head_quota s)) (_residual s)).
  set (r := if negb (_head_yields s) then _head_quota s - q else 0).
  assert (0 ≤ q ∧ 0 ≤ r) as [Hq Hr] by (unfold r, q; destruct (_head_yields s); simpl; lia).
  assert (∀ s1, wf M s1 → _need_to_schedule s1 = _need_to_schedule s →
    ∃ s', Some (_consumed q (with_yields false s1)) = Some s' ∧ wf M s' ∧
      _need_to_schedule s' = _need_to_schedule s) as Hfin.
  { intros s1 Hw1 <-. eexists; split_and!; [done| |].
    - apply consumed_wf; [|done]. destruct Hw1 as [[] ?]. split; [by constructor|done].
    - unfold _consumed. by destruct (_ <? _). }
  destruct (_head s) as [h|] eqn:Hh; cycle 1.
  { destruct (_head_was_removed s); [|by eexists]. apply (Hfin (with_removed false s)); [|done].
    destruct Hw as [[] ?]. split; [by constructor|done]. }
  destruct (_head_claims s) eqn:Hc.
  - assert (h ∈ M) as HM by (destruct (wf_head0 h eq_refl) as [|[_ ?]]; congruence).
    destruct (head_claimed_wf M s h r) as (s1 & -> & ? & ?); try done. by apply Hfin.
  - destruct (head_filled_wf M s h r) as (s1 & -> & ? & ?); try done. by apply Hfin.
Qed.

Lemma update_spec M s time :
  wf M s → head_claim_ok s →
  ∃ s', update time s = Some s' ∧ wf M s' ∧ head_claim_ok s' ∧ (D → best_head M s') ∧
    _need_to_schedule s' = false ∧ is_Some (_head s').
Proof.
  intros Hw Hhc. unfold update.
  set (s0 := with_need false (with_last_time time s)).
  assert (wf M s0) as Hw0 by (destruct Hw as [[] ?]; split; [by constructor|done]).
  destruct (account_head_wf M s0 (u32 (u64 (time - _last_time s)))) as (s1 & -> & Hw1 & Hn);
    [done|done|by apply wrap_range|]. simpl.
  destruct (choose_head_spec M s1 Hw1) as (? & Hb & ? & ? & _ & _ & Hn'). eexists; split_and!; try done.
  by rewrite Hn', Hn.
Qed.

(** ** Shares that enter, leave or change their state *)

(** All of these change one share [i] and the lists it belongs to. *)
Lemma wf_change M M' s s' i sh' :
  wf M s → shares s' !! i = Some sh' → (∀ j, j ≠ i → shares s' !! j = shares s !! j) →
  (∀ j, j ≠ i → j ∈ M ↔ j ∈ M') → share_ok sh' → (i ∉ M' → _ready sh' = false) →
  _idle s' = _idle s → i ≠ _idle s →
  (∀ h, _head s' = Some h → h ∈ M' ∨ h = _idle s' ∧ _head_claims s' = false) →
  _residual s' = _residual s → _quota s' = _quota s → _fill s' = _fill s →
  _head_quota s' = _head_quota s →
  (NoDup (_fills s') ∧ (∀ j, j ≠ i → j ∈ _fills s' ↔ j ∈ _fills s) ∧
     (i ∈ _fills s' ↔ i ∈ M' ∧ _ready sh' = true)) →
  (∀ p, NoDup (_rcl s' p) ∧ (∀ j, j ≠ i → j ∈ _rcl s' p ↔ j ∈ _rcl s p) ∧
     (i ∈ _rcl s' p ↔ i ∈ M' ∧ _ready sh' = true ∧ s_quota sh' ≠ 0 ∧ _prio sh' = p)) →
  (∀ p, NoDup (_ucl s' p) ∧ (∀ j, j ≠ i → j ∈ _ucl s' p ↔ j ∈ _ucl s p) ∧
     (i ∈ _ucl s' p ↔ i ∈ M' ∧ _ready sh' = false ∧ s_quota sh' ≠ 0 ∧ _prio sh' = p)) →
  order_ok s' →
  wf M' s'.
Proof.
  intros [[] Ho] Hi Hne HM Hok Hout Hid Hidle Hhd Hres Hqt Hfl Hhq (Hf1&Hf2&Hf3) Hr Hu Ho'.
  assert (∀ j, i = j ∨ j ≠ i) as Hdec by (intros j; destruct (decide (j = i)); auto).
  split; [|done]. constructor.
  - split_and!.
    + eapply (fills_upd M M' _ _ i); try done; [by apply fills_ok|].
      by rewrite (fill_member_eq _ _ _ _ Hi).
    + intros p. destruct (Hr p) as (?&?&?). eapply (claims_upd M M' _ _ _ _ i); try done;
        [by apply rcl_ok|]. by rewrite (claim_member_eq _ _ _ _ _ _ Hi).
    + intros p. destruct (Hu p) as (?&?&?). eapply (claims_upd M M' _ _ _ _ i); try done;
        [by apply ucl_ok|]. by rewrite (claim_member_eq _ _ _ _ _ _ Hi).
  - intros j Hj. destruct (Hdec j) as [<-|Hji]; [by rewrite Hi|]. rewrite Hne by done.
    apply wf_members0. by apply HM.
  - intros j sh. destruct (Hdec j) as [<-|Hji]; [rewrite Hi; by intros [= <-]|].
    rewrite Hne by done. apply wf_shares0.
  - intros j sh Hj. destruct (Hdec j) as [<-|Hji]; [rewrite Hi; intros [= <-]; auto|].
    rewrite Hne by done. apply wf_outside0. by rewrite HM.
  - rewrite Hid, Hne, <- HM by done. done.
  - done.
  - rewrite Hres, Hqt, Hfl, Hhq. done.
Qed.

Lemma claims_first_alter_ne m i f l :
  i ∉ l → claims_first m l → claims_first (alter f i m) l.
Proof.
  intros Hi. apply claims_first_equiv. intros j Hj. apply depleted_ne.
  rewrite lookup_alter_ne; [done|]. set_solver.
Qed.

(** The effect of one list operation on the list of one priority. *)
Lemma insert_prio (f : Z → list id) p o i l' (P : Z → id → Prop) :
  (∀ q, lists (f q) (P q)) →
  abs_step o (f p) = Some l' →
  match o with Insert_tail j | Insert_head j | Remove j => j = i | _ => False end →
  ∀ q, NoDup (<[p := l']> f q) ∧ (∀ j, j ≠ i → j ∈ <[p := l']> f q ↔ j ∈ f q) ∧
    (i ∈ <[p := l']> f q ↔ if decide (p = q) then match o with Remove _ => False | _ => True end
                           else i ∈ f q).
Proof.
  intros Hf Ho Hi q. destruct (decide (p = q)) as [<-|Hne];
    [|rewrite fn_lookup_insert_ne by done; split_and!; [apply Hf|done..]].
  rewrite fn_lookup_insert. destruct (abs_step_effect _ _ _ (proj1 (Hf p)) Ho) as [Hnd Hl].
  split; [done|]. setoid_rewrite Hl. destruct o; subst; simpl; naive_solver.
Qed.

Lemma head_claim_ok_same s s' :
  head_claim_ok s → _head s' = _head s → _head_claims s' = _head_claims s →
  (∀ j sh', shares s' !! j = Some sh' → ∃ sh, shares s !! j = Some sh ∧
     (_claim sh ≠ 0 → _claim sh' ≠ 0)) →
  head_claim_ok s'.
Proof.
  intros Hok Hh Hc Hsh h sh' Hc' Hh' Hj. destruct (Hsh h sh' Hj) as (sh & ? & Hcl).
  apply Hcl, (Hok h); congruence.
Qed.

Lemma alter_same_claims f i (m : gmap id share) :
  (∀ sh, _claim sh ≠ 0 → _claim (f sh) ≠ 0) →
  ∀ j (sh' : share), alter f i m !! j = Some sh' → ∃ sh, m !! j = Some sh ∧
     (_claim sh ≠ 0 → _claim sh' ≠ 0).
Proof.
  intros Hf j sh'. rewrite lookup_alter. case_decide as E; [rewrite E|eauto].
  destruct (m !! j) as [sh|]; [|done]. simpl. intros [= <-]. eauto.
Qed.

(** The insertion into a list of ready claims. *)
Lemma order_insert (m : gmap id share) (f : Z → list id) p i sh l' :
  m !! i = Some sh → (∀ q, claims_first m (f q)) →
  l' = (if negb (_claim sh =? 0) then Seq.insert_head i (f p) else Seq.insert_tail i (f p)) →
  ∀ q, claims_first m (<[p := l']> f q).
Proof.
  intros Hi Hf -> q. destruct (decide (p = q)) as [<-|Hne];
    [rewrite fn_lookup_insert|by rewrite fn_lookup_insert_ne].
  destruct (Z.eqb_spec (_claim sh) 0) as [Hc|Hc]; simpl.
  - apply claims_first_snoc; [done|]. by apply (depleted_eq _ _ _ Hi).
  - apply claims_first_cons; [done|]. by rewrite (depleted_eq _ _ _ Hi).
Qed.

Lemma order_remove (m : gmap id share) (f : Z → list id) p i :
  (∀ q, claims_first m (f q)) → ∀ q, claims_first m (<[p := Seq.remove i (f p)]> f q).
Proof.
  intros Hf q. destruct (decide (p = q)) as [<-|Hne];
    [rewrite fn_lookup_insert|by rewrite fn_lookup_insert_ne].
  by apply claims_first_filter.
Qed.

Lemma order_alter (m : gmap id share) (f : Z → list id) g i :
  (∀ sh, _claim (g sh) = _claim sh) → (∀ q, claims_first m (f q)) →
  ∀ q, claims_first (alter g i m) (f q).
Proof.
  intros Hg Hf q. eapply claims_first_equiv; [|apply Hf]. intros j _. by apply depleted_alter.
Qed.

Lemma need_if (b : bool) s :
  (if b then with_need true s else s) = with_need (b || _need_to_schedule s) s.
Proof. by destruct b, s. Qed.

Lemma alter_twice_eq (f g : share → share) i (m : gmap id share) sh :
  m !! i = Some sh → alter g i (alter f i m) !! i = Some (g (f sh)).
Proof. intros Hi. by rewrite !lookup_alter_eq, Hi. Qed.

Lemma alter_twice_ne (f g : share → share) i j (m : gmap id share) :
  j ≠ i → alter g i (alter f i m) !! j = m !! j.
Proof. intros Hj. by rewrite !lookup_alter_ne. Qed.

(** The lists a given share is in. *)
Lemma member_facts M s i sh :
  wf M s → shares s !! i = Some sh →
  NoDup (_fills s) ∧
  (∀ p, lists (_rcl s p) (claim_member M (shares s) true p)) ∧
  (∀ p, lists (_ucl s p) (claim_member M (shares s) false p)) ∧
  (i ∈ _fills s ↔ i ∈ M ∧ _ready sh = true) ∧
  (∀ p, i ∈ _rcl s p ↔ i ∈ M ∧ _ready sh = true ∧ s_quota sh ≠ 0 ∧ _prio sh = p) ∧
  (∀ p, i ∈ _ucl s p ↔ i ∈ M ∧ _ready sh = false ∧ s_quota sh ≠ 0 ∧ _prio sh = p).
Proof.
  intros [[(Hf & Hr & Hu)] _] Hi. split_and!; [apply Hf|done..| | |].
  - by rewrite (proj2 Hf), (fill_member_eq _ _ _ _ Hi).
  - intros p. by rewrite (proj2 (Hr p)), (claim_member_eq _ _ _ _ _ _ Hi).
  - intros p. by rewrite (proj2 (Hu p)), (claim_member_eq _ _ _ _ _ _ Hi).
Qed.

(** What [ready] computes: the claim lists, whether a schedule is requested, and
    the resulting state. *)
Definition ready_rcl (i : id) (sh : share) (s : t) : Z → list id :=
  if s_quota sh =? 0 then _rcl s
  else <[_prio sh := if _claim sh =? 0 then Seq.insert_tail i (_rcl s (_prio sh))
                     else Seq.insert_head i (_rcl s (_prio sh))]> (_rcl s).

Definition ready_ucl (i : id) (sh : share) (s : t) : Z → list id :=
  if s_quota sh =? 0 then _ucl s else <[_prio sh := Seq.remove i (_ucl s (_prio sh))]> (_ucl s).

Definition ready_need (sh : share) (s : t) : bool :=
  bool_decide (_head s = None) || bool_decide (_head s = Some (_idle s)) ||
  (negb (s_quota sh =? 0) && negb (_claim sh =? 0) && preempts (_prio sh) s) ||
  _need_to_schedule s.

Definition ready_post (i : id) (sh : share) (s : t) : t :=
  with_need (ready_need sh s) (with_fills (Seq.insert_tail i (_fills s))
    (with_shares (alter (set_fill (_fill s)) i (alter (set_ready true) i (shares s)))
      (with_rcl (ready_rcl i sh s) (with_ucl (ready_ucl i sh s) s)))).

Lemma preempts_alter p i f s rcl ucl :
  (∀ sh, _prio (f sh) = _prio sh) →
  preempts p (with_rcl rcl (with_ucl ucl (update_share i f s))) = preempts p s.
Proof.
  intros Hf. unfold preempts; simpl. destruct (_head s) as [h|]; [|done].
  destruct (_head_claims s); [|done]. rewrite lookup_alter. case_decide as E; [rewrite E|done].
  destruct (shares s !! h); simpl; [by rewrite Hf|done].
Qed.

(** A share that is not ready is in no list but the unready claims. *)
Lemma unready_facts M s i sh :
  wf M s → i ∈ M → shares s !! i = Some sh → _ready sh = false →
  i ≠ _idle s ∧ i ∉ _fills s ∧ (∀ p, i ∉ _rcl s p) ∧
  ∀ p, i ∈ _ucl s p ↔ s_quota sh ≠ 0 ∧ _prio sh = p.
Proof.
  intros Hw HM Hi Hr. destruct (member_facts M s i sh Hw Hi) as (_ & _ & _ & Hfi & Hri & Hui).
  split_and!.
  - intros ->. by destruct Hw as [[_ _ _ _ [? _]] _].
  - rewrite Hfi, Hr. by intros [_ ?].
  - intros p. rewrite Hri, Hr. by intros (_ & ? & _).
  - intros p. rewrite Hui, Hr. tauto.
Qed.

Lemma ready_shape M s i sh :
  wf M s → i ∈ M → shares s !! i = Some sh → _ready sh = false →
  ready i s = Some (ready_post i sh s).
Proof.
  intros Hw HM Hi Hr. destruct (unready_facts M s i sh) as (Hid & Hf & Hrc & Huc); [done..|].
  unfold ready, ready_post, ready_need, ready_rcl, ready_ucl. rewrite Hi. simpl.
  rewrite Hr, bool_decide_false by done. simpl.
  destruct (Z.eqb_spec (s_quota sh) 0) as [Hq|Hq]; simpl.
  - unfold on_fills; simpl. rewrite decide_True by done. simpl. rewrite need_if. by rewrite orb_false_r.
  - unfold on_ucl; simpl. rewrite decide_True by (by apply Huc). simpl.
    specialize (Hrc (_prio sh)). unfold on_rcl.
    destruct (Z.eqb_spec (_claim sh) 0) as [Hc|Hc]; simpl;
      rewrite decide_True by done; simpl.
    + unfold on_fills; simpl. rewrite decide_True by done. simpl. rewrite need_if. by rewrite orb_false_r.
    + rewrite need_if. unfold on_fills; simpl. rewrite decide_True by done. simpl. rewrite need_if.
      rewrite preempts_alter by done. simpl. by rewrite !orb_assoc.
Qed.

Lemma ready_post_claims M s i sh :
  wf M s → head_claim_ok s → head_claim_ok (ready_post i sh s).
Proof.
  intros Hw Hhc. eapply head_claim_ok_same; [done..|]. simpl. intros j shj Hj.
  apply alter_same_claims in Hj as (sh1 & Hj & ?); [|done].
  apply alter_same_claims in Hj as (sh2 & Hj & ?); [|done]. exists sh2. auto.
Qed.

Lemma ready_rcl_ok M s i sh :
  wf M s → i ∈ M → shares s !! i = Some sh → _ready sh = false → ∀ p,
  NoDup (ready_rcl i sh s p) ∧ (∀ j, j ≠ i → j ∈ ready_rcl i sh s p ↔ j ∈ _rcl s p) ∧
  (i ∈ ready_rcl i sh s p ↔ s_quota sh ≠ 0 ∧ _prio sh = p).
Proof.
  intros Hw HM Hi Hr p. destruct (unready_facts M s i sh) as (_ & _ & Hrc & _); [done..|].
  destruct (member_facts M s i sh Hw Hi) as (_ & Hrl & _).
  unfold ready_rcl. specialize (Hrc p). destruct (Z.eqb_spec (s_quota sh) 0) as [Hq|Hq].
  { split_and!; [apply Hrl|done|tauto]. }
  destruct (decide (_prio sh = p)) as [<-|Hp].
  - rewrite fn_lookup_insert. unfold Seq.insert_tail, Seq.insert_head.
    destruct (_ =? 0); rewrite ?NoDup_snoc, ?NoDup_cons;
      (split_and!; first [apply Hrl | done | intros; set_unfold; intuition congruence]).
  - rewrite fn_lookup_insert_ne by done. split_and!; [apply Hrl|done|tauto].
Qed.

Lemma ready_ucl_ok M s i sh :
  wf M s → i ∈ M → shares s !! i = Some sh → _ready sh = false → ∀ p,
  NoDup (ready_ucl i sh s p) ∧ (∀ j, j ≠ i → j ∈ ready_ucl i sh s p ↔ j ∈ _ucl s p) ∧
  i ∉ ready_ucl i sh s p.
Proof.
  intros Hw HM Hi Hr p. destruct (unready_facts M s i sh) as (_ & _ & _ & Huc); [done..|].
  destruct (member_facts M s i sh Hw Hi) as (_ & _ & Hul & _).
  unfold ready_ucl. specialize (Huc p). destruct (Z.eqb_spec (s_quota sh) 0) as [Hq|Hq].
  { split_and!; [apply Hul|done|tauto]. }
  destruct (decide (_prio sh = p)) as [<-|Hp].
  - rewrite fn_lookup_insert. split_and!; [apply Seq.remove_NoDup, Hul|..];
      intros; rewrite Seq.elem_of_remove; tauto.
  - rewrite fn_lookup_insert_ne by done. split_and!; [apply Hul|done|tauto].
Qed.

Lemma ready_post_order s i sh :
  shares s !! i = Some sh → order_ok s → order_ok (ready_post i sh s).
Proof.
  intros Hi Ho HD p. specialize (Ho HD). simpl. apply (order_alter _ (ready_rcl i sh s)); [done|].
  unfold ready_rcl. destruct (Z.eqb_spec (s_quota sh) 0); [by apply order_alter|].
  apply (order_insert _ _ _ i (set_ready true sh)); [by rewrite lookup_alter_eq, Hi|by apply order_alter|].
  simpl. by destruct (_ =? 0).
Qed.

Lemma ready_wf M s i sh :
  wf M s → head_claim_ok s → i ∈ M → shares s !! i = Some sh → _ready sh = false →
  ∃ s', ready i s = Some s' ∧ wf M s' ∧ head_claim_ok s'.
Proof.
  intros Hw Hhc HM Hi Hr. rewrite (ready_shape M s i sh) by done. eexists. split; [done|].
  split; [|by eapply ready_post_claims]. pose proof Hw as [[] Ho].
  pose proof (wf_shares0 _ _ Hi) as (?&?&?&?).
  destruct (unready_facts M s i sh) as (Hid & Hf & Hrc & Huc); [done..|].
  destruct (member_facts M s i sh Hw Hi) as (Hfn & _).
  apply (wf_change M M s _ i (set_fill (_fill s) (set_ready true sh))); try done.
  - simpl. by apply alter_twice_eq.
  - intros j Hj. simpl. by apply alter_twice_ne.
  - unfold share_ok; simpl. lia.
  - simpl. unfold Seq.insert_tail. rewrite NoDup_snoc. set_solver.
  - intros p. simpl. destruct (ready_rcl_ok M s i sh Hw HM Hi Hr p) as (? & ? & ->). tauto.
  - intros p. simpl. destruct (ready_ucl_ok M s i sh Hw HM Hi Hr p) as (? & ? & ?).
    split_and!; [done..|]. split; [done|by intros (_ & ? & _)].
  - by apply ready_post_order.
Qed.

(** What [unready] computes. *)
Definition unready_rcl (i : id) (sh : share) (s : t) : Z → list id :=
  if s_quota sh =? 0 then _rcl s else <[_prio sh := Seq.remove i (_rcl s (_prio sh))]> (_rcl s).

Definition unready_ucl (i : id) (sh : share) (s : t) : Z → list id :=
  if s_quota sh =? 0 then _ucl s else <[_prio sh := Seq.insert_tail i (_ucl s (_prio sh))]> (_ucl s).

Definition unready_post (i : id) (sh : share) (s : t) : t :=
  with_need (bool_decide (_head s = Some i) || _need_to_schedule s)
    (with_fills (Seq.remove i (_fills s)) (update_share i (set_ready false)
      (with_rcl (unready_rcl i sh s) (with_ucl (unready_ucl i sh s) s)))).

Lemma ready_facts M s i sh :
  wf M s → i ∈ M → shares s !! i = Some sh → _ready sh = true →
  i ≠ _idle s ∧ i ∈ _fills s ∧ (∀ p, i ∉ _ucl s p) ∧
  ∀ p, i ∈ _rcl s p ↔ s_quota sh ≠ 0 ∧ _prio sh = p.
Proof.
  intros Hw HM Hi Hr. destruct (member_facts M s i sh Hw Hi) as (_ & _ & _ & Hfi & Hri & Hui).
  split_and!.
  - intros ->. by destruct Hw as [[_ _ _ _ [? _]] _].
  - by apply Hfi.
  - intros p. rewrite Hui, Hr. by intros (_ & ? & _).
  - intros p. rewrite Hri, Hr. tauto.
Qed.

Lemma unready_shape M s i sh :
  wf M s → i ∈ M → shares s !! i = Some sh → _ready sh = true →
  unready i s = Some (unready_post i sh s).
Proof.
  intros Hw HM Hi Hr. destruct (ready_facts M s i sh) as (Hid & Hf & Huc & Hrc); [done..|].
  unfold unready, unready_post, unready_rcl, unready_ucl. rewrite Hi. simpl.
  rewrite Hr, bool_decide_false by done. simpl.
  assert ((if decide (_head s = Some i) then with_need true s else s) =
    with_need (bool_decide (_head s = Some i) || _need_to_schedule s) s) as ->.
  { rewrite <- need_if. by case_decide as Hh; [rewrite bool_decide_true|rewrite bool_decide_false]. }
  unfold on_fills; simpl. rewrite decide_True by done. simpl.
  destruct (Z.eqb_spec (s_quota sh) 0) as [Hq|Hq]; [done|].
  unfold on_rcl, on_ucl; simpl. rewrite decide_True by (by apply Hrc). simpl.
  by rewrite decide_True by apply Huc.
Qed.

Lemma unready_rcl_ok M s i sh :
  wf M s → i ∈ M → shares s !! i = Some sh → _ready sh = true → ∀ p,
  NoDup (unready_rcl i sh s p) ∧ (∀ j, j ≠ i → j ∈ unready_rcl i sh s p ↔ j ∈ _rcl s p) ∧
  i ∉ unready_rcl i sh s p.
Proof.
  intros Hw HM Hi Hr p. destruct (ready_facts M s i sh) as (_ & _ & _ & Hrc); [done..|].
  destruct (member_facts M s i sh Hw Hi) as (_ & Hrl & _).
  unfold unready_rcl. specialize (Hrc p). destruct (Z.eqb_spec (s_quota sh) 0) as [Hq|Hq].
  { split_and!; [apply Hrl|done|tauto]. }
  destruct (decide (_prio sh = p)) as [<-|Hp].
  - rewrite fn_lookup_insert. split_and!; [apply Seq.remove_NoDup, Hrl|..];
      intros; rewrite Seq.elem_of_remove; tauto.
  - rewrite fn_lookup_insert_ne by done. split_and!; [apply Hrl|done|tauto].
Qed.

Lemma unready_ucl_ok M s i sh :
  wf M s → i ∈ M → shares s !! i = Some sh → _ready sh = true → ∀ p,
  NoDup (unready_ucl i sh s p) ∧ (∀ j, j ≠ i → j ∈ unready_ucl i sh s p ↔ j ∈ _ucl s p) ∧
  (i ∈ unready_ucl i sh s p ↔ s_quota sh ≠ 0 ∧ _prio sh = p).
Proof.
  intros Hw HM Hi Hr p. destruct (ready_facts M s i sh) as (_ & _ & Huc & _); [done..|].
  destruct (member_facts M s i sh Hw Hi) as (_ & _ & Hul & _).
  unfold unready_ucl. specialize (Huc p). destruct (Z.eqb_spec (s_quota sh) 0) as [Hq|Hq].
  { split_and!; [apply Hul|done|tauto]. }
  destruct (decide (_prio sh = p)) as [<-|Hp].
  - rewrite fn_lookup_insert. unfold Seq.insert_tail. rewrite NoDup_snoc.
    split_and!; first [apply Hul | done | intros; set_unfold; intuition congruence].
  - rewrite fn_lookup_insert_ne by done. split_and!; [apply Hul|done|tauto].
Qed.

(** The head stays a member when no share leaves. *)
Lemma unready_wf M s i sh :
  wf M s → head_claim_ok s → i ∈ M → shares s !! i = Some sh → _ready sh = true →
  ∃ s', unready i s = Some s' ∧ wf M s' ∧ head_claim_ok s' ∧
    shares s' = alter (set_ready false) i (shares s) ∧ _idle s' = _idle s.
Proof.
  intros Hw Hhc HM Hi Hr. rewrite (unready_shape M s i sh) by done. eexists. split; [done|].
  split_and!; [| |done..].
  2:{ eapply head_claim_ok_same; [done..|]. by apply alter_same_claims. }
  pose proof Hw as [[] Ho]. pose proof (wf_shares0 _ _ Hi) as (?&?&?&?).
  destruct (ready_facts M s i sh) as (Hid & Hf & Huc & Hrc); [done..|].
  destruct (member_facts M s i sh Hw Hi) as (Hfn & _).
  apply (wf_change M M s _ i (set_ready false sh)); try done; simpl.
  - by rewrite lookup_alter_eq, Hi.
  - intros j Hj. by rewrite lookup_alter_ne.
  - split_and!; [by apply Seq.remove_NoDup|..]; intros; rewrite Seq.elem_of_remove;
      intuition congruence.
  - intros p. destruct (unready_rcl_ok M s i sh Hw HM Hi Hr p) as (? & ? & ?).
    split_and!; [done..|]. split; [done|by intros (_ & ? & _)].
  - intros p. destruct (unready_ucl_ok M s i sh Hw HM Hi Hr p) as (? & ? & ->). tauto.
  - intros HD p. specialize (Ho HD). apply (order_alter _ (unready_rcl i sh s)); [done|]. unfold unready_rcl.
    destruct (_ =? 0); [done|by apply order_remove].
Qed.


Ltac memb := set_unfold; intuition (congruence || done).

(** [remove] first gives up the head. *)
Definition drop_head (i : id) (s : t) : t :=
  if decide (_head s = Some i)
  then with_removed true (with_head None (_head_quota s) (_head_claims s) s) else s.

Lemma drop_head_wf M i s :
  wf M s → head_claim_ok s →
  wf M (drop_head i s) ∧ head_claim_ok (drop_head i s) ∧ shares (drop_head i s) = shares s ∧
  _idle (drop_head i s) = _idle s ∧ _head (drop_head i s) ≠ Some i.
Proof.
  intros [[] Ho] Hhc. unfold drop_head. case_decide as Hh.
  - split_and!; [split; [constructor|]|..]; done.
  - split_and!; [split; [constructor|]|..]; done.
Qed.

(** A share that is neither ready nor the head leaves its claim list. *)
Lemma leave_wf M s i sh :
  wf M s → head_claim_ok s → i ∈ M → shares s !! i = Some sh → _ready sh = false →
  _head s ≠ Some i →
  ∃ s', (if s_quota sh =? 0 then Some s else on_ucl (_prio sh) (Remove i) s) = Some s' ∧
    wf (M ∖ {[i]}) s' ∧ head_claim_ok s'.
Proof.
  intros Hw Hhc HM Hi Hr Hhd. pose proof Hw as [[] Ho]. pose proof (wf_shares0 _ _ Hi) as Hok.
  destruct (unready_facts M s i sh) as (Hid & Hf & Hrc & Huc); [done..|].
  destruct (member_facts M s i sh Hw Hi) as (Hfn & Hrl & Hul & _).
  assert (∀ h, _head s = Some h → h ∈ M ∖ {[i]} ∨ h = _idle s ∧ _head_claims s = false) as Hhd'.
  { intros h Hh. destruct (wf_head0 h Hh); [left; set_unfold; split; congruence|by right]. }
  assert (∀ ucl, (∀ p, NoDup (ucl p) ∧ (∀ j, j ≠ i → j ∈ ucl p ↔ j ∈ _ucl s p) ∧ i ∉ ucl p) →
    wf (M ∖ {[i]}) (with_ucl ucl s)) as Hgo.
  { intros ucl Hucl. apply (wf_change M _ s _ i sh); try done.
    - intros j Hj. set_unfold. tauto.
    - split_and!; [done..|]. memb.
    - intros p. split_and!; [apply Hrl|done|]. specialize (Hrc p). memb.
    - intros p. destruct (Hucl p) as (?&?&?). split_and!; [done..|]. memb. }
  destruct (Z.eqb_spec (s_quota sh) 0) as [Hq|Hq].
  - eexists. split_and!; [done| |done].
    assert (s = with_ucl (_ucl s) s) as -> by by destruct s.
    apply Hgo. intros p. specialize (Huc p). split_and!; [apply Hul|done|tauto].
  - unfold on_ucl; simpl. rewrite decide_True by by apply Huc. simpl.
    eexists. split_and!; [done| |done]. apply Hgo. intros p. pose proof (Huc p).
    destruct (insert_prio (_ucl s) (_prio sh) (Remove i) i (Seq.remove i (_ucl s (_prio sh))) _ Hul)
      with (q := p) as (? & ? & ->); [simpl; by rewrite decide_True by by apply Huc|done|].
    split_and!; [done..|]. case_decide; tauto.
Qed.

Lemma remove_wf M s i sh :
  wf M s → head_claim_ok s → i ∈ M → shares s !! i = Some sh →
  ∃ s', remove i s = Some s' ∧ wf (M ∖ {[i]}) s' ∧ head_claim_ok s'.
Proof.
  intros Hw Hhc HM Hi. unfold remove. rewrite Hi. simpl.
  assert (i ≠ _idle s) as Hid by (intros ->; by destruct Hw as [[_ _ _ _ [? _]] _]).
  rewrite bool_decide_false by done.
  assert (∃ s1 sh1, (if _ready sh then unready i s else Some s) = Some s1 ∧ wf M s1 ∧
    head_claim_ok s1 ∧ shares s1 !! i = Some sh1 ∧ _ready sh1 = false ∧
    s_quota sh1 = s_quota sh ∧ _prio sh1 = _prio sh)
    as (s1 & sh1 & -> & Hw1 & Hhc1 & Hi1 & Hr1 & <- & <-).
  { destruct (_ready sh) eqn:Hr; [|by exists s, sh].
    destruct (unready_wf M s i sh) as (s1 & ? & ? & ? & Hs1 & ?); [done..|].
    exists s1, (set_ready false sh). split_and!; try done. by rewrite Hs1, lookup_alter_eq, Hi. }
  simpl. change (if decide (_head s1 = Some i) then _ else s1) with (drop_head i s1).
  destruct (drop_head_wf M i s1) as (? & ? & Hsh & ? & ?); [done..|].
  apply (leave_wf M); try done. by rewrite Hsh.
Qed.

Lemma insert_wf M s i sh :
  wf M s → head_claim_ok s → i ∉ M → i ≠ _idle s → shares s !! i = Some sh →
  ∃ s', insert i s = Some s' ∧ wf (M ∪ {[i]}) s' ∧ head_claim_ok s'.
Proof.
  intros Hw Hhc HM Hid Hi. pose proof Hw as [[] Ho].
  pose proof (wf_shares0 _ _ Hi) as (?&?&?&?). pose proof (wf_outside0 _ _ HM Hi) as Hr.
  unfold insert. rewrite Hi. simpl. rewrite Hr.
  destruct (member_facts M s i sh Hw Hi) as (Hfn & Hrl & Hul & Hfi & Hri & Hui).
  assert (∀ h, _head s = Some h → h ∈ M ∪ {[i]} ∨ h = _idle s ∧ _head_claims s = false) as Hhd.
  { intros h Hh. destruct (wf_head0 h Hh); [left; set_solver|by right]. }
  destruct (Z.eqb_spec (s_quota sh) 0) as [Hq|Hq].
  - eexists. split; [done|]. split; [|done].
    apply (wf_change M _ s _ i sh); try done; try (intros j Hj; set_unfold; tauto).
    + split_and!; [done..|]. rewrite Hfi, Hr. memb.
    + intros p. split_and!; [apply Hrl|done|]. rewrite Hri, Hr. memb.
    + intros p. split_and!; [apply Hul|done|]. rewrite Hui. memb.
  - unfold on_ucl; simpl. rewrite decide_True by (rewrite Hui; tauto). simpl.
    eexists. split; [done|]. split.
    + apply (wf_change M _ s _ i (set_claim (s_quota sh) sh)); simpl; try done; try (intros j Hj; set_unfold; tauto).
      * by rewrite lookup_alter_eq, Hi.
      * intros j Hj. by rewrite lookup_alter_ne.
      * split_and!; [done..|]. rewrite Hfi, Hr. memb.
      * intros p. split_and!; [apply Hrl|done|]. rewrite Hri, Hr. memb.
      * intros p. destruct (insert_prio (_ucl s) (_prio sh) (Insert_head i) i (Seq.insert_head i (_ucl s (_prio sh))) _ Hul)
          with (q := p) as (? & ? & ->); [simpl; rewrite decide_True; [done|]; rewrite Hui; tauto|done|].
        split_and!; [done..|]. case_decide; [memb|]. rewrite Hui. memb.
      * intros HD p. simpl. apply claims_first_alter_ne; [|by apply Ho]. rewrite Hri, Hr. memb.
    + eapply head_claim_ok_same; [done..|]. apply alter_same_claims. done.
Qed.

(** What [quota] needs beyond membership: a share that receives a quota holds no
    claim of an earlier one (see [stale_claim] below). *)
Definition no_stale_claim (sh : share) (q : Z) : Prop :=
  s_quota sh = 0 → q ≠ 0 → _claim sh = 0.

Section Quota_change.
Context (M : gset id) (s : t) (i : id) (sh : share) (q : Z).
Context (Hw : wf M s) (Hhc : head_claim_ok s) (HM : i ∈ M) (Hi : shares s !! i = Some sh) (Hq0 : 0 ≤ q).

Lemma quota_head_claim s' :
  shares s' = alter (set_quota q) i (shares s) → _head s' = _head s →
  _head_claims s' = _head_claims s → head_claim_ok s'.
Proof. intros E ??. eapply head_claim_ok_same; [done..|]. rewrite E. by apply alter_same_claims. Qed.

Lemma quota_not_idle : i ≠ _idle s.
Proof. intros ->. by destruct Hw as [[_ _ _ _ [? _]] _]. Qed.

(** A change of the quota with new claim lists. *)
Lemma quota_change rcl ucl :
  (∀ p, NoDup (rcl p) ∧ (∀ j, j ≠ i → j ∈ rcl p ↔ j ∈ _rcl s p) ∧
     (i ∈ rcl p ↔ _ready sh = true ∧ q ≠ 0 ∧ _prio sh = p)) →
  (∀ p, NoDup (ucl p) ∧ (∀ j, j ≠ i → j ∈ ucl p ↔ j ∈ _ucl s p) ∧
     (i ∈ ucl p ↔ _ready sh = false ∧ q ≠ 0 ∧ _prio sh = p)) →
  (D → ∀ p, claims_first (shares s) (rcl p)) →
  wf M (update_share i (set_quota q) (with_ucl ucl (with_rcl rcl s))).
Proof.
  intros Hr Hu Ho. pose proof Hw as [[] _].
  pose proof (wf_shares0 _ _ Hi) as (?&?&?&?).
  destruct (member_facts M s i sh Hw Hi) as (Hfn & _ & _ & Hfi & _ & _).
  apply (wf_change M _ s _ i (set_quota q sh)); try done; simpl.
  - by rewrite lookup_alter_eq, Hi.
  - intros j Hj. by rewrite lookup_alter_ne.
  - apply quota_not_idle.
  - intros p. destruct (Hr p) as (?&?&->). memb.
  - intros p. destruct (Hu p) as (?&?&->). memb.
  - intros HD p. apply order_alter; auto.
Qed.

(** The lists are as before when the quota does not appear or vanish. *)
Lemma quota_keep : (s_quota sh = 0 ↔ q = 0) → wf M (update_share i (set_quota q) s).
Proof.
  intros Hq. destruct (member_facts M s i sh Hw Hi) as (_ & Hrl & Hul & _ & Hri & Hui).
  assert (s = with_ucl (_ucl s) (with_rcl (_rcl s) s)) as -> by by destruct s.
  apply quota_change; [| |apply Hw]; intros p.
  - split_and!; [apply Hrl|done|]. rewrite Hri. memb.
  - split_and!; [apply Hul|done|]. rewrite Hui. memb.
Qed.

Lemma quota_introduction_wf :
  s_quota sh = 0 → q ≠ 0 → (D → _claim sh = 0) →
  ∃ s', _quota_introduction i s = Some s' ∧ wf M (update_share i (set_quota q) s') ∧
    head_claim_ok (update_share i (set_quota q) s').
Proof.
  intros Hq Hq' Hcl. destruct (member_facts M s i sh Hw Hi) as (_ & Hrl & Hul & _ & Hri & Hui).
  unfold _quota_introduction. rewrite Hi. simpl. destruct (_ready sh) eqn:Hr.
  - assert (i ∉ _rcl s (_prio sh)) as Hn by (rewrite Hri; tauto).
    unfold on_rcl; simpl. rewrite decide_True by done. simpl. eexists. split; [done|].
    split; [|by apply quota_head_claim]. apply quota_change with (ucl := _ucl s).
    + intros p. destruct (insert_prio (_rcl s) (_prio sh) (Insert_tail i) i
        (Seq.insert_tail i (_rcl s (_prio sh))) _ Hrl) with (q := p) as (? & ? & ->);
        [simpl; by rewrite decide_True|done|]. rewrite Hr.
      split_and!; [done..|]. case_decide; [memb|]. rewrite Hri. memb.
    + intros p. split_and!; [apply Hul|done|]. rewrite Hui, Hr. memb.
    + intros HD. apply (order_insert _ _ _ i sh); [done|by apply Hw|]. by rewrite Hcl.
  - assert (i ∉ _ucl s (_prio sh)) as Hn by (rewrite Hui; tauto).
    unfold on_ucl; simpl. rewrite decide_True by done. simpl. eexists. split; [done|].
    split; [|by apply quota_head_claim]. apply quota_change with (rcl := _rcl s).
    + intros p. split_and!; [apply Hrl|done|]. rewrite Hri, Hr. memb.
    + intros p. destruct (insert_prio (_ucl s) (_prio sh) (Insert_tail i) i
        (Seq.insert_tail i (_ucl s (_prio sh))) _ Hul) with (q := p) as (? & ? & ->);
        [simpl; by rewrite decide_True|done|]. rewrite Hr.
      split_and!; [done..|]. case_decide; [memb|]. rewrite Hui. memb.
    + apply Hw.
Qed.

Lemma quota_revokation_wf :
  s_quota sh ≠ 0 → q = 0 →
  ∃ s', _quota_revokation i s = Some s' ∧ wf M (update_share i (set_quota q) s') ∧
    head_claim_ok (update_share i (set_quota q) s').
Proof.
  intros Hq Hq'. destruct (member_facts M s i sh Hw Hi) as (_ & Hrl & Hul & _ & Hri & Hui).
  unfold _quota_revokation. rewrite Hi. simpl. destruct (_ready sh) eqn:Hr.
  - assert (i ∈ _rcl s (_prio sh)) as Hn by (rewrite Hri; by split_and!).
    unfold on_rcl; simpl. rewrite decide_True by done. simpl. eexists. split; [done|].
    split; [|by apply quota_head_claim]. apply quota_change with (ucl := _ucl s).
    + intros p. destruct (insert_prio (_rcl s) (_prio sh) (Remove i) i
        (Seq.remove i (_rcl s (_prio sh))) _ Hrl) with (q := p) as (? & ? & ->);
        [simpl; by rewrite decide_True|done|].
      split_and!; [done..|]. case_decide; [memb|]. rewrite Hri. memb.
    + intros p. split_and!; [apply Hul|done|]. rewrite Hui, Hr. memb.
    + intros HD. by apply order_remove, Hw.
  - assert (i ∈ _ucl s (_prio sh)) as Hn by (rewrite Hui; by split_and!).
    unfold on_ucl; simpl. rewrite decide_True by done. simpl. eexists. split; [done|].
    split; [|by apply quota_head_claim]. apply quota_change with (rcl := _rcl s).
    + intros p. split_and!; [apply Hrl|done|]. rewrite Hri, Hr. memb.
    + intros p. destruct (insert_prio (_ucl s) (_prio sh) (Remove i) i
        (Seq.remove i (_ucl s (_prio sh))) _ Hul) with (q := p) as (? & ? & ->);
        [simpl; by rewrite decide_True|done|].
      split_and!; [done..|]. case_decide; [memb|]. rewrite Hui. memb.
    + apply Hw.
Qed.
End Quota_change.

Lemma quota_wf M s i sh q :
  wf M s → head_claim_ok s → i ∈ M → shares s !! i = Some sh → 0 ≤ q → (D → no_stale_claim sh q) →
  ∃ s', quota i q s = Some s' ∧ wf M s' ∧ head_claim_ok s'.
Proof.
  intros Hw Hhc HM Hi Hq0 Hst. unfold quota. rewrite Hi. simpl.
  rewrite bool_decide_false by (by eapply quota_not_idle).
  destruct (Z.eqb_spec (s_quota sh) 0) as [Hq|Hq]; simpl; destruct (Z.eqb_spec q 0) as [->|Hq']; simpl.
  - eexists. split; [done|]. split; [by apply (quota_keep M s i sh)|].
    by apply (quota_head_claim s i 0 Hhc).
  - destruct (quota_introduction_wf M s i sh q) as (s' & -> & ?); auto; [|by eexists].
    intros HD. by apply Hst.
  - unfold _quota_adaption. rewrite Hi. simpl.
    destruct (quota_revokation_wf M s i sh 0) as (s' & -> & ?); auto. by eexists.
  - unfold _quota_adaption. rewrite Hi. simpl. destruct (Z.eqb_spec q 0) as [|_]; [done|]. simpl.
    eexists. split; [done|]. destruct (Z.ltb_spec q (_claim sh)).
    + assert (wf M (update_share i (set_claim q) s)) as Hw1.
      { apply (wf_set_claim M s i sh); [done..|lia]. }
      assert (head_claim_ok (update_share i (set_claim q) s)) as Hhc1.
      { eapply head_claim_ok_same; [done..|]. by apply alter_same_claims. }
      split; [|by apply (quota_head_claim _ i q Hhc1)].
      apply (quota_keep M _ i (set_claim q sh) q Hw1); simpl; try done; try tauto.
      by rewrite lookup_alter_eq, Hi.
    + split; [apply (quota_keep M s i sh); tauto|]. by apply (quota_head_claim s i q Hhc).
Qed.

(** The quota of a share that is not inserted, [Cpu_share::quota]. *)
Lemma share_quota_wf M s i sh q :
  wf M s → head_claim_ok s → i ∉ M → i ≠ _idle s → shares s !! i = Some sh → 0 ≤ q →
  wf M (update_share i (set_quota q) s) ∧ head_claim_ok (update_share i (set_quota q) s).
Proof.
  intros Hw Hhc HM Hid Hi Hq0. pose proof Hw as [[] Ho]. pose proof (wf_shares0 _ _ Hi) as (?&?&?&?).
  destruct (member_facts M s i sh Hw Hi) as (Hfn & Hrl & Hul & Hfi & Hri & Hui). split.
  - apply (wf_change M M s _ i (set_quota q sh)); try done; simpl.
    + by rewrite lookup_alter_eq, Hi.
    + intros j Hj. by rewrite lookup_alter_ne.
    + intros _. by apply (wf_outside0 i).
    + intros p. split_and!; [apply Hrl|done|]. rewrite Hri. memb.
    + intros p. split_and!; [apply Hul|done|]. rewrite Hui. memb.
    + intros HD p. simpl. apply (order_alter _ (_rcl s)); [done|by apply Ho].
  - eapply head_claim_ok_same; [done..|]. by apply alter_same_claims.
Qed.
End Invariant.
