(* ===== verification/Cpu_scheduler_props.v ===== *)
(** * Cpu_scheduler_props: what the scheduler promises to the kernel

    The properties of the scheduler as a state machine: safety of every call,
    the quality of the choice [update] makes, and that a share which wakes up,
    blocks, enters or leaves never goes unnoticed. *)

From stdpp Require Import functions.
From S2P Require Import Prelude.
From S2P Require Import Double_list.
From S2P Require Import Cpu_scheduler.
From S2P Require Import Cpu_scheduler_inv.

Open Scope Z_scope.

(** ** The scheduler as a state machine *)

Inductive sop :=
  | SUpdate (time : Z) | STimeout | SYield
  | SReady (i : id) | SUnready (i : id) | SInsert (i : id) | SRemove (i : id)
  | SQuota (i : id) (q : Z)
  | SShare_quota (i : id) (q : Z)   (* [Cpu_share::quota] of a share that is not inserted *)
  | SHead.

Definition run_sop (o : sop) (s : t) : option t :=
  match o with
  | SUpdate time => update time s
  | STimeout => Some (timeout s)
  | SYield => Some (yield s)
  | SReady i => ready i s
  | SUnready i => unready i s
  | SInsert i => insert i s
  | SRemove i => remove i s
  | SQuota i q => quota i q s
  | SShare_quota i q => Some (update_share i (set_quota q) s)
  | SHead => '(_, s) ← get_head s; Some s
  end.

(** The shares that are inserted after the operation. *)
Definition members (o : sop) (M : gset id) : gset id :=
  match o with SInsert i => M ∪ {[i]} | SRemove i => M ∖ {[i]} | _ => M end.

(** What the kernel guarantees when it calls an operation. *)
Definition sop_ok (M : gset id) (s : t) (o : sop) : Prop :=
  match o with
  | SUpdate _ | STimeout | SYield | SHead => True
  | SReady i => i ∈ M ∧ _ready <$> shares s !! i = Some false
  | SUnready i => i ∈ M ∧ _ready <$> shares s !! i = Some true
  | SInsert i => i ∉ M ∧ i ≠ _idle s ∧ is_Some (shares s !! i)
  | SRemove i => i ∈ M
  | SQuota i q => i ∈ M ∧ 0 ≤ q
  | SShare_quota i q => i ∉ M ∧ i ≠ _idle s ∧ is_Some (shares s !! i) ∧ 0 ≤ q
  end.

(** The states after any history of such calls that also keep [C]. *)
Inductive reach (C : t → sop → Prop) (m : gmap id share) (idle : id) (q f : Z) :
    gset id → t → Prop :=
  | reach_init : reach C m idle q f ∅ (Cpu_scheduler m idle q f)
  | reach_step M s o s' :
      reach C m idle q f M s → sop_ok M s o → C s o → run_sop o s = Some s' →
      reach C m idle q f (members o M) s'.

(** Two conditions on the calls: none at all, and that no inserted share gets a
    quota while it holds an unspent claim of an earlier one. *)
Definition any_call : t → sop → Prop := λ _ _, True.

Definition no_stale_call (s : t) (o : sop) : Prop :=
  match o with
  | SQuota i q => ∀ sh, shares s !! i = Some sh → no_stale_claim sh q
  | _ => True
  end.

(** A store of shares as their constructor makes them, and sane parameters. *)
Definition fresh (m : gmap id share) (idle : id) (q f : Z) : Prop :=
  0 < q ∧ 0 ≤ f ∧ is_Some (m !! idle) ∧
  ∀ i sh, m !! i = Some sh → share_ok sh ∧ _ready sh = false.

Lemma init_wf D m idle q f :
  fresh m idle q f →
  wf D ∅ (Cpu_scheduler m idle q f) ∧ head_claim_ok (Cpu_scheduler m idle q f).
Proof.
  intros (Hq & Hf & Hidle & Hm). split; [split|].
  - constructor; simpl.
    + split_and!; simpl.
      * split; [constructor|]. intros j. unfold fill_member. set_solver.
      * intros p. split; [constructor|]. intros j. unfold claim_member. set_solver.
      * intros p. split; [constructor|]. intros j. unfold claim_member. set_solver.
    + set_solver.
    + intros i sh Hi. by apply (Hm i sh).
    + intros i sh _ Hi. by apply (Hm i sh).
    + split; [set_solver|done].
    + intros h [= <-]. by right.
    + lia.
  - intros _ p. constructor.
  - by intros ?? [=].
Qed.

Lemma sop_step D M s o :
  wf D M s → head_claim_ok s → sop_ok M s o → (D → no_stale_call s o) →
  ∃ s', run_sop o s = Some s' ∧ wf D (members o M) s' ∧ head_claim_ok s'.
Proof.
  intros Hw Hhc Hok Hst. destruct o as [time| | |i|i|i|i|i q|i q|]; simpl in *.
  - destruct (update_spec D M s time) as (s' & ? & ? & ? & _); eauto.
  - eexists; split; [done|]. destruct Hw as [[] ?]. split; [split; [by constructor|done]|done].
  - eexists; split; [done|]. destruct Hw as [[] ?]. split; [split; [by constructor|done]|done].
  - destruct Hok as [HM Hr]. destruct (shares s !! i) as [sh|] eqn:Hi; simplify_eq/=.
    by eapply ready_wf.
  - destruct Hok as [HM Hr]. destruct (shares s !! i) as [sh|] eqn:Hi; simplify_eq/=.
    destruct (unready_wf D M s i sh) as (s' & ? & ? & ? & _); eauto.
  - destruct Hok as (HM & Hid & [sh Hi]). by eapply insert_wf.
  - pose proof Hw as [[_ Hmem] _]. destruct (Hmem i Hok) as [sh Hi]. by eapply remove_wf.
  - destruct Hok as (HM & Hq). pose proof Hw as [[_ Hmem] _].
    destruct (Hmem i HM) as [sh Hi]. eapply quota_wf; eauto.
  - destruct Hok as (HM & Hid & [sh Hi] & Hq). eexists. split; [done|]. by eapply share_quota_wf.
  - unfold get_head. destruct (_head s) as [h|]; [by exists s|].
    destruct (update_spec D M s (_last_time s)) as (s' & -> & ? & ? & _ & _ & [h Hh]); [done..|].
    simpl. rewrite Hh. by exists s'.
Qed.

Lemma reach_wf C m idle q f M s :
  fresh m idle q f → reach C m idle q f M s →
  wf (∀ s o, C s o → no_stale_call s o) M s ∧ head_claim_ok s.
Proof.
  intros Hf. induction 1 as [|M s o s' Hr [Hw Hhc] Hok HC Hrun]; [by apply init_wf|].
  destruct (sop_step _ M s o Hw Hhc Hok) as (s1 & Hs1 & ?); [by auto|]. by simplify_eq.
Qed.

(** ** When the choice of the head stays right *)

Lemma best_head_mono M M' s s' :
  best_head M s →
  _head s' = _head s → _head_claims s' = _head_claims s → _head_quota s' = _head_quota s →
  _idle s' = _idle s → _fill s' = _fill s →
  (∀ h sh, _head s = Some h → candidate M s h sh → head (_rcl s (_prio sh)) = Some h →
     ∃ sh', candidate M' s' h sh' ∧ _claim sh' = _claim sh ∧ _prio sh' = _prio sh ∧
            head (_rcl s' (_prio sh)) = Some h) →
  (∀ j shj, candidate M' s' j shj →
     (∃ shj0, candidate M s j shj0 ∧ _prio shj0 = _prio shj) ∨
     (_head_claims s = true ∧
      ∀ h sh, _head s = Some h → shares s !! h = Some sh → _prio shj ≤ _prio sh)) →
  (_head_claims s = false → head (_fills s') = head (_fills s)) →
  (∀ h, _head s = Some h → head (_fills s) = Some h →
     s_fill <$> shares s' !! h = s_fill <$> shares s !! h) →
  best_head M' s'.
Proof.
  intros Hb Eh Ec Eq Ei Ef Hhd Hcand Hfills Hfill.
  destruct Hb as [(h & sh & Hc & Hh & Hcl & Hq & Hl & Hbest)|(Hnone & Hcl & Hb)].
  - left. destruct (Hhd h sh Hh Hc Hl) as (sh' & Hc' & Ecl & Ep & Hl').
    exists h, sh'. rewrite Eh, Ec, Eq, Ecl, Ep. split_and!; try done.
    intros j shj Hj. destruct (Hcand j shj Hj) as [(shj0 & Hj0 & <-)|[_ H]].
    + by eapply Hbest.
    + apply (H h); [done|]. by destruct Hc as (_ & ? & _).
  - right. rewrite Eh, Ec, Eq, Ei, Ef, (Hfills Hcl). split_and!; [|done|].
    + intros j shj Hj. destruct (Hcand j shj Hj) as [(shj0 & Hj0 & _)|[? _]]; [|congruence].
      by eapply Hnone.
    + destruct (head (_fills s)) as [h|]; [|done]. destruct Hb as (Hh & sh & Hsh & Hq).
      split; [done|]. specialize (Hfill h Hh eq_refl). rewrite Hsh in Hfill.
      destruct (shares s' !! h) as [sh'|]; simplify_eq/=. exists sh'. split; congruence.
Qed.

Lemma head_remove_ne i h (l : list id) :
  head l = Some h → h ≠ i → head (Seq.remove i l) = Some h.
Proof.
  destruct l as [|x l]; [done|]. simpl. intros [= ->] Hne. unfold Seq.remove.
  by rewrite filter_cons_True by done.
Qed.

(** Field-wise reading of a share that two updates changed. *)
Lemma candidate_ne M M' s s' j shj :
  shares s' !! j = shares s !! j → (j ∈ M' → j ∈ M) → candidate M' s' j shj → candidate M s j shj.
Proof. unfold candidate. intros -> HM (?&?&?). split_and!; auto; tauto. Qed.

Lemma ready_post_best D M s i sh :
  wf D M s → i ∈ M → shares s !! i = Some sh → _ready sh = false →
  best_head M s → _need_to_schedule (ready_post i sh s) = false → best_head M (ready_post i sh s).
Proof.
  intros Hw HM Hi Hr Hb Hneed. simpl in Hneed. unfold ready_need in Hneed.
  rewrite !orb_false_iff, !bool_decide_eq_false in Hneed. destruct Hneed as (((Hn & Hidle) & Hp) & _).
  destruct (unready_facts D M s i sh) as (Hid & Hf & Hrc & Huc); [done..|].
  assert (∀ j, j ≠ i → shares (ready_post i sh s) !! j = shares s !! j) as Hne.
  { intros j Hj. simpl. by apply alter_twice_ne. }
  assert (shares (ready_post i sh s) !! i = Some (set_fill (_fill s) (set_ready true sh))) as Heq.
  { simpl. by apply alter_twice_eq. }
  eapply best_head_mono; try done.
  - intros h sh0 Hh Hc Hl. assert (h ≠ i) as Hhi.
    { intros ->. destruct Hc as (_ & ? & ? & _). congruence. }
    exists sh0. split_and!; [|done..|].
    { apply (candidate_ne M M (ready_post i sh s) s); auto. by rewrite Hne. }
    simpl. unfold ready_rcl. destruct (Z.eqb_spec (s_quota sh) 0); [done|].
    destruct (decide (_prio sh = _prio sh0)) as [Ep|Ep]; [|by rewrite fn_lookup_insert_ne].
    rewrite Ep, fn_lookup_insert. destruct (Z.eqb_spec (_claim sh) 0) as [|Hcl]; simpl in Hp.
    + unfold Seq.insert_tail. by destruct (_rcl s (_prio sh0)).
    + exfalso. unfold preempts in Hp. rewrite Hh in Hp. destruct (_head_claims s); [|done].
      destruct Hc as (_ & Hsh0 & _). rewrite Hsh0, Ep, Z.leb_refl in Hp. done.
  - intros j shj Hj. destruct (decide (j = i)) as [->|Hji].
    2:{ left. exists shj. split; [|done]. eapply candidate_ne; [by apply Hne|done|done]. }
    right. destruct Hj as (_ & Hj & _ & Hq & Hc). rewrite Heq in Hj. injection Hj as <-.
    simpl in Hq, Hc |- *. destruct (Z.eqb_spec (s_quota sh) 0), (Z.eqb_spec (_claim sh) 0); try done.
    simpl in Hp. unfold preempts in Hp. destruct (_head s) as [h|]; [|done].
    destruct (_head_claims s); [|done]. split; [done|]. intros h' sh' [= <-] Hsh'.
    rewrite Hsh' in Hp. apply Z.leb_gt in Hp. lia.
  - intros Hcl. simpl. unfold Seq.insert_tail. destruct (_fills s) eqn:E; [|done].
    exfalso. destruct Hb as [(?&?&_&_&?&_)|(_&_&Hb)]; [congruence|]. rewrite E in Hb.
    by destruct Hb as [? _].
  - intros h _ Hh. rewrite Hne; [done|]. intros ->. apply Hf.
    destruct (_fills s); simplify_eq/=. set_solver.
Qed.

Lemma unready_post_best M s i sh :
  shares s !! i = Some sh → best_head M s →
  _need_to_schedule (unready_post i sh s) = false → best_head M (unready_post i sh s).
Proof.
  intros Hi Hb Hneed. simpl in Hneed. rewrite orb_false_iff, bool_decide_eq_false in Hneed.
  destruct Hneed as [Hh _].
  assert (∀ j, j ≠ i → shares (unready_post i sh s) !! j = shares s !! j) as Hne.
  { intros j Hj. simpl. by rewrite lookup_alter_ne. }
  eapply best_head_mono; try done.
  - intros h sh0 Hh0 Hc Hl. assert (h ≠ i) by congruence.
    exists sh0. split_and!; [|done..|].
    { apply (candidate_ne M M (unready_post i sh s) s); auto. by rewrite Hne. }
    simpl. unfold unready_rcl. destruct (_ =? 0); [done|].
    destruct (decide (_prio sh = _prio sh0)) as [Ep|Ep]; [|by rewrite fn_lookup_insert_ne].
    rewrite Ep, fn_lookup_insert. by apply head_remove_ne.
  - intros j shj Hj. left. destruct (decide (j = i)) as [->|Hji].
    + destruct Hj as (_ & Hj & Hr & _). simpl in Hj. rewrite lookup_alter_eq, Hi in Hj.
      injection Hj as <-. done.
    + exists shj. split; [|done]. eapply candidate_ne; [by apply Hne|done|done].
  - intros Hcl. simpl. destruct Hb as [(?&?&_&_&?&_)|(_&_&Hb)]; [congruence|].
    destruct (head (_fills s)) as [h|] eqn:E; [|by destruct (_fills s)].
    apply head_remove_ne; [done|]. destruct Hb as [Hb _]. congruence.
  - intros h Hh0 _. rewrite Hne; [done|congruence].
Qed.

Lemma best_head_not_ready D M s i sh :
  wf D M s → best_head M s → i ∈ M → shares s !! i = Some sh → _ready sh = false → _head s ≠ Some i.
Proof.
  intros Hw Hb HM Hi Hr Hh. destruct (unready_facts D M s i sh) as (Hid & Hf & _); [done..|].
  destruct Hb as [(h & sh0 & (_ & ? & ? & _) & ? & _)|(_ & _ & Hb)]; [congruence|].
  destruct (head (_fills s)) as [h|] eqn:E; [|naive_solver congruence].
  destruct Hb as [? _]. assert (h = i) as -> by congruence.
  apply Hf. destruct (_fills s); simplify_eq/=. set_solver.
Qed.

(** Shares that are not ready may come and go. *)
Lemma best_head_ucl M M' s f i ucl :
  best_head M s → (∀ j, j ≠ i → j ∈ M ↔ j ∈ M') →
  (∀ sh, shares s !! i = Some sh → _ready sh = false) → (∀ sh, _ready (f sh) = _ready sh) →
  _head s ≠ Some i → best_head M' (with_ucl ucl (update_share i f s)).
Proof.
  intros Hb HM Hr Hf Hh.
  assert (∀ j, j ≠ i → shares (with_ucl ucl (update_share i f s)) !! j = shares s !! j) as Hne.
  { intros j Hj. simpl. by rewrite lookup_alter_ne. }
  eapply best_head_mono; try done.
  - intros h sh0 Hh0 Hc Hl. assert (h ≠ i) by congruence.
    exists sh0. split_and!; [|done..].
    apply (candidate_ne _ M (with_ucl ucl (update_share i f s)) s); [by rewrite Hne|by apply HM|done].
  - intros j shj Hj. left. destruct (decide (j = i)) as [->|Hji].
    + destruct Hj as (_ & Hj & Hr' & _). simpl in Hj. rewrite lookup_alter_eq in Hj.
      destruct (shares s !! i) as [sh|]; simplify_eq/=. rewrite Hf, (Hr sh) in Hr'; done.
    + exists shj. split; [|done]. eapply candidate_ne; [by apply Hne|by apply HM|done].
  - intros h Hh0 _. rewrite Hne; [done|congruence].
Qed.

Lemma update_share_id i s : update_share i (λ sh, sh) s = s.
Proof.
  destruct s; unfold update_share, with_shares; simpl. f_equal. apply map_eq. intros j.
  rewrite lookup_alter. case_decide as E; [rewrite E|done]. by destruct (shares !! j).
Qed.

Lemma remove_best D M s i sh s' :
  wf D M s → head_claim_ok s → best_head M s → i ∈ M → shares s !! i = Some sh →
  remove i s = Some s' → _need_to_schedule s' = false → best_head (M ∖ {[i]}) s'.
Proof.
  intros Hw Hhc Hb HM Hi. unfold remove. rewrite Hi. simpl.
  assert (i ≠ _idle s) as Hid by (intros ->; by destruct Hw as [[_ _ _ _ [? _]] _]).
  rewrite bool_decide_false by done.
  assert (∀ s1, wf D M s1 → best_head M s1 → (∀ sh1, shares s1 !! i = Some sh1 → _ready sh1 = false) →
    is_Some (shares s1 !! i) →
    (let s := if decide (_head s1 = Some i)
             then with_removed true (with_head None (_head_quota s1) (_head_claims s1) s1) else s1 in
     if s_quota sh =? 0 then Some s else on_ucl (_prio sh) (Remove i) s) = Some s' →
    best_head (M ∖ {[i]}) s') as Hgo.
  { intros s1 Hw1 Hb1 Hr1 [sh1 Hi1]. pose proof (best_head_not_ready D M s1 i sh1) as Hnh.
    rewrite decide_False by auto. simpl. intros Hs'.
    assert (∃ ucl, s' = with_ucl ucl (update_share i (λ sh, sh) s1)) as [ucl ->].
    { rewrite update_share_id. destruct (_ =? 0).
      - exists (_ucl s1). injection Hs' as <-. by destruct s1.
      - unfold on_ucl in Hs'. destruct (abs_step _ _); simplify_eq/=. by eexists. }
    apply (best_head_ucl M); auto. intros j Hj. set_unfold. tauto. }
  destruct (_ready sh) eqn:Hr.
  - destruct (unready_wf D M s i sh) as (s1 & Hs1 & Hw1 & _); [done..|].
    rewrite (unready_shape D M s i sh) in * by done. simplify_eq. simpl. intros Hs' Hneed.
    assert (_need_to_schedule (unready_post i sh s) = false) as Hn.
    { revert Hs' Hneed. unfold on_ucl. case_decide; destruct (_ =? 0);
        repeat destruct (abs_step _ _); intros; simplify_eq/=; done. }
    apply (Hgo (unready_post i sh s)); [done|by eapply unready_post_best| | |done].
    + intros sh1. simpl. rewrite lookup_alter_eq, Hi. by intros [= <-].
    + simpl. rewrite lookup_alter_eq, Hi. done.
  - simpl. intros Hs' _. apply (Hgo s); auto; by rewrite Hi; intros; simplify_eq.
Qed.

Lemma insert_best D M s i sh s' :
  wf D M s → best_head M s → i ∉ M → i ≠ _idle s → shares s !! i = Some sh →
  insert i s = Some s' → best_head (M ∪ {[i]}) s'.
Proof.
  intros Hw Hb HM Hid Hi. unfold insert. rewrite Hi. simpl.
  destruct (_ready sh) eqn:Hr; [done|].
  assert (_head s ≠ Some i) as Hh.
  { intros Hh. destruct Hw as [[_ _ _ _ _ Hhd _] _]. destruct (Hhd i Hh) as [?|[? _]]; done. }
  assert (∀ ucl f, (∀ sh, _ready (f sh) = _ready sh) →
    best_head (M ∪ {[i]}) (with_ucl ucl (update_share i f s))) as Hgo.
  { intros ucl f Hf. apply (best_head_ucl M); auto.
    - intros j Hj. set_unfold. tauto.
    - rewrite Hi. by intros ? [= <-]. }
  destruct (_ =? 0).
  - intros [= <-]. specialize (Hgo (_ucl s) (λ sh, sh)). rewrite update_share_id in Hgo.
    assert (with_ucl (_ucl s) s = s) as E by by destruct s. rewrite E in Hgo. auto.
  - unfold on_ucl. destruct (abs_step _ _) as [l|]; intros [= <-]. by apply Hgo.
Qed.

(** The operations by which shares change what the best choice is. *)
Definition rearranges (o : sop) : bool :=
  match o with SReady _ | SUnready _ | SInsert _ | SRemove _ => true | _ => false end.

Lemma rearrange_best D M s o s' :
  wf D M s → head_claim_ok s → best_head M s → sop_ok M s o → rearranges o = true →
  run_sop o s = Some s' → _need_to_schedule s' = false → best_head (members o M) s'.
Proof.
  intros Hw Hhc Hb Hok Ho Hrun Hneed. destruct o as [| | |i|i|i|i| | |]; simpl in *; try done.
  - destruct Hok as [HM Hr]. destruct (shares s !! i) as [sh|] eqn:Hi; simplify_eq/=.
    rewrite (ready_shape D M s i sh) in Hrun by done. simplify_eq. by eapply ready_post_best.
  - destruct Hok as [HM Hr]. destruct (shares s !! i) as [sh|] eqn:Hi; simplify_eq/=.
    rewrite (unready_shape D M s i sh) in Hrun by done. simplify_eq. by eapply unready_post_best.
  - destruct Hok as (HM & Hid & [sh Hi]). by eapply insert_best.
  - pose proof Hw as [[_ Hmem] _]. destruct (Hmem i Hok) as [sh Hi]. by eapply remove_best.
Qed.

(** ** Executable runs *)

(** The obligations of the kernel as a check, and runs that perform it. *)
Definition sop_okb (M : gset id) (s : t) (o : sop) : bool :=
  match o with
  | SUpdate _ | STimeout | SYield | SHead => true
  | SReady i => bool_decide (i ∈ M) && bool_decide (_ready <$> shares s !! i = Some false)
  | SUnready i => bool_decide (i ∈ M) && bool_decide (_ready <$> shares s !! i = Some true)
  | SInsert i => bool_decide (i ∉ M) && bool_decide (i ≠ _idle s) && bool_decide (is_Some (shares s !! i))
  | SRemove i => bool_decide (i ∈ M)
  | SQuota i q => bool_decide (i ∈ M) && (0 <=? q)
  | SShare_quota i q => bool_decide (i ∉ M) && bool_decide (i ≠ _idle s) &&
      bool_decide (is_Some (shares s !! i)) && (0 <=? q)
  end.

Definition no_stale_callb (s : t) (o : sop) : bool :=
  match o with
  | SQuota i q =>
      match shares s !! i with
      | Some sh => negb (s_quota sh =? 0) || (q =? 0) || (_claim sh =? 0)
      | None => true
      end
  | _ => true
  end.

Lemma sop_okb_sound M s o : sop_okb M s o = true → sop_ok M s o.
Proof.
  destruct o as [| | |i|i|i|i|i q|i q|]; simpl;
    rewrite ?andb_true_iff, ?bool_decide_eq_true, ?Z.leb_le; tauto.
Qed.

Lemma no_stale_callb_sound s o : no_stale_callb s o = true → no_stale_call s o.
Proof.
  destruct o as [| | |i|i|i|i|i q|i q|]; simpl; try done. intros Hq sh Hi. rewrite Hi in Hq.
  unfold no_stale_claim. zcases; try done; simpl in Hq; lia.
Qed.

Fixpoint exec (c : t → sop → bool) (os : list sop) (M : gset id) (s : t) : option (gset id * t) :=
  match os with
  | [] => Some (M, s)
  | o :: os => if sop_okb M s o && c s o then s' ← run_sop o s; exec c os (members o M) s' else None
  end.

(** Runs that perform no check. *)
Fixpoint run_sops (os : list sop) (s : t) : option t :=
  match os with [] => Some s | o :: os => s ← run_sop o s; run_sops os s end.

#[export] Instance sop_eq_dec : EqDecision sop.
Proof. solve_decision. Defined.

Lemma exec_reach (C : t → sop → Prop) c m idle q f os M s M' s' :
  (∀ s o, c s o = true → C s o) →
  reach C m idle q f M s → exec c os M s = Some (M', s') → reach C m idle q f M' s'.
Proof.
  intros HC. revert M s. induction os as [|o os IH]; intros M s Hr; simpl; [by intros [= <- <-]|].
  destruct (sop_okb M s o) eqn:Hok; [|done]. destruct (c s o) eqn:Hst; [|done].
  destruct (run_sop o s) as [s1|] eqn:Hs1; [|done]. simpl. apply IH.
  eapply reach_step; [done|by apply sop_okb_sound|by apply HC|done].
Qed.

(** A scheduler with an idle share 0, a share 1 of middle priority with a quota, a
    share 2 without one and a share 3 of the highest priority. *)
Definition demo_shares : gmap id share :=
  list_to_map [(0%nat, Cpu_share 0 0); (1%nat, Cpu_share 1 40);
               (2%nat, Cpu_share 0 0); (3%nat, Cpu_share 9 20)].

Definition demo_init : t := Cpu_scheduler demo_shares 0%nat 100 30.

Lemma demo_fresh : fresh demo_shares 0%nat 100 30.
Proof.
  split_and!; [lia|lia|by eexists|].
  cut (map_Forall (λ _ sh, share_ok sh ∧ _ready sh = false) demo_shares); [done|].
  repeat apply map_Forall_insert_2; try apply map_Forall_empty;
    (split; [unfold share_ok, Prio_max, Cpu_share, Cpu_priority, Prio_max, cpu_priorities; simpl; lia|done]).
Qed.

(** Shares 1 to 3 enter; 1 and 2 wake up; 1 is scheduled and consumes a part. *)
Definition demo_prefix : list sop :=
  [SInsert 1; SInsert 2; SInsert 3; SReady 2; SUpdate 0; SReady 1; SUpdate 10; SUpdate 25]%nat.

Definition demo_state : gset id * t :=
  default (∅, demo_init) (exec no_stale_callb demo_prefix ∅ demo_init).

Lemma demo_reach (C : t → sop → Prop) :
  (∀ s o, no_stale_call s o → C s o) →
  reach C demo_shares 0%nat 100 30 demo_state.1 demo_state.2.
Proof.
  intros HC. eapply (exec_reach _ no_stale_callb _ _ _ _ demo_prefix); [|apply reach_init|].
  { intros s o Hs. by apply HC, no_stale_callb_sound. }
  vm_compute. reflexivity.
Qed.

(** ** The scheduler's promises *)

(** C1: in every reachable state, an operation that the kernel may call runs to its
    end: no [assert] fails, no list contract is broken and no null head is
    dereferenced; and the lists again hold exactly the shares their fields
    announce (ready shares among the fills, ready and unready quota owners in the
    claim list of their priority, each once), with a residual in (0, quota].  The
    histories contain changes of quotas without any restriction. *)
Theorem scheduler_safe m idle q f M s o :
  fresh m idle q f → reach any_call m idle q f M s → sop_ok M s o →
  ∃ s', run_sop o s = Some s' ∧ lists_ok (members o M) s' ∧ 0 < _residual s' ≤ _quota s'.
Proof.
  intros Hf Hr Hok. destruct (reach_wf _ _ _ _ _ _ _ Hf Hr) as [Hw Hhc].
  destruct (sop_step _ M s o Hw Hhc Hok) as (s' & ? & [[] _] & _); [|naive_solver].
  intros HD. by apply HD.
Qed.

(** In this history share 1 gives its quota up, and gets a new one while it still
    holds the claim of the old one; then it leaves. *)
Definition demo_quota_run : list sop :=
  [SQuota 1 0; SQuota 1 10; SUpdate 30]%nat.

Definition demo_quota_state : t :=
  (default demo_state (exec (λ _ _, true) demo_quota_run demo_state.1 demo_state.2)).2.

Lemma demo_quota_reach : reach any_call demo_shares 0%nat 100 30 demo_state.1 demo_quota_state.
Proof.
  eapply (exec_reach _ (λ _ _, true) _ _ _ _ demo_quota_run); [done|by apply demo_reach|].
  vm_compute. reflexivity.
Qed.

Lemma scheduler_safe_witness :
  ∃ s', run_sop (SRemove 1%nat) demo_quota_state = Some s' ∧
    lists_ok (members (SRemove 1%nat) demo_state.1) s' ∧ 0 < _residual s' ≤ _quota s'.
Proof.
  apply (scheduler_safe demo_shares 0%nat 100 30 demo_state.1 demo_quota_state (SRemove 1%nat)).
  - exact demo_fresh.
  - exact demo_quota_reach.
  - apply sop_okb_sound. vm_compute. reflexivity.
Defined.

(** C2: after any history in which no inserted share gets a quota while it holds
    an unspent claim of an earlier quota, [update] makes the choice the discipline
    asks for: a ready share with unconsumed claim of the highest priority that has
    one, scheduled for the rest of its claim; else the first of the ready fills
    with its time slice; else the idle share.  ([stale_claim_missed] below shows
    that the condition on the quotas cannot be left out.) *)
Theorem update_chooses_best m idle q f M s time :
  fresh m idle q f → reach no_stale_call m idle q f M s →
  ∃ s', update time s = Some s' ∧ best_head M s' ∧ _need_to_schedule s' = false.
Proof.
  intros Hf Hr. destruct (reach_wf _ _ _ _ _ _ _ Hf Hr) as [Hw Hhc].
  destruct (update_spec _ M s time Hw Hhc) as (s' & ? & _ & _ & ? & ? & _). eauto.
Qed.

Lemma update_chooses_best_witness :
  ∃ s', update 30 demo_state.2 = Some s' ∧ best_head demo_state.1 s' ∧
    _need_to_schedule s' = false.
Proof.
  exact (update_chooses_best demo_shares 0%nat 100 30 demo_state.1 demo_state.2 30
           demo_fresh (demo_reach no_stale_call (λ _ _ H, H))).
Defined.

(** C3: no change goes unnoticed, whatever quotas were changed before.  When the
    head is the best choice, a share may wake up, block, enter or leave: unless the
    scheduler asks for a new schedule, the head it has is the best choice still. *)
Theorem no_missed_schedule m idle q f M s o s' :
  fresh m idle q f → reach any_call m idle q f M s → best_head M s →
  sop_ok M s o → rearranges o = true → run_sop o s = Some s' →
  _need_to_schedule s' = true ∨ best_head (members o M) s'.
Proof.
  intros Hf Hr Hb Hok Ho Hrun. destruct (reach_wf _ _ _ _ _ _ _ Hf Hr) as [Hw Hhc].
  destruct (_need_to_schedule s') eqn:Hn; [by left|right]. by eapply rearrange_best.
Qed.

(** The first component of a run's result. *)
Definition demo_updated : t := default demo_init (update 30 demo_state.2).
Definition demo_after (o : sop) : t := default demo_init (run_sop o demo_updated).

Lemma no_missed_schedule_witness :
  let o := SReady 3%nat in
  _need_to_schedule (demo_after o) = true ∨ best_head (members o demo_state.1) (demo_after o).
Proof.
  apply (no_missed_schedule demo_shares 0%nat 100 30 demo_state.1 demo_updated).
  - exact demo_fresh.
  - eapply (exec_reach _ (λ _ _, true) _ _ _ _ [SUpdate 30]); [done|by apply demo_reach|]. vm_compute. reflexivity.
  - destruct (reach_wf _ _ _ _ _ _ _ demo_fresh (demo_reach no_stale_call (λ _ _ H, H))) as [Hw Hhc].
    destruct (update_spec _ _ _ 30 Hw Hhc) as (s' & Hs' & _ & _ & Hb & _).
    unfold demo_updated. rewrite Hs'. by apply Hb.
  - apply sop_okb_sound. vm_compute. reflexivity.
  - reflexivity.
  - vm_compute. reflexivity.
Defined.

(** ** A share that loses its quota keeps its claim

    [quota] clears neither the claim of a share that gives its quota up, nor does
    it set one when a quota is introduced, so an old claim comes back to life. *)

Definition stale_shares : gmap id share :=
  list_to_map [(0%nat, Cpu_share 0 0); (1%nat, Cpu_share 1 100); (2%nat, Cpu_share 2 50)].

Definition stale_run : list sop :=
  [SInsert 1; SInsert 2; SReady 1; SReady 2; SUpdate 0; SQuota 1 0; SQuota 1 10; SUnready 2;
   SUpdate 1]%nat.

(** a share whose quota was lowered from 100 to 0 and raised to 10 is scheduled
    with a claim of 100: more than its quota, and more than lowering the quota to
    10 at once allows. *)
Theorem stale_claim :
  (s ← run_sops stale_run (Cpu_scheduler stale_shares 0%nat 200 30);
   Some (_head s, head_quota s, s_quota <$> shares s !! 1%nat)) = Some (Some 1%nat, 100, Some 10) ∧
  (s ← run_sops (filter (λ o, o ≠ SQuota 1%nat 0) stale_run) (Cpu_scheduler stale_shares 0%nat 200 30);
   Some (_head s, head_quota s, s_quota <$> shares s !! 1%nat)) = Some (Some 1%nat, 10, Some 10).
Proof. split; vm_compute; reflexivity. Qed.

Definition missed_run : list sop :=
  [SInsert 1; SInsert 2; SReady 2; SQuota 2 0; SReady 1; SUpdate 0; SUpdate 100; SQuota 2 50;
   SUpdate 101]%nat.

(** and the claim that comes back to life is entered behind depleted ones, where
    [update] does not see it: share 2 is ready and holds a claim, but no claim is
    scheduled. *)
Theorem stale_claim_missed :
  (s ← run_sops missed_run
         (Cpu_scheduler (list_to_map [(0%nat, Cpu_share 0 0); (1%nat, Cpu_share 1 100);
                                      (2%nat, Cpu_share 1 100)]) 0%nat 300 30);
   Some (_head_claims s, _rcl s 1, shares s !! 1%nat, shares s !! 2%nat)) =
  Some (false, [1%nat; 2%nat], Some (Share 1 100 0 29 true), Some (Share 1 50 100 30 true)).
Proof. vm_compute. reflexivity. Qed.
