(* ===== verification/Bit_array.v ===== *)
(** * Bit_array: bitmaps with range checks

    Model of [src/repos/base/include/util/bit_array.h].  The backing store is the
    list of its 64-bit words.  [_set] and [get] walk over the words a range touches;
    the exceptions are the errors of the [exc] monad, whose state is the array the
    handler of the exception would find.  [Wild_access] stands for an access
    outside of the backing store and [Out_of_fuel] for a loop that does not end;
    the theorems exclude both. *)

From S2P Require Import Prelude.

Open Scope Z_scope.
Open Scope word_scope.

Inductive error :=
  | Invalid_bit_count | Invalid_index_access | Invalid_clear | Invalid_set
  | Wild_access | Out_of_fuel.

#[export] Instance error_eq_dec : EqDecision error.
Proof. solve_decision. Defined.

Definition BITS_PER_WORD : Z := 64.

Record t := Mk { _bit_cnt : Z; _words : list Z }.

Definition _word_cnt (a : t) : Z := _bit_cnt a / BITS_PER_WORD.

Definition _word (index : Z) : Z := index / BITS_PER_WORD.

Definition _check_range (index width : Z) (a : t) : bool :=
  negb ((_word_cnt a * BITS_PER_WORD <=? index) ||
        (_word_cnt a * BITS_PER_WORD <? width) ||
        (_word_cnt a * BITS_PER_WORD -64 width <? index)).

(** The mask of the part of a range in its first word, and the number of bits that
    are left over for the following words. *)
Definition _mask (index width : Z) : Z * Z :=
  let shift := index -64 _word index * BITS_PER_WORD in
  let rest := if BITS_PER_WORD <? width +64 shift
              then (width +64 shift) -64 BITS_PER_WORD else 0 in
  (if BITS_PER_WORD <=? width then u64 (Z.shiftl (~64 0) shift)
   else u64 (Z.shiftl (Z.shiftl 1 width -64 1) shift), rest).

Definition read (word : Z) : exc t error Z := fun a =>
  match _words a !! Z.to_nat word with
  | Some w => (Ok w, a)
  | None => (Err Wild_access, a)
  end.

Definition write (word v : Z) : exc t error unit := fun a =>
  (Ok tt, Mk (_bit_cnt a) (<[Z.to_nat word := v]> (_words a))).

Fixpoint set_loop (fuel : nat) (index width : Z) (free : bool) : exc t error unit :=
  match fuel with
  | O => throw Out_of_fuel
  | S fuel =>
      let word := _word index in
      let (mask, rest) := _mask index width in
      w ← read word;
      _ ← (if free then
             if negb (Z.land w mask =? mask) then throw Invalid_clear
             else write word (Z.land w (~64 mask))
           else
             if negb (Z.land w mask =? 0) then throw Invalid_set
             else write word (Z.lor w mask));
      if negb (rest =? 0)
      then set_loop fuel ((_word index +64 1) *64 BITS_PER_WORD) rest free
      else mret tt
  end.

Fixpoint get_loop (fuel : nat) (index width : Z) : exc t error bool :=
  match fuel with
  | O => throw Out_of_fuel
  | S fuel =>
      let (mask, rest) := _mask index width in
      w ← read (_word index);
      let used := negb (Z.land w mask =? 0) in
      if negb used && negb (rest =? 0)
      then get_loop fuel ((_word index +64 1) *64 BITS_PER_WORD) rest
      else mret used
  end.

(** Enough iterations for every word of the range. *)
Definition fuel_of (width : Z) : nat := S (S (Z.to_nat (width / BITS_PER_WORD))).

Definition _set (index width : Z) (free : bool) : exc t error unit := fun a =>
  if negb (_check_range index width a) then (Err Invalid_index_access, a)
  else set_loop (fuel_of width) index width free a.

Definition get (index width : Z) : exc t error bool := fun a =>
  if negb (_check_range index width a) then (Err Invalid_index_access, a)
  else get_loop (fuel_of width) index width a.

Definition set (index width : Z) : exc t error unit := _set index width false.
Definition clear (index width : Z) : exc t error unit := _set index width true.

(** The constructor, on a zeroed backing store. *)
Definition Bit_array_base (bits : Z) (ptr : list Z) : result error t :=
  if (bits =? 0) || negb (bits mod BITS_PER_WORD =? 0) then Err Invalid_bit_count
  else Ok (Mk bits ptr).

Definition Bit_array (BITS : Z) : result error t :=
  Bit_array_base BITS (replicate (Z.to_nat (BITS / BITS_PER_WORD)) 0).

(** ** Abstraction: the set of used indices *)

Definition bit (a : t) (i : Z) : bool :=
  match _words a !! Z.to_nat (i / 64) with
  | Some w => Z.testbit w (i mod 64)
  | None => false
  end.

Record wf (a : t) : Prop := {
  wf_count : _bit_cnt a = 64 * Z.of_nat (length (_words a));
  wf_bits : 0 < _bit_cnt a < 2 ^ 32;
  wf_words : Forall is_u64 (_words a) }.

Definition within (a : t) (index width : Z) : Prop :=
  0 ≤ index < _bit_cnt a ∧ 0 ≤ width ∧ index + width ≤ _bit_cnt a.

Lemma word_cnt_bits a : wf a → _word_cnt a * BITS_PER_WORD = _bit_cnt a.
Proof.
  intros []. unfold _word_cnt, BITS_PER_WORD. rewrite wf_count0, (Z.mul_comm 64).
  by rewrite Z.div_mul by lia.
Qed.

Lemma check_range_spec a index width :
  wf a → is_u64 index → is_u64 width →
  _check_range index width a = true ↔ within a index width.
Proof.
  intros Hw Hi Hwd. unfold _check_range, within. rewrite word_cnt_bits by done.
  destruct Hw. rewrite negb_true_iff, !orb_false_iff.
  destruct (Z.ltb_spec (_bit_cnt a) width).
  - split; [intros [[_ ?] _]; done|word_lia].
  - rewrite wrap_small by word_lia. rewrite Z.leb_gt, Z.ltb_ge. word_lia.
Qed.

(** The mask selects exactly the bits of the range in its first word. *)
Lemma mask_spec index width :
  is_u64 index → 0 ≤ width < 2 ^ 32 →
  let (mask, rest) := _mask index width in
  rest = Z.max 0 (width + index mod 64 - 64) ∧ is_u64 mask ∧
  ∀ k, 0 ≤ k < 64 →
    Z.testbit mask k = (index mod 64 <=? k) && (k <? index mod 64 + width).
Proof.
  intros Hi Hw. unfold _mask, _word, BITS_PER_WORD.
  pose proof (Z.mod_pos_bound index 64). pose proof (Z.div_mod index 64).
  assert (u64 (index - index / 64 * 64) = index mod 64) as ->.
  { rewrite wrap_small by word_lia. lia. }
  rewrite (wrap_small 64 (width + _)) by word_lia.
  split_and!.
  - zcases; [rewrite wrap_small by word_lia|]; lia.
  - destruct (64 <=? width); by apply wrap_range.
  - intros k Hk. destruct (Z.leb_spec 64 width).
    + rewrite wrap_testbit, Z.shiftl_spec by lia.
      destruct (Z.leb_spec (index mod 64) k).
      * rewrite wrap_testbit, Z.lnot_spec, Z.bits_0 by lia. zcases; lia.
      * rewrite Z.testbit_neg_r by lia. zcases; lia.
    + rewrite wrap_testbit, Z.shiftl_spec, Z.shiftl_1_l by lia.
      assert (u64 (2 ^ width - 1) = Z.ones width) as ->.
      { rewrite Z.ones_equiv. apply wrap_small. pose proof (Z.pow_lt_mono_r 2 width 64). word_lia. }
      destruct (Z.leb_spec (index mod 64) k).
      * rewrite Z.testbit_ones by lia. zcases; lia.
      * rewrite Z.testbit_neg_r by lia. zcases; lia.
Qed.

Lemma land_zero_iff a b :
  Z.land a b = 0 ↔ ∀ k, 0 ≤ k → Z.testbit b k = true → Z.testbit a k = false.
Proof.
  split.
  - intros H k Hk Hb. pose proof (f_equal (λ z, Z.testbit z k) H) as E. simpl in E.
    rewrite Z.land_spec, Z.bits_0, Hb in E. by destruct (Z.testbit a k).
  - intros H. apply Z.bits_inj'. intros k Hk. rewrite Z.land_spec, Z.bits_0.
    destruct (Z.testbit b k) eqn:E; [by rewrite H|by rewrite andb_false_r].
Qed.

Lemma land_self_iff a b :
  Z.land a b = b ↔ ∀ k, 0 ≤ k → Z.testbit b k = true → Z.testbit a k = true.
Proof.
  split.
  - intros H k Hk Hb. pose proof (f_equal (λ z, Z.testbit z k) H) as E. simpl in E.
    rewrite Z.land_spec, Hb in E. by destruct (Z.testbit a k).
  - intros H. apply Z.bits_inj'. intros k Hk. rewrite Z.land_spec.
    destruct (Z.testbit b k) eqn:E; [by rewrite H|by rewrite andb_false_r].
Qed.

Lemma wf_lookup a word w : wf a → _words a !! word = Some w → is_u64 w.
Proof. intros [_ _ Hf] Hw. by eapply Forall_lookup_1 in Hf. Qed.

Lemma wf_word a index :
  wf a → 0 ≤ index < _bit_cnt a → ∃ w, _words a !! Z.to_nat (index / 64) = Some w.
Proof.
  intros [Hc _ _] Hi. apply lookup_lt_is_Some_2.
  assert (index / 64 < Z.of_nat (length (_words a))) by (apply Z.div_lt_upper_bound; lia).
  pose proof (Z.div_pos index 64). lia.
Qed.

Definition write_word (word v : Z) (a : t) : t :=
  Mk (_bit_cnt a) (<[Z.to_nat word := v]> (_words a)).

Lemma write_wf word v a : wf a → is_u64 v → wf (write_word word v a).
Proof.
  intros [] Hv. constructor; simpl; rewrite ?length_insert; try done. by apply Forall_insert.
Qed.

Lemma write_bit index v a j :
  wf a → 0 ≤ index < _bit_cnt a → 0 ≤ j →
  bit (write_word (index / 64) v a) j =
    if decide (j / 64 = index / 64) then Z.testbit v (j mod 64) else bit a j.
Proof.
  intros Hw Hi Hj. unfold bit; simpl. destruct (wf_word a index Hw Hi) as [w Hlk].
  pose proof (Z.div_pos index 64). pose proof (Z.div_pos j 64).
  case_decide as E.
  - rewrite E, list_lookup_insert_eq; [done|]. by eapply lookup_lt_Some.
  - rewrite list_lookup_insert_ne; [done|]. lia.
Qed.

(** The indices of the first word that belong to a range. *)
Lemma first_word index width j :
  0 ≤ index → 0 ≤ j →
  (j / 64 = index / 64 ∧ index mod 64 ≤ j mod 64 < index mod 64 + width) ↔
  index ≤ j < index + width ∧ j < (index / 64 + 1) * 64.
Proof.
  intros Hi Hj. pose proof (Z.div_mod index 64). pose proof (Z.div_mod j 64).
  pose proof (Z.mod_pos_bound index 64). pose proof (Z.mod_pos_bound j 64).
  split; [lia|]. intros [? ?]. assert (j / 64 = index / 64); [|lia].
  assert (64 * (j / 64) < 64 * (index / 64 + 1) ∧ 64 * (index / 64) < 64 * (j / 64 + 1)) by lia. lia.
Qed.

(** One iteration: what the mask of [index] and [width] says about the word read. *)
Section Step.
Context (a : t) (index width : Z) (w : Z).
Context (Hwf : wf a) (Hin : within a index width).
Context (Hread : _words a !! Z.to_nat (index / 64) = Some w).

Definition seg (j : Z) : Prop := index ≤ j < index + width ∧ j < (index / 64 + 1) * 64.

Lemma mask_facts :
  let (mask, rest) := _mask index width in
  rest = Z.max 0 (index + width - (index / 64 + 1) * 64) ∧ is_u64 mask ∧
  (∀ k, 0 ≤ k → Z.testbit mask k = true ↔ k < 64 ∧ seg (index / 64 * 64 + k)).
Proof.
  destruct Hin as (? & ? & ?), Hwf as [? ? _].
  pose proof (mask_spec index width) as Hm. destruct (_mask index width) as [mask rest].
  destruct Hm as (Hr & Hu & Hb); [word_lia|lia|].
  pose proof (Z.div_mod index 64). split_and!; [lia|done|].
  intros k Hk. destruct (decide (k < 64)) as [Hk'|Hk'].
  - rewrite Hb, andb_true_iff, Z.leb_le, Z.ltb_lt by lia. unfold seg. lia.
  - rewrite (in_range_testbit 64) by (done || lia). split; [done|lia].
Qed.

Lemma bit_word j : 0 ≤ j → j / 64 = index / 64 → bit a j = Z.testbit w (j mod 64).
Proof. intros Hj E. unfold bit. by rewrite E, Hread. Qed.

Lemma seg_word j : seg j → 0 ≤ j ∧ j / 64 = index / 64.
Proof.
  intros [? ?]. destruct Hin as (? & ? & ?). split; [lia|].
  apply (first_word index width j); [lia..|done].
Qed.

(** A property of the masked bits of the word is one of the segment. *)
Lemma masked_iff mask (v : bool) :
  (∀ k, 0 ≤ k → Z.testbit mask k = true ↔ k < 64 ∧ seg (index / 64 * 64 + k)) →
  (∀ k, 0 ≤ k → Z.testbit mask k = true → Z.testbit w k = v) ↔ (∀ j, seg j → bit a j = v).
Proof.
  intros Hm. split.
  - intros H j Hj. destruct (seg_word j Hj) as [Hj0 E]. rewrite bit_word by done.
    pose proof (Z.mod_pos_bound j 64). pose proof (Z.div_mod j 64).
    apply H; [lia|]. apply Hm; [lia|]. split; [lia|]. by rewrite <- E, Z.mul_comm, <- Z.div_mod by lia.
  - intros H k Hk Hb. apply Hm in Hb as [Hk' Hs]; [|done]. rewrite <- (H _ Hs), bit_word; [|by apply seg_word..].
    f_equal. rewrite Z.add_comm, Z.mod_add, Z.mod_small by lia. done.
Qed.
End Step.

Definition all_bits (a : t) (index width : Z) (v : bool) : Prop :=
  ∀ j, index ≤ j < index + width → bit a j = v.

Lemma wrap_index index a : wf a → 0 ≤ index < _bit_cnt a →
  (_word index +64 1) *64 BITS_PER_WORD = (index / 64 + 1) * 64.
Proof.
  intros [] Hi. unfold _word, BITS_PER_WORD. pose proof (Z.div_mod index 64).
  pose proof (Z.mod_pos_bound index 64).
  rewrite (wrap_small 64 (_ + _)) by word_lia. apply wrap_small. word_lia.
Qed.

Lemma read_word a index : wf a → 0 ≤ index < _bit_cnt a →
  ∃ w, _words a !! Z.to_nat (index / 64) = Some w ∧ read (_word index) a = (Ok w, a) ∧ is_u64 w.
Proof.
  intros Hw Hi. destruct (wf_word a index Hw Hi) as [w Hlk]. exists w.
  split_and!; [done| |by eapply wf_lookup]. unfold read, _word, BITS_PER_WORD. by rewrite Hlk.
Qed.

(** The rest of a range after its first word. *)
Lemma rest_within a index width rest :
  wf a → within a index width → rest = Z.max 0 (index + width - (index / 64 + 1) * 64) →
  rest ≠ 0 → within a ((index / 64 + 1) * 64) rest.
Proof.
  intros [] (? & ? & ?) -> Hr. pose proof (Z.div_mod index 64).
  pose proof (Z.mod_pos_bound index 64). unfold within. lia.
Qed.

Lemma rest_fuel index width rest fuel :
  0 ≤ index → width + index mod 64 ≤ 64 * Z.of_nat (S fuel) →
  rest = Z.max 0 (index + width - (index / 64 + 1) * 64) → rest ≠ 0 →
  rest + ((index / 64 + 1) * 64) mod 64 ≤ 64 * Z.of_nat fuel ∧ (0 < fuel)%nat.
Proof.
  intros Hi Hf -> Hr. rewrite Z.mod_mul by lia. pose proof (Z.div_mod index 64).
  pose proof (Z.mod_pos_bound index 64). lia.
Qed.

Lemma fuel_enough index width :
  0 ≤ width → width + index mod 64 ≤ 64 * Z.of_nat (fuel_of width) ∧ (0 < fuel_of width)%nat.
Proof.
  intros Hw. unfold fuel_of, BITS_PER_WORD. pose proof (Z.mod_pos_bound index 64).
  pose proof (Z.div_mod width 64). pose proof (Z.mod_pos_bound width 64).
  pose proof (Z.div_pos width 64). lia.
Qed.

(** A range splits into the segment of its first word and the rest. *)
Lemma range_split index width rest j :
  rest = Z.max 0 (index + width - (index / 64 + 1) * 64) →
  index ≤ j < index + width ↔
  seg index width j ∨ (index / 64 + 1) * 64 ≤ j < (index / 64 + 1) * 64 + rest.
Proof.
  intros ->. unfold seg. pose proof (Z.div_mod index 64). pose proof (Z.mod_pos_bound index 64). lia.
Qed.

Lemma get_loop_spec fuel a index width :
  wf a → within a index width → width + index mod 64 ≤ 64 * Z.of_nat fuel → (0 < fuel)%nat →
  ∃ b, get_loop fuel index width a = (Ok b, a) ∧ (b = false ↔ all_bits a index width false).
Proof.
  intros Hw. revert index width. induction fuel as [|fuel IH]; intros index width Hin Hf Hf0; [lia|].
  cbn [get_loop]. pose proof Hin as (? & ? & ?).
  destruct (read_word a index) as (w & Hlk & Hrd & _); [done..|].
  pose proof (mask_facts a index width Hw Hin) as Hm.
  destruct (_mask index width) as [mask rest]. destruct Hm as (Hrest & Hu & Hb).
  unfold mbind, exc_bind. rewrite Hrd.
  pose proof (masked_iff a index width w Hin Hlk mask false Hb) as Hmask.
  rewrite <- land_zero_iff in Hmask.
  destruct (Z.eqb_spec (Z.land w mask) 0) as [Hz|Hz]; simpl; cycle 1.
  { exists true. split; [done|]. split; [by intros [=]|]. intros Ha. destruct Hz. apply Hmask.
    intros j Hj. apply Ha, (range_split _ _ _ _ Hrest). by left. }
  destruct (Z.eqb_spec rest 0) as [Hr0|Hr0]; simpl.
  - exists false. split; [done|]. split; [intros _ j Hj|done]. apply Hmask; [done|].
    apply (range_split _ _ _ _ Hrest) in Hj as [Hj|Hj]; [done|lia].
  - rewrite (wrap_index index a) by done.
    destruct (rest_fuel index width rest fuel) as [? ?]; [lia|done..|].
    destruct (IH ((index / 64 + 1) * 64) rest) as (b & -> & Hb'); [by apply (rest_within a index width)|done..|].
    exists b. split; [done|]. rewrite Hb'. unfold all_bits. split; intros Ha j Hj.
    + apply (range_split _ _ _ _ Hrest) in Hj as [Hj|Hj]; [|auto]. by apply Hmask.
    + apply Ha, (range_split _ _ _ _ Hrest). by right.
Qed.

(** The word [set_loop] writes has the masked bits flipped. *)
Definition flip_word (free : bool) (w mask : Z) : Z :=
  if free then Z.land w (~64 mask) else Z.lor w mask.

Lemma flip_word_range free w mask : is_u64 w → is_u64 mask → is_u64 (flip_word free w mask).
Proof.
  intros. unfold flip_word. destruct free; [|by apply in_range_lor].
  apply in_range_land_l; [|done]. apply wrap_range. lia.
Qed.

Lemma flip_word_bit free w mask k :
  is_u64 mask → 0 ≤ k < 64 →
  Z.testbit (flip_word free w mask) k = if Z.testbit mask k then negb free else Z.testbit w k.
Proof.
  intros Hm Hk. unfold flip_word. destruct free.
  - rewrite Z.land_spec, wrap_testbit, Z.lnot_spec by lia.
    destruct (Z.ltb_spec k 64); [|lia]. destruct (Z.testbit mask k), (Z.testbit w k); done.
  - rewrite Z.lor_spec. destruct (Z.testbit mask k), (Z.testbit w k); done.
Qed.

Lemma flip_spec a index width w mask free j :
  wf a → within a index width → _words a !! Z.to_nat (index / 64) = Some w → is_u64 mask →
  (∀ k, 0 ≤ k → Z.testbit mask k = true ↔ k < 64 ∧ seg index width (index / 64 * 64 + k)) →
  0 ≤ j →
  (seg index width j → bit (write_word (index / 64) (flip_word free w mask) a) j = negb free) ∧
  (¬ seg index width j → bit (write_word (index / 64) (flip_word free w mask) a) j = bit a j).
Proof.
  intros Hw Hin Hlk Hu Hb Hj. pose proof Hin as (? & ? & ?).
  rewrite write_bit by done. pose proof (Z.mod_pos_bound j 64). pose proof (Z.div_mod j 64).
  assert (j / 64 = index / 64 → index / 64 * 64 + j mod 64 = j) as Ej by lia.
  split; intros Hs.
  - destruct (seg_word a index width Hin j Hs) as [_ E]. rewrite decide_True by done.
    rewrite flip_word_bit by (done || lia). assert (Z.testbit mask (j mod 64) = true) as ->; [|done].
    apply Hb; [lia|]. rewrite Ej by done. split; [lia|done].
  - case_decide as E; [|done]. rewrite flip_word_bit by (done || lia).
    rewrite (bit_word a index w) by done.
    destruct (Z.testbit mask (j mod 64)) eqn:Em; [|done]. destruct Hs.
    apply Hb in Em as [_ Hs]; [|lia]. by rewrite Ej in Hs.
Qed.

(** What [_set] does to the bits: on success the whole range flips, on failure the
    exception reports that it was not uniform; bits outside never change. *)
Definition set_result (a : t) (index width : Z) (free : bool) (r : result error unit) (a' : t) : Prop :=
  wf a' ∧ _bit_cnt a' = _bit_cnt a ∧
  (∀ j, 0 ≤ j → ¬ index ≤ j < index + width → bit a' j = bit a j) ∧
  match r with
  | Ok _ => all_bits a index width free ∧ all_bits a' index width (negb free)
  | Err e => e = (if free then Invalid_clear else Invalid_set) ∧ ¬ all_bits a index width free
  end.

(** The check of one word, for both directions. *)
Definition uniform (free : bool) (w mask : Z) : bool :=
  if free then Z.land w mask =? mask else Z.land w mask =? 0.

Lemma uniform_iff free w mask :
  uniform free w mask = true ↔ (∀ k, 0 ≤ k → Z.testbit mask k = true → Z.testbit w k = free).
Proof.
  unfold uniform. destruct free; rewrite Z.eqb_eq; [apply land_self_iff|apply land_zero_iff].
Qed.

Lemma set_step fuel a index width free w mask rest :
  _mask index width = (mask, rest) → read (_word index) a = (Ok w, a) →
  set_loop (S fuel) index width free a =
    if uniform free w mask then
      (if negb (rest =? 0)
       then set_loop fuel ((_word index +64 1) *64 BITS_PER_WORD) rest free
       else mret tt) (write_word (_word index) (flip_word free w mask) a)
    else (Err (if free then Invalid_clear else Invalid_set), a).
Proof.
  intros Hm Hr. cbn [set_loop]. rewrite Hm. unfold mbind, exc_bind. rewrite Hr.
  unfold uniform, flip_word. destruct free; by destruct (_ =? _).
Qed.

Lemma set_loop_spec fuel a index width free :
  wf a → within a index width → width + index mod 64 ≤ 64 * Z.of_nat fuel → (0 < fuel)%nat →
  let (r, a') := set_loop fuel index width free a in set_result a index width free r a'.
Proof.
  revert a index width. induction fuel as [|fuel IH]; intros a index width Hw Hin Hf Hf0; [lia|].
  pose proof Hin as (? & ? & ?).
  destruct (read_word a index) as (w & Hlk & Hrd & Hwr); [done..|].
  pose proof (mask_facts a index width Hw Hin) as Hm.
  destruct (_mask index width) as [mask rest] eqn:Emask. destruct Hm as (Hrest & Hu & Hb).
  rewrite (set_step _ _ _ _ _ w mask rest) by done.
  pose proof (masked_iff a index width w Hin Hlk mask free Hb) as Hmask.
  rewrite <- uniform_iff in Hmask.
  destruct (uniform free w mask); cycle 1.
  { split_and!; try done. intros Ha. enough (false = true) by done. apply Hmask.
    intros j Hj. apply Ha, (range_split _ _ _ _ Hrest). by left. }
  unfold _word, BITS_PER_WORD.
  set (a1 := write_word (index / 64) (flip_word free w mask) a).
  assert (wf a1) as Hw1 by (apply write_wf; [done|by apply flip_word_range]).
  assert (∀ j, 0 ≤ j → (seg index width j → bit a1 j = negb free) ∧
    (¬ seg index width j → bit a1 j = bit a j)) as Hflip.
  { intros j Hj. by apply flip_spec. }
  assert (∀ j, index ≤ j < index + width → seg index width j → bit a j = free) as Hseg.
  { intros j _ Hj. by apply Hmask. }
  destruct (Z.eqb_spec rest 0) as [Hr0|Hr0]; simpl.
  - assert (∀ j, index ≤ j < index + width ↔ seg index width j) as Hrg.
    { intros j. rewrite (range_split _ _ _ _ Hrest). split; [intros [?|?]; [done|lia]|by left]. }
    split_and!; [done..| | |].
    + intros j Hj0 Hj. apply Hflip; [done|]. by rewrite <- Hrg.
    + intros j Hj. apply Hseg; [done|]. by apply Hrg.
    + intros j Hj. apply Hflip; [lia|]. by apply Hrg.
  - change ((index / 64 +64 1) *64 64) with ((_word index +64 1) *64 BITS_PER_WORD).
    rewrite (wrap_index index a) by done.
    destruct (rest_fuel index width rest fuel) as [? ?]; [lia|done..|].
    specialize (IH a1 ((index / 64 + 1) * 64) rest Hw1).
    destruct (set_loop _ _ _ _ a1) as [r a2]. destruct IH as (Hw2 & Hc2 & Hout & Hr);
      [by apply (rest_within a index width)|done..|].
    split_and!; [done..| |].
    + intros j Hj0 Hj. rewrite (range_split _ _ _ _ Hrest) in Hj.
      rewrite Hout by tauto. apply Hflip; tauto.
    + assert (∀ j, (index / 64 + 1) * 64 ≤ j → bit a1 j = bit a j) as Hsame.
      { intros j Hj. apply Hflip; [pose proof (Z.div_pos index 64); lia|]. intros [_ ?]. lia. }
      destruct r as [u|e].
      * destruct Hr as [Ha Ha']. split; intros j Hj; pose proof Hj as Hj';
          apply (range_split _ _ _ _ Hrest) in Hj' as [Hj'|Hj'].
        -- auto.
        -- rewrite <- Hsame by lia. auto.
        -- rewrite Hout by (destruct Hj'; lia). apply Hflip; [lia|done].
        -- auto.
      * destruct Hr as [-> Hr]. split; [done|]. intros Ha. apply Hr. intros j Hj.
        rewrite Hsame by lia. apply Ha, (range_split _ _ _ _ Hrest). by right.
Qed.

Lemma get_cases a index width :
  wf a → is_u64 index → is_u64 width →
  ∃ r, get index width a = (r, a) ∧
    match r with
    | Ok b => within a index width ∧ (b = false ↔ all_bits a index width false)
    | Err e => e = Invalid_index_access ∧ ¬ within a index width
    end.
Proof.
  intros Hw Hi Hwd. unfold get. pose proof (check_range_spec a index width Hw Hi Hwd) as Hc.
  destruct (_check_range index width a); cbn [negb].
  - assert (within a index width) as Hin by by apply Hc.
    destruct (fuel_enough index width) as [Hf Hf0]; [apply Hin|].
    destruct (get_loop_spec _ a index width Hw Hin Hf Hf0) as (b & -> & Hb). by eexists.
  - eexists. split; [done|]. split; [done|]. by rewrite <- Hc.
Qed.

Lemma set_cases a index width free :
  wf a → is_u64 index → is_u64 width →
  let (r, a') := _set index width free a in
  (r = Err Invalid_index_access ∧ a' = a ∧ ¬ within a index width) ∨
  (within a index width ∧ set_result a index width free r a').
Proof.
  intros Hw Hi Hwd. unfold _set. pose proof (check_range_spec a index width Hw Hi Hwd) as Hc.
  destruct (_check_range index width a); cbn [negb].
  - assert (within a index width) as Hin by by apply Hc.
    destruct (fuel_enough index width) as [Hf Hf0]; [apply Hin|].
    pose proof (set_loop_spec _ a index width free Hw Hin Hf Hf0) as Hs.
    destruct (set_loop _ _ _ _ a) as [r a']. by right.
  - left. split_and!; [done..|]. by rewrite <- Hc.
Qed.

(** A new array has a multiple of 64 bits, all clear. *)
Lemma bit_array_fresh BITS :
  0 < BITS < 2 ^ 32 → BITS mod 64 = 0 →
  ∃ a, Bit_array BITS = Ok a ∧ wf a ∧ _bit_cnt a = BITS ∧ ∀ j, bit a j = false.
Proof.
  intros HB Hm. unfold Bit_array, Bit_array_base, BITS_PER_WORD. rewrite Hm.
  destruct (Z.eqb_spec BITS 0) as [|_]; [lia|]. simpl. eexists. split; [done|].
  pose proof (Z.div_mod BITS 64). pose proof (Z.div_pos BITS 64).
  split_and!; [constructor; simpl|done|].
  - rewrite length_replicate, Z2Nat.id by lia. lia.
  - done.
  - apply Forall_replicate. word_lia.
  - intros j. unfold bit; simpl. destruct (replicate _ 0 !! _) as [w|] eqn:E; [|done].
    apply lookup_replicate in E as [-> _]. apply Z.bits_0.
Qed.

(** [get] answers for every index and width: outside of the array it throws
    [Invalid_index_access], inside it tells whether at least one bit of the range
    is set, over any number of words; the array is unchanged. *)
Theorem bit_array_get a index width :
  wf a → is_u64 index → is_u64 width →
  ∃ r, get index width a = (r, a) ∧
    match r with
    | Ok b => within a index width ∧ (b = false ↔ all_bits a index width false)
    | Err e => e = Invalid_index_access ∧ ¬ within a index width
    end.
Proof. apply get_cases. Qed.

Definition demo_array : t := Mk 192 [2 ^ 63; 5; 0].

Lemma demo_array_wf : wf demo_array.
Proof. constructor; [done|simpl; lia|]. repeat constructor; simpl; unfold in_range; lia. Qed.

Lemma bit_array_get_witness :
  ∃ r, get 60 70 demo_array = (r, demo_array) ∧
    match r with
    | Ok b => within demo_array 60 70 ∧ (b = false ↔ all_bits demo_array 60 70 false)
    | Err e => e = Invalid_index_access ∧ ¬ within demo_array 60 70
    end.
Proof. apply (bit_array_get demo_array 60 70 demo_array_wf); unfold in_range; lia. Defined.

(** [set] and [clear] on every branch.  A range that leaves the array is
    refused without effect; a range that is not uniformly clear (for [set]) or set
    (for [clear]) is refused with [Invalid_set] or [Invalid_clear], and no bit
    outside of it changes; otherwise exactly the bits of the range flip.  The loop
    over the words always ends. *)
Theorem bit_array_set a index width (free : bool) :
  wf a → is_u64 index → is_u64 width →
  let (r, a') := (if free then clear else set) index width a in
  wf a' ∧ _bit_cnt a' = _bit_cnt a ∧
  match r with
  | Ok _ => within a index width ∧ all_bits a index width free ∧
      ∀ j, 0 ≤ j → bit a' j = if bool_decide (index ≤ j < index + width) then negb free else bit a j
  | Err e =>
      (e = Invalid_index_access ∧ ¬ within a index width ∧ a' = a) ∨
      (e = (if free then Invalid_clear else Invalid_set) ∧ within a index width ∧
       ¬ all_bits a index width free ∧
       ∀ j, 0 ≤ j → ¬ index ≤ j < index + width → bit a' j = bit a j)
  end.
Proof.
  intros Hw Hi Hwd. pose proof (set_cases a index width free Hw Hi Hwd) as Hs.
  assert ((if free then clear else set : Z → Z → exc t error unit) index width a = _set index width free a) as -> by by destruct free.
  destruct (_set index width free a) as [r a'].
  destruct Hs as [(-> & -> & Hn)|(Hin & Hw' & Hc & Hout & Hr)]; [split_and!; [done..|]; by left; split_and!|].
  split_and!; [done..|]. destruct r as [u|e]; [|destruct Hr as [-> Hr]; by right].
  destruct Hr as [Ha Ha']. split_and!; [done..|]. intros j Hj. case_bool_decide; [by apply Ha'|by apply Hout].
Qed.

Lemma bit_array_set_witness :
  wf (set 66 100 demo_array).2 ∧ is_ok (set 66 100 demo_array).1 = false.
Proof.
  split; [|vm_compute; reflexivity].
  pose proof (bit_array_set demo_array 66 100 false demo_array_wf) as H.
  assert (is_u64 66 ∧ is_u64 100) as [H1 H2] by (unfold in_range; lia).
  specialize (H H1 H2). cbv iota in H. destruct (set 66 100 demo_array) as [r a']. apply H.
Defined.
