(* ===== verification/Bit_allocator.v ===== *)
(** * Bit_allocator: allocation of aligned power-of-two blocks of indices

    Model of [src/repos/base/include/util/bit_allocator.h] on top of [Bit_array].
    The exceptions of the array pass through as [Array].  [alloc] is the code's pair
    of loops: the scan, whose range violation is caught, and the wrap-around that
    repeats it below the old [_next]. *)

From S2P Require Import Prelude.
From S2P Require Bit_array.

Open Scope Z_scope.
Open Scope word_scope.

Import Bit_array (bit, within, all_bits).

Inductive error := Array (e : Bit_array.error) | Out_of_indices | Range_conflict.

Record t := Mk { _next : Z; _array : Bit_array.t }.

(** An operation of the array member. *)
Definition on_array {A} (m : exc Bit_array.t Bit_array.error A) : exc t error A := fun s =>
  match m (_array s) with
  | (Ok x, a) => (Ok x, Mk (_next s) a)
  | (Err e, a) => (Err (Array e), Mk (_next s) a)
  end.

Definition set_next (v : Z) : exc t error unit := modify (fun s => Mk v (_array s)).

Section Sized.
(** The template parameter. *)
Context (BITS : Z).

Definition BITS_ALIGNED : Z := Z.land (BITS +64 63) (~64 63).

Definition _reserve (bit_start num : Z) : exc t error unit :=
  if num =? 0 then mret tt else on_array (Bit_array.set bit_start num).

(** The constructor, and the copy constructor, which starts over at index 0. *)
Definition Bit_allocator : result error t :=
  match Bit_array.Bit_array BITS_ALIGNED with
  | Err e => Err (Array e)
  | Ok a =>
      match _reserve BITS (BITS_ALIGNED - BITS) (Mk 0 a) with
      | (Ok _, s) => Ok s
      | (Err e, _) => Err e
      end
  end.

Definition copy (other : t) : t := Mk 0 (_array other).
End Sized.

(** The inner loop from [i] on. *)
Fixpoint scan (fuel : nat) (i max step : Z) : exc t error (option Z) :=
  match fuel with
  | O => throw (Array Bit_array.Out_of_fuel)
  | S fuel =>
      if i <? max then
        used ← on_array (Bit_array.get i step);
        if (used : bool) then scan fuel (i +64 step) max step
        else
          _ ← on_array (Bit_array.set i step);
          _ ← set_next (i +64 step);
          mret (Some i)
      else mret None
  end.

(** The body of the outer loop: [None] when the scan found nothing. *)
Definition try_scan (max step : Z) : exc t error (option Z) := fun s =>
  let fuel := S (Z.to_nat (Bit_array._bit_cnt (_array s))) in
  catch (scan fuel (Z.land (_next s) (~64 (step -64 1))) max step)
    (fun e => match e with
              | Array Bit_array.Invalid_index_access => mret None
              | e => throw e
              end) s.

Fixpoint alloc_loop (fuel : nat) (max step : Z) : exc t error Z :=
  match fuel with
  | O => throw (Array Bit_array.Out_of_fuel)
  | S fuel =>
      r ← try_scan max step;
      match (r : option Z) with
      | Some i => mret i
      | None =>
          s ← get_state;
          _ ← set_next 0;
          if _next s =? 0 then throw Out_of_indices else alloc_loop fuel (_next s) step
      end
  end.

Definition alloc (num_log2 : Z) : exc t error Z :=
  alloc_loop 2 (~64 0) (Z.shiftl 1 num_log2).

Definition alloc_addr (bit_start num_log2 : Z) : exc t error unit :=
  let step := Z.shiftl 1 num_log2 in
  used ← on_array (Bit_array.get bit_start step);
  if (used : bool) then throw Range_conflict
  else
    _ ← on_array (Bit_array.set bit_start step);
    set_next (bit_start +64 step).

Definition free (bit_start num_log2 : Z) : exc t error unit :=
  _ ← on_array (Bit_array.clear bit_start (Z.shiftl 1 num_log2));
  modify (fun s => if bit_start <? _next s then Mk bit_start (_array s) else s).

(** ** Invariant and blocks *)

Record wf (s : t) : Prop := {
  wf_array : Bit_array.wf (_array s);
  wf_next : 0 ≤ _next s ≤ Bit_array._bit_cnt (_array s) }.

Definition cnt (s : t) : Z := Bit_array._bit_cnt (_array s).

(** The block of [step] indices at [i] is inside of the array and free. *)
Definition free_block (s : t) (i step : Z) : Prop :=
  within (_array s) i step ∧ all_bits (_array s) i step false.

(** The bits of [s'] are those of [s] with the block at [i] set to [v]. *)
Definition block_set (s s' : t) (i step : Z) (v : bool) : Prop :=
  ∀ j, 0 ≤ j → bit (_array s') j = if bool_decide (i ≤ j < i + step) then v else bit (_array s) j.

Lemma on_array_get s i step :
  wf s → is_u64 i → is_u64 step →
  ∃ r, on_array (Bit_array.get i step) s = (r, s) ∧
    match r with
    | Ok b => within (_array s) i step ∧ (b = false ↔ all_bits (_array s) i step false)
    | Err e => e = Array Bit_array.Invalid_index_access ∧ ¬ within (_array s) i step
    end.
Proof.
  intros [Hw _] Hi Hs. destruct (Bit_array.get_cases (_array s) i step) as (r & Hg & Hr); [done..|].
  unfold on_array. rewrite Hg. destruct s as [n a]; simpl in *. destruct r as [b|e].
  - by eexists.
  - destruct Hr as [-> ?]. by eexists.
Qed.

(** Flipping a uniform block of the array succeeds. *)
Lemma on_array_set s i step free :
  wf s → within (_array s) i step → all_bits (_array s) i step free →
  ∃ s', on_array (Bit_array._set i step free) s = (Ok tt, s') ∧ wf s' ∧
    block_set s s' i step (negb free) ∧ _next s' = _next s ∧ cnt s' = cnt s.
Proof.
  intros [Hw Hn] Hin Ha. pose proof Hin as (? & ? & ?). pose proof Hw as [_ ? _].
  assert (is_u64 i ∧ is_u64 step) as [Hi Hs] by word_lia.
  pose proof (Bit_array.set_cases (_array s) i step free Hw Hi Hs) as Hc.
  unfold on_array. destruct (Bit_array._set i step free (_array s)) as [r a'].
  destruct Hc as [(_ & _ & ?)|(_ & Hw' & Hcnt & Hout & Hr)]; [done|].
  destruct r as [[]|e]; [|by destruct Hr].
  eexists. split_and!; [done|..|done].
  - constructor; [done|]. simpl. lia.
  - intros j Hj. simpl. case_bool_decide; [by apply Hr|by apply Hout].
  - done.
Qed.

(** A block start is a multiple of the block size. *)
Definition aligned (step i : Z) : Prop := (step | i).

Lemma aligned_next step i j : 0 < step → aligned step i → aligned step j → i < j → i + step ≤ j.
Proof. intros Hs [a ->] [b ->] Hlt. assert (a < b) by nia. nia. Qed.

Lemma aligned_add step i : aligned step i → aligned step (i + step).
Proof. intros [a ->]. exists (a + 1). lia. Qed.

(** The effect of a successful allocation of [step] indices at [i]. *)
Definition allocated (s s' : t) (i step : Z) : Prop :=
  aligned step i ∧ free_block s i step ∧ wf s' ∧ block_set s s' i step true ∧
  cnt s' = cnt s ∧ _next s' = i + step.

(** There is no free block with a start in the given interval. *)
Definition none_free (s : t) (first last step : Z) : Prop :=
  ∀ j, aligned step j → first ≤ j < last → ¬ free_block s j step.

Lemma none_free_step s i last step :
  0 < step → aligned step i → ¬ free_block s i step → none_free s (i + step) last step →
  none_free s i last step.
Proof.
  intros Hs Ha Hn Hr j Hj Hij. destruct (decide (j = i)) as [->|]; [done|].
  apply Hr; [done|]. pose proof (aligned_next step i j Hs Ha Hj). lia.
Qed.

Lemma scan_spec fuel s i max step :
  wf s → aligned step i → 0 ≤ i ≤ cnt s → 0 < step < 2 ^ 64 → cnt s - i < Z.of_nat fuel →
  let (r, s') := scan fuel i max step s in
  match r with
  | Ok (Some j) => j < max ∧ allocated s s' j step
  | Ok None => s' = s ∧ none_free s i max step
  | Err e => e = Array Bit_array.Invalid_index_access ∧ s' = s ∧ none_free s i max step
  end.
Proof.
  intros Hw. revert i. induction fuel as [|fuel IH]; intros i Ha Hi Hs Hf; [lia|].
  cbn [scan]. pose proof Hw as [[_ Hb _] _]. unfold cnt in *.
  destruct (Z.ltb_spec i max) as [Hm|Hm].
  2:{ simpl. split; [done|]. intros j _ ?. lia. }
  unfold mbind at 1, exc_bind at 1.
  destruct (on_array_get s i step) as (r & -> & Hr); [done|word_lia|word_lia|].
  destruct r as [[]|e].
  - destruct Hr as [Hin Hb']. pose proof Hin as (? & ? & ?).
    rewrite wrap_small by word_lia.
    specialize (IH (i + step) (aligned_add _ _ Ha)). 
    destruct (scan fuel _ _ _ s) as [r s']. specialize (IH ltac:(lia) Hs ltac:(lia)).
    assert (¬ free_block s i step) as Hn by (intros [_ Hall]; by apply Hb' in Hall).
    destruct r as [[j|]|e]; [done|..].
    + destruct IH as [-> IH]. split; [done|]. apply none_free_step; [lia|done..].
    + destruct IH as (-> & -> & IH). split_and!; [done..|]. apply none_free_step; [lia|done..].
  - destruct Hr as [Hin Hb']. pose proof Hin as (? & ? & ?).
    destruct (on_array_set s i step false) as (s' & Hs' & Hw' & Hbs & Hnx & Hc); [done|done|by apply Hb'|].
    unfold mbind, exc_bind. unfold Bit_array.set. rewrite Hs'. simpl.
    split; [done|]. rewrite wrap_small by word_lia. unfold cnt in *.
    split_and!; [done|split; [done|by apply Hb']| |done..].
    destruct Hw'. constructor; [done|]. simpl. lia.
  - destruct Hr as [-> Hn]. split_and!; [done..|]. intros j Hj [? _] [Hin _]. apply Hn.
    destruct Hin as (?&?&?). unfold within. lia.
Qed.

Lemma block_size k : 0 ≤ k < 64 → Z.shiftl 1 k = 2 ^ k ∧ 0 < 2 ^ k < 2 ^ 64.
Proof.
  intros Hk. rewrite Z.shiftl_1_l. pose proof (Z.pow_pos_nonneg 2 k).
  pose proof (Z.pow_lt_mono_r 2 k 64). lia.
Qed.

Lemma try_scan_spec s max k :
  wf s → 0 ≤ k < 64 →
  let (r, s') := try_scan max (2 ^ k) s in
  match r with
  | Ok (Some j) => allocated s s' j (2 ^ k)
  | Ok None => s' = s ∧ none_free s (_next s / 2 ^ k * 2 ^ k) max (2 ^ k)
  | Err e => False
  end.
Proof.
  intros Hw Hk. destruct (block_size k Hk) as [_ Hstep]. pose proof Hw as [[_ Hb _] Hn].
  unfold try_scan, catch. rewrite land_align_down by word_lia.
  set (i := _next s / 2 ^ k * 2 ^ k).
  assert (aligned (2 ^ k) i) as Ha by (by exists (_next s / 2 ^ k)).
  assert (0 ≤ i ≤ _next s) as Hi.
  { unfold i. pose proof (Z.div_pos (_next s) (2 ^ k)). pose proof (Z.mul_div_le (_next s) (2 ^ k)). nia. }
  pose proof (scan_spec (S (Z.to_nat (cnt s))) s i max (2 ^ k) Hw Ha) as Hs. unfold cnt in Hs.
  destruct (scan _ _ _ _ s) as [r s']. specialize (Hs ltac:(lia) Hstep ltac:(lia)).
  destruct r as [[j|]|e]; [by destruct Hs|done|]. by destruct Hs as (-> & -> & ?).
Qed.

(** The result of [alloc]. *)
Definition alloc_result (s : t) (k : Z) (r : result error Z) (s' : t) : Prop :=
  match r with
  | Ok i => allocated s s' i (2 ^ k)
  | Err e => e = Out_of_indices ∧ s' = Mk 0 (_array s) ∧ ∀ i, aligned (2 ^ k) i → ¬ free_block s i (2 ^ k)
  end.

Lemma free_block_bounds s i step : free_block s i step → 0 ≤ i < cnt s ∧ i + step ≤ cnt s.
Proof. intros [(?&?&?) _]. done. Qed.

Lemma rewound_wf s : wf s → wf (Mk 0 (_array s)).
Proof. intros [Ha Hn]. constructor; [done|]. simpl. lia. Qed.

Lemma alloc_spec s k :
  wf s → 0 ≤ k < 64 → let (r, s') := alloc k s in alloc_result s k r s'.
Proof.
  intros Hw Hk. unfold alloc. destruct (block_size k Hk) as [-> Hstep].
  pose proof Hw as [[_ Hb _] Hn]. cbn [alloc_loop]. unfold mbind, exc_bind at 1.
  pose proof (try_scan_spec s (~64 0) k Hw Hk) as H1.
  destruct (try_scan (~64 0) (2 ^ k) s) as [[[j|]|e] s1]; [exact H1| |by destruct H1].
  destruct H1 as [-> H1]. unfold get_state, set_next, modify, exc_bind at 1; simpl.
  assert (∀ i, aligned (2 ^ k) i → _next s / 2 ^ k * 2 ^ k ≤ i → ¬ free_block s i (2 ^ k)) as Hhigh.
  { intros i Ha Hi Hf. pose proof (free_block_bounds _ _ _ Hf) as [? ?]. apply (H1 i Ha); [|done].
    split; [done|]. change (~64 0) with (2 ^ 64 - 1). unfold cnt in *. lia. }
  destruct (Z.eqb_spec (_next s) 0) as [H0|H0]; simpl.
  - split_and!; [done..|]. intros i Ha Hf. apply (Hhigh i Ha); [|done].
    rewrite H0, Zdiv_0_l. apply (free_block_bounds _ _ _ Hf).
  - unfold exc_bind.
    pose proof (try_scan_spec (Mk 0 (_array s)) (_next s) k (rewound_wf s Hw) Hk) as H2.
    destruct (try_scan (_next s) (2 ^ k) _) as [[[j|]|e] s2]; [exact H2| |by destruct H2].
    destruct H2 as [-> H2]. simpl in *. split_and!; [done..|]. intros i Ha Hf.
    destruct (decide (i < _next s)) as [Hlt|Hge].
    + apply (H2 i Ha); [|done]. rewrite Zdiv_0_l. pose proof (free_block_bounds _ _ _ Hf). lia.
    + apply (Hhigh i Ha); [|done]. pose proof (Z.mul_div_le (_next s) (2 ^ k)). lia.
Qed.

Lemma alloc_addr_spec s i k :
  wf s → is_u64 i → 0 ≤ k < 64 →
  let (r, s') := alloc_addr i k s in
  match r with
  | Ok _ => free_block s i (2 ^ k) ∧ wf s' ∧ block_set s s' i (2 ^ k) true ∧ cnt s' = cnt s ∧
      _next s' = i + 2 ^ k
  | Err e => s' = s ∧
      ((e = Array Bit_array.Invalid_index_access ∧ ¬ within (_array s) i (2 ^ k)) ∨
       (e = Range_conflict ∧ within (_array s) i (2 ^ k) ∧ ¬ all_bits (_array s) i (2 ^ k) false))
  end.
Proof.
  intros Hw Hi Hk. unfold alloc_addr. destruct (block_size k Hk) as [-> Hstep].
  unfold mbind, exc_bind at 1.
  destruct (on_array_get s i (2 ^ k)) as (r & -> & Hr); [done|done|word_lia|].
  destruct r as [[]|e].
  - destruct Hr as [Hin Hb]. simpl. split; [done|]. right. split_and!; [done..|].
    intros Ha. by apply Hb in Ha.
  - destruct Hr as [Hin Hb]. pose proof Hin as (? & ? & ?). pose proof Hw as [[_ ? _] _].
    destruct (on_array_set s i (2 ^ k) false) as (s' & Hs' & Hw' & Hbs & Hnx & Hc); [done|done|by apply Hb|].
    unfold exc_bind, Bit_array.set. rewrite Hs'. simpl. rewrite wrap_small by word_lia.
    split_and!; [split; [done|by apply Hb]| |done..].
    destruct Hw'. constructor; [done|]. unfold cnt in *. simpl. lia.
  - destruct Hr as [-> Hr]. split; [done|]. by left.
Qed.

Lemma free_spec s i k :
  wf s → within (_array s) i (2 ^ k) → all_bits (_array s) i (2 ^ k) true → 0 ≤ k < 64 →
  ∃ s', free i k s = (Ok tt, s') ∧ wf s' ∧ block_set s s' i (2 ^ k) false ∧ cnt s' = cnt s ∧
    _next s' = Z.min (_next s) i.
Proof.
  intros Hw Hin Ha Hk. unfold free. destruct (block_size k Hk) as [-> Hstep].
  unfold mbind, exc_bind.
  destruct (on_array_set s i (2 ^ k) true) as (s' & Hs' & Hw' & Hbs & Hnx & Hc); [done..|].
  unfold Bit_array.clear. rewrite Hs'. unfold modify. pose proof Hin as (? & ? & ?).
  destruct Hw' as [Hwa Hn].
  destruct (Z.ltb_spec i (_next s')); eexists; (split; [done|]); split_and!; simpl; try done; try lia.
  - constructor; [done|]. simpl. lia.
Qed.

(** ** Clients of one allocator *)

Section Clients.
Context (BITS : Z) (HBITS : 0 < BITS < 2 ^ 31).

(** The blocks that are handed out, as pairs of start and size logarithm. *)
Definition covers (L : gset (Z * Z)) (j : Z) : Prop :=
  ∃ b, b ∈ L ∧ b.1 ≤ j < b.1 + 2 ^ b.2.

(** Clients allocate, and free only what they hold. *)
Inductive reach : t → gset (Z * Z) → Prop :=
  | reach_init s : Bit_allocator BITS = Ok s → reach s ∅
  | reach_alloc s L k r s' :
      reach s L → 0 ≤ k < 64 → alloc k s = (r, s') →
      reach s' (match r with Ok i => {[ (i, k) ]} ∪ L | Err _ => L end)
  | reach_alloc_addr s L i k r s' :
      reach s L → is_u64 i → 0 ≤ k < 64 → alloc_addr i k s = (r, s') →
      reach s' (match r with Ok _ => {[ (i, k) ]} ∪ L | Err _ => L end)
  | reach_free s L i k r s' :
      reach s L → (i, k) ∈ L → free i k s = (r, s') → reach s' (L ∖ {[ (i, k) ]}).

Record inv (s : t) (L : gset (Z * Z)) : Prop := {
  inv_wf : wf s;
  inv_cnt : BITS ≤ cnt s;
  inv_used j : 0 ≤ j < cnt s → bit (_array s) j = true ↔ covers L j ∨ BITS ≤ j;
  inv_block i k : (i, k) ∈ L → 0 ≤ i ∧ i + 2 ^ k ≤ BITS ∧ 0 ≤ k < 64;
  inv_disjoint b c j : b ∈ L → c ∈ L →
    b.1 ≤ j < b.1 + 2 ^ b.2 → c.1 ≤ j < c.1 + 2 ^ c.2 → b = c }.

Lemma BITS_ALIGNED_value : BITS_ALIGNED BITS = (BITS + 63) / 64 * 64.
Proof.
  unfold BITS_ALIGNED. rewrite wrap_small by word_lia.
  apply (land_align_down (BITS + 63) 6); word_lia.
Qed.

Lemma init_inv s : Bit_allocator BITS = Ok s → inv s ∅.
Proof.
  unfold Bit_allocator. rewrite BITS_ALIGNED_value.
  set (n := (BITS + 63) / 64 * 64).
  pose proof (Z.div_mod (BITS + 63) 64). pose proof (Z.mod_pos_bound (BITS + 63) 64).
  destruct (Bit_array.bit_array_fresh n) as (a & -> & Hwa & Hc & Hz);
    [unfold n; lia|unfold n; by rewrite Z.mod_mul by lia|].
  assert (wf (Mk 0 a)) as Hw by (constructor; [done|simpl; rewrite Hc; unfold n; lia]).
  assert (∀ s, wf s → cnt s = n → (∀ j, 0 ≤ j < n → bit (_array s) j = true ↔ BITS ≤ j) → inv s ∅)
    as Hgo.
  { intros s' Hw' Hc' Hb'. constructor; [done|unfold n in *; lia| |set_solver|set_solver].
    intros j Hj. rewrite Hb' by lia. unfold covers. split; [by right|]. intros [(?&?&_)|]; [set_solver|done]. }
  unfold _reserve. destruct (Z.eqb_spec (n - BITS) 0) as [He|He].
  - intros [= <-]. apply Hgo; [done|done|]. intros j Hj. simpl. rewrite Hz. split; [done|lia].
  - destruct (on_array_set (Mk 0 a) BITS (n - BITS) false) as (s' & Hs' & Hw' & Hbs & Hnx & Hc'); [done|..].
    + simpl. unfold within. rewrite Hc. unfold n in *. lia.
    + intros j _. apply Hz.
    + unfold Bit_array.set. rewrite Hs'. intros [= <-].
      apply Hgo; [done|by rewrite Hc'|]. intros j Hj. rewrite Hbs by lia. simpl. rewrite Hz.
      case_bool_decide; [split; [lia|done]|split; [done|lia]].
Qed.

Lemma covers_union i k L j : covers ({[ (i, k) ]} ∪ L) j ↔ i ≤ j < i + 2 ^ k ∨ covers L j.
Proof.
  unfold covers. split.
  - intros (b & [->%elem_of_singleton|Hb]%elem_of_union & ?); [by left|right; eauto].
  - intros [?|(b & ? & ?)]; [exists (i, k)|exists b]; set_solver.
Qed.

(** A free block lies in front of the reserved tail and clear of the live ones. *)
Lemma free_block_inv s L i k :
  inv s L → 0 ≤ k < 64 → free_block s i (2 ^ k) ↔
    0 ≤ i ∧ i + 2 ^ k ≤ BITS ∧ ∀ j, i ≤ j < i + 2 ^ k → ¬ covers L j.
Proof.
  intros [] Hk. destruct (block_size k Hk) as [_ Hp]. split.
  - intros [(Hi & _ & Hin) Ha]. unfold cnt in *.
    assert (i + 2 ^ k ≤ BITS) as HB.
    { destruct (decide (i + 2 ^ k ≤ BITS)) as [|Hn]; [done|]. exfalso.
      set (j := Z.max i BITS). assert (bit (_array s) j = false) as Hj by (apply Ha; lia).
      assert (bit (_array s) j = true) by (apply inv_used0; [lia|right; lia]). congruence. }
    split_and!; [lia|done|]. intros j Hj Hc.
    assert (bit (_array s) j = true) by (apply inv_used0; [lia|by left]).
    rewrite Ha in *; done.
  - intros (Hi & HB & Hn). split; [unfold within, cnt in *; lia|]. intros j Hj.
    apply not_true_iff_false. rewrite inv_used0 by lia. intros [Hc|]; [by eapply Hn|lia].
Qed.

Lemma alloc_inv s s' L i k :
  inv s L → 0 ≤ k < 64 → free_block s i (2 ^ k) → wf s' → block_set s s' i (2 ^ k) true →
  cnt s' = cnt s → inv s' ({[ (i, k) ]} ∪ L).
Proof.
  intros Hinv Hk Hf Hw Hbs Hc. pose proof Hf as (Hi & HB & Hn)%(free_block_inv s L); [|done..].
  destruct Hinv. constructor; [done|lia|..].
  - intros j Hj. rewrite Hbs, covers_union by lia. rewrite Hc in Hj.
    case_bool_decide; [split; [by left; left|done]|]. rewrite inv_used0 by done. tauto.
  - intros i' k' [[= -> ->]%elem_of_singleton|Hb]%elem_of_union; [done|by apply inv_block0].
  - intros b c j Hb Hc' Hjb Hjc. apply elem_of_union in Hb as [->%elem_of_singleton|Hb];
      apply elem_of_union in Hc' as [->%elem_of_singleton|Hc']; simpl in *; try done.
    + destruct (Hn j Hjb). by exists c.
    + destruct (Hn j Hjc). by exists b.
    + by apply (inv_disjoint0 b c j).
Qed.

Lemma live_block_set s L i k :
  inv s L → (i, k) ∈ L → 0 ≤ k < 64 ∧ within (_array s) i (2 ^ k) ∧ all_bits (_array s) i (2 ^ k) true.
Proof.
  intros [] Hb. destruct (inv_block0 i k Hb) as (Hi & HB & Hk).
  destruct (block_size k Hk) as [_ Hp]. unfold cnt in *. split_and!; [lia..|unfold within; lia|].
  intros j Hj. apply inv_used0; [lia|]. left. by exists (i, k).
Qed.

Lemma free_inv s s' L i k :
  inv s L → (i, k) ∈ L → wf s' → block_set s s' i (2 ^ k) false → cnt s' = cnt s →
  inv s' (L ∖ {[ (i, k) ]}).
Proof.
  intros Hinv Hb Hw Hbs Hc. destruct (live_block_set s L i k Hinv Hb) as (Hk & Hin & Ha).
  destruct Hinv. destruct (inv_block0 i k Hb) as (Hi & HB & _).
  constructor; [done|lia|..].
  - intros j Hj. rewrite Hbs by lia. rewrite Hc in Hj. case_bool_decide as Hj'.
    + split; [done|]. intros [(b & [Hb' Hne]%elem_of_difference & Hjb)|]; [|lia].
      destruct Hne. apply elem_of_singleton. by apply (inv_disjoint0 b (i, k) j).
    + rewrite inv_used0 by done. unfold covers. split.
      * intros [(b & Hb' & Hjb)|]; [left|by right]. exists b. split; [|done].
        apply elem_of_difference. split; [done|]. intros ->%elem_of_singleton. done.
      * intros [(b & [Hb' _]%elem_of_difference & Hjb)|]; [left; by exists b|by right].
  - intros i' k' [Hb' _]%elem_of_difference. by apply inv_block0.
  - intros b c j [? _]%elem_of_difference [? _]%elem_of_difference. by apply inv_disjoint0.
Qed.

Lemma rewound_inv s L : inv s L → inv (Mk 0 (_array s)) L.
Proof. intros []. constructor; [by apply rewound_wf|done..]. Qed.

Lemma reach_inv s L : reach s L → inv s L.
Proof.
  induction 1 as [s Hs|s L k r s' _ IH Hk Ha|s L i k r s' _ IH Hi Hk Ha|s L i k r s' _ IH Hb Hf].
  - by apply init_inv.
  - pose proof (alloc_spec s k (inv_wf _ _ IH) Hk) as Hs. rewrite Ha in Hs.
    destruct r as [i|e].
    + destruct Hs as (_ & Hfr & Hw & Hbs & Hc & _). by eapply alloc_inv.
    + destruct Hs as (_ & -> & _). by apply rewound_inv.
  - pose proof (alloc_addr_spec s i k (inv_wf _ _ IH) Hi Hk) as Hs. rewrite Ha in Hs.
    destruct r as [u|e].
    + destruct Hs as (Hfr & Hw & Hbs & Hc & _). by eapply alloc_inv.
    + by destruct Hs as [-> _].
  - destruct (live_block_set s L i k IH Hb) as (Hk & Hin & Hall).
    destruct (free_spec s i k (inv_wf _ _ IH) Hin Hall Hk) as (s1 & Hs1 & Hw & Hbs & Hc & _).
    rewrite Hf in Hs1. simplify_eq. by eapply free_inv.
Qed.
End Clients.

(** ** Promises to the clients *)

(** C17: allocation is sound and complete.  Whatever clients did before, a block that
    [alloc] returns is aligned to its size, lies within the [BITS] indices and
    overlaps no block that is handed out; and [Out_of_indices], the only exception,
    means that every aligned block of that size overlaps one. *)
Theorem alloc_sound_complete BITS s L k :
  0 < BITS < 2 ^ 31 → reach BITS s L → 0 ≤ k < 64 →
  match (alloc k s).1 with
  | Ok i => (2 ^ k | i) ∧ 0 ≤ i ∧ i + 2 ^ k ≤ BITS ∧ ∀ j, i ≤ j < i + 2 ^ k → ¬ covers L j
  | Err e => e = Out_of_indices ∧
      ∀ i, (2 ^ k | i) → 0 ≤ i → i + 2 ^ k ≤ BITS → ¬ ∀ j, i ≤ j < i + 2 ^ k → ¬ covers L j
  end.
Proof.
  intros HB Hr Hk. pose proof (reach_inv BITS HB s L Hr) as Hinv.
  pose proof (alloc_spec s k (inv_wf _ _ _ Hinv) Hk) as Hs.
  destruct (alloc k s) as [[i|e] s']; simpl.
  - destruct Hs as (Ha & Hf & _). split; [done|]. by eapply free_block_inv.
  - destruct Hs as (-> & _ & Hn). split; [done|]. intros i Ha Hi HiB Hc.
    apply (Hn i Ha). by eapply free_block_inv.
Qed.

(** a client can always give back a block it holds: no exception is thrown, and
    the indices of the block, and only those, become free again. *)
Theorem free_live_block BITS s L i k :
  0 < BITS < 2 ^ 31 → reach BITS s L → (i, k) ∈ L →
  let (r, s') := free i k s in
  r = Ok tt ∧ block_set s s' i (2 ^ k) false ∧ free_block s' i (2 ^ k).
Proof.
  intros HB Hr Hb. pose proof (reach_inv BITS HB s L Hr) as Hinv.
  destruct (live_block_set _ s L i k Hinv Hb) as (Hk & Hin & Hall).
  destruct (free_spec s i k (inv_wf _ _ _ Hinv) Hin Hall Hk) as (s' & -> & Hw & Hbs & Hc & _).
  split_and!; [done..|]. split.
  - unfold within, cnt in *. by rewrite Hc.
  - intros j Hj. destruct Hin as (? & _ & _). rewrite Hbs by lia. by rewrite bool_decide_true.
Qed.

(** An allocator of 100 indices with two blocks handed out. *)
Definition demo_init : t :=
  match Bit_allocator 100 with Ok s => s | Err _ => Mk 0 (Bit_array.Mk 0 []) end.
Definition demo_one : t := (alloc 0 demo_init).2.
Definition demo_two : t := (alloc 2 demo_one).2.
Definition demo_blocks : gset (Z * Z) := {[ (4, 2) ]} ∪ ({[ (0, 0) ]} ∪ ∅).

Lemma demo_two_reach : reach 100 demo_two demo_blocks.
Proof.
  apply (reach_alloc 100 demo_one _ 2 (Ok 4)); [|lia|vm_compute; reflexivity].
  apply (reach_alloc 100 demo_init _ 0 (Ok 0)); [|lia|vm_compute; reflexivity].
  apply reach_init. vm_compute. reflexivity.
Qed.

Lemma alloc_sound_complete_witness :
  match (alloc 6 demo_two).1 with
  | Ok i => False
  | Err e => e = Out_of_indices ∧
      ∀ i, (2 ^ 6 | i) → 0 ≤ i → i + 2 ^ 6 ≤ 100 →
        ¬ ∀ j, i ≤ j < i + 2 ^ 6 → ¬ covers demo_blocks j
  end.
Proof.
  pose proof (alloc_sound_complete 100 demo_two demo_blocks 6 ltac:(lia) demo_two_reach ltac:(lia)) as H.
  assert ((alloc 6 demo_two).1 = Err Out_of_indices) as E by (vm_compute; reflexivity).
  rewrite E in *. exact H.
Defined.

Lemma free_live_block_witness :
  let (r, s') := free 4 2 demo_two in
  r = Ok tt ∧ block_set demo_two s' 4 (2 ^ 2) false ∧ free_block s' 4 (2 ^ 2).
Proof.
  apply (free_live_block 100 demo_two demo_blocks 4 2).
  - lia.
  - exact demo_two_reach.
  - apply elem_of_union. left. apply elem_of_singleton. reflexivity.
Defined.

(** [alloc] does not return the lowest free index, although its documentation
    says so: after a single index and a block of four, the next single index is 8,
    while the indices 1 to 3 are free. *)
Theorem alloc_not_lowest :
  (alloc 0 demo_two).1 = Ok 8 ∧ (Bit_array.get 1 3 (_array demo_two)).1 = Ok false.
Proof. split; vm_compute; reflexivity. Qed.
