(* ===== verification/Register.v ===== *)
(** * Register: bit fields of highly structured integers

    Model of [src/repos/base/include/util/register.h].  A field is given by its
    shift and width within a register of [A] bits; the functions are the static
    methods of [Register<A>::Bitfield<SHIFT, WIDTH>], with the truncations to the
    access type and to the smallest sufficient integer type of the field.
    [Bitset_2] and [Bitset_3] combine fields to one value. *)

From S2P Require Import Prelude.

Open Scope Z_scope.

(** [Trait::Raise_to_uint_width] *)
Definition Raise_to_uint_width (W : Z) : Z :=
  if W <? 9 then 8 else if W <? 17 then 16 else if W <? 33 then 32 else if W <? 65 then 64 else 0.

Record bitfield := Bitfield { SHIFT : Z; WIDTH : Z }.

Definition mask (A : Z) (f : bitfield) : Z :=
  if WIDTH f <? A then wrap A (Z.shiftl 1 (WIDTH f) - 1) else wrap A (Z.lnot 0).

Definition reg_mask (A : Z) (f : bitfield) : Z := wrap A (Z.shiftl (mask A f) (SHIFT f)).

Definition clear_mask (A : Z) (f : bitfield) : Z := wrap A (Z.lnot (reg_mask A f)).

Definition bits (A : Z) (f : bitfield) (value : Z) : Z :=
  wrap A (Z.shiftl (Z.land value (mask A f)) (SHIFT f)).

Definition masked (A : Z) (f : bitfield) (reg : Z) : Z := Z.land reg (reg_mask A f).

Definition get (A : Z) (f : bitfield) (reg : Z) : Z :=
  wrap (Raise_to_uint_width (WIDTH f)) (Z.land (Z.shiftr reg (SHIFT f)) (mask A f)).

Definition clear (A : Z) (f : bitfield) (reg : Z) : Z := Z.land reg (clear_mask A f).

Definition set (A : Z) (f : bitfield) (reg value : Z) : Z :=
  Z.lor (clear A f reg) (wrap A (Z.shiftl (Z.land value (mask A f)) (SHIFT f))).

(** A bit set of two parts, which may be fields or sets again ([Bitset_3] nests its
    first two parts that way); the type of the value of a part is the smallest
    sufficient one. *)
Inductive bitset := Field (f : bitfield) | Bitset_2 (b0 b1 : bitset).

Fixpoint BITFIELD_WIDTH (b : bitset) : Z :=
  match b with
  | Field f => WIDTH f
  | Bitset_2 b0 b1 => BITFIELD_WIDTH b0 + BITFIELD_WIDTH b1
  end.

Fixpoint set_bits (A : Z) (b : bitset) (v : Z) : Z :=
  match b with
  | Field f => bits A f v
  | Bitset_2 b0 b1 => Z.lor (set_bits A b0 v) (set_bits A b1 (Z.shiftr v (BITFIELD_WIDTH b0)))
  end.

(** The width of the type the value of a part is shifted in, after the promotion of
    small integers to [int]. *)
Definition promoted (W : Z) : Z := Z.max 32 (Raise_to_uint_width W).

Fixpoint set_get (A : Z) (b : bitset) (reg : Z) : Z :=
  match b with
  | Field f => get A f reg
  | Bitset_2 b0 b1 =>
      wrap (Raise_to_uint_width (BITFIELD_WIDTH b0 + BITFIELD_WIDTH b1))
        (Z.lor (set_get A b0 reg)
           (wrap (promoted (BITFIELD_WIDTH b1)) (Z.shiftl (set_get A b1 reg) (BITFIELD_WIDTH b0))))
  end.

(** Clearing a part; only single fields define it in the code. *)
Fixpoint set_clear (A : Z) (b : bitset) (reg : Z) : Z :=
  match b with
  | Field f => clear A f reg
  | Bitset_2 b0 b1 => set_clear A b1 (set_clear A b0 reg)
  end.

Fixpoint set_set (A : Z) (b : bitset) (reg value : Z) : Z :=
  match b with
  | Field f => set A f reg value
  | Bitset_2 b0 b1 =>
      let reg := set_clear A b1 (set_clear A b0 reg) in
      set_set A b1 (set_set A b0 reg value) (Z.shiftr value (BITFIELD_WIDTH b0))
  end.

Definition Bitset_3 (b0 b1 b2 : bitset) : bitset := Bitset_2 (Bitset_2 b0 b1) b2.

(** ** The bits of each operation *)

(** Field [f] has bits and lies within a register of [A] bits. *)
Definition field_ok (A : Z) (f : bitfield) : Prop :=
  0 ≤ SHIFT f ∧ 0 < WIDTH f ∧ SHIFT f + WIDTH f ≤ A ∧ A ≤ 64.

(** Register bit [i] belongs to field [f]. *)
Definition covers (f : bitfield) (i : Z) : bool := (SHIFT f <=? i) && (i <? SHIFT f + WIDTH f).

Lemma covers_in f i : SHIFT f ≤ i < SHIFT f + WIDTH f → covers f i = true.
Proof. intros. unfold covers. zcases; lia || done. Qed.

Lemma covers_out f i : i < SHIFT f ∨ SHIFT f + WIDTH f ≤ i → covers f i = false.
Proof. intros. unfold covers. zcases; lia || done. Qed.

Lemma mask_ones A f : field_ok A f → mask A f = Z.ones (WIDTH f).
Proof.
  intros (?&?&?&?). unfold mask. destruct (Z.ltb_spec (WIDTH f) A).
  - rewrite Z.shiftl_1_l, Z.ones_equiv. apply wrap_small. unfold in_range.
    pose proof (Z.pow_pos_nonneg 2 (WIDTH f)). pose proof (Z.pow_le_mono_r 2 (WIDTH f) A). lia.
  - assert (WIDTH f = A) as -> by lia. unfold wrap. rewrite Z.ones_equiv.
    change (Z.lnot 0) with (-1). symmetry. apply (Z.mod_unique _ _ (-1)); [|lia].
    left. pose proof (Z.pow_pos_nonneg 2 A). lia.
Qed.

Lemma shifted_bit A f v i :
  field_ok A f → 0 ≤ i →
  Z.testbit (wrap A (Z.shiftl (Z.land v (mask A f)) (SHIFT f))) i =
    covers f i && Z.testbit v (i - SHIFT f).
Proof.
  intros Hf Hi. rewrite mask_ones by done. pose proof Hf as (?&?&?&?).
  rewrite wrap_testbit, Z.shiftl_spec by lia. unfold covers.
  destruct (Z.leb_spec (SHIFT f) i).
  - rewrite Z.land_spec, Z.testbit_ones by lia.
    destruct (Z.ltb_spec i (SHIFT f + WIDTH f)); simpl.
    + destruct (Z.ltb_spec i A), (Z.leb_spec 0 (i - SHIFT f)), (Z.ltb_spec (i - SHIFT f) (WIDTH f));
        try lia. by rewrite andb_true_r.
    + destruct (Z.ltb_spec (i - SHIFT f) (WIDTH f)); [lia|]. by rewrite !andb_false_r.
  - rewrite Z.testbit_neg_r by lia. by rewrite andb_false_r.
Qed.

Lemma bits_bit A f v i :
  field_ok A f → 0 ≤ i → Z.testbit (bits A f v) i = covers f i && Z.testbit v (i - SHIFT f).
Proof. apply shifted_bit. Qed.

Lemma reg_mask_bit A f i : field_ok A f → 0 ≤ i → Z.testbit (reg_mask A f) i = covers f i.
Proof.
  intros Hf Hi. pose proof (shifted_bit A f (-1) i Hf Hi) as H.
  rewrite Z.land_m1_l in H. unfold reg_mask. rewrite H. destruct (covers f i) eqn:E; [|done].
  unfold covers in E. apply andb_true_iff in E as [E _]. apply Z.leb_le in E.
  by rewrite Z.bits_m1 by lia.
Qed.

Lemma masked_bit A f v i :
  field_ok A f → 0 ≤ i → Z.testbit (masked A f v) i = covers f i && Z.testbit v i.
Proof.
  intros Hf Hi. unfold masked. rewrite Z.land_spec, reg_mask_bit by done. apply andb_comm.
Qed.

Lemma clear_bit A f v i :
  field_ok A f → in_range A v → 0 ≤ i →
  Z.testbit (clear A f v) i = negb (covers f i) && Z.testbit v i.
Proof.
  intros Hf Hv Hi. unfold clear, clear_mask. pose proof Hf as (?&?&?&?).
  rewrite Z.land_spec, wrap_testbit, Z.lnot_spec, reg_mask_bit by (done || lia).
  destruct (Z.ltb_spec i A); [apply andb_comm|].
  rewrite (in_range_testbit A v) by (done || lia). simpl. by rewrite andb_false_r.
Qed.

Lemma set_bit A f reg v i :
  field_ok A f → in_range A reg → 0 ≤ i →
  Z.testbit (set A f reg v) i =
    if covers f i then Z.testbit v (i - SHIFT f) else Z.testbit reg i.
Proof.
  intros Hf Hr Hi. unfold set. rewrite Z.lor_spec, shifted_bit, clear_bit by done.
  destruct (covers f i); simpl; [done|by rewrite orb_false_r].
Qed.

Lemma raise_ge W : 0 < W ≤ 64 → W ≤ Raise_to_uint_width W.
Proof.
  intros. unfold Raise_to_uint_width.
  destruct (Z.ltb_spec W 9); [lia|]. destruct (Z.ltb_spec W 17); [lia|].
  destruct (Z.ltb_spec W 33); [lia|]. destruct (Z.ltb_spec W 65); lia.
Qed.

Lemma get_bit A f reg i :
  field_ok A f → 0 ≤ i →
  Z.testbit (get A f reg) i = (i <? WIDTH f) && Z.testbit reg (SHIFT f + i).
Proof.
  intros Hf Hi. unfold get. rewrite mask_ones by done. pose proof Hf as (?&?&?&?).
  pose proof (raise_ge (WIDTH f)) as Hr.
  rewrite wrap_testbit, Z.land_spec, Z.shiftr_spec, Z.testbit_ones by lia.
  rewrite (Z.add_comm i).
  destruct (Z.ltb_spec i (Raise_to_uint_width (WIDTH f))), (Z.ltb_spec i (WIDTH f)),
    (Z.leb_spec 0 i); simpl; try lia; by rewrite ?andb_true_r, ?andb_false_r.
Qed.

Lemma nonneg_get A f reg : field_ok A f → 0 ≤ get A f reg < 2 ^ WIDTH f.
Proof.
  intros Hf. pose proof Hf as (?&?&?&?). apply in_range_bits; [lia| |].
  - unfold get. apply wrap_range. pose proof (raise_ge (WIDTH f)). lia.
  - intros i Hi. rewrite get_bit by (done || lia). by destruct (Z.ltb_spec i (WIDTH f)); [lia|].
Qed.

Lemma field_range A f : field_ok A f → 0 ≤ A.
Proof. intros (?&?&?&?). lia. Qed.

Lemma set_range A f reg v : field_ok A f → in_range A reg → in_range A (set A f reg v).
Proof.
  intros Hf Hr. pose proof (field_range A f Hf). unfold set. apply in_range_lor; [done| |].
  - unfold clear. apply in_range_land_l; [|done]. unfold clear_mask. by apply wrap_range.
  - by apply wrap_range.
Qed.

Lemma clear_range A f reg : field_ok A f → in_range A reg → in_range A (clear A f reg).
Proof.
  intros Hf Hr. unfold clear. apply in_range_land_l; [|done].
  apply wrap_range. destruct Hf as (?&?&?&?). lia.
Qed.

Lemma bits_range A f v : field_ok A f → in_range A (bits A f v).
Proof. intros (?&?&?&?). apply wrap_range. lia. Qed.

Lemma masked_range A f v : field_ok A f → in_range A (reg_mask A f) ∧ (0 ≤ v → in_range A (masked A f v)).
Proof.
  intros (?&?&?&?). assert (in_range A (reg_mask A f)) by (apply wrap_range; lia).
  split; [done|]. intros Hv. unfold masked. rewrite Z.land_comm. by apply in_range_land_l.
Qed.

(** Concrete fields, and the bits of a register that is built field by field. *)
Ltac field_lia := unfold field_ok; simpl; lia.

#[export] Hint Resolve set_range clear_range bits_range : words.
#[export] Hint Extern 1 (field_ok _ _) => field_lia : words.
#[export] Hint Extern 1 (in_range _ 0) => (unfold in_range; lia) : words.

Ltac reg_bits :=
  repeat (rewrite set_bit by auto 15 with words || rewrite get_bit by auto with words);
  rewrite ?Z.bits_0.

(** Single-bit fields. *)
Lemma get_flag A i reg : 0 ≤ i < A → A ≤ 64 → get A (Bitfield i 1) reg = Z.b2z (Z.testbit reg i).
Proof.
  intros Hi HA. assert (field_ok A (Bitfield i 1)) as Hf by (unfold field_ok; simpl; lia).
  apply Z.bits_inj'. intros j Hj. rewrite get_bit by done. simpl.
  destruct (Z.ltb_spec j 1).
  - assert (j = 0) as -> by lia. by rewrite Z.add_0_r, Z.b2z_bit0.
  - rewrite (in_range_testbit 1 (Z.b2z _)); [done| |lia].
    unfold in_range. destruct (Z.testbit reg i); simpl; lia.
Qed.

Lemma bits_flag A i b j : 0 ≤ i < A → A ≤ 64 → 0 ≤ j →
  Z.testbit (bits A (Bitfield i 1) (Z.b2z b)) j = (j =? i) && b.
Proof.
  intros Hi HA Hj. rewrite bits_bit by (unfold field_ok; simpl; lia). unfold covers; simpl.
  destruct (Z.eqb_spec j i) as [->|].
  - rewrite Z.sub_diag, Z.b2z_bit0.
    destruct (Z.leb_spec i i), (Z.ltb_spec i (i + 1)); try lia. done.
  - destruct (Z.leb_spec i j), (Z.ltb_spec j (i + 1)); try lia; done.
Qed.

(** The value of a field that holds all significant bits of [v]. *)
Lemma masked_exact A f v d :
  field_ok A f → in_range (SHIFT f + WIDTH f) v → (2 ^ SHIFT f | v) →
  (∀ i, SHIFT f ≤ i < SHIFT f + WIDTH f → Z.testbit d i = Z.testbit v i) →
  masked A f d = v.
Proof.
  intros Hf Hv [q Hq] Hd. pose proof Hf as (?&?&?&?). apply Z.bits_inj'. intros i Hi.
  rewrite masked_bit by done. unfold covers.
  destruct (Z.leb_spec (SHIFT f) i), (Z.ltb_spec i (SHIFT f + WIDTH f)); simpl.
  - by apply Hd.
  - by rewrite (in_range_testbit (SHIFT f + WIDTH f) v).
  - rewrite Hq. by rewrite Z.mul_pow2_bits_low.
  - lia.
Qed.

(** Two fields that share no bit. *)
Definition disjoint_fields (f g : bitfield) : Prop :=
  SHIFT f + WIDTH f ≤ SHIFT g ∨ SHIFT g + WIDTH g ≤ SHIFT f.

(** C20: reading a field after writing it gives the written value, truncated to the
    width of the field; every field that shares no bit with it is unchanged; and
    the register stays within its access type. *)
Theorem bitfield_get_set A f g reg v :
  field_ok A f → field_ok A g → in_range A reg → 0 ≤ v →
  in_range A (set A f reg v) ∧
  get A f (set A f reg v) = v mod 2 ^ WIDTH f ∧
  (disjoint_fields f g → get A g (set A f reg v) = get A g reg).
Proof.
  intros Hf Hg Hr Hv. pose proof Hf as (?&?&?&?). pose proof Hg as (?&?&?&?).
  split_and!; [by apply set_range|..].
  - apply Z.bits_inj'. intros i Hi. rewrite get_bit, set_bit by (done || lia).
    destruct (Z.ltb_spec i (WIDTH f)); simpl.
    + rewrite Z.mod_pow2_bits_low by lia. unfold covers.
      destruct (Z.leb_spec (SHIFT f) (SHIFT f + i)), (Z.ltb_spec (SHIFT f + i) (SHIFT f + WIDTH f)); try lia.
      simpl. f_equal. lia.
    + by rewrite Z.mod_pow2_bits_high by lia.
  - intros Hd. apply Z.bits_inj'. intros i Hi. rewrite !get_bit by done.
    destruct (Z.ltb_spec i (WIDTH g)); simpl; [|done].
    rewrite set_bit by (done || lia). unfold covers, disjoint_fields in *.
    destruct (Z.leb_spec (SHIFT f) (SHIFT g + i)), (Z.ltb_spec (SHIFT g + i) (SHIFT f + WIDTH f));
      simpl; try done. lia.
Qed.

Lemma bitfield_get_set_witness :
  get 64 (Bitfield 12 36) (set 64 (Bitfield 12 36) 7 (2 ^ 40 + 5)) = 5 ∧
  get 64 (Bitfield 0 1) (set 64 (Bitfield 12 36) 7 (2 ^ 40 + 5)) = 1.
Proof.
  destruct (bitfield_get_set 64 (Bitfield 12 36) (Bitfield 0 1) 7 (2 ^ 40 + 5)) as (_ & -> & H).
  - unfold field_ok; simpl; lia.
  - unfold field_ok; simpl; lia.
  - unfold in_range; lia.
  - lia.
  - split; [vm_compute; reflexivity|]. rewrite H; [vm_compute; reflexivity|].
    unfold disjoint_fields; simpl; lia.
Defined.

(** ** Bit sets *)

(** The fields of a set lie within the register, share no bits, and have at most as
    many bits together as the type their upper part is shifted in. *)
Fixpoint covers_set (b : bitset) (i : Z) : bool :=
  match b with
  | Field f => covers f i
  | Bitset_2 b0 b1 => covers_set b0 i || covers_set b1 i
  end.

Fixpoint bitset_ok (A : Z) (b : bitset) : Prop :=
  match b with
  | Field f => field_ok A f
  | Bitset_2 b0 b1 => bitset_ok A b0 ∧ bitset_ok A b1 ∧
      BITFIELD_WIDTH b0 + BITFIELD_WIDTH b1 ≤ Z.min 64 (promoted (BITFIELD_WIDTH b1)) ∧
      ∀ i, covers_set b0 i = true → covers_set b1 i = false
  end.

(** The register bit that holds bit [i] of the value of the set. *)
Fixpoint position (b : bitset) (i : Z) : Z :=
  match b with
  | Field f => SHIFT f + i
  | Bitset_2 b0 b1 =>
      if i <? BITFIELD_WIDTH b0 then position b0 i else position b1 (i - BITFIELD_WIDTH b0)
  end.

Lemma bitset_width A b : bitset_ok A b → 0 < BITFIELD_WIDTH b ≤ 64.
Proof.
  induction b as [f|b0 IH0 b1 IH1]; simpl.
  - intros (?&?&?&?). lia.
  - intros (?&?&?&_). specialize (IH0 ltac:(done)). specialize (IH1 ltac:(done)). lia.
Qed.

Lemma position_covered A b i :
  bitset_ok A b → 0 ≤ i < BITFIELD_WIDTH b → 0 ≤ position b i ∧ covers_set b (position b i) = true.
Proof.
  revert i. induction b as [f|b0 IH0 b1 IH1]; intros i; simpl.
  - intros (?&?&?&?) ?. split; [lia|]. unfold covers. apply andb_true_iff. lia.
  - intros (H0&H1&_&_) ?. destruct (Z.ltb_spec i (BITFIELD_WIDTH b0)).
    + destruct (IH0 i) as [? ->]; [done|lia|]. done.
    + destruct (IH1 (i - BITFIELD_WIDTH b0)) as [? ->]; [done|lia|].
      split; [done|apply orb_true_r].
Qed.

Lemma set_get_bit A b reg i :
  bitset_ok A b → 0 ≤ i →
  Z.testbit (set_get A b reg) i = (i <? BITFIELD_WIDTH b) && Z.testbit reg (position b i).
Proof.
  revert i. induction b as [f|b0 IH0 b1 IH1]; intros i; simpl; [apply get_bit|].
  intros (H0&H1&Hw&_) Hi. pose proof (bitset_width _ _ H0). pose proof (bitset_width _ _ H1).
  pose proof (raise_ge (BITFIELD_WIDTH b0 + BITFIELD_WIDTH b1)).
  assert (32 ≤ promoted (BITFIELD_WIDTH b1)) by apply Z.le_max_l.
  rewrite wrap_testbit, Z.lor_spec, wrap_testbit, Z.shiftl_spec, IH0 by (done || lia).
  destruct (Z.ltb_spec i (BITFIELD_WIDTH b0)); simpl.
  - rewrite (Z.testbit_neg_r _ (i - _)) by lia. rewrite andb_false_r, orb_false_r.
    destruct (Z.ltb_spec i (Raise_to_uint_width (BITFIELD_WIDTH b0 + BITFIELD_WIDTH b1))),
      (Z.ltb_spec i (BITFIELD_WIDTH b0 + BITFIELD_WIDTH b1)); try lia; done.
  - rewrite IH1 by (done || lia).
    destruct (Z.ltb_spec i (Raise_to_uint_width (BITFIELD_WIDTH b0 + BITFIELD_WIDTH b1))),
      (Z.ltb_spec i (BITFIELD_WIDTH b0 + BITFIELD_WIDTH b1)),
      (Z.ltb_spec (i - BITFIELD_WIDTH b0) (BITFIELD_WIDTH b1)),
      (Z.ltb_spec i (promoted (BITFIELD_WIDTH b1))); try lia; done.
Qed.

Lemma set_clear_spec A b reg :
  bitset_ok A b → in_range A reg →
  in_range A (set_clear A b reg) ∧
  ∀ i, 0 ≤ i → covers_set b i = false → Z.testbit (set_clear A b reg) i = Z.testbit reg i.
Proof.
  revert reg. induction b as [f|b0 IH0 b1 IH1]; intros reg; simpl.
  - intros Hf Hr. split; [by apply clear_range|]. intros i Hi Hc. by rewrite clear_bit, Hc by done.
  - intros (H0&H1&_&_) Hr. destruct (IH0 reg H0 Hr) as [Hr0 Hb0]. destruct (IH1 _ H1 Hr0) as [Hr1 Hb1].
    split; [done|]. intros i Hi [? ?]%orb_false_iff. by rewrite Hb1, Hb0.
Qed.

Lemma set_set_bit A b reg v :
  bitset_ok A b → in_range A reg →
  in_range A (set_set A b reg v) ∧
  (∀ i, 0 ≤ i < BITFIELD_WIDTH b → Z.testbit (set_set A b reg v) (position b i) = Z.testbit v i) ∧
  ∀ i, 0 ≤ i → covers_set b i = false → Z.testbit (set_set A b reg v) i = Z.testbit reg i.
Proof.
  revert reg v. induction b as [f|b0 IH0 b1 IH1]; intros reg v; simpl.
  - intros Hf Hr. pose proof Hf as (?&?&?&?). split_and!; [by apply set_range|..].
    + intros i Hi. rewrite set_bit by (done || lia). unfold covers.
      destruct (Z.leb_spec (SHIFT f) (SHIFT f + i)), (Z.ltb_spec (SHIFT f + i) (SHIFT f + WIDTH f)); try lia.
      simpl. f_equal. lia.
    + intros i Hi Hc. by rewrite set_bit, Hc by done.
  - intros (H0&H1&Hw&Hd) Hr. pose proof (bitset_width _ _ H0). pose proof (bitset_width _ _ H1).
    destruct (set_clear_spec A b0 reg H0 Hr) as [Hr0 Hb0].
    destruct (set_clear_spec A b1 _ H1 Hr0) as [Hr1 Hb1].
    destruct (IH0 _ v H0 Hr1) as (Hs0 & Hv0 & Ho0).
    destruct (IH1 _ (Z.shiftr v (BITFIELD_WIDTH b0)) H1 Hs0) as (Hs1 & Hv1 & Ho1).
    split_and!; [done|..].
    + intros i Hi. destruct (Z.ltb_spec i (BITFIELD_WIDTH b0)).
      * destruct (position_covered A b0 i H0) as [Hp Hc]; [lia|].
        rewrite Ho1 by (done || by apply Hd). apply Hv0. lia.
      * rewrite Hv1 by lia. rewrite Z.shiftr_spec by lia. f_equal. lia.
    + intros i Hi [Hc0 Hc1]%orb_false_iff. by rewrite Ho1, Ho0, Hb1, Hb0.
Qed.

(** The value of a set of fields survives the way through the register: reading a
    bit set after writing it gives the value, truncated to the width of the set,
    and no register bit outside of its fields changes. *)
Theorem bitset_get_set A b reg v :
  bitset_ok A b → in_range A reg → 0 ≤ v →
  set_get A b (set_set A b reg v) = v mod 2 ^ BITFIELD_WIDTH b ∧
  ∀ i, 0 ≤ i → covers_set b i = false → Z.testbit (set_set A b reg v) i = Z.testbit reg i.
Proof.
  intros Hb Hr Hv. pose proof (bitset_width _ _ Hb).
  destruct (set_set_bit A b reg v Hb Hr) as (_ & Hp & Ho). split; [|done].
  apply Z.bits_inj'. intros i Hi. rewrite set_get_bit by done.
  destruct (Z.ltb_spec i (BITFIELD_WIDTH b)); simpl.
  - by rewrite Z.mod_pow2_bits_low, Hp by lia.
  - by rewrite Z.mod_pow2_bits_high by lia.
Qed.

(** The memory type of a 4 KiB page on x86: Pwt, Pcd and Pat. *)
Definition demo_mt : bitset :=
  Bitset_3 (Field (Bitfield 3 1)) (Field (Bitfield 4 1)) (Field (Bitfield 7 1)).

Lemma bitset_get_set_witness :
  set_get 64 demo_mt (set_set 64 demo_mt 103 13) = 5.
Proof.
  destruct (bitset_get_set 64 demo_mt 103 13) as [-> _].
  - unfold demo_mt, Bitset_3; simpl. unfold field_ok, covers, promoted; simpl.
    split_and!; try lia; intros i; rewrite ?orb_true_iff, !andb_true_iff, andb_false_iff; lia.
  - unfold in_range; lia.
  - lia.
  - vm_compute. reflexivity.
Defined.

(** the upper part of a set is shifted in the type of that part: two fields of 24
    bits do not give back a value of 41 bits. *)
Theorem bitset_get_truncates :
  let b := Bitset_2 (Field (Bitfield 0 24)) (Field (Bitfield 24 24)) in
  BITFIELD_WIDTH b = 48 ∧ set_set 64 b 0 (2 ^ 40) = 2 ^ 40 ∧ set_get 64 b (set_set 64 b 0 (2 ^ 40)) = 0.
Proof. vm_compute. auto. Qed.
