(* ===== verification/Page_table_allocator.v ===== *)
(** * Page_table_allocator: the pool of page tables

    Model of [src/repos/base-hw/src/include/hw/page_table_allocator.h]: an array of
    [COUNT] tables at a virtual and a physical base address, and a [Bit_allocator]
    that says which tables are in use.  The class [Table_pool] is the interface the
    page tables use (the abstract base class of the code) and [Pool_laws] what they
    rely on; the implementation on top of [Bit_allocator] discharges the laws. *)

From S2P Require Import Prelude.
From S2P Require Bit_array.
From S2P Require Bit_allocator.

Open Scope Z_scope.
Open Scope word_scope.

(** ** The interface *)

Inductive error := Out_of_tables | Alloc (e : Bit_allocator.error).

(** A table is identified by its virtual address. *)
Class Table_pool (P : Type) := {
  pool_construct : exc P error Z;
  pool_destruct (table : Z) : exc P error unit;
  pool_phys (p : P) (table : Z) : Z;
  pool_virt (p : P) (pa : Z) : Z }.

(** [live p] are the tables in use and [arena p] all tables of the pool.  The physical
    addresses of tables are aligned to [ALIGN] and lie below [PHYS_END]. *)
Class Pool_laws (ALIGN PHYS_END : Z) (P : Type) `{Table_pool P} := {
  pool_ok : P → Prop;
  live : P → gset Z;
  arena : P → gset Z;
  same_base (p p' : P) : Prop := arena p' = arena p ∧ pool_virt p' = pool_virt p ∧ pool_phys p' = pool_phys p;
  live_arena p : pool_ok p → live p ⊆ arena p;
  construct_law p : pool_ok p →
    match pool_construct p with
    | (Ok t, p') => pool_ok p' ∧ same_base p p' ∧ t ∈ arena p ∧ t ∉ live p ∧ live p' = {[t]} ∪ live p
    | (Err e, p') => e = Out_of_tables ∧ pool_ok p' ∧ same_base p p' ∧ live p' = live p
    end;
  destruct_law p t : pool_ok p → t ∈ live p →
    ∃ p', pool_destruct t p = (Ok tt, p') ∧ pool_ok p' ∧ same_base p p' ∧ live p' = live p ∖ {[t]};
  phys_law p t : pool_ok p → t ∈ arena p →
    pool_virt p (pool_phys p t) = t ∧ (ALIGN | pool_phys p t) ∧ 0 ≤ pool_phys p t < PHYS_END }.

(** ** The array of tables *)

Record t := Mk { _virt_addr : Z; _phys_addr : Z; _free_tables : Bit_allocator.t }.

Section Array.
Context (TABLE_SIZE COUNT : Z).

Definition _offset (table : Z) (p : t) : Z := table -64 _virt_addr p.

Definition _index (idx : Z) (p : t) : Z := _virt_addr p +64 TABLE_SIZE *64 idx.

Definition on_free_tables {A} (m : exc Bit_allocator.t Bit_allocator.error A) : exc t error A := fun p =>
  match m (_free_tables p) with
  | (Ok x, b) => (Ok x, Mk (_virt_addr p) (_phys_addr p) b)
  | (Err e, b) => (Err (Alloc e), Mk (_virt_addr p) (_phys_addr p) b)
  end.

Definition _alloc : exc t error Z :=
  catch (idx ← on_free_tables (Bit_allocator.alloc 0); mret (u32 idx))
    (fun e => match e with
              | Alloc Bit_allocator.Out_of_indices => throw Out_of_tables
              | e => throw e
              end).

Definition _free (idx : Z) : exc t error unit := on_free_tables (Bit_allocator.free idx 0).

Definition phys_addr (p : t) (table : Z) : Z := _offset table p +64 _phys_addr p.

Definition virt_addr (p : t) (phys_addr : Z) : Z := _virt_addr p +64 (phys_addr -64 _phys_addr p).

Definition construct : exc t error Z :=
  idx ← _alloc; p ← get_state; mret (_index idx p).

Definition destruct (table : Z) : exc t error unit :=
  p ← get_state; _free (u32 (_offset table p / TABLE_SIZE)).

(** The two constructors of [Array::Allocator]; the second takes over the tables of
    an array that was filled before. *)
Definition Allocator (tables phys_addr : Z) : result Bit_allocator.error t :=
  b ← Bit_allocator.Bit_allocator COUNT; mret (Mk tables phys_addr b).

Definition Allocator_copy (phys_addr virt_addr : Z) (other : t) : t :=
  Mk virt_addr phys_addr (Bit_allocator.copy (_free_tables other)).

#[export] Instance array_pool : Table_pool t := {
  pool_construct := construct; pool_destruct := destruct;
  pool_phys := phys_addr; pool_virt := virt_addr }.

(** ** The laws *)

(** The page tables of the architectures ask for tables that are aligned to their size
    and lie in their physical address space. *)
Context (ALIGN PHYS_END : Z).

Definition used (p : t) (i : Z) : bool := Bit_array.bit (Bit_allocator._array (_free_tables p)) i.

(** The array lies within both address spaces and is aligned; the indices behind
    the array are reserved. *)
Record array_ok (p : t) : Prop := {
  ok_alloc : Bit_allocator.wf (_free_tables p);
  ok_count : COUNT ≤ Bit_allocator.cnt (_free_tables p);
  ok_reserved i : COUNT ≤ i < Bit_allocator.cnt (_free_tables p) → used p i = true;
  ok_virt : 0 ≤ _virt_addr p ∧ _virt_addr p + TABLE_SIZE * COUNT ≤ 2 ^ 64;
  ok_phys : 0 ≤ _phys_addr p ∧ _phys_addr p + TABLE_SIZE * COUNT ≤ PHYS_END;
  ok_aligned : (ALIGN | _phys_addr p) }.

Definition array_live (p : t) : gset Z :=
  list_to_set ((λ i, _index i p) <$> filter (λ i, used p i = true) (seqZ 0 COUNT)).
Definition array_arena (p : t) : gset Z := list_to_set ((λ i, _index i p) <$> seqZ 0 COUNT).

Hypothesis Hsize : 0 < TABLE_SIZE ∧ (ALIGN | TABLE_SIZE).
Hypothesis Hend : PHYS_END ≤ 2 ^ 64.
Hypothesis Hcount : 0 < COUNT < 2 ^ 31.

Lemma index_value p i : array_ok p → 0 ≤ i < COUNT → _index i p = _virt_addr p + TABLE_SIZE * i.
Proof.
  intros [] Hi. unfold _index. assert (TABLE_SIZE * i < TABLE_SIZE * COUNT) by nia.
  rewrite (wrap_small 64 (TABLE_SIZE * i)) by (unfold in_range; nia).
  apply wrap_small. unfold in_range. nia.
Qed.

Lemma elem_live p a : array_ok p →
  a ∈ array_live p ↔ ∃ i, 0 ≤ i < COUNT ∧ used p i = true ∧ a = _virt_addr p + TABLE_SIZE * i.
Proof.
  intros Hp. unfold array_live. rewrite elem_of_list_to_set, list_elem_of_fmap.
  split.
  - intros (i & -> & [Hu Hi%elem_of_seqZ]%list_elem_of_filter). exists i.
    rewrite index_value by (done || lia). split_and!; [lia..|done|done].
  - intros (i & Hi & Hu & ->). exists i. rewrite index_value by done. split; [done|].
    apply list_elem_of_filter. split; [done|]. apply elem_of_seqZ. lia.
Qed.

Lemma elem_arena p a : array_ok p →
  a ∈ array_arena p ↔ ∃ i, 0 ≤ i < COUNT ∧ a = _virt_addr p + TABLE_SIZE * i.
Proof.
  intros Hp. unfold array_arena. rewrite elem_of_list_to_set, list_elem_of_fmap.
  split.
  - intros (i & -> & Hi%elem_of_seqZ). exists i. rewrite index_value by (done || lia).
    split; [lia|done].
  - intros (i & Hi & ->). exists i. rewrite index_value by done. split; [done|].
    apply elem_of_seqZ. lia.
Qed.

(** A new state of the index allocator. *)
Lemma array_ok_change p b :
  array_ok p → Bit_allocator.wf b → Bit_allocator.cnt b = Bit_allocator.cnt (_free_tables p) →
  (∀ i, COUNT ≤ i < Bit_allocator.cnt b →
     Bit_array.bit (Bit_allocator._array b) i = used p i) →
  array_ok (Mk (_virt_addr p) (_phys_addr p) b).
Proof.
  intros [] Hb Hc Hr. constructor; simpl; try done; [lia|].
  intros i Hi. unfold used; simpl. rewrite Hr by done. apply ok_reserved0. lia.
Qed.

Lemma index_inj i j : TABLE_SIZE * i = TABLE_SIZE * j → i = j.
Proof. nia. Qed.

Lemma live_arena_law p : array_ok p → array_live p ⊆ array_arena p.
Proof.
  intros Hp a. rewrite elem_live, elem_arena by done. intros (i & ? & _ & ->). by exists i.
Qed.

Lemma arena_change p b :
  array_arena (Mk (_virt_addr p) (_phys_addr p) b) = array_arena p.
Proof. done. Qed.

(** The live tables after the use of one index changed. *)
Lemma live_change p b i v :
  array_ok p → array_ok (Mk (_virt_addr p) (_phys_addr p) b) → 0 ≤ i < COUNT →
  Bit_allocator.block_set (_free_tables p) b i (2 ^ 0) v →
  ∀ a, a ∈ array_live (Mk (_virt_addr p) (_phys_addr p) b) ↔
    if v then a = _virt_addr p + TABLE_SIZE * i ∨ a ∈ array_live p
    else a ≠ _virt_addr p + TABLE_SIZE * i ∧ a ∈ array_live p.
Proof.
  intros Hp Hp' Hi Hbs a.
  assert (∀ j, 0 ≤ j → used (Mk (_virt_addr p) (_phys_addr p) b) j =
    if decide (j = i) then v else used p j) as Hu.
  { intros j Hj. unfold used; simpl. rewrite (Hbs j Hj). change (2 ^ 0) with 1.
    case_decide; case_bool_decide; try done; lia. }
  destruct v; rewrite !elem_live by done; simpl; split.
  - intros (j & Hj & Hu' & ->). rewrite Hu in Hu' by lia. case_decide as E; [left; by rewrite E|right; eauto].
  - intros [->|(j & Hj & Hu' & ->)].
    + exists i. rewrite Hu, decide_True by (done || lia). done.
    + exists j. rewrite Hu by lia. split_and!; [lia..|by case_decide|done].
  - intros (j & Hj & Hu' & ->). rewrite Hu in Hu' by lia. case_decide as E; [done|].
    split; [|eauto]. intros H. apply E, index_inj. lia.
  - intros [Hne (j & Hj & Hu' & ->)]. exists j. rewrite Hu by lia.
    rewrite decide_False; [split_and!; first [lia|done]|]. intros ->. done.
Qed.

Lemma construct_spec p : array_ok p →
  match construct p with
  | (Ok a, p') => array_ok p' ∧ array_arena p' = array_arena p ∧ virt_addr p' = virt_addr p ∧
      phys_addr p' = phys_addr p ∧ a ∈ array_arena p ∧ a ∉ array_live p ∧
      array_live p' = {[a]} ∪ array_live p
  | (Err e, p') => e = Out_of_tables ∧ array_ok p' ∧ array_arena p' = array_arena p ∧
      virt_addr p' = virt_addr p ∧ phys_addr p' = phys_addr p ∧ array_live p' = array_live p
  end.
Proof.
  intros Hp. pose proof Hp as [].
  pose proof (Bit_allocator.alloc_spec (_free_tables p) 0 ok_alloc0) as Ha.
  unfold construct, _alloc, mbind, exc_bind, catch, on_free_tables.
  destruct (Bit_allocator.alloc 0 (_free_tables p)) as [[i|e] b]; specialize (Ha ltac:(lia)); simpl in *.
  - destruct Ha as (_ & [(Hi & _ & Hin) Hfree] & Hwf & Hbs & Hc & _). unfold Bit_allocator.cnt in *.
    assert (i < COUNT) as HiC.
    { destruct (decide (i < COUNT)) as [|Hn]; [done|]. exfalso.
      pose proof (ok_reserved0 i) as Hr. unfold used in Hr.
      rewrite Hfree in Hr by (change (2 ^ 0) with 1; lia). by discriminate Hr; lia. }
    rewrite wrap_small by word_lia.
    assert (array_ok (Mk (_virt_addr p) (_phys_addr p) b)) as Hp'.
    { apply array_ok_change; [done..|]. intros j Hj. unfold Bit_allocator.cnt in *. rewrite Hbs by lia.
      change (2 ^ 0) with 1. case_bool_decide; [lia|done]. }
    rewrite index_value by (done || lia). simpl. split_and!; try done.
    + apply elem_arena; [done|]. exists i. split; [lia|done].
    + rewrite elem_live by done. intros (j & Hj & Hu & E). assert (i = j) as -> by (apply index_inj; lia).
      unfold used in Hu. rewrite Hfree in Hu; [done|]. change (2 ^ 0) with 1. lia.
    + apply set_eq. intros a. rewrite (live_change p b i true) by (done || lia). set_solver.
  - destruct Ha as (-> & -> & _).
    assert (array_ok (Mk (_virt_addr p) (_phys_addr p) (Bit_allocator.Mk 0 (Bit_allocator._array (_free_tables p)))))
      by (apply array_ok_change; [done|by apply Bit_allocator.rewound_wf|done..]).
    by split_and!.
Qed.

(** [construct] fails only when all tables are in use. *)
Lemma construct_full p e p' :
  array_ok p → construct p = (Err e, p') → array_live p = array_arena p.
Proof.
  intros Hp. pose proof Hp as [].
  pose proof (Bit_allocator.alloc_spec (_free_tables p) 0 ok_alloc0) as Ha.
  unfold construct, _alloc, mbind, exc_bind, catch, on_free_tables.
  destruct (Bit_allocator.alloc 0 (_free_tables p)) as [[i|e'] b]; specialize (Ha ltac:(lia)); [done|].
  destruct Ha as (-> & -> & Hn). intros _. apply set_eq. intros a. rewrite elem_live, elem_arena by done.
  split; [intros (i & ? & _ & ->); by exists i|]. intros (i & Hi & ->). exists i.
  split_and!; [lia..| |done]. apply not_false_iff_true. intros Hu. apply (Hn i); [by exists i; lia|].
  unfold Bit_allocator.cnt in *. change (2 ^ 0) with 1.
  split; [unfold Bit_array.within; lia|]. intros j Hj. by replace j with i by lia.
Qed.

Lemma destruct_spec p a : array_ok p → a ∈ array_live p →
  ∃ p', destruct a p = (Ok tt, p') ∧ array_ok p' ∧ array_arena p' = array_arena p ∧
    virt_addr p' = virt_addr p ∧ phys_addr p' = phys_addr p ∧ array_live p' = array_live p ∖ {[a]}.
Proof.
  intros Hp (i & Hi & Hu & ->)%elem_live; [|done]. pose proof Hp as [].
  unfold destruct, mbind, exc_bind, get_state, _free, on_free_tables, _offset.
  assert (TABLE_SIZE * i < TABLE_SIZE * COUNT) by nia.
  rewrite (wrap_small 64) by (unfold in_range; nia).
  replace (_virt_addr p + TABLE_SIZE * i - _virt_addr p) with (i * TABLE_SIZE) by lia.
  rewrite Z.div_mul, wrap_small by word_lia.
  destruct (Bit_allocator.free_spec (_free_tables p) i 0) as (b & -> & Hwf & Hbs & Hc & _); [done|..].
  - unfold Bit_array.within, Bit_allocator.cnt in *. change (2 ^ 0) with 1. lia.
  - intros j Hj. change (2 ^ 0) with 1 in Hj. assert (j = i) as -> by lia. done.
  - lia.
  - eexists. split; [done|].
    assert (array_ok (Mk (_virt_addr p) (_phys_addr p) b)) as Hp'.
    { apply array_ok_change; [done..|]. intros j Hj. rewrite Hbs by lia.
      change (2 ^ 0) with 1. case_bool_decide; [lia|done]. }
    split_and!; try done. apply set_eq. intros x. rewrite (live_change p b i false) by done. set_solver.
Qed.

Lemma phys_spec p a : array_ok p → a ∈ array_arena p →
  virt_addr p (phys_addr p a) = a ∧ (ALIGN | phys_addr p a) ∧ 0 ≤ phys_addr p a < PHYS_END.
Proof.
  intros Hp (i & Hi & ->)%elem_arena; [|done]. destruct Hp.
  assert (TABLE_SIZE * i < TABLE_SIZE * COUNT) by nia. assert (0 ≤ TABLE_SIZE * i) by nia.
  unfold phys_addr, virt_addr, _offset.
  replace (_virt_addr p + TABLE_SIZE * i - _virt_addr p) with (TABLE_SIZE * i) by lia.
  rewrite (wrap_small 64 (TABLE_SIZE * i)) by word_lia.
  rewrite (wrap_small 64 (TABLE_SIZE * i + _phys_addr p)) by word_lia. split_and!; [|..|lia|lia].
  - replace (TABLE_SIZE * i + _phys_addr p - _phys_addr p) with (TABLE_SIZE * i) by lia.
    rewrite (wrap_small 64 (TABLE_SIZE * i)) by word_lia. apply wrap_small. word_lia.
  - apply Z.divide_add_r; [|done]. apply Z.divide_mul_l, Hsize.
Qed.

#[export] Instance array_pool_laws : Pool_laws ALIGN PHYS_END t (H := array_pool).
Proof.
  refine (Build_Pool_laws ALIGN PHYS_END t array_pool array_ok array_live array_arena _ _ _ _).
  - apply live_arena_law.
  - intros p Hp. pose proof (construct_spec p Hp) as H. simpl.
    destruct (construct p) as [[a|e] p']; naive_solver.
  - intros p a Hp Ha. destruct (destruct_spec p a Hp Ha) as (p' & ? & ? & ? & ? & ? & ?).
    exists p'. by split_and!.
  - apply phys_spec.
Defined.

End Array.

(** ** Promises of the array of tables *)

(** the pool never hands out a table twice, and never runs dry early: [construct]
    returns a table of the array that is not in use, or throws [Out_of_tables], the
    only exception, when all [COUNT] tables are in use; the physical address of a
    table leads back to it; and [destruct] makes exactly that table available again. *)
Theorem table_pool_spec TABLE_SIZE COUNT ALIGN PHYS_END p :
  0 < TABLE_SIZE ∧ (ALIGN | TABLE_SIZE) → PHYS_END ≤ 2 ^ 64 → 0 < COUNT < 2 ^ 31 → array_ok TABLE_SIZE COUNT ALIGN PHYS_END p →
  match construct TABLE_SIZE p with
  | (Ok a, p') =>
      array_ok TABLE_SIZE COUNT ALIGN PHYS_END p' ∧ a ∈ array_arena TABLE_SIZE COUNT p ∧
      a ∉ array_live TABLE_SIZE COUNT p ∧ virt_addr p' (phys_addr p' a) = a ∧
      array_live TABLE_SIZE COUNT p' = {[a]} ∪ array_live TABLE_SIZE COUNT p ∧
      ∃ p'', destruct TABLE_SIZE a p' = (Ok tt, p'') ∧
        array_live TABLE_SIZE COUNT p'' = array_live TABLE_SIZE COUNT p
  | (Err e, _) => e = Out_of_tables ∧ array_live TABLE_SIZE COUNT p = array_arena TABLE_SIZE COUNT p
  end.
Proof.
  intros Hs He Hc Hp. pose proof (construct_spec _ _ _ _ Hs He Hc p Hp) as H.
  pose proof (λ e p', construct_full TABLE_SIZE COUNT _ _ Hs He Hc p e p' Hp) as Hf.
  destruct (construct TABLE_SIZE p) as [[a|e] p'].
  - destruct H as (Hp' & Ha & _ & _ & Hin & Hnin & Hl). rewrite <- Ha in Hin.
    destruct (phys_spec _ _ _ _ Hs He Hc p' a Hp' Hin) as (Hv & _). rewrite Ha in Hin.
    assert (a ∈ array_live TABLE_SIZE COUNT p') as Hlive by (rewrite Hl; set_solver).
    destruct (destruct_spec _ _ _ _ Hs He Hc p' a Hp' Hlive) as (p'' & Hd & _ & _ & _ & _ & Hl').
    split_and!; try done. exists p''. split; [done|]. rewrite Hl', Hl. set_solver.
  - destruct H as (-> & _). split; [done|]. by eapply Hf.
Qed.

(** Four tables at the addresses 0x200000 and 0x80000. *)
Definition demo_pool : t :=
  match Allocator 4 0x200000 0x80000 with Ok p => p | Err _ => Mk 0 0 Bit_allocator.demo_init end.

Lemma demo_pool_ok : array_ok 4096 4 4096 (2 ^ 48) demo_pool.
Proof.
  assert (Bit_allocator.inv 4 (_free_tables demo_pool) ∅) as [].
  { apply Bit_allocator.init_inv; [lia|]. vm_compute. reflexivity. }
  constructor; [done|done| | | |].
  - intros i Hi. unfold used. apply inv_used; [lia|]. right; lia.
  - vm_compute. split; discriminate.
  - vm_compute. split; discriminate.
  - exists 128. reflexivity.
Qed.

Lemma table_pool_spec_witness :
  array_live 4096 4 (construct 4096 demo_pool).2 = {[0x200000]} ∪ array_live 4096 4 demo_pool.
Proof.
  assert (0 < 4096 ∧ (4096 | 4096)) as H1 by (split; [lia|exists 1; reflexivity]).
  assert (0 < 4 < 2 ^ 31) as H2 by lia.
  pose proof (table_pool_spec 4096 4 4096 (2 ^ 48) demo_pool H1 ltac:(lia) H2 demo_pool_ok) as H.
  assert ((construct 4096 demo_pool).1 = Ok 0x200000) as E by (vm_compute; reflexivity).
  destruct (construct 4096 demo_pool) as [r p']. simpl in E. rewrite E in H. apply H.
Defined.

#[export] Instance demo_pool_laws : Pool_laws 4096 (2 ^ 48) t (H := array_pool 4096) :=
  array_pool_laws 4096 4 4096 (2 ^ 48) ltac:(split; [lia|by exists 1]) ltac:(lia) ltac:(lia).
