(* ===== verification/Page_table.v ===== *)
(** * Page_table: multi-level translation tables, independent of the format

    What the page tables of the base-hw architectures have in common: tables of
    64-bit descriptors that map blocks or refer to tables of the next level, filled
    and cleared by a range operation that applies a functor to each entry a range
    touches.  A [Format] gives the descriptor encodings of one architecture; the
    architecture files define the functors as their code has them.

    The tables live in a store by virtual address; the pool of page tables is used
    through the interface [Table_pool].  [walk] is what the memory-management unit
    makes of the tables; it is the specification the operations are proved
    against. *)

From S2P Require Import Prelude.
From S2P Require Import Page_table_allocator.

Open Scope Z_scope.
Open Scope word_scope.

(** ** Page flags ([hw/page_flags.h], [base/cache.h]) *)

Inductive Type_ := RAM | DEVICE.
Inductive Cache := UNCACHED | WRITE_COMBINED | CACHED.

Record Page_flags := Flags {
  writeable : bool; executable : bool; privileged : bool; global : bool;
  type : Type_; cacheable : Cache }.

(** The access rights the hardware derives from a descriptor. *)
Record rights := Rights { r_write : bool; r_exec : bool; r_user : bool; r_global : bool }.

Definition rights_of_flags (f : Page_flags) : rights :=
  Rights (writeable f) (executable f) (negb (privileged f)) (global f).

(** ** Errors *)

Inductive error :=
  | Invalid_range | Double_insertion | Pool (e : Page_table_allocator.error)
  | Assertion | Wild_access | Out_of_fuel.

(** ** Formats *)

Inductive kind := INVALID | TABLE | BLOCK.

#[export] Instance kind_eq_dec : EqDecision kind.
Proof. solve_decision. Defined.

(** Level 0 is the last level.  An entry of level [l] stands for [2 ^ block_log2 l]
    bytes, so a table of level [l] has [2 ^ (block_log2 (S l) - block_log2 l)]
    entries. *)
Class Format := {
  block_log2 : nat → Z;
  kind_of : nat → Z → kind;
  next_table : nat → Z → Z;
  block_pa : nat → Z → Z;
  block_rights : nat → Z → rights }.

(** The encodings an architecture writes: blocks, references to tables, the value an
    existing descriptor is compared with, the rights it grants for flags, whether entries of a
    level may be blocks at all, how the code refuses to override a mapping, what removal makes
    of a descriptor and whether it also does so with an entry that is not valid, and the
    index computation of the range operation. *)
Class Encoding `{Format} := {
  flags_rights : Page_flags → rights;
  checked : bool;
  block_desc : nat → Page_flags → Z → Z;
  table_desc : nat → Z → Z;
  normal : Z → Z;
  blocks_at : nat → bool;
  conflict : error;
  cleared : nat → Z → Z;
  clears_invalid : nat → bool;
  index : nat → Z → Z }.

(** All tables by virtual address, and the pool. *)
Record state (P : Type) := St { tables : gmap Z (list Z); pool : P }.
Arguments St {P} _ _.
Arguments tables {P} _.
Arguments pool {P} _.

Section Operations.
Context `{F : Format} {P : Type} `{Table_pool P}.

Abbreviation St_ := (state P).

Definition load (t i : Z) : exc St_ error Z := fun s =>
  match tables s !! t ≫= (.!! Z.to_nat i) with
  | Some d => (Ok d, s)
  | None => (Err Wild_access, s)
  end.

Definition store (t i d : Z) : exc St_ error unit := fun s =>
  match tables s !! t with
  | Some es =>
      if bool_decide (Z.to_nat i < length es)%nat
      then (Ok tt, St (<[t := <[Z.to_nat i := d]> es]> (tables s)) (pool s))
      else (Err Wild_access, s)
  | None => (Err Wild_access, s)
  end.

Definition max_entries (l : nat) : Z := 2 ^ (block_log2 (S l) - block_log2 l).

(** [alloc.construct<ENTRY>()]: a table of the pool, cleared by its constructor. *)
Definition construct_table (l : nat) : exc St_ error Z := fun s =>
  match pool_construct (pool s) with
  | (Ok t, p) => (Ok t, St (<[t := replicate (Z.to_nat (max_entries l)) 0]> (tables s)) p)
  | (Err e, p) => (Err (Pool e), St (tables s) p)
  end.

Definition destruct_table (t : Z) : exc St_ error unit := fun s =>
  match pool_destruct t (pool s) with
  | (Ok _, p) => (Ok tt, St (tables s) p)
  | (Err e, p) => (Err (Pool e), St (tables s) p)
  end.

Definition phys_of (t : Z) : exc St_ error Z := fun s => (Ok (pool_phys (pool s) t), s).
Definition virt_of (pa : Z) : exc St_ error Z := fun s => (Ok (pool_virt (pool s) pa), s).

(** The loop of [_range_op], for the index computation of the format.  [vo], [pa] and
    [size] are [addr_t] and [size_t] values; the functor gets the index of the entry
    it works on; [checked] tells whether the code asserts that the entry exists. *)
Definition block_size (l : nat) : Z := 2 ^ block_log2 l.
Definition block_mask (l : nat) : Z := ~64 (block_size l -64 1).

Fixpoint range_loop (fuel : nat) (checked : bool) (l : nat) (index : Z → Z) (vo pa size : Z)
    (func : Z → Z → Z → Z → exc St_ error unit) : exc St_ error unit :=
  match fuel with
  | O => throw Out_of_fuel
  | S fuel =>
      if size =? 0 then mret tt
      else
        let i := index vo in
        if checked && (max_entries l <=? i) then throw Assertion
        else
          let e := Z.land (vo +64 block_size l) (block_mask l) in
          let sz := Z.min size (e -64 vo) in
          _ ← func vo pa sz i;
          if e <? vo then mret tt
          else range_loop fuel checked l index (vo +64 sz) (pa +64 sz) (size -64 sz) func
  end.

(** Enough iterations for every entry the range touches. *)
Definition range_fuel (l : nat) (size : Z) : nat := S (S (S (Z.to_nat (size / block_size l)))).

(** Whether an offset, a physical address and a size make up a block of level [l]. *)
Definition unaligned (l : nat) (vo pa size : Z) : bool :=
  negb (Z.land vo (~64 (block_mask l)) =? 0) || negb (Z.land pa (~64 (block_mask l)) =? 0) ||
  (size <? block_size l).

(** Whether no entry of the table satisfies [present]; the loop of [empty]. *)
Definition table_empty (present : Z → bool) (t : Z) : exc St_ error bool := fun s =>
  match tables s !! t with
  | Some es => (Ok (forallb (λ d, negb (present d)) es), s)
  | None => (Err Wild_access, s)
  end.

(** ** The functors, in the form all architectures share *)

Definition valid (l : nat) (d : Z) : bool := negb (bool_decide (kind_of l d = INVALID)).

Section Functors.
Context `{!Encoding}.

(** The operation on the next level, for an entry that refers to a table. *)
Definition descend (l : nat) (rec : Z → Z → Z → Z → exc St_ error unit) (t vo pa size i : Z) :
    exc St_ error unit :=
  d ← load t i;
  tc ← virt_of (next_table l d);
  rec tc (vo -64 Z.land vo (block_mask l)) pa size.

Definition insert_func (l : nat) (rec : Z → Z → Z → Z → exc St_ error unit) (flags : Page_flags)
    (t vo pa size i : Z) : exc St_ error unit :=
  if blocks_at l && negb (unaligned l vo pa size) then
    let e := block_desc l flags pa in
    d ← load t i;
    if valid l d && negb (normal d =? e) then throw conflict else store t i e
  else
    match l with
    | O => throw Invalid_range
    | S lc =>
        d ← load t i;
        match kind_of l d with
        | BLOCK => throw conflict
        | TABLE => descend l rec t vo pa size i
        | INVALID =>
            tc ← construct_table lc;
            pac ← phys_of tc;
            _ ← store t i (table_desc l pac);
            descend l rec t vo pa size i
        end
    end.

(** Clearing the entry [i] of table [t]. *)
Definition invalidate (l : nat) (t i : Z) : exc St_ error unit := d ← load t i; store t i (cleared l d).

Definition remove_func (l : nat) (rec : Z → Z → Z → exc St_ error unit)
    (t vo pa size i : Z) : exc St_ error unit :=
  d ← load t i;
  match kind_of l d with
  | INVALID => if clears_invalid l then invalidate l t i else mret tt
  | BLOCK => invalidate l t i
  | TABLE =>
      tc ← virt_of (next_table l d);
      _ ← rec tc (vo -64 Z.land vo (block_mask l)) size;
      b ← table_empty (valid (pred l)) tc;
      if (b : bool) then _ ← destruct_table tc; invalidate l t i else mret tt
  end.

Fixpoint insert_translation (l : nat) (flags : Page_flags) (t vo pa size : Z) : exc St_ error unit :=
  range_loop (range_fuel l size) checked l (index l) vo pa size
    (insert_func l (match l with
                    | O => λ _ _ _ _, throw Assertion
                    | S lc => insert_translation lc flags
                    end) flags t).

Fixpoint remove_translation (l : nat) (t vo size : Z) : exc St_ error unit :=
  range_loop (range_fuel l size) checked l (index l) vo 0 size
    (remove_func l (match l with
                    | O => λ _ _ _, throw Assertion
                    | S lc => remove_translation lc
                    end) t).
End Functors.

End Operations.

(** ** Pointwise equal operations *)

Section Extensionality.
Context `{F : Format} {P : Type} `{Table_pool P}.

Lemma bind_ext {A B} (m m' : exc (state P) error A) (k k' : A → exc (state P) error B) s :
  m s = m' s → (∀ a s, k a s = k' a s) → (m ≫= k) s = (m' ≫= k') s.
Proof. intros Hm Hk. unfold mbind, exc_bind. rewrite Hm. destruct (m' s) as [[a|e] s']; auto. Qed.

Lemma range_loop_ext fuel ck l ix vo pa size (g g' : Z → Z → Z → Z → exc (state P) error unit) s :
  (∀ vo pa sz i s, g vo pa sz i s = g' vo pa sz i s) →
  range_loop fuel ck l ix vo pa size g s = range_loop fuel ck l ix vo pa size g' s.
Proof.
  intros Hg. revert vo pa size s. induction fuel as [|fuel IH]; intros vo pa size s; simpl; [done|].
  destruct (size =? 0); [done|]. destruct (ck && _); [done|].
  apply bind_ext; [done|]. intros [] s'. destruct (_ <? vo); [done|apply IH].
Qed.

(** The same for functors that agree on the offsets of the machine. *)
Lemma range_loop_ext_word fuel ck l ix vo pa size (g g' : Z → Z → Z → Z → exc (state P) error unit) s :
  is_u64 vo → (∀ vo pa sz i s, is_u64 vo → g vo pa sz i s = g' vo pa sz i s) →
  range_loop fuel ck l ix vo pa size g s = range_loop fuel ck l ix vo pa size g' s.
Proof.
  intros Hvo Hg. revert vo pa size s Hvo. induction fuel as [|fuel IH]; intros vo pa size s Hvo; simpl; [done|].
  destruct (size =? 0); [done|]. destruct (ck && _); [done|].
  apply bind_ext; [by apply Hg|]. intros [] s'. destruct (_ <? vo); [done|]. by apply IH, wrap_range.
Qed.

Lemma bind_assoc {A B C} (m : exc (state P) error A) (f : A → exc (state P) error B)
    (g : B → exc (state P) error C) s :
  ((m ≫= f) ≫= g) s = (m ≫= λ a, f a ≫= g) s.
Proof. unfold mbind, exc_bind. by destruct (m s) as [[a|e] s']. Qed.

Lemma ret_bind {A B} (a : A) (f : A → exc (state P) error B) s : (mret a ≫= f) s = f a s.
Proof. done. Qed.

Lemma throw_bind {A B} e (f : A → exc (state P) error B) s : (throw e ≫= f) s = throw e s.
Proof. done. Qed.

(** A store accesses the same entry as a load. *)
Lemma load_then_store t i d (s : state P) : (load t i ≫= λ _, store t i d) s = store t i d s.
Proof.
  unfold mbind, exc_bind, load, store. destruct (tables s !! t) as [es|] eqn:Ht; simpl; [|done].
  destruct (es !! Z.to_nat i) eqn:Hi; simpl; [by rewrite Ht|].
  apply lookup_ge_None in Hi. by rewrite bool_decide_false by lia.
Qed.

(** A format that clears an entry by overwriting it. *)
Lemma invalidate_store `{!Encoding} l t i d (s : state P) :
  (∀ d', cleared l d' = d) → invalidate l t i s = store t i d s.
Proof. intros Hc. rewrite <- load_then_store. apply bind_ext; [done|]. intros d' s'. by rewrite Hc. Qed.

(** The removal of such a format. *)
Lemma remove_func_overwrites `{!Encoding} l (rec : Z → Z → Z → exc (state P) error unit) t vo pa size i s :
  (∀ d, cleared l d = 0) →
  remove_func l rec t vo pa size i s =
  (d ← load t i;
   match kind_of l d with
   | INVALID => if clears_invalid l then store t i 0 else mret tt
   | BLOCK => store t i 0
   | TABLE =>
       tc ← virt_of (next_table l d);
       _ ← rec tc (vo -64 Z.land vo (block_mask l)) size;
       b ← table_empty (valid (pred l)) tc;
       if (b : bool) then _ ← destruct_table tc; store t i 0 else mret tt
   end) s.
Proof.
  intros Hc. assert (∀ s, invalidate l t i s = store t i 0 s) as Hi by (intros s'; by apply invalidate_store).
  unfold remove_func. apply bind_ext; [done|]. intros d s1. destruct (kind_of l d); [by destruct (clears_invalid l)| |done].
  apply bind_ext; [done|]. intros tc s2. apply bind_ext; [done|]. intros _ s3. apply bind_ext; [done|].
  intros [] s4; [|done]. by apply bind_ext.
Qed.

(** The equations of the translations, per level. *)
Lemma insert_translation_eq `{!Encoding} l fl t vo pa size s :
  insert_translation (P := P) l fl t vo pa size s =
  range_loop (range_fuel l size) checked l (index l) vo pa size
    (insert_func l (match l with O => λ _ _ _ _, throw Assertion | S lc => insert_translation lc fl end) fl t) s.
Proof. by destruct l. Qed.

Lemma remove_translation_eq `{!Encoding} l t vo size s :
  remove_translation (P := P) l t vo size s =
  range_loop (range_fuel l size) checked l (index l) vo 0 size
    (remove_func l (match l with O => λ _ _ _, throw Assertion | S lc => remove_translation lc end) t) s.
Proof. by destruct l. Qed.

End Extensionality.

(** ** What the hardware makes of the tables *)

Section Walk.
Context `{F : Format}.

(** A translation: the physical address, the rights and the level of the block. *)
Definition translation : Type := Z * rights * nat.

Definition idx (l : nat) (vo : Z) : nat := Z.to_nat (vo / 2 ^ block_log2 l).

Definition entry_walk (l : nat) (sub : Z → Z → option translation) (virt : Z → Z) (d off : Z) :
    option translation :=
  match kind_of l d with
  | INVALID => None
  | BLOCK => Some (block_pa l d + off, block_rights l d, l)
  | TABLE => sub (virt (next_table l d)) off
  end.

(** The walk from table [t] of level [l] for an offset within the range of the table;
    [virt] leads from the physical address of a table to its store address. *)
Fixpoint walk (l : nat) (m : gmap Z (list Z)) (virt : Z → Z) (t vo : Z) : option translation :=
  match m !! t ≫= (.!! idx l vo) with
  | None => None
  | Some d =>
      entry_walk l (match l with O => λ _ _, None | S l' => walk l' m virt end)
        virt d (vo mod 2 ^ block_log2 l)
  end.

(** ** Trees of tables *)

(** Table [t] of a level and the footprints [C i] of its entries: the tables below
    entry [i], none for an entry that does not refer to one.  [sub] is the tree
    predicate of the next level. *)
Record node (l : nat) (sub : Z → gset Z → Prop) (m : gmap Z (list Z)) (virt : Z → Z) (t : Z)
    (D : gset Z) (es : list Z) (C : nat → gset Z) : Prop := {
  node_entries : m !! t = Some es;
  node_length : length es = Z.to_nat (max_entries l);
  node_child i d : es !! i = Some d →
    match kind_of l d with TABLE => sub (virt (next_table l d)) (C i) | _ => C i = ∅ end;
  node_none i : (length es ≤ i)%nat → C i = ∅;
  node_disjoint i j : i ≠ j → C i ## C j;
  node_root i : t ∉ C i;
  node_footprint x : x ∈ D ↔ x = t ∨ ∃ i, x ∈ C i }.

(** The tables [D] form a tree below [t]: no table is reachable in two ways. *)
Fixpoint tree (l : nat) (m : gmap Z (list Z)) (virt : Z → Z) (t : Z) (D : gset Z) : Prop :=
  ∃ es C, node l (match l with O => λ _ _, False | S l' => tree l' m virt end) m virt t D es C.

Definition sub_walk (l : nat) (m : gmap Z (list Z)) (virt : Z → Z) : Z → Z → option translation :=
  match l with O => λ _ _, None | S l' => walk l' m virt end.
Definition sub_tree (l : nat) (m : gmap Z (list Z)) (virt : Z → Z) : Z → gset Z → Prop :=
  match l with O => λ _ _, False | S l' => tree l' m virt end.

Lemma walk_unfold l m virt t vo :
  walk l m virt t vo =
  match m !! t ≫= (.!! idx l vo) with
  | None => None
  | Some d => entry_walk l (sub_walk l m virt) virt d (vo mod 2 ^ block_log2 l)
  end.
Proof. by destruct l. Qed.

Lemma tree_unfold l m virt t D :
  tree l m virt t D ↔ ∃ es C, node l (sub_tree l m virt) m virt t D es C.
Proof. by destruct l. Qed.

(** A tree and its walks only depend on the tables of its footprint. *)
Lemma tree_frame l m m' virt t D :
  tree l m virt t D → (∀ x, x ∈ D → m' !! x = m !! x) →
  tree l m' virt t D ∧ ∀ vo, walk l m' virt t vo = walk l m virt t vo.
Proof.
  revert t D. induction l as [|l IH]; intros t D Ht Hm;
    apply tree_unfold in Ht as (es & C & [He Hlen Hch Hno Hdj Hrt Hfp]);
    assert (m' !! t = Some es) as He' by (rewrite Hm; [done|apply Hfp; by left]).
  - split.
    + apply tree_unfold. exists es, C. by constructor.
    + intros vo. rewrite !walk_unfold, He, He'. done.
  - assert (∀ i d, es !! i = Some d → kind_of (S l) d = TABLE →
      tree l m' virt (virt (next_table (S l) d)) (C i) ∧
      ∀ vo, walk l m' virt (virt (next_table (S l) d)) vo = walk l m virt (virt (next_table (S l) d)) vo) as Hsub.
    { intros i d Hi Hk. specialize (Hch i d Hi). rewrite Hk in Hch. apply IH; [done|].
      intros x Hx. apply Hm, Hfp. right. by exists i. }
    split.
    + apply tree_unfold. exists es, C. constructor; try done. intros i d Hi.
      specialize (Hch i d Hi). specialize (Hsub i d Hi). simpl in *.
      destruct (kind_of (S l) d); try done. by apply Hsub.
    + intros vo. rewrite !walk_unfold, He, He'. simpl. destruct (es !! idx (S l) vo) as [d|] eqn:Hi; [|done].
      specialize (Hsub _ d Hi). unfold entry_walk; simpl.
      destruct (kind_of (S l) d); try done. by apply Hsub.
Qed.

(** Replacing one entry, and with it the tables below it. *)
Lemma entry_update l m m' virt t D es C i d' Ci :
  node l (sub_tree l m virt) m virt t D es C → (i < length es)%nat →
  m' !! t = Some (<[i := d']> es) →
  (∀ x, x ∈ D → x ≠ t → x ∉ C i → m' !! x = m !! x) →
  match kind_of l d' with TABLE => sub_tree l m' virt (virt (next_table l d')) Ci | _ => Ci = ∅ end →
  (∀ x, x ∈ Ci → x ∉ D ∨ x ∈ C i) →
  node l (sub_tree l m' virt) m' virt t ((D ∖ C i) ∪ Ci) (<[i := d']> es)
    (λ j, if decide (j = i) then Ci else C j) ∧
  (∀ vo, walk l m' virt t vo =
    if decide (idx l vo = i)
    then entry_walk l (sub_walk l m' virt) virt d' (vo mod 2 ^ block_log2 l)
    else walk l m virt t vo).
Proof.
  intros [He Hlen Hch Hno Hdj Hrt Hfp] Hi He' Hsame Hd' HCi.
  assert (∀ j x, j ≠ i → x ∈ C j → m' !! x = m !! x) as Hframe.
  { intros j x Hj Hx. apply Hsame; [apply Hfp; right; by exists j|intros ->; by eapply Hrt|].
    intros Hx'. by apply (Hdj j i Hj x). }
  assert (∀ j d, j ≠ i → es !! j = Some d → kind_of l d = TABLE →
    sub_tree l m' virt (virt (next_table l d)) (C j) ∧
    ∀ vo, sub_walk l m' virt (virt (next_table l d)) vo = sub_walk l m virt (virt (next_table l d)) vo) as Hsub.
  { intros j d Hj Hjd Hk. specialize (Hch j d Hjd). rewrite Hk in Hch.
    destruct l as [|l]; [done|]. simpl in *. apply tree_frame with (m := m); [done|].
    intros x Hx. by apply (Hframe j). }
  split.
  - constructor.
    + done.
    + by rewrite length_insert.
    + intros j d Hj. case_decide as E.
      * subst j. rewrite list_lookup_insert_eq in Hj by done. by simplify_eq.
      * rewrite list_lookup_insert_ne in Hj by done. specialize (Hch j d Hj).
        specialize (Hsub j d E Hj). destruct (kind_of l d); try done. by apply Hsub.
    + intros j. rewrite length_insert. intros Hj. rewrite decide_False by lia. auto.
    + intros j k Hjk x. repeat case_decide; subst; intros Hx Hx'; try done.
      * destruct (HCi x Hx) as [Hn|Hx'']; [apply Hn, Hfp; right; by exists k|by eapply (Hdj i k)].
      * destruct (HCi x Hx') as [Hn|Hx'']; [apply Hn, Hfp; right; by exists j|by eapply (Hdj i j)].
      * by eapply (Hdj j k).
    + intros j. case_decide; [|done]. intros Ht. destruct (HCi t Ht) as [Hn|Ht'].
      * apply Hn, Hfp. by left.
      * by eapply Hrt.
    + intros x. rewrite elem_of_union, elem_of_difference, Hfp. split.
      * intros [[[->|[j Hj]] Hn]|Hx]; [by left|right; exists j; rewrite decide_False; [done|by intros ->]|].
        right. exists i. by rewrite decide_True.
      * intros [->|[j Hj]]; [left; split; [by left|apply Hrt]|]. case_decide; [by right|].
        left. split; [right; by exists j|]. intros Hx. by eapply (Hdj j i).
  - intros vo. rewrite !walk_unfold, He', He. simpl. case_decide as E.
    + by rewrite E, list_lookup_insert_eq by done.
    + rewrite list_lookup_insert_ne by done. destruct (es !! idx l vo) as [d|] eqn:Hj; [|done].
      specialize (Hsub _ d E Hj). unfold entry_walk. destruct (kind_of l d); try done. by apply Hsub.
Qed.

End Walk.
