(* ===== verification/Page_table_spec.v ===== *)
(** * Page_table_spec: insertion and removal change exactly the requested range

    Proofs about [Page_table]: for every format and encoding that satisfies the laws
    below, the range operations keep the tables a tree within the pool, lose no
    table, and change the translations the hardware sees exactly as requested.  The
    central judgement is [spec]: what an operation on a table of a level does to the
    translation of every offset. *)

From S2P Require Import Prelude.
From S2P Require Import Page_table_allocator.
From S2P Require Import Page_table.

Open Scope Z_scope.
Open Scope word_scope.

#[local] Arguments walk : simpl never.
#[local] Arguments tree : simpl never.

(** ** What is asked of a format and its encodings *)

Class Format_laws `{Format} := {
  block_log2_low : block_log2 0 = 12;
  block_log2_step l : block_log2 l < block_log2 (S l);
  kind_leaf d : kind_of 0 d ≠ TABLE;
  kind_zero l : kind_of l 0 = INVALID }.

Class Encoding_laws `{Encoding} (top : nat) (PA_BITS ALIGN PHYS_END : Z) := {
  pa_bits : 0 ≤ PA_BITS < 64;
  top_bits : block_log2 (S top) ≤ 62;
  leaf_blocks : blocks_at 0 = true;
  block_kind l f pa : blocks_at l = true → is_u64 pa → kind_of l (block_desc l f pa) = BLOCK;
  block_address l f pa : blocks_at l = true → in_range PA_BITS pa → (2 ^ block_log2 l | pa) →
    block_pa l (block_desc l f pa) = pa;
  block_rights_of l f pa : blocks_at l = true → is_u64 pa →
    block_rights l (block_desc l f pa) = flags_rights f;
  table_kind l pa : kind_of (S l) (table_desc (S l) pa) = TABLE;
  table_address l pa : (ALIGN | pa) → 0 ≤ pa < PHYS_END → next_table (S l) (table_desc (S l) pa) = pa;
  cleared_kind l d : kind_of l (cleared l d) = INVALID;
  normal_kind l d : kind_of l (normal d) = kind_of l d;
  index_spec l vo : (l ≤ top)%nat → 0 ≤ vo < 2 ^ block_log2 (S l) → index l vo = vo / 2 ^ block_log2 l }.

Section Spec.
Context `{F : Format} {FL : Format_laws} {P : Type} {ALIGN PHYS_END : Z} `{PL : Pool_laws ALIGN PHYS_END P}.
Context (root : Z).

Abbreviation St_ := (state P).

Definition virt (s : St_) : Z → Z := pool_virt (pool s).

(** The tables in use: those of the pool and the root table, which is not part of it. *)
Definition used (s : St_) : gset Z := {[root]} ∪ live (pool s).

Definition ok (s : St_) : Prop := pool_ok (pool s) ∧ root ∉ arena (pool s).

(** The effect of an operation on a tree with the tables [D]: they become [D'], the
    tables in use change accordingly, and no other table in use changes. *)
Record frame (s s' : St_) (D D' : gset Z) : Prop := {
  fr_base : same_base (pool s) (pool s');
  fr_used x : x ∈ used s' ↔ (x ∈ used s ∧ x ∉ D) ∨ x ∈ D';
  fr_new x : x ∈ D' → x ∈ used s → x ∈ D;
  fr_same x : x ∈ used s → x ∉ D → tables s' !! x = tables s !! x }.

Lemma frame_refl s D : D ⊆ used s → frame s s D D.
Proof.
  intros HD. constructor; try done.
  intros x. split; [|intros [[? _]|?]; [done|by apply HD]].
  intros Hx. destruct (decide (x ∈ D)); [by right|by left].
Qed.

Lemma same_base_trans (p1 p2 p3 : P) : same_base p1 p2 → same_base p2 p3 → same_base p1 p3.
Proof. intros (?&?&?) (?&?&?). split_and!; congruence. Qed.

Lemma frame_trans s1 s2 s3 D1 D2 D3 :
  frame s1 s2 D1 D2 → frame s2 s3 D2 D3 → frame s1 s3 D1 D3.
Proof.
  intros [Hb1 Hu1 Hn1 Hs1] [Hb2 Hu2 Hn2 Hs2]. constructor.
  - by eapply same_base_trans.
  - intros x. rewrite Hu2, Hu1. specialize (Hn1 x). specialize (Hn2 x). rewrite Hu1 in Hn2.
    destruct (decide (x ∈ D1)), (decide (x ∈ D2)); tauto.
  - intros x Hx Hx1. destruct (decide (x ∈ D1)) as [|Hn]; [done|].
    apply Hn1; [|done]. apply Hn2; [done|]. apply Hu1. by left.
  - intros x Hx Hn. rewrite Hs2; [by apply Hs1| |].
    + apply Hu1. by left.
    + intros Hx2. by apply Hn, Hn1.
Qed.

(** The effect on a part of the tables, seen from the whole. *)
Lemma frame_weaken s s' D C C' :
  frame s s' C C' → C ⊆ D → D ⊆ used s → frame s s' D ((D ∖ C) ∪ C').
Proof.
  intros [Hb Hu Hn Hs] HC HD. constructor; [done|..].
  - intros x. rewrite Hu. specialize (HC x). specialize (HD x). set_unfold.
    destruct (decide (x ∈ D)), (decide (x ∈ C)); tauto.
  - intros x. specialize (HC x). specialize (Hn x). set_unfold. tauto.
  - intros x Hx Hn'. apply Hs; [done|]. intros ?. by apply Hn', HC.
Qed.

(** Operations on one table of a level. *)
Definition spec (R : result error unit → Z → option translation → option translation → Prop)
    (l : nat) (t : Z) (m : exc St_ error unit) : Prop :=
  ∀ s D, ok s → tree l (tables s) (virt s) t D → D ⊆ used s → (root ∈ D → root = t) →
  let (r, s') := m s in
  ∃ D', ok s' ∧ frame s s' D D' ∧ tree l (tables s') (virt s) t D' ∧
    ∀ v, 0 ≤ v < 2 ^ block_log2 (S l) →
      R r v (walk l (tables s) (virt s) t v) (walk l (tables s') (virt s) t v).

Lemma frame_virt s s' D D' : frame s s' D D' → virt s' = virt s.
Proof. intros [(_ & Hv & _)]. done. Qed.

Lemma spec_weaken (R R' : result error unit → Z → option translation → option translation → Prop) l t m :
  spec R l t m → (∀ r v o n, R r v o n → R' r v o n) → spec R' l t m.
Proof.
  intros Hm HR s D Hok Ht HD Hrt. specialize (Hm s D Hok Ht HD Hrt). destruct (m s) as [r s'].
  destruct Hm as (D' & ? & ? & ? & Hw). exists D'. split_and!; auto.
Qed.

(** ** The range operation *)

Lemma block_log2_pos l : 12 ≤ block_log2 l.
Proof.
  induction l as [|l IH]; [by rewrite block_log2_low|]. pose proof (block_log2_step l). lia.
Qed.

Lemma block_bounds l : 0 < 2 ^ block_log2 l ∧ 2 ^ block_log2 l < 2 ^ block_log2 (S l).
Proof.
  pose proof (block_log2_pos l). pose proof (block_log2_step l).
  split; [apply Z.pow_pos_nonneg; lia|apply Z.pow_lt_mono_r; lia].
Qed.

Lemma max_entries_value l : max_entries l * 2 ^ block_log2 l = 2 ^ block_log2 (S l) ∧ 0 < max_entries l.
Proof.
  pose proof (block_log2_pos l). pose proof (block_log2_step l). unfold max_entries.
  rewrite <- Z.pow_add_r by lia. split; [f_equal; lia|apply Z.pow_pos_nonneg; lia].
Qed.

(** The part of a range in its first entry ends at the entry or at the range. *)
Lemma first_part l vo size :
  block_log2 (S l) ≤ 62 → 0 ≤ vo → 0 ≤ size → vo + size ≤ 2 ^ block_log2 (S l) → 0 < size →
  let e := Z.land (vo +64 block_size l) (block_mask l) in
  e = (vo / 2 ^ block_log2 l + 1) * 2 ^ block_log2 l ∧ vo < e ∧
  e -64 vo = e - vo ∧ vo / 2 ^ block_log2 l < max_entries l.
Proof.
  intros Hb Hv Hs Hr Hs0. pose proof (block_log2_pos l). pose proof (block_bounds l) as [HB HB'].
  pose proof (Z.pow_le_mono_r 2 (block_log2 (S l)) 62).
  unfold block_mask, block_size. cbv zeta. set (B := 2 ^ block_log2 l) in *.
  rewrite (wrap_small 64 (vo + B)) by word_lia.
  assert (Z.land (vo + B) (~64 (B -64 1)) = (vo / B + 1) * B) as ->.
  { subst B. pose proof (block_log2_step l). rewrite land_align_down by (lia || word_lia).
    f_equal. rewrite <- (Z.mul_1_l (2 ^ block_log2 l)) at 1. rewrite Z.div_add by lia. done. }
  pose proof (Z.mod_pos_bound vo B). pose proof (Z.div_mod vo B).
  destruct (max_entries_value l) as [Hme _]. fold B in Hme.
  assert (vo / B < max_entries l) by (apply Z.div_lt_upper_bound; lia).
  split_and!; [done|lia| |done]. apply wrap_small. unfold in_range. nia.
Qed.

Section Loop.
Context (R : result error unit → Z → Z → Z → Z → option translation → option translation → Prop).

(** The range splits behind its first [sz] bytes at the end of an entry. *)
Definition splits (l : nat) (vo sz rest : Z) : Prop :=
  0 < sz ∧ 0 ≤ rest ∧ (rest = 0 ∨ (2 ^ block_log2 l | vo + sz)).

(** The effect of a range operation composes from the effects on its parts. *)
Record composes (l : nat) : Prop := {
  R_nil vo pa v o : R (Ok tt) vo pa 0 v o o;
  R_seq r vo pa sz rest v o n n' : splits l vo sz rest →
    R (Ok tt) vo pa sz v o n → R r (vo + sz) (pa + sz) rest v n n' → R r vo pa (sz + rest) v o n';
  R_err e vo pa sz rest v o n : splits l vo sz rest →
    R (Err e) vo pa sz v o n → R (Err e) vo pa (sz + rest) v o n }.

(** One iteration per entry the range touches, and one to see that it is done. *)
Definition enough (fuel : nat) (l : nat) (vo size : Z) : Prop :=
  if size =? 0 then (0 < fuel)%nat
  else (vo + size - 1) / 2 ^ block_log2 l - vo / 2 ^ block_log2 l + 1 < Z.of_nat fuel.

Lemma range_spec l t ck (ix : Z → Z) func fuel vo pa size :
  composes l → block_log2 (S l) ≤ 62 →
  (∀ v, 0 ≤ v < 2 ^ block_log2 (S l) → ix v = v / 2 ^ block_log2 l) →
  (∀ vo' pa' sz i, 0 ≤ vo' → 0 < sz → vo' + sz ≤ (i + 1) * 2 ^ block_log2 l → i = vo' / 2 ^ block_log2 l →
     vo' + sz ≤ vo + size → vo ≤ vo' → pa' = pa + (vo' - vo) →
     spec (λ r, R r vo' pa' sz) l t (func vo' pa' sz i)) →
  0 ≤ vo → 0 ≤ size → vo + size ≤ 2 ^ block_log2 (S l) → 0 ≤ pa → pa + size < 2 ^ 64 →
  enough fuel l vo size →
  spec (λ r, R r vo pa size) l t (range_loop fuel ck l ix vo pa size func).
Proof.
  intros HR Hb Hix. revert vo pa size. pose proof (block_bounds l) as [HB HB'].
  induction fuel as [|fuel IH]; intros vo pa size Hfunc Hvo Hsz Hr Hpa Hpas Hf.
  { unfold enough in Hf. destruct (Z.eqb_spec size 0); [lia|].
    pose proof (Z.div_le_mono vo (vo + size - 1) (2 ^ block_log2 l)). lia. }
  unfold enough in *. cbn [range_loop]. destruct (Z.eqb_spec size 0) as [->|Hs0].
  { intros s D Hok Ht HD _. simpl. exists D. split_and!; [done|by apply frame_refl|done|].
    intros v _. by apply (R_nil l). }
  destruct (first_part l vo size) as (He & Hvoe & Hsub & Hmax); [lia..|].
  set (e := Z.land (vo +64 block_size l) (block_mask l)) in *.
  pose proof (Z.pow_le_mono_r 2 (block_log2 (S l)) 62).
  rewrite Hix by lia. set (B := 2 ^ block_log2 l) in *. rewrite Hsub.
  pose proof (Z.mod_pos_bound vo B). pose proof (Z.div_mod vo B).
  destruct (Z.leb_spec (max_entries l) (vo / B)) as [|_]; [lia|]. rewrite andb_false_r.
  set (sz := Z.min size (e - vo)). assert (0 < sz ≤ size ∧ sz ≤ e - vo) by lia.
  assert (splits l vo sz (size - sz)) as Hspl.
  { split_and!; [lia|lia|]. destruct (decide (sz = size)); [left; lia|right].
    exists (vo / B + 1). fold B. lia. }
  intros s D Hok Ht HD Hroot. unfold mbind, exc_bind.
  pose proof (Hfunc vo pa sz (vo / B)) as Hfn.
  specialize (Hfn ltac:(lia) ltac:(lia) ltac:(lia) eq_refl ltac:(lia) ltac:(lia) ltac:(lia) s D Hok Ht HD Hroot).
  destruct (func vo pa sz (vo / B) s) as [[[]|er] s1]; cycle 1.
  { destruct Hfn as (D1 & ? & ? & ? & Hw). exists D1. split_and!; [done..|]. intros v Hv.
    replace size with (sz + (size - sz)) by lia. apply (R_err l); auto. }
  destruct Hfn as (D1 & Hok1 & Hfr1 & Ht1 & Hw1).
  destruct (Z.ltb_spec e vo); [lia|].
  rewrite (wrap_small 64 (vo + sz)), (wrap_small 64 (pa + sz)), (wrap_small 64 (size - sz)) by word_lia.
  assert (spec (λ r, R r (vo + sz) (pa + sz) (size - sz)) l t
    (range_loop fuel ck l ix (vo + sz) (pa + sz) (size - sz) func)) as Hrest.
  { apply IH; [|lia..|].
    - intros. apply Hfunc; lia.
    - destruct (Z.eqb_spec (size - sz) 0) as [Hz|Hz].
      + pose proof (Z.div_le_mono vo (vo + size - 1) B). lia.
      + assert (vo + sz = e) as -> by lia.
        replace (e + (size - sz) - 1) with (vo + size - 1) by lia.
        rewrite He at 1. rewrite Z.div_mul by lia.
        assert (vo / B < (vo + size - 1) / B); [|lia].
        apply Z.lt_le_trans with (vo / B + 1); [lia|]. apply Z.div_le_lower_bound; lia. }
  pose proof (frame_virt _ _ _ _ Hfr1) as Hv1.
  assert (D1 ⊆ used s1) as HD1 by (intros x Hx; apply (fr_used _ _ _ _ Hfr1); by right).
  assert (root ∈ D1 → root = t) as Hroot1.
  { intros Hr1. apply Hroot, (fr_new _ _ _ _ Hfr1); [done|]. apply elem_of_union. left. by apply elem_of_singleton. }
  rewrite <- Hv1 in Ht1. specialize (Hrest s1 D1 Hok1 Ht1 HD1 Hroot1). rewrite Hv1 in Hrest, Ht1.
  destruct (range_loop fuel ck l ix _ _ _ func s1) as [r s2].
  destruct Hrest as (D2 & Hok2 & Hfr2 & Ht2 & Hw2). exists D2.
  split_and!; [done|by eapply frame_trans|done|]. intros v Hv.
  replace size with (sz + (size - sz)) by lia. eapply (R_seq l); [done|done|by apply Hw1|by apply Hw2].
Qed.

(** The fuel of the code's loop suffices. *)
Lemma range_fuel_enough l vo size :
  0 ≤ vo → 0 ≤ size →
  enough (range_fuel l size) l vo size.
Proof.
  intros Hvo Hs. unfold enough, range_fuel, block_size. destruct (Z.eqb_spec size 0); [lia|].
  pose proof (block_bounds l) as [HB _]. set (B := 2 ^ block_log2 l) in *.
  pose proof (Z.div_pos size B). pose proof (Z.mod_pos_bound vo B). pose proof (Z.div_mod vo B).
  pose proof (Z.mod_pos_bound size B). pose proof (Z.div_mod size B).
  assert ((vo + size - 1) / B < vo / B + size / B + 2); [|lia].
  apply Z.div_lt_upper_bound; lia.
Qed.
End Loop.

(** ** One entry *)

Lemma load_ok (s : St_) t i es d :
  tables s !! t = Some es → es !! Z.to_nat i = Some d → load t i s = (Ok d, s).
Proof. intros Ht Hi. unfold load. rewrite Ht. simpl. by rewrite Hi. Qed.

Lemma store_ok (s : St_) t i es d0 d :
  tables s !! t = Some es → es !! Z.to_nat i = Some d0 →
  store t i d s = (Ok tt, St (<[t := <[Z.to_nat i := d]> es]> (tables s)) (pool s)).
Proof.
  intros Ht Hi. unfold store. rewrite Ht, bool_decide_true; [done|]. by eapply lookup_lt_Some.
Qed.

(** The table of an entry an operation works on, opened. *)
Lemma open_entry l s t D i :
  tree l (tables s) (virt s) t D → 0 ≤ i < max_entries l →
  ∃ es C d, node l (sub_tree l (tables s) (virt s)) (tables s) (virt s) t D es C ∧
    es !! Z.to_nat i = Some d.
Proof.
  intros (es & C & Hn)%tree_unfold Hi. destruct (lookup_lt_is_Some_2 es (Z.to_nat i)) as [d Hd].
  { rewrite (node_length _ _ _ _ _ _ _ _ Hn). lia. }
  by exists es, C, d.
Qed.

Lemma node_no_child l m virt' t D es C i d :
  node l (sub_tree l m virt') m virt' t D es C → es !! i = Some d → kind_of l d ≠ TABLE → C i = ∅.
Proof. intros Hn Hi Hk. pose proof (node_child _ _ _ _ _ _ _ _ Hn i d Hi) as H'. by destruct (kind_of l d). Qed.

Lemma minus_empty (D : gset Z) (C : gset Z) : C = ∅ → (D ∖ C) ∪ ∅ = D.
Proof. intros ->. set_solver. Qed.

(** Writing an entry that neither is nor becomes a reference to a table. *)
Lemma store_entry l s t D es C i d d' :
  node l (sub_tree l (tables s) (virt s)) (tables s) (virt s) t D es C → ok s → D ⊆ used s →
  es !! Z.to_nat i = Some d → kind_of l d ≠ TABLE → kind_of l d' ≠ TABLE →
  ∃ s', store t i d' s = (Ok tt, s') ∧ ok s' ∧ frame s s' D D ∧ tree l (tables s') (virt s) t D ∧
    ∀ v, walk l (tables s') (virt s) t v =
      if decide (idx l v = Z.to_nat i)
      then (match kind_of l d' with
            | BLOCK => Some (block_pa l d' + v mod 2 ^ block_log2 l, block_rights l d', l)
            | _ => None end)
      else walk l (tables s) (virt s) t v.
Proof.
  intros Hn Hok HD Hi Hk Hk'. pose proof (node_no_child _ _ _ _ _ _ _ _ _ Hn Hi Hk) as HC.
  rewrite (store_ok s t i es d) by (apply Hn || done). eexists. split; [done|].
  destruct (entry_update l (tables s) (<[t := <[Z.to_nat i := d']> es]> (tables s)) (virt s) t D es C
    (Z.to_nat i) d' ∅ Hn) as [Hn' Hw].
  { by eapply lookup_lt_Some. }
  { by rewrite lookup_insert_eq. }
  { intros x _ Hx _. by rewrite lookup_insert_ne. }
  { by destruct (kind_of l d'). }
  { set_solver. }
  rewrite (minus_empty _ _ HC) in Hn'. split_and!; [done| | |].
  - constructor; try done; simpl.
    + intros x. specialize (HD x). destruct (decide (x ∈ D)); intuition.
    + intros x Hx Hx'. rewrite lookup_insert_ne; [done|]. intros <-. apply Hx', Hn. by left.
  - apply tree_unfold. by do 2 eexists.
  - intros v. simpl. rewrite Hw. case_decide; [|done]. unfold entry_walk. by destruct (kind_of l d').
Qed.

(** The offsets of an entry's window. *)
Lemma idx_window l v i :
  0 ≤ v → 0 ≤ i → idx l v = Z.to_nat i ↔ i * 2 ^ block_log2 l ≤ v < (i + 1) * 2 ^ block_log2 l.
Proof.
  intros Hv Hi. unfold idx. pose proof (block_bounds l) as [HB _]. set (B := 2 ^ block_log2 l) in *.
  pose proof (Z.mod_pos_bound v B). pose proof (Z.div_mod v B). pose proof (Z.div_pos v B).
  split; [intros; assert (v / B = i) by lia; lia|]. intros [? ?].
  assert (v / B = i); [|lia]. symmetry. apply (Z.div_unique v B i (v - B * i)); lia.
Qed.

Definition child_effect (Rc : Z → option translation → option translation → Prop) (l : nat)
    (s s' : St_) (tc : Z) (C C' : gset Z) : Prop :=
  ok s' ∧ frame s s' C C' ∧ tree l (tables s') (virt s) tc C' ∧
  ∀ v, 0 ≤ v < 2 ^ block_log2 (S l) →
    Rc v (walk l (tables s) (virt s) tc v) (walk l (tables s') (virt s) tc v).

(** An operation on the table below an entry, seen from the table of the entry. *)
Lemma descend_entry Rc l s s' t D es C i d C' :
  node (S l) (sub_tree (S l) (tables s) (virt s)) (tables s) (virt s) t D es C → ok s → D ⊆ used s →
  es !! Z.to_nat i = Some d → 0 ≤ i → kind_of (S l) d = TABLE →
  child_effect Rc l s s' (virt s (next_table (S l) d)) (C (Z.to_nat i)) C' →
  frame s s' D ((D ∖ C (Z.to_nat i)) ∪ C') ∧
  node (S l) (sub_tree (S l) (tables s') (virt s)) (tables s') (virt s) t ((D ∖ C (Z.to_nat i)) ∪ C') es
    (λ j, if decide (j = Z.to_nat i) then C' else C j) ∧
  ∀ v, 0 ≤ v →
    if decide (idx (S l) v = Z.to_nat i)
    then Rc (v mod 2 ^ block_log2 (S l)) (walk (S l) (tables s) (virt s) t v) (walk (S l) (tables s') (virt s) t v)
    else walk (S l) (tables s') (virt s) t v = walk (S l) (tables s) (virt s) t v.
Proof.
  intros Hn Hok HD Hi Hi0 Hk (Hok' & Hfr & Htr & Hw). pose proof Hn as [He Hlen Hch Hno Hdj Hrt Hfp].
  assert (C (Z.to_nat i) ⊆ D) as HCD by (intros x Hx; apply Hfp; right; by eexists).
  assert (∀ x, x ∈ D → x ∉ C (Z.to_nat i) → tables s' !! x = tables s !! x) as Hsame.
  { intros x Hx Hx'. apply (fr_same _ _ _ _ Hfr); [by apply HD|done]. }
  destruct (entry_update (S l) (tables s) (tables s') (virt s) t D es C (Z.to_nat i) d C' Hn)
    as [Hn' Hwk].
  { by eapply lookup_lt_Some. }
  { rewrite list_insert_id by done. rewrite Hsame; [done|apply Hfp; by left|apply Hrt]. }
  { intros x Hx _ Hx'. by apply Hsame. }
  { by rewrite Hk. }
  { intros x Hx. destruct (decide (x ∈ D)) as [HxD|]; [right|by left].
    apply (fr_new _ _ _ _ Hfr); [done|by apply HD]. }
  rewrite list_insert_id in Hn' by done.
  split_and!; [by apply frame_weaken|done|]. intros v Hv. rewrite Hwk.
  case_decide as Ei; [|done]. unfold entry_walk at 1. rewrite Hk. cbn [sub_walk].
  rewrite (walk_unfold (S l) (tables s)), He. cbn [mbind option_bind]. rewrite Ei, Hi. unfold entry_walk. rewrite Hk. cbn [sub_walk].
  apply Hw. apply Z.mod_pos_bound. apply block_bounds.
Qed.


(** A new table is an empty tree. *)
Lemma empty_tree l m virt' tc :
  m !! tc = Some (replicate (Z.to_nat (max_entries l)) 0) →
  tree l m virt' tc {[tc]} ∧ ∀ v, walk l m virt' tc v = None.
Proof.
  intros Hm. split.
  - apply tree_unfold. exists (replicate (Z.to_nat (max_entries l)) 0), (λ _, ∅). constructor; try done.
    + by rewrite length_replicate.
    + intros i d [-> _]%lookup_replicate. by rewrite kind_zero.
    + intros x. set_solver.
  - intros v. rewrite walk_unfold, Hm. simpl. destruct (replicate _ _ !! _) as [d|] eqn:E; [|done].
    apply lookup_replicate in E as [-> _]. unfold entry_walk. by rewrite kind_zero.
Qed.

(** A table whose entries are all invalid is a tree of its own, and translates
    nothing. *)
Lemma all_invalid l m virt' tc D es C :
  node l (sub_tree l m virt') m virt' tc D es C → forallb (λ d, negb (valid l d)) es = true →
  D = {[tc]} ∧ ∀ v, walk l m virt' tc v = None.
Proof.
  intros Hn Hall. rewrite forallb_forall in Hall.
  assert (∀ i d, es !! i = Some d → kind_of l d = INVALID) as Hk.
  { intros i d Hi%list_elem_of_lookup_2. apply list_elem_of_In, Hall in Hi.
    unfold valid in Hi. by case_bool_decide. }
  pose proof Hn as [He Hlen Hch Hno Hdj Hrt Hfp]. split.
  - apply set_eq. intros x. rewrite Hfp, elem_of_singleton. split; [|by left].
    intros [->|[i Hx]]; [done|]. destruct (es !! i) as [d|] eqn:Hi.
    + rewrite (node_no_child _ _ _ _ _ _ _ _ _ Hn Hi) in Hx; [set_solver|]. by rewrite (Hk i d).
    + apply lookup_ge_None in Hi. rewrite Hno in Hx by done. set_solver.
  - intros v. rewrite walk_unfold, He. simpl. destruct (es !! _) as [d|] eqn:E; [|done].
    unfold entry_walk. by rewrite (Hk _ _ E).
Qed.

Section Encodings.
Context `{E : !Encoding} {top : nat} {PA_BITS : Z} `{EL : !Encoding_laws top PA_BITS ALIGN PHYS_END}.

Lemma invalidate_ok l (s : St_) t i es d :
  tables s !! t = Some es → es !! Z.to_nat i = Some d →
  invalidate l t i s = (Ok tt, St (<[t := <[Z.to_nat i := cleared l d]> es]> (tables s)) (pool s)).
Proof.
  intros Ht Hi. unfold invalidate, mbind, exc_bind. rewrite (load_ok s t i es d) by done. by apply store_ok with d.
Qed.

(** Linking a new table to an entry that was not valid. *)
Lemma link_entry l s t D es C i d :
  node (S l) (sub_tree (S l) (tables s) (virt s)) (tables s) (virt s) t D es C → ok s → D ⊆ used s →
  es !! Z.to_nat i = Some d → kind_of (S l) d = INVALID →
  match construct_table l s with
  | (Err e, s1) => e = Pool Out_of_tables ∧ ok s1 ∧ frame s s1 D D ∧ tables s1 = tables s
  | (Ok tc, s1) =>
      let td := table_desc (S l) (pool_phys (pool s1) tc) in
      ∃ s2 C', store t i td s1 = (Ok tt, s2) ∧ ok s2 ∧ frame s s2 D ({[tc]} ∪ D) ∧
        node (S l) (sub_tree (S l) (tables s2) (virt s)) (tables s2) (virt s) t ({[tc]} ∪ D)
          (<[Z.to_nat i := td]> es) C' ∧ virt s (next_table (S l) td) = tc ∧
        ∀ v, walk (S l) (tables s2) (virt s) t v = walk (S l) (tables s) (virt s) t v
  end.
Proof.
  intros Hn [Hok Hra] HD Hi Hk. pose proof Hn as [He Hlen Hch Hno Hdj Hrt Hfp].
  unfold construct_table. pose proof (construct_law (pool s) Hok) as Hc.
  destruct (pool_construct (pool s)) as [[tc|e] p]; cycle 1.
  { destruct Hc as (-> & Hok' & Hb & Hl). destruct Hb as (Ha & Hv & Hp).
    split_and!; [done|split; simpl; [done|by rewrite Ha]| |done].
    constructor; simpl; [by split_and!| |done|done]. unfold used; simpl. rewrite Hl. intros x.
    specialize (HD x). unfold used in HD. destruct (decide (x ∈ D)); tauto. }
  destruct Hc as (Hok' & Hb & Htc & Hnl & Hl). pose proof Hb as (Ha & Hv & Hp). simpl.
  assert (tc ≠ root) as Htcr by (intros ->; done).
  assert (tc ∉ used s) as Htcu by (unfold used; set_solver).
  assert (tc ∉ D) as HtcD by (intros Hx; by apply Htcu, HD).
  assert (t ≠ tc) as Httc by (intros ->; apply HtcD, Hfp; by left).
  set (zs := replicate (Z.to_nat (max_entries l)) 0).
  set (td := table_desc (S l) (pool_phys p tc)).
  rewrite (store_ok _ t i es d) by (simpl; by rewrite ?lookup_insert_ne by congruence). simpl.
  set (m' := <[t := <[Z.to_nat i := td]> es]> (<[tc := zs]> (tables s))).
  assert (C (Z.to_nat i) = ∅) as HC.
  { apply (node_no_child _ _ _ _ _ _ _ _ _ Hn Hi). by rewrite Hk. }
  destruct (phys_law p tc) as (Hpv & Hpa & Hpr); [done|by rewrite Ha|].
  assert (virt s (next_table (S l) td) = tc) as Hnt.
  { unfold td, virt. rewrite table_address by done. by rewrite <- Hv. }
  destruct (empty_tree l m' (virt s) tc) as [Htr Hwk].
  { unfold m'. rewrite lookup_insert_ne by done. by rewrite lookup_insert_eq. }
  destruct (entry_update (S l) (tables s) m' (virt s) t D es C (Z.to_nat i) td {[tc]} Hn) as [Hn' Hw].
  { by eapply lookup_lt_Some. }
  { unfold m'. by rewrite lookup_insert_eq. }
  { intros x Hx Hxt _. unfold m'. rewrite lookup_insert_ne by done. rewrite lookup_insert_ne; [done|].
    intros <-. done. }
  { unfold td at 1. rewrite table_kind. by rewrite Hnt. }
  { intros x ->%elem_of_singleton. by left. }
  assert ((D ∖ C (Z.to_nat i)) ∪ {[tc]} = {[tc]} ∪ D) as EqD by (rewrite HC; set_solver).
  rewrite EqD in Hn'. eexists _, _. split; [done|]. split_and!.
  - split; simpl; [done|by rewrite Ha].
  - constructor; simpl; [done|..].
    + unfold used; simpl. rewrite Hl. intros x. specialize (HD x). unfold used in *.
      set_unfold. destruct (decide (x ∈ D)); tauto.
    + intros x Hx Hu. set_unfold. destruct Hx as [->|]; [|done]. tauto.
    + intros x Hx Hx'. unfold m'. rewrite lookup_insert_ne; [|intros <-; apply Hx', Hfp; by left].
      rewrite lookup_insert_ne; [done|]. intros <-. done.
  - done.
  - done.
  - intros v. change (tables (St m' p)) with m'. rewrite Hw. case_decide as Ei; [|done].
    unfold entry_walk at 1. unfold td at 1. rewrite table_kind. cbn [sub_walk]. rewrite Hnt, Hwk.
    rewrite (walk_unfold (S l) (tables s)), He. cbn [mbind option_bind]. rewrite Ei, Hi.
    unfold entry_walk. by rewrite Hk.
Qed.

(** ** The arithmetic of blocks *)

Lemma block_log2_mono k l : (k ≤ l)%nat → block_log2 k ≤ block_log2 l.
Proof.
  induction 1 as [|l Hl IH]; [lia|]. pose proof (block_log2_step l). lia.
Qed.

Lemma block_divide k l : (k ≤ l)%nat → (2 ^ block_log2 k | 2 ^ block_log2 l).
Proof.
  intros Hkl. pose proof (block_log2_mono k l Hkl). pose proof (block_log2_pos k).
  exists (2 ^ (block_log2 l - block_log2 k)). rewrite <- Z.pow_add_r by lia. f_equal. lia.
Qed.

Lemma page_divide l : (4096 | 2 ^ block_log2 l).
Proof.
  replace 4096 with (2 ^ block_log2 0) by (rewrite block_log2_low; done).
  apply block_divide. lia.
Qed.

Lemma align_down l vo : block_log2 l < 64 → is_u64 vo →
  Z.land vo (block_mask l) = vo / 2 ^ block_log2 l * 2 ^ block_log2 l.
Proof.
  intros Hb Hvo. pose proof (block_log2_pos l). unfold block_mask, block_size.
  apply land_align_down; [done|lia].
Qed.

Lemma low_bits l vo : block_log2 l < 64 → is_u64 vo →
  Z.land vo (~64 (block_mask l)) = vo mod 2 ^ block_log2 l.
Proof.
  intros Hb Hvo. pose proof (block_log2_pos l). pose proof (Z.pow_lt_mono_r 2 (block_log2 l) 64).
  pose proof (block_bounds l).
  assert (~64 (block_mask l) = Z.ones (block_log2 l)) as ->.
  { unfold block_mask, block_size. rewrite (wrap_small 64 (2 ^ _ - 1)) by word_lia.
    replace (2 ^ block_log2 l - 1) with (Z.ones (block_log2 l)) by (rewrite Z.ones_equiv; lia).
    apply Z.bits_inj'. intros j Hj. rewrite wrap_testbit, Z.lnot_spec, wrap_testbit, Z.lnot_spec by lia.
    rewrite Z.testbit_ones by lia.
    destruct (Z.leb_spec 0 j), (Z.ltb_spec j 64), (Z.ltb_spec j (block_log2 l)); simpl; try done; lia. }
  by rewrite Z.land_ones by lia.
Qed.

Lemma unaligned_false l vo pa size : block_log2 l < 64 → is_u64 vo → is_u64 pa →
  unaligned l vo pa size = false ↔
    (2 ^ block_log2 l | vo) ∧ (2 ^ block_log2 l | pa) ∧ 2 ^ block_log2 l ≤ size.
Proof.
  intros Hb Hvo Hpa. unfold unaligned. rewrite !low_bits by done. pose proof (block_bounds l).
  rewrite !orb_false_iff, !negb_false_iff, !Z.eqb_eq, Z.ltb_ge.
  unfold block_size. rewrite <- !Z.mod_divide by lia. tauto.
Qed.

(** The offset of a range within an entry. *)
Lemma offset_in_entry l vo : block_log2 l < 64 → is_u64 vo →
  vo -64 Z.land vo (block_mask l) = vo mod 2 ^ block_log2 l.
Proof.
  intros Hb Hvo. rewrite align_down by done. pose proof (block_bounds l) as [HB _].
  pose proof (Z.mod_pos_bound vo (2 ^ block_log2 l)). pose proof (Z.div_mod vo (2 ^ block_log2 l)).
  assert (0 ≤ vo / 2 ^ block_log2 l) by (apply Z.div_pos; word_lia).
  rewrite wrap_small; [lia|]. unfold in_range in *. nia.
Qed.

(** A translation found in a table comes from its level or one below. *)
Definition level_le (l : nat) (o : option translation) : Prop :=
  match o with Some (_, _, k) => (k ≤ l)%nat | None => True end.

Lemma walk_level l m virt' t v : level_le l (walk l m virt' t v).
Proof.
  revert t v. induction l as [|l IH]; intros t v; rewrite walk_unfold;
    destruct (m !! t ≫= _) as [d|]; simpl; try done; unfold entry_walk;
    destruct (kind_of _ d); simpl; try done; try lia.
  specialize (IH (virt' (next_table (S l) d)) (v mod 2 ^ block_log2 (S l))).
  destruct (walk l m virt' _ _) as [[[? ?] ?]|]; simpl in *; [lia|done].
Qed.

(** ** One level deeper *)

(** A range within entry [i] of a table of level [l]. *)
Definition within_entry (l : nat) (vo sz i : Z) : Prop :=
  0 ≤ vo ∧ 0 < sz ∧ vo + sz ≤ (i + 1) * 2 ^ block_log2 l ∧ i = vo / 2 ^ block_log2 l ∧ i < max_entries l.

Lemma within_window l vo sz i v : within_entry l vo sz i → vo ≤ v < vo + sz → idx l v = Z.to_nat i.
Proof.
  intros (?&?&?&->&?) Hv. pose proof (block_bounds l) as [HB _].
  pose proof (Z.div_pos vo (2 ^ block_log2 l)). pose proof (Z.div_mod vo (2 ^ block_log2 l)).
  pose proof (Z.mod_pos_bound vo (2 ^ block_log2 l)).
  apply idx_window; [lia..|]. lia.
Qed.

(** Within the window of an entry, offsets are relative to its start. *)
Lemma window_offset l vo sz i v : within_entry l vo sz i → 0 ≤ v → idx l v = Z.to_nat i →
  v mod 2 ^ block_log2 l = v - i * 2 ^ block_log2 l ∧
  vo mod 2 ^ block_log2 l = vo - i * 2 ^ block_log2 l.
Proof.
  intros (?&?&?&Hi&?) Hv Hw. pose proof (block_bounds l) as [HB _].
  pose proof (Z.div_pos vo (2 ^ block_log2 l)).
  apply idx_window in Hw; [|lia..]. pose proof (Z.div_mod vo (2 ^ block_log2 l)). split; [|lia].
  pose proof (Z.div_mod v (2 ^ block_log2 l)). pose proof (Z.mod_pos_bound v (2 ^ block_log2 l)).
  assert (v / 2 ^ block_log2 l = i); [|lia]. symmetry.
  apply (Z.div_unique v _ i (v - i * 2 ^ block_log2 l)); lia.
Qed.

Lemma sub_range l vo sz i : within_entry l vo sz i →
  0 ≤ vo mod 2 ^ block_log2 l ∧ vo mod 2 ^ block_log2 l + sz ≤ 2 ^ block_log2 l.
Proof.
  intros (?&?&?&->&?). pose proof (block_bounds l) as [HB _].
  pose proof (Z.mod_pos_bound vo (2 ^ block_log2 l)). pose proof (Z.div_mod vo (2 ^ block_log2 l)). lia.
Qed.

(** An effect [Rc] on the table below an entry lifts to an effect [Rp] on the table:
    within the entry by the change of offset, elsewhere nothing happens. *)
Definition lifts (Rc Rp : result error unit → Z → option translation → option translation → Prop)
    (l : nat) (vo i : Z) : Prop :=
  (∀ r v o n, 0 ≤ v → idx l v = Z.to_nat i → level_le l o → Rc r (v mod 2 ^ block_log2 l) o n → Rp r v o n) ∧
  (∀ r v o o0 n0, 0 ≤ v → idx l v ≠ Z.to_nat i → level_le l o →
     Rc r (vo mod 2 ^ block_log2 l) o0 n0 → Rp r v o o).

(** The call of the operation of the next level, and what it leaves behind. *)
Lemma call_child Rc Rp l s t D es C i d vo sz m :
  node (S l) (sub_tree (S l) (tables s) (virt s)) (tables s) (virt s) t D es C → ok s → D ⊆ used s →
  (root ∈ D → root = t) → es !! Z.to_nat i = Some d → kind_of (S l) d = TABLE →
  within_entry (S l) vo sz i → lifts Rc Rp (S l) vo i →
  spec Rc l (virt s (next_table (S l) d)) m →
  let (r, s') := m s in
  ∃ C' D', ok s' ∧ frame s s' D D' ∧
    node (S l) (sub_tree (S l) (tables s') (virt s)) (tables s') (virt s) t D' es C' ∧
    (∀ v, 0 ≤ v → Rp r v (walk (S l) (tables s) (virt s) t v) (walk (S l) (tables s') (virt s) t v)).
Proof.
  intros Hn Hok HD Hroot Hi Hk Hin [Hl1 Hl2] Hm. pose proof Hin as (?&?&?&?&?).
  assert (0 ≤ i) by (subst i; apply Z.div_pos; [lia|apply block_bounds]).
  pose proof Hn as [He Hlen Hch Hno Hdj Hrt Hfp].
  pose proof (Hch _ _ Hi) as Hci. rewrite Hk in Hci. simpl in Hci.
  specialize (Hm s (C (Z.to_nat i)) Hok Hci).
  destruct (m s) as [r s']. destruct Hm as (C1 & Hok' & Hfr & Htr & Hw).
  { intros x Hx. apply HD, Hfp. right. by eexists. }
  { intros Hr. assert (root ∈ D) as Hr' by (apply Hfp; right; by eexists).
    rewrite (Hroot Hr') in Hr. by apply Hrt in Hr. }
  destruct (descend_entry (Rc r) l s s' t D es C i d C1 Hn Hok HD Hi) as (Hfr' & Hn' & Hw');
    [done|done|by split_and!|].
  eexists _, _. split_and!; [done|exact Hfr'|exact Hn'|]. intros v Hv.
  specialize (Hw' v Hv). pose proof (walk_level (S l) (tables s) (virt s) t v) as Hle.
  case_decide as Eiv; [by apply Hl1|]. rewrite Hw'. eapply Hl2; [done..|].
  apply Hw. apply Z.mod_pos_bound, block_bounds.
Qed.

(** ** Insertion *)

Definition page_aligned (vo pa size : Z) : Prop := (4096 | vo) ∧ (4096 | pa) ∧ (4096 | size).

(** What inserting the range does to the translation [o] of offset [v]: nothing
    outside of the range; inside it, the requested translation, or on an exception
    possibly the old one. *)
Definition inserted (rt : rights) (r : result error unit) (vo pa size v : Z)
    (o n : option translation) : Prop :=
  (¬ vo ≤ v < vo + size → n = o) ∧
  match r with
  | Ok _ => vo ≤ v < vo + size → ∃ k, n = Some (pa + (v - vo), rt, k)
  | Err e =>
      (e = conflict ∨ e = Pool Out_of_tables ∨ (e = Invalid_range ∧ ¬ page_aligned vo pa size)) ∧
      (vo ≤ v < vo + size → n = o ∨ ∃ k, n = Some (pa + (v - vo), rt, k))
  end.

Lemma aligned_parts l vo pa sz rest :
  splits l vo sz rest → page_aligned vo pa (sz + rest) →
  page_aligned vo pa sz ∧ page_aligned (vo + sz) (pa + sz) rest.
Proof.
  intros (_ & _ & Hs) (Hv & Hp & Hsz).
  assert (4096 | sz) as Hd.
  { destruct Hs as [->|Hs]; [by rewrite Z.add_0_r in Hsz|].
    apply (Z.divide_add_cancel_r _ vo); [done|]. etrans; [apply (page_divide l)|done]. }
  assert (4096 | rest) by (by apply (Z.divide_add_cancel_r _ sz)).
  repeat split; auto using Z.divide_add_r.
Qed.

Lemma inserted_composes rt l : composes (inserted rt) l.
Proof.
  constructor.
  - intros vo pa v o. split; [done|]. lia.
  - intros r vo pa sz rest v o n n' Hs [Ho1 Hi1] [Ho2 Hi2]. pose proof Hs as (? & ? & _). split.
    + intros Hv. rewrite Ho2 by lia. apply Ho1. lia.
    + assert (vo ≤ v < vo + (sz + rest) → vo ≤ v < vo + sz ∨ vo + sz ≤ v < vo + sz + rest) as Hcase by lia.
      replace (pa + sz + (v - (vo + sz))) with (pa + (v - vo)) in Hi2 by lia.
      destruct r as [u|e].
      * intros Hv. destruct (Hcase Hv) as [Hv1|Hv2]; [rewrite Ho2 by lia; auto|auto].
      * destruct Hi2 as [He Hi2]. split.
        -- destruct He as [?|[?|[? Hu]]]; [by auto..|]. right; right. split; [done|].
           intros Ha. apply Hu. by eapply aligned_parts.
        -- intros Hv. destruct (Hcase Hv) as [Hv1|Hv2].
           ++ right. rewrite Ho2 by lia. auto.
           ++ rewrite <- Ho1 by lia. auto.
  - intros e vo pa sz rest v o n Hs [Ho [He Hi]]. pose proof Hs as (? & ? & _). split.
    + intros Hv. apply Ho. lia.
    + split.
      * destruct He as [?|[?|[? Hu]]]; [by auto..|]. right; right. split; [done|].
        intros Ha. apply Hu. by eapply aligned_parts.
      * intros Hv. destruct (decide (v < vo + sz)); [apply Hi; lia|left; apply Ho; lia].
Qed.

Lemma inserted_lifts rt l vo pa sz i :
  within_entry l vo sz i →
  lifts (λ r, inserted rt r (vo mod 2 ^ block_log2 l) pa sz) (λ r, inserted rt r vo pa sz) l vo i.
Proof.
  intros Hin. split.
  - intros r v o n Hv Hw _ [Ho Hi]. destruct (window_offset l vo sz i v) as [Ev Evo]; [done..|].
    rewrite Ev, Evo in *. split; [intros Hnv; apply Ho; lia|].
    replace (pa + (v - i * 2 ^ block_log2 l - (vo - i * 2 ^ block_log2 l))) with (pa + (v - vo)) in Hi by lia.
    destruct r as [u|e]; [intros; apply Hi; lia|]. destruct Hi as [He Hi]. split; [|intros; apply Hi; lia].
    destruct He as [?|[?|[? Hu]]]; [by auto..|]. right; right. split; [done|]. intros (Ha & ? & ?). apply Hu.
    split_and!; [|done..]. apply Z.divide_sub_r; [done|]. apply Z.divide_mul_r, page_divide.
  - intros r v o o0 n0 Hv Hw _ [_ Hi].
    assert (¬ vo ≤ v < vo + sz) as Hnv by (intros ?; by apply Hw, (within_window l vo sz)).
    split; [done|]. destruct r as [u|e]; [done|]. destruct Hi as [He _]. split; [|by left].
    destruct He as [?|[?|[? Hu]]]; [by auto..|]. right; right. split; [done|]. intros (Ha & ? & ?). apply Hu.
    split_and!; [|done..]. pose proof Hin as (?&?&?&Hi'&?). pose proof (block_bounds l).
    rewrite Z.mod_eq by lia. apply Z.divide_sub_r; [done|].
    rewrite Z.mul_comm. apply Z.divide_mul_r, page_divide.
Qed.

(** The entry a functor works on exists. *)
Lemma entry_bounds l vo sz i : within_entry l vo sz i → 0 ≤ i < max_entries l.
Proof. intros (?&?&?&->&?). split; [|done]. apply Z.div_pos; [lia|apply block_bounds]. Qed.

Context (f : Page_flags).

(** Insertion of a block in place of an entry. *)
Lemma insert_block l t vo pa sz i (m : exc St_ error unit) :
  (l ≤ top)%nat → blocks_at l = true → unaligned l vo pa sz = false →
  within_entry l vo sz i → vo + sz ≤ 2 ^ block_log2 (S l) → in_range PA_BITS pa →
  (∀ s, m s = (d ← load t i;
    if valid l d && negb (normal d =? block_desc l f pa) then throw conflict
    else store t i (block_desc l f pa)) s) →
  spec (λ r, inserted (flags_rights f) r vo pa sz) l t m.
Proof.
  intros Hl Hbl Hun Hin Hr Hpa Hm s D Hok Ht HD _. rewrite Hm. clear m Hm.
  pose proof (@pa_bits _ _ _ _ _ _ EL). pose proof (@top_bits _ _ _ _ _ _ EL) as Htop.
  pose proof (block_log2_mono (S l) (S top) ltac:(lia)). pose proof (block_log2_step l).
  pose proof (Z.pow_le_mono_r 2 (block_log2 (S l)) 62). pose proof (Z.pow_lt_mono_r 2 PA_BITS 64).
  pose proof Hin as (Hvo & Hsz & Hend & Hi & _). pose proof (block_bounds l) as [HB _].
  destruct (open_entry l s t D i Ht (entry_bounds _ _ _ _ Hin)) as (es & C & d & Hn & Hd).
  unfold mbind, exc_bind. rewrite (load_ok s t i es d) by (apply Hn || done).
  assert (kind_of l (block_desc l f pa) = BLOCK) as Hkb by (apply block_kind; [done|word_lia]).
  destruct (valid l d && negb (normal d =? block_desc l f pa)) eqn:Ed.
  { exists D. split_and!; [done|by apply frame_refl|done|]. intros v _.
    split; [done|]. split; [by left|]. by left. }
  assert (kind_of l d ≠ TABLE) as Hkd.
  { intros Hk. apply andb_false_iff in Ed as [Ed|Ed].
    - unfold valid in Ed. rewrite Hk in Ed. done.
    - apply negb_false_iff, Z.eqb_eq in Ed. rewrite <- normal_kind, Ed in Hk. congruence. }
  destruct (store_entry l s t D es C i d (block_desc l f pa)) as (s' & -> & Hok' & Hfr & Htr & Hw);
    [done..|congruence|].
  exists D. split_and!; [done..|]. intros v [Hv _]. rewrite Hw, Hkb.
  apply unaligned_false in Hun as (Hav & Hap & Hbs); [|lia|word_lia|word_lia].
  assert (vo = i * 2 ^ block_log2 l) as Hvoi.
  { destruct Hav as [q Hq]. rewrite Hq, Z.div_mul in Hi by lia. lia. }
  assert (sz = 2 ^ block_log2 l) as Hszb by lia.
  pose proof (idx_window l v i Hv (proj1 (entry_bounds _ _ _ _ Hin))) as Hwin. split.
  - intros Hnv. case_decide as Eiv; [|done]. apply Hwin in Eiv. lia.
  - intros Hv'. rewrite decide_True by (apply Hwin; lia). exists l.
    rewrite block_address, block_rights_of by (done || word_lia).
    destruct (window_offset l vo sz i v) as [-> _]; [done|done|apply Hwin; lia|].
    do 3 f_equal. lia.
Qed.

Lemma insert_func_spec l (rec : Z → Z → Z → Z → exc St_ error unit) t vo pa sz i :
  (l ≤ top)%nat → within_entry l vo sz i → vo + sz ≤ 2 ^ block_log2 (S l) →
  0 ≤ pa → pa + sz ≤ 2 ^ PA_BITS →
  (∀ lc, l = S lc → ∀ tc vo' pa' sz', 0 ≤ vo' → 0 ≤ sz' → vo' + sz' ≤ 2 ^ block_log2 (S lc) →
     0 ≤ pa' → pa' + sz' ≤ 2 ^ PA_BITS → spec (λ r, inserted (flags_rights f) r vo' pa' sz') lc tc (rec tc vo' pa' sz')) →
  spec (λ r, inserted (flags_rights f) r vo pa sz) l t (insert_func l rec f t vo pa sz i).
Proof.
  intros Hl Hin Hr Hpa Hpas Hrec. pose proof Hin as (Hvo & Hsz & Hend & Hi & _).
  pose proof (@pa_bits _ _ _ _ _ _ EL). pose proof (@top_bits _ _ _ _ _ _ EL).
  pose proof (block_log2_mono (S l) (S top) ltac:(lia)). pose proof (block_log2_step l).
  pose proof (block_bounds l) as [HB _]. pose proof (Z.pow_le_mono_r 2 (block_log2 (S l)) 62).
  pose proof (Z.pow_lt_mono_r 2 PA_BITS 64).
  destruct (blocks_at l && negb (unaligned l vo pa sz)) eqn:Eb.
  { apply andb_true_iff in Eb as [Hbl Hun]. apply negb_true_iff in Hun.
    apply (insert_block l t vo pa sz i); [done..|word_lia|]. intros s. unfold insert_func.
    by rewrite Hbl, Hun. }
  intros s D Hok Ht HD Hroot. unfold insert_func. rewrite Eb. destruct l as [|lc].
  { rewrite leaf_blocks in Eb. simpl in Eb. apply negb_false_iff in Eb. simpl. exists D.
    split_and!; [done|by apply frame_refl|done|]. intros v _. split; [done|]. split; [|by left].
    right; right. split; [done|]. intros (Ha1 & Ha2 & Ha3).
    assert (unaligned 0 vo pa sz = false); [|congruence].
    rewrite block_log2_low in *. change (2 ^ 12) with 4096 in *.
    apply unaligned_false; [rewrite block_log2_low; lia|word_lia..|].
    rewrite block_log2_low. change (2 ^ 12) with 4096. split_and!; [done..|].
    by apply Z.divide_pos_le. }
  destruct (open_entry (S lc) s t D i Ht (entry_bounds _ _ _ _ Hin)) as (es & C & d & Hn & Hd).
  pose proof (sub_range _ _ _ _ Hin) as [Hs0 Hs1].
  assert (∀ s' D' es' C' d', ok s' → virt s' = virt s → D' ⊆ used s' → (root ∈ D' → root = t) →
    node (S lc) (sub_tree (S lc) (tables s') (virt s)) (tables s') (virt s) t D' es' C' →
    es' !! Z.to_nat i = Some d' → kind_of (S lc) d' = TABLE →
    let (r, s2) := descend (S lc) rec t vo pa sz i s' in
    ∃ D2, ok s2 ∧ frame s' s2 D' D2 ∧ tree (S lc) (tables s2) (virt s) t D2 ∧
      ∀ v, 0 ≤ v → inserted (flags_rights f) r vo pa sz v (walk (S lc) (tables s') (virt s) t v)
        (walk (S lc) (tables s2) (virt s) t v)) as Hdesc.
  { intros s' D' es' C' d' Hok' Hv' HD' Hr' Hn' Hd' Hk'. rewrite <- Hv' in *.
    unfold descend, mbind, exc_bind. rewrite (load_ok s' t i es' d') by (apply Hn' || done).
    unfold virt_of. rewrite offset_in_entry by (lia || word_lia).
    pose proof (call_child _ _ lc s' t D' es' C' i d' vo sz _ Hn' Hok' HD' Hr' Hd' Hk' Hin
      (inserted_lifts _ (S lc) vo pa sz i Hin)
      (Hrec lc eq_refl (virt s' (next_table (S lc) d')) _ pa sz Hs0 ltac:(lia) Hs1 Hpa Hpas)) as Hc.
    unfold virt in Hc at 2. destruct (rec _ _ _ _ s') as [r s2].
    destruct Hc as (C2 & D2 & ? & ? & Hn2 & ?). exists D2. split_and!; [done|done| |done].
    apply tree_unfold. by eexists _, _. }
  assert (load t i s = (Ok d, s)) as Hload by (eapply load_ok; [apply Hn|done]).
  unfold mbind at 1, exc_bind at 1. rewrite Hload.
  destruct (kind_of (S lc) d) eqn:Hk.
  - pose proof (link_entry lc s t D es C i d Hn Hok HD Hd Hk) as Hlink.
    unfold mbind, exc_bind, phys_of. destruct (construct_table lc s) as [[tc|e] s1].
    + destruct Hlink as (s2 & C' & Hst & Hok2 & Hfr2 & Hn2 & Hnt & Hw2). rewrite Hst.
      assert ({[tc]} ∪ D ⊆ used s2) as HD2.
      { intros x Hx. apply (fr_used _ _ _ _ Hfr2). by right. }
      assert (root ∈ ({[tc]} ∪ D : gset Z) → root = t) as Hroot2.
      { intros Hx. apply Hroot, (fr_new _ _ _ _ Hfr2); [done|]. unfold used. set_solver. }
      specialize (Hdesc s2 _ _ C' _ Hok2 (frame_virt _ _ _ _ Hfr2) HD2 Hroot2 Hn2
        (list_lookup_insert_eq _ _ _ (lookup_lt_Some _ _ _ Hd)) (table_kind _ _)).
      destruct (descend (S lc) rec t vo pa sz i s2) as [r s3].
      destruct Hdesc as (D3 & Hok3 & Hfr3 & Ht3 & Hw3).
      exists D3. split_and!; [done|by eapply frame_trans|done|]. intros v [Hv _].
      rewrite <- Hw2. by apply Hw3.
    + destruct Hlink as (-> & Hok1 & Hfr1 & Ht1). exists D. split_and!; [done|done|by rewrite Ht1|].
      intros v _. rewrite Ht1. split; [done|]. split; [by right; left|by left].
  - specialize (Hdesc s D es C d Hok eq_refl HD Hroot Hn Hd Hk).
    destruct (descend (S lc) rec t vo pa sz i s) as [r s2].
    destruct Hdesc as (D2 & ? & ? & ? & Hw2). exists D2. split_and!; [done..|].
    intros v [Hv _]. by apply Hw2.
  - simpl. exists D. split_and!; [done|by apply frame_refl|done|]. intros v _.
    split; [done|]. split; by left.
Qed.

(** A part of a range that the loop hands to the functor. *)
Lemma within_part l vo vo' sz size i :
  0 ≤ vo' → 0 < sz → vo' + sz ≤ (i + 1) * 2 ^ block_log2 l → i = vo' / 2 ^ block_log2 l →
  vo' + sz ≤ vo + size → vo + size ≤ 2 ^ block_log2 (S l) → within_entry l vo' sz i.
Proof.
  intros ? ? ? -> ? ?. split_and!; try done. destruct (max_entries_value l) as [Hm _].
  pose proof (block_bounds l). apply Z.div_lt_upper_bound; lia.
Qed.

(** The range operation of a level, given its functor on every entry. *)
Lemma range_op_spec R l t func vo pa size :
  composes R l → (l ≤ top)%nat → 0 ≤ vo → 0 ≤ size → vo + size ≤ 2 ^ block_log2 (S l) →
  0 ≤ pa → pa + size < 2 ^ 64 →
  (∀ vo' sz i, within_entry l vo' sz i → vo ≤ vo' → vo' + sz ≤ vo + size →
     spec (λ r, R r vo' (pa + (vo' - vo)) sz) l t (func vo' (pa + (vo' - vo)) sz i)) →
  spec (λ r, R r vo pa size) l t (range_loop (range_fuel l size) checked l (index l) vo pa size func).
Proof.
  intros HR Hl Hvo Hs Hr Hpa Hpas Hfunc. pose proof (@top_bits _ _ _ _ _ _ EL).
  pose proof (block_log2_mono (S l) (S top) ltac:(lia)).
  apply range_spec; try done; [lia|by intros; apply index_spec| |by apply range_fuel_enough].
  intros vo' pa' sz i ? ? ? ? ? ? ->. apply Hfunc; [|done..].
  by apply (within_part l vo vo' sz size).
Qed.

Lemma insert_spec l t vo pa size :
  (l ≤ top)%nat → 0 ≤ vo → 0 ≤ size → vo + size ≤ 2 ^ block_log2 (S l) → 0 ≤ pa → pa + size ≤ 2 ^ PA_BITS →
  spec (λ r, inserted (flags_rights f) r vo pa size) l t (insert_translation l f t vo pa size).
Proof.
  pose proof (@pa_bits _ _ _ _ _ _ EL). pose proof (Z.pow_lt_mono_r 2 PA_BITS 64).
  revert t vo pa size. induction l as [|l IH]; intros t vo pa size Hl Hvo Hs Hr Hpa Hpas; simpl;
    (apply range_op_spec; [apply inserted_composes|lia..|]);
    intros vo' sz i Hin ? ?; (apply insert_func_spec; [done|done|lia|lia|lia|]).
  - intros lc [=].
  - intros lc [= <-] tc vo1 pa1 sz1 ? ? ? ? ?. apply IH; lia.
Qed.

(** ** Removal *)

(** What removing the range does to the translation [o] of offset [v]: it vanishes
    when its block, which is the window of its level around [v], overlaps the
    range. *)
Definition cut (vo size v : Z) (o : option translation) : option translation :=
  match o with
  | Some (_, _, k) =>
      let w := v / 2 ^ block_log2 k * 2 ^ block_log2 k in
      if (0 <? size) && (w <? vo + size) && (vo <? w + 2 ^ block_log2 k) then None else o
  | None => None
  end.

Definition removed (r : result error unit) (vo pa size v : Z) (o n : option translation) : Prop :=
  r = Ok tt ∧ n = cut vo size v o.

Lemma removed_composes l : composes removed l.
Proof.
  constructor.
  - intros vo pa v o. split; [done|]. by destruct o as [[[? ?] k]|].
  - intros r vo pa sz rest v o n n' (? & ? & _) [_ ->] [-> ->]. split; [done|].
    destruct o as [[[p rt] k]|]; simpl; [|done].
    set (w := v / 2 ^ block_log2 k * 2 ^ block_log2 k). pose proof (block_bounds k) as [HB _].
    destruct (Z.ltb_spec 0 sz); [|lia]. destruct (Z.ltb_spec 0 (sz + rest)); [|lia]. simpl.
    destruct (Z.ltb_spec w (vo + sz)), (Z.ltb_spec vo (w + 2 ^ block_log2 k)),
      (Z.ltb_spec w (vo + (sz + rest))); simpl; try lia; try done; fold w;
    destruct (Z.ltb_spec 0 rest), (Z.ltb_spec w (vo + sz + rest)),
      (Z.ltb_spec (vo + sz) (w + 2 ^ block_log2 k)); simpl; try lia; done.
  - by intros e vo pa sz rest v o n _ [? _].
Qed.

(** A block of a deeper level lies within one entry. *)
Lemma block_in_entry k l v i :
  (k ≤ l)%nat → 0 ≤ v → 0 ≤ i →
  let w := v / 2 ^ block_log2 k * 2 ^ block_log2 k in
  (i * 2 ^ block_log2 l ≤ v < (i + 1) * 2 ^ block_log2 l →
   i * 2 ^ block_log2 l ≤ w ∧ w + 2 ^ block_log2 k ≤ (i + 1) * 2 ^ block_log2 l).
Proof.
  intros Hk Hv Hi w [H1 H2]. destruct (block_divide k l Hk) as [q Hq].
  pose proof (block_bounds k) as [HB _]. pose proof (Z.mod_pos_bound v (2 ^ block_log2 k)).
  pose proof (Z.div_mod v (2 ^ block_log2 k)). unfold w. rewrite Hq in *.
  set (B := 2 ^ block_log2 k) in *. set (x := v / B) in *.
  assert (i * q ≤ x) by (apply Z.div_le_lower_bound; nia).
  assert (x < (i + 1) * q) by (apply Z.div_lt_upper_bound; nia). nia.
Qed.

Lemma cut_outside l vo sz i v o :
  within_entry l vo sz i → 0 ≤ v → idx l v ≠ Z.to_nat i → level_le l o → cut vo sz v o = o.
Proof.
  intros Hin Hv Hw Hle. destruct o as [[[p rt] k]|]; [|done]. simpl in *.
  pose proof (block_bounds l) as [HB _]. pose proof (entry_bounds _ _ _ _ Hin) as [Hi _].
  pose proof Hin as (? & ? & Hend & Hi' & _). pose proof (Z.div_mod vo (2 ^ block_log2 l)).
  pose proof (Z.mod_pos_bound vo (2 ^ block_log2 l)).
  set (j := v / 2 ^ block_log2 l). assert (0 ≤ j) by (apply Z.div_pos; lia).
  destruct (block_in_entry k l v j Hle Hv) as [Hb1 Hb2]; [done| |].
  { pose proof (Z.div_mod v (2 ^ block_log2 l)). pose proof (Z.mod_pos_bound v (2 ^ block_log2 l)). lia. }
  assert (j ≠ i) as Hji by (intros E0; apply Hw; unfold idx; fold j; by rewrite E0).
  set (w := v / 2 ^ block_log2 k * 2 ^ block_log2 k) in *.
  destruct (Z.ltb_spec 0 sz), (Z.ltb_spec w (vo + sz)), (Z.ltb_spec vo (w + 2 ^ block_log2 k)); simpl; try done.
  exfalso. assert (j < i ∨ i < j) as [|] by lia; nia.
Qed.

(** Within the window of an entry, a cut only depends on the offset in the window. *)
Lemma cut_shift l vo sz v i o :
  0 ≤ i → level_le l o →
  cut (vo - i * 2 ^ block_log2 l) sz (v - i * 2 ^ block_log2 l) o = cut vo sz v o.
Proof.
  intros Hi Hle. destruct o as [[[p rt] k]|]; [|done]. simpl in *.
  destruct (block_divide k l Hle) as [q Hq]. pose proof (block_bounds k) as [HB _].
  rewrite Hq. set (B := 2 ^ block_log2 k) in *.
  replace (v - i * (q * B)) with (v + (- (i * q)) * B) by lia. rewrite Z.div_add by lia.
  replace ((v / B + - (i * q)) * B) with (v / B * B - i * (q * B)) by lia. f_equal.
  set (w := v / B * B). set (c := i * (q * B)).
  destruct (Z.ltb_spec 0 sz), (Z.ltb_spec (w - c) (vo - c + sz)), (Z.ltb_spec w (vo + sz)),
    (Z.ltb_spec (vo - c) (w - c + B)), (Z.ltb_spec vo (w + B)); simpl; try done; lia.
Qed.

Lemma removed_lifts l vo pa sz i :
  within_entry l vo sz i →
  lifts (λ r, removed r (vo mod 2 ^ block_log2 l) 0 sz) (λ r, removed r vo pa sz) l vo i.
Proof.
  intros Hin. split.
  - intros r v o n Hv Hw Hle [-> ->]. split; [done|].
    destruct (window_offset l vo sz i v) as [-> ->]; [done..|].
    apply cut_shift; [by apply (entry_bounds _ _ _ _ Hin)|done].
  - intros r v o o0 n0 Hv Hw Hle [-> _]. split; [done|]. symmetry. by apply (cut_outside l vo sz i).
Qed.

(** Dropping an entry whose table translates nothing. *)
Lemma unlink_entry l s t D es C i d es_c C_c :
  let tc := virt s (next_table (S l) d) in
  node (S l) (sub_tree (S l) (tables s) (virt s)) (tables s) (virt s) t D es C → ok s → D ⊆ used s →
  (root ∈ D → root = t) → es !! Z.to_nat i = Some d → kind_of (S l) d = TABLE →
  node l (sub_tree l (tables s) (virt s)) (tables s) (virt s) tc (C (Z.to_nat i)) es_c C_c →
  forallb (λ d, negb (valid l d)) es_c = true →
  ∃ s', (_ ← destruct_table tc; invalidate (S l) t i) s = (Ok tt, s') ∧ ok s' ∧ frame s s' D (D ∖ {[tc]}) ∧
    tree (S l) (tables s') (virt s) t (D ∖ {[tc]}) ∧
    ∀ v, walk (S l) (tables s') (virt s) t v = walk (S l) (tables s) (virt s) t v.
Proof.
  intros tc Hn [Hok Hra] HD Hroot Hi Hk Hc Hall. pose proof Hn as [He Hlen Hch Hno Hdj Hrt Hfp].
  destruct (all_invalid _ _ _ _ _ _ _ Hc Hall) as [HC Hwc].
  assert (tc ∈ C (Z.to_nat i)) as HtcC by (rewrite HC; set_solver).
  assert (tc ∈ D) as HtcD by (apply Hfp; right; by eexists).
  assert (tc ≠ t) as Htct by (intros E0; rewrite E0 in HtcC; by apply Hrt in HtcC).
  assert (tc ∈ live (pool s)) as Hlive.
  { specialize (HD tc HtcD). unfold used in HD. apply elem_of_union in HD as [Hr%elem_of_singleton|]; [|done].
    destruct Htct. rewrite Hr. apply Hroot. by rewrite <- Hr. }
  destruct (destruct_law (pool s) tc Hok Hlive) as (p & Hdp & Hok' & Hb & Hl).
  pose proof Hb as (Ha & Hv & Hp).
  unfold mbind at 1, exc_bind at 1, destruct_table. rewrite Hdp. rewrite (invalidate_ok _ _ t i es d) by done. cbn [tables pool].
  set (m' := <[t := <[Z.to_nat i := cleared (S l) d]> es]> (tables s)).
  destruct (entry_update (S l) (tables s) m' (virt s) t D es C (Z.to_nat i) (cleared (S l) d) ∅ Hn) as [Hn' Hw].
  { by eapply lookup_lt_Some. }
  { unfold m'. by rewrite lookup_insert_eq. }
  { intros x _ Hx _. unfold m'. by rewrite lookup_insert_ne. }
  { by rewrite cleared_kind. }
  { set_solver. }
  assert ((D ∖ C (Z.to_nat i)) ∪ ∅ = D ∖ {[tc]}) as EqD by (rewrite HC; set_solver).
  rewrite EqD in Hn'. eexists. split; [done|]. split_and!.
  - split; simpl; [done|by rewrite Ha].
  - constructor; simpl; [done|..].
    + unfold used; simpl. rewrite Hl. intros x. specialize (HD x). unfold used in HD. set_unfold.
      assert (x = tc → x ≠ root) by (intros -> ->; by apply Hra, (live_arena (pool s) Hok)).
      destruct (decide (x ∈ D)), (decide (x = tc)); subst; tauto.
    + intros x Hx _. set_solver.
    + intros x Hx Hx'. unfold m'. rewrite lookup_insert_ne; [done|]. intros <-. apply Hx', Hfp. by left.
  - apply tree_unfold. by eexists _, _.
  - intros v. change (tables (St m' p)) with m'. rewrite Hw. case_decide as Ei; [|done].
    unfold entry_walk at 1. rewrite cleared_kind.
    rewrite (walk_unfold (S l) (tables s)), He. cbn [mbind option_bind]. rewrite Ei, Hi.
    unfold entry_walk. rewrite Hk. cbn [sub_walk]. by rewrite Hwc.
Qed.

Lemma cut_block l vo sz i v p r :
  within_entry l vo sz i → 0 ≤ v → idx l v = Z.to_nat i → cut vo sz v (Some (p, r, l)) = None.
Proof.
  intros Hin Hv Hw. pose proof (entry_bounds _ _ _ _ Hin) as [Hi _].
  destruct (window_offset l vo sz i v) as [Hm _]; [done..|].
  pose proof Hin as (? & ? & Hend & Hi' & _). pose proof (block_bounds l) as [HB _].
  pose proof (Z.div_mod v (2 ^ block_log2 l)). pose proof (Z.div_mod vo (2 ^ block_log2 l)).
  pose proof (Z.mod_pos_bound vo (2 ^ block_log2 l)). simpl.
  replace (v / 2 ^ block_log2 l * 2 ^ block_log2 l) with (i * 2 ^ block_log2 l) by lia.
  destruct (Z.ltb_spec 0 sz), (Z.ltb_spec (i * 2 ^ block_log2 l) (vo + sz)),
    (Z.ltb_spec vo (i * 2 ^ block_log2 l + 2 ^ block_log2 l)); simpl; try done; lia.
Qed.

(** Clearing an entry that refers to no table. *)
Lemma clear_entry l s t D es C i d vo pa sz :
  node l (sub_tree l (tables s) (virt s)) (tables s) (virt s) t D es C → ok s → D ⊆ used s →
  es !! Z.to_nat i = Some d → kind_of l d ≠ TABLE → within_entry l vo sz i →
  let (r, s') := invalidate l t i s in
  ∃ D', ok s' ∧ frame s s' D D' ∧ tree l (tables s') (virt s) t D' ∧
    ∀ v, 0 ≤ v → removed r vo pa sz v (walk l (tables s) (virt s) t v) (walk l (tables s') (virt s) t v).
Proof.
  intros Hn Hok HD Hi Hk Hin. unfold invalidate, mbind, exc_bind. rewrite (load_ok s t i es d) by (apply Hn || done).
  destruct (store_entry l s t D es C i d (cleared l d) Hn Hok HD Hi Hk) as (s' & -> & ? & ? & ? & Hw);
    [by rewrite cleared_kind|].
  exists D. split_and!; [done..|]. intros v Hv. split; [done|]. rewrite Hw, cleared_kind.
  case_decide as Ei.
  - rewrite walk_unfold, (node_entries _ _ _ _ _ _ _ _ Hn). cbn [mbind option_bind]. rewrite Ei, Hi.
    unfold entry_walk. destruct (kind_of l d) eqn:Ek; [done|done|]. symmetry. by apply (cut_block l vo sz i).
  - symmetry. apply (cut_outside l vo sz i); [done..|]. apply walk_level.
Qed.

Lemma remove_func_spec l (rec : Z → Z → Z → exc St_ error unit) t vo pa sz i :
  (l ≤ top)%nat → within_entry l vo sz i → vo + sz ≤ 2 ^ block_log2 (S l) →
  (∀ lc, l = S lc → ∀ tc vo', 0 ≤ vo' → vo' + sz ≤ 2 ^ block_log2 (S lc) →
     spec (λ r, removed r vo' 0 sz) lc tc (rec tc vo' sz)) →
  spec (λ r, removed r vo pa sz) l t (remove_func l rec t vo pa sz i).
Proof.
  intros Hl Hin Hr Hrec s D Hok Ht HD Hroot. pose proof Hin as (Hvo & Hsz & Hend & Hi & _).
  pose proof (@top_bits _ _ _ _ _ _ EL). pose proof (block_log2_step l).
  pose proof (block_log2_mono (S l) (S top) ltac:(lia)).
  pose proof (Z.pow_le_mono_r 2 (block_log2 (S l)) 62).
  destruct (open_entry l s t D i Ht (entry_bounds _ _ _ _ Hin)) as (es & C & d & Hn & Hd).
  unfold remove_func, mbind at 1, exc_bind at 1. rewrite (load_ok s t i es d) by (apply Hn || done).
  assert (kind_of l d ≠ TABLE → let (r, s') := invalidate l t i s in
    ∃ D', ok s' ∧ frame s s' D D' ∧ tree l (tables s') (virt s) t D' ∧
    ∀ v, 0 ≤ v < 2 ^ block_log2 (S l) →
      removed r vo pa sz v (walk l (tables s) (virt s) t v) (walk l (tables s') (virt s) t v)) as Hclear.
  { intros Hk. pose proof (clear_entry l s t D es C i d vo pa sz Hn Hok HD Hd Hk Hin) as Hc.
    destruct (invalidate l t i s) as [r s']. destruct Hc as (D' & ? & ? & ? & Hw). exists D'.
    split_and!; try done. intros v [Hv _]. by apply Hw. }
  destruct (kind_of l d) eqn:Hk; [|clear Hclear|by apply Hclear].
  - destruct (clears_invalid l); [by apply Hclear|]. exists D.
    split_and!; [done|by apply frame_refl|done|]. intros v [Hv _]. split; [done|].
    destruct (decide (idx l v = Z.to_nat i)) as [Ei|Ei].
    + rewrite walk_unfold, (node_entries _ _ _ _ _ _ _ _ Hn). cbn [mbind option_bind].
      rewrite Ei, Hd. unfold entry_walk. by rewrite Hk.
    + symmetry. apply (cut_outside l vo sz i); [done..|]. apply walk_level.
  - destruct l as [|lc]; [by destruct (kind_leaf d)|].
    pose proof (sub_range _ _ _ _ Hin) as [Hs0 Hs1].
    unfold virt_of, mbind, exc_bind. rewrite offset_in_entry by (lia || word_lia).
    pose proof (call_child _ _ lc s t D es C i d vo sz _ Hn Hok HD Hroot Hd Hk Hin
      (removed_lifts (S lc) vo pa sz i Hin)
      (Hrec lc eq_refl (virt s (next_table (S lc) d)) _ Hs0 Hs1)) as Hc.
    change (pool_virt (pool s)) with (virt s). destruct (rec _ _ _ s) as [r s1].
    destruct Hc as (C1 & D1 & Hok1 & Hfr1 & Hn1 & Hw1).
    assert (r = Ok tt) as -> by (destruct (Hw1 0) as [-> _]; done).
    pose proof (frame_virt _ _ _ _ Hfr1) as Hv1.
    pose proof (node_child _ _ _ _ _ _ _ _ Hn1 _ _ Hd) as Hci. rewrite Hk in Hci. simpl in Hci.
    apply tree_unfold in Hci as (es_c & C_c & Hnc). unfold table_empty.
    rewrite (node_entries _ _ _ _ _ _ _ _ Hnc). cbn [pred].
    destruct (forallb (λ d, negb (valid lc d)) es_c) eqn:Hall; cycle 1.
    { exists D1. split_and!; [done|done|apply tree_unfold; by eexists _, _|]. intros v [Hv _]. by apply Hw1. }
    assert (D1 ⊆ used s1) as HD1 by (intros x Hx; apply (fr_used _ _ _ _ Hfr1); by right).
    assert (root ∈ D1 → root = t) as Hroot1.
    { intros Hx. apply Hroot, (fr_new _ _ _ _ Hfr1); [done|]. unfold used. set_solver. }
    rewrite <- Hv1 in Hn1, Hnc.
    destruct (unlink_entry lc s1 t D1 es C1 i d es_c C_c Hn1 Hok1 HD1 Hroot1 Hd Hk Hnc Hall)
      as (s2 & Hs2 & Hok2 & Hfr2 & Ht2 & Hw2).
    unfold mbind, exc_bind in Hs2. rewrite <- Hv1, Hs2. rewrite Hv1 in *.
    exists (D1 ∖ {[virt s (next_table (S lc) d)]}).
    split_and!; [done|by eapply frame_trans|done|]. intros v [Hv _]. rewrite Hw2. by apply Hw1.
Qed.

(** Ranges of a table are addresses of the machine. *)
Lemma size_word l vo size :
  (l ≤ top)%nat → 0 ≤ vo → vo + size ≤ 2 ^ block_log2 (S l) → size < 2 ^ 64.
Proof.
  intros Hl Hvo Hr. pose proof (@top_bits _ _ _ _ _ _ EL).
  pose proof (block_log2_mono (S l) (S top) ltac:(lia)).
  pose proof (Z.pow_le_mono_r 2 (block_log2 (S l)) 62). lia.
Qed.

Lemma remove_spec l t vo size :
  (l ≤ top)%nat → 0 ≤ vo → 0 ≤ size → vo + size ≤ 2 ^ block_log2 (S l) →
  spec (λ r, removed r vo 0 size) l t (remove_translation l t vo size).
Proof.
  revert t vo size. induction l as [|l IH]; intros t vo size Hl Hvo Hs Hr; simpl;
    pose proof (size_word _ _ _ Hl Hvo Hr);
    (apply range_op_spec; [apply removed_composes|lia..|]);
    intros vo' sz i Hin ? ?; pose proof Hin as (? & ? & _); (apply remove_func_spec; [done|done|lia|]).
  - intros lc [=].
  - intros lc [= <-] tc vo1 ? ?. apply IH; lia.
Qed.

End Encodings.

(** ** A root table that uses the pool alone *)

Section Whole.
Context {top : nat}.

(** The tables in use are exactly those of the tree below the root table. *)
Definition well_formed (s : St_) : Prop :=
  ok s ∧ ∃ D, tree top (tables s) (virt s) root D ∧ ∀ x, x ∈ D ↔ x ∈ used s.

(** The translation of an offset by the tables of a state. *)
Definition translate (s : St_) (v : Z) : option translation := walk top (tables s) (virt s) root v.

Lemma spec_whole R m s :
  spec R top root m → well_formed s →
  let (r, s') := m s in
  well_formed s' ∧ ∀ v, 0 ≤ v < 2 ^ block_log2 (S top) → R r v (translate s v) (translate s' v).
Proof.
  intros Hm [Hok (D & Ht & HD)]. specialize (Hm s D Hok Ht ltac:(intros x; apply HD) ltac:(done)).
  destruct (m s) as [r s']. destruct Hm as (D' & Hok' & Hfr & Ht' & Hw).
  rewrite <- (frame_virt _ _ _ _ Hfr) in Ht'. split.
  - split; [done|]. exists D'. split; [done|]. intros x. rewrite (fr_used _ _ _ _ Hfr), HD. tauto.
  - intros v Hv. unfold translate. rewrite (frame_virt _ _ _ _ Hfr). auto.
Qed.

Lemma spec_ext R (m m' : exc St_ error unit) l t : (∀ s, m' s = m s) → spec R l t m → spec R l t m'.
Proof. intros Hm Hs s D. rewrite Hm. apply Hs. Qed.

(** A cleared root table next to an unused pool. *)
Lemma well_formed_empty s n :
  ok s → live (pool s) = ∅ → tables s !! root = Some (replicate n 0) → n = Z.to_nat (max_entries top) →
  well_formed s ∧ ∀ v, translate s v = None.
Proof.
  intros Hok Hl Hr ->. destruct (empty_tree top (tables s) (virt s) root Hr) as [Ht Hw].
  split; [|done]. split; [done|]. exists {[root]}. split; [done|].
  intros x. unfold used. rewrite Hl. set_solver.
Qed.

End Whole.
End Spec.

(** ** A concrete machine: a root table at 0x100000 and a pool of four tables *)

Definition demo_root : Z := 0x100000.

Definition demo_state (entries : nat) : state Page_table_allocator.t :=
  St {[ demo_root := replicate entries 0 ]} demo_pool.

Lemma demo_well_formed `{FL : Format_laws} top :
  well_formed (H := array_pool 4096) (PL := demo_pool_laws) demo_root (top := top)
    (demo_state (Z.to_nat (max_entries top))).
Proof.
  refine (proj1 (well_formed_empty (top := top) demo_root _ (Z.to_nat (max_entries top)) _ _ _ _)).
  - split; [exact demo_pool_ok|]. simpl. intros Hin%elem_of_list_to_set. revert Hin. vm_compute. set_solver.
  - reflexivity.
  - simpl. by rewrite lookup_singleton_eq.
  - done.
Qed.
