(* ===== verification/X86_64.v ===== *)
(** * X86_64: the IA-32e page tables

    Model of [src/repos/base-hw/src/include/hw/spec/x86_64/page_table.h]: the
    descriptors as registers with bit fields, and the functors of the four levels.
    Level 0 of the model is the code's [Level_4_translation_table], levels 1 and 2
    are the instances of [Page_directory], and level 3 is [Pml4_table].  The
    theorems instantiate the format-independent ones of [Page_table_spec]. *)

From S2P Require Import Prelude.
From S2P Require Import Register.
From S2P Require Import Page_table_allocator.
From S2P Require Import Page_table.
From S2P Require Import Page_table_spec.

Open Scope Z_scope.
Open Scope word_scope.

(** ** Descriptors *)

Module Common_descriptor.

Definition P := Bitfield 0 1.
Definition Rw := Bitfield 1 1.
Definition Us := Bitfield 2 1.
Definition Pwt := Bitfield 3 1.
Definition Pcd := Bitfield 4 1.
Definition A := Bitfield 5 1.
Definition D := Bitfield 6 1.
Definition Xd := Bitfield 63 1.

Definition present (v : Z) : bool := negb (get 64 P v =? 0).

Definition create (flags : Page_flags) : Z :=
  Z.lor (Z.lor (Z.lor (bits 64 P 1)
    (bits 64 Rw (Z.b2z (writeable flags))))
    (bits 64 Us (Z.b2z (negb (privileged flags)))))
    (bits 64 Xd (Z.b2z (negb (executable flags)))).

Definition clear_mmu_flags (value : Z) : Z := clear 64 D (clear 64 A value).

End Common_descriptor.

(** Whether the memory is write combined. *)
Definition wc (flags : Page_flags) : bool :=
  match cacheable flags with WRITE_COMBINED => true | _ => false end.

Module Level_4_descriptor.

Definition G := Bitfield 8 1.
Definition Pa := Bitfield 12 36.

Definition create (flags : Page_flags) (pa : Z) : Z :=
  Z.lor (Z.lor (Z.lor (Common_descriptor.create flags)
    (bits 64 G (Z.b2z (global flags))))
    (masked 64 Pa pa))
    (bits 64 Common_descriptor.Pwt (if wc flags then 1 else 0)).

End Level_4_descriptor.

(** [Base_descriptor], [Page_descriptor] and [Table_descriptor] of [Page_directory]. *)
Definition Ps := Bitfield 7 1.

Definition maps_page (v : Z) : bool := negb (get 64 Ps v =? 0).

Module Page_descriptor.

Definition G := Bitfield 8 1.
Definition Pa (PAGE_SIZE_LOG2 : Z) := Bitfield PAGE_SIZE_LOG2 (48 - PAGE_SIZE_LOG2).

Definition create (PAGE_SIZE_LOG2 : Z) (flags : Page_flags) (pa : Z) : Z :=
  Z.lor (Z.lor (Z.lor (Z.lor (Common_descriptor.create flags)
    (bits 64 Ps 1))
    (bits 64 G (Z.b2z (global flags))))
    (masked 64 (Pa PAGE_SIZE_LOG2) pa))
    (bits 64 Common_descriptor.Pwt (if wc flags then 1 else 0)).

End Page_descriptor.

(** The flags of a reference to a table; the access rights are those of the page. *)
Definition table_flags : Page_flags := Flags true true false false RAM CACHED.

Module Table_descriptor.

Definition Pa := Bitfield 12 36.

Definition create (pa : Z) : Z := Z.lor (Common_descriptor.create table_flags) (masked 64 Pa pa).

End Table_descriptor.

Module Pml4_descriptor.

(** The width is [SIZE_LOG2] of the table in the code. *)
Definition Pa := Bitfield 12 48.

Definition create (pa : Z) : Z := Z.lor (Common_descriptor.create table_flags) (masked 64 Pa pa).

End Pml4_descriptor.

(** ** The format *)

Definition SIZE_LOG2_4KB : Z := 12.
Definition SIZE_LOG2_2MB : Z := 21.
Definition SIZE_LOG2_1GB : Z := 30.
Definition SIZE_LOG2_512GB : Z := 39.
Definition SIZE_LOG2_256TB : Z := 48.

Definition page_size_log2 (l : nat) : Z := 12 + 9 * Z.of_nat l.

(** What the hardware reads in an entry of a level. *)
Definition x86_kind (l : nat) (d : Z) : kind :=
  if negb (Common_descriptor.present d) then INVALID
  else match l with
       | O => BLOCK
       | 1%nat | 2%nat => if maps_page d then BLOCK else TABLE
       | _ => TABLE
       end.

#[export] Instance x86_format : Format := {
  block_log2 := page_size_log2;
  kind_of := x86_kind;
  next_table l d := masked 64 (if (l <? 3)%nat then Table_descriptor.Pa else Pml4_descriptor.Pa) d;
  block_pa l d := masked 64 (Page_descriptor.Pa (page_size_log2 l)) d;
  block_rights _ d := Rights (Z.testbit d 1) (negb (Z.testbit d 63)) (Z.testbit d 2) (Z.testbit d 8) }.

(** ** The tables *)

Module Level_4.
Section Operations.
Context {P : Type} `{Table_pool P}.

Definition insert_func (flags : Page_flags) (t vo pa size i : Z) : exc (state P) error unit :=
  if unaligned 0 vo pa size then throw Invalid_range
  else
    let table_entry := Level_4_descriptor.create flags pa in
    desc ← load t i;
    if Common_descriptor.present desc &&
       negb (Common_descriptor.clear_mmu_flags desc =? table_entry)
    then throw Double_insertion
    else store t i table_entry.

Definition remove_func (t vo pa size i : Z) : exc (state P) error unit := store t i 0.

Definition _range_op (vo pa size : Z) (func : Z → Z → Z → Z → exc (state P) error unit) :
    exc (state P) error unit :=
  range_loop (range_fuel 0 size) true 0 (λ vo, Z.shiftr vo SIZE_LOG2_4KB) vo pa size func.

Definition empty (t : Z) : exc (state P) error bool := table_empty Common_descriptor.present t.

Definition insert_translation (flags : Page_flags) (t vo pa size : Z) : exc (state P) error unit :=
  _range_op vo pa size (insert_func flags t).

Definition remove_translation (t vo size : Z) : exc (state P) error unit :=
  _range_op vo 0 size (remove_func t).

End Operations.
End Level_4.

(** The template [Page_directory<ENTRY, PAGE_SIZE_LOG2, SIZE_LOG2>] for the entries of
    level [l]: [ENTRY] is given by its level and its operations. *)
Module Page_directory.
Section Operations.
Context {P : Type} `{Table_pool P}.
Context (l : nat) (lc : nat).
Context (entry_insert : Page_flags → Z → Z → Z → Z → exc (state P) error unit).
Context (entry_remove : Z → Z → Z → exc (state P) error unit).
Context (entry_empty : Z → exc (state P) error bool).

Definition insert_func (flags : Page_flags) (t vo pa size i : Z) : exc (state P) error unit :=
  if negb (unaligned l vo pa size) then
    let table_entry := Page_descriptor.create (page_size_log2 l) flags pa in
    desc ← load t i;
    if Common_descriptor.present desc &&
       negb (Common_descriptor.clear_mmu_flags desc =? table_entry)
    then throw Double_insertion
    else store t i table_entry
  else
    desc ← load t i;
    _ ← (if negb (Common_descriptor.present desc) then
           table ← construct_table lc;
           pa_table ← phys_of table;
           store t i (Table_descriptor.create pa_table)
         else if maps_page desc then throw Double_insertion
         else mret tt);
    desc ← load t i;
    table ← virt_of (masked 64 Table_descriptor.Pa desc);
    entry_insert flags table (vo -64 Z.land vo (block_mask l)) pa size.

Definition remove_func (t vo pa size i : Z) : exc (state P) error unit :=
  desc ← load t i;
  if Common_descriptor.present desc then
    if maps_page desc then store t i 0
    else
      table ← virt_of (masked 64 Table_descriptor.Pa desc);
      _ ← entry_remove table (vo -64 Z.land vo (block_mask l)) size;
      e ← entry_empty table;
      if (e : bool) then _ ← destruct_table table; store t i 0 else mret tt
  else mret tt.

Definition _range_op (vo pa size : Z) (func : Z → Z → Z → Z → exc (state P) error unit) :
    exc (state P) error unit :=
  range_loop (range_fuel l size) true l (λ vo, Z.shiftr vo (page_size_log2 l)) vo pa size func.

Definition empty (t : Z) : exc (state P) error bool := table_empty Common_descriptor.present t.

Definition insert_translation (flags : Page_flags) (t vo pa size : Z) : exc (state P) error unit :=
  _range_op vo pa size (insert_func flags t).

Definition remove_translation (t vo size : Z) : exc (state P) error unit :=
  _range_op vo 0 size (remove_func t).

End Operations.
End Page_directory.

Module Level_3.
Section Operations.
Context {P : Type} `{Table_pool P}.

Definition insert_translation : Page_flags → Z → Z → Z → Z → exc (state P) error unit :=
  Page_directory.insert_translation 1 0 Level_4.insert_translation.
Definition remove_translation : Z → Z → Z → exc (state P) error unit :=
  Page_directory.remove_translation 1 Level_4.remove_translation Level_4.empty.

End Operations.
End Level_3.

Module Level_2.
Section Operations.
Context {P : Type} `{Table_pool P}.

Definition insert_translation : Page_flags → Z → Z → Z → Z → exc (state P) error unit :=
  Page_directory.insert_translation 2 1 Level_3.insert_translation.
Definition remove_translation : Z → Z → Z → exc (state P) error unit :=
  Page_directory.remove_translation 2 Level_3.remove_translation Page_directory.empty.

End Operations.
End Level_2.

Module Pml4_table.
Section Operations.
Context {P : Type} `{Table_pool P}.

Definition SIZE_MASK : Z := Z.shiftl 1 SIZE_LOG2_256TB -64 1.
Definition MAX_ENTRIES : Z := 512.

Definition insert_func (flags : Page_flags) (t vo pa size i : Z) : exc (state P) error unit :=
  desc ← load t i;
  _ ← (if negb (Common_descriptor.present desc) then
         table ← construct_table 2;
         pa_table ← phys_of table;
         store t i (Pml4_descriptor.create pa_table)
       else mret tt);
  desc ← load t i;
  table ← virt_of (masked 64 Pml4_descriptor.Pa desc);
  Level_2.insert_translation flags table (vo -64 Z.land vo (block_mask 3)) pa size.

Definition remove_func (t vo pa size i : Z) : exc (state P) error unit :=
  desc ← load t i;
  if Common_descriptor.present desc then
    table ← virt_of (masked 64 Pml4_descriptor.Pa desc);
    _ ← Level_2.remove_translation table (vo -64 Z.land vo (block_mask 3)) size;
    e ← Page_directory.empty table;
    if (e : bool) then _ ← destruct_table table; store t i 0 else mret tt
  else mret tt.

Definition _range_op (vo pa size : Z) (func : Z → Z → Z → Z → exc (state P) error unit) :
    exc (state P) error unit :=
  range_loop (range_fuel 3 size) true 3 (λ vo, Z.shiftr (Z.land vo SIZE_MASK) SIZE_LOG2_512GB) vo pa size func.

Definition empty (t : Z) : exc (state P) error bool := table_empty Common_descriptor.present t.

(** The constructor that takes over the kernel's entries of the upper address range. *)
Definition Pml4_table (kernel_table : list Z) : list Z :=
  let first := Z.shiftr (Z.land 0xffffffc000000000 SIZE_MASK) SIZE_LOG2_512GB in
  replicate (Z.to_nat first) 0 ++ drop (Z.to_nat first) kernel_table.

Definition insert_translation (flags : Page_flags) (t vo pa size : Z) : exc (state P) error unit :=
  _range_op vo pa size (insert_func flags t).

Definition remove_translation (t vo size : Z) : exc (state P) error unit :=
  _range_op vo 0 size (remove_func t).

End Operations.
End Pml4_table.

(** ** The encodings the four levels write *)

#[export] Instance x86_encoding : Encoding := {
  flags_rights := rights_of_flags;
  checked := true;
  block_desc l f pa := match l with
    | O => Level_4_descriptor.create f pa
    | _ => Page_descriptor.create (page_size_log2 l) f pa
    end;
  table_desc l pa := if (l <? 3)%nat then Table_descriptor.create pa else Pml4_descriptor.create pa;
  normal := Common_descriptor.clear_mmu_flags;
  blocks_at l := (l <? 3)%nat;
  conflict := Double_insertion;
  cleared _ _ := 0;
  clears_invalid l := (l =? 0)%nat;
  index l := if (l <? 3)%nat then λ vo, Z.shiftr vo (page_size_log2 l)
             else λ vo, Z.shiftr (Z.land vo Pml4_table.SIZE_MASK) SIZE_LOG2_512GB }.

(** ** Bits of the descriptors *)

Lemma present_bit d : Common_descriptor.present d = Z.testbit d 0.
Proof.
  unfold Common_descriptor.present, Common_descriptor.P. rewrite get_flag by lia.
  by destruct (Z.testbit d 0).
Qed.

Lemma maps_page_bit d : maps_page d = Z.testbit d 7.
Proof. unfold maps_page, Ps. rewrite get_flag by lia. by destruct (Z.testbit d 7). Qed.

Lemma common_bit f i : 0 ≤ i →
  Z.testbit (Common_descriptor.create f) i =
    (i =? 0) || (i =? 1) && writeable f || (i =? 2) && negb (privileged f) || (i =? 63) && negb (executable f).
Proof.
  intros Hi. unfold Common_descriptor.create, Common_descriptor.Rw, Common_descriptor.Us, Common_descriptor.Xd.
  change (bits 64 Common_descriptor.P 1) with (bits 64 (Bitfield 0 1) (Z.b2z true)).
  rewrite !Z.lor_spec, !bits_flag by lia. by rewrite andb_true_r.
Qed.

(** The physical address of an entry starts at bit [k]. *)
Definition address_field (k : Z) : bitfield := Bitfield k (48 - k).

Lemma address_field_ok k : 12 ≤ k < 48 → field_ok 64 (address_field k).
Proof. intros. unfold field_ok; simpl. lia. Qed.

Lemma level_4_bit f pa i : 0 ≤ i →
  Z.testbit (Level_4_descriptor.create f pa) i =
    Z.testbit (Common_descriptor.create f) i || (i =? 8) && global f ||
    covers (address_field 12) i && Z.testbit pa i || (i =? 3) && wc f.
Proof.
  intros Hi. unfold Level_4_descriptor.create, Level_4_descriptor.G, Common_descriptor.Pwt.
  change (if wc f then 1 else 0) with (Z.b2z (wc f)).
  rewrite !Z.lor_spec, !bits_flag by lia. change Level_4_descriptor.Pa with (address_field 12).
  by rewrite masked_bit by (done || apply address_field_ok; lia).
Qed.

Lemma x86_page_bit k f pa i : 12 ≤ k < 48 → 0 ≤ i →
  Z.testbit (Page_descriptor.create k f pa) i =
    Z.testbit (Common_descriptor.create f) i || (i =? 7) || (i =? 8) && global f ||
    covers (address_field k) i && Z.testbit pa i || (i =? 3) && wc f.
Proof.
  intros Hk Hi. unfold Page_descriptor.create, Page_descriptor.G, Common_descriptor.Pwt.
  change (if wc f then 1 else 0) with (Z.b2z (wc f)).
  change (bits 64 Ps 1) with (bits 64 (Bitfield 7 1) (Z.b2z true)).
  rewrite !Z.lor_spec, !bits_flag by lia. change (Page_descriptor.Pa k) with (address_field k).
  rewrite masked_bit by (done || by apply address_field_ok). by rewrite andb_true_r.
Qed.

(** Both are one format up to the bit that tells pages from tables. *)
Lemma x86_block_bit l f pa i : (l <? 3)%nat = true → 0 ≤ i →
  Z.testbit (block_desc l f pa) i =
    Z.testbit (Common_descriptor.create f) i || (i =? 7) && negb (l =? 0)%nat || (i =? 8) && global f ||
    covers (address_field (page_size_log2 l)) i && Z.testbit pa i || (i =? 3) && wc f.
Proof.
  intros Hl%Nat.ltb_lt Hi. destruct l as [|l]; cbn [block_desc x86_encoding].
  - rewrite level_4_bit by done. by rewrite andb_false_r, orb_false_r.
  - rewrite x86_page_bit by (done || unfold page_size_log2; lia). by rewrite andb_true_r.
Qed.

Lemma not_covered k i : i < k → covers (address_field k) i = false.
Proof. intros. unfold covers; simpl. destruct (Z.leb_spec k i); [lia|done]. Qed.

Lemma x86_table_bit l pa i : 0 ≤ i →
  Z.testbit (table_desc l pa) i =
    (i =? 0) || (i =? 1) || (i =? 2) ||
    covers (if (l <? 3)%nat then Table_descriptor.Pa else Pml4_descriptor.Pa) i && Z.testbit pa i.
Proof.
  intros Hi. cbn [table_desc x86_encoding].
  destruct (l <? 3)%nat; unfold Table_descriptor.create, Pml4_descriptor.create;
    rewrite Z.lor_spec, common_bit, masked_bit by (done || unfold field_ok; simpl; lia);
    cbn [writeable privileged executable table_flags negb]; by rewrite !andb_true_r, andb_false_r, orb_false_r.
Qed.

Lemma clear_mmu_bit d i : 0 ≤ i < 5 ∨ i = 7 →
  Z.testbit (Common_descriptor.clear_mmu_flags d) i = Z.testbit d i.
Proof.
  intros Hi. unfold Common_descriptor.clear_mmu_flags, clear.
  rewrite !Z.land_spec.
  assert (∀ j, j = 5 ∨ j = 6 → Z.testbit (clear_mask 64 (Bitfield j 1)) i = true) as H.
  { intros j Hj. unfold clear_mask. rewrite wrap_testbit, Z.lnot_spec by lia.
    rewrite reg_mask_bit by (unfold field_ok; simpl; lia). unfold covers; simpl.
    destruct (Z.ltb_spec i 64); [|lia].
    destruct (Z.leb_spec j i), (Z.ltb_spec i (j + 1)); simpl; lia. }
  unfold Common_descriptor.A, Common_descriptor.D. rewrite !H by lia. by rewrite !andb_true_r.
Qed.

(** ** The laws of the format *)

Lemma x86_kind_bits l d :
  kind_of l d =
    if negb (Z.testbit d 0) then INVALID
    else match l with O => BLOCK | 1%nat | 2%nat => if Z.testbit d 7 then BLOCK else TABLE | _ => TABLE end.
Proof.
  cbn [kind_of x86_format]. unfold x86_kind. rewrite present_bit, maps_page_bit. done.
Qed.

#[export] Instance x86_format_laws : Format_laws.
Proof.
  constructor.
  - done.
  - intros l. cbn [block_log2 x86_format]. unfold page_size_log2. lia.
  - intros d. rewrite x86_kind_bits. by destruct (Z.testbit d 0).
  - intros l. rewrite x86_kind_bits. done.
Qed.

#[export] Instance x86_encoding_laws : Encoding_laws 3 48 4096 (2 ^ 48).
Proof.
  constructor.
  - lia.
  - done.
  - done.
  - intros l f pa Hl Hpa. rewrite x86_kind_bits, !x86_block_bit, !common_bit by (done || lia). simpl.
    destruct l as [|[|[|l]]]; done.
  - intros l f pa Hl Hpa Hal. pose proof (proj1 (Nat.ltb_lt l 3) Hl) as Hl'. cbn [block_pa x86_format].
    change (Page_descriptor.Pa (page_size_log2 l)) with (address_field (page_size_log2 l)).
    assert (12 ≤ page_size_log2 l < 48) by (unfold page_size_log2; lia).
    apply masked_exact; [by apply address_field_ok| |done|].
    + cbn [address_field SHIFT WIDTH]. by replace (_ + (48 - _)) with 48 by lia.
    + cbn [address_field SHIFT WIDTH]. intros i Hi. rewrite x86_block_bit, common_bit by (done || lia).
      unfold covers; cbn [address_field SHIFT WIDTH].
      zcases; try lia; simpl. by rewrite orb_false_r.
  - intros l f pa Hl Hpa. pose proof (proj1 (Nat.ltb_lt l 3) Hl) as Hl'. cbn [block_rights x86_format].
    assert (12 ≤ page_size_log2 l < 48) by (unfold page_size_log2; lia).
    rewrite !x86_block_bit, !common_bit, !(not_covered _ 1), !(not_covered _ 2), !(not_covered _ 8) by (done || lia).
    assert (covers (address_field (page_size_log2 l)) 63 = false) as ->.
    { unfold covers; cbn [address_field SHIFT WIDTH]. zcases; [lia|done..]. }
    cbn [flags_rights x86_encoding]. unfold rights_of_flags. simpl. rewrite !orb_false_r. f_equal. by destruct (executable f).
  - intros l pa. rewrite x86_kind_bits, !x86_table_bit by lia. simpl.
    replace (covers _ 7) with false; [by destruct l as [|[|l]]|]. by destruct (S l <? 3)%nat.
  - intros l pa Hal Hpa. cbn [next_table x86_format].
    set (g := if (S l <? 3)%nat then Table_descriptor.Pa else Pml4_descriptor.Pa).
    assert (SHIFT g = 12 ∧ 36 ≤ WIDTH g ≤ 48) as [Hs Hw] by (subst g; by destruct (S l <? 3)%nat).
    apply masked_exact.
    + unfold field_ok. rewrite Hs. lia.
    + pose proof (Z.pow_le_mono_r 2 48 (SHIFT g + WIDTH g)). unfold in_range. lia.
    + by rewrite Hs.
    + intros i Hi. rewrite x86_table_bit by lia. fold g. unfold covers. rewrite Hs in *.
      zcases; try lia. simpl. done.
  - intros l d. cbn [cleared x86_encoding]. by rewrite x86_kind_bits.
  - intros l d. rewrite !x86_kind_bits. cbn [normal x86_encoding]. by rewrite !clear_mmu_bit by lia.
  - intros l vo Hl Hvo. cbn [index x86_encoding block_log2 x86_format] in *.
    destruct (Nat.ltb_spec l 3); [apply Z.shiftr_div_pow2; unfold page_size_log2; lia|].
    assert (l = 3%nat) as -> by lia. change (page_size_log2 4) with 48 in Hvo.
    change Pml4_table.SIZE_MASK with (Z.ones 48). rewrite Z.land_ones, Z.mod_small by lia.
    by apply Z.shiftr_div_pow2.
Qed.

(** ** The functors of the code are instances of the generic ones *)

Section Equivalence.
Context {P : Type} `{Table_pool P}.

Lemma level_4_insert f t vo pa size s :
  Level_4.insert_translation f t vo pa size s = insert_translation (P := P) 0 f t vo pa size s.
Proof.
  rewrite insert_translation_eq. apply range_loop_ext. clear. intros vo pa size i s.
  unfold Level_4.insert_func, insert_func. cbn [blocks_at x86_encoding].
  change ((0 <? 3)%nat && ?b) with b. destruct (unaligned 0 vo pa size); simpl; [done|].
  apply bind_ext; [done|]. intros d s'. unfold valid. rewrite x86_kind_bits, present_bit.
  by destruct (Z.testbit d 0).
Qed.

Lemma level_4_remove t vo size s :
  Level_4.remove_translation t vo size s = remove_translation (P := P) 0 t vo size s.
Proof.
  rewrite remove_translation_eq. apply range_loop_ext. clear. intros vo pa size i s.
  unfold Level_4.remove_func. rewrite remove_func_overwrites, <- load_then_store by done.
  apply bind_ext; [done|]. intros d s'. rewrite x86_kind_bits. by destruct (Z.testbit d 0).
Qed.

(** All levels agree on what makes a table empty. *)
Lemma x86_empty_valid l t (s : state P) :
  table_empty Common_descriptor.present t s = table_empty (valid l) t s.
Proof.
  unfold table_empty. destruct (tables s !! t) as [es|]; [|done]. do 2 f_equal.
  induction es as [|d es IH]; [done|]. cbn [forallb]. rewrite IH. f_equal.
  unfold valid. rewrite x86_kind_bits, present_bit.
  destruct (Z.testbit d 0), l as [|[|[|l]]], (Z.testbit d 7); reflexivity.
Qed.

Section Directory.
Context (lc : nat) (Hlc : (lc < 2)%nat).
Lemma directory_kind d :
  kind_of (S lc) d = if negb (Common_descriptor.present d) then INVALID else if maps_page d then BLOCK else TABLE.
Proof. rewrite x86_kind_bits, present_bit, maps_page_bit. destruct lc as [|[|]]; [done..|lia]. Qed.

Lemma directory_blocks : blocks_at (S lc) = true.
Proof. destruct lc as [|[|]]; [done..|lia]. Qed.

Lemma directory_table_desc pa : table_desc (S lc) pa = Table_descriptor.create pa.
Proof. destruct lc as [|[|]]; [done..|lia]. Qed.

Lemma directory_next_table d : next_table (S lc) d = masked 64 Table_descriptor.Pa d.
Proof. destruct lc as [|[|]]; [done..|lia]. Qed.

Lemma directory_index : index (S lc) = λ vo, Z.shiftr vo (page_size_log2 (S lc)).
Proof. destruct lc as [|[|]]; [done..|lia]. Qed.

Context (entry_insert : Page_flags → Z → Z → Z → Z → exc (state P) error unit).
Context (entry_remove : Z → Z → Z → exc (state P) error unit).
Context (entry_empty : Z → exc (state P) error bool).
Context (Hinsert : ∀ f t vo pa size s, entry_insert f t vo pa size s = insert_translation lc f t vo pa size s).
Context (Hremove : ∀ t vo size s, entry_remove t vo size s = remove_translation lc t vo size s).
Context (Hempty : ∀ t s, entry_empty t s = table_empty (valid lc) t s).

Lemma x86_directory_insert_func f t vo pa size i s :
  Page_directory.insert_func (S lc) lc entry_insert f t vo pa size i s =
  insert_func (S lc) (insert_translation lc f) f t vo pa size i s.
Proof.
  unfold Page_directory.insert_func, insert_func. rewrite directory_blocks.
  destruct (unaligned (S lc) vo pa size); cbn [negb andb].
  - apply bind_ext; [done|]. intros d s1. rewrite directory_kind. destruct (Common_descriptor.present d); cbn [negb].
    + destruct (maps_page d); [done|]. rewrite ret_bind. unfold descend.
      apply bind_ext; [done|]. intros d' s2. rewrite directory_next_table. apply bind_ext; [done|]. intros. apply Hinsert.
    + rewrite bind_assoc. apply bind_ext; [done|]. intros tc s2. rewrite bind_assoc.
      apply bind_ext; [done|]. intros pac s3. rewrite directory_table_desc. apply bind_ext; [done|]. intros _ s4. unfold descend.
      apply bind_ext; [done|]. intros d' s5. rewrite directory_next_table. apply bind_ext; [done|]. intros. apply Hinsert.
  - apply bind_ext; [done|]. intros d s1. unfold valid. rewrite directory_kind.
    by destruct (Common_descriptor.present d), (maps_page d).
Qed.

Lemma x86_directory_remove_func t vo pa size i s :
  Page_directory.remove_func (S lc) entry_remove entry_empty t vo pa size i s =
  remove_func (S lc) (remove_translation lc) t vo pa size i s.
Proof.
  unfold Page_directory.remove_func. rewrite remove_func_overwrites by done.
  apply bind_ext; [done|]. intros d s1. rewrite directory_kind.
  destruct (Common_descriptor.present d); cbn [negb]; [|done]. destruct (maps_page d); [done|].
  rewrite directory_next_table. apply bind_ext; [done|]. intros tc s2. apply bind_ext; [apply Hremove|].
  intros _ s3. apply bind_ext; [apply Hempty|]. done.
Qed.

Lemma x86_directory_insert f t vo pa size s :
  Page_directory.insert_translation (S lc) lc entry_insert f t vo pa size s =
  insert_translation (S lc) f t vo pa size s.
Proof.
  rewrite insert_translation_eq. unfold Page_directory.insert_translation, Page_directory._range_op.
  rewrite directory_index.
  apply range_loop_ext. intros. apply x86_directory_insert_func.
Qed.

Lemma x86_directory_remove t vo size s :
  Page_directory.remove_translation (S lc) entry_remove entry_empty t vo size s =
  remove_translation (S lc) t vo size s.
Proof.
  rewrite remove_translation_eq. unfold Page_directory.remove_translation, Page_directory._range_op.
  rewrite directory_index.
  apply range_loop_ext. intros. apply x86_directory_remove_func.
Qed.
End Directory.

Lemma level_2_insert f t vo pa size s :
  Level_2.insert_translation f t vo pa size s = insert_translation (P := P) 2 f t vo pa size s.
Proof. apply x86_directory_insert; [lia|]. apply x86_directory_insert; [lia|]. apply level_4_insert. Qed.

Lemma level_2_remove t vo size s :
  Level_2.remove_translation t vo size s = remove_translation (P := P) 2 t vo size s.
Proof.
  apply x86_directory_remove; [lia| |apply x86_empty_valid].
  apply x86_directory_remove; [lia|apply level_4_remove|apply x86_empty_valid].
Qed.

Lemma pml4_insert f t vo pa size s :
  Pml4_table.insert_translation f t vo pa size s = insert_translation (P := P) 3 f t vo pa size s.
Proof.
  rewrite insert_translation_eq. apply range_loop_ext. clear. intros vo pa size i s.
  unfold Pml4_table.insert_func, insert_func. cbn [blocks_at x86_encoding].
  change ((3 <? 3)%nat && ?b) with false. cbn [negb].
  apply bind_ext; [done|]. intros d s1. rewrite x86_kind_bits, present_bit.
  assert (∀ s2, (desc ← load t i; table ← virt_of (masked 64 Pml4_descriptor.Pa desc);
    Level_2.insert_translation f table (vo -64 Z.land vo (block_mask 3)) pa size) s2 =
    descend 3 (insert_translation 2 f) t vo pa size i s2) as Hd.
  { intros s2. unfold descend. apply bind_ext; [done|]. intros d' s3. apply bind_ext; [done|].
    intros. apply level_2_insert. }
  destruct (Z.testbit d 0); cbn [negb].
  - rewrite ret_bind. apply Hd.
  - rewrite bind_assoc. apply bind_ext; [done|]. intros tc s2. rewrite bind_assoc.
    apply bind_ext; [done|]. intros pac s3. apply bind_ext; [done|]. intros _ s4. apply Hd.
Qed.

Lemma pml4_remove t vo size s :
  Pml4_table.remove_translation t vo size s = remove_translation (P := P) 3 t vo size s.
Proof.
  rewrite remove_translation_eq. apply range_loop_ext. clear. intros vo pa size i s.
  unfold Pml4_table.remove_func. rewrite remove_func_overwrites by done.
  apply bind_ext; [done|]. intros d s1. rewrite x86_kind_bits, present_bit.
  destruct (Z.testbit d 0); cbn [negb]; [|done].
  apply bind_ext; [done|]. intros tc s2. apply bind_ext; [apply level_2_remove|].
  intros _ s3. apply bind_ext; [apply x86_empty_valid|]. done.
Qed.

End Equivalence.

(** ** The page table implements the map from offsets to translations *)


(** C13: removing a range from the x86 page table never throws, keeps the table and the
    pool well formed, unmaps every page that overlaps the range (a large page as a
    whole), and leaves the translation of every other offset as it was. *)
Theorem x86_remove_translation `{PL : Pool_laws 4096 (2 ^ 48) P} (root : Z) (s : state P) (vo size : Z) :
  well_formed root (top := 3) s → 0 ≤ vo → 0 ≤ size → vo + size ≤ 2 ^ 48 →
  let (r, s') := Pml4_table.remove_translation root vo size s in
  well_formed root (top := 3) s' ∧ r = Ok tt ∧
  ∀ v, 0 ≤ v < 2 ^ 48 → translate root (top := 3) s' v = cut vo size v (translate root (top := 3) s v).
Proof.
  intros Hs H0 H1 H2. rewrite pml4_remove.
  pose proof (spec_whole root _ _ s (remove_spec (PA_BITS := 48) root 3 root vo size (le_n 3) H0 H1 H2) Hs) as H'.
  destruct (remove_translation 3 root vo size s) as [r s'], H' as [Hs' Hw]. split_and!; [done| |].
  - by destruct (Hw 0 ltac:(done)).
  - intros v Hv. by apply Hw.
Qed.

Definition demo_flags : Page_flags := Flags true false false false RAM CACHED.

(** Eight KiB at 0x7000, and the translation of an offset within the second page. *)
Definition demo_mapped : result error unit * state Page_table_allocator.t :=
  Pml4_table.insert_translation (H := array_pool 4096) demo_flags demo_root 0x7000 0x12345000 0x2000
    (demo_state 512).


Lemma x86_remove_translation_witness :
  (Pml4_table.remove_translation (H := array_pool 4096) demo_root 0 0x1000 (demo_state 512)).1 = Ok tt.
Proof.
  pose proof (x86_remove_translation (PL := demo_pool_laws) demo_root (demo_state 512) 0 0x1000
    (demo_well_formed 3) ltac:(lia) ltac:(lia) ltac:(lia)) as H.
  destruct (Pml4_table.remove_translation _ _ _ _) as [r s']. apply H.
Defined.
