(* ===== verification/Riscv.v ===== *)
(** * Riscv: the Sv39 page tables

    Model of [src/repos/base-hw/src/include/hw/spec/riscv/page_table.h]: the
    descriptors, the functors of [Level_x_translation_table] and their specialization
    for the last level.  Levels 0, 1 and 2 of the model are the code's levels 3, 2
    and 1.  Flushing the cache lines of changed entries ([_translation_added]) has no
    effect on the modelled state. *)

From S2P Require Import Prelude.
From S2P Require Import Register.
From S2P Require Import Page_table_allocator.
From S2P Require Import Page_table.
From S2P Require Import Page_table_spec.

Open Scope Z_scope.
Open Scope word_scope.

(** ** Descriptors *)

Module Descriptor.

Definition V := Bitfield 0 1.
Definition R := Bitfield 1 1.
Definition W := Bitfield 2 1.
Definition X := Bitfield 3 1.
Definition U := Bitfield 4 1.
Definition G := Bitfield 5 1.
Definition A := Bitfield 6 1.
Definition D := Bitfield 7 1.
Definition Perm := Bitfield 0 5.
Definition Type_field := Bitfield 1 3.
Definition POINTER : Z := 0.
Definition Ppn := Bitfield 10 38.
Definition Base := Bitfield 12 38.

Definition permission_bits (f : Page_flags) : Z :=
  let rights := 0 in
  let rights := set 64 R rights 1 in
  let rights := if writeable f then set 64 W rights 1 else rights in
  let rights := if executable f then set 64 X rights 1 else rights in
  let rights := if negb (privileged f) then set 64 U rights 1 else rights in
  let rights := if global f then set 64 G rights 1 else rights in
  rights.

Definition type (v : Z) : kind :=
  if get 64 V v =? 0 then INVALID
  else if get 64 Type_field v =? POINTER then TABLE
  else BLOCK.

Definition valid (v : Z) : bool := negb (get 64 V v =? 0).

End Descriptor.

Module Table_descriptor.

Definition create (pa : Z) : Z :=
  let base := get 64 Descriptor.Base pa in
  let desc := 0 in
  let desc := set 64 Descriptor.Ppn desc base in
  let desc := set 64 Descriptor.Type_field desc Descriptor.POINTER in
  let desc := set 64 Descriptor.V desc 1 in
  desc.

End Table_descriptor.

Module Block_descriptor.

Definition create (f : Page_flags) (pa : Z) : Z :=
  let base := get 64 Descriptor.Base pa in
  let desc := 0 in
  let desc := set 64 Descriptor.Ppn desc base in
  let desc := set 64 Descriptor.Perm desc (Descriptor.permission_bits f) in
  let desc := set 64 Descriptor.A desc 1 in
  let desc := if writeable f then set 64 Descriptor.D desc 1 else desc in
  let desc := set 64 Descriptor.V desc 1 in
  desc.

End Block_descriptor.

(** The address of the table or block of a descriptor: [Base::bits(Ppn::get(desc))]. *)
Definition base_of (d : Z) : Z := bits 64 Descriptor.Base (get 64 Descriptor.Ppn d).

(** ** The format *)

Definition SIZE_LOG2_4K : Z := 12.
Definition SIZE_LOG2_512G : Z := 39.

Definition block_size_log2 (l : nat) : Z := 12 + 9 * Z.of_nat l.

(** Valid entries of the last level are pages. *)
Definition riscv_kind (l : nat) (d : Z) : kind :=
  match l with
  | O => if Descriptor.valid d then BLOCK else INVALID
  | S _ => Descriptor.type d
  end.

#[export] Instance riscv_format : Format := {
  block_log2 := block_size_log2;
  kind_of := riscv_kind;
  next_table _ d := base_of d;
  block_pa _ d := base_of d;
  block_rights _ d := Rights (Z.testbit d 2) (Z.testbit d 3) (Z.testbit d 4) (Z.testbit d 5) }.

(** ** The tables *)

(** The template for the entries of level [l]; [ENTRY] is given by its level and its
    operations. *)
Module Level_x_translation_table.
Section Operations.
Context {P : Type} `{Table_pool P}.
Context (l : nat).

Definition VM_MASK : Z := Z.shiftl 1 SIZE_LOG2_512G -64 1.

Definition _range_op (vo pa size : Z) (func : Z → Z → Z → Z → exc (state P) error unit) :
    exc (state P) error unit :=
  let sanity := Z.shiftr vo 38 in
  if negb (sanity =? 0) && negb (sanity =? 0x3ffffff) then throw Invalid_range
  else
    let vo := Z.land vo VM_MASK in
    range_loop (range_fuel l size) false l (λ vo, Z.shiftr vo (block_size_log2 l)) vo pa size func.

Definition empty (t : Z) : exc (state P) error bool := table_empty Descriptor.valid t.

Context (lc : nat).
Context (entry_insert : Page_flags → Z → Z → Z → Z → exc (state P) error unit).
Context (entry_remove : Z → Z → Z → exc (state P) error unit).
Context (entry_empty : Z → exc (state P) error bool).

Definition insert_func (flags : Page_flags) (t vo pa size i : Z) : exc (state P) error unit :=
  if negb (unaligned l vo pa size) then
    let blk_desc := Block_descriptor.create flags pa in
    desc ← load t i;
    if Descriptor.valid desc && negb (desc =? blk_desc) then throw Double_insertion
    else store t i blk_desc
  else
    let existing : exc (state P) error unit :=
      desc ← load t i;
      table ← virt_of (bits 64 Descriptor.Base (get 64 Descriptor.Ppn desc));
      entry_insert flags table (vo -64 Z.land vo (block_mask l)) pa size in
    desc ← load t i;
    match Descriptor.type desc with
    | INVALID =>
        table ← construct_table lc;
        pa_table ← phys_of table;
        _ ← store t i (Table_descriptor.create pa_table);
        existing
    | TABLE => existing
    | BLOCK => throw Double_insertion
    end.

Definition remove_func (t vo pa size i : Z) : exc (state P) error unit :=
  let invalid : exc (state P) error unit := store t i 0 in
  desc ← load t i;
  match Descriptor.type desc with
  | TABLE =>
      table ← virt_of (bits 64 Descriptor.Base (get 64 Descriptor.Ppn desc));
      _ ← entry_remove table (vo -64 Z.land vo (block_mask l)) size;
      e ← entry_empty table;
      if negb e then mret tt else _ ← destruct_table table; invalid
  | BLOCK => invalid
  | INVALID => invalid
  end.

Definition insert_translation (flags : Page_flags) (t vo pa size : Z) : exc (state P) error unit :=
  _range_op vo pa size (insert_func flags t).

Definition remove_translation (t vo size : Z) : exc (state P) error unit :=
  _range_op vo 0 size (remove_func t).

End Operations.
End Level_x_translation_table.

(** The specialization of the functors for the last level. *)
Module Level_3_translation_table.
Section Operations.
Context {P : Type} `{Table_pool P}.

Definition insert_func (flags : Page_flags) (t vo pa size i : Z) : exc (state P) error unit :=
  if unaligned 0 vo pa size then throw Invalid_range
  else
    let blk_desc := Block_descriptor.create flags pa in
    desc ← load t i;
    if Descriptor.valid desc && negb (desc =? blk_desc) then throw Double_insertion
    else store t i blk_desc.

Definition remove_func (t vo pa size i : Z) : exc (state P) error unit := store t i 0.

Definition insert_translation (flags : Page_flags) (t vo pa size : Z) : exc (state P) error unit :=
  Level_x_translation_table._range_op 0 vo pa size (insert_func flags t).

Definition remove_translation (t vo size : Z) : exc (state P) error unit :=
  Level_x_translation_table._range_op 0 vo 0 size (remove_func t).

End Operations.
End Level_3_translation_table.

Section Levels.
Context {P : Type} `{Table_pool P}.

Definition level_2_insert : Page_flags → Z → Z → Z → Z → exc (state P) error unit :=
  Level_x_translation_table.insert_translation 1 0 Level_3_translation_table.insert_translation.
Definition level_2_remove : Z → Z → Z → exc (state P) error unit :=
  Level_x_translation_table.remove_translation 1 Level_3_translation_table.remove_translation
    Level_x_translation_table.empty.

(** [Hw::Page_table] is the table of the code's level 1. *)
Definition level_1_insert : Page_flags → Z → Z → Z → Z → exc (state P) error unit :=
  Level_x_translation_table.insert_translation 2 1 level_2_insert.
Definition level_1_remove : Z → Z → Z → exc (state P) error unit :=
  Level_x_translation_table.remove_translation 2 level_2_remove Level_x_translation_table.empty.

(** The constructor that takes over the kernel's entries of the upper address range. *)
Definition Page_table_copy (kernel_table : list Z) : list Z :=
  let first := Z.shiftr (Z.land 0xffffffc000000000 Level_x_translation_table.VM_MASK) 30 in
  replicate (Z.to_nat first) 0 ++ drop (Z.to_nat first) kernel_table.

End Levels.

(** The rights a block of this code grants: no block is global. *)
Definition granted (f : Page_flags) : rights :=
  Rights (writeable f) (executable f) (negb (privileged f)) false.

#[export] Instance riscv_encoding : Encoding := {
  flags_rights := granted;
  checked := false;
  block_desc _ := Block_descriptor.create;
  table_desc _ := Table_descriptor.create;
  normal d := d;
  blocks_at _ := true;
  conflict := Double_insertion;
  cleared _ _ := 0;
  clears_invalid _ := true;
  index l vo := Z.shiftr vo (block_size_log2 l) }.

(** ** Bits of the descriptors *)

Lemma riscv_valid_bit d : Descriptor.valid d = Z.testbit d 0.
Proof.
  unfold Descriptor.valid, Descriptor.V. rewrite get_flag by lia. by destruct (Z.testbit d 0).
Qed.

(** A descriptor refers to a table when the bits 1 to 3 are zero. *)
Lemma riscv_type_bits d :
  Descriptor.type d =
    if Z.testbit d 0 then if Z.testbit d 1 || Z.testbit d 2 || Z.testbit d 3 then BLOCK else TABLE
    else INVALID.
Proof.
  unfold Descriptor.type, Descriptor.V. rewrite get_flag by lia.
  destruct (Z.testbit d 0); [|done]. cbn [Z.b2z Z.eqb].
  assert (∀ i, 0 ≤ i → Z.testbit (get 64 Descriptor.Type_field d) i = (i <? 3) && Z.testbit d (1 + i)) as Hb.
  { intros i Hi. by rewrite get_bit by (done || field_lia). }
  destruct (Z.eqb_spec (get 64 Descriptor.Type_field d) Descriptor.POINTER) as [E|E].
  - rewrite E in Hb.
    assert (Z.testbit d 1 = false ∧ Z.testbit d 2 = false ∧ Z.testbit d 3 = false) as (-> & -> & ->); [|done].
    split_and!; symmetry; [apply (Hb 0)|apply (Hb 1)|apply (Hb 2)]; lia.
  - destruct (Z.testbit d 1 || Z.testbit d 2 || Z.testbit d 3) eqn:Eb; [done|]. destruct E.
    apply orb_false_iff in Eb as [[E1 E2]%orb_false_iff E3].
    apply Z.bits_inj'. intros i Hi. rewrite Hb by done. unfold Descriptor.POINTER. rewrite Z.bits_0.
    destruct (Z.ltb_spec i 3); [|done]. simpl.
    assert (i = 0 ∨ i = 1 ∨ i = 2) as [->|[->| ->]] by lia; done.
Qed.

Lemma base_bit pa i : 0 ≤ i →
  Z.testbit (get 64 Descriptor.Base pa) i = (i <? 38) && Z.testbit pa (12 + i).
Proof. intros Hi. by rewrite get_bit by auto with words. Qed.

Lemma riscv_table_bit pa i : 0 ≤ i →
  Z.testbit (Table_descriptor.create pa) i =
    (i =? 0) || covers Descriptor.Ppn i && Z.testbit pa (i + 2).
Proof.
  intros Hi. unfold Table_descriptor.create. reg_bits. unfold covers; simpl.
  zcases; try lia; simpl; try done; [by replace i with 0 by lia|].
  rewrite base_bit by lia. zcases; [|lia]. simpl. f_equal. lia.
Qed.

Lemma permission_bit f i : 0 ≤ i →
  Z.testbit (Descriptor.permission_bits f) i =
    (i =? 1) || (i =? 2) && writeable f || (i =? 3) && executable f || (i =? 4) && negb (privileged f) ||
    (i =? 5) && global f.
Proof.
  intros Hi. destruct (decide (i < 6)).
  - assert (i = 0 ∨ i = 1 ∨ i = 2 ∨ i = 3 ∨ i = 4 ∨ i = 5) as [->|[->|[->|[->|[->| ->]]]]] by lia;
      destruct f as [[] [] [] [] ? ?]; reflexivity.
  - rewrite (in_range_testbit 6) by (lia || (destruct f as [[] [] [] [] ? ?]; split; done)).
    zcases; try lia; done.
Qed.

Lemma riscv_block_bit f pa i : 0 ≤ i →
  Z.testbit (Block_descriptor.create f pa) i =
    (i =? 0) || (i =? 6) || (i =? 7) && writeable f || (i <? 5) && Z.testbit (Descriptor.permission_bits f) i ||
    covers Descriptor.Ppn i && Z.testbit pa (i + 2).
Proof.
  intros Hi. unfold Block_descriptor.create.
  destruct (writeable f); reg_bits; unfold covers; simpl;
    zcases; try lia; simpl; rewrite ?orb_false_r, ?Z.sub_0_r; try done;
    try (by replace i with 0 by lia); try (by replace i with 6 by lia); try (by replace i with 7 by lia);
    rewrite base_bit by lia; zcases; try lia; simpl; f_equal; lia.
Qed.

(** ** The laws of the format *)

#[export] Instance riscv_format_laws : Format_laws.
Proof.
  constructor.
  - done.
  - intros l. cbn [block_log2 riscv_format]. unfold block_size_log2. lia.
  - intros d. simpl. by destruct (Descriptor.valid d).
  - intros [|l]; reflexivity.
Qed.

Lemma base_of_bit d i : 0 ≤ i →
  Z.testbit (base_of d) i = (12 <=? i) && (i <? 50) && Z.testbit d (i - 2).
Proof.
  intros Hi. unfold base_of. rewrite bits_bit by auto with words. unfold covers; simpl.
  change (12 + 38) with 50. zcases; simpl; try done. rewrite get_bit by auto with words. simpl.
  zcases; [|lia]. simpl. f_equal. lia.
Qed.

(** The address of a descriptor that holds the page frame number of [pa]. *)
Lemma base_of_exact d pa :
  in_range 50 pa → (4096 | pa) →
  (∀ i, 10 ≤ i < 48 → Z.testbit d i = Z.testbit pa (i + 2)) → base_of d = pa.
Proof.
  intros Hpa [q ->] Hd. apply Z.bits_inj'. intros i Hi. rewrite base_of_bit by done.
  destruct (Z.leb_spec 12 i); [|change 4096 with (2 ^ 12); by rewrite Z.mul_pow2_bits_low].
  destruct (Z.ltb_spec i 50); [|by rewrite (in_range_testbit 50 (q * 4096))].
  simpl. rewrite Hd by lia. f_equal. lia.
Qed.

Lemma riscv_block_kind l f pa : riscv_kind l (Block_descriptor.create f pa) = BLOCK.
Proof.
  destruct l as [|l]; simpl; [rewrite riscv_valid_bit|rewrite riscv_type_bits]; rewrite !riscv_block_bit by done; [done|].
  by rewrite !permission_bit by done.
Qed.

#[export] Instance riscv_encoding_laws : Encoding_laws 2 50 4096 (2 ^ 48).
Proof.
  constructor.
  - lia.
  - done.
  - done.
  - intros l f pa _ _. apply riscv_block_kind.
  - intros l f pa _ Hpa Hal. cbn [block_desc riscv_encoding block_pa riscv_format].
    apply base_of_exact; [done| |].
    + etrans; [|exact Hal]. cbn [block_log2 riscv_format]. unfold block_size_log2.
      exists (2 ^ (9 * Z.of_nat l)). rewrite Z.pow_add_r by lia. change (2 ^ 12) with 4096. lia.
    + intros i Hi. rewrite riscv_block_bit by lia. unfold covers; simpl. zcases; try lia. done.
  - intros l f pa _ _. cbn [block_rights riscv_format block_desc riscv_encoding flags_rights].
    rewrite !riscv_block_bit, !permission_bit by done. unfold granted. simpl. by rewrite !orb_false_r.
  - intros l pa. cbn [kind_of riscv_format riscv_kind table_desc riscv_encoding].
    by rewrite riscv_type_bits, !riscv_table_bit by done.
  - intros l pa Hal Hpa. cbn [next_table riscv_format table_desc riscv_encoding].
    apply base_of_exact; [word_lia|done|]. intros i Hi. rewrite riscv_table_bit by lia.
    unfold covers; simpl. zcases; try lia. done.
  - by intros [|l] d.
  - done.
  - intros l vo Hl Hvo. cbn [index riscv_encoding block_log2 riscv_format].
    apply Z.shiftr_div_pow2. unfold block_size_log2. lia.
Qed.

(** ** The functors of the code are instances of the generic ones *)

(** The sanity check of an address. *)
Definition canonical (vo : Z) : bool := (vo <? 2 ^ 38) || (2 ^ 64 - 2 ^ 38 <=? vo).

Section Equivalence.
Context {P : Type} `{Table_pool P}.

Lemma sanity_check vo : is_u64 vo →
  negb (Z.shiftr vo 38 =? 0) && negb (Z.shiftr vo 38 =? 0x3ffffff) = negb (canonical vo).
Proof.
  intros Hvo. rewrite Z.shiftr_div_pow2 by lia. unfold canonical, in_range in *.
  pose proof (Z.div_mod vo (2 ^ 38)). pose proof (Z.mod_pos_bound vo (2 ^ 38)). zcases; simpl; try done; lia.
Qed.

Lemma vm_offset vo : 0 ≤ vo → Z.land vo Level_x_translation_table.VM_MASK = vo mod 2 ^ 39.
Proof. intros. change Level_x_translation_table.VM_MASK with (Z.ones 39). by apply Z.land_ones. Qed.

Lemma riscv_range_op_eq l vo pa size g (g' : Z → Z → Z → Z → exc (state P) error unit) s :
  is_u64 vo → (∀ vo pa sz i s, is_u64 vo → g vo pa sz i s = g' vo pa sz i s) →
  Level_x_translation_table._range_op l vo pa size g s =
  if canonical vo
  then range_loop (range_fuel l size) checked l (index l) (vo mod 2 ^ 39) pa size g' s
  else (Err Invalid_range, s).
Proof.
  intros Hvo Hg. unfold Level_x_translation_table._range_op. rewrite sanity_check, vm_offset by word_lia.
  destruct (canonical vo); [|done]. apply range_loop_ext_word; [|done].
  pose proof (Z.mod_pos_bound vo (2 ^ 39)). word_lia.
Qed.

(** Offsets within the lower half of the range of the table need no sanity check. *)
Lemma range_op_low l vo pa size g (g' : Z → Z → Z → Z → exc (state P) error unit) s :
  0 ≤ vo < 2 ^ 38 → (∀ vo pa sz i s, is_u64 vo → g vo pa sz i s = g' vo pa sz i s) →
  Level_x_translation_table._range_op l vo pa size g s =
  range_loop (range_fuel l size) checked l (index l) vo pa size g' s.
Proof.
  intros Hvo Hg. rewrite (riscv_range_op_eq l vo pa size g g') by (done || word_lia).
  unfold canonical. destruct (Z.ltb_spec vo (2 ^ 38)); [|lia]. simpl. by rewrite Z.mod_small by lia.
Qed.

Lemma level_3_insert_func f t vo pa size i (s : state P) rec :
  Level_3_translation_table.insert_func f t vo pa size i s = insert_func 0 rec f t vo pa size i s.
Proof.
  unfold Level_3_translation_table.insert_func, insert_func. cbn [blocks_at riscv_encoding].
  destruct (unaligned 0 vo pa size); simpl; [done|].
  apply bind_ext; [done|]. intros d s'. unfold valid. simpl. by destruct (Descriptor.valid d).
Qed.

Lemma level_3_remove_func t vo pa size i (s : state P) rec :
  Level_3_translation_table.remove_func t vo pa size i s = remove_func 0 rec t vo pa size i s.
Proof.
  unfold Level_3_translation_table.remove_func. rewrite remove_func_overwrites, <- load_then_store by done.
  apply bind_ext; [done|]. intros d s'. simpl. by destruct (Descriptor.valid d).
Qed.

Lemma riscv_level_3_insert f t vo pa size (s : state P) : 0 ≤ vo < 2 ^ 38 →
  Level_3_translation_table.insert_translation f t vo pa size s = insert_translation 0 f t vo pa size s.
Proof. intros Hvo. rewrite insert_translation_eq. apply range_op_low; [done|]. intros. apply level_3_insert_func. Qed.

Lemma riscv_level_3_remove t vo size (s : state P) : 0 ≤ vo < 2 ^ 38 →
  Level_3_translation_table.remove_translation t vo size s = remove_translation 0 t vo size s.
Proof. intros Hvo. rewrite remove_translation_eq. apply range_op_low; [done|]. intros. apply level_3_remove_func. Qed.

Lemma riscv_empty_valid l t (s : state P) : Level_x_translation_table.empty t s = table_empty (valid l) t s.
Proof.
  unfold Level_x_translation_table.empty, table_empty. destruct (tables s !! t) as [es|]; [|done].
  do 2 f_equal. induction es as [|d es IH]; [done|]. cbn [forallb]. rewrite IH. f_equal.
  unfold valid. cbn [kind_of riscv_format]. destruct l as [|l]; simpl; [by destruct (Descriptor.valid d)|].
  rewrite riscv_type_bits, riscv_valid_bit. by destruct (Z.testbit d 0), (Z.testbit d 1), (Z.testbit d 2), (Z.testbit d 3).
Qed.

(** Offsets within an entry of the upper levels. *)
Lemma entry_offset lc vo : (lc < 2)%nat → is_u64 vo → 0 ≤ vo -64 Z.land vo (block_mask (S lc)) < 2 ^ 38.
Proof.
  intros Hl Hvo. rewrite offset_in_entry; [|cbn [block_log2 riscv_format]; unfold block_size_log2; lia|done].
  pose proof (Z.mod_pos_bound vo (2 ^ block_log2 (S lc)) ltac:(apply block_bounds)).
  pose proof (Z.pow_le_mono_r 2 (block_log2 (S lc)) 30). cbn [block_log2 riscv_format] in *.
  unfold block_size_log2 in *. lia.
Qed.

Section Directory.
Context (lc : nat) (Hlc : (lc < 2)%nat).
Context (entry_insert : Page_flags → Z → Z → Z → Z → exc (state P) error unit).
Context (entry_remove : Z → Z → Z → exc (state P) error unit).
Context (entry_empty : Z → exc (state P) error bool).
Context (Hinsert : ∀ f t vo pa size s, 0 ≤ vo < 2 ^ 38 →
  entry_insert f t vo pa size s = insert_translation lc f t vo pa size s).
Context (Hremove : ∀ t vo size s, 0 ≤ vo < 2 ^ 38 →
  entry_remove t vo size s = remove_translation lc t vo size s).
Context (Hempty : ∀ t s, entry_empty t s = table_empty (valid lc) t s).

Lemma riscv_directory_insert_func f t vo pa size i s : is_u64 vo →
  Level_x_translation_table.insert_func (S lc) lc entry_insert f t vo pa size i s =
  insert_func (S lc) (insert_translation lc f) f t vo pa size i s.
Proof.
  intros Hvo. unfold Level_x_translation_table.insert_func, insert_func. cbn [blocks_at riscv_encoding].
  assert (∀ s, (desc ← load t i; table ← virt_of (bits 64 Descriptor.Base (get 64 Descriptor.Ppn desc));
    entry_insert f table (vo -64 Z.land vo (block_mask (S lc))) pa size) s =
    descend (S lc) (insert_translation lc f) t vo pa size i s) as Hex.
  { intros s1. unfold descend. apply bind_ext; [done|]. intros d s2. apply bind_ext; [done|].
    intros tc s3. by apply Hinsert, entry_offset. }
  destruct (unaligned (S lc) vo pa size); cbn [negb andb].
  - apply bind_ext; [done|]. intros d s1. cbn [kind_of riscv_format riscv_kind].
    destruct (Descriptor.type d); [|apply Hex|done].
    apply bind_ext; [done|]. intros tc s2. apply bind_ext; [done|]. intros pac s3.
    apply bind_ext; [done|]. intros _ s4. apply Hex.
  - apply bind_ext; [done|]. intros d s1. unfold valid. cbn [kind_of riscv_format riscv_kind].
    rewrite riscv_type_bits, riscv_valid_bit. by destruct (Z.testbit d 0), (Z.testbit d 1), (Z.testbit d 2), (Z.testbit d 3).
Qed.

Lemma riscv_directory_remove_func t vo pa size i s : is_u64 vo →
  Level_x_translation_table.remove_func (S lc) entry_remove entry_empty t vo pa size i s =
  remove_func (S lc) (remove_translation lc) t vo pa size i s.
Proof.
  intros Hvo. unfold Level_x_translation_table.remove_func. rewrite remove_func_overwrites by done.
  apply bind_ext; [done|]. intros d s1. cbn [kind_of riscv_format riscv_kind].
  destruct (Descriptor.type d); [done| |done].
  apply bind_ext; [done|]. intros tc s2. apply bind_ext; [by apply Hremove, entry_offset|].
  intros _ s3. apply bind_ext; [apply Hempty|]. by intros [] s4.
Qed.
End Directory.

Lemma riscv_level_2_insert_eq f t vo pa size (s : state P) : 0 ≤ vo < 2 ^ 38 →
  level_2_insert f t vo pa size s = insert_translation 1 f t vo pa size s.
Proof.
  intros Hvo. rewrite insert_translation_eq. apply range_op_low; [done|]. intros.
  apply riscv_directory_insert_func; [lia|intros; by apply riscv_level_3_insert|done].
Qed.

Lemma riscv_level_2_remove_eq t vo size (s : state P) : 0 ≤ vo < 2 ^ 38 →
  level_2_remove t vo size s = remove_translation 1 t vo size s.
Proof.
  intros Hvo. rewrite remove_translation_eq. apply range_op_low; [done|]. intros.
  apply riscv_directory_remove_func; [lia|intros; by apply riscv_level_3_remove|apply riscv_empty_valid|done].
Qed.

Lemma riscv_level_1_insert_eq f t vo pa size (s : state P) : is_u64 vo →
  level_1_insert f t vo pa size s =
  if canonical vo then insert_translation 2 f t (vo mod 2 ^ 39) pa size s else (Err Invalid_range, s).
Proof.
  intros Hvo. rewrite insert_translation_eq. apply riscv_range_op_eq; [done|]. intros.
  apply riscv_directory_insert_func; [lia|intros; by apply riscv_level_2_insert_eq|done].
Qed.

Lemma riscv_level_1_remove_eq t vo size (s : state P) : is_u64 vo →
  level_1_remove t vo size s =
  if canonical vo then remove_translation 2 t (vo mod 2 ^ 39) size s else (Err Invalid_range, s).
Proof.
  intros Hvo. rewrite remove_translation_eq. apply riscv_range_op_eq; [done|]. intros.
  apply riscv_directory_remove_func; [lia|intros; by apply riscv_level_2_remove_eq|apply riscv_empty_valid|done].
Qed.

End Equivalence.

(** ** The page table implements the map from offsets to translations *)

(** inserting a translation into the Sv39 page table rejects an address that is not
    canonical with [Invalid_range] and without any effect; otherwise it keeps the
    table and the pool well formed, makes the hardware translate every offset of the
    range to the address at the same distance from [pa] with the granted rights,
    changes no other offset, and on an exception leaves every offset with its old or
    its new translation. *)
Theorem riscv_insert_translation `{PL : Pool_laws 4096 (2 ^ 48) P} (root : Z) (s : state P) (f : Page_flags) (vo pa size : Z) :
  well_formed root (top := 2) s → is_u64 vo → 0 ≤ size → vo mod 2 ^ 39 + size ≤ 2 ^ 39 →
  0 ≤ pa → pa + size ≤ 2 ^ 50 →
  let (r, s') := level_1_insert f root vo pa size s in
  if canonical vo
  then well_formed root (top := 2) s' ∧
    ∀ v, 0 ≤ v < 2 ^ 39 →
      inserted (granted f) r (vo mod 2 ^ 39) pa size v (translate root (top := 2) s v) (translate root (top := 2) s' v)
  else r = Err Invalid_range ∧ s' = s.
Proof.
  intros Hs Hvo H1 H2 H3 H4. rewrite riscv_level_1_insert_eq by done. destruct (canonical vo); [|done].
  pose proof (Z.mod_pos_bound vo (2 ^ 39) ltac:(lia)) as [H0 _].
  exact (spec_whole root (λ r, inserted (granted f) r (vo mod 2 ^ 39) pa size) _ s
    (insert_spec (PA_BITS := 50) root f 2 root _ pa size (le_n 2) H0 H1 H2 H3 H4) Hs).
Qed.

(** removing a range from the Sv39 page table rejects an address that is not
    canonical without any effect; otherwise it never throws, keeps the table and the
    pool well formed, unmaps every block that overlaps the range, and leaves every
    other translation as it was. *)
Theorem riscv_remove_translation `{PL : Pool_laws 4096 (2 ^ 48) P} (root : Z) (s : state P) (vo size : Z) :
  well_formed root (top := 2) s → is_u64 vo → 0 ≤ size → vo mod 2 ^ 39 + size ≤ 2 ^ 39 →
  let (r, s') := level_1_remove root vo size s in
  if canonical vo
  then well_formed root (top := 2) s' ∧ r = Ok tt ∧
    ∀ v, 0 ≤ v < 2 ^ 39 →
      translate root (top := 2) s' v = cut (vo mod 2 ^ 39) size v (translate root (top := 2) s v)
  else r = Err Invalid_range ∧ s' = s.
Proof.
  intros Hs Hvo H1 H2. rewrite riscv_level_1_remove_eq by done. destruct (canonical vo); [|done].
  pose proof (Z.mod_pos_bound vo (2 ^ 39) ltac:(lia)) as [H0 _].
  pose proof (spec_whole root _ _ s (remove_spec (PA_BITS := 50) root 2 root _ size (le_n 2) H0 H1 H2) Hs) as H'.
  destruct (remove_translation 2 root _ size s) as [r s'], H' as [Hs' Hw]. split_and!; [done| |].
  - by destruct (Hw 0 ltac:(done)).
  - intros v Hv. by apply Hw.
Qed.

(** no block descriptor is global: [permission_bits] sets the global bit for global
    flags, but the field [Perm] it is written through ends below that bit. *)
Theorem riscv_global_dropped (f : Page_flags) (pa : Z) :
  get 64 Descriptor.G (Descriptor.permission_bits f) = Z.b2z (global f) ∧
  get 64 Descriptor.G (Block_descriptor.create f pa) = 0.
Proof.
  unfold Descriptor.G. rewrite !get_flag by lia. rewrite riscv_block_bit, permission_bit by lia. simpl.
  by destruct (global f).
Qed.

Definition demo_flags : Page_flags := Flags true false false true RAM CACHED.

(** Eight KiB at an address of the upper half, and the translation of an offset
    within the second page. *)
Definition demo_mapped : result error unit * state Page_table_allocator.t :=
  level_1_insert (H := array_pool 4096) demo_flags demo_root 0xffffffc000007000 0x12345000 0x2000 (demo_state 512).

Lemma riscv_insert_translation_witness :
  ∃ k, translate demo_root (H := array_pool 4096) (top := 2) demo_mapped.2 0x4000008abc =
    Some (0x12346abc, granted demo_flags, k).
Proof.
  pose proof (riscv_insert_translation (PL := demo_pool_laws) demo_root (demo_state 512) demo_flags
    0xffffffc000007000 0x12345000 0x2000 (demo_well_formed 2) ltac:(split; done) ltac:(lia)
    ltac:(vm_compute; discriminate) ltac:(lia) ltac:(lia)) as H.
  fold demo_mapped in H.
  assert (demo_mapped.1 = Ok tt) as Hok by (vm_compute; reflexivity).
  destruct demo_mapped as [r s']. cbn [fst snd] in *. rewrite Hok in H.
  change (canonical 0xffffffc000007000) with true in H. cbn iota in H.
  change (0xffffffc000007000 mod 2 ^ 39) with 0x4000007000 in H.
  destruct H as [_ H]. destruct (H 0x4000008abc ltac:(lia)) as [_ H']. destruct (H' ltac:(lia)) as [k Hk]. by exists k.
Defined.

Lemma riscv_remove_translation_witness :
  (level_1_remove (H := array_pool 4096) demo_root 0 0x1000 (demo_state 512)).1 = Ok tt.
Proof.
  pose proof (riscv_remove_translation (PL := demo_pool_laws) demo_root (demo_state 512) 0 0x1000
    (demo_well_formed 2) ltac:(split; done) ltac:(lia) ltac:(vm_compute; discriminate)) as H.
  destruct (level_1_remove _ _ _ _) as [r s']. apply H.
Defined.
