(* ===== verification/Lpae.v ===== *)
(** * Lpae: the long-descriptor page tables of ARM

    Model of [src/repos/base-hw/src/include/hw/spec/arm/lpae.h], used on ARMv7 with
    the large physical address extension and on ARMv8: the descriptors of both
    stages, [Long_translation_table] and the functors of its two derived templates,
    with the lookup of writeable translations.  Levels 0, 1 and 2 of the model are
    the code's levels 3, 2 and 1; the stage is a parameter of the whole file. *)

From S2P Require Import Prelude.
From S2P Require Import Register.
From S2P Require Import Page_table_allocator.
From S2P Require Import Page_table.
From S2P Require Import Page_table_spec.

Open Scope Z_scope.
Open Scope word_scope.

(** ** Descriptors *)

Inductive Stage := STAGE1 | STAGE2.

Class Stage_param := stage : Stage.

Module Descriptor.

Definition Valid := Bitfield 0 1.
Definition Table := Bitfield 1 1.

Definition type (v : Z) : kind :=
  if get 64 Valid v =? 0 then INVALID
  else if negb (get 64 Table v =? 0) then TABLE
  else BLOCK.

Definition valid (v : Z) : bool := negb (get 64 Valid v =? 0).

End Descriptor.

Module Block_descriptor_base.

Definition Shareability := Bitfield 8 2.
Definition INNER_SHAREABLE : Z := 3.
Definition Access_flag := Bitfield 10 1.
Definition Output_address (BLOCK_SIZE_LOG2 : Z) := Bitfield BLOCK_SIZE_LOG2 (47 - BLOCK_SIZE_LOG2).

End Block_descriptor_base.

Module Table_descriptor.

Definition Next_table := Bitfield 12 36.

Definition create (pa : Z) : Z :=
  Z.lor (Z.lor (masked 64 Next_table pa) (bits 64 Descriptor.Table 1)) (bits 64 Descriptor.Valid 1).

End Table_descriptor.

Module Attribute_index.

Definition field := Bitfield 2 3.
(** The first two are the values of [Genode::Cache]. *)
Definition UNCACHED : Z := 0.
Definition CACHED : Z := 2.
Definition DEVICE : Z := 3.

Definition create (f : Page_flags) : Z :=
  match type f with
  | Page_table.DEVICE => bits 64 field DEVICE
  | RAM =>
      match cacheable f with
      | Page_table.CACHED => bits 64 field CACHED
      | WRITE_COMBINED | Page_table.UNCACHED => bits 64 field UNCACHED
      end
  end.

End Attribute_index.

Module Access_permission.

Definition field := Bitfield 6 2.
Definition PRIVILEGED_RW : Z := 0.
Definition USER_RW : Z := 1.
Definition PRIVILEGED_RO : Z := 2.
Definition USER_RO : Z := 3.

Definition create (f : Page_flags) : Z :=
  let p := privileged f in
  if writeable f then
    if (p : bool) then bits 64 field PRIVILEGED_RW else bits 64 field USER_RW
  else
    if (p : bool) then bits 64 field PRIVILEGED_RO else bits 64 field USER_RO.

End Access_permission.

Module Block_descriptor_stage1.

Definition Not_global := Bitfield 11 1.
Definition Execute_never := Bitfield 54 1.

Definition create (BLOCK_SIZE_LOG2 : Z) (f : Page_flags) (pa : Z) : Z :=
  Z.lor (Z.lor (Z.lor (Z.lor (Z.lor (Z.lor (Z.lor (Access_permission.create f)
    (Attribute_index.create f))
    (bits 64 Not_global (Z.b2z (negb (global f)))))
    (bits 64 Block_descriptor_base.Shareability Block_descriptor_base.INNER_SHAREABLE))
    (masked 64 (Block_descriptor_base.Output_address BLOCK_SIZE_LOG2) pa))
    (bits 64 Block_descriptor_base.Access_flag 1))
    (bits 64 Descriptor.Valid 1))
    (bits 64 Execute_never (Z.b2z (negb (executable f)))).

End Block_descriptor_stage1.

Module Block_descriptor_stage2.

Definition Mem_attr := Bitfield 2 4.
Definition Hap := Bitfield 6 2.

Definition create (BLOCK_SIZE_LOG2 : Z) (f : Page_flags) (pa : Z) : Z :=
  Z.lor (Z.lor (Z.lor (Z.lor (Z.lor
    (bits 64 Block_descriptor_base.Shareability Block_descriptor_base.INNER_SHAREABLE)
    (masked 64 (Block_descriptor_base.Output_address BLOCK_SIZE_LOG2) pa))
    (bits 64 Block_descriptor_base.Access_flag 1))
    (bits 64 Descriptor.Valid 1))
    (bits 64 Mem_attr 0xf))
    (bits 64 Hap 0x3).

End Block_descriptor_stage2.

(** [Stage_trait] *)
Definition Block_descriptor_create `{Stage_param} : Z → Page_flags → Z → Z :=
  match stage with
  | STAGE1 => Block_descriptor_stage1.create
  | STAGE2 => Block_descriptor_stage2.create
  end.

(** ** The format *)

(** The table of the code's level 1 has 512 entries in stage 1 and 256 in stage 2. *)
Definition block_size_log2 `{Stage_param} (l : nat) : Z :=
  if (l <? 3)%nat then 12 + 9 * Z.of_nat l
  else match stage with STAGE1 => 12 + 9 * Z.of_nat l | STAGE2 => 11 + 9 * Z.of_nat l end.

(** Valid entries of the last level are pages. *)
Definition lpae_kind (l : nat) (d : Z) : kind :=
  match l with
  | O => if Descriptor.valid d then BLOCK else INVALID
  | S _ => Descriptor.type d
  end.

(** What the hardware allows: stage 2 has no privilege levels and no global entries. *)
Definition lpae_rights `{Stage_param} (d : Z) : rights :=
  match stage with
  | STAGE1 => Rights (negb (Z.testbit d 7)) (negb (Z.testbit d 54)) (Z.testbit d 6) (negb (Z.testbit d 11))
  | STAGE2 => Rights (Z.testbit d 7) (negb (Z.testbit d 54)) true true
  end.

#[export] Instance lpae_format `{Stage_param} : Format := {
  block_log2 := block_size_log2;
  kind_of := lpae_kind;
  next_table _ d := masked 64 Table_descriptor.Next_table d;
  block_pa l d := masked 64 (Block_descriptor_base.Output_address (block_size_log2 l)) d;
  block_rights _ d := lpae_rights d }.

(** ** The tables *)

Module Long_translation_table.
Section Operations.
Context `{Stage_param} {P : Type} `{Table_pool P}.
Context (l : nat).

Definition idx (v : Z) : Z := Z.land (Z.shiftr v (block_size_log2 l)) (max_entries l -64 1).

(** The loop; [A] is the state of the functor. *)
Fixpoint range_fold {A} (fuel : nat) (vo pa size : Z)
    (func : A → Z → Z → Z → Z → exc (state P) error A) (a : A) : exc (state P) error A :=
  match fuel with
  | O => throw Out_of_fuel
  | S fuel =>
      if size =? 0 then mret a
      else
        let i := idx vo in
        let e := Z.land (vo +64 block_size l) (block_mask l) in
        let sz := Z.min size (e -64 vo) in
        a ← func a vo pa sz i;
        if e <? vo then mret a
        else range_fold fuel (vo +64 sz) (pa +64 sz) (size -64 sz) func a
  end.

Definition _range_op {A} (vo pa size : Z) (func : A → Z → Z → Z → Z → exc (state P) error A) (a : A) :
    exc (state P) error A :=
  range_fold (range_fuel l size) vo pa size func a.

Definition empty (t : Z) : exc (state P) error bool := table_empty Descriptor.valid t.

End Operations.
End Long_translation_table.

(** The state of the lookup functors. *)
Record lookup := Lookup { found : bool; phys : Z }.

(** Whether a descriptor allows writing. *)
Definition rw (d : Z) : bool :=
  let ap := get 64 Access_permission.field d in
  (ap =? Access_permission.PRIVILEGED_RW) || (ap =? Access_permission.USER_RW).

Module Level_3_translation_table.
Section Operations.
Context `{Stage_param} {P : Type} `{Table_pool P}.

Definition insert_func (flags : Page_flags) (t : Z) (_ : unit) (vo pa size i : Z) : exc (state P) error unit :=
  if unaligned 0 vo pa size then throw Invalid_range
  else
    let blk_desc := Z.lor (Block_descriptor_create 12 flags pa) (bits 64 Descriptor.Table 1) in
    desc ← load t i;
    if Descriptor.valid desc && negb (desc =? blk_desc) then throw Double_insertion
    else store t i blk_desc.

Definition remove_func (t : Z) (_ : unit) (vo pa size i : Z) : exc (state P) error unit := store t i 0.

Definition lookup_func (t : Z) (f : lookup) (vo pa size i : Z) : exc (state P) error lookup :=
  desc ← load t i;
  if negb (Descriptor.valid desc) then mret f
  else mret (Lookup (rw desc) (masked 64 (Block_descriptor_base.Output_address 12) desc)).

Definition insert_translation (flags : Page_flags) (t vo pa size : Z) : exc (state P) error unit :=
  Long_translation_table._range_op 0 vo pa size (insert_func flags t) tt.

Definition remove_translation (t vo size : Z) : exc (state P) error unit :=
  Long_translation_table._range_op 0 vo 0 size (remove_func t) tt.

Definition lookup_rw_translation (t vo pa : Z) : exc (state P) error (bool * Z) :=
  let page_size := 4096 in
  functor ← Long_translation_table._range_op 0 vo 0 page_size (lookup_func t) (Lookup false 0);
  mret (found functor, phys functor).

End Operations.
End Level_3_translation_table.

(** The template for the entries of level [l]; [ENTRY] is given by its level and its
    operations. *)
Module Level_x_translation_table.
Section Operations.
Context `{Stage_param} {P : Type} `{Table_pool P}.
Context (l lc : nat).
Context (entry_insert : Page_flags → Z → Z → Z → Z → exc (state P) error unit).
Context (entry_remove : Z → Z → Z → exc (state P) error unit).
Context (entry_empty : Z → exc (state P) error bool).
Context (entry_lookup : Z → Z → Z → exc (state P) error (bool * Z)).

Definition insert_func (flags : Page_flags) (t : Z) (_ : unit) (vo pa size i : Z) : exc (state P) error unit :=
  if negb (unaligned l vo pa size) then
    let blk_desc := Block_descriptor_create (block_size_log2 l) flags pa in
    desc ← load t i;
    if Descriptor.valid desc && negb (desc =? blk_desc) then throw Double_insertion
    else store t i blk_desc
  else
    let existing : exc (state P) error unit :=
      desc ← load t i;
      table ← virt_of (masked 64 Table_descriptor.Next_table desc);
      entry_insert flags table (vo -64 Z.land vo (block_mask l)) pa size in
    desc ← load t i;
    match Descriptor.type desc with
    | INVALID =>
        table ← construct_table lc;
        pa_table ← phys_of table;
        _ ← store t i (Table_descriptor.create pa_table);
        existing
    | TABLE => existing
    | BLOCK => throw Double_insertion
    end.

Definition remove_func (t : Z) (_ : unit) (vo pa size i : Z) : exc (state P) error unit :=
  let invalid : exc (state P) error unit := store t i 0 in
  desc ← load t i;
  match Descriptor.type desc with
  | TABLE =>
      table ← virt_of (masked 64 Table_descriptor.Next_table desc);
      _ ← entry_remove table (vo -64 Z.land vo (block_mask l)) size;
      e ← entry_empty table;
      if negb e then mret tt else _ ← destruct_table table; invalid
  | BLOCK => invalid
  | INVALID => invalid
  end.

Definition lookup_func (t : Z) (f : lookup) (vo pa size i : Z) : exc (state P) error lookup :=
  desc ← load t i;
  match Descriptor.type desc with
  | BLOCK =>
      mret (Lookup (rw desc) (masked 64 (Block_descriptor_base.Output_address (block_size_log2 l)) desc))
  | TABLE =>
      table ← virt_of (masked 64 Table_descriptor.Next_table desc);
      r ← entry_lookup table (vo -64 Z.land vo (block_mask l)) (phys f);
      mret (Lookup r.1 r.2)
  | INVALID => mret f
  end.

Definition insert_translation (flags : Page_flags) (t vo pa size : Z) : exc (state P) error unit :=
  Long_translation_table._range_op l vo pa size (insert_func flags t) tt.

Definition remove_translation (t vo size : Z) : exc (state P) error unit :=
  Long_translation_table._range_op l vo 0 size (remove_func t) tt.

Definition lookup_rw_translation (t virt phys_ : Z) : exc (state P) error (bool * Z) :=
  let page_size := 4096 in
  functor ← Long_translation_table._range_op l virt phys_ page_size (lookup_func t) (Lookup false 0);
  mret (found functor, phys functor).

End Operations.
End Level_x_translation_table.

Section Levels.
Context `{Stage_param} {P : Type} `{Table_pool P}.

Definition level_2_insert : Page_flags → Z → Z → Z → Z → exc (state P) error unit :=
  Level_x_translation_table.insert_translation 1 0 Level_3_translation_table.insert_translation.
Definition level_2_remove : Z → Z → Z → exc (state P) error unit :=
  Level_x_translation_table.remove_translation 1 Level_3_translation_table.remove_translation
    Long_translation_table.empty.
Definition level_2_lookup : Z → Z → Z → exc (state P) error (bool * Z) :=
  Level_x_translation_table.lookup_rw_translation 1 Level_3_translation_table.lookup_rw_translation.

(** [Hw::Page_table] is the table of the code's level 1. *)
Definition level_1_insert : Page_flags → Z → Z → Z → Z → exc (state P) error unit :=
  Level_x_translation_table.insert_translation 2 1 level_2_insert.
Definition level_1_remove : Z → Z → Z → exc (state P) error unit :=
  Level_x_translation_table.remove_translation 2 level_2_remove Long_translation_table.empty.
Definition level_1_lookup : Z → Z → Z → exc (state P) error (bool * Z) :=
  Level_x_translation_table.lookup_rw_translation 2 level_2_lookup.

End Levels.

(** What the descriptors for a request let through: in stage 1 what is requested; those
    of stage 2 ignore the request ([lpae_stage2_ignores_flags] below). *)
Definition descriptor_rights `{Stage_param} (f : Page_flags) : rights :=
  match stage with STAGE1 => rights_of_flags f | STAGE2 => Rights true true true true end.

#[export] Instance lpae_encoding `{Stage_param} : Encoding := {
  flags_rights := descriptor_rights;
  checked := false;
  block_desc l f pa :=
    match l with
    | O => Z.lor (Block_descriptor_create 12 f pa) (bits 64 Descriptor.Table 1)
    | S _ => Block_descriptor_create (block_size_log2 l) f pa
    end;
  table_desc _ := Table_descriptor.create;
  normal d := d;
  blocks_at l := (l <? 3)%nat;
  conflict := Double_insertion;
  cleared _ _ := 0;
  clears_invalid _ := true;
  index := Long_translation_table.idx }.

(** ** Bits of the descriptors *)

Lemma lpae_valid_bit d : Descriptor.valid d = Z.testbit d 0.
Proof.
  unfold Descriptor.valid, Descriptor.Valid. rewrite get_flag by lia. by destruct (Z.testbit d 0).
Qed.

Lemma lpae_type_bits d :
  Descriptor.type d =
    if Z.testbit d 0 then if Z.testbit d 1 then TABLE else BLOCK else INVALID.
Proof.
  unfold Descriptor.type, Descriptor.Valid, Descriptor.Table. rewrite !get_flag by lia.
  by destruct (Z.testbit d 0), (Z.testbit d 1).
Qed.

Lemma rw_bit d : rw d = negb (Z.testbit d 7).
Proof.
  unfold rw, Access_permission.PRIVILEGED_RW, Access_permission.USER_RW.
  set (ap := get 64 Access_permission.field d).
  assert (0 ≤ ap < 4) as Hap by apply (nonneg_get 64 Access_permission.field d ltac:(field_lia)).
  assert (Z.testbit d 7 = Z.testbit ap 1) as ->.
  { unfold ap. by rewrite get_bit by auto with words. }
  assert (ap = 0 ∨ ap = 1 ∨ ap = 2 ∨ ap = 3) as [->|[->|[->| ->]]] by lia; done.
Qed.

Lemma ap_bit f i : 0 ≤ i →
  Z.testbit (Access_permission.create f) i = (i =? 6) && negb (privileged f) || (i =? 7) && negb (writeable f).
Proof.
  intros Hi. unfold Access_permission.create. destruct (writeable f), (privileged f);
    rewrite bits_bit by auto with words; unfold covers; simpl;
    zcases; simpl; try lia; try done; subst; done.
Qed.

Lemma attr_bit f i : 0 ≤ i → i < 2 ∨ 5 ≤ i → Z.testbit (Attribute_index.create f) i = false.
Proof.
  intros Hi Hr. unfold Attribute_index.create.
  destruct (type f), (cacheable f); rewrite bits_bit by auto with words; unfold covers; simpl; zcases; lia || done.
Qed.

Section Stages.
Context `{Stage_param}.

Lemma block_size_low l : (l < 3)%nat → block_size_log2 l = 12 + 9 * Z.of_nat l.
Proof. intros. unfold block_size_log2. by destruct (Nat.ltb_spec l 3); [|lia]. Qed.

(** The bits that matter: type, access rights and address. *)
Lemma lpae_block_bit B f pa i : 12 ≤ B < 47 → 0 ≤ i →
  Z.testbit (Block_descriptor_create B f pa) i =
    if i =? 0 then true
    else if i =? 1 then false
    else if i =? 6 then match stage with STAGE1 => negb (privileged f) | STAGE2 => true end
    else if i =? 7 then match stage with STAGE1 => negb (writeable f) | STAGE2 => true end
    else if i =? 11 then match stage with STAGE1 => negb (global f) | STAGE2 => false end
    else if i =? 54 then match stage with STAGE1 => negb (executable f) | STAGE2 => false end
    else if (B <=? i) && (i <? 47) then Z.testbit pa i
    else Z.testbit (Block_descriptor_create B f pa) i.
Proof.
  intros HB Hi. assert (field_ok 64 (Block_descriptor_base.Output_address B)) as Hf by field_lia.
  assert (∀ i, i < 12 ∨ i = 54 → covers (Block_descriptor_base.Output_address B) i = false) as Hout.
  { intros j Hj. apply covers_out. simpl. lia. }
  destruct (decide (i = 0 ∨ i = 1 ∨ i = 6 ∨ i = 7 ∨ i = 11 ∨ i = 54 ∨ B ≤ i < 47)) as [Hc|Hn];
    [|zcases; try lia; done].
  unfold Block_descriptor_create, Block_descriptor_stage1.create, Block_descriptor_stage2.create.
  destruct stage; rewrite !Z.lor_spec, ?ap_bit, ?attr_bit, masked_bit, !bits_bit by (lia || auto with words);
    destruct Hc as [->|[->|[->|[->|[->|[->|Hr]]]]]];
    rewrite ?Hout by lia; destruct f as [[] [] [] [] ? ?]; try reflexivity.
  all: rewrite (covers_in (Block_descriptor_base.Output_address B)) by (simpl; lia).
  all: rewrite !covers_out by (simpl; lia).
  all: simpl; zcases; try lia; by rewrite ?orb_false_r.
Qed.

Lemma blocks_low l : blocks_at l = true → (l < 3)%nat.
Proof. apply Nat.ltb_lt. Qed.

(** The descriptors of pages also have the table bit. *)
Lemma lpae_page_bit f pa i : 0 ≤ i →
  Z.testbit (block_desc 0 f pa) i = (i =? 1) || Z.testbit (Block_descriptor_create 12 f pa) i.
Proof.
  intros Hi. cbn [block_desc lpae_encoding]. rewrite Z.lor_spec.
  change (bits 64 Descriptor.Table 1) with (bits 64 (Bitfield 1 1) (Z.b2z true)).
  by rewrite bits_flag, andb_true_r, orb_comm by lia.
Qed.

(** Except for that bit, the descriptors of all levels are alike. *)
Lemma level_bit l f pa i : (l < 3)%nat → 0 ≤ i → i ≠ 1 →
  Z.testbit (block_desc l f pa) i = Z.testbit (Block_descriptor_create (block_size_log2 l) f pa) i.
Proof.
  intros Hl Hi Hn. destruct l as [|l]; [|done]. rewrite lpae_page_bit by done.
  destruct (Z.eqb_spec i 1); [lia|]. done.
Qed.

Lemma lpae_table_bit pa i : 0 ≤ i →
  Z.testbit (Table_descriptor.create pa) i =
    (i <? 2) || covers Table_descriptor.Next_table i && Z.testbit pa i.
Proof.
  intros Hi. unfold Table_descriptor.create. rewrite !Z.lor_spec, masked_bit, !bits_bit by auto with words.
  unfold covers; simpl. change (12 + 36) with 48.
  destruct (decide (i = 0 ∨ i = 1)) as [[->| ->]|]; [done..|].
  zcases; simpl; try lia; by rewrite ?orb_false_r.
Qed.

(** ** The laws of the format *)

#[export] Instance lpae_format_laws : Format_laws.
Proof.
  constructor.
  - done.
  - intros l. cbn [block_log2 lpae_format]. unfold block_size_log2.
    destruct (Nat.ltb_spec l 3), (Nat.ltb_spec (S l) 3), stage; lia.
  - intros d. simpl. by destruct (Descriptor.valid d).
  - intros [|l]; reflexivity.
Qed.

#[export] Instance lpae_encoding_laws : Encoding_laws 2 47 4096 (2 ^ 48).
Proof.
  constructor.
  - lia.
  - cbn [block_log2 lpae_format]. unfold block_size_log2. simpl. destruct stage; lia.
  - done.
  - intros l f pa Hl Hpa. apply blocks_low in Hl. destruct l as [|l]; cbn [kind_of lpae_format lpae_kind].
    + by rewrite lpae_valid_bit, lpae_page_bit, lpae_block_bit by lia.
    + cbn [block_desc lpae_encoding]. rewrite lpae_type_bits.
      rewrite (lpae_block_bit _ _ _ 0), (lpae_block_bit _ _ _ 1) by (rewrite ?block_size_low by lia; lia). done.
  - intros l f pa Hl Hpa Hal. apply blocks_low in Hl. cbn [block_pa lpae_format block_log2] in *.
    pose proof (block_size_low l Hl) as HB.
    apply masked_exact; cbn [SHIFT WIDTH Block_descriptor_base.Output_address];
      [field_lia|by replace (_ + (47 - _)) with 47 by lia|done|].
    intros i Hi. rewrite level_bit, lpae_block_bit by lia. zcases; try lia. done.
  - intros l f pa Hl Hpa. apply blocks_low in Hl. cbn [block_rights lpae_format flags_rights lpae_encoding].
    pose proof (block_size_low l Hl) as HB. unfold lpae_rights, descriptor_rights, rights_of_flags.
    destruct stage eqn:Es; rewrite !level_bit, (lpae_block_bit _ _ _ 7), (lpae_block_bit _ _ _ 54), Es by lia.
    + rewrite (lpae_block_bit _ _ _ 6), (lpae_block_bit _ _ _ 11), Es by lia. by destruct f as [[] [] [] [] ? ?].
    + done.
  - intros l pa. cbn [kind_of lpae_format lpae_kind table_desc lpae_encoding].
    by rewrite lpae_type_bits, !lpae_table_bit by done.
  - intros l pa Hal Hpa. cbn [next_table lpae_format table_desc lpae_encoding].
    apply masked_exact; [field_lia|done|done|]. simpl. intros i Hi. rewrite lpae_table_bit by lia.
    unfold covers; simpl. zcases; try lia. done.
  - by intros [|l] d.
  - done.
  - intros l vo Hl Hvo. cbn [index lpae_encoding]. unfold Long_translation_table.idx.
    destruct (max_entries_value l) as [Hme Hpos]. pose proof (block_log2_pos l).
    pose proof (block_bounds l) as [HB _].
    assert (0 ≤ vo / 2 ^ block_log2 l < max_entries l) as Hi.
    { split; [apply Z.div_pos; lia|apply Z.div_lt_upper_bound; lia]. }
    assert (max_entries l -64 1 = Z.ones (block_log2 (S l) - block_log2 l)) as ->.
    { rewrite Z.ones_equiv. apply wrap_small. unfold max_entries in *.
      pose proof (Z.pow_lt_mono_r 2 (block_log2 (S l) - block_log2 l) 64).
      cbn [block_log2 lpae_format] in *. unfold block_size_log2 in *. unfold in_range.
      destruct (Nat.ltb_spec l 3), (Nat.ltb_spec (S l) 3), stage; lia. }
    change (block_size_log2 l) with (block_log2 l). rewrite Z.shiftr_div_pow2 by lia.
    pose proof (block_log2_step l). rewrite Z.land_ones by lia. by apply Z.mod_small.
Qed.

End Stages.

(** ** The functors of the code are instances of the generic ones *)

Section Equivalence.
Context `{Stage_param} {P : Type} `{Table_pool P}.

(** With a functor without state, the loop is the generic one. *)
Lemma lpae_range_op_eq l vo pa size (g : unit → Z → Z → Z → Z → exc (state P) error unit) g' s :
  (∀ vo pa sz i s, g tt vo pa sz i s = g' vo pa sz i s) →
  Long_translation_table._range_op l vo pa size g tt s =
  range_loop (range_fuel l size) checked l (index l) vo pa size g' s.
Proof.
  intros Hg. unfold Long_translation_table._range_op. generalize (range_fuel l size). intros fuel.
  revert vo pa size s. induction fuel as [|fuel IH]; intros vo pa size s; simpl; [done|].
  destruct (size =? 0); [done|]. apply bind_ext; [apply Hg|]. intros [] s'. destruct (_ <? vo); [done|apply IH].
Qed.

Lemma lpae_level_3_insert f t vo pa size (s : state P) :
  Level_3_translation_table.insert_translation f t vo pa size s = insert_translation 0 f t vo pa size s.
Proof.
  rewrite insert_translation_eq. apply lpae_range_op_eq. clear. intros vo pa size i s.
  unfold Level_3_translation_table.insert_func, insert_func. cbn [blocks_at lpae_encoding].
  change ((0 <? 3)%nat && ?b) with b. destruct (unaligned 0 vo pa size); simpl; [done|].
  apply bind_ext; [done|]. intros d s'. unfold valid. simpl. by destruct (Descriptor.valid d).
Qed.

Lemma lpae_level_3_remove t vo size (s : state P) :
  Level_3_translation_table.remove_translation t vo size s = remove_translation 0 t vo size s.
Proof.
  rewrite remove_translation_eq. apply lpae_range_op_eq. clear. intros vo pa size i s.
  unfold Level_3_translation_table.remove_func. rewrite remove_func_overwrites, <- load_then_store by done.
  apply bind_ext; [done|]. intros d s'. simpl. by destruct (Descriptor.valid d).
Qed.

Lemma type_valid d : negb (bool_decide (Descriptor.type d = INVALID)) = Descriptor.valid d.
Proof. rewrite lpae_type_bits, lpae_valid_bit. by destruct (Z.testbit d 0), (Z.testbit d 1). Qed.

Lemma lpae_empty_valid l t (s : state P) : Long_translation_table.empty t s = table_empty (valid l) t s.
Proof.
  unfold Long_translation_table.empty, table_empty. destruct (tables s !! t) as [es|]; [|done].
  do 2 f_equal. induction es as [|d es IH]; [done|]. cbn [forallb]. rewrite IH. f_equal.
  unfold valid. cbn [kind_of lpae_format]. destruct l as [|l]; simpl; [by destruct (Descriptor.valid d)|].
  by rewrite <- type_valid.
Qed.

Section Directory.
Context (lc : nat) (Hlc : (lc < 2)%nat).
Context (entry_insert : Page_flags → Z → Z → Z → Z → exc (state P) error unit).
Context (entry_remove : Z → Z → Z → exc (state P) error unit).
Context (entry_empty : Z → exc (state P) error bool).
Context (Hinsert : ∀ f t vo pa size s, entry_insert f t vo pa size s = insert_translation lc f t vo pa size s).
Context (Hremove : ∀ t vo size s, entry_remove t vo size s = remove_translation lc t vo size s).
Context (Hempty : ∀ t s, entry_empty t s = table_empty (valid lc) t s).

Lemma lpae_directory_insert f t vo pa size s :
  Level_x_translation_table.insert_translation (S lc) lc entry_insert f t vo pa size s =
  insert_translation (S lc) f t vo pa size s.
Proof.
  rewrite insert_translation_eq. apply lpae_range_op_eq. clear -Hlc Hinsert. intros vo pa size i s.
  unfold Level_x_translation_table.insert_func, insert_func.
  assert (blocks_at (S lc) = true) as -> by (apply Nat.ltb_lt; lia).
  assert (∀ s, (desc ← load t i; table ← virt_of (masked 64 Table_descriptor.Next_table desc);
    entry_insert f table (vo -64 Z.land vo (block_mask (S lc))) pa size) s =
    descend (S lc) (insert_translation lc f) t vo pa size i s) as Hex.
  { intros s1. unfold descend. apply bind_ext; [done|]. intros d s2. apply bind_ext; [done|].
    intros tc s3. apply Hinsert. }
  destruct (unaligned (S lc) vo pa size); cbn [negb andb].
  - apply bind_ext; [done|]. intros d s1. cbn [kind_of lpae_format lpae_kind].
    destruct (Descriptor.type d); [|apply Hex|done].
    apply bind_ext; [done|]. intros tc s2. apply bind_ext; [done|]. intros pac s3.
    apply bind_ext; [done|]. intros _ s4. apply Hex.
  - apply bind_ext; [done|]. intros d s1. unfold valid. cbn [kind_of lpae_format lpae_kind]. by rewrite type_valid.
Qed.

Lemma lpae_directory_remove t vo size s :
  Level_x_translation_table.remove_translation (S lc) entry_remove entry_empty t vo size s =
  remove_translation (S lc) t vo size s.
Proof.
  rewrite remove_translation_eq. apply lpae_range_op_eq. clear -Hremove Hempty. intros vo pa size i s.
  unfold Level_x_translation_table.remove_func. rewrite remove_func_overwrites by done.
  apply bind_ext; [done|]. intros d s1. cbn [kind_of lpae_format lpae_kind].
  destruct (Descriptor.type d); [done| |done].
  apply bind_ext; [done|]. intros tc s2. apply bind_ext; [apply Hremove|].
  intros _ s3. apply bind_ext; [apply Hempty|]. by intros [] s4.
Qed.
End Directory.

Lemma lpae_level_1_insert_eq f t vo pa size (s : state P) :
  level_1_insert f t vo pa size s = insert_translation 2 f t vo pa size s.
Proof. apply lpae_directory_insert; [lia|]. apply lpae_directory_insert; [lia|]. apply lpae_level_3_insert. Qed.

Lemma lpae_level_1_remove_eq t vo size (s : state P) :
  level_1_remove t vo size s = remove_translation 2 t vo size s.
Proof.
  apply lpae_directory_remove; [|apply lpae_empty_valid].
  apply lpae_directory_remove; [apply lpae_level_3_remove|apply lpae_empty_valid].
Qed.

End Equivalence.

(** ** The lookup of a page *)

Section Lookup.
Context `{Stage_param} {P : Type} `{Table_pool P}.

(** The answer of a lookup: whether the page is writeable, and the address of its
    block. *)
Definition answer (vo : Z) (o : option translation) : bool * Z :=
  match o with
  | Some (pa, r, k) => (r_write r, pa - vo mod 2 ^ block_size_log2 k)
  | None => (false, 0)
  end.

(** A page-aligned page lies within one entry of every level. *)
Lemma range_op_page {A} l t es vo pa (g : A → Z → Z → Z → Z → exc (state P) error A) a s r :
  (l ≤ 2)%nat → 0 ≤ vo → (4096 | vo) → vo + 4096 ≤ 2 ^ block_log2 (S l) →
  tables s !! t = Some es → length es = Z.to_nat (max_entries l) →
  (∀ d, es !! idx l vo = Some d → g a vo pa 4096 (vo / 2 ^ block_log2 l) s = (Ok r, s)) →
  Long_translation_table._range_op l vo pa 4096 g a s = (Ok r, s).
Proof.
  intros Hl Hvo Hal Hend Ht Hlen Hg.
  assert (block_log2 (S l) ≤ 62) as Htop.
  { cbn [block_log2 lpae_format]. unfold block_size_log2. destruct (S l <? 3)%nat, stage; lia. }
  destruct (first_part l vo 4096) as (He & Hlt & Hsub & Hmax); [lia..|].
  pose proof (block_bounds l) as [HB _]. pose proof (block_log2_pos l).
  unfold Long_translation_table._range_op, range_fuel. generalize (Z.to_nat (4096 / block_size l)). intros n.
  cbn [Long_translation_table.range_fold]. change (4096 =? 0) with false. cbn iota.
  set (e := Z.land (vo +64 block_size l) (block_mask l)) in *.
  assert (vo + 4096 ≤ e) as Hpage.
  { assert (4096 | e - vo) as Hd.
    { apply Z.divide_sub_r; [|done]. rewrite He. apply Z.divide_mul_r, page_divide. }
    apply Z.divide_pos_le in Hd; lia. }
  rewrite Hsub, Z.min_l by lia.
  change (Long_translation_table.idx l) with (index (Encoding := lpae_encoding) l).
  rewrite (index_spec l vo) by (done || lia).
  destruct (lookup_lt_is_Some_2 es (idx l vo)) as [d Hd].
  { rewrite Hlen. unfold idx. destruct (max_entries_value l) as [_ ?]. apply Z2Nat.inj_lt; [apply Z.div_pos; lia|lia|done]. }
  unfold mbind, exc_bind. rewrite (Hg d Hd). destruct (Z.ltb_spec e vo); [lia|]. done.
Qed.

Lemma answer_block vo l d :
  stage = STAGE1 →
  answer vo (Some (block_pa l d + vo mod 2 ^ block_log2 l, block_rights l d, l)) = (rw d, block_pa l d).
Proof.
  intros Hst. unfold answer. cbn [block_rights lpae_format block_log2]. rewrite rw_bit.
  unfold lpae_rights. rewrite Hst. simpl. f_equal. lia.
Qed.

Lemma entry_exists l (es : list Z) vo :
  length es = Z.to_nat (max_entries l) → 0 ≤ vo < 2 ^ block_log2 (S l) → is_Some (es !! idx l vo).
Proof.
  intros Hlen Hvo. apply lookup_lt_is_Some_2. rewrite Hlen. unfold idx.
  destruct (max_entries_value l) as [? ?]. pose proof (block_bounds l) as [? _].
  apply Z2Nat.inj_lt; [apply Z.div_pos; lia|lia|]. apply Z.div_lt_upper_bound; lia.
Qed.

Lemma level_3_lookup s t D vo pa :
  stage = STAGE1 → tree 0 (tables s) (virt s) t D → 0 ≤ vo → (4096 | vo) → vo + 4096 ≤ 2 ^ block_log2 1 →
  Level_3_translation_table.lookup_rw_translation (P := P) t vo pa s =
  (Ok (answer vo (walk 0 (tables s) (virt s) t vo)), s).
Proof.
  intros Hst (es & C & Hn)%tree_unfold Hvo Hal Hend. rewrite walk_unfold, (node_entries _ _ _ _ _ _ _ _ Hn).
  unfold Level_3_translation_table.lookup_rw_translation, mbind at 1, exc_bind at 1.
  cbn [mbind option_bind].
  destruct (entry_exists 0 es vo) as [d Hd]; [apply Hn|lia|].
  rewrite (range_op_page 0 t es vo 0 _ _ s
    (if Descriptor.valid d then Lookup (rw d) (block_pa 0 d) else Lookup false 0));
    [|lia|done|done|done|apply Hn|apply Hn|].
  - rewrite Hd. unfold entry_walk. cbn [kind_of lpae_format lpae_kind].
    destruct (Descriptor.valid d) eqn:Hv; [|done].
    by rewrite answer_block.
  - intros d' Hd'. rewrite Hd in Hd'. injection Hd' as <-.
    unfold Level_3_translation_table.lookup_func, mbind, exc_bind.
    rewrite (load_ok s t _ es d) by (apply Hn || done). by destruct (Descriptor.valid d).
Qed.

(** The offset of a page within an entry. *)
Lemma page_in_entry l vo :
  (4096 | vo) → 0 ≤ vo mod 2 ^ block_log2 (S l) ∧ (4096 | vo mod 2 ^ block_log2 (S l)) ∧
  vo mod 2 ^ block_log2 (S l) + 4096 ≤ 2 ^ block_log2 (S l).
Proof.
  intros Hal. pose proof (block_bounds (S l)) as [HB _]. set (B := 2 ^ block_log2 (S l)) in *.
  assert (4096 | B) as HdB by apply page_divide.
  pose proof (Z.mod_pos_bound vo B HB). pose proof (Z.div_mod vo B).
  assert (4096 | vo mod B) as Hd.
  { rewrite Z.mod_eq by lia. apply Z.divide_sub_r; [done|]. by apply Z.divide_mul_l. }
  split_and!; [lia|done|].
  assert (4096 | B - vo mod B) as Hd' by (by apply Z.divide_sub_r).
  apply Z.divide_pos_le in Hd'; lia.
Qed.

(** The answer for a block below an entry is the one for the whole offset. *)
Lemma answer_below l vo o :
  level_le l o → answer (vo mod 2 ^ block_log2 (S l)) o = answer vo o.
Proof.
  destruct o as [[[pa r] k]|]; [|done]. simpl. intros Hk. do 2 f_equal.
  destruct (block_divide k (S l) ltac:(lia)) as [q Hq]. cbn [block_log2 lpae_format] in Hq. rewrite Hq.
  pose proof (block_bounds k) as [HB _]. cbn [block_log2 lpae_format] in HB.
  assert (0 < q) by (pose proof (block_bounds (S l)) as [HB' _]; cbn [block_log2 lpae_format] in HB'; nia).
  set (B := 2 ^ block_size_log2 k) in *.
  rewrite (Z.mul_comm q), Z.rem_mul_r, (Z.mul_comm B), Z.mod_add, Z.mod_mod by lia. done.
Qed.

Section Directory.
Context (lc : nat) (Hlc : (lc < 2)%nat) (Hst : stage = STAGE1).
Context (entry_lookup : Z → Z → Z → exc (state P) error (bool * Z)).
Context (Hentry : ∀ s t D vo pa, tree lc (tables s) (virt s) t D → 0 ≤ vo → (4096 | vo) →
  vo + 4096 ≤ 2 ^ block_log2 (S lc) →
  entry_lookup t vo pa s = (Ok (answer vo (walk lc (tables s) (virt s) t vo)), s)).

Lemma lpae_directory_lookup s t D vo pa :
  tree (S lc) (tables s) (virt s) t D → 0 ≤ vo → (4096 | vo) → vo + 4096 ≤ 2 ^ block_log2 (S (S lc)) →
  Level_x_translation_table.lookup_rw_translation (S lc) entry_lookup t vo pa s =
  (Ok (answer vo (walk (S lc) (tables s) (virt s) t vo)), s).
Proof.
  intros (es & C & Hn)%tree_unfold Hvo Hal Hend. rewrite walk_unfold, (node_entries _ _ _ _ _ _ _ _ Hn).
  unfold Level_x_translation_table.lookup_rw_translation, mbind at 1, exc_bind at 1.
  cbn [mbind option_bind]. destruct (entry_exists (S lc) es vo) as [d Hd]; [apply Hn|lia|].
  assert (block_log2 (S (S lc)) ≤ 62) as Htop.
  { cbn [block_log2 lpae_format]. unfold block_size_log2. destruct (S (S lc) <? 3)%nat, stage; lia. }
  pose proof (Z.pow_le_mono_r 2 (block_log2 (S (S lc))) 62).
  pose proof (block_log2_step (S lc)).
  destruct (page_in_entry lc vo Hal) as (Ho & Hoa & Hoe).
  rewrite (range_op_page (S lc) t es vo pa _ _ s
    (let a := answer vo (entry_walk (S lc) (sub_walk (S lc) (tables s) (virt s)) (virt s) d (vo mod 2 ^ block_log2 (S lc)))
     in Lookup a.1 a.2)); [|lia|done|done|done|apply Hn|apply Hn|].
  - rewrite Hd. simpl. by destruct (answer _ _).
  - intros d' Hd'. rewrite Hd in Hd'. injection Hd' as <-.
    unfold Level_x_translation_table.lookup_func, mbind, exc_bind.
    rewrite (load_ok s t _ es d) by (apply Hn || done).
    pose proof (node_child _ _ _ _ _ _ _ _ Hn _ _ Hd) as Hch.
    unfold entry_walk. cbn [kind_of lpae_format lpae_kind] in *.
    destruct (Descriptor.type d); [done| |].
    + unfold virt_of. rewrite offset_in_entry by (lia || word_lia).
      cbn [phys]. change (pool_virt (pool s)) with (virt s).
      pose proof (Hentry s _ _ _ 0 Hch Ho Hoa Hoe) as E. rewrite answer_below in E by apply walk_level.
      cbn [next_table lpae_format block_log2] in *. by rewrite E.
    + by rewrite answer_block.
Qed.
End Directory.

Lemma level_1_lookup_eq s t D vo pa :
  stage = STAGE1 → tree 2 (tables s) (virt s) t D → 0 ≤ vo → (4096 | vo) → vo + 4096 ≤ 2 ^ block_log2 3 →
  level_1_lookup (P := P) t vo pa s = (Ok (answer vo (walk 2 (tables s) (virt s) t vo)), s).
Proof.
  intros Hst. apply lpae_directory_lookup; [lia|done|]. clear -Hst. intros s t D vo pa.
  apply lpae_directory_lookup; [lia|done|]. clear -Hst. intros s t D vo pa. by apply level_3_lookup.
Qed.

End Lookup.

(** ** The page table implements the map from offsets to translations *)

(** What both stages have in common: the range gets the rights of the descriptors. *)
Lemma lpae_insert_rights `{Stage_param} `{PL : Pool_laws 4096 (2 ^ 48) P} (root : Z) (s : state P) (f : Page_flags)
    (vo pa size : Z) :
  well_formed root (top := 2) s → 0 ≤ vo → 0 ≤ size → vo + size ≤ 2 ^ block_size_log2 3 →
  0 ≤ pa → pa + size ≤ 2 ^ 47 →
  let (r, s') := level_1_insert f root vo pa size s in
  well_formed root (top := 2) s' ∧
  ∀ v, 0 ≤ v < 2 ^ block_size_log2 3 →
    inserted (descriptor_rights f) r vo pa size v (translate root (top := 2) s v) (translate root (top := 2) s' v).
Proof.
  intros Hs H1 H2 H3 H4 H5. rewrite lpae_level_1_insert_eq.
  exact (spec_whole root (λ r, inserted (descriptor_rights f) r vo pa size) _ s
    (insert_spec (PA_BITS := 47) root f 2 root _ pa size (le_n 2) H1 H2 H3 H4 H5) Hs).
Qed.

(** C14: inserting a translation into a stage-1 table, as the kernel and the protection
    domains use them, keeps the table and the pool well formed, makes the hardware
    translate every offset of the range to the address at the same distance from [pa] with
    the rights that the flags request, changes no other offset, and on an exception leaves
    every offset with its old or its new translation.  (For stage 2 the rights are others:
    [lpae_stage2_insert_translation].) *)
Theorem lpae_insert_translation `{Stage_param} `{PL : Pool_laws 4096 (2 ^ 48) P} (root : Z) (s : state P) (f : Page_flags)
    (vo pa size : Z) :
  stage = STAGE1 →
  well_formed root (top := 2) s → 0 ≤ vo → 0 ≤ size → vo + size ≤ 2 ^ block_size_log2 3 →
  0 ≤ pa → pa + size ≤ 2 ^ 47 →
  let (r, s') := level_1_insert f root vo pa size s in
  well_formed root (top := 2) s' ∧
  ∀ v, 0 ≤ v < 2 ^ block_size_log2 3 →
    inserted (rights_of_flags f) r vo pa size v (translate root (top := 2) s v) (translate root (top := 2) s' v).
Proof.
  intros Hst Hs H1 H2 H3 H4 H5. assert (rights_of_flags f = descriptor_rights f) as ->.
  { unfold descriptor_rights. by rewrite Hst. }
  by apply lpae_insert_rights.
Qed.

(** In a stage-2 table the offsets of the range are translated likewise, but with all
    rights, whatever is requested. *)
Theorem lpae_stage2_insert_translation `{Stage_param} `{PL : Pool_laws 4096 (2 ^ 48) P} (root : Z) (s : state P) (f : Page_flags)
    (vo pa size : Z) :
  stage = STAGE2 →
  well_formed root (top := 2) s → 0 ≤ vo → 0 ≤ size → vo + size ≤ 2 ^ block_size_log2 3 →
  0 ≤ pa → pa + size ≤ 2 ^ 47 →
  let (r, s') := level_1_insert f root vo pa size s in
  well_formed root (top := 2) s' ∧
  ∀ v, 0 ≤ v < 2 ^ block_size_log2 3 →
    inserted (Rights true true true true) r vo pa size v (translate root (top := 2) s v) (translate root (top := 2) s' v).
Proof.
  intros Hst Hs H1 H2 H3 H4 H5. assert (Rights true true true true = descriptor_rights f) as ->.
  { unfold descriptor_rights. by rewrite Hst. }
  by apply lpae_insert_rights.
Qed.

(** in both stages, removing a range never throws, keeps the table and the pool well
    formed, unmaps every block that overlaps the range, and leaves every other
    translation as it was. *)
Theorem lpae_remove_translation `{Stage_param} `{PL : Pool_laws 4096 (2 ^ 48) P} (root : Z) (s : state P) (vo size : Z) :
  well_formed root (top := 2) s → 0 ≤ vo → 0 ≤ size → vo + size ≤ 2 ^ block_size_log2 3 →
  let (r, s') := level_1_remove root vo size s in
  well_formed root (top := 2) s' ∧ r = Ok tt ∧
  ∀ v, 0 ≤ v < 2 ^ block_size_log2 3 →
    translate root (top := 2) s' v = cut vo size v (translate root (top := 2) s v).
Proof.
  intros Hs H1 H2 H3. rewrite lpae_level_1_remove_eq.
  pose proof (spec_whole root _ _ s (remove_spec (PA_BITS := 47) root 2 root _ size (le_n 2) H1 H2 H3) Hs) as H'.
  destruct (remove_translation 2 root _ size s) as [r s'], H' as [Hs' Hw]. split_and!; [done| |].
  - destruct (Hw 0) as [-> _]; [|done]. split; [done|]. cbn [block_log2 lpae_format]. unfold block_size_log2.
    by destruct stage.
  - intros v Hv. by apply Hw.
Qed.

(** for a page-aligned address, the lookup answers whether the hardware translates
    the page and lets it be written, and returns the address of the block that maps
    it; it changes nothing. *)
Theorem lpae_lookup_rw_translation `{Stage_param} `{PL : Pool_laws 4096 (2 ^ 48) P} (root : Z) (s : state P) (vo pa : Z) :
  stage = STAGE1 → well_formed root (top := 2) s → 0 ≤ vo → (4096 | vo) → vo + 4096 ≤ 2 ^ block_size_log2 3 →
  level_1_lookup root vo pa s =
    (Ok (match translate root (top := 2) s vo with
         | Some (p, r, k) => (r_write r, p - vo mod 2 ^ block_size_log2 k)
         | None => (false, 0)
         end), s).
Proof. intros Hst [_ (D & Ht & _)] ? ? ?. by apply (level_1_lookup_eq s root D). Qed.

Definition demo_flags : Page_flags := Flags true false false false RAM CACHED.

(** Four KiB at the offset 0x2000 of a stage-1 table. *)
Definition demo_mapped : result error unit * state Page_table_allocator.t :=
  level_1_insert (H := STAGE1) (H0 := array_pool 4096) demo_flags demo_root 0x2000 0x12345000 0x1000
    (demo_state 512).

(** for an address that is not page aligned, the lookup answers for the page behind
    it: with a table that maps only the page at 0x2000, the lookup of 0x1800 reports
    a writeable translation, although nothing is mapped at 0x1800. *)
Theorem lpae_lookup_unaligned :
  demo_mapped.1 = Ok tt ∧
  translate (F := lpae_format (H := STAGE1)) (H := array_pool 4096) (top := 2) demo_root demo_mapped.2 0x1800 = None ∧
  (level_1_lookup (H := STAGE1) (H0 := array_pool 4096) demo_root 0x1800 0 demo_mapped.2).1 =
    Ok (true, 0x12345000).
Proof. vm_compute. auto. Qed.

(** a request for memory that may be neither written nor executed, inserted into a
    stage-2 table, lets the guest write and execute it. *)
Theorem lpae_stage2_ignores_flags :
  let f := Flags false false false false RAM CACHED in
  let s := level_1_insert (H := STAGE2) (H0 := array_pool 4096) f demo_root 0x2000 0x12345000 0x1000
    (demo_state (Z.to_nat (max_entries (F := lpae_format (H := STAGE2)) 2))) in
  s.1 = Ok tt ∧
  translate (F := lpae_format (H := STAGE2)) (H := array_pool 4096) (top := 2) demo_root s.2 0x2000 =
    Some (0x12345000, Rights true true true true, 0%nat).
Proof. vm_compute. auto. Qed.

Lemma demo_root_well_formed :
  well_formed (F := lpae_format (H := STAGE1)) (H := array_pool 4096) (PL := demo_pool_laws) (top := 2)
    demo_root (demo_state 512).
Proof. exact (demo_well_formed (FL := lpae_format_laws (H := STAGE1)) 2). Qed.

Lemma lpae_insert_translation_witness :
  ∃ k, translate (F := lpae_format (H := STAGE1)) (H := array_pool 4096) (top := 2) demo_root demo_mapped.2 0x2abc =
    Some (0x12345abc, rights_of_flags demo_flags, k).
Proof.
  pose proof (lpae_insert_translation (H := STAGE1) (PL := demo_pool_laws) demo_root (demo_state 512) demo_flags
    0x2000 0x12345000 0x1000 eq_refl demo_root_well_formed ltac:(lia) ltac:(lia) ltac:(vm_compute; discriminate)
    ltac:(lia) ltac:(lia)) as H.
  fold demo_mapped in H.
  assert (demo_mapped.1 = Ok tt) as Hok by (vm_compute; reflexivity).
  destruct demo_mapped as [r s']. cbn [fst snd] in *. rewrite Hok in H.
  destruct H as [_ H]. destruct (H 0x2abc ltac:(split; vm_compute; done)) as [_ H'].
  destruct (H' ltac:(lia)) as [k Hk]. by exists k.
Defined.

Lemma lpae_remove_translation_witness :
  (level_1_remove (H := STAGE1) (H0 := array_pool 4096) demo_root 0 0x1000 (demo_state 512)).1 = Ok tt.
Proof.
  pose proof (lpae_remove_translation (H := STAGE1) (PL := demo_pool_laws) demo_root (demo_state 512) 0 0x1000
    demo_root_well_formed ltac:(lia) ltac:(lia) ltac:(vm_compute; discriminate)) as H.
  destruct (level_1_remove _ _ _ _) as [r s']. apply H.
Defined.

Lemma lpae_lookup_rw_translation_witness :
  (level_1_lookup (H := STAGE1) (H0 := array_pool 4096) demo_root 0x2000 0 (demo_state 512)).1 = Ok (false, 0).
Proof.
  rewrite (lpae_lookup_rw_translation (H := STAGE1) (PL := demo_pool_laws) demo_root (demo_state 512) 0x2000 0
    eq_refl demo_root_well_formed ltac:(lia) ltac:(exists 2; reflexivity) ltac:(vm_compute; discriminate)).
  vm_compute. reflexivity.
Defined.
