(* ===== verification/Short_table.v ===== *)
(** * Short_table: the short-descriptor page tables of ARM

    Model of [src/repos/base-hw/src/include/hw/spec/arm/page_table.h], the two-level
    format of ARMv6 and ARMv7: tables of 256 small pages, a root table of 4096 sections
    or references to tables, and their loops.  Addresses and sizes have 32 bits; the
    device memory attribute and the shareability come from the CPU (the files
    [translation_table.h] of [src/repos/base-hw/src/core/spec/]).  A failed [assert] is the
    error [Assertion].  Cleaning the cache lines of changed entries ([_table_changed]) has
    no effect on the modelled state.

    The code has no functors but one loop per operation and level; [Short_table_props]
    relates the loops to the range operation of [Page_table]. *)

From S2P Require Import Prelude.
From S2P Require Import Register.
From S2P Require Import Page_table_allocator.
From S2P Require Import Page_table.

Open Scope Z_scope.
Open Scope word_scope.

(** ** Descriptors *)

Inductive Cpu := Cortex_a8 | Cortex_a9 | Arm_v6.

Class Cpu_param := cpu : Cpu.

(** The fields that both kinds of blocks have. *)
Record fields := Fields {
  B : bitfield; Xn : bitfield; Ap : bitset; Tex : bitfield; S_bit : bitfield; Ng : bitfield; Pa : bitfield }.

Module Descriptor_base.
Section Cpu.
Context `{Cpu_param}.

Definition _device_tex : Z := match cpu with Cortex_a8 | Cortex_a9 => 2 | Arm_v6 => 0 end.

Definition _smp : bool := match cpu with Cortex_a9 => true | Cortex_a8 | Arm_v6 => false end.

Definition _create (T : fields) (f : Page_flags) (pa : Z) : Z :=
  let v := masked 32 (Pa T) pa in
  let v := set 32 (S_bit T) v (Z.b2z _smp) in
  let v := set 32 (Ng T) v (Z.b2z (negb (global f))) in
  let v := set 32 (Xn T) v (Z.b2z (negb (executable f))) in
  let v :=
    match Page_table.type f with
    | DEVICE => set 32 (Tex T) v _device_tex
    | RAM =>
        match cacheable f with
        | CACHED => let v := set 32 (Tex T) v 5 in set 32 (B T) v 1
        | WRITE_COMBINED => set 32 (B T) v 1
        | UNCACHED => set 32 (Tex T) v 1
        end
    end in
  if writeable f
  then if privileged f then set_set 32 (Ap T) v 1 else set_set 32 (Ap T) v 3
  else if privileged f then set_set 32 (Ap T) v 5 else set_set 32 (Ap T) v 2.

End Cpu.
End Descriptor_base.

(** [Page_table_level_2::Descriptor] *)
Module Page_descriptor.

Inductive Type_ := FAULT | SMALL_PAGE.

Definition VIRT_SIZE_LOG2 : Z := 12.
Definition VIRT_SIZE : Z := 2 ^ VIRT_SIZE_LOG2.
Definition VIRT_OFFSET_MASK : Z := VIRT_SIZE - 1.

Definition Type_0 := Bitfield 0 2.
Definition Type_1 := Bitfield 1 1.

Definition type (v : Z) : Type_ :=
  if get 32 Type_0 v =? 0 then FAULT
  else if get 32 Type_1 v =? 1 then SMALL_PAGE
  else FAULT.

Definition set_type (v : Z) (t : Type_) : Z :=
  match t with FAULT => set 32 Type_0 v 0 | SMALL_PAGE => set 32 Type_1 v 1 end.

Definition invalidate (v : Z) : Z := set_type v FAULT.

Definition valid (v : Z) : bool := match type v with FAULT => false | _ => true end.

End Page_descriptor.

Module Small_page.

Definition layout : fields := {|
  Xn := Bitfield 0 1; B := Bitfield 2 1; Ap := Bitset_2 (Field (Bitfield 4 2)) (Field (Bitfield 9 1));
  Tex := Bitfield 6 3; S_bit := Bitfield 10 1; Ng := Bitfield 11 1; Pa := Bitfield 12 20 |}.

Definition create `{Cpu_param} (flags : Page_flags) (pa : Z) : Z :=
  Page_descriptor.set_type (Descriptor_base._create layout flags pa) Page_descriptor.SMALL_PAGE.

End Small_page.

(** [Page_table::Descriptor] *)
Module Descriptor.

Inductive Type_ := FAULT | PAGE_TABLE | SECTION.

#[export] Instance Type_eq_dec : EqDecision Type_.
Proof. solve_decision. Defined.

Definition VIRT_SIZE_LOG2 : Z := 20.
Definition VIRT_SIZE : Z := 2 ^ VIRT_SIZE_LOG2.
Definition VIRT_OFFSET_MASK : Z := VIRT_SIZE - 1.
Definition VIRT_BASE_MASK : Z := u32 (Z.lnot VIRT_OFFSET_MASK).

Definition Type_0 := Bitfield 0 2.
Definition Type_1 := Bitset_2 (Field (Bitfield 1 1)) (Field (Bitfield 18 1)).

Definition type (v : Z) : Type_ :=
  let t := get 32 Type_0 v in
  if t =? 0 then FAULT
  else if t =? 1 then PAGE_TABLE
  else if set_get 32 Type_1 v =? 1 then SECTION
  else FAULT.

Definition set_type (v : Z) (t : Type_) : Z :=
  match t with
  | FAULT => set 32 Type_0 v 0
  | PAGE_TABLE => set 32 Type_0 v 1
  | SECTION => set_set 32 Type_1 v 1
  end.

Definition invalidate (v : Z) : Z := set_type v FAULT.

Definition valid (v : Z) : bool := negb (bool_decide (type v = FAULT)).

Definition align (vo pa size : Z) : Type_ :=
  if negb (Z.land vo VIRT_OFFSET_MASK =? 0) || negb (Z.land pa VIRT_OFFSET_MASK =? 0) || (size <? VIRT_SIZE)
  then PAGE_TABLE else SECTION.

End Descriptor.

Module Page_table_descriptor.

Definition Pa := Bitfield 10 22.

Definition create (pt : Z) : Z := Descriptor.set_type (masked 32 Pa pt) Descriptor.PAGE_TABLE.

End Page_table_descriptor.

Module Section_descriptor.

Definition layout : fields := {|
  B := Bitfield 2 1; Xn := Bitfield 4 1; Ap := Bitset_2 (Field (Bitfield 10 2)) (Field (Bitfield 15 1));
  Tex := Bitfield 12 3; S_bit := Bitfield 16 1; Ng := Bitfield 17 1; Pa := Bitfield 20 12 |}.

Definition create `{Cpu_param} (flags : Page_flags) (pa : Z) : Z :=
  Descriptor.set_type (Descriptor_base._create layout flags pa) Descriptor.SECTION.

End Section_descriptor.

(** ** The format *)

Definition short_log2 (l : nat) : Z :=
  match l with
  | O => Page_descriptor.VIRT_SIZE_LOG2
  | 1%nat => Descriptor.VIRT_SIZE_LOG2
  | S (S l) => 32 + Z.of_nat l
  end.

Definition short_kind (l : nat) (d : Z) : kind :=
  match l with
  | O => match Page_descriptor.type d with Page_descriptor.FAULT => INVALID | Page_descriptor.SMALL_PAGE => BLOCK end
  | S _ =>
      match Descriptor.type d with
      | Descriptor.FAULT => INVALID | Descriptor.PAGE_TABLE => TABLE | Descriptor.SECTION => BLOCK
      end
  end.

Definition layout_of (l : nat) : fields := match l with O => Small_page.layout | S _ => Section_descriptor.layout end.

(** The access rights of the architecture: the values 1 and 3 of the access permissions let
    the intended privilege level write, and the second bit lets user code access. *)
Definition rw (ap : Z) : bool := (ap =? 1) || (ap =? 3).

Definition short_rights (T : fields) (d : Z) : rights :=
  let ap := set_get 32 (Ap T) d in
  Rights (rw ap) (get 32 (Xn T) d =? 0) (Z.testbit ap 1) (get 32 (Ng T) d =? 0).

#[export] Instance short_format : Format := {
  block_log2 := short_log2;
  kind_of := short_kind;
  next_table _ d := masked 32 Page_table_descriptor.Pa d;
  block_pa l d := masked 32 (Pa (layout_of l)) d;
  block_rights l := short_rights (layout_of l) }.

(** Enough turns of a loop over the entries of [2 ^ log2] bytes that a range touches. *)
Definition loop_fuel (log2 size : Z) : nat := S (S (S (Z.to_nat (size / 2 ^ log2)))).

(** ** Tables of the second level *)

Module Page_table_level_2.
Section Operations.
Context `{Cpu_param} {P : Type} `{Table_pool P}.

Definition MAX_INDEX : Z := 1024 / 4 - 1.

Definition max_virt_offset : Z :=
  Z.shiftl MAX_INDEX Page_descriptor.VIRT_SIZE_LOG2 + (Page_descriptor.VIRT_SIZE - 1).

Definition _index_by_vo (vo : Z) : option Z :=
  if max_virt_offset <? vo then None else Some (Z.shiftr vo Page_descriptor.VIRT_SIZE_LOG2).

Fixpoint insert_loop (fuel : nat) (flags : Page_flags) (t vo pa size : Z) : exc (state P) error unit :=
  match fuel with
  | O => throw Out_of_fuel
  | S fuel =>
      if size =? 0 then mret tt
      else
        match _index_by_vo vo with
        | None => mret tt
        | Some i =>
            let sz := Page_descriptor.VIRT_SIZE in
            let e := Small_page.create flags pa in
            d ← load t i;
            if Page_descriptor.valid d && negb (d =? e) then throw Assertion
            else
              _ ← store t i e;
              insert_loop fuel flags t (vo +32 sz) (pa +32 sz) (if size <? sz then 0 else size -32 sz)
        end
  end.

Definition insert_translation (flags : Page_flags) (t vo pa size : Z) : exc (state P) error unit :=
  insert_loop (loop_fuel Page_descriptor.VIRT_SIZE_LOG2 size) flags t vo pa size.

Fixpoint remove_loop (fuel : nat) (t vo size : Z) : exc (state P) error unit :=
  match fuel with
  | O => throw Out_of_fuel
  | S fuel =>
      if size =? 0 then mret tt
      else
        match _index_by_vo vo with
        | None => mret tt
        | Some i =>
            let sz := Page_descriptor.VIRT_SIZE in
            d ← load t i;
            _ ← match Page_descriptor.type d with
                | Page_descriptor.SMALL_PAGE => store t i (Page_descriptor.invalidate d)
                | Page_descriptor.FAULT => mret tt
                end;
            remove_loop fuel t (vo +32 sz) (if size <? sz then 0 else size -32 sz)
        end
  end.

Definition remove_translation (t vo size : Z) : exc (state P) error unit :=
  remove_loop (loop_fuel Page_descriptor.VIRT_SIZE_LOG2 size) t vo size.

(** Whether the lookup succeeds, and the value of [phys] afterwards. *)
Definition lookup_rw_translation (t virt phys : Z) : exc (state P) error (bool * Z) :=
  match _index_by_vo virt with
  | None => mret (false, phys)
  | Some i =>
      d ← load t i;
      match Page_descriptor.type d with
      | Page_descriptor.SMALL_PAGE =>
          mret (rw (set_get 32 (Ap Small_page.layout) d), masked 32 (Pa Small_page.layout) d)
      | Page_descriptor.FAULT => mret (false, phys)
      end
  end.

Definition empty (t : Z) : exc (state P) error bool := table_empty Page_descriptor.valid t.

End Operations.
End Page_table_level_2.

(** ** The root table *)

(** [Hw::Page_table] *)
Module Translation_table.
Section Operations.
Context `{Cpu_param} {P : Type} `{Table_pool P}.

Definition MAX_INDEX : Z := 2 ^ 14 / 4 - 1.

Definition max_virt_offset : Z :=
  Z.shiftl MAX_INDEX Descriptor.VIRT_SIZE_LOG2 + (Descriptor.VIRT_SIZE - 1).

Definition _index_by_vo (vo : Z) : option Z :=
  if max_virt_offset <? vo then None else Some (Z.shiftr vo Descriptor.VIRT_SIZE_LOG2).

(** The offset of [vo] within its section. *)
Definition section_offset (vo : Z) : Z := vo -32 masked 32 (Pa Section_descriptor.layout) vo.

Definition _insert_second_level (t i vo pa size : Z) (flags : Page_flags) : exc (state P) error unit :=
  if MAX_INDEX <? i then mret tt
  else
    let existing : exc (state P) error unit :=
      d ← load t i;
      pt ← virt_of (masked 32 Page_table_descriptor.Pa d);
      Page_table_level_2.insert_translation flags pt (section_offset vo) pa size in
    d ← load t i;
    match Descriptor.type d with
    | Descriptor.FAULT =>
        pt ← construct_table 0;
        pa_pt ← phys_of pt;
        _ ← store t i (Page_table_descriptor.create pa_pt);
        existing
    | Descriptor.PAGE_TABLE => existing
    | Descriptor.SECTION => throw Assertion
    end.

(** The section, or the part of a table, that the entry [i] ending at [end_] takes up. *)
Definition insert_entry (f : Page_flags) (t vo pa size end_ i : Z) : exc (state P) error unit :=
  match Descriptor.align vo pa size with
  | Descriptor.SECTION =>
      let e := Section_descriptor.create f pa in
      d ← load t i;
      if d =? e then mret tt
      else if Descriptor.valid d then throw Assertion
      else store t i e
  | _ => _insert_second_level t i vo pa (Z.min size (end_ -32 vo)) f
  end.

Fixpoint insert_loop (fuel : nat) (f : Page_flags) (t vo pa size : Z) : exc (state P) error unit :=
  match fuel with
  | O => throw Out_of_fuel
  | S fuel =>
      if size =? 0 then mret tt
      else
        match _index_by_vo vo with
        | None => mret tt
        | Some i =>
            let end_ := Z.land (vo +32 Descriptor.VIRT_SIZE) Descriptor.VIRT_BASE_MASK in
            _ ← insert_entry f t vo pa size end_ i;
            if end_ <? vo then mret tt
            else
              let sz := end_ -32 vo in
              insert_loop fuel f t (vo +32 sz) (pa +32 sz) (if sz <? size then size -32 sz else 0)
        end
  end.

Definition insert_translation (f : Page_flags) (t vo pa size : Z) : exc (state P) error unit :=
  if (Z.land vo Page_descriptor.VIRT_OFFSET_MASK =? 0) && (Page_descriptor.VIRT_SIZE <=? size)
  then insert_loop (loop_fuel Descriptor.VIRT_SIZE_LOG2 size) f t vo pa size
  else throw Assertion.

Definition remove_entry (t vo size end_ i : Z) : exc (state P) error unit :=
  d ← load t i;
  match Descriptor.type d with
  | Descriptor.PAGE_TABLE =>
      pt ← virt_of (masked 32 Page_table_descriptor.Pa d);
      _ ← Page_table_level_2.remove_translation pt (section_offset vo) (Z.min size (end_ -32 vo));
      e ← Page_table_level_2.empty pt;
      if (e : bool) then
        d ← load t i;
        _ ← store t i (Descriptor.invalidate d);
        destruct_table pt
      else mret tt
  | _ => store t i (Descriptor.invalidate d)
  end.

Fixpoint remove_loop (fuel : nat) (t vo size : Z) : exc (state P) error unit :=
  match fuel with
  | O => throw Out_of_fuel
  | S fuel =>
      if size =? 0 then mret tt
      else
        match _index_by_vo vo with
        | None => mret tt
        | Some i =>
            let end_ := Z.land (vo +32 Descriptor.VIRT_SIZE) Descriptor.VIRT_BASE_MASK in
            _ ← remove_entry t vo size end_ i;
            if end_ <? vo then mret tt
            else
              let sz := end_ -32 vo in
              remove_loop fuel t (vo +32 sz) (if sz <? size then size -32 sz else 0)
        end
  end.

Definition remove_translation (t vo size : Z) : exc (state P) error unit :=
  if vo <=? vo +32 size then remove_loop (loop_fuel Descriptor.VIRT_SIZE_LOG2 size) t vo size
  else throw Assertion.

Definition lookup_rw_translation (t virt phys : Z) : exc (state P) error (bool * Z) :=
  match _index_by_vo virt with
  | None => mret (false, phys)
  | Some i =>
      d ← load t i;
      match Descriptor.type d with
      | Descriptor.SECTION =>
          mret (rw (set_get 32 (Ap Section_descriptor.layout) d), masked 32 (Pa Section_descriptor.layout) d)
      | Descriptor.PAGE_TABLE =>
          pt ← virt_of (masked 32 Page_table_descriptor.Pa d);
          Page_table_level_2.lookup_rw_translation pt (section_offset virt) phys
      | Descriptor.FAULT => mret (false, phys)
      end
  end.

End Operations.
End Translation_table.
