(* ===== verification/Short_table_laws.v ===== *)
(** * Short_table_laws: the descriptors of the short-descriptor page table

    The descriptors of [Short_table] satisfy the laws of a format and its encodings. *)

From S2P Require Import Prelude.
From S2P Require Import Register.
From S2P Require Import Page_table_allocator.
From S2P Require Import Page_table.
From S2P Require Import Page_table_spec.
From S2P Require Import Short_table.

Open Scope Z_scope.
Open Scope word_scope.

(** ** Descriptors: the address above, the attributes below *)

(** [a] has bits of the address part only. *)
Definition above (k a : Z) : Prop := in_range 32 a ∧ ∀ i, i < k → Z.testbit a i = false.

Definition within (k : Z) (g : bitfield) : Prop := 0 ≤ SHIFT g ∧ 0 < WIDTH g ∧ SHIFT g + WIDTH g ≤ k ∧ k ≤ 32.

Lemma within_field k g : within k g → field_ok 32 g.
Proof. intros (?&?&?&?). unfold field_ok. lia. Qed.

Lemma above_covers k a g i : above k a → within k g → covers g i = true → Z.testbit a i = false.
Proof. intros [_ Ha] (?&?&?&?) [? ?%Z.ltb_lt]%andb_true_iff. apply Ha. lia. Qed.

Lemma get_above k g a b : above k a → within k g → get 32 g (Z.lor a b) = get 32 g b.
Proof.
  intros Ha Hg. pose proof (within_field _ _ Hg). apply Z.bits_inj'. intros i Hi.
  rewrite !get_bit, Z.lor_spec by done. destruct (Z.ltb_spec i (WIDTH g)); [|done].
  rewrite (above_covers k a g) by (done || (apply covers_in; lia)). done.
Qed.

Lemma clear_above k g a b : above k a → in_range 32 b → within k g →
  clear 32 g (Z.lor a b) = Z.lor a (clear 32 g b) ∧ in_range 32 (clear 32 g b).
Proof.
  intros Ha Hb Hg. pose proof (within_field _ _ Hg). pose proof Ha as [Hr _]. split; [|by apply clear_range].
  apply Z.bits_inj'. intros i Hi. rewrite Z.lor_spec, !clear_bit, Z.lor_spec by auto with words.
  destruct (covers g i) eqn:Ec; [|done]. by rewrite (above_covers k a g i).
Qed.

Lemma set_above k g a b v : above k a → in_range 32 b → within k g →
  set 32 g (Z.lor a b) v = Z.lor a (set 32 g b v) ∧ in_range 32 (set 32 g b v).
Proof.
  intros Ha Hb Hg. pose proof (within_field _ _ Hg). pose proof Ha as [Hr _]. split; [|by apply set_range].
  apply Z.bits_inj'. intros i Hi. rewrite Z.lor_spec, !set_bit, Z.lor_spec by auto with words.
  destruct (covers g i) eqn:Ec; [|done]. by rewrite (above_covers k a g i).
Qed.

(** A bit set of two fields. *)
Definition pair_of (b : bitset) : option (bitfield * bitfield) :=
  match b with Bitset_2 (Field g0) (Field g1) => Some (g0, g1) | _ => None end.

Lemma set_set_above k b g0 g1 a c v : pair_of b = Some (g0, g1) → above k a → in_range 32 c → within k g0 → within k g1 →
  set_set 32 b (Z.lor a c) v = Z.lor a (set_set 32 b c v) ∧ in_range 32 (set_set 32 b c v).
Proof.
  destruct b as [|[h0|] [h1|]]; try done. intros [= -> ->] Ha Hc H0 H1. simpl.
  destruct (clear_above k g0 a c Ha Hc H0) as [-> Hr0]. destruct (clear_above k g1 a _ Ha Hr0 H1) as [-> Hr1].
  destruct (set_above k g0 a _ v Ha Hr1 H0) as [-> Hr2]. by apply set_above with k.
Qed.

Lemma set_get_above k b g0 g1 a c : pair_of b = Some (g0, g1) → above k a → within k g0 → within k g1 →
  set_get 32 b (Z.lor a c) = set_get 32 b c.
Proof.
  destruct b as [|[h0|] [h1|]]; try done. intros [= -> ->] Ha H0 H1. simpl. by rewrite !(get_above k) by done.
Qed.

(** The layouts put the attributes below the address. *)
Definition attributes_below (T : fields) (k : Z) : Prop :=
  within k (S_bit T) ∧ within k (Ng T) ∧ within k (Xn T) ∧ within k (Tex T) ∧ within k (B T) ∧
  (∃ g0 g1, pair_of (Ap T) = Some (g0, g1) ∧ within k g0 ∧ within k g1) ∧
  Pa T = Bitfield k (32 - k) ∧ 0 < k < 32.

Lemma small_page_below : attributes_below Small_page.layout 12.
Proof. unfold attributes_below, within. simpl. split_and!; try lia; [|done]. by eexists _, _. Qed.

Lemma section_below : attributes_below Section_descriptor.layout 20.
Proof. unfold attributes_below, within. simpl. split_and!; try lia; [|done]. by eexists _, _. Qed.

(** [v] is [c] with the address [a] added. *)
Definition lifted (a v c : Z) : Prop := v = Z.lor a c ∧ in_range 32 c.

Lemma lifted_set k a v c g x : above k a → within k g → lifted a v c → lifted a (set 32 g v x) (set 32 g c x).
Proof. intros Ha Hg [-> Hc]. by apply set_above with k. Qed.

Lemma lifted_set_set k a v c T x : above k a → attributes_below T k → lifted a v c →
  lifted a (set_set 32 (Ap T) v x) (set_set 32 (Ap T) c x).
Proof. intros Ha (_&_&_&_&_&(g0&g1&?&?&?)&_) [-> Hc]. by apply set_set_above with k g0 g1. Qed.

Lemma address_above k a : 0 < k < 32 → 0 ≤ a → above k (masked 32 (Bitfield k (32 - k)) a).
Proof.
  intros Hk Ha. assert (field_ok 32 (Bitfield k (32 - k))) as Hf by (unfold field_ok; simpl; lia). split.
  - by apply (masked_range 32 _ a).
  - intros i Hi. destruct (decide (0 ≤ i)); [|by apply Z.testbit_neg_r; lia].
    rewrite masked_bit by done. unfold covers; simpl. by destruct (Z.leb_spec k i); [lia|].
Qed.

Section Blocks.
Context `{Cpu_param}.

Lemma create_lifted T k f pa : attributes_below T k → 0 ≤ pa →
  lifted (masked 32 (Pa T) pa) (Descriptor_base._create T f pa) (Descriptor_base._create T f 0).
Proof.
  intros HT Hpa. pose proof HT as (?&?&?&?&?&_&HP&Hk).
  assert (above k (masked 32 (Pa T) pa)) as Ha by (rewrite HP; by apply address_above).
  set (a := masked 32 (Pa T) pa) in *. unfold Descriptor_base._create. fold a. change (masked 32 (Pa T) 0) with 0.
  assert (lifted a a 0) as Hz by (split; [by rewrite Z.lor_0_r|unfold in_range; lia]).
  destruct (writeable f), (privileged f), (type f), (cacheable f);
    apply lifted_set_set with k; try done; repeat (apply lifted_set with k; try done).
Qed.

(** What the attribute bits say, by evaluation for all flags and CPUs. *)
Lemma small_page_attributes f :
  let d := Small_page.create f 0 in
  (0 ≤ d < 2 ^ 12) ∧ Page_descriptor.type d = Page_descriptor.SMALL_PAGE ∧
  short_rights Small_page.layout d = rights_of_flags f.
Proof.
  destruct f as [w x p g ty c], H, w, x, p, g, ty, c; vm_compute; repeat split; discriminate.
Qed.
Lemma section_attributes f :
  let d := Section_descriptor.create f 0 in
  (0 ≤ d < 2 ^ 20) ∧ Descriptor.type d = Descriptor.SECTION ∧
  short_rights Section_descriptor.layout d = rights_of_flags f.
Proof.
  destruct f as [w x p g ty c], H, w, x, p, g, ty, c; vm_compute; repeat split; discriminate.
Qed.

Definition block (l : nat) : Page_flags → Z → Z :=
  match l with O => Small_page.create | S _ => Section_descriptor.create end.

(** The number of bits below the address. *)
Definition block_bits (l : nat) : Z := match l with O => 12 | S _ => 20 end.

Lemma layout_below l : attributes_below (layout_of l) (block_bits l).
Proof. destruct l as [|l]; [apply small_page_below|apply section_below]. Qed.

Lemma block_lifted l f pa : 0 ≤ pa → lifted (masked 32 (Pa (layout_of l)) pa) (block l f pa) (block l f 0).
Proof.
  intros Hpa. pose proof (create_lifted _ _ f pa (layout_below l) Hpa) as Hc. pose proof (layout_below l) as (_&_&_&_&_&_&HP&Hk).
  assert (above (block_bits l) (masked 32 (Pa (layout_of l)) pa)) as Ha by (rewrite HP; by apply address_above).
  destruct l as [|l]; cbn [block layout_of block_bits] in *.
  - apply lifted_set with 12; [done| |done]. unfold within; simpl; lia.
  - unfold Section_descriptor.create, Descriptor.set_type. destruct Hc as [-> Hc]. apply set_set_above with 20 (Bitfield 1 1) (Bitfield 18 1); try done; unfold within; simpl; lia.
Qed.

Lemma kind_above l a c : above (block_bits l) a → short_kind l (Z.lor a c) = short_kind l c.
Proof.
  intros Ha. destruct l as [|l]; cbn [short_kind block_bits] in *.
  - unfold Page_descriptor.type. by rewrite !(get_above _ _ a c Ha) by (unfold within; simpl; lia).
  - unfold Descriptor.type. rewrite (get_above _ _ a c Ha) by (unfold within; simpl; lia).
    by rewrite (set_get_above 20 _ (Bitfield 1 1) (Bitfield 18 1) a c) by (done || (unfold within; simpl; lia)).
Qed.

Lemma rights_above T k a c : attributes_below T k → above k a → short_rights T (Z.lor a c) = short_rights T c.
Proof.
  intros (_&?&?&_&_&(g0&g1&?&?&?)&_) Ha. unfold short_rights.
  by rewrite (set_get_above k _ g0 g1 a c), !(get_above k _ a c) by done.
Qed.

Lemma block_low l f : 0 ≤ block l f 0 < 2 ^ block_bits l ∧ short_kind l (block l f 0) = BLOCK ∧
  short_rights (layout_of l) (block l f 0) = rights_of_flags f.
Proof.
  destruct l as [|l]; cbn [block short_kind layout_of].
  - destruct (small_page_attributes f) as (? & -> & ?). done.
  - destruct (section_attributes f) as (? & -> & ?). done.
Qed.

Lemma short_block l f pa : 0 ≤ pa →
  short_kind l (block l f pa) = BLOCK ∧ short_rights (layout_of l) (block l f pa) = rights_of_flags f.
Proof.
  intros Hpa. pose proof (layout_below l) as HT. pose proof HT as (_&_&_&_&_&_&HP&Hk).
  assert (above (block_bits l) (masked 32 (Pa (layout_of l)) pa)) as Ha by (rewrite HP; by apply address_above).
  destruct (block_lifted l f pa Hpa) as [-> _]. destruct (block_low l f) as (_ & <- & <-).
  split; [by apply kind_above|by apply rights_above with (block_bits l)].
Qed.

Lemma short_block_address l f pa : in_range 32 pa → (2 ^ block_bits l | pa) →
  masked 32 (Pa (layout_of l)) (block l f pa) = pa.
Proof.
  intros Hpa Hal. pose proof (layout_below l) as (_&_&_&_&_&_&HP&Hk). set (k := block_bits l) in *.
  assert (field_ok 32 (Pa (layout_of l))) as Hf by (rewrite HP; unfold field_ok; simpl; lia).
  destruct (block_lifted l f pa ltac:(apply Hpa)) as [-> _]. destruct (block_low l f) as (Hlow & _). fold k in Hlow.
  apply masked_exact; [done|rewrite HP; cbn [SHIFT WIDTH]; by replace (k + (32 - k)) with 32 by lia|by rewrite HP|].
  rewrite HP. cbn [SHIFT WIDTH]. intros i Hi. rewrite Z.lor_spec, masked_bit by (rewrite <- ?HP; done || lia).
  rewrite (in_range_testbit k (block l f 0)) by (done || lia). rewrite covers_in by (cbn [SHIFT WIDTH]; lia). simpl. by rewrite orb_false_r.
Qed.

(** ** The laws *)

#[export] Instance short_format_laws : Format_laws.
Proof.
  constructor.
  - done.
  - intros [|[|l]]; cbn [block_log2 short_format short_log2]; unfold Page_descriptor.VIRT_SIZE_LOG2, Descriptor.VIRT_SIZE_LOG2; lia.
  - intros d. simpl. by destruct (Page_descriptor.type d).
  - by intros [|l].
Qed.

#[export] Instance short_encoding : Encoding := {
  flags_rights := rights_of_flags;
  checked := false;
  block_desc := block;
  table_desc _ := Page_table_descriptor.create;
  normal d := d;
  blocks_at l := (l <? 2)%nat;
  conflict := Assertion;
  cleared _ d := set 32 Descriptor.Type_0 d 0;
  clears_invalid l := negb (l =? 0)%nat;
  index l vo := Z.shiftr vo (short_log2 l) }.

(** Reading a field after writing it, whatever the register held. *)
Lemma get_set_any g d v : field_ok 32 g → get 32 g (set 32 g d v) = v mod 2 ^ WIDTH g.
Proof.
  intros Hg. pose proof Hg as (?&?&?&?). apply Z.bits_inj'. intros i Hi. rewrite get_bit by done.
  destruct (Z.ltb_spec i (WIDTH g)); [|by rewrite Z.mod_pow2_bits_high by lia].
  rewrite Z.mod_pow2_bits_low by lia. unfold set, clear, clear_mask.
  rewrite Z.lor_spec, shifted_bit by (done || lia). rewrite Z.land_spec, wrap_testbit, Z.lnot_spec, reg_mask_bit by (done || lia).
  rewrite covers_in by lia. cbn [negb andb]. rewrite andb_false_r, andb_false_r. simpl. f_equal. lia.
Qed.

Lemma short_cleared l d : short_kind l (set 32 Descriptor.Type_0 d 0) = INVALID.
Proof.
  assert (get 32 Descriptor.Type_0 (set 32 Descriptor.Type_0 d 0) = 0) as E by (rewrite get_set_any by field_lia; done).
  destruct l as [|l]; cbn [short_kind].
  - unfold Page_descriptor.type. change Page_descriptor.Type_0 with Descriptor.Type_0. by rewrite E.
  - unfold Descriptor.type. by rewrite E.
Qed.

Lemma short_table_desc l pa : short_kind (S l) (Page_table_descriptor.create pa) = TABLE.
Proof.
  cbn [short_kind]. unfold Page_table_descriptor.create, Descriptor.type, Descriptor.set_type.
  by rewrite get_set_any by field_lia.
Qed.

Lemma short_table_address pa : (1024 | pa) → 0 ≤ pa < 2 ^ 32 →
  masked 32 Page_table_descriptor.Pa (Page_table_descriptor.create pa) = pa.
Proof.
  intros Hal Hpa. unfold Page_table_descriptor.create, Descriptor.set_type.
  assert (in_range 32 (masked 32 Page_table_descriptor.Pa pa)) as Hr by (apply (masked_range 32 Page_table_descriptor.Pa pa); [field_lia|lia]).
  apply masked_exact; [field_lia|done|done|]. cbn [SHIFT WIDTH Page_table_descriptor.Pa]. intros i Hi.
  rewrite set_bit, masked_bit by (done || field_lia || lia). unfold covers; cbn [SHIFT WIDTH Page_table_descriptor.Pa Descriptor.Type_0].
  zcases; try lia. done.
Qed.

#[export] Instance short_encoding_laws : Encoding_laws 1 32 1024 (2 ^ 32).
Proof.
  constructor.
  - lia.
  - done.
  - done.
  - intros l f pa _ Hpa. apply short_block, Hpa.
  - intros l f pa Hl Hpa Hal. apply (proj1 (Nat.ltb_lt l 2)) in Hl. apply short_block_address; [done|]. destruct l as [|[|l]]; [done..|lia].
  - intros l f pa _ Hpa. apply short_block, Hpa.
  - intros l pa. apply short_table_desc.
  - intros l pa. apply short_table_address.
  - intros l d. apply short_cleared.
  - done.
  - intros l vo Hl Hvo. cbn [index short_encoding block_log2 short_format]. apply Z.shiftr_div_pow2.
    destruct l as [|[|l]]; [done..|lia].
Qed.

End Blocks.
