(* ===== verification/Short_table_props.v ===== *)
(** * Short_table_props: the short-descriptor page table implements its map

    The loops of [Short_table] run as the range operation of [Page_table] does, on the
    addresses of a 32-bit machine, and so the theorems of [Page_table_spec] hold for the
    code. *)

From S2P Require Import Prelude.
From S2P Require Import Register.
From S2P Require Import Page_table_allocator.
From S2P Require Import Page_table.
From S2P Require Import Page_table_spec.
From S2P Require Import Short_table.
From S2P Require Import Short_table_laws.

Open Scope Z_scope.
Open Scope word_scope.

(** ** The loops of the second level *)

(** An entry of the loop: it ends at the next multiple of the block size. *)
Lemma entry_end l vo size : (l ≤ 1)%nat →
  0 ≤ vo → 0 < size → vo + size ≤ 2 ^ block_log2 (S l) →
  let e := Z.land (vo +64 block_size l) (block_mask l) in
  e = (vo / 2 ^ block_log2 l + 1) * 2 ^ block_log2 l ∧ (e <? vo) = false ∧ e -64 vo = e - vo ∧ vo < e.
Proof.
  intros Hl Hvo Hs Hr. assert (block_log2 (S l) ≤ 62) by (destruct l as [|[|l]]; cbn; unfold Descriptor.VIRT_SIZE_LOG2; lia).
  destruct (first_part l vo size) as (He & Hlt & Hsub & _); [lia..|]. cbv zeta. split_and!; [done| |done|done]. by apply Z.ltb_ge; lia.
Qed.

Section Loops.
Context `{Cpu_param} {P : Type} `{Table_pool P}.

Lemma page_valid d : valid 0 d = Page_descriptor.valid d.
Proof. unfold valid, Page_descriptor.valid. simpl. by destruct (Page_descriptor.type d). Qed.

Lemma short_empty_valid t (s : state P) : Page_table_level_2.empty t s = table_empty (valid 0) t s.
Proof.
  unfold Page_table_level_2.empty, table_empty. destruct (tables s !! t) as [es|]; [|done]. do 2 f_equal.
  induction es as [|d es IH]; [done|]. cbn [forallb]. by rewrite IH, page_valid.
Qed.

Lemma page_index vo : 0 ≤ vo < 2 ^ 20 → Page_table_level_2._index_by_vo vo = Some (index 0 vo).
Proof.
  intros Hvo. unfold Page_table_level_2._index_by_vo. change Page_table_level_2.max_virt_offset with (2 ^ 20 - 1).
  by destruct (Z.ltb_spec (2 ^ 20 - 1) vo); [lia|].
Qed.

(** One turn of the generic loop. *)
Lemma range_turn l fuel vo pa size (g : Z → Z → Z → Z → exc (state P) error unit) s :
  (l ≤ 1)%nat → 0 ≤ vo → 0 < size → vo + size ≤ 2 ^ block_log2 (S l) → 0 ≤ pa → pa + size ≤ 2 ^ 32 →
  let sz := Z.min size ((vo / 2 ^ block_log2 l + 1) * 2 ^ block_log2 l - vo) in
  range_loop (S fuel) false l (index l) vo pa size g s =
  (_ ← g vo pa sz (index l vo); range_loop fuel false l (index l) (vo + sz) (pa + sz) (size - sz) g) s.
Proof.
  intros Hl Hvo Hs Hr Hpa Hpas sz. cbn [range_loop]. destruct (Z.eqb_spec size 0); [lia|].
  destruct (entry_end l vo size Hl Hvo Hs Hr) as (He & Hlt & Hsub & Hve). cbn [andb]. rewrite Hlt, Hsub, He in *. fold sz.
  assert (2 ^ block_log2 (S l) ≤ 2 ^ 32) by (apply Z.pow_le_mono_r; [lia|]; destruct l as [|[|l]]; cbn; unfold Descriptor.VIRT_SIZE_LOG2; lia).
  rewrite (wrap_small 64 (vo + sz)), (wrap_small 64 (pa + sz)), (wrap_small 64 (size - sz)) by word_lia. done.
Qed.

(** The same for pages. *)
Lemma page_turn fuel vo pa size (g : Z → Z → Z → Z → exc (state P) error unit) s :
  (4096 | vo) → 0 ≤ vo → 0 < size → vo + size ≤ 2 ^ 20 → 0 ≤ pa → pa + size ≤ 2 ^ 32 →
  range_loop (S fuel) false 0 (index 0) vo pa size g s =
  (_ ← g vo pa (Z.min size 4096) (index 0 vo);
   range_loop fuel false 0 (index 0) (vo + Z.min size 4096) (pa + Z.min size 4096) (size - Z.min size 4096) g) s.
Proof.
  intros [q ->] Hvo Hs Hr Hpa Hpas. rewrite range_turn by (done || lia). change (2 ^ block_log2 0) with 4096.
  rewrite Z.div_mul by lia. by replace ((q + 1) * 4096 - q * 4096) with 4096 by lia.
Qed.

Lemma loop_done fuel l (ix : Z → Z) vo pa g (s : state P) :
  range_loop fuel false l ix vo pa 0 g s = match fuel with O => (Err Out_of_fuel, s) | _ => (Ok tt, s) end.
Proof. by destruct fuel. Qed.

(** The generic operations on an entry of the last level. *)
Lemma page_insert_func rec fl t vo pa i s :
  (4096 | vo) → (4096 | pa) → is_u64 vo → is_u64 pa →
  insert_func (P := P) 0 rec fl t vo pa 4096 i s =
  (d ← load t i;
   if Page_descriptor.valid d && negb (d =? Small_page.create fl pa) then throw Assertion
   else store t i (Small_page.create fl pa)) s.
Proof.
  intros Hv Hp ??. assert (unaligned 0 vo pa 4096 = false) as Hu.
  { apply unaligned_false; [done..|]. change (2 ^ block_log2 0) with 4096. split_and!; [done..|lia]. }
  unfold insert_func. cbn [blocks_at short_encoding]. rewrite Hu. cbn [Nat.ltb Nat.leb andb negb].
  apply bind_ext; [done|]. intros d s1. by rewrite page_valid.
Qed.

(** A load changes nothing, and its answer is the entry. *)
Lemma load_ext t i {A} (k k' : Z → exc (state P) error A) s :
  (∀ d, load t i s = (Ok d, s) → k d s = k' d s) → (load t i ≫= k) s = (load t i ≫= k') s.
Proof.
  intros Hk. unfold mbind, exc_bind. destruct (load t i s) as [[d|e] s'] eqn:E; [|done].
  assert (s' = s) as -> by (unfold load in E; destruct (_ ≫= _); congruence). by apply Hk.
Qed.

Lemma load_run t i d {A} (k : Z → exc (state P) error A) s : load t i s = (Ok d, s) → (load t i ≫= k) s = k d s.
Proof. intros E. unfold mbind, exc_bind. by rewrite E. Qed.

Lemma page_remove_func rec t vo pa size i s :
  remove_func (P := P) 0 rec t vo pa size i s =
  (d ← load t i;
   match Page_descriptor.type d with
   | Page_descriptor.SMALL_PAGE => store t i (Page_descriptor.invalidate d)
   | Page_descriptor.FAULT => mret tt
   end) s.
Proof.
  unfold remove_func. cbn [kind_of short_format short_kind clears_invalid short_encoding Nat.eqb negb].
  apply load_ext. intros d E. destruct (Page_descriptor.type d); [done|].
  exact (load_run t i d (λ d, store t i (cleared 0 d)) s E).
Qed.

Lemma short_level_2_insert rec fl t fuel vo pa size s :
  page_aligned vo pa size → 0 ≤ vo → 0 ≤ size → vo + size ≤ 2 ^ 20 → 0 ≤ pa → pa + size ≤ 2 ^ 32 →
  Page_table_level_2.insert_loop fuel fl t vo pa size s =
  range_loop fuel false 0 (index 0) vo pa size (insert_func (P := P) 0 rec fl t) s.
Proof.
  revert vo pa size s. induction fuel as [|fuel IH]; intros vo pa size s (Hv & Hp & Hz) H1 H2 H3 H4 H5; [done|].
  cbn [Page_table_level_2.insert_loop]. destruct (Z.eqb_spec size 0) as [->|Hs0]; [done|].
  assert (4096 ≤ size) by (apply Z.divide_pos_le; [lia|done]).
  rewrite page_turn, page_index by (done || lia). rewrite Z.min_r by lia.
  transitivity ((_ ← (d ← load t (index 0 vo);
     if Page_descriptor.valid d && negb (d =? Small_page.create fl pa) then throw Assertion
     else store t (index 0 vo) (Small_page.create fl pa));
    range_loop fuel false 0 (index 0) (vo + 4096) (pa + 4096) (size - 4096) (insert_func (P := P) 0 rec fl t)) s);
    [|apply bind_ext; [symmetry; apply page_insert_func; (done || word_lia)|done]].
  rewrite bind_assoc. apply bind_ext; [done|]. intros d s1.
  destruct (Page_descriptor.valid d && _); [done|]. apply bind_ext; [done|]. intros _ s2.
  change Page_descriptor.VIRT_SIZE with 4096. destruct (Z.ltb_spec size 4096); [lia|].
  rewrite (wrap_small 32 (vo + 4096)), (wrap_small 32 (size - 4096)) by word_lia.
  destruct (decide (size = 4096)) as [->|].
  { change (4096 - 4096) with 0. rewrite loop_done. by destruct fuel. }
  rewrite (wrap_small 32 (pa + 4096)) by word_lia. apply IH; [|lia..].
  split_and!; [by apply Z.divide_add_r; [|exists 1]..|by apply Z.divide_sub_r; [|exists 1]].
Qed.

Lemma short_level_2_remove rec t fuel vo pa size s :
  (4096 | vo) → 0 ≤ vo → 0 ≤ size → vo + size ≤ 2 ^ 20 → 0 ≤ pa → pa + size ≤ 2 ^ 32 →
  Page_table_level_2.remove_loop fuel t vo size s =
  range_loop fuel false 0 (index 0) vo pa size (remove_func (P := P) 0 rec t) s.
Proof.
  revert vo pa size s. induction fuel as [|fuel IH]; intros vo pa size s Hv H1 H2 H3 H4 H5; [done|].
  cbn [Page_table_level_2.remove_loop]. destruct (Z.eqb_spec size 0) as [->|Hs0]; [done|].
  rewrite page_turn, page_index by (done || lia).
  transitivity ((_ ← (d ← load t (index 0 vo);
     match Page_descriptor.type d with
     | Page_descriptor.SMALL_PAGE => store t (index 0 vo) (Page_descriptor.invalidate d)
     | Page_descriptor.FAULT => mret tt
     end);
    range_loop fuel false 0 (index 0) (vo + Z.min size 4096) (pa + Z.min size 4096) (size - Z.min size 4096)
      (remove_func (P := P) 0 rec t)) s); [|apply bind_ext; [symmetry; apply page_remove_func|done]].
  rewrite bind_assoc. apply bind_ext; [done|]. intros d s1. apply bind_ext; [done|]. intros _ s2.
  change Page_descriptor.VIRT_SIZE with 4096. destruct (Z.ltb_spec size 4096).
  { rewrite Z.min_l by lia. rewrite Z.sub_diag, loop_done. by destruct fuel. }
  rewrite Z.min_r by lia. rewrite (wrap_small 32 (vo + 4096)), (wrap_small 32 (size - 4096)) by word_lia.
  apply IH; [by apply Z.divide_add_r; [|exists 1]|lia..].
Qed.

(** ** The loops of the root table *)

Lemma section_base vo : is_u32 vo → masked 32 (Pa Section_descriptor.layout) vo = vo / 2 ^ 20 * 2 ^ 20.
Proof.
  intros Hvo. apply Z.bits_inj'. intros i Hi. rewrite masked_bit by (done || field_lia).
  unfold covers; cbn [SHIFT WIDTH Pa Section_descriptor.layout]. change (20 + 12) with 32.
  destruct (Z.leb_spec 20 i); cbn [andb]; [|by rewrite Z.mul_pow2_bits_low].
  rewrite Z.mul_pow2_bits, Z.div_pow2_bits by lia. replace (i - 20 + 20) with i by lia.
  destruct (Z.ltb_spec i 32); [done|]. symmetry. by apply (in_range_testbit 32).
Qed.

Lemma section_offset_mod vo : is_u32 vo → Translation_table.section_offset vo = vo mod 2 ^ 20.
Proof.
  intros Hvo. unfold Translation_table.section_offset. rewrite section_base by done.
  pose proof (Z.div_mod vo (2 ^ 20)). pose proof (Z.mod_pos_bound vo (2 ^ 20)). rewrite wrap_small; [lia|]. word_lia.
Qed.

(** The end of an entry in 32 bits: the last entry ends at 0. *)
Lemma section_end vo : is_u32 vo →
  let e := (vo / 2 ^ 20 + 1) * 2 ^ 20 in
  let end_ := Z.land (vo +32 Descriptor.VIRT_SIZE) Descriptor.VIRT_BASE_MASK in
  end_ -32 vo = e - vo ∧ (end_ <? vo) = (e =? 2 ^ 32) ∧ vo < e ≤ vo + 2 ^ 20 ∧ e ≤ 2 ^ 32.
Proof.
  intros Hvo e end_. change Descriptor.VIRT_BASE_MASK with (reg_mask 32 (Pa Section_descriptor.layout)) in end_.
  change Descriptor.VIRT_SIZE with (2 ^ 20) in end_. pose proof (Z.div_mod vo (2 ^ 20)). pose proof (Z.mod_pos_bound vo (2 ^ 20)).
  assert (0 ≤ vo / 2 ^ 20 < 2 ^ 12) by (split; [apply Z.div_pos|apply Z.div_lt_upper_bound]; word_lia).
  assert (end_ = if e =? 2 ^ 32 then 0 else e) as ->.
  { unfold end_. change (Z.land ?x (reg_mask ?a ?b)) with (masked a b x). rewrite section_base by (apply wrap_range; lia).
    destruct (Z.eqb_spec e (2 ^ 32)) as [E|E].
    - replace (vo + 2 ^ 20) with (vo mod 2 ^ 20 + 1 * 2 ^ 32) by lia. unfold wrap. rewrite Z.mod_add by lia.
      rewrite (Z.mod_small (vo mod 2 ^ 20)) by lia. by rewrite Z.div_small by lia.
    - rewrite wrap_small by word_lia. unfold e. f_equal. rewrite <- (Z.mul_1_l (2 ^ 20)) at 1. by rewrite Z.div_add by lia. }
  destruct (Z.eqb_spec e (2 ^ 32)) as [E|E]; split_and!; try lia; try (apply Z.ltb_lt; lia); try (apply Z.ltb_ge; lia).
  - unfold wrap. rewrite E. symmetry. apply (Z.mod_unique _ _ (-1)); word_lia.
  - apply wrap_small. word_lia.
Qed.

(** *** Insertion *)

Lemma section_valid l d : valid (S l) d = Descriptor.valid d.
Proof. unfold valid, Descriptor.valid. simpl. by destruct (Descriptor.type d). Qed.

Lemma section_align vo pa size : is_u64 vo → is_u64 pa → 0 ≤ size →
  unaligned 1 vo pa (Z.min size ((vo / 2 ^ 20 + 1) * 2 ^ 20 - vo)) =
  match Descriptor.align vo pa size with Descriptor.SECTION => false | _ => true end.
Proof.
  intros Hv Hp Hs. unfold unaligned, Descriptor.align. rewrite !low_bits by (done || (cbn; unfold Descriptor.VIRT_SIZE_LOG2; lia)).
  change (Descriptor.VIRT_OFFSET_MASK) with (Z.ones 20). rewrite !Z.land_ones by lia. change Descriptor.VIRT_SIZE with (2 ^ 20).
  change (block_size 1) with (2 ^ 20). change (block_log2 1) with 20. pose proof (Z.div_mod vo (2 ^ 20)).
  pose proof (Z.mod_pos_bound vo (2 ^ 20)).
  destruct (Z.eqb_spec (vo mod 2 ^ 20) 0); cbn [negb orb]; [|done]. destruct (pa mod 2 ^ 20 =? 0); cbn [negb orb]; [|done].
  destruct (Z.ltb_spec (Z.min size ((vo / 2 ^ 20 + 1) * 2 ^ 20 - vo)) (2 ^ 20)), (Z.ltb_spec size (2 ^ 20)); try done; lia.
Qed.

(** Storing what is there changes nothing. *)
Lemma store_same t i d (s : state P) : load t i s = (Ok d, s) → store t i d s = (Ok tt, s).
Proof.
  unfold load, store. destruct (tables s !! t) as [es|] eqn:Ht; simpl; [|done].
  destruct (es !! Z.to_nat i) as [d'|] eqn:Hi; [|done]. intros [= ->].
  rewrite bool_decide_true by (by eapply lookup_lt_Some). rewrite list_insert_id, insert_id by done. by destruct s.
Qed.

Lemma short_insert_level_2 fl t vo pa size s :
  page_aligned vo pa size → 0 ≤ vo → 0 ≤ size → vo + size ≤ 2 ^ 20 → 0 ≤ pa → pa + size ≤ 2 ^ 32 →
  Page_table_level_2.insert_translation fl t vo pa size s = insert_translation (P := P) 0 fl t vo pa size s.
Proof. intros. rewrite insert_translation_eq. by apply short_level_2_insert. Qed.

Lemma short_remove_level_2 t vo size s :
  (4096 | vo) → 0 ≤ vo → 0 ≤ size → vo + size ≤ 2 ^ 20 →
  Page_table_level_2.remove_translation t vo size s = remove_translation (P := P) 0 t vo size s.
Proof. intros. rewrite remove_translation_eq. apply short_level_2_remove; lia || done. Qed.

(** The window of an entry of the root table. *)
Lemma section_window vo size : 0 ≤ vo → 0 < size → vo + size ≤ 2 ^ 32 →
  let sz := Z.min size ((vo / 2 ^ 20 + 1) * 2 ^ 20 - vo) in
  is_u32 vo ∧ 0 < sz ≤ size ∧ vo mod 2 ^ 20 + sz ≤ 2 ^ 20 ∧ 0 ≤ vo mod 2 ^ 20.
Proof.
  intros. pose proof (Z.div_mod vo (2 ^ 20)). pose proof (Z.mod_pos_bound vo (2 ^ 20)).
  unfold in_range. split_and!; lia.
Qed.

Lemma page_part vo size : (4096 | vo) → (4096 | (vo / 2 ^ 20 + 1) * 2 ^ 20 - vo) ∧
  (4096 | vo mod 2 ^ 20) ∧ ((4096 | size) → (4096 | Z.min size ((vo / 2 ^ 20 + 1) * 2 ^ 20 - vo))).
Proof.
  intros Hv. assert ((4096 | 2 ^ 20)) as Hb by (by exists 256).
  assert (4096 | (vo / 2 ^ 20 + 1) * 2 ^ 20 - vo) as He by (apply Z.divide_sub_r; [by apply Z.divide_mul_r|done]).
  split_and!; [done| |intros; by apply Z.min_case].
  rewrite Z.mod_eq by lia. apply Z.divide_sub_r; [done|]. by apply Z.divide_mul_l.
Qed.

Section Entry.
Context (f : Page_flags) (t vo pa size end_ i : Z).
Context (Hal : page_aligned vo pa size) (Hvo : 0 ≤ vo) (Hsize : 0 < size) (Hvs : vo + size ≤ 2 ^ 32).
Context (Hpa : 0 ≤ pa) (Hps : pa + size ≤ 2 ^ 32) (Hend : end_ -32 vo = (vo / 2 ^ 20 + 1) * 2 ^ 20 - vo) (Hi : 0 ≤ i < 2 ^ 12).

Let sz := Z.min size ((vo / 2 ^ 20 + 1) * 2 ^ 20 - vo).

Lemma short_descend s :
  (d ← load t i; pt ← virt_of (masked 32 Page_table_descriptor.Pa d);
   Page_table_level_2.insert_translation f pt (Translation_table.section_offset vo) pa sz) s =
  descend (P := P) 1 (insert_translation 0 f) t vo pa sz i s.
Proof.
  destruct (section_window vo size Hvo Hsize Hvs) as (Hu & Hsz & Hoff & Hoff0). fold sz in Hsz, Hoff.
  destruct Hal as (Hv & Hp & Hz). destruct (page_part vo size Hv) as (_ & Hm & Hpart). specialize (Hpart Hz). fold sz in Hpart.
  unfold descend. apply bind_ext; [done|]. intros d s2. apply bind_ext; [done|]. intros pt s3.
  rewrite section_offset_mod by done. rewrite offset_in_entry by ((cbn; unfold Descriptor.VIRT_SIZE_LOG2; lia) || word_lia).
  change (2 ^ block_log2 1) with (2 ^ 20). apply short_insert_level_2; [done|lia..].
Qed.

Lemma short_insert_second_level s :
  Translation_table._insert_second_level t i vo pa sz f s =
  (d ← load t i;
   match kind_of 1 d with
   | BLOCK => throw conflict
   | TABLE => descend (P := P) 1 (insert_translation 0 f) t vo pa sz i
   | INVALID =>
       tc ← construct_table 0;
       pac ← phys_of tc;
       _ ← store t i (table_desc 1 pac);
       descend 1 (insert_translation 0 f) t vo pa sz i
   end) s.
Proof.
  unfold Translation_table._insert_second_level. change Translation_table.MAX_INDEX with (2 ^ 12 - 1).
  destruct (Z.ltb_spec (2 ^ 12 - 1) i); [lia|]. apply bind_ext; [done|]. intros d s1. cbn [kind_of short_format short_kind].
  destruct (Descriptor.type d); [|apply short_descend|done]. apply bind_ext; [done|]. intros pt s2.
  apply bind_ext; [done|]. intros pac s3. apply bind_ext; [done|]. intros _ s4. apply short_descend.
Qed.

Lemma short_insert_entry s :
  Translation_table.insert_entry f t vo pa size end_ i s =
  insert_func (P := P) 1 (insert_translation 0 f) f t vo pa sz i s.
Proof.
  unfold Translation_table.insert_entry, insert_func, sz. rewrite section_align, Hend by word_lia. fold sz.
  change (blocks_at 1) with true. destruct (Descriptor.align vo pa size); cbn [andb negb]; [apply short_insert_second_level..|].
  apply load_ext. intros d E. rewrite section_valid. cbn [normal block_desc conflict short_encoding block].
  destruct (Z.eqb_spec d (Section_descriptor.create f pa)) as [<-|]; cbn [negb].
  - rewrite andb_false_r. by rewrite (store_same t i d s E).
  - rewrite andb_true_r. by destruct (Descriptor.valid d).
Qed.
End Entry.

(** [m'] runs as [m] does from a state where [m] does not end in an error outside of [ge]. *)
Definition fine (ge : error → Prop) {A} (r : result error A) : Prop := match r with Ok _ => True | Err e => ge e end.

Definition follows (ge : error → Prop) {A} (m' m : exc (state P) error A) (s : state P) : Prop :=
  fine ge (m s).1 → m' s = m s.

Lemma follows_bind ge {A B} (m' m : exc (state P) error A) (k' k : A → exc (state P) error B) s :
  follows ge m' m s → (∀ a s1, m s = (Ok a, s1) → follows ge (k' a) (k a) s1) → follows ge (m' ≫= k') (m ≫= k) s.
Proof.
  unfold follows, mbind, exc_bind. intros Hm Hk Hf. destruct (m s) as [[a|e] s1] eqn:E.
  - rewrite Hm by done. by apply Hk.
  - by rewrite Hm.
Qed.

Lemma follows_eq ge {A} (m' m : exc (state P) error A) s : m' s = m s → follows ge m' m s.
Proof. by intros E _. Qed.

(** Running out of fuel apart, a loop over sections in 32 bits follows the generic loop
    when its entries do. *)
Section Sections.
Context (ge : error → Prop) (Hfuel : ¬ ge Out_of_fuel).
Context (Q : Z → Z → Z → Prop) (g : Z → Z → Z → Z → exc (state P) error unit).
Context (loop : nat → Z → Z → Z → exc (state P) error unit) (entry : Z → Z → Z → Z → Z → exc (state P) error unit).
Context (Hloop_O : ∀ vo pa size s, loop 0 vo pa size s = (Err Out_of_fuel, s)).
Context (Hloop_S : ∀ fuel vo pa size s, loop (S fuel) vo pa size s =
  (if size =? 0 then mret tt
   else match Translation_table._index_by_vo vo with
        | None => mret tt
        | Some i =>
            let end_ := Z.land (vo +32 Descriptor.VIRT_SIZE) Descriptor.VIRT_BASE_MASK in
            _ ← entry vo pa size end_ i;
            if end_ <? vo then mret tt
            else let sz := end_ -32 vo in loop fuel (vo +32 sz) (pa +32 sz) (if sz <? size then size -32 sz else 0)
        end) s).
Context (Hstep : ∀ vo pa size, Q vo pa size →
  let e := (vo / 2 ^ 20 + 1) * 2 ^ 20 in e - vo < size → Q e (pa + (e - vo)) (size - (e - vo))).
Context (Hentry : ∀ vo pa size end_ i s,
  Q vo pa size → 0 ≤ vo → 0 < size → vo + size ≤ 2 ^ 32 → 0 ≤ pa → pa + size ≤ 2 ^ 32 →
  end_ -32 vo = (vo / 2 ^ 20 + 1) * 2 ^ 20 - vo → 0 ≤ i < 2 ^ 12 →
  follows ge (entry vo pa size end_ i) (g vo pa (Z.min size ((vo / 2 ^ 20 + 1) * 2 ^ 20 - vo)) i) s).

Lemma section_loop_done fuel vo pa s : loop fuel vo pa 0 s = match fuel with O => (Err Out_of_fuel, s) | _ => (Ok tt, s) end.
Proof. destruct fuel; [apply Hloop_O|by rewrite Hloop_S]. Qed.

Lemma section_index vo : 0 ≤ vo < 2 ^ 32 → Translation_table._index_by_vo vo = Some (index 1 vo) ∧ 0 ≤ index 1 vo < 2 ^ 12.
Proof.
  intros Hvo. unfold Translation_table._index_by_vo. change Translation_table.max_virt_offset with (2 ^ 32 - 1).
  destruct (Z.ltb_spec (2 ^ 32 - 1) vo); [lia|]. split; [done|]. cbn [index short_encoding].
  change (short_log2 1) with 20. rewrite Z.shiftr_div_pow2 by lia. split; [apply Z.div_pos; lia|apply Z.div_lt_upper_bound; lia].
Qed.

Lemma section_loop fuel vo pa size s :
  Q vo pa size → 0 ≤ vo → 0 ≤ size → vo + size ≤ 2 ^ 32 → 0 ≤ pa → pa + size ≤ 2 ^ 32 →
  follows ge (loop fuel vo pa size) (range_loop fuel false 1 (index 1) vo pa size g) s.
Proof.
  revert vo pa size s. induction fuel as [|fuel IH]; intros vo pa size s HQ H1 H2 H3 H4 H5; [apply follows_eq, Hloop_O|].
  destruct (decide (size = 0)) as [->|]; [apply follows_eq; by rewrite section_loop_done|].
  unfold follows. rewrite Hloop_S. destruct (Z.eqb_spec size 0); [done|]. destruct (section_index vo) as [-> Hi]; [lia|].
  destruct (section_end vo) as (Hsub & Hlt & He & He'); [word_lia|]. cbv zeta.
  set (end_ := Z.land (vo +32 Descriptor.VIRT_SIZE) Descriptor.VIRT_BASE_MASK) in *. rewrite Hsub, Hlt.
  rewrite range_turn by (done || lia). change (2 ^ block_log2 1) with (2 ^ 20). cbv zeta.
  set (e := (vo / 2 ^ 20 + 1) * 2 ^ 20) in *. apply follows_bind; [apply Hentry; (done || lia)|]. intros _ s1 _.
  destruct (Z.eqb_spec e (2 ^ 32)) as [E|E].
  { unfold follows. replace (size - Z.min size (e - vo)) with 0 by lia. rewrite loop_done. by destruct fuel. }
  destruct (Z.ltb_spec (e - vo) size).
  - rewrite Z.min_r by lia. rewrite (wrap_small 32 (vo + _)), (wrap_small 32 (pa + _)), (wrap_small 32 (size - _)) by word_lia.
    replace (vo + (e - vo)) with e by lia. apply IH; [by apply Hstep|lia..].
  - rewrite Z.min_l by lia. rewrite Z.sub_diag. apply follows_eq. by rewrite loop_done, section_loop_done.
Qed.
End Sections.

Lemma page_aligned_step vo pa size : page_aligned vo pa size →
  let e := (vo / 2 ^ 20 + 1) * 2 ^ 20 in page_aligned e (pa + (e - vo)) (size - (e - vo)).
Proof.
  intros (Hv & Hp & Hz) e. destruct (page_part vo size Hv) as (He & _).
  split_and!; [|by apply Z.divide_add_r|by apply Z.divide_sub_r]. apply Z.divide_mul_r. by exists 256.
Qed.

Lemma short_insert_loop fuel f t vo pa size s :
  page_aligned vo pa size → 0 ≤ vo → 0 ≤ size → vo + size ≤ 2 ^ 32 → 0 ≤ pa → pa + size ≤ 2 ^ 32 →
  follows (λ e, e ≠ Out_of_fuel) (Translation_table.insert_loop fuel f t vo pa size)
    (range_loop fuel false 1 (index 1) vo pa size (insert_func 1 (insert_translation 0 f) f t)) s.
Proof.
  apply section_loop with (Q := page_aligned) (entry := Translation_table.insert_entry f t)
    (loop := λ fuel, Translation_table.insert_loop fuel f t); [by intros ?|done..| |].
  - intros ? ? ? HQ e _. exact (page_aligned_step _ _ _ HQ).
  - intros ? ? ? ? ? s' ? ? ? ? ? ? ? ?. apply follows_eq. by apply short_insert_entry.
Qed.

(** *** Removal *)

(** An entry and the pool are changed independently of each other. *)
Lemma destruct_then_invalidate tc t i s s' :
  (_ ← destruct_table tc; invalidate 1 t i) s = (Ok tt, s') →
  (d ← load t i; _ ← store t i (Descriptor.invalidate d); destruct_table tc) s = (Ok tt, s').
Proof.
  unfold invalidate, destruct_table, load, store, mbind, exc_bind. destruct s as [m p]. cbn [pool tables].
  destruct (pool_destruct tc p) as [[u'|e] p'] eqn:Hd; [|done]. cbn [pool tables].
  destruct (m !! t) as [es|] eqn:Ht; [|done]. cbn [mbind option_bind]. destruct (es !! Z.to_nat i) as [d|]; [|done]. cbn [pool tables].
  rewrite Ht. destruct (bool_decide _); [|done]. cbn [pool tables]. intros [= <-]. by rewrite Hd.
Qed.

Lemma short_remove_entry t vo pa size end_ i s :
  (4096 | vo) → 0 ≤ vo → 0 < size → vo + size ≤ 2 ^ 32 → end_ -32 vo = (vo / 2 ^ 20 + 1) * 2 ^ 20 - vo →
  follows (λ _, False) (Translation_table.remove_entry t vo size end_ i)
    (remove_func (P := P) 1 (remove_translation 0) t vo pa (Z.min size ((vo / 2 ^ 20 + 1) * 2 ^ 20 - vo)) i) s.
Proof.
  intros Hv H1 H2 H3 Hend. destruct (section_window vo size H1 H2 H3) as (Hu & Hsz & Hoff & Hoff0).
  destruct (page_part vo size Hv) as (_ & Hm & _).
  unfold follows, Translation_table.remove_entry, remove_func. rewrite Hend. set (sz := Z.min size _) in *.
  intros Hf. apply load_ext. intros d E. rewrite (load_run _ _ _ _ _ E) in Hf.
  cbn [kind_of short_format short_kind clears_invalid short_encoding Nat.eqb negb] in *.
  assert (store t i (Descriptor.invalidate d) s = invalidate 1 t i s) as Hinv
    by (symmetry; exact (load_run t i d (λ d, store t i (cleared 1 d)) s E)).
  destruct (Descriptor.type d); [done| |done]. revert Hf. apply follows_bind; [done|]. intros pt s1 _.
  apply follows_bind; [apply follows_eq|intros _ s2 _].
  { rewrite section_offset_mod by done. rewrite offset_in_entry by ((cbn; unfold Descriptor.VIRT_SIZE_LOG2; lia) || word_lia).
    change (2 ^ block_log2 1) with (2 ^ 20). apply short_remove_level_2; [done|lia..]. }
  apply follows_bind; [apply follows_eq, short_empty_valid|]. intros [] s3 _; [|done].
  intros Hf. destruct ((_ ← destruct_table pt; invalidate 1 t i) s3) as [[[]|e] s4] eqn:Ed; [|done].
  by apply destruct_then_invalidate.
Qed.

Lemma short_remove_loop fuel t vo size s :
  (4096 | vo) → 0 ≤ vo → 0 ≤ size → vo + size ≤ 2 ^ 32 →
  follows (λ _, False) (Translation_table.remove_loop fuel t vo size)
    (range_loop fuel false 1 (index 1) vo 0 size (remove_func (P := P) 1 (remove_translation 0) t)) s.
Proof.
  intros Hv H1 H2 H3.
  apply (section_loop (λ _, False)) with (Q := λ vo _ _, (4096 | vo)) (entry := λ vo _ size end_ i, Translation_table.remove_entry t vo size end_ i)
    (loop := λ fuel vo _ size, Translation_table.remove_loop fuel t vo size); try done; [by intros ?| | |lia].
  - intros ? ? ? _ e _. apply Z.divide_mul_r. by exists 256.
  - intros. by apply short_remove_entry.
Qed.

End Loops.

(** ** The page table implements the map from addresses to translations *)

(** C15: inserting into the two-level table ends in an assertion without any effect when the
    address is not page aligned or the size smaller than a page, whatever the other
    arguments are; else, for a range of whole pages of both address spaces, it keeps the
    table and the pool well formed, makes the hardware translate every address of the range
    to the address at the same distance from [pa] with the requested rights, also up to the
    end of the address space, changes no other address, and on a failure leaves every address
    with its old or its new translation. *)
Theorem short_insert_translation `{Cpu_param} `{PL : Pool_laws 1024 (2 ^ 32) P} (root : Z) (s : state P) (f : Page_flags)
    (vo pa size : Z) :
  well_formed root (top := 1) s → 0 ≤ vo → 0 ≤ size →
  let (r, s') := Translation_table.insert_translation f root vo pa size s in
  if (vo mod 4096 =? 0) && (4096 <=? size)
  then vo + size ≤ 2 ^ 32 → 0 ≤ pa → pa + size ≤ 2 ^ 32 → (4096 | pa) → (4096 | size) →
    well_formed root (top := 1) s' ∧
    ∀ v, 0 ≤ v < 2 ^ 32 →
      inserted (rights_of_flags f) r vo pa size v (translate root (top := 1) s v) (translate root (top := 1) s' v)
  else r = Err Assertion ∧ s' = s.
Proof.
  intros Hs H1 H2. unfold Translation_table.insert_translation.
  change Page_descriptor.VIRT_OFFSET_MASK with (Z.ones 12). change Page_descriptor.VIRT_SIZE with 4096. rewrite Z.land_ones by lia.
  change (2 ^ 12) with 4096. destruct (Z.eqb_spec (vo mod 4096) 0) as [Hv|]; [|done]. destruct (Z.leb_spec 4096 size) as [Hle|]; [|done]. cbn [andb].
  apply Z.mod_divide in Hv; [|done]. destruct (Translation_table.insert_loop _ _ _ _ _ _ s) as [r0 s0] eqn:Er.
  intros H3 H4 H5 Hpa Hsz.
  pose proof (spec_whole root (λ r, inserted (rights_of_flags f) r vo pa size) _ s
    (insert_spec (PA_BITS := 32) root f 1 root _ pa size (le_n 1) H1 H2 H3 H4 H5) Hs) as Hg.
  rewrite insert_translation_eq in Hg.
  pose proof (short_insert_loop (loop_fuel Descriptor.VIRT_SIZE_LOG2 size) f root vo pa size s ltac:(done) H1 H2 H3 H4 H5) as Hf.
  unfold follows in Hf. change (loop_fuel Descriptor.VIRT_SIZE_LOG2 size) with (range_fuel 1 size) in *. change (@checked _ short_encoding) with false in Hg.
  destruct (range_loop _ _ _ _ _ _ _ _ s) as [r s']. rewrite Hf in Er; [injection Er as <- <-; exact Hg|]. destruct Hg as [_ Hg].
  destruct (Hg 0 ltac:(done)) as [_ Hr]. destruct r as [u|e]; [done|]. destruct Hr as [[->|[->|[-> _]]] _]; done.
Qed.

(** C16: removing a range that begins at a page and ends before the end of the address space
    never fails, keeps the table and the pool well formed, unmaps every block that overlaps the
    range, and leaves every other translation as it was; a range that reaches the end of the
    address space ends in an assertion. *)
Theorem short_remove_translation `{Cpu_param} `{PL : Pool_laws 1024 (2 ^ 32) P} (root : Z) (s : state P) (vo size : Z) :
  well_formed root (top := 1) s → 0 ≤ vo → (4096 | vo) → 0 ≤ size < 2 ^ 32 → vo + size ≤ 2 ^ 32 →
  let (r, s') := Translation_table.remove_translation root vo size s in
  if vo + size <? 2 ^ 32
  then well_formed root (top := 1) s' ∧ r = Ok tt ∧
    ∀ v, 0 ≤ v < 2 ^ 32 → translate root (top := 1) s' v = cut vo size v (translate root (top := 1) s v)
  else r = Err Assertion ∧ s' = s.
Proof.
  intros Hs H1 Hv [H2 H2'] H3. unfold Translation_table.remove_translation. destruct (Z.ltb_spec (vo + size) (2 ^ 32)).
  - rewrite wrap_small by word_lia. destruct (Z.leb_spec vo (vo + size)); [|lia].
    pose proof (spec_whole root _ _ s (remove_spec (PA_BITS := 32) root 1 root _ size (le_n 1) H1 H2 H3) Hs) as Hg.
    rewrite remove_translation_eq in Hg.
    pose proof (short_remove_loop (loop_fuel Descriptor.VIRT_SIZE_LOG2 size) root vo size s Hv H1 H2 H3) as Hf.
    unfold follows in Hf. change (loop_fuel Descriptor.VIRT_SIZE_LOG2 size) with (range_fuel 1 size) in *. change (@checked _ short_encoding) with false in Hg.
    destruct (range_loop _ _ _ _ _ _ _ _ s) as [r s']. destruct Hg as [Hs' Hg]. destruct (Hg 0 ltac:(done)) as [-> _].
    rewrite Hf by done. split_and!; [done..|]. intros v Hv'. by apply Hg.
  - replace (vo +32 size) with 0; [|unfold wrap; by replace (vo + size) with (1 * 2 ^ 32) by lia].
    by destruct (Z.leb_spec vo 0); [lia|].
Qed.

Lemma lookup_entry `{Cpu_param} {P} `{Table_pool P} l (s : state P) virt' t D v : tree l (tables s) virt' t D → 0 ≤ v < 2 ^ block_log2 (S l) →
  (l ≤ 1)%nat → ∃ d, load t (index l v) s = (Ok d, s) ∧
  walk l (tables s) virt' t v = entry_walk l (sub_walk l (tables s) virt') virt' d (v mod 2 ^ block_log2 l).
Proof.
  intros (es & C & Hn)%tree_unfold Hv Hl. pose proof Hn as [He Hlen _ _ _ _ _].
  assert (index l v = v / 2 ^ block_log2 l) as Ei by (apply index_spec; done).
  destruct (max_entries_value l) as [Hm _]. pose proof (block_bounds l) as [HB _].
  assert (0 ≤ v / 2 ^ block_log2 l < max_entries l) by (split; [apply Z.div_pos; lia|apply Z.div_lt_upper_bound; lia]).
  destruct (lookup_lt_is_Some_2 es (idx l v)) as [d Hd]; [unfold idx; lia|]. exists d. split.
  - unfold load. rewrite He. cbn [mbind option_bind]. rewrite Ei. unfold idx in Hd. by rewrite Hd.
  - rewrite walk_unfold, He. cbn [mbind option_bind]. by rewrite Hd.
Qed.

(** The lookup answers for any address whether the hardware translates it and lets it be
    written, and returns the address of the block that maps it; it changes nothing. *)
Theorem short_lookup_rw_translation `{Cpu_param} `{PL : Pool_laws 1024 (2 ^ 32) P} (root : Z) (s : state P) (virt phys : Z) :
  well_formed root (top := 1) s → 0 ≤ virt < 2 ^ 32 →
  Translation_table.lookup_rw_translation root virt phys s =
    (Ok (match translate root (top := 1) s virt with
         | Some (p, r, k) => (r_write r, p - virt mod 2 ^ short_log2 k)
         | None => (false, phys)
         end), s).
Proof.
  intros [_ (D & Ht & _)] Hv. unfold Translation_table.lookup_rw_translation, translate. destruct (section_index virt Hv) as [-> _].
  destruct (lookup_entry 1 s _ root D virt Ht Hv (le_n 1)) as (d & Hd & ->). rewrite (load_run _ _ _ _ _ Hd). unfold entry_walk.
  cbn [kind_of short_format short_kind]. destruct (Descriptor.type d) eqn:Et; [done| |].
  - unfold virt_of, mbind, exc_bind. rewrite section_offset_mod by word_lia. change (2 ^ block_log2 1) with (2 ^ 20).
    pose proof (Z.mod_pos_bound virt (2 ^ 20) ltac:(lia)) as Hm. unfold Page_table_level_2.lookup_rw_translation. rewrite page_index by done.
    apply tree_unfold in Ht as (es & C & [He _ Hch _ _ _ _]).
    assert (es !! Z.to_nat (index 1 virt) = Some d) as Hi.
    { unfold load in Hd. rewrite He in Hd. cbn [mbind option_bind] in Hd. destruct (es !! _); congruence. }
    specialize (Hch _ _ Hi). cbn [kind_of short_format short_kind] in Hch. rewrite Et in Hch.
    destruct (lookup_entry 0 s _ _ _ (virt mod 2 ^ 20) Hch) as (d0 & Hd0 & Hw); [done|lia|]. cbn [sub_walk].
    rewrite Hw, (load_run _ _ _ _ _ Hd0). unfold entry_walk. cbn [kind_of short_format short_kind].
    destruct (Page_descriptor.type d0); [done|].
    cbn [block_pa block_rights block_log2 short_format layout_of short_log2 short_rights r_write].
    change (2 ^ Page_descriptor.VIRT_SIZE_LOG2) with (2 ^ 12). rewrite <- Znumtheory.Zmod_div_mod; [|done..|by exists (2 ^ 8)].
    by rewrite Z.add_simpl_r.
  - cbn [block_pa block_rights block_log2 short_format layout_of short_log2 short_rights r_write]. by rewrite Z.add_simpl_r.
Qed.

(** ** A concrete machine *)

(** A root table at 0x100000 and a pool of four tables of 1 KiB at 0x200000. *)
#[local] Instance demo_cpu : Cpu_param := Cortex_a9.

Lemma short_pool_ok : array_ok 1024 4 1024 (2 ^ 32) demo_pool.
Proof. destruct demo_pool_ok. constructor; try done; vm_compute; try (split; discriminate). by exists 512. Qed.

Definition short_pool_laws : Pool_laws 1024 (2 ^ 32) Page_table_allocator.t (H := array_pool 1024) :=
  array_pool_laws 1024 4 1024 (2 ^ 32) ltac:(split; [lia|by exists 1]) ltac:(lia) ltac:(lia).

Definition short_state : state Page_table_allocator.t := demo_state 4096.

Lemma short_well_formed : well_formed (H := array_pool 1024) (PL := short_pool_laws) demo_root (top := 1) short_state.
Proof.
  refine (proj1 (well_formed_empty (PL := short_pool_laws) (top := 1) demo_root _ (Z.to_nat (max_entries 1)) _ _ _ _)).
  - split; [exact short_pool_ok|]. simpl. intros Hin%elem_of_list_to_set. revert Hin. vm_compute. set_solver.
  - reflexivity.
  - simpl. by rewrite lookup_singleton_eq.
  - done.
Qed.

Definition demo_flags : Page_flags := Flags true false false false RAM CACHED.

(** A section and a page behind it. *)
Definition demo_mapped : result error unit * state Page_table_allocator.t :=
  Translation_table.insert_translation (H0 := array_pool 1024) demo_flags demo_root 0xffe00000 0x80000000 0x101000 short_state.

Lemma short_insert_translation_witness :
  (∃ k, translate demo_root (H := array_pool 1024) (top := 1) demo_mapped.2 0xfff00abc = Some (0x80100abc, rights_of_flags demo_flags, k)) ∧
  (Translation_table.insert_translation (H0 := array_pool 1024) demo_flags demo_root 0x1000 0x123 0x456 short_state).1 = Err Assertion.
Proof.
  split.
  - pose proof (short_insert_translation (PL := short_pool_laws) demo_root short_state demo_flags 0xffe00000 0x80000000 0x101000
      short_well_formed ltac:(lia) ltac:(lia)) as H.
    fold demo_mapped in H. assert (demo_mapped.1 = Ok tt) as Hok by (vm_compute; reflexivity).
    destruct demo_mapped as [r s']. cbn [fst snd] in *. rewrite Hok in H.
    change ((0xffe00000 mod 4096 =? 0) && (4096 <=? 0x101000)) with true in H.
    destruct (H ltac:(lia) ltac:(lia) ltac:(lia) ltac:(by exists 0x80000) ltac:(by exists 0x101)) as [_ Hv].
    destruct (Hv 0xfff00abc ltac:(lia)) as [_ H']. destruct (H' ltac:(lia)) as [k Hk]. by exists k.
  - pose proof (short_insert_translation (PL := short_pool_laws) demo_root short_state demo_flags 0x1000 0x123 0x456
      short_well_formed ltac:(lia) ltac:(lia)) as H.
    destruct (Translation_table.insert_translation _ _ _ _ _ _) as [r s']. apply H.
Defined.

Lemma short_remove_translation_witness :
  (Translation_table.remove_translation (H0 := array_pool 1024) demo_root 0x1000 0x2000 short_state).1 = Ok tt.
Proof.
  pose proof (short_remove_translation (PL := short_pool_laws) demo_root short_state 0x1000 0x2000
    short_well_formed ltac:(lia) ltac:(by exists 1) ltac:(lia) ltac:(lia)) as H.
  destruct (Translation_table.remove_translation _ _ _ _) as [r s']. apply H.
Defined.

Lemma short_lookup_rw_translation_witness :
  (Translation_table.lookup_rw_translation (H0 := array_pool 1024) demo_root 0x2345 7 short_state).1 = Ok (false, 7).
Proof.
  rewrite (short_lookup_rw_translation (PL := short_pool_laws) demo_root short_state 0x2345 7 short_well_formed ltac:(lia)).
  vm_compute. reflexivity.
Defined.

(** ** Where the code does less than it says *)

(** A range that begins within a page: the last page it overlaps stays mapped. *)
Lemma short_remove_unaligned :
  let mapped := (Translation_table.insert_translation (H0 := array_pool 1024) demo_flags demo_root 0 0x80000000 0x2000 short_state).2 in
  let removed := (Translation_table.remove_translation (H0 := array_pool 1024) demo_root 0x800 0x1000 mapped).2 in
  translate demo_root (H := array_pool 1024) (top := 1) removed 0x800 = None ∧
  is_Some (translate demo_root (H := array_pool 1024) (top := 1) removed 0x1000).
Proof. split; [vm_compute; reflexivity|eexists; vm_compute; reflexivity]. Qed.

(** The last page of the address space can be mapped but not be removed. *)
Lemma short_remove_last_page :
  let mapped := (Translation_table.insert_translation (H0 := array_pool 1024) demo_flags demo_root 0xfffff000 0x80000000 0x1000 short_state) in
  mapped.1 = Ok tt ∧
  (Translation_table.remove_translation (H0 := array_pool 1024) demo_root 0xfffff000 0x1000 mapped.2).1 = Err Assertion.
Proof. vm_compute. auto. Qed.
