(* ===== verification/Chunk.v ===== *)
(** * Chunk: the sparse byte store of the RAM file system

    Model of [src/repos/os/include/ram_fs/chunk.h]: [Chunk] is a block of bytes and
    [Chunk_index] a table of chunks that are allocated when they are written to
    first.  The C++ templates nest to any depth; here the class [Chunk_entry] is what
    an index needs of its entries, and both [Chunk] and [Chunk_index] are instances of
    it.  [Chunk_laws] states what a chunk promises; an index keeps the promise if its
    entries do.

    An offset ([Seek]) is an absolute byte position, a [size_t].  The bytes a caller
    hands over or gets back are lists. *)

From S2P Require Import Prelude.

Open Scope Z_scope.
Open Scope word_scope.

(** [Allocator::Alloc_error] of [src/repos/base/include/base/allocator.h]. *)
Inductive Alloc_error := OUT_OF_RAM | OUT_OF_CAPS | DENIED.

(** The exceptions; [Out_of_memory] is another name for [Out_of_ram], and the last two
    stand for an access outside of an array and for more loop iterations than the model
    provides. *)
Inductive error := Index_out_of_range | Out_of_memory | Out_of_caps | Denied | Wild_access | Out_of_fuel.

(** [Allocator::throw_alloc_error]: the exception for an error of the allocator. *)
Definition throw_alloc_error (e : Alloc_error) : error :=
  match e with
  | OUT_OF_RAM => Out_of_memory
  | OUT_OF_CAPS => Out_of_caps
  | DENIED => Denied
  end.

(** The exceptions an allocation ends with. *)
Definition alloc_failure (er : error) : Prop := ∃ e, er = throw_alloc_error e.

(** The allocator of the chunks: the code only relies on its interface, which is the
    result of [try_alloc]. *)
Class Allocator (A : Type) := {
  alloc : A → result Alloc_error A;
  free : A → A }.

(** [Allocator::alloc], as [operator new] with an allocator calls it. *)
Definition alloc_throw {A} `{Allocator A} (a : A) : result error A :=
  match alloc a with
  | Ok a => Ok a
  | Err e => Err (throw_alloc_error e)
  end.

(** ** [Chunk_base] *)

(** The base offset that marks zero chunks. *)
Definition ZERO_BASE : Z := ~64 0.

Definition is_zero (base_offset : Z) : bool := base_offset =? ZERO_BASE.

Definition assert_valid_range (base_offset start len chunk_size : Z) : result error unit :=
  if is_zero base_offset then Ok tt
  else if start <? base_offset then Err Index_out_of_range
  else if base_offset +64 chunk_size <? start +64 len then Err Index_out_of_range
  else Ok tt.

(** ** What an index needs of its entries *)

Class Chunk_entry (A E : Type) := {
  SIZE : Z;
  construct : Z → E;
  zero_chunk : E;
  base_offset : E → Z;
  empty : E → bool;
  used_size : E → Z;
  write : list Z → Z → exc (E * A) error unit;
  read : Z → Z → E → result error (list Z);
  truncate : Z → exc (E * A) error unit;
  destruct_entry : E → A → A }.

Definition zero {A E} `{Chunk_entry A E} (e : E) : bool := is_zero (base_offset e).

(** Lifting a check into a stateful function. *)
Definition check {S E A} (r : result E A) : exc S E A := fun s => (r, s).

(** ** [Chunk] *)

Module Chunk.

Record t := Mk { _base_offset : Z; _num_entries : Z; _data : list Z }.

Section Operations.
Context {A : Type} (CHUNK_SIZE : Z).

Definition new (base_offset : Z) : t := Mk base_offset 0 (replicate (Z.to_nat CHUNK_SIZE) 0).

Definition new_zero : t := new ZERO_BASE.

Definition get_used_size (c : t) : Z := _num_entries c.

(** [memcpy] into and out of the data, with the bounds of the array. *)
Definition copy_in (local_offset : Z) (src : list Z) (data : list Z) : result error (list Z) :=
  if local_offset + Z.of_nat (length src) <=? CHUNK_SIZE
  then Ok (list_inserts (Z.to_nat local_offset) src data) else Err Wild_access.

Definition copy_out (local_offset len : Z) (data : list Z) : result error (list Z) :=
  if local_offset + len <=? CHUNK_SIZE
  then Ok (take (Z.to_nat len) (drop (Z.to_nat local_offset) data)) else Err Wild_access.

Definition write_bytes (src : list Z) (at_ : Z) : exc (t * A) error unit :=
  '(c, a) ← get_state;
  _ ← check (assert_valid_range (_base_offset c) at_ (Z.of_nat (length src)) CHUNK_SIZE);
  let local_offset := at_ -64 _base_offset c in
  data ← check (copy_in local_offset src (_data c));
  put_state (Mk (_base_offset c)
    (Z.max (_num_entries c) (local_offset +64 Z.of_nat (length src))) data, a).

Definition read_bytes (len at_ : Z) (c : t) : result error (list Z) :=
  _ ← assert_valid_range (_base_offset c) at_ len CHUNK_SIZE;
  copy_out (at_ -64 _base_offset c) len (_data c).

Definition truncate_bytes (at_ : Z) : exc (t * A) error unit :=
  '(c, a) ← get_state;
  _ ← check (assert_valid_range (_base_offset c) at_ 0 CHUNK_SIZE);
  let local_offset := at_ -64 _base_offset c in
  if _num_entries c <=? local_offset then mret tt
  else
    data ← check (copy_in local_offset (replicate (Z.to_nat (_num_entries c -64 local_offset)) 0) (_data c));
    put_state (Mk (_base_offset c) local_offset data, a).

Definition chunk_entry : Chunk_entry A t := {|
  SIZE := CHUNK_SIZE;
  construct := new;
  zero_chunk := new_zero;
  base_offset := _base_offset;
  empty c := _num_entries c =? 0;
  used_size := get_used_size;
  write := write_bytes;
  read := read_bytes;
  truncate := truncate_bytes;
  destruct_entry _ a := a  |}.

End Operations.
End Chunk.

(** ** [Chunk_index] *)

Module Chunk_index.

Record t (E : Type) := Mk { _base_offset : Z; _num_entries : Z; _entries : list (option E) }.
Arguments Mk {E} _ _ _.
Arguments _base_offset {E} _.
Arguments _num_entries {E} _.
Arguments _entries {E} _.

Section Operations.
Context {A E : Type} `{Allocator A} `{Chunk_entry A E} (NUM_ENTRIES : Z).

Definition ENTRY_SIZE : Z := SIZE (E := E).
Definition INDEX_SIZE : Z := ENTRY_SIZE * NUM_ENTRIES.

Definition new (base_offset : Z) : t E := Mk base_offset 0 (replicate (Z.to_nat NUM_ENTRIES) None).

Definition new_zero : t E := new ZERO_BASE.

Definition set_entry (index : Z) (e : option E) (c : t E) : t E :=
  Mk (_base_offset c) (_num_entries c) (<[Z.to_nat index := e]> (_entries c)).

Definition get_entry (index : Z) (c : t E) : option E := mjoin (_entries c !! Z.to_nat index).

Definition _entry_for_writing (index : Z) : exc (t E * A) error E :=
  if NUM_ENTRIES <=? index then throw Index_out_of_range
  else
    '(c, a) ← get_state;
    match get_entry index c with
    | Some e => mret e
    | None =>
        let entry_offset := _base_offset c +64 index *64 ENTRY_SIZE in
        match alloc_throw a with
        | Err e => throw e
        | Ok a =>
            let e := construct entry_offset in
            let c := set_entry index (Some e) c in
            _ ← put_state (Mk (_base_offset c) (Z.max (_num_entries c) (index + 1)) (_entries c), a);
            mret e
        end
    end.

Definition _entry_for_reading (index : Z) (c : t E) : result error E :=
  if NUM_ENTRIES <=? index then Err Index_out_of_range
  else match get_entry index c with Some e => Ok e | None => Ok zero_chunk end.

Definition _index_by_offset (offset : Z) (c : t E) : Z := u32 ((offset -64 _base_offset c) / ENTRY_SIZE).

(** The number of bytes an iteration of [_range_op] works on. *)
Definition curr_len (len at_ index : Z) (c : t E) : Z :=
  let local_seek_offset := at_ -64 _base_offset c -64 index *64 ENTRY_SIZE in
  let capacity := ENTRY_SIZE -64 local_seek_offset in
  Z.min len capacity.

(** The operation on an entry in place. *)
Definition on_entry (index : Z) (e : E) (m : exc (E * A) error unit) : exc (t E * A) error unit := fun s =>
  let '(r, (e, a)) := m (e, s.2) in (r, (set_entry index (Some e) s.1, a)).

(** [_range_op] with [Write_func], and with [Read_func]. *)
Fixpoint write_loop (fuel : nat) (src : list Z) (at_ : Z) : exc (t E * A) error unit :=
  match fuel with
  | O => throw Out_of_fuel
  | S fuel =>
      if Z.of_nat (length src) =? 0 then mret tt
      else
        '(c, _) ← get_state;
        let index := _index_by_offset at_ c in
        e ← _entry_for_writing index;
        let n := curr_len (Z.of_nat (length src)) at_ index c in
        _ ← on_entry index e (write (take (Z.to_nat n) src) at_);
        write_loop fuel (drop (Z.to_nat n) src) (at_ +64 n)
  end.

Fixpoint read_loop (fuel : nat) (len at_ : Z) (c : t E) : result error (list Z) :=
  match fuel with
  | O => Err Out_of_fuel
  | S fuel =>
      if len =? 0 then Ok []
      else
        let index := _index_by_offset at_ c in
        e ← _entry_for_reading index c;
        let n := curr_len len at_ index c in
        data ← (if zero (A := A) e then Ok (replicate (Z.to_nat n) 0) else read n at_ e);
        rest ← read_loop fuel (len -64 n) (at_ +64 n) c;
        Ok (data ++ rest)
  end.

Definition write_bytes (src : list Z) (at_ : Z) : exc (t E * A) error unit :=
  '(c, _) ← get_state;
  _ ← check (assert_valid_range (_base_offset c) at_ (Z.of_nat (length src)) INDEX_SIZE);
  write_loop (S (length src)) src at_.

Definition read_bytes (len at_ : Z) (c : t E) : result error (list Z) :=
  _ ← assert_valid_range (_base_offset c) at_ len INDEX_SIZE;
  read_loop (S (Z.to_nat len)) len at_ c.

Definition _destroy_entry (i : Z) (s : t E * A) : t E * A :=
  match get_entry i s.1 with
  | Some e =>
      if i <? _num_entries s.1 then (set_entry i None s.1, free (destruct_entry e s.2)) else s
  | None => s
  end.

(** [~Chunk_index] *)
Definition destruct_index (c : t E) (a : A) : A :=
  (fold_left (fun s i => _destroy_entry i s) (seqZ 0 NUM_ENTRIES) (c, a)).2.

Definition get_used_size (c : t E) : Z :=
  if _num_entries c =? 0 then 0
  else
    let size_whole_entries := ENTRY_SIZE *64 (_num_entries c -64 1) in
    match get_entry (_num_entries c -64 1) c with
    | None => size_whole_entries
    | Some last_entry => size_whole_entries +64 used_size last_entry
    end.

Definition set_num (n : Z) (s : t E * A) : t E * A :=
  (Mk (_base_offset s.1) n (_entries s.1), s.2).

Definition truncate_bytes (at_ : Z) : exc (t E * A) error unit :=
  '(c, a) ← get_state;
  let trunc_index := _index_by_offset at_ c in
  if _num_entries c <=? trunc_index then mret tt
  else
    _ ← modify (fun s =>
          fold_left (fun s i => _destroy_entry i s)
            (seqZ (trunc_index + 1) (_num_entries c - (trunc_index + 1))) s);
    '(c, _) ← get_state;
    _ ← match get_entry trunc_index c with
        | Some e => on_entry trunc_index e (truncate at_)
        | None => mret tt
        end;
    _ ← modify (set_num (trunc_index + 1));
    '(c, _) ← get_state;
    match get_entry trunc_index c with
    | Some e =>
        if empty e then
          _ ← modify (_destroy_entry trunc_index);
          modify (set_num trunc_index)
        else mret tt
    | None => mret tt
    end.

Definition index_entry : Chunk_entry A (t E) := {|
  SIZE := INDEX_SIZE;
  construct := new;
  zero_chunk := new_zero;
  base_offset := _base_offset;
  empty c := _num_entries c =? 0;
  used_size := get_used_size;
  write := write_bytes;
  read := read_bytes;
  truncate := truncate_bytes;
  destruct_entry := destruct_index  |}.

End Operations.
End Chunk_index.

(** ** What a chunk promises

    [get e i] is the byte at offset [i] of the chunk, relative to its base. *)

(** The byte at [i] after [src] was written at [off] over [g]. *)
Definition overlay (off : Z) (src : list Z) (g : Z → Z) (i : Z) : Z :=
  if (off <=? i) && (i <? off + Z.of_nat (length src)) then default 0 (src !! Z.to_nat (i - off)) else g i.

(** The bytes from [off] on. *)
Definition bytes (g : Z → Z) (off len : Z) : list Z := (λ k, g (off + k)) <$> seqZ 0 len.

(** The range lies within a chunk of [size] bytes at [base]. *)
Definition inside (base size at_ len : Z) : Prop := base ≤ at_ ∧ 0 ≤ len ∧ at_ + len ≤ base + size.

Class Chunk_laws (A E : Type) `{Allocator A} `{Chunk_entry A E} := {
  ok : E → Prop;
  get : E → Z → Z;
  size_pos : 0 < SIZE (E := E) ≤ 2 ^ 62;
  ok_base e : ok e → 0 ≤ base_offset e ∧ base_offset e + SIZE (E := E) < 2 ^ 64;
  construct_law b : 0 ≤ b → b + SIZE (E := E) < 2 ^ 64 →
    ok (construct b) ∧ base_offset (construct b) = b ∧ used_size (construct b) = 0 ∧
    ∀ i, get (construct b) i = 0;
  zero_law : zero (zero_chunk : E) = true;
  used_law e : ok e → 0 ≤ used_size e ≤ SIZE (E := E) ∧ ∀ i, used_size e ≤ i → get e i = 0;
  empty_law e : ok e → empty e = true → used_size e = 0;
  read_law e at_ len : ok e → inside (base_offset e) (SIZE (E := E)) at_ len →
    read len at_ e = Ok (bytes (get e) (at_ - base_offset e) len);
  write_law e a src at_ : ok e → inside (base_offset e) (SIZE (E := E)) at_ (Z.of_nat (length src)) →
    let '(r, (e', a')) := write src at_ (e, a) in
    ok e' ∧ base_offset e' = base_offset e ∧
    match r with
    | Ok _ => (∀ i, 0 ≤ i → get e' i = overlay (at_ - base_offset e) src (get e) i) ∧
        used_size e' ≤ Z.max (used_size e) (at_ - base_offset e + Z.of_nat (length src)) ∧
        (src ≠ [] → used_size e' = Z.max (used_size e) (at_ - base_offset e + Z.of_nat (length src)))
    | Err er => alloc_failure er ∧
        ∀ i, 0 ≤ i → get e' i = get e i ∨ get e' i = overlay (at_ - base_offset e) src (get e) i
    end;
  truncate_law e a at_ : ok e → base_offset e ≤ at_ < base_offset e + SIZE (E := E) →
    ∃ e' a', truncate at_ (e, a) = (Ok tt, (e', a')) ∧ ok e' ∧ base_offset e' = base_offset e ∧
      (∀ i, 0 ≤ i → get e' i = if i <? at_ - base_offset e then get e i else 0) ∧
      used_size e' ≤ used_size e ∧ used_size e' ≤ at_ - base_offset e }.

Lemma valid_range base size at_ len :
  0 ≤ base → base + size < 2 ^ 64 → 0 ≤ at_ → 0 ≤ len → 0 < size → at_ + len < 2 ^ 64 →
  assert_valid_range base at_ len size =
    if (base <=? at_) && (at_ + len <=? base + size) then Ok tt else Err Index_out_of_range.
Proof.
  intros. unfold assert_valid_range, is_zero. change ZERO_BASE with (2 ^ 64 - 1).
  rewrite !wrap_small by word_lia. zcases; simpl; try lia; done.
Qed.

Lemma valid_inside base size at_ len :
  0 ≤ base → base + size < 2 ^ 64 → 0 < size → inside base size at_ len →
  assert_valid_range base at_ len size = Ok tt.
Proof.
  intros ? ? ? (?&?&?). rewrite valid_range by lia. zcases; simpl; try lia; done.
Qed.

(** ** Blocks of bytes keep the promise *)

Section Leaf.
Context {A : Type} `{Allocator A} (CHUNK_SIZE : Z) (Hsize : 0 < CHUNK_SIZE ≤ 2 ^ 62).

#[local] Instance leaf_entry : Chunk_entry A Chunk.t := Chunk.chunk_entry CHUNK_SIZE.

Definition leaf_get (c : Chunk.t) (i : Z) : Z := default 0 (Chunk._data c !! Z.to_nat i).

Record leaf_ok (c : Chunk.t) : Prop := {
  leaf_base : 0 ≤ Chunk._base_offset c ∧ Chunk._base_offset c + CHUNK_SIZE < 2 ^ 64;
  leaf_length : length (Chunk._data c) = Z.to_nat CHUNK_SIZE;
  leaf_num : 0 ≤ Chunk._num_entries c ≤ CHUNK_SIZE;
  leaf_rest i : Chunk._num_entries c ≤ i → leaf_get c i = 0 }.

Lemma inserts_get (data src : list Z) off i :
  length data = Z.to_nat CHUNK_SIZE → 0 ≤ off → off + Z.of_nat (length src) ≤ CHUNK_SIZE → 0 ≤ i →
  default 0 (list_inserts (Z.to_nat off) src data !! Z.to_nat i) =
    overlay off src (λ i, default 0 (data !! Z.to_nat i)) i.
Proof.
  intros Hl Ho Hb Hi. unfold overlay. destruct (Z.leb_spec off i); simpl.
  - destruct (Z.ltb_spec i (off + Z.of_nat (length src))).
    + rewrite list_lookup_inserts by lia. f_equal. f_equal. lia.
    + by rewrite list_lookup_inserts_ge by lia.
  - by rewrite list_lookup_inserts_lt by lia.
Qed.

Lemma leaf_construct b : 0 ≤ b → b + CHUNK_SIZE < 2 ^ 64 → leaf_ok (Chunk.new CHUNK_SIZE b).
Proof.
  intros ? ?. constructor; simpl; [done|by rewrite length_replicate|lia|].
  intros i _. unfold leaf_get; simpl.
  destruct (replicate _ 0 !! _) eqn:E; [|done]. by apply lookup_replicate in E as [-> _].
Qed.

Lemma leaf_read c at_ len : leaf_ok c → inside (Chunk._base_offset c) CHUNK_SIZE at_ len →
  Chunk.read_bytes CHUNK_SIZE len at_ c = Ok (bytes (leaf_get c) (at_ - Chunk._base_offset c) len).
Proof.
  intros [[? ?] Hl _ _] Hin. pose proof Hin as (?&?&?). unfold Chunk.read_bytes.
  rewrite valid_inside by (done || lia). cbn [mbind result_bind]. unfold Chunk.copy_out.
  rewrite wrap_small by word_lia. destruct (Z.leb_spec (at_ - Chunk._base_offset c + len) CHUNK_SIZE); [|lia].
  f_equal. apply list_eq. intros k. unfold bytes. rewrite list_lookup_fmap.
  destruct (decide (k < Z.to_nat len)%nat).
  - rewrite lookup_take_lt, lookup_drop, lookup_seqZ_lt by lia. simpl. unfold leaf_get.
    replace (Z.to_nat (at_ - Chunk._base_offset c + (0 + Z.of_nat k)))
      with (Z.to_nat (at_ - Chunk._base_offset c) + k)%nat by lia.
    destruct (lookup_lt_is_Some_2 (Chunk._data c) (Z.to_nat (at_ - Chunk._base_offset c) + k)) as [x ->]; [lia|done].
  - rewrite lookup_take_ge, lookup_seqZ_ge by lia. done.
Qed.

Lemma leaf_write c a src at_ :
  leaf_ok c → inside (Chunk._base_offset c) CHUNK_SIZE at_ (Z.of_nat (length src)) →
  ∃ c', Chunk.write_bytes CHUNK_SIZE src at_ (c, a) = (Ok tt, (c', a : A)) ∧ leaf_ok c' ∧
    Chunk._base_offset c' = Chunk._base_offset c ∧
    (∀ i, 0 ≤ i → leaf_get c' i = overlay (at_ - Chunk._base_offset c) src (leaf_get c) i) ∧
    Chunk._num_entries c' = Z.max (Chunk._num_entries c) (at_ - Chunk._base_offset c + Z.of_nat (length src)).
Proof.
  intros [[? ?] Hl Hn Hr] Hin. pose proof Hin as (?&?&?).
  unfold Chunk.write_bytes, get_state, check, mbind, exc_bind.
  rewrite valid_inside by (done || lia). rewrite !wrap_small by word_lia. unfold Chunk.copy_in.
  destruct (Z.leb_spec (at_ - Chunk._base_offset c + Z.of_nat (length src)) CHUNK_SIZE); [|lia].
  assert (∀ i, 0 ≤ i → leaf_get (Chunk.Mk (Chunk._base_offset c)
    (Z.max (Chunk._num_entries c) (at_ - Chunk._base_offset c + Z.of_nat (length src)))
    (list_inserts (Z.to_nat (at_ - Chunk._base_offset c)) src (Chunk._data c))) i =
    overlay (at_ - Chunk._base_offset c) src (leaf_get c) i) as Hg.
  { intros i Hi. unfold leaf_get; simpl. by apply inserts_get; [|lia..]. }
  eexists. split; [done|]. split_and!; [|done|exact Hg|done].
  constructor; simpl; [done|by rewrite length_inserts|lia|].
  intros i Hi. rewrite Hg by lia. unfold overlay. zcases; simpl; try lia; apply Hr; lia.
Qed.

Lemma leaf_truncate c a at_ :
  leaf_ok c → Chunk._base_offset c ≤ at_ < Chunk._base_offset c + CHUNK_SIZE →
  ∃ c', Chunk.truncate_bytes CHUNK_SIZE at_ (c, a) = (Ok tt, (c', a : A)) ∧ leaf_ok c' ∧
    Chunk._base_offset c' = Chunk._base_offset c ∧
    (∀ i, 0 ≤ i → leaf_get c' i = if i <? at_ - Chunk._base_offset c then leaf_get c i else 0) ∧
    Chunk._num_entries c' = Z.min (Chunk._num_entries c) (at_ - Chunk._base_offset c).
Proof.
  intros Hok ?. pose proof Hok as [[? ?] Hl Hn Hr].
  unfold Chunk.truncate_bytes, get_state, check, mbind, exc_bind.
  rewrite valid_inside by (done || unfold inside; lia). rewrite (wrap_small 64 (at_ - _)) by word_lia.
  destruct (Z.leb_spec (Chunk._num_entries c) (at_ - Chunk._base_offset c)).
  - exists c. split_and!; [done|done|done| |lia]. intros i Hi.
    destruct (Z.ltb_spec i (at_ - Chunk._base_offset c)); [done|]. apply Hr. lia.
  - rewrite wrap_small by word_lia. unfold Chunk.copy_in. rewrite length_replicate.
    destruct (Z.leb_spec (at_ - Chunk._base_offset c +
      Z.of_nat (Z.to_nat (Chunk._num_entries c - (at_ - Chunk._base_offset c)))) CHUNK_SIZE); [|lia].
    set (z := replicate _ 0).
    assert (∀ i, 0 ≤ i → leaf_get (Chunk.Mk (Chunk._base_offset c) (at_ - Chunk._base_offset c)
      (list_inserts (Z.to_nat (at_ - Chunk._base_offset c)) z (Chunk._data c))) i =
      if i <? at_ - Chunk._base_offset c then leaf_get c i else 0) as Hg.
    { intros i Hi. unfold leaf_get; simpl.
      rewrite inserts_get by (done || subst z; rewrite ?length_replicate; lia).
      unfold overlay. subst z. rewrite length_replicate.
      destruct (Z.leb_spec (at_ - Chunk._base_offset c) i), (Z.ltb_spec i (at_ - Chunk._base_offset c)); try lia; [|done].
      simpl. destruct (Z.ltb_spec i (at_ - Chunk._base_offset c +
        Z.of_nat (Z.to_nat (Chunk._num_entries c - (at_ - Chunk._base_offset c))))).
      - by rewrite lookup_replicate_2 by lia.
      - apply Hr. lia. }
    eexists. split; [done|]. split_and!; [|done|exact Hg|simpl; lia].
    constructor; simpl; [done|by rewrite length_inserts|lia|].
    intros i Hi. rewrite Hg by lia. destruct (Z.ltb_spec i (at_ - Chunk._base_offset c)); [lia|done].
Qed.

#[local] Instance leaf_laws : Chunk_laws A Chunk.t (H0 := leaf_entry).
Proof.
  refine (Build_Chunk_laws A Chunk.t _ leaf_entry leaf_ok leaf_get _ _ _ _ _ _ _ _ _).
  - done.
  - intros e He. apply He.
  - intros b ? ?. split_and!; [by apply leaf_construct|done|done|].
    intros i. unfold leaf_get; simpl. destruct (replicate _ 0 !! _) eqn:E; [|done].
    by apply lookup_replicate in E as [-> _].
  - done.
  - intros e [? ? ? ?]. done.
  - intros e _ He. by apply Z.eqb_eq in He.
  - intros. by apply leaf_read.
  - intros e a src at_ He Hin. destruct (leaf_write e a src at_ He Hin) as (c' & Hw & ? & ? & ? & ?).
    cbn [write leaf_entry Chunk.chunk_entry]. rewrite Hw. cbn [used_size leaf_entry Chunk.chunk_entry].
    unfold Chunk.get_used_size in *. split_and!; [done|done|done|simpl in *; lia|done].
  - intros e a at_ He Hat. destruct (leaf_truncate e a at_ He Hat) as (c' & Hw & ? & ? & ? & Hn).
    exists c', a. split_and!; [done..| |]; simpl; unfold Chunk.get_used_size; lia.
Defined.

End Leaf.

(** ** Composition of reads and writes *)

Lemma bytes_app g off n m : 0 ≤ n → 0 ≤ m → bytes g off (n + m) = bytes g off n ++ bytes g (off + n) m.
Proof.
  intros Hn Hm. unfold bytes. rewrite seqZ_app by done. rewrite fmap_app. f_equal.
  apply list_eq. intros k. rewrite !list_lookup_fmap. destruct (decide (Z.of_nat k < m)).
  - rewrite !lookup_seqZ_lt by lia. simpl. do 2 f_equal. lia.
  - by rewrite !lookup_seqZ_ge by lia.
Qed.

Lemma bytes_ext g g' off off' len :
  (∀ k, 0 ≤ k < len → g (off + k) = g' (off' + k)) → bytes g off len = bytes g' off' len.
Proof.
  intros Hg. unfold bytes. apply list_fmap_ext. intros i k Hk.
  apply lookup_seqZ in Hk as [-> Hk]. apply Hg. lia.
Qed.

Lemma bytes_zero g off len : (∀ k, 0 ≤ k < len → g (off + k) = 0) → bytes g off len = replicate (Z.to_nat len) 0.
Proof.
  intros Hg. apply list_eq. intros i. unfold bytes. rewrite list_lookup_fmap.
  destruct (decide (i < Z.to_nat len)%nat).
  - rewrite lookup_seqZ_lt, lookup_replicate_2 by lia. simpl. rewrite Hg by lia. done.
  - rewrite lookup_seqZ_ge by lia. symmetry. apply lookup_ge_None. rewrite length_replicate. lia.
Qed.

Lemma length_bytes g off len : 0 ≤ len → Z.of_nat (length (bytes g off len)) = len.
Proof. intros. unfold bytes. rewrite length_fmap, length_seqZ. lia. Qed.

Lemma overlay_split off src g n i :
  (n ≤ length src)%nat →
  overlay off src g i = overlay (off + Z.of_nat n) (drop n src) (overlay off (take n src) g) i.
Proof.
  intros Hn. unfold overlay. rewrite length_drop, length_take, Nat.min_l by done.
  destruct (Z.leb_spec off i), (Z.ltb_spec i (off + Z.of_nat (length src))),
    (Z.leb_spec (off + Z.of_nat n) i),
    (Z.ltb_spec i (off + Z.of_nat n + Z.of_nat (length src - n))); simpl; try lia; try done;
    destruct (Z.ltb_spec i (off + Z.of_nat n)); simpl; try lia; try done.
  - rewrite lookup_drop. do 2 f_equal. lia.
  - by rewrite lookup_take_lt by lia.
Qed.

(** A prefix of a write leaves every byte as it was or as the whole write would. *)
Lemma overlay_prefix off src g n i :
  overlay off (take n src) g i = g i ∨ overlay off (take n src) g i = overlay off src g i.
Proof.
  unfold overlay. rewrite length_take.
  destruct (Z.leb_spec off i); simpl; [|by left].
  destruct (Z.ltb_spec i (off + Z.of_nat (n `min` length src))); [right|by left].
  destruct (Z.ltb_spec i (off + Z.of_nat (length src))); [|lia].
  by rewrite lookup_take_lt by lia.
Qed.

Lemma overlay_ext off src g g' i : g i = g' i → overlay off src g i = overlay off src g' i.
Proof. intros Hg. unfold overlay. by rewrite Hg. Qed.

Lemma overlay_nil off g i : overlay off [] g i = g i.
Proof. unfold overlay. simpl. zcases; simpl; try lia; done. Qed.

(** ** Tables of chunks keep the promise *)

Section Index.
Context {A E : Type} `{CL : Chunk_laws A E} (NUM_ENTRIES : Z).

Abbreviation ES := (SIZE (E := E)).

Hypothesis Hnum : 0 < NUM_ENTRIES < 2 ^ 32.
Hypothesis Hsize : ES * NUM_ENTRIES ≤ 2 ^ 62.

#[local] Instance table_entry : Chunk_entry A (Chunk_index.t E) := Chunk_index.index_entry NUM_ENTRIES.

Abbreviation t := (Chunk_index.t E).
Abbreviation entry i c := (Chunk_index.get_entry i c).
Abbreviation base c := (Chunk_index._base_offset c).
Abbreviation num c := (Chunk_index._num_entries c).

Definition index_get (c : t) (i : Z) : Z :=
  match entry (i / ES) c with Some e => get e (i mod ES) | None => 0 end.

Record index_ok (c : t) : Prop := {
  index_base : 0 ≤ base c ∧ base c + ES * NUM_ENTRIES < 2 ^ 64;
  index_length : length (Chunk_index._entries c) = Z.to_nat NUM_ENTRIES;
  index_num : 0 ≤ num c ≤ NUM_ENTRIES;
  index_entry_ok i e : 0 ≤ i → entry i c = Some e → i < num c ∧ ok e ∧ base_offset e = base c + i * ES }.

Lemma entry_size : 0 < ES ≤ 2 ^ 62.
Proof. apply size_pos. Qed.

Lemma get_set_entry i j x (c : t) :
  length (Chunk_index._entries c) = Z.to_nat NUM_ENTRIES → 0 ≤ i < NUM_ENTRIES → 0 ≤ j →
  entry j (Chunk_index.set_entry i x c) = if decide (j = i) then x else entry j c.
Proof.
  intros Hl Hi Hj. unfold Chunk_index.get_entry, Chunk_index.set_entry; simpl. case_decide as Ej.
  - subst j. by rewrite list_lookup_insert_eq by lia.
  - by rewrite list_lookup_insert_ne by lia.
Qed.

Lemma set_entry_ok i x c :
  index_ok c → 0 ≤ i < NUM_ENTRIES →
  match x with Some e => i < num c ∧ ok e ∧ base_offset e = base c + i * ES | None => True end →
  index_ok (Chunk_index.set_entry i x c).
Proof.
  intros [Hb Hl Hn He] Hi Hx. constructor; [done|simpl; by rewrite length_insert|done|].
  intros j e Hj. rewrite get_set_entry by done. case_decide; [|by apply He].
  intros ->. by subst j.
Qed.

Lemma set_num_ok n c (a : A) :
  index_ok c → 0 ≤ n ≤ NUM_ENTRIES → (∀ i, n ≤ i → entry i c = None) →
  index_ok (Chunk_index.set_num n (c, a)).1.
Proof.
  intros [Hb Hl Hn He] Hn' Hnone. constructor; [done..|]. intros i e Hi Hg. change (entry i c = Some e) in Hg.
  simpl. destruct (He i e Hi Hg) as (? & ? & ?). split_and!; [|done..].
  destruct (decide (i < n)); [done|]. rewrite Hnone in Hg by lia. done.
Qed.

Lemma index_range at_ len (c : t) :
  index_ok c → inside (base c) (ES * NUM_ENTRIES) at_ len → 0 < len →
  let off := at_ - base c in
  Chunk_index._index_by_offset at_ c = off / ES ∧ 0 ≤ off / ES < NUM_ENTRIES ∧
  Chunk_index.curr_len len at_ (off / ES) c = Z.min len (ES - off mod ES) ∧
  off = off / ES * ES + off mod ES ∧ 0 ≤ off mod ES < ES.
Proof.
  intros [[? ?] _ _ _] (?&?&?) ? off. pose proof entry_size as [? ?].
  assert (0 ≤ off / ES < NUM_ENTRIES) as Hi.
  { split; [apply Z.div_pos; lia|apply Z.div_lt_upper_bound; lia]. }
  pose proof (Z.div_mod off ES). pose proof (Z.mod_pos_bound off ES).
  assert (off / ES * ES ≤ off) by lia.
  unfold Chunk_index._index_by_offset, Chunk_index.curr_len, Chunk_index.ENTRY_SIZE. fold off.
  rewrite (wrap_small 64 off) by word_lia. rewrite (wrap_small 32) by word_lia.
  split_and!; try lia. rewrite (wrap_small 64 (off / ES * ES)) by word_lia.
  fold off. rewrite (wrap_small 64 (off - _)), (wrap_small 64 (ES - _)) by word_lia. lia.
Qed.

(** The number of used bytes. *)
Definition index_used (c : t) : Z :=
  if num c =? 0 then 0
  else ES * (num c - 1) + match entry (num c - 1) c with Some e => used_size e | None => 0 end.

Lemma entry_used i e c : index_ok c → 0 ≤ i → entry i c = Some e → 0 ≤ used_size e ≤ ES.
Proof. intros [_ _ _ He] Hi Hg. apply used_law. by apply (He i). Qed.

Lemma used_bounds c : index_ok c →
  0 ≤ index_used c ≤ ES * num c ∧ (0 < num c → ES * (num c - 1) ≤ index_used c).
Proof.
  intros Hok. pose proof entry_size. pose proof (index_num c Hok). unfold index_used.
  destruct (Z.eqb_spec (num c) 0) as [->|]; [lia|].
  destruct (entry (num c - 1) c) as [e|] eqn:Hg; [|nia].
  pose proof (entry_used (num c - 1) e c Hok ltac:(lia) Hg). nia.
Qed.

Lemma used_size_value c : index_ok c → Chunk_index.get_used_size c = index_used c.
Proof.
  intros Hok. pose proof (used_bounds c Hok) as [Hu _]. pose proof entry_size.
  pose proof (index_num c Hok). unfold Chunk_index.get_used_size, index_used, Chunk_index.ENTRY_SIZE in *.
  destruct (Z.eqb_spec (num c) 0); [done|].
  assert (ES * num c ≤ ES * NUM_ENTRIES) by nia.
  rewrite (wrap_small 64 (num c - 1)) by word_lia. rewrite (wrap_small 64 (ES * _)) by (unfold in_range; nia).
  destruct (entry (num c - 1) c) as [e|] eqn:Hg; [|lia].
  pose proof (entry_used (num c - 1) e c Hok ltac:(lia) Hg).
  apply wrap_small. unfold in_range. nia.
Qed.

(** Beyond the used bytes, there are only zeros. *)
Lemma used_rest c i : index_ok c → index_used c ≤ i → index_get c i = 0.
Proof.
  intros Hok Hi. pose proof entry_size. pose proof (used_bounds c Hok) as [Hu Hu'].
  unfold index_get. destruct (entry (i / ES) c) as [e|] eqn:Hg; [|done].
  assert (0 ≤ i / ES) by (apply Z.div_pos; lia).
  destruct (index_entry_ok c Hok (i / ES) e) as (Hlt & Hoke & _); [done..|].
  pose proof (Z.div_mod i ES). pose proof (Z.mod_pos_bound i ES).
  assert (num c - 1 ≤ i / ES) by (apply Z.div_le_lower_bound; lia).
  assert (i / ES = num c - 1) as E1 by lia.
  apply used_law; [done|]. unfold index_used in Hi. rewrite <- E1, Hg in Hi.
  destruct (Z.eqb_spec (num c) 0); lia.
Qed.

(** A fresh table. *)
Lemma fresh_entry b i : entry i (Chunk_index.new NUM_ENTRIES b : t) = None.
Proof.
  unfold Chunk_index.get_entry; simpl. destruct (replicate _ None !! _) as [x|] eqn:E1; [|done].
  by apply lookup_replicate in E1 as [-> _].
Qed.

Lemma fresh_ok b : 0 ≤ b → b + ES * NUM_ENTRIES < 2 ^ 64 →
  index_ok (Chunk_index.new NUM_ENTRIES b) ∧ ∀ i, index_get (Chunk_index.new NUM_ENTRIES b) i = 0.
Proof.
  intros ? ?. split.
  - constructor; simpl; [done|by rewrite length_replicate|lia|]. intros i e _. by rewrite fresh_entry.
  - intros i. unfold index_get. by rewrite fresh_entry.
Qed.

(** *** Reading *)

Lemma entry_reading i (c : t) : 0 ≤ i < NUM_ENTRIES →
  Chunk_index._entry_for_reading (A := A) NUM_ENTRIES i c =
    Ok (match entry i c with Some e => e | None => zero_chunk end).
Proof.
  intros Hi. unfold Chunk_index._entry_for_reading.
  destruct (Z.leb_spec NUM_ENTRIES i); [lia|]. by destruct (entry i c).
Qed.

(** The bytes of one iteration lie within one entry. *)
Lemma get_in_entry c off k :
  0 ≤ k < ES - off mod ES → 0 ≤ off →
  index_get c (off + k) = match entry (off / ES) c with Some e => get e (off mod ES + k) | None => 0 end.
Proof.
  intros Hk Ho. unfold index_get. pose proof entry_size.
  pose proof (Z.div_mod off ES). pose proof (Z.mod_pos_bound off ES).
  assert ((off + k) / ES = off / ES) as -> by (symmetry; apply (Z.div_unique _ _ _ (off mod ES + k)); lia).
  assert ((off + k) mod ES = off mod ES + k) as -> by (symmetry; apply (Z.mod_unique _ _ (off / ES)); lia).
  done.
Qed.

Lemma nonzero_entry i e c : index_ok c → 0 ≤ i → entry i c = Some e → zero e = false.
Proof.
  intros Hok Hi Hg. destruct (index_entry_ok c Hok i e Hi Hg) as (_ & He & _).
  pose proof (ok_base e He). pose proof entry_size. unfold zero, is_zero.
  apply Z.eqb_neq. change ZERO_BASE with (2 ^ 64 - 1). lia.
Qed.

Lemma read_loop_spec fuel len at_ c :
  index_ok c → inside (base c) (ES * NUM_ENTRIES) at_ len → (Z.to_nat len < fuel)%nat →
  Chunk_index.read_loop (A := A) NUM_ENTRIES fuel len at_ c = Ok (bytes (index_get c) (at_ - base c) len).
Proof.
  intros Hok. revert len at_. induction fuel as [|fuel IH]; intros len at_ Hin Hf; [lia|].
  cbn [Chunk_index.read_loop]. pose proof Hin as (?&?&?). pose proof (index_base c Hok).
  destruct (Z.eqb_spec len 0) as [->|Hnz]; [done|].
  destruct (index_range at_ len c Hok Hin) as (Hix & Hi & Hcl & Ho & Hm); [lia|].
  rewrite Hix, entry_reading by done. cbn [mbind result_bind]. rewrite Hcl.
  set (off := at_ - base c) in *. set (n := Z.min len (ES - off mod ES)).
  assert (0 < n ≤ len ∧ n ≤ ES - off mod ES) by lia.
  assert ((if zero (match entry (off / ES) c with Some e => e | None => zero_chunk end)
    then Ok (replicate (Z.to_nat n) 0)
    else read n at_ (match entry (off / ES) c with Some e => e | None => zero_chunk end))
    = (Ok (bytes (index_get c) off n) : result error (list Z))) as ->.
  { destruct (entry (off / ES) c) as [e|] eqn:Hg.
    - rewrite (nonzero_entry (off / ES) e c) by (done || lia).
      destruct (index_entry_ok c Hok (off / ES) e) as (_ & Hoe & Hbe); [lia|done|].
      rewrite read_law by (done || (unfold inside; rewrite Hbe; lia)). f_equal.
      apply bytes_ext. intros k Hk. rewrite get_in_entry, Hg by lia. f_equal. rewrite Hbe. lia.
    - rewrite zero_law. f_equal. symmetry. apply bytes_zero. intros k Hk.
      by rewrite get_in_entry, Hg by lia. }
  cbn [mbind result_bind]. rewrite !wrap_small by word_lia.
  rewrite IH by (lia || unfold inside; lia). cbn [mbind result_bind]. f_equal.
  replace (at_ + n - base c) with (off + n) by lia. rewrite <- bytes_app by lia. f_equal. lia.
Qed.

Lemma index_read c at_ len :
  index_ok c → inside (base c) (ES * NUM_ENTRIES) at_ len →
  Chunk_index.read_bytes (A := A) NUM_ENTRIES len at_ c = Ok (bytes (index_get c) (at_ - base c) len).
Proof.
  intros Hok Hin. pose proof (index_base c Hok). pose proof entry_size.
  unfold Chunk_index.read_bytes, Chunk_index.INDEX_SIZE, Chunk_index.ENTRY_SIZE.
  rewrite valid_inside by (done || nia). cbn [mbind result_bind].
  apply read_loop_spec; [done|done|lia].
Qed.

(** *** Writing *)

(** The entry for writing: an existing one, a new one, or an exception. *)
Lemma entry_writing i c a :
  index_ok c → 0 ≤ i < NUM_ENTRIES →
  (∃ er, alloc_failure er ∧ Chunk_index._entry_for_writing NUM_ENTRIES i (c, a) = (Err er, (c, a))) ∨
  ∃ e c' a', Chunk_index._entry_for_writing NUM_ENTRIES i (c, a) = (Ok e, (c', a')) ∧
    index_ok c' ∧ base c' = base c ∧ entry i c' = Some e ∧ num c' = Z.max (num c) (i + 1) ∧
    (∀ j, 0 ≤ j → j ≠ i → entry j c' = entry j c) ∧
    (entry i c = Some e ∨ entry i c = None ∧ used_size e = 0 ∧ ∀ k, get e k = 0).
Proof.
  intros Hok Hi. pose proof Hok as [[? ?] Hl Hn He]. unfold Chunk_index._entry_for_writing.
  pose proof entry_size. destruct (Z.leb_spec NUM_ENTRIES i); [lia|].
  unfold get_state, mbind, exc_bind. destruct (entry i c) as [e|] eqn:Hg.
  - right. exists e, c, a. destruct (He i e) as (? & _ & _); [lia|done|]. split_and!; try done; [lia|by left].
  - unfold alloc_throw. destruct (alloc a) as [a'|er]; [right|left; by eexists; split; [eexists|]]. unfold put_state, Chunk_index.ENTRY_SIZE.
    assert (0 ≤ i * ES ∧ i * ES + ES ≤ ES * NUM_ENTRIES) as [? ?] by nia.
    rewrite (wrap_small 64 (i * ES)), (wrap_small 64 (base c + _)) by word_lia.
    destruct (construct_law (base c + i * ES)) as (Hce & Hcb & Hcu & Hcg); [lia..|].
    set (e := construct (base c + i * ES)).
    set (c' := Chunk_index.Mk (base (Chunk_index.set_entry i (Some e) c))
      (Z.max (num (Chunk_index.set_entry i (Some e) c)) (i + 1))
      (Chunk_index._entries (Chunk_index.set_entry i (Some e) c))).
    assert (∀ j, 0 ≤ j → entry j c' = if decide (j = i) then Some e else entry j c) as Hent.
    { intros j Hj. apply (get_set_entry i j (Some e) c); [done|done|done]. }
    exists e, c', a'. split; [done|]. split_and!; [|done|by rewrite Hent, decide_True by lia|done|..].
    + constructor; [done|simpl; by rewrite length_insert|simpl; lia|].
      intros j x Hj. rewrite Hent by done. case_decide as Ej.
      * intros [= <-]. subst j. split_and!; [simpl; lia|done|done].
      * intros Hx. destruct (He j x Hj Hx) as (? & ? & ?). split_and!; [simpl; lia|done|done].
    + intros j Hj Hji. by rewrite Hent, decide_False.
    + by right.
Qed.

(** The table after an entry was written to. *)
Lemma entry_written c c1 i e e' src off :
  index_ok c → index_ok c1 → 0 ≤ i < NUM_ENTRIES → base c1 = base c → entry i c1 = Some e →
  num c1 = Z.max (num c) (i + 1) → (∀ j, 0 ≤ j → j ≠ i → entry j c1 = entry j c) →
  (entry i c = Some e ∨ entry i c = None ∧ used_size e = 0 ∧ ∀ k, get e k = 0) →
  ok e' → base_offset e' = base c + i * ES → 0 ≤ off → off + Z.of_nat (length src) ≤ ES → src ≠ [] →
  let c2 := Chunk_index.set_entry i (Some e') c1 in
  index_ok c2 ∧ base c2 = base c ∧
  ((∀ k, 0 ≤ k → get e' k = overlay off src (get e) k) →
    ∀ k, 0 ≤ k → index_get c2 k = overlay (i * ES + off) src (index_get c) k) ∧
  ((∀ k, 0 ≤ k → get e' k = get e k ∨ get e' k = overlay off src (get e) k) →
    ∀ k, 0 ≤ k → index_get c2 k = index_get c k ∨ index_get c2 k = overlay (i * ES + off) src (index_get c) k) ∧
  (used_size e' = Z.max (used_size e) (off + Z.of_nat (length src)) →
    index_used c2 = Z.max (index_used c) (i * ES + off + Z.of_nat (length src))).
Proof.
  intros Hok Hok1 Hi Hb He Hn Hother Hold He' Hb' Hoff Hfit Hne c2. pose proof entry_size.
  assert (0 < Z.of_nat (length src)) by (destruct src; [done|simpl; lia]).
  assert (∀ j, 0 ≤ j → entry j c2 = if decide (j = i) then Some e' else entry j c) as Hent.
  { intros j Hj. unfold c2. rewrite get_set_entry by (apply Hok1 || done). case_decide; [done|]. by apply Hother. }
  assert (∀ k, 0 ≤ k → k / ES = i → index_get c k = get e (k mod ES)) as Hget.
  { intros k Hk Ek. unfold index_get. rewrite Ek. destruct Hold as [->|(-> & _ & Hz)]; [done|]. by rewrite Hz. }
  assert (∀ k, 0 ≤ k → (i * ES + off <= k < i * ES + off + Z.of_nat (length src)) → k / ES = i) as Hin.
  { intros k Hk Hr. symmetry. apply (Z.div_unique k ES i (k - i * ES)); lia. }
  assert (∀ k, 0 ≤ k → k / ES ≠ i → index_get c2 k = index_get c k ∧
    overlay (i * ES + off) src (index_get c) k = index_get c k) as Hout.
  { intros k Hk Ek. split.
    - unfold index_get. rewrite Hent, decide_False by (done || apply Z.div_pos; lia). done.
    - unfold overlay. pose proof (Hin k Hk).
      destruct (Z.leb_spec (i * ES + off) k), (Z.ltb_spec k (i * ES + off + Z.of_nat (length src)));
        simpl; try done. exfalso. apply Ek. auto. }
  assert (∀ k, 0 ≤ k → k / ES = i → index_get c2 k = get e' (k mod ES) ∧
    overlay (i * ES + off) src (index_get c) k = overlay off src (get e) (k mod ES)) as Hcov.
  { intros k Hk Ek. pose proof (Z.div_mod k ES). pose proof (Z.mod_pos_bound k ES). split.
    - unfold index_get. rewrite Ek, Hent, decide_True by (done || lia). done.
    - unfold overlay. rewrite (Hget k) by done. assert (k = i * ES + k mod ES) as Ek' by lia.
      replace (k - (i * ES + off)) with (k mod ES - off) by lia.
      destruct (Z.leb_spec (i * ES + off) k), (Z.ltb_spec k (i * ES + off + Z.of_nat (length src))),
        (Z.leb_spec off (k mod ES)), (Z.ltb_spec (k mod ES) (off + Z.of_nat (length src))); simpl; try lia; done. }
  split_and!.
  - apply set_entry_ok; [done|done|]. split_and!; [lia|done|by rewrite Hb].
  - done.
  - intros Hg k Hk. destruct (decide (k / ES = i)) as [Ek|Ek].
    + destruct (Hcov k Hk Ek) as [-> ->]. apply Hg. apply Z.mod_pos_bound. lia.
    + by destruct (Hout k Hk Ek) as [-> ->].
  - intros Hg k Hk. destruct (decide (k / ES = i)) as [Ek|Ek].
    + destruct (Hcov k Hk Ek) as [-> ->]. rewrite (Hget k) by done. apply Hg. apply Z.mod_pos_bound. lia.
    + destruct (Hout k Hk Ek) as [-> _]. by left.
  - intros Hu. pose proof (used_bounds c Hok) as [Hub Hub'].
    assert (num c2 = num c1) as Hn2 by done. unfold index_used at 1. rewrite Hn2, Hn.
    pose proof (index_num c Hok). destruct (Z.eqb_spec (Z.max (num c) (i + 1)) 0); [lia|].
    rewrite Hent by lia. destruct (decide (num c ≤ i + 1)) as [Hle|Hgt].
    + rewrite Z.max_r, decide_True by lia. rewrite Hu. unfold index_used.
      destruct (Z.eqb_spec (num c) 0) as [E0|].
      { destruct Hold as [Hold|(_ & -> & _)]; [|lia].
        destruct (index_entry_ok c Hok i e) as (? & _ & _); [lia|done|lia]. }
      destruct (decide (num c = i + 1)) as [->|].
      * replace (i + 1 - 1) with i by lia. destruct Hold as [-> |(-> & -> & _)]; lia.
      * destruct Hold as [Hold|(_ & -> & _)].
        { destruct (index_entry_ok c Hok i e) as (? & _ & _); [lia|done|lia]. }
        assert (index_used c ≤ ES * i) by nia. unfold index_used in *.
        destruct (Z.eqb_spec (num c) 0); [lia|]. lia.
    + rewrite Z.max_l by lia. rewrite decide_False by lia.
      unfold index_used in *. destruct (Z.eqb_spec (num c) 0); [lia|].
      assert (i * ES + ES ≤ ES * (num c - 1)) by nia. lia.
Qed.

(** What a write promises: all bytes are written, or an allocation failed and every byte is
    as before or as it was to be. *)
Definition used_after (src : list Z) (off used : Z) : Z :=
  match src with [] => used | _ => Z.max used (off + Z.of_nat (length src)) end.

Definition written (src : list Z) (at_ : Z) (c : t) (r : result error unit) (c' : t) : Prop :=
  index_ok c' ∧ base c' = base c ∧
  match r with
  | Ok _ => (∀ i, 0 ≤ i → index_get c' i = overlay (at_ - base c) src (index_get c) i) ∧
      index_used c' = used_after src (at_ - base c) (index_used c)
  | Err er => alloc_failure er ∧
      ∀ i, 0 ≤ i → index_get c' i = index_get c i ∨
        index_get c' i = overlay (at_ - base c) src (index_get c) i
  end.

Lemma written_nothing src at_ c er : index_ok c → alloc_failure er → written src at_ c (Err er) c.
Proof. intros Hok He. split_and!; [done..|]. by left. Qed.

Lemma used_after_split n src off used : (0 < n ≤ length src)%nat →
  used_after (drop n src) (off + Z.of_nat n) (used_after (take n src) off used) = used_after src off used.
Proof.
  intros Hn. assert (used_after (take n src) off used = Z.max used (off + Z.of_nat n)) as ->.
  { pose proof (length_take src n). unfold used_after.
    destruct (take n src) eqn:E1; simpl in *; lia. }
  pose proof (length_drop src n). unfold used_after.
  destruct (drop n src) eqn:E1, src; simpl in *; lia.
Qed.

(** A written prefix, followed by a write of the rest. *)
Lemma written_trans n src at_ c c1 r c2 :
  (0 < n ≤ length src)%nat →
  written (take n src) at_ c (Ok tt) c1 → written (drop n src) (at_ + Z.of_nat n) c1 r c2 →
  written src at_ c r c2.
Proof.
  intros Hn (Hok1 & Hb1 & Hg1 & Hu1) (Hok2 & Hb2 & Hr). rewrite Hb1 in *.
  replace (at_ + Z.of_nat n - base c) with (at_ - base c + Z.of_nat n) in Hr by lia.
  assert (∀ i, 0 ≤ i → overlay (at_ - base c + Z.of_nat n) (drop n src) (index_get c1) i
    = overlay (at_ - base c) src (index_get c) i) as Hov.
  { intros i Hi. rewrite (overlay_split (at_ - base c) src (index_get c) n i) by lia.
    apply overlay_ext. by apply Hg1. }
  split_and!; [done|done|]. destruct r as [[]|er].
  - destruct Hr as [Hg2 ->]. split; [intros i Hi; by rewrite Hg2, Hov|].
    rewrite Hu1. by apply used_after_split.
  - destruct Hr as [He Hg2]. split; [done|]. intros i Hi. destruct (Hg2 i Hi) as [->| ->].
    + rewrite Hg1 by done. apply overlay_prefix.
    + right. by apply Hov.
Qed.

(** One iteration: the bytes that lie within one entry. *)
Lemma write_step src at_ c a :
  index_ok c → inside (base c) (ES * NUM_ENTRIES) at_ (Z.of_nat (length src)) → src ≠ [] →
  let i := (at_ - base c) / ES in
  let n := Z.to_nat (Z.min (Z.of_nat (length src)) (ES - (at_ - base c) mod ES)) in
  (∃ er, alloc_failure er ∧ Chunk_index._entry_for_writing NUM_ENTRIES i (c, a) = (Err er, (c, a))) ∨
  ∃ e c1 a1, Chunk_index._entry_for_writing NUM_ENTRIES i (c, a) = (Ok e, (c1, a1)) ∧
    base c1 = base c ∧
    let '(r, (c2, a2)) := Chunk_index.on_entry i e (write (take n src) at_) (c1, a1) in
    match r with
    | Ok _ => written (take n src) at_ c (Ok tt) c2
    | Err er => written src at_ c (Err er) c2
    end.
Proof.
  intros Hok Hin Hne i n. pose proof Hin as (?&?&?).
  assert (0 < Z.of_nat (length src)) by (destruct src; [done|simpl; lia]).
  destruct (index_range at_ _ c Hok Hin) as (_ & Hi & _ & Ho & Hm); [done|].
  assert ((0 < n ≤ length src)%nat ∧ Z.of_nat n ≤ ES - (at_ - base c) mod ES) as [Hn Hfit] by lia.
  assert (Z.of_nat (length (take n src)) = Z.of_nat n) as Hlen by (rewrite length_take; lia).
  assert (take n src ≠ []) as Htake by (intros E1; rewrite E1 in Hlen; simpl in Hlen; lia).
  destruct (entry_writing i c a) as [?|(e & c1 & a1 & Hw & Hok1 & Hb1 & He & Hn1 & Hoth & Hold)];
    [done|done|by left|right].
  exists e, c1, a1. split_and!; [done|done|]. unfold Chunk_index.on_entry. cbn [fst snd].
  destruct (index_entry_ok c1 Hok1 i e) as (_ & Hoe & Hbe); [lia|done|].
  pose proof (write_law e a1 (take n src) at_ Hoe) as HW. rewrite Hbe, Hb1, Hlen in HW.
  ospecialize* HW; [unfold inside; lia|].
  destruct (write (take n src) at_ (e, a1)) as [r [e' a2]]. destruct HW as (Hoe' & Hbe' & Hr).
  replace (at_ - (base c + i * ES)) with ((at_ - base c) mod ES) in Hr by lia.
  destruct (entry_written c c1 i e e' (take n src) ((at_ - base c) mod ES)) as (Hok2 & Hb2 & HG & HE & HU);
    [done..|lia|lia|done|]. fold i in Ho. rewrite <- Ho in HG, HE, HU. rewrite Hlen in HU.
  destruct r as [[]|er].
  - destruct Hr as (Hg & _ & Hu). specialize (Hu Htake). split_and!; [done|done|by apply HG|]. rewrite HU by done.
    unfold used_after. destruct (take n src) eqn:E1; [done|]. by rewrite Hlen.
  - destruct Hr as [He' Hg]. split_and!; [done|done|done|]. intros k Hk.
    destruct (HE Hg k Hk) as [->| ->]; [by left|apply overlay_prefix].
Qed.

Lemma write_loop_spec fuel src at_ c a :
  index_ok c → inside (base c) (ES * NUM_ENTRIES) at_ (Z.of_nat (length src)) → (length src < fuel)%nat →
  let '(r, (c', a')) := Chunk_index.write_loop NUM_ENTRIES fuel src at_ (c, a) in written src at_ c r c'.
Proof.
  revert src at_ c a. induction fuel as [|fuel IH]; intros src at_ c a Hok Hin Hf; [lia|].
  cbn [Chunk_index.write_loop]. pose proof Hin as (?&?&?). pose proof (index_base c Hok).
  destruct (Z.eqb_spec (Z.of_nat (length src)) 0) as [Hz|Hnz].
  { destruct src; [|simpl in Hz; lia]. split_and!; [done|done| |done]. intros i _. by rewrite overlay_nil. }
  assert (src ≠ []) as Hne by (intros ->; done).
  destruct (index_range at_ _ c Hok Hin) as (Hix & Hi & Hcl & Ho & Hm); [lia|].
  unfold get_state, mbind, exc_bind. rewrite Hix.
  destruct (write_step src at_ c a Hok Hin Hne) as [(er & He & ->)|(e & c1 & a1 & -> & Hb1 & Hstep)];
    [by apply written_nothing|].
  rewrite Hcl.
  set (n := Z.min (Z.of_nat (length src)) (ES - (at_ - base c) mod ES)) in *.
  assert (0 < n ≤ Z.of_nat (length src)) by lia.
  destruct (Chunk_index.on_entry _ e _ _) as [r [c2 a2]]. destruct r as [[]|er]; [|done].
  rewrite wrap_small by word_lia. pose proof Hstep as (Hok2 & Hb2 & _).
  assert (length (drop (Z.to_nat n) src) = (length src - Z.to_nat n)%nat) as Hld by apply length_drop.
  specialize (IH (drop (Z.to_nat n) src) (at_ + n) c2 a2 Hok2). rewrite Hb2, Hld in IH.
  ospecialize* IH; [unfold inside; lia|lia|].
  destruct (Chunk_index.write_loop _ _ _ _ _) as [r [c3 a3]].
  eapply (written_trans (Z.to_nat n)); [lia|exact Hstep|].
  by replace (at_ + Z.of_nat (Z.to_nat n)) with (at_ + n) by lia.
Qed.

Lemma index_write c src at_ a :
  index_ok c → inside (base c) (ES * NUM_ENTRIES) at_ (Z.of_nat (length src)) →
  let '(r, (c', a')) := Chunk_index.write_bytes NUM_ENTRIES src at_ (c, a) in written src at_ c r c'.
Proof.
  intros Hok Hin. pose proof (index_base c Hok). pose proof entry_size.
  unfold Chunk_index.write_bytes, check, Chunk_index.INDEX_SIZE, Chunk_index.ENTRY_SIZE, get_state, mbind, exc_bind.
  rewrite valid_inside by (done || nia). apply write_loop_spec; [done|done|lia].
Qed.

(** *** Truncating *)

Lemma destroy_entry_spec i (s : t * A) :
  index_ok s.1 → 0 ≤ i < NUM_ENTRIES →
  let s' := Chunk_index._destroy_entry i s in
  index_ok s'.1 ∧ base s'.1 = base s.1 ∧ num s'.1 = num s.1 ∧
  ∀ j, 0 ≤ j → entry j s'.1 = if decide (j = i) then None else entry j s.1.
Proof.
  intros Hok Hi. unfold Chunk_index._destroy_entry. destruct (entry i s.1) as [e|] eqn:Hg.
  - destruct (index_entry_ok _ Hok i e) as (Hlt & _ & _); [lia|done|].
    destruct (Z.ltb_spec i (num s.1)); [|lia]. cbn [fst]. split_and!; [by apply set_entry_ok|done|done|].
    intros j Hj. apply get_set_entry; [apply Hok|done|done].
  - split_and!; [done..|]. intros j Hj. case_decide; [|done]. by subst.
Qed.

Lemma destroy_entries_spec lo n (s : t * A) :
  index_ok s.1 → 0 ≤ lo → 0 ≤ n → lo + n ≤ NUM_ENTRIES →
  let s' := fold_left (λ s i, Chunk_index._destroy_entry i s) (seqZ lo n) s in
  index_ok s'.1 ∧ base s'.1 = base s.1 ∧ num s'.1 = num s.1 ∧
  ∀ j, 0 ≤ j → entry j s'.1 = if decide (lo ≤ j < lo + n) then None else entry j s.1.
Proof.
  intros Hok Hlo Hn. revert lo s Hok Hlo. pattern n. apply natlike_ind; [| |done].
  - intros lo s Hok ? _. simpl. split_and!; [done..|]. intros j ?. by rewrite decide_False by lia.
  - clear n Hn. intros n Hn IH lo s Hok Hlo Hle. rewrite seqZ_cons by lia. cbn [fold_left].
    destruct (destroy_entry_spec lo s Hok) as (Hok1 & Hb1 & Hn1 & He1); [lia|].
    replace (Z.pred (Z.succ n)) with n by lia.
    destruct (IH (Z.succ lo) _ Hok1) as (Hok2 & Hb2 & Hn2 & He2); [lia|lia|].
    split_and!; [done|congruence|congruence|]. intros j Hj. rewrite He2, He1 by done.
    repeat case_decide; try done; lia.
Qed.

(** The table after the entries behind [i] are gone, the entry [i] was cut to [e'], and
    the number of entries was adjusted. *)
Lemma truncated_get c c3 off :
  index_ok c → 0 ≤ off → (∀ j, off / ES < j → entry j c3 = None) →
  (∀ j, 0 ≤ j < off / ES → entry j c3 = entry j c) →
  (∀ k, 0 ≤ k → match entry (off / ES) c3 with Some e' => get e' k | None => 0 end =
    if k <? off mod ES then match entry (off / ES) c with Some e => get e k | None => 0 end else 0) →
  ∀ k, 0 ≤ k → index_get c3 k = if k <? off then index_get c k else 0.
Proof.
  intros Hok Hoff Hgt Hlt Heq k Hk. pose proof entry_size.
  pose proof (Z.div_mod off ES). pose proof (Z.mod_pos_bound off ES).
  pose proof (Z.div_mod k ES). pose proof (Z.mod_pos_bound k ES).
  unfold index_get. destruct (Z.lt_trichotomy (k / ES) (off / ES)) as [E1|[E1|E1]].
  - assert (0 ≤ k / ES) by (apply Z.div_pos; lia). rewrite Hlt by lia.
    destruct (Z.ltb_spec k off); [done|nia].
  - rewrite E1, Heq by lia.
    destruct (Z.ltb_spec k off), (Z.ltb_spec (k mod ES) (off mod ES)); try done; nia.
  - rewrite Hgt by lia. destruct (Z.ltb_spec k off); [nia|done].
Qed.

(** Releasing the entry at the end of a truncated table. *)
Definition release_empty (i : Z) (s : t * A) : t * A :=
  match entry i s.1 with
  | Some e => if empty e then Chunk_index.set_num i (Chunk_index._destroy_entry i s) else s
  | None => s
  end.

Lemma release_trailing i (s : t * A) :
  index_ok s.1 → 0 ≤ i → num s.1 = i + 1 →
  let s' := release_empty i s in
  index_ok s'.1 ∧ base s'.1 = base s.1 ∧ (∀ k, 0 ≤ k → index_get s'.1 k = index_get s.1 k) ∧
  index_used s'.1 ≤ index_used s.1.
Proof.
  intros Hok Hi Hnm. unfold release_empty. pose proof (index_num _ Hok).
  destruct (entry i s.1) as [e|] eqn:Hg; [|split_and!; done].
  destruct (empty e) eqn:Hemp; [|split_and!; done].
  destruct (index_entry_ok _ Hok i e) as (_ & Hoe & _); [done|done|].
  destruct (destroy_entry_spec i s Hok) as (Hok1 & Hb1 & Hn1 & He1); [lia|].
  assert (∀ j, i ≤ j → entry j (Chunk_index._destroy_entry i s).1 = None) as Hnone.
  { intros j Hj. rewrite He1 by lia. case_decide; [done|]. destruct (entry j s.1) as [x|] eqn:Hx; [|done].
    destruct (index_entry_ok _ Hok j x) as (? & _ & _); [lia|done|lia]. }
  pose proof (set_num_ok i _ (Chunk_index._destroy_entry i s).2 Hok1 ltac:(lia) Hnone) as Hok2.
  split_and!; [done|done| |].
  - intros k Hk. change (index_get (Chunk_index._destroy_entry i s).1 k = index_get s.1 k).
    assert (0 ≤ k / ES) by (pose proof entry_size; apply Z.div_pos; lia).
    unfold index_get. rewrite He1 by done. case_decide as Ek; [|done]. rewrite Ek, Hg.
    symmetry. apply used_law; [done|]. rewrite empty_law by done. apply Z.mod_pos_bound. apply entry_size.
  - pose proof (used_bounds _ Hok2) as [[_ Hu] _]. pose proof (used_bounds _ Hok) as [_ Hl].
    rewrite Hnm in Hl. change (num (Chunk_index.set_num i _).1) with i in Hu.
    change (num (Chunk_index.set_num i (Chunk_index._destroy_entry i s)).1) with i in Hu.
    destruct (Chunk_index._destroy_entry i s). cbn [fst snd] in *. specialize (Hl ltac:(lia)).
    replace (i + 1 - 1) with i in Hl by lia. lia.
Qed.

(** Cutting the entry that contains the new end. *)
Definition cut_entry (i at_ : Z) (s : t * A) : t * A :=
  match entry i s.1 with
  | Some e => let '(_, (e', a')) := truncate at_ (e, s.2) in (Chunk_index.set_entry i (Some e') s.1, a')
  | None => s
  end.

Lemma truncate_eq at_ (c : t) (a : A) :
  index_ok c → base c ≤ at_ < base c + ES * NUM_ENTRIES →
  let i := (at_ - base c) / ES in
  Chunk_index.truncate_bytes at_ (c, a) =
    (Ok tt, if num c <=? i then (c, a)
      else release_empty i (Chunk_index.set_num (i + 1) (cut_entry i at_
        (fold_left (λ s i, Chunk_index._destroy_entry i s) (seqZ (i + 1) (num c - (i + 1))) (c, a))))).
Proof.
  intros Hok Hat i. pose proof (index_num c Hok).
  destruct (index_range at_ 1 c Hok) as (Hix & Hi & _ & Ho & Hm); [unfold inside; lia|lia|].
  unfold Chunk_index.truncate_bytes, get_state, modify, put_state, mbind, exc_bind, mret, exc_ret.
  rewrite Hix. fold i. fold i in Ho, Hi. destruct (Z.leb_spec (num c) i); [done|].
  destruct (destroy_entries_spec (i + 1) (num c - (i + 1)) (c, a)) as (Hok1 & Hb1 & _ & He1); [done|lia..|].
  destruct (fold_left _ _ _) as [c1 a1]. cbn [fst snd] in *.
  unfold cut_entry, Chunk_index.on_entry. cbn [fst snd].
  destruct (entry i c1) as [e|] eqn:Hg.
  - destruct (index_entry_ok c1 Hok1 i e) as (_ & Hoe & Hbe); [lia|done|].
    destruct (truncate_law e a1 at_ Hoe) as (e' & a' & Htr & _); [rewrite Hbe, Hb1; lia|]. rewrite Htr. cbn [fst snd]. rewrite Htr.
    unfold release_empty. cbn [fst snd Chunk_index.set_num].
    match goal with |- context [entry i ?c2] => destruct (entry i c2) as [x|] end; [|done].
    by destruct (empty x).
  - unfold release_empty. cbn [fst snd Chunk_index.set_num].
    match goal with |- context [entry i ?c2] => destruct (entry i c2) as [x|] end; [|done].
    by destruct (empty x).
Qed.

Lemma cut_spec i at_ (c c1 : t) (a1 : A) :
  index_ok c → index_ok c1 → base c1 = base c → base c ≤ at_ < base c + ES * NUM_ENTRIES →
  i = (at_ - base c) / ES → i < num c → num c1 = num c →
  (∀ j, 0 ≤ j → entry j c1 = if decide (i + 1 ≤ j < i + 1 + (num c - (i + 1))) then None else entry j c) →
  let s := Chunk_index.set_num (i + 1) (cut_entry i at_ (c1, a1)) in
  index_ok s.1 ∧ base s.1 = base c ∧ num s.1 = i + 1 ∧
  (∀ k, 0 ≤ k → index_get s.1 k = if k <? at_ - base c then index_get c k else 0) ∧
  index_used s.1 ≤ index_used c ∧ index_used s.1 ≤ at_ - base c.
Proof.
  intros Hok Hok1 Hb1 Hat Ei Hlt Hn1 He1 s. pose proof entry_size. pose proof (index_num c Hok).
  destruct (index_range at_ 1 c Hok) as (_ & Hi & _ & Ho & Hm); [unfold inside; lia|lia|].
  rewrite <- Ei in Hi, Ho. pose proof (used_bounds c Hok) as [_ Hu]. specialize (Hu ltac:(lia)).
  assert (∀ j, i < j → entry j c1 = None) as Hgt.
  { intros j Hj. rewrite He1 by lia. case_decide; [done|]. destruct (entry j c) as [x|] eqn:Hx; [|done].
    destruct (index_entry_ok c Hok j x) as (? & _ & _); [lia|done|lia]. }
  assert (entry i c1 = entry i c) as Hsame by (rewrite He1, decide_False by lia; done).
  assert (∃ c2, (cut_entry i at_ (c1, a1)).1 = c2 ∧ index_ok c2 ∧ base c2 = base c ∧
    (∀ j, 0 ≤ j → j ≠ i → entry j c2 = entry j c1) ∧
    match entry i c with
    | Some e => ∃ e', entry i c2 = Some e' ∧ ok e ∧
        (∀ k, 0 ≤ k → get e' k = if k <? (at_ - base c) mod ES then get e k else 0) ∧
        0 ≤ used_size e' ≤ ES ∧ used_size e' ≤ used_size e ∧ used_size e' ≤ (at_ - base c) mod ES
    | None => entry i c2 = None
    end) as (c2 & Hc2 & Hok2 & Hb2 & Hoth & Hcut).
  { unfold cut_entry. cbn [fst snd]. rewrite Hsame. destruct (entry i c) as [e|] eqn:Hg.
    - destruct (index_entry_ok c1 Hok1 i e) as (Hl & Hoe & Hbe); [lia|congruence|].
      destruct (truncate_law e a1 at_ Hoe) as (e' & a' & -> & Hoe' & Hbe' & Hget & Hu1 & Hu2); [rewrite Hbe, Hb1; lia|].
      exists (Chunk_index.set_entry i (Some e') c1). split; [done|]. split_and!.
      + apply set_entry_ok; [done|done|]. rewrite Hbe'. done.
      + done.
      + intros j Hj Hji. by rewrite get_set_entry, decide_False by (apply Hok1 || done).
      + exists e'. rewrite get_set_entry, decide_True by (apply Hok1 || done || lia).
        assert (at_ - base_offset e = (at_ - base c) mod ES) as Eo by (rewrite Hbe, Hb1; lia).
        rewrite Eo in *. split_and!; try done; apply used_law; done.
    - exists c1. cbn [fst]. rewrite Hsame. done. }
  unfold s. clear s. destruct (cut_entry i at_ (c1, a1)) as [c2' a2]. cbn [fst] in Hc2. subst c2'.
  assert (∀ j, i + 1 ≤ j → entry j c2 = None) as Hgt2 by (intros j Hj; rewrite Hoth by lia; apply Hgt; lia).
  pose proof (set_num_ok (i + 1) c2 a2 Hok2 ltac:(lia) Hgt2) as Hok3.
  split_and!; [done|done|done|..].
  - apply (truncated_get c c2 (at_ - base c)); rewrite <- ?Ei; [done|lia|intros; apply Hgt2; lia|..].
    + intros j Hj. rewrite Hoth, He1, decide_False by lia. done.
    + intros k Hk. destruct (entry i c) as [e|] eqn:Hg; [|rewrite Hcut; by zcases].
      destruct Hcut as (e' & -> & _ & Hget & _). by apply Hget.
  - unfold index_used at 1. cbn [Chunk_index.set_num fst Chunk_index._num_entries].
    destruct (Z.eqb_spec (i + 1) 0); [lia|]. replace (i + 1 - 1) with i by lia.
    change (entry i (Chunk_index.Mk _ _ _)) with (entry i c2).
    destruct (entry i c) as [e|] eqn:Hg.
    + destruct Hcut as (e' & -> & Hoe & _ & ? & ? & ?).
      destruct (decide (num c = i + 1)) as [En|]; [|nia].
      unfold index_used. rewrite En. destruct (Z.eqb_spec (i + 1) 0); [lia|].
      replace (i + 1 - 1) with i by lia. rewrite Hg. lia.
    + rewrite Hcut. nia.
  - unfold index_used at 1. cbn [Chunk_index.set_num fst Chunk_index._num_entries].
    destruct (Z.eqb_spec (i + 1) 0); [lia|]. replace (i + 1 - 1) with i by lia.
    change (entry i (Chunk_index.Mk _ _ _)) with (entry i c2).
    destruct (entry i c) as [e|]; [destruct Hcut as (e' & -> & _ & _ & ? & ? & ?)|rewrite Hcut]; lia.
Qed.

Lemma index_truncate at_ (c : t) (a : A) :
  index_ok c → base c ≤ at_ < base c + ES * NUM_ENTRIES →
  ∃ c' a', Chunk_index.truncate_bytes at_ (c, a) = (Ok tt, (c', a')) ∧
    index_ok c' ∧ base c' = base c ∧
    (∀ k, 0 ≤ k → index_get c' k = if k <? at_ - base c then index_get c k else 0) ∧
    index_used c' ≤ index_used c ∧ index_used c' ≤ at_ - base c.
Proof.
  intros Hok Hat. rewrite truncate_eq by done. pose proof entry_size. pose proof (index_num c Hok).
  destruct (index_range at_ 1 c Hok) as (_ & Hi & _ & Ho & Hm); [unfold inside; lia|lia|].
  set (i := (at_ - base c) / ES) in *. destruct (Z.leb_spec (num c) i).
  - exists c, a. pose proof (used_bounds c Hok) as [? _]. assert (index_used c ≤ at_ - base c) by nia.
    split_and!; try done. intros k Hk. destruct (Z.ltb_spec k (at_ - base c)); [done|].
    apply used_rest; [done|lia].
  - destruct (destroy_entries_spec (i + 1) (num c - (i + 1)) (c, a)) as (Hok1 & Hb1 & Hn1 & He1); [done|lia..|].
    destruct (fold_left _ _ _) as [c1 a1]. cbn [fst snd] in *.
    destruct (cut_spec i at_ c c1 a1) as (Hok2 & Hb2 & Hn2 & Hg2 & Hu2 & Hu2'); try done.
    destruct (release_trailing i _ Hok2) as (Hok3 & Hb3 & Hg3 & Hu3); [lia|done|].
    destruct (release_empty i _) as [c3 a3]. cbn [fst] in *. exists c3, a3.
    split_and!; [done|done|congruence| |lia|lia]. intros k Hk. by rewrite Hg3, Hg2 by done.
Qed.

(** A table is a chunk again. *)
#[local] Instance table_laws : Chunk_laws A t (H0 := table_entry).
Proof.
  refine (Build_Chunk_laws A t _ table_entry index_ok index_get _ _ _ _ _ _ _ _ _);
    cbn [SIZE construct zero_chunk base_offset empty used_size write read truncate table_entry Chunk_index.index_entry];
    unfold Chunk_index.INDEX_SIZE, Chunk_index.ENTRY_SIZE in *.
  - pose proof entry_size. nia.
  - intros e He. apply He.
  - intros b ? ?. destruct (fresh_ok b) as [Hok Hg]; [done..|]. done.
  - done.
  - intros e He. rewrite used_size_value by done. split; [|by intros; apply used_rest].
    pose proof (used_bounds e He) as [? _]. pose proof (index_num e He). pose proof entry_size. nia.
  - intros e He Hn. apply Z.eqb_eq in Hn. rewrite used_size_value by done. unfold index_used. by rewrite Hn.
  - intros. by apply index_read.
  - intros e a src at_ He Hin. pose proof (index_write e src at_ a He Hin) as Hw.
    destruct (Chunk_index.write_bytes _ _ _ _) as [r [e' a']]. destruct Hw as (Hok & Hb & Hr).
    split_and!; [done|done|]. destruct r as [[]|er]; [|done]. destruct Hr as [Hg Hu].
    rewrite !used_size_value by done. unfold used_after in Hu. destruct src; simpl in *; [|split_and!; [done|lia|done]].
    split_and!; [done|lia|done].
  - intros e a at_ He Hat. destruct (index_truncate at_ e a He Hat) as (c' & a' & Ht & Hok & Hb & Hg & Hu & Hu').
    exists c', a'. rewrite !used_size_value by done. done.
Defined.

(** The answer of the range check. *)
Lemma range_check at_ len c :
  index_ok c → 0 ≤ at_ → 0 ≤ len → at_ + len < 2 ^ 64 →
  assert_valid_range (base c) at_ len (Chunk_index.INDEX_SIZE (E := E) NUM_ENTRIES) =
    if decide (inside (base c) (ES * NUM_ENTRIES) at_ len) then Ok tt else Err Index_out_of_range.
Proof.
  intros [[? ?] _ _ _] Hat Hlen Hsum. pose proof entry_size.
  assert (0 < ES * NUM_ENTRIES) by nia.
  unfold Chunk_index.INDEX_SIZE, Chunk_index.ENTRY_SIZE. rewrite valid_range by (done || lia).
  unfold inside. case_decide as Hin; zcases; simpl; try lia; done.
Qed.

(** C25: a table of chunks behaves as one block of zero-initialised bytes.  A read
    within the range returns exactly the bytes of the range, holes as zeros; a write
    within the range leaves exactly the overlay of the written bytes, or throws what the
    allocator reported with every byte either old or new; a truncation zeroes everything
    from the new end on and never reports a used size beyond it; an access outside of
    the range throws [Index_out_of_range] and changes nothing; the loops always end. *)
Theorem chunk_index_contract (c : t) :
  index_ok c →
  (∀ at_ len, 0 ≤ at_ → 0 ≤ len → at_ + len < 2 ^ 64 →
    Chunk_index.read_bytes (A := A) NUM_ENTRIES len at_ c =
      if decide (inside (base c) (ES * NUM_ENTRIES) at_ len)
      then Ok (bytes (index_get c) (at_ - base c) len) else Err Index_out_of_range) ∧
  (∀ src at_ a, 0 ≤ at_ → at_ + Z.of_nat (length src) < 2 ^ 64 →
    let '(r, (c', a')) := Chunk_index.write_bytes NUM_ENTRIES src at_ (c, a) in
    if decide (inside (base c) (ES * NUM_ENTRIES) at_ (Z.of_nat (length src)))
    then written src at_ c r c' else r = Err Index_out_of_range ∧ c' = c ∧ a' = a) ∧
  (∀ at_ a, base c ≤ at_ < base c + ES * NUM_ENTRIES →
    ∃ c' a', Chunk_index.truncate_bytes at_ (c, a) = (Ok tt, (c', a')) ∧
      index_ok c' ∧ base c' = base c ∧
      (∀ k, 0 ≤ k → index_get c' k = if k <? at_ - base c then index_get c k else 0) ∧
      Chunk_index.get_used_size c' ≤ at_ - base c) ∧
  (∀ k, Chunk_index.get_used_size c ≤ k → index_get c k = 0).
Proof.
  intros Hok. split_and!.
  - intros at_ len Hat Hlen Hsum. unfold Chunk_index.read_bytes. rewrite range_check by done.
    case_decide as Hin; [|done]. rewrite <- (index_read c at_ len Hok Hin).
    unfold Chunk_index.read_bytes. by rewrite range_check, decide_True by done.
  - intros src at_ a Hat Hsum. destruct (decide (inside _ _ _ _)) as [Hin|Hout].
    + by apply index_write.
    + unfold Chunk_index.write_bytes, check, get_state, mbind, exc_bind.
      by rewrite range_check, decide_False by (done || lia).
  - intros at_ a Hat. destruct (index_truncate at_ c a Hok Hat) as (c' & a' & Ht & Hok' & Hb & Hg & _ & Hu).
    exists c', a'. by rewrite used_size_value by done.
  - intros k Hk. rewrite used_size_value in Hk by done. by apply used_rest.
Qed.

End Index.

(** An allocator that counts down, and a table of tables of blocks. *)
#[local] Instance counter_allocator : Allocator nat := {
  alloc n := match n with O => Err OUT_OF_RAM | S n => Ok n end;
  free := S }.

#[local] Instance block_laws : Chunk_laws nat Chunk.t (H0 := leaf_entry 4) := leaf_laws 4 ltac:(lia).
#[local] Instance inner_laws : Chunk_laws nat (Chunk_index.t Chunk.t) (H0 := table_entry (E := Chunk.t) (H0 := leaf_entry 4) 3) :=
  table_laws (CL := block_laws) 3 ltac:(lia) ltac:(by vm_compute).

Theorem chunk_index_contract_witness :
  let c := Chunk_index.new 2 0 in
  index_ok (H0 := table_entry (H0 := leaf_entry 4) 3) (CL := inner_laws) 2 c ∧
  ∀ k, Chunk_index.get_used_size (H0 := table_entry (H0 := leaf_entry 4) 3) c ≤ k →
    index_get (CL := inner_laws) c k = 0.
Proof.
  set (E := table_entry (H0 := leaf_entry 4) 3).
  assert (index_ok (H0 := E) (CL := inner_laws) 2 (Chunk_index.new 2 0)) as Hok.
  { apply fresh_ok; first [lia | by vm_compute]. }
  split; [exact Hok|].
  apply (chunk_index_contract (CL := inner_laws) 2 ltac:(lia) ltac:(by vm_compute) _ Hok).
Defined.

(** Writing over the border of two blocks, reading back with a hole around it, and
    running out of memory in the middle. *)
Example write_read_example :
  let E := table_entry (H0 := leaf_entry 4) 3 in
  let w n := Chunk_index.write_bytes (H0 := E) 2 [7; 8; 9] 10 (Chunk_index.new 2 0, n) in
  match w 4%nat with
  | (Ok _, (c, n)) => Chunk_index.read_bytes (A := nat) (H0 := E) 2 6 8 c = Ok [0; 0; 7; 8; 9; 0] ∧ n = 0%nat
  | _ => False
  end ∧ (w 3%nat).1 = Err Out_of_memory.
Proof. vm_compute. done. Qed.
