(* ===== verification/Avl_tree.v ===== *)
(** * Avl_tree: the AVL tree of the framework

    Model of [src/repos/base/include/util/avl_tree.h] and
    [src/repos/base/src/lib/base/avl_tree.cc].  The nodes of the C++ tree are linked by
    pointers to children and parent; here a subtree is a value and the chain of parents
    is the path of the recursion, so that the recomputation of depths towards the root
    happens on the way back.  Each node stores its depth as the code does, in one byte.
    The stale depth that [remove] leaves in a removed node is a result of the model, and
    [insert] takes the depth that the new node carries.  The recompute hook of the
    policy, a no-op unless overridden, is not modelled. *)

From S2P Require Import Prelude.
From Stdlib Require Import Sorted.
From stdpp Require Import sorting.

Open Scope Z_scope.

Abbreviation Side := bool.
Definition LEFT : Side := false.
Definition RIGHT : Side := true.

Inductive tree (A : Type) := Null | Node (_child0 : tree A) (x : A) (_depth : Z) (_child1 : tree A).
Arguments Null {A}.
Arguments Node {A} _ _ _ _.

Section Operations.
Context {A : Type}.
Implicit Types t n : tree A.

Definition _child (i : Side) n : tree A :=
  match n with Null => Null | Node l _ _ r => if i then r else l end.

Definition set_child (i : Side) n c : tree A :=
  match n with Null => Null | Node l x d r => if i then Node l x d c else Node c x d r end.

Definition depth t : Z := match t with Null => 0 | Node _ _ d _ => d end.

Definition _child_depth (i : Side) n : Z := depth (_child i n).

Definition _recompute_depth n : tree A :=
  match n with
  | Null => Null
  | Node l x _ r => Node l x (u8 (Z.max (_child_depth LEFT n) (_child_depth RIGHT n) + 1)) r
  end.

Definition _bias n : Side := _child_depth LEFT n <? _child_depth RIGHT n.

Definition _adopt n (i : Side) c : tree A := _recompute_depth (set_child i n c).

Definition is_null t : bool := match t with Null => true | _ => false end.

(** The subtree that takes the place of [node]. *)
Definition _rotate_subtree (node : tree A) (side : Side) : tree A :=
  let node_r := _child (negb side) node in
  if is_null node_r then node
  else
    let node_r_l := _child side node_r in
    if bool_decide (_bias node_r = negb side) then
      _adopt node_r side (_adopt node (negb side) node_r_l)
    else if negb (is_null node_r_l) then
      let node_r_l_l := _child side node_r_l in
      let node_r_l_r := _child (negb side) node_r_l in
      let node := _adopt node (negb side) node_r_l_l in
      let node_r := _adopt node_r side node_r_l_r in
      _adopt (_adopt node_r_l side node) (negb side) node_r
    else node.

Definition _rebalance_subtree (node : tree A) : tree A :=
  let v := _child_depth RIGHT node - _child_depth LEFT node in
  if Z.abs v <? 2 then node else _rotate_subtree node (v <? 0).

Section Ordered.
Context `{EqDecision A} (higher : A → A → bool).

(** [Avl_node_base::insert]: [x] is the new node and [d] the depth stored in it. *)
Fixpoint insert_node (x : A) (d : Z) (this : tree A) : tree A :=
  match this with
  | Null => Node Null x d Null
  | Node l y dy r =>
      if decide (x = y) then this
      else
        _rebalance_subtree (_recompute_depth
          (if higher y x then Node l y dy (insert_node x d r) else Node (insert_node x d l) y dy r))
  end.

(** The right-most node of a subtree, and the subtree without it; [balance] tells
    whether the walk towards the root has rebalanced the nodes. *)
Fixpoint isolate (balance : bool) (l : tree A) : option (tree A * A) :=
  match l with
  | Null => None
  | Node ll x d lr =>
      match isolate balance lr with
      | None => Some (ll, x)
      | Some (lr', m) =>
          let n := _adopt l RIGHT lr' in
          Some (if balance then _rebalance_subtree n else n, m)
      end
  end.

(** What takes the place of the removed node, whether the walk towards the root
    rebalances ([lp]), and the depth that stays in the removed node. *)
Definition exchange (this : tree A) : tree A * bool * Z :=
  match this with
  | Null => (Null, false, 0)
  | Node l _ d r =>
      match l with
      | Null => (r, false, d)
      | Node ll m dm Null => (_adopt (_adopt l LEFT ll) RIGHT r, false, depth (_adopt this LEFT ll))
      | Node ll y dl lr =>
          match isolate true l, isolate false l with
          | Some (l', m), Some (l0, _) =>
              (_rebalance_subtree (_adopt (_adopt (Node Null m 1 Null) LEFT l') RIGHT r), true,
                depth (_adopt this LEFT l0))
          | _, _ => (this, false, d)
          end
      end
  end.

(** [Avl_node_base::remove] of the node [x], reached by its address; [None] if it is
    not in the tree. *)
Fixpoint remove_node (x : A) (this : tree A) : option (tree A * bool * Z) :=
  match this with
  | Null => None
  | Node l y d r =>
      if decide (x = y) then Some (exchange this)
      else
        let up i '(c, lp, dx) :=
          let n := _adopt this i c in (if lp : bool then _rebalance_subtree n else n, lp, dx) in
        match remove_node x l with
        | Some res => Some (up LEFT res)
        | None => up RIGHT <$> remove_node x r
        end
  end.

(** [Avl_tree] *)
Definition insert (x : A) (d : Z) (t : tree A) : tree A := insert_node x d t.

Definition remove (x : A) (t : tree A) : option (tree A * Z) :=
  match remove_node x t with Some (t', _, dx) => Some (t', dx) | None => None end.

End Ordered.

Definition first (t : tree A) : option A := match t with Null => None | Node _ x _ _ => Some x end.

Fixpoint for_each {S} (functor : A → S → S) (t : tree A) (s : S) : S :=
  match t with
  | Null => s
  | Node l x _ r => for_each functor r (functor x (for_each functor l s))
  end.

(** The nodes in order. *)
Fixpoint elements (t : tree A) : list A :=
  match t with Null => [] | Node l x _ r => elements l ++ x :: elements r end.

Fixpoint height (t : tree A) : Z :=
  match t with Null => 0 | Node l _ _ r => Z.max (height l) (height r) + 1 end.

(** The stored depths are the heights. *)
Fixpoint depth_ok (t : tree A) : Prop :=
  match t with Null => True | Node l _ d r => depth_ok l ∧ depth_ok r ∧ d = height t end.

Fixpoint balanced (t : tree A) : Prop :=
  match t with Null => True | Node l _ _ r => balanced l ∧ balanced r ∧ Z.abs (height r - height l) ≤ 1 end.

End Operations.

(** ** Order *)

Section Order.
Context {A : Type}.
Implicit Types t n : tree A.

Lemma elements_adopt n i c :
  elements (_adopt n i c) = elements (set_child i n c).
Proof. by destruct n, i. Qed.

Lemma for_each_elements {S} (f : A → S → S) t s :
  for_each f t s = fold_left (λ s x, f x s) (elements t) s.
Proof.
  revert s. induction t as [|l IHl x d r IHr]; intros s; [done|].
  simpl. by rewrite fold_left_app, IHl, IHr.
Qed.

Lemma elements_rotate n side : elements (_rotate_subtree n side) = elements n.
Proof.
  destruct n as [|l x d r]; [by destruct side|].
  destruct side; unfold _rotate_subtree; cbn [_child negb].
  - destruct l as [|ll lx ld lr]; [done|]. cbn [is_null]. case_bool_decide.
    + simpl. by rewrite <- app_assoc.
    + destruct lr; simpl; [done|]. by rewrite <- !app_assoc; simpl; rewrite <- app_assoc.
  - destruct r as [|rl rx rd rr]; [done|]. cbn [is_null]. case_bool_decide.
    + simpl. by rewrite <- app_assoc.
    + destruct rl; simpl; [done|]. by rewrite <- !app_assoc; simpl; rewrite <- ?app_assoc.
Qed.

Lemma elements_rebalance n : elements (_rebalance_subtree n) = elements n.
Proof. unfold _rebalance_subtree. case_match; [done|apply elements_rotate]. Qed.

Lemma elements_recompute n : elements (_recompute_depth n) = elements n.
Proof. by destruct n. Qed.

Lemma isolate_elements b t :
  match isolate b t with Some (t', m) => elements t = elements t' ++ [m] | None => t = Null end.
Proof.
  induction t as [|l _ x d r IHr]; [done|]. cbn [isolate]. destruct (isolate b r) as [[r' m]|].
  - assert (elements (Node l x d r) = elements (_adopt (Node l x d r) RIGHT r') ++ [m]) as Heq.
    { rewrite elements_adopt. simpl. rewrite IHr. by rewrite <- app_assoc. }
    destruct b; [|done]. by rewrite elements_rebalance.
  - by subst r.
Qed.

Lemma exchange_elements (l r : tree A) x d : elements (exchange (Node l x d r)).1.1 = elements l ++ elements r.
Proof.
  destruct l as [|ll lx ld lr]; [done|]. cbn [exchange]. destruct lr as [|lrl lrx lrd lrr].
  - simpl. by rewrite <- app_assoc.
  - set (n := Node ll lx ld (Node lrl lrx lrd lrr)).
    pose proof (isolate_elements true n) as Ht. pose proof (isolate_elements false n) as Hf.
    destruct (isolate true n) as [[l' m]|]; [|done]. destruct (isolate false n) as [[l0 m0]|]; [|done].
    cbn [fst]. rewrite elements_rebalance, !elements_adopt. rewrite Ht. simpl. by rewrite <- app_assoc.
Qed.

Context `{EqDecision A}.

Lemma remove_node_elements x t :
  match remove_node x t with
  | Some (t', _, _) => ∃ k1 k2, elements t = k1 ++ x :: k2 ∧ elements t' = k1 ++ k2
  | None => x ∉ elements t
  end.
Proof.
  induction t as [|l IHl y d r IHr]; [set_solver|]. cbn [remove_node elements]. case_decide as Hxy.
  - subst y. pose proof (exchange_elements l r x d) as He.
    destruct (exchange (Node l x d r)) as [[t' lp] dx]. cbn [fst] in He. eauto.
  - assert (∀ i c (b : bool), elements (if b then _rebalance_subtree (_adopt (Node l y d r) i c)
      else _adopt (Node l y d r) i c) = elements (set_child i (Node l y d r) c)) as Hup.
    { intros i c [|]; by rewrite ?elements_rebalance, elements_adopt. }
    destruct (remove_node x l) as [[[l' lp] dx]|].
    + destruct IHl as (k1 & k2 & E1 & E2). exists k1, (k2 ++ y :: elements r).
      rewrite Hup. simpl. rewrite E1, E2. by rewrite <- !app_assoc.
    + destruct (remove_node x r) as [[[r' lp] dx]|]; simpl.
      * destruct IHr as (k1 & k2 & E1 & E2). exists (elements l ++ y :: k1), k2.
        rewrite Hup. simpl. rewrite E1, E2. by rewrite <- !app_assoc.
      * set_solver.
Qed.

Context (higher : A → A → bool).

Lemma insert_node_elements x d t : x ∉ elements t →
  ∃ k1 k2, elements t = k1 ++ k2 ∧ elements (insert_node higher x d t) = k1 ++ x :: k2.
Proof.
  induction t as [|l IHl y dy r IHr]; intros Hx; [by exists [], []|].
  cbn [insert_node elements] in *. rewrite decide_False by set_solver.
  rewrite elements_rebalance, elements_recompute. destruct (higher y x).
  - destruct IHr as (k1 & k2 & E1 & E2); [set_solver|]. exists (elements l ++ y :: k1), k2. simpl.
    rewrite E1, E2. by rewrite <- !app_assoc.
  - destruct IHl as (k1 & k2 & E1 & E2); [set_solver|]. exists k1, (k2 ++ y :: elements r). simpl.
    rewrite E1, E2. by rewrite <- !app_assoc.
Qed.

(** Only the comparisons with the new node matter. *)
Lemma insert_node_ext (higher' : A → A → bool) x d t :
  (∀ y, y ∈ elements t → higher y x = higher' y x) → insert_node higher x d t = insert_node higher' x d t.
Proof.
  induction t as [|l IHl y dy r IHr]; intros Hext; [done|]. cbn [insert_node elements] in *.
  rewrite (Hext y), IHl, IHr by set_solver. done.
Qed.

(** The order of the tree. *)
Definition ordered t : Prop := StronglySorted (λ a b, higher a b = true) (elements t).

Class Tree_order : Prop := {
  higher_total x y : higher x y = false → higher y x = true;
  higher_trans x y z : higher x y = true → higher y z = true → higher x z = true }.

Context `{Tree_order}.

(** The new node goes behind all nodes that are lower or equal. *)
Lemma insert_node_position x d t : x ∉ elements t → ordered t →
  ∃ k1 k2, elements t = k1 ++ k2 ∧ elements (insert_node higher x d t) = k1 ++ x :: k2 ∧
    Forall (λ y, higher y x = true) k1 ∧ Forall (λ y, higher y x = false) k2.
Proof.
  unfold ordered. induction t as [|l IHl y dy r IHr]; intros Hx Hs; [by exists [], []|].
  cbn [insert_node elements] in *. rewrite decide_False by set_solver.
  rewrite elements_rebalance, elements_recompute.
  apply StronglySorted_app in Hs as (Hlr & Hl & Hr). apply StronglySorted_inv in Hr as [Hr Hy].
  rewrite Forall_forall in Hy. destruct (higher y x) eqn:Hyx.
  - destruct IHr as (k1 & k2 & E1 & E2 & F1 & F2); [set_solver|done|]. exists (elements l ++ y :: k1), k2. simpl.
    rewrite E1, E2. split_and!; [by rewrite <- !app_assoc..| |done].
    apply Forall_app. split; [|by constructor]. apply Forall_forall. intros z Hz.
    apply (higher_trans z y x); [|done]. apply Hlr; [done|constructor].
  - destruct IHl as (k1 & k2 & E1 & E2 & F1 & F2); [set_solver|done|]. exists k1, (k2 ++ y :: elements r). simpl.
    rewrite E1, E2. split_and!; [by rewrite <- !app_assoc..|done|].
    apply Forall_app. split; [done|]. constructor; [done|]. apply Forall_forall. intros z Hz.
    destruct (higher z x) eqn:Hzx; [|done]. rewrite <- Hyx. symmetry. apply (higher_trans y z x); auto.
Qed.

Lemma ordered_insert x k1 k2 :
  Forall (λ y, higher y x = true) k1 → Forall (λ y, higher y x = false) k2 →
  StronglySorted (λ a b, higher a b = true) (k1 ++ k2) →
  StronglySorted (λ a b, higher a b = true) (k1 ++ x :: k2).
Proof.
  intros F1 F2 Hs. rewrite Forall_forall in F1, F2. apply StronglySorted_app in Hs as (H12 & H1 & H2).
  apply StronglySorted_app. split_and!; [|done|].
  - intros a b Ha Hb. apply elem_of_cons in Hb as [->|Hb]; auto.
  - constructor; [done|]. apply Forall_forall. intros b Hb. apply higher_total. auto.
Qed.

Lemma ordered_delete x k1 k2 :
  StronglySorted (λ a b, higher a b = true) (k1 ++ x :: k2) →
  StronglySorted (λ a b, higher a b = true) (k1 ++ k2).
Proof.
  intros Hs. apply StronglySorted_app in Hs as (H12 & H1 & H2). apply StronglySorted_inv in H2 as [H2 _].
  apply StronglySorted_app. split_and!; [|done|done]. intros a b Ha Hb. apply H12; [done|by constructor].
Qed.

End Order.

(** ** Depth and balance *)

Section Balance.
Context {A : Type}.
Implicit Types t n l r : tree A.

(** A node whose depth was recomputed. *)
Definition mk l (x : A) r : tree A := _recompute_depth (Node l x 0 r).

Lemma height_nonneg t : 0 ≤ height t.
Proof. induction t; simpl; lia. Qed.

Lemma depth_height t : depth_ok t → depth t = height t.
Proof. destruct t; [done|]. by intros (_ & _ & ->). Qed.

Lemma mk_ok l x r : depth_ok l → depth_ok r → Z.max (height l) (height r) < 255 → depth_ok (mk l x r).
Proof.
  intros Hl Hr Hh. simpl. split_and!; [done|done|]. unfold _child_depth; simpl.
  rewrite !depth_height by done. pose proof (height_nonneg l). pose proof (height_nonneg r).
  apply wrap_small. word_lia.
Qed.

Lemma rotate_left l x d rl rx rd rr :
  _rotate_subtree (Node l x d (Node rl rx rd rr)) LEFT =
    if depth rl <? depth rr then mk (mk l x rl) rx rr
    else match rl with
         | Null => Node l x d (Node rl rx rd rr)
         | Node rll rlx _ rlr => mk (mk l x rll) rlx (mk rlr rx rr)
         end.
Proof.
  unfold _rotate_subtree, _bias, _child_depth. cbn [_child negb is_null LEFT RIGHT].
  destruct (depth rl <? depth rr); [by rewrite bool_decide_true|]. rewrite bool_decide_false by done. by destruct rl.
Qed.

Lemma rotate_right ll lx ld lr x d r :
  _rotate_subtree (Node (Node ll lx ld lr) x d r) RIGHT =
    if depth ll <? depth lr then
      match lr with
      | Null => Node (Node ll lx ld lr) x d r
      | Node lrl lrx _ lrr => mk (mk ll lx lrl) lrx (mk lrr x r)
      end
    else mk ll lx (mk lr x r).
Proof.
  unfold _rotate_subtree, _bias, _child_depth. cbn [_child negb is_null LEFT RIGHT].
  destruct (depth ll <? depth lr); [|by rewrite bool_decide_true]. rewrite bool_decide_false by done. by destruct lr.
Qed.

(** Rebalancing keeps the depths right and makes no subtree higher. *)
Lemma rebalance_depth l x r :
  depth_ok l → depth_ok r → Z.max (height l) (height r) < 255 →
  depth_ok (_rebalance_subtree (mk l x r)) ∧ height (_rebalance_subtree (mk l x r)) ≤ Z.max (height l) (height r) + 1.
Proof.
  intros Hl Hr Hh. pose proof (mk_ok l x r Hl Hr Hh) as Hmk.
  unfold _rebalance_subtree. unfold _child_depth. cbn [_child mk _recompute_depth LEFT RIGHT].
  rewrite !depth_height by done. destruct (Z.ltb_spec (Z.abs (height r - height l)) 2); [done|].
  destruct (Z.ltb_spec (height r - height l) 0).
  - destruct l as [|ll lx ld lr]; [pose proof (height_nonneg r); simpl in *; lia|].
    rewrite rotate_right. destruct Hl as (Hll & Hlr & Hd). simpl in Hd, Hh, H, H0.
    rewrite !depth_height by done. destruct (Z.ltb_spec (height ll) (height lr)).
    + destruct lr as [|lrl lrx lrd lrr]; [pose proof (height_nonneg ll); simpl in *; lia|].
      destruct Hlr as (? & ? & ?). simpl in Hh, H, H0, H1. split; [|simpl; lia].
      repeat apply mk_ok; simpl; done || lia.
    + split; [|simpl; lia]. repeat apply mk_ok; simpl; done || lia.
  - destruct r as [|rl rx rd rr]; [pose proof (height_nonneg l); simpl in *; lia|].
    rewrite rotate_left. destruct Hr as (Hrl & Hrr & Hd). simpl in Hd, Hh, H, H0.
    rewrite !depth_height by done. destruct (Z.ltb_spec (height rl) (height rr)).
    + split; [|simpl; lia]. repeat apply mk_ok; simpl; done || lia.
    + destruct rl as [|rll rlx rld rlr].
      * pose proof (height_nonneg l). pose proof (height_nonneg rr). simpl in *. lia.
      * destruct Hrl as (? & ? & ?). simpl in Hh, H, H0, H1. split; [|simpl; lia].
        repeat apply mk_ok; simpl; done || lia.
Qed.

(** The higher subtree of a node that is to be rebalanced leans to one side. *)
Definition leans t : Prop := match t with Null => True | Node l _ _ r => height l ≠ height r end.

Lemma rebalance_balanced l x r :
  depth_ok l → depth_ok r → balanced l → balanced r → Z.abs (height r - height l) ≤ 2 →
  (height r = height l + 2 → leans r) → (height l = height r + 2 → leans l) →
  balanced (_rebalance_subtree (mk l x r)) ∧
  (Z.abs (height r - height l) ≤ 1 → _rebalance_subtree (mk l x r) = mk l x r) ∧
  (Z.abs (height r - height l) = 2 → height (_rebalance_subtree (mk l x r)) = Z.max (height l) (height r)).
Proof.
  intros Hl Hr Bl Br Hd Lr Ll. unfold _rebalance_subtree, _child_depth. cbn [_child mk _recompute_depth LEFT RIGHT].
  rewrite !depth_height by done. destruct (Z.ltb_spec (Z.abs (height r - height l)) 2).
  { simpl. split_and!; [done|done|lia|done|lia]. }
  destruct (Z.ltb_spec (height r - height l) 0).
  - destruct l as [|ll lx ld lr]; [pose proof (height_nonneg r); simpl in *; lia|].
    rewrite rotate_right. destruct Hl as (Hll & Hlr & _). destruct Bl as (? & ? & ?). simpl in Hd, H, H0, Ll.
    rewrite !depth_height by done. destruct (Z.ltb_spec (height ll) (height lr)).
    + destruct lr as [|lrl lrx lrd lrr]; [pose proof (height_nonneg ll); simpl in *; lia|].
      simpl in *. destruct H2 as (? & ? & ?). split_and!; try done; lia.
    + simpl in *. split_and!; try done; lia.
  - destruct r as [|rl rx rd rr]; [pose proof (height_nonneg l); simpl in *; lia|].
    rewrite rotate_left. destruct Hr as (Hrl & Hrr & _). destruct Br as (? & ? & ?). simpl in Hd, H, H0, Lr.
    rewrite !depth_height by done. destruct (Z.ltb_spec (height rl) (height rr)).
    + simpl in *. split_and!; try done; lia.
    + destruct rl as [|rll rlx rld rlr].
      * pose proof (height_nonneg l). pose proof (height_nonneg rr). simpl in *. lia.
      * simpl in *. destruct H1 as (? & ? & ?). split_and!; try done; lia.
Qed.

End Balance.

Section Invariants.
Context {A : Type} `{EqDecision A} (higher : A → A → bool).
Implicit Types t l r : tree A.

Lemma insert_node_balanced x t :
  depth_ok t → balanced t → height t < 255 →
  let t' := insert_node higher x 1 t in
  depth_ok t' ∧ balanced t' ∧ height t ≤ height t' ≤ height t + 1 ∧
  (height t' = height t + 1 → t = Null ∨ leans t').
Proof.
  induction t as [|l IHl y d r IHr]; intros Hok Hb Hh; [simpl; split_and!; auto; lia|].
  cbn [insert_node]. case_decide; [split_and!; try done; lia|].
  destruct Hok as (Hl & Hr & _), Hb as (Bl & Br & Bd). cbn [height] in Hh.
  destruct IHl as (Ol & Bl' & Gl & Ll); [done|done|lia|].
  destruct IHr as (Or & Br' & Gr & Lr); [done|done|lia|].
  set (l' := insert_node higher x 1 l) in *. set (r' := insert_node higher x 1 r) in *.
  assert (∀ a b, depth_ok a → depth_ok b → balanced a → balanced b →
    Z.max (height a) (height b) < 255 →
    Z.max (height l) (height r) ≤ Z.max (height a) (height b) ≤ Z.max (height l) (height r) + 1 →
    Z.abs (height b - height a) ≤ 2 → (height b = height a + 2 → leans b) → (height a = height b + 2 → leans a) →
    (Z.abs (height b - height a) = 2 → Z.max (height a) (height b) = Z.max (height l) (height r) + 1) →
    (Z.max (height a) (height b) = Z.max (height l) (height r) + 1 → height a ≠ height b) →
    let t' := _rebalance_subtree (mk a y b) in
    depth_ok t' ∧ balanced t' ∧ height (Node l y d r) ≤ height t' ≤ height (Node l y d r) + 1 ∧
    (height t' = height (Node l y d r) + 1 → Node l y d r = Null ∨ leans t')) as Hfin.
  { intros a b Ha Hb' Ba Bb Hm Hgrow Hd Lb La Hmax Hne t'.
    destruct (rebalance_depth a y b Ha Hb' Hm) as [Hdep _].
    destruct (rebalance_balanced a y b Ha Hb' Ba Bb Hd Lb La) as (Hbal & Hsame & Hrot).
    split_and!; [done|done| | |].
    1-2: destruct (decide (Z.abs (height b - height a) ≤ 1)) as [Hle|Hgt];
      [unfold t'; rewrite (Hsame Hle); simpl; lia|unfold t'; rewrite Hrot by lia; simpl; lia].
    intros Hg. right. destruct (decide (Z.abs (height b - height a) ≤ 1)) as [Hle|Hgt].
    - unfold t' in *. rewrite (Hsame Hle) in *. simpl in *. apply Hne. lia.
    - unfold t' in Hg. rewrite Hrot in Hg by lia. simpl in Hg. lia. }
  pose proof (height_nonneg l). pose proof (height_nonneg r).
  destruct (higher y x).
  - apply (Hfin l r'); try done; try lia.
    intros Hlr. destruct Lr as [Hn|]; [lia| |done]. subst r. simpl in *. lia.
  - apply (Hfin l' r); try done; try lia.
    intros Hlr. destruct Ll as [Hn|]; [lia| |done]. subst l. simpl in *. lia.
Qed.

Lemma isolate_depth b t :
  depth_ok t → height t ≤ 255 →
  match isolate b t with Some (t', _) => depth_ok t' ∧ height t' ≤ height t | None => True end.
Proof.
  induction t as [|l _ x d r IHr]; intros Hok Hh; [done|]. destruct Hok as (Hl & Hr & _). cbn [isolate height] in *.
  pose proof (height_nonneg r). specialize (IHr Hr ltac:(lia)).
  destruct (isolate b r) as [[r' m]|]; [|split; [done|lia]]. destruct IHr as [Hr' Hle].
  change (_adopt (Node l x d r) RIGHT r') with (mk l x r').
  destruct (rebalance_depth l x r' Hl Hr') as [? ?]; [lia|].
  destruct b; [split; [done|lia]|]. split; [apply mk_ok; done || lia|simpl; lia].
Qed.

Lemma exchange_depth l x d r :
  depth_ok l → depth_ok r → Z.max (height l) (height r) < 255 →
  let t' := (exchange (Node l x d r)).1.1 in depth_ok t' ∧ height t' ≤ Z.max (height l) (height r) + 1.
Proof.
  intros Hl Hr Hh. destruct l as [|ll m dm lr]; [simpl; pose proof (height_nonneg r); split; [done|lia]|].
  cbn [exchange]. destruct lr as [|lrl lrx lrd lrr].
  - destruct Hl as (? & ? & ?). cbn [fst]. pose proof (height_nonneg ll). simpl in Hh.
    change (_adopt (_adopt _ LEFT ll) RIGHT r) with (mk ll m r). simpl in *.
    split; [apply mk_ok; done || lia|lia].
  - set (n := Node ll m dm (Node lrl lrx lrd lrr)) in *.
    pose proof (isolate_depth true n Hl ltac:(lia)) as Hi.
    pose proof (isolate_elements true n) as Ht. pose proof (isolate_elements false n) as Hf.
    destruct (isolate true n) as [[l' x']|]; [|done].
    destruct (isolate false n) as [[l0 x0]|]; [|done]. destruct Hi as [Hl' Hle].
    cbn [fst]. change (_adopt (_adopt (Node Null x' 1 Null) LEFT l') RIGHT r) with (mk l' x' r).
    destruct (rebalance_depth l' x' r Hl' Hr) as [? ?]; [lia|]. split; [done|lia].
Qed.

Lemma remove_node_depth x t :
  depth_ok t → height t ≤ 255 →
  match remove_node x t with Some (t', _, _) => depth_ok t' ∧ height t' ≤ height t | None => True end.
Proof.
  induction t as [|l IHl y d r IHr]; intros Hok Hh; [done|]. destruct Hok as (Hl & Hr & Hd). cbn [remove_node height] in *.
  pose proof (height_nonneg l). pose proof (height_nonneg r). case_decide.
  - destruct (exchange_depth l y d r Hl Hr) as [? ?]; [lia|].
    by destruct (exchange (Node l y d r)) as [[t' lp] dx].
  - assert (∀ (b : bool) i c l' r', set_child i (Node l y d r) c = Node l' y d r' → depth_ok l' → depth_ok r' →
      height l' ≤ height l → height r' ≤ height r →
      let t' := if b then _rebalance_subtree (_adopt (Node l y d r) i c) else _adopt (Node l y d r) i c in
      depth_ok t' ∧ height t' ≤ Z.max (height l) (height r) + 1) as Hup.
    { intros b i c l' r' Hset Hl' Hr' ? ?. unfold _adopt. rewrite Hset. change (_recompute_depth _) with (mk l' y r').
      destruct (rebalance_depth l' y r' Hl' Hr') as [? ?]; [lia|].
      destruct b; [split; [done|lia]|]. split; [apply mk_ok; done || lia|simpl; lia]. }
    specialize (IHl Hl ltac:(lia)). specialize (IHr Hr ltac:(lia)).
    destruct (remove_node x l) as [[[l' lp] dx]|].
    + destruct IHl. by apply (Hup lp LEFT l' l' r).
    + destruct (remove_node x r) as [[[r' lp] dx]|]; simpl; [|done].
      destruct IHr. by apply (Hup lp RIGHT r' l r').
Qed.

Definition size t : Z := Z.of_nat (length (elements t)).

Lemma size_node l x d r : size (Node l x d r) = size l + size r + 1.
Proof. unfold size. simpl. rewrite length_app. simpl. lia. Qed.

(** A balanced tree of [n] nodes is at most [2 log2 (n + 1)] high. *)
Lemma balanced_height t : balanced t → 2 ^ height t ≤ (size t + 1) ^ 2.
Proof.
  induction t as [|l IHl x d r IHr]; [done|]. intros (Bl & Br & Bd). rewrite size_node. cbn [height].
  specialize (IHl Bl). specialize (IHr Br). pose proof (height_nonneg l). pose proof (height_nonneg r).
  assert (0 ≤ size l ∧ 0 ≤ size r) as [? ?] by (unfold size; lia).
  rewrite Z.pow_add_r by lia. change (2 ^ 1) with 2.
  assert (∀ h a b, 0 ≤ h → 0 ≤ a → 0 ≤ b → 2 ^ (h + 1) ≤ (a + 1) ^ 2 → 2 ^ h ≤ (b + 1) ^ 2 →
    2 ^ (h + 1) * 2 ≤ (a + b + 1 + 1) ^ 2) as Hstep.
  { intros h a b Hh Ha Hb P1 P2. rewrite Z.pow_add_r in * by lia. change (2 ^ 1) with 2 in *.
    rewrite !Z.pow_2_r in *. destruct (decide (a ≤ b)); nia. }
  destruct (Z.lt_trichotomy (height l) (height r)) as [E|[E|E]].
  - rewrite Z.max_r by lia. assert (height r = height l + 1) as Er by lia. rewrite Er in *.
    replace (size l + size r + 1 + 1) with (size r + size l + 1 + 1) by lia. by apply Hstep.
  - rewrite E, Z.max_r by lia. rewrite E in IHl. rewrite !Z.pow_2_r in *.
    assert (2 ^ height r * 2 ≤ (size l + 1) * (size l + 1) + (size r + 1) * (size r + 1)) by lia. nia.
  - rewrite Z.max_l by lia. assert (height l = height r + 1) as El by lia. rewrite El in *.
    by apply Hstep.
Qed.

End Invariants.

(** ** The contract *)

Section Contract.
Context {A : Type} `{EqDecision A} (higher : A → A → bool).

(** The operations of a client on a tree; a new node carries some stored depth. *)
Inductive operation := Insert (x : A) (d : Z) | Remove (x : A).

Definition run (o : operation) (t : tree A) : option (tree A) :=
  match o with
  | Insert x d => Some (insert higher x d t)
  | Remove x => fst <$> remove x t
  end.

(** The same on the sequence of the nodes: a new node goes behind all nodes that are
    lower or equal. *)
Definition place (x : A) (l : list A) : list A :=
  filter (λ y, higher y x = true) l ++ x :: filter (λ y, higher y x = false) l.

Definition run_seq (o : operation) (l : list A) : list A :=
  match o with Insert x _ => place x l | Remove x => filter (.≠ x) l end.

(** A node is inserted when it is in no tree and removed when it is in the tree. *)
Definition admissible (o : operation) (l : list A) : Prop :=
  match o with Insert x _ => x ∉ l | Remove x => x ∈ l end.

Fixpoint runs (os : list operation) (t : tree A) : option (tree A) :=
  match os with [] => Some t | o :: os => t ← run o t; runs os t end.

Fixpoint runs_seq (os : list operation) (l : list A) : list A :=
  match os with [] => l | o :: os => runs_seq os (run_seq o l) end.

Fixpoint admissible_all (os : list operation) (l : list A) : Prop :=
  match os with [] => True | o :: os => admissible o l ∧ admissible_all os (run_seq o l) end.

#[export] Instance admissible_dec o l : Decision (admissible o l).
Proof. destruct o; simpl; apply _. Defined.

#[export] Instance admissible_all_dec os l : Decision (admissible_all os l).
Proof. revert l. induction os; intros l; simpl; apply _. Defined.

Context `{Tree_order A higher}.

Lemma filter_none (P : A → Prop) `{∀ x, Decision (P x)} l : Forall (λ x, ¬ P x) l → filter P l = [].
Proof. induction 1; [done|]. by rewrite filter_cons_False. Qed.

Lemma run_tree_refines o t :
  NoDup (elements t) → ordered higher t → admissible o (elements t) →
  ∃ t', run o t = Some t' ∧ elements t' = run_seq o (elements t) ∧ NoDup (elements t') ∧ ordered higher t'.
Proof.
  intros Hnd Hs Hadm. destruct o as [x d|x]; simpl in *.
  - destruct (insert_node_position higher x d t Hadm Hs) as (k1 & k2 & E1 & E2 & F1 & F2).
    exists (insert_node higher x d t). unfold ordered in *. rewrite E2. rewrite E1 in *. split_and!; [done| | |].
    + unfold place. rewrite !filter_app, (filter_all (λ y, higher y x = true) k1), (filter_all (λ y, higher y x = false) k2) by done.
      rewrite (filter_none (λ y, higher y x = true) k2), (filter_none (λ y, higher y x = false) k1);
        [by rewrite app_nil_r|eapply Forall_impl; [exact F1|]|eapply Forall_impl; [exact F2|]];
        simpl; intros y ->; done.
    + rewrite <- Permutation_middle. by constructor.
    + by apply ordered_insert.
  - pose proof (remove_node_elements x t) as Hrem. unfold remove.
    destruct (remove_node x t) as [[[t' lp] dx]|]; [|done]. destruct Hrem as (k1 & k2 & E1 & E2).
    exists t'. unfold ordered in *. rewrite E2. rewrite E1 in *. simpl.
    rewrite <- Permutation_middle in Hnd. apply NoDup_cons in Hnd as [Nx Hnd]. split_and!; [done| |done|].
    + rewrite filter_app, filter_cons_False by (intros Hx; done).
      rewrite !filter_all; [done|apply Forall_forall; set_solver..].
    + by apply (ordered_delete higher x).
Qed.

(** the tree refines the ordered sequence of its nodes.  Every sequence of
    insertions and removals, in which a node is inserted only when it is not in the
    tree and removed only when it is, runs to completion; the nodes in order are then
    those of the same operations on the sequence, where a new node goes behind all
    nodes that are lower or equal.  This holds whatever depth the inserted nodes carry. *)
Theorem avl_refines_sequence os :
  admissible_all os [] →
  ∃ t, runs os Null = Some t ∧ elements t = runs_seq os [] ∧ NoDup (elements t) ∧ ordered higher t ∧
    ∀ S (f : A → S → S) s, for_each f t s = fold_left (λ s x, f x s) (runs_seq os []) s.
Proof.
  assert (∀ os t, NoDup (elements t) → ordered higher t → admissible_all os (elements t) →
    ∃ t', runs os t = Some t' ∧ elements t' = runs_seq os (elements t) ∧ NoDup (elements t') ∧ ordered higher t') as Hgen.
  { clear os. induction os as [|o os IH]; intros t Hnd Hs Hadm; [by exists t|]. destruct Hadm as [Ho Hos].
    destruct (run_tree_refines o t Hnd Hs Ho) as (t1 & Hr & E1 & Hnd1 & Hs1). simpl. rewrite Hr, <- E1 in *. by apply IH. }
  intros Hadm. destruct (Hgen os Null) as (t & Hr & He & Hnd & Hs); [constructor|constructor|done|].
  exists t. split_and!; [done..|]. intros S f s. by rewrite for_each_elements, He.
Qed.

(** C38: insertions of fresh nodes keep the stored depths exact and the tree balanced.
    Inserting a fresh node (depth 1) into a balanced tree of less than 2^100 nodes with
    exact depths leaves a balanced tree with exact depths, whose height is at most twice
    the logarithm of its number of nodes, so that every recursion along a path of the tree
    ends after that many steps; removing a node from a tree of height 255 at most with exact
    depths leaves exact depths and no higher tree, which need not be balanced. *)
Theorem avl_balance x t :
  depth_ok t →
  (balanced t → size t < 2 ^ 100 →
    let t' := insert higher x 1 t in
    depth_ok t' ∧ balanced t' ∧ height t ≤ height t' ≤ height t + 1 ∧ 2 ^ height t' ≤ (size t' + 1) ^ 2) ∧
  (height t ≤ 255 → ∀ t' dx, remove x t = Some (t', dx) → depth_ok t' ∧ height t' ≤ height t).
Proof.
  intros Hok. split.
  - intros Hb Hsz t'. unfold t', insert. clear t'. assert (height t < 255) as Hh.
    { pose proof (balanced_height t Hb) as Hbh. assert (0 ≤ size t) by (unfold size; lia).
      assert ((size t + 1) ^ 2 ≤ 2 ^ 200) by (change (2 ^ 200) with ((2 ^ 100) ^ 2); apply Z.pow_le_mono_l; lia).
      apply (Z.pow_lt_mono_r_iff 2); [lia|lia|]. lia. }
    destruct (insert_node_balanced higher x t Hok Hb Hh) as (? & ? & ? & _).
    split_and!; [done|done|lia|lia|]. by apply balanced_height.
  - intros Hh t' dx Hr. unfold remove in Hr. pose proof (remove_node_depth x t Hok Hh).
    destruct (remove_node x t) as [[[? ?] ?]|]; [|done]. by simplify_eq.
Qed.

End Contract.

(** Nodes with integer keys, ordered by their key. *)
Definition key_higher (a b : Z) : bool := a <=? b.

#[local] Instance key_order : Tree_order key_higher.
Proof. constructor; unfold key_higher; intros *; rewrite ?Z.leb_le, ?Z.leb_gt; lia. Qed.

Theorem avl_refines_sequence_witness :
  let os := [Insert 5 1; Insert 2 1; Insert 8 1; Insert 1 1; Remove 5; Insert 5 3] in
  admissible_all key_higher os [] ∧
  ∃ t, runs key_higher os Null = Some t ∧ elements t = [1; 2; 5; 8].
Proof.
  set (os := [Insert 5 1; Insert 2 1; Insert 8 1; Insert 1 1; Remove 5; Insert 5 3]).
  assert (admissible_all key_higher os []) as Hadm.
  { refine (bool_decide_unpack _ _). vm_compute. exact I. }
  split; [exact Hadm|]. destruct (avl_refines_sequence key_higher os Hadm) as (t & Hr & He & _).
  exists t. split; [exact Hr|]. rewrite He. reflexivity.
Defined.

Definition keys (n : Z) : tree Z := fold_left (λ t x, insert key_higher x 1 t) (seqZ 1 n) Null.

Theorem avl_balance_witness :
  depth_ok (keys 12) ∧ balanced (keys 12) ∧ balanced (insert key_higher 13 1 (keys 12)).
Proof.
  assert (depth_ok (keys 12)) as Hd by (vm_compute; repeat split).
  assert (balanced (keys 12)) as Hb by (vm_compute; repeat split; discriminate).
  split; [exact Hd|]. split; [exact Hb|].
  assert (size (keys 12) < 2 ^ 100) as Hs by (vm_compute; reflexivity).
  destruct (avl_balance key_higher 13 (keys 12) Hd) as [Hins _].
  destruct (Hins Hb Hs) as (_ & Hb' & _). exact Hb'.
Defined.

(** [remove] does not rebalance when the removed node has no left subtree or its left
    child takes its place: four insertions and one removal leave an unbalanced tree. *)
Definition after_remove (x : Z) (t : tree Z) : tree Z :=
  match remove x t with Some (t', _) => t' | None => Null end.

Lemma avl_remove_unbalances : balanced (keys 4) ∧ ¬ balanced (after_remove 1 (keys 4)).
Proof. split; [vm_compute; repeat split; discriminate|]. vm_compute. intros (_ & _ & H). by apply H. Qed.

(** [remove] leaves the depth in the removed node: inserted into another tree, the node
    pretends to be the root of a subtree and the depths above it are wrong. *)
Lemma avl_stale_depth :
  ∃ t' dx, remove 1 (keys 2) = Some (t', dx) ∧ dx = 2 ∧
    depth_ok (Node Null 0 1 Null) ∧ ¬ depth_ok (insert key_higher 1 dx (Node Null 0 1 Null)).
Proof.
  eexists _, _. split; [vm_compute; reflexivity|]. split_and!; [done|vm_compute; repeat split|].
  vm_compute. intros H. decompose [and] H. congruence.
Qed.
