(* ===== verification/Avl_nodes.v ===== *)
(** * Avl_nodes: the AVL tree as linked nodes with the recompute hook

    Model of [src/repos/base/src/lib/base/avl_tree.cc] at the level of its pointers: a
    store of nodes with children, parent and depth, the root object of the tree being the
    node without a parent.  [Avl_tree] describes the same code as a function on values and
    has no recompute hook; here the hook of the policy runs exactly when and in the order
    in which the code calls it, which [Allocator_avl] depends on.  The static data of a
    node decides on the order, the annotation of a node is what the hook maintains.
    [None] stands for a null or dangling pointer or for a recursion that does not end.
    The lemmas of this file describe the recomputation of the depths, which follows the
    parent pointers and may meet nodes whose parent pointer is behind the links of the
    children; [Avl_trees] builds on them. *)

From S2P Require Import Prelude.

(** The address of a node *)
Definition id := Z.

Abbreviation Side := bool.
Definition LEFT : Side := false.
Definition RIGHT : Side := true.

(** [Avl_node_base] with the data of the derived class; [aux] is what its [recompute]
    writes. *)
Record node (D M : Type) := Node {
  _child0 : option id; _child1 : option id; _parent : option id; _depth : Z; data : D; aux : M }.
Arguments Node {D M}.
Arguments _child0 {D M}.
Arguments _child1 {D M}.
Arguments _parent {D M}.
Arguments _depth {D M}.
Arguments data {D M}.
Arguments aux {D M}.

(** [Avl_node_base::Policy] *)
Class Policy (D M : Type) := {
  higher : D → D → bool;
  recompute : D → option M → option M → M }.

Section Nodes.
Context {D M : Type}.

Definition _child (i : Side) (x : node D M) : option id := if i then _child1 x else _child0 x.

Definition set_child (i : Side) (c : option id) (x : node D M) : node D M :=
  if i then Node (_child0 x) c (_parent x) (_depth x) (data x) (aux x)
  else Node c (_child1 x) (_parent x) (_depth x) (data x) (aux x).
Definition set_parent (p : option id) (x : node D M) : node D M :=
  Node (_child0 x) (_child1 x) p (_depth x) (data x) (aux x).
Definition set_depth (d : Z) (x : node D M) : node D M :=
  Node (_child0 x) (_child1 x) (_parent x) d (data x) (aux x).
Definition set_aux (a : M) (x : node D M) : node D M :=
  Node (_child0 x) (_child1 x) (_parent x) (_depth x) (data x) a.

(** [Avl_node_base::Avl_node_base] *)
Definition fresh (d : D) (a : M) : node D M := Node None None None 1 d a.

Context `{Policy D M}.

Local Abbreviation heap := (gmap id (node D M)).

Definition _child_depth (i : Side) (x : node D M) (h : heap) : option Z :=
  match _child i x with None => Some 0 | Some c => _depth <$> h !! c end.

Definition child_aux (i : Side) (x : node D M) (h : heap) : option (option M) :=
  match _child i x with None => Some None | Some c => y ← h !! c; Some (Some (aux y)) end.

(** [policy.recompute(this)] *)
Definition hook (n : id) (h : heap) : option heap :=
  x ← h !! n;
  a0 ← child_aux LEFT x h;
  a1 ← child_aux RIGHT x h;
  Some (<[n := set_aux (recompute (data x) a0 a1) x]> h).

Fixpoint recompute_up (fuel : nat) (n : id) (h : heap) : option heap :=
  match fuel with
  | O => None
  | S fuel =>
      x ← h !! n;
      d0 ← _child_depth LEFT x h;
      d1 ← _child_depth RIGHT x h;
      let d := u8 (Z.max d0 d1 + 1) in
      let h := <[n := set_depth d x]> h in
      match _parent x with
      | None => Some h
      | Some p =>
          h ← (if d =? _depth x then Some h else recompute_up fuel p h);
          hook n h
      end
  end.

Definition _recompute_depth (n : id) (h : heap) : option heap := recompute_up (2 + base.size h) n h.

Definition _adopt (this : id) (c : option id) (i : Side) (h : heap) : option heap :=
  x ← h !! this;
  let h := <[this := set_child i c x]> h in
  h ← match c with None => Some h | Some c => y ← h !! c; Some (<[c := set_parent (Some this) y]> h) end;
  _recompute_depth this h.

Definition _bias (x : node D M) (h : heap) : option Side :=
  d1 ← _child_depth RIGHT x h; d0 ← _child_depth LEFT x h; Some (d0 <? d1).

Definition _rotate_subtree (this n : id) (side : Side) (h : heap) : option heap :=
  p ← h !! this;
  let i := if decide (Some n = _child0 p) then LEFT else RIGHT in
  x ← h !! n;
  match _child (negb side) x with
  | None => Some h
  | Some r =>
      xr ← h !! r;
      let rl := _child side xr in
      b ← _bias xr h;
      if bool_decide (b = negb side) then
        h ← _adopt n rl (negb side) h;
        h ← _adopt r (Some n) side h;
        _adopt this (Some r) i h
      else
        match rl with
        | None => Some h
        | Some l =>
            xl ← h !! l;
            let ll := _child side xl in
            let lr := _child (negb side) xl in
            h ← _adopt n ll (negb side) h;
            h ← _adopt r lr side h;
            h ← _adopt l (Some n) side h;
            h ← _adopt l (Some r) (negb side) h;
            _adopt this (Some l) i h
        end
  end.

Definition _rebalance_subtree (this n : id) (h : heap) : option heap :=
  x ← h !! n;
  d1 ← _child_depth RIGHT x h;
  d0 ← _child_depth LEFT x h;
  if Z.abs (d1 - d0) <? 2 then Some h else _rotate_subtree this n (d1 - d0 <? 0) h.

Fixpoint insert_below (fuel : nat) (this n : id) (h : heap) : option heap :=
  match fuel with
  | O => None
  | S fuel =>
      if decide (n = this) then Some h
      else
        x ← h !! this;
        y ← h !! n;
        let i := match _parent x with Some _ => higher (data x) (data y) | None => LEFT end in
        h ← match _child i x with Some c => insert_below fuel c n h | None => _adopt this (Some n) i h end;
        h ← _recompute_depth this h;
        x ← h !! this;
        match _parent x with None => Some h | Some p => _rebalance_subtree p this h end
  end.

(** [insert] of the root object *)
Definition insert (root n : id) (h : heap) : option heap := insert_below (2 + base.size h) root n h.

(** The right-most node of a subtree *)
Fixpoint rightmost (fuel : nat) (l : id) (h : heap) : option id :=
  match fuel with
  | O => None
  | S fuel => x ← h !! l; match _child1 x with Some c => rightmost fuel c h | None => Some l end
  end.

(** The parent of [this] adopts [c] on each side where its child is [this]. *)
Definition replace_at (p this : id) (c : option id) (h : heap) : option heap :=
  let at_side i h :=
    y ← h !! p; if decide (_child i y = Some this) then _adopt p c i h else Some h in
  h ← at_side LEFT h; at_side RIGHT h.

Fixpoint rebalance_up (fuel : nat) (lp : id) (h : heap) : option heap :=
  match fuel with
  | O => None
  | S fuel =>
      x ← h !! lp;
      match _parent x with
      | None => Some h
      | Some lpp => h ← _rebalance_subtree lpp lp h; rebalance_up fuel lpp h
      end
  end.

(** [remove] up to the rebalancing: [this] is taken out of the tree below [p]. The result holds the
    node where the rebalancing starts. *)
Definition unlink (p this : id) (h : heap) : option (option id * heap) :=
  x ← h !! this;
  match _child0 x with
  | None => h ← replace_at p this (_child1 x) h; Some (None, h)
  | Some l0 =>
      l ← rightmost (base.size h) l0 h;
      xl ← h !! l;
      h ← (if decide (l = l0) then _adopt this (_child0 xl) LEFT h
           else q ← _parent xl; _adopt q (_child0 xl) RIGHT h);
      let lp := if decide (_parent xl = Some this) then None else _parent xl in
      h ← replace_at p this (Some l) h;
      x ← h !! this;
      h ← _adopt l (_child0 x) LEFT h;
      x ← h !! this;
      h ← _adopt l (_child1 x) RIGHT h;
      Some (lp, h)
  end.

Definition remove (this : id) (h : heap) : option heap :=
  x ← h !! this;
  p ← _parent x;
  '(lp, h) ← unlink p this h;
  h ← match lp with None => Some h | Some lp => rebalance_up (2 + base.size h) lp h end;
  x ← h !! this;
  Some (<[this := Node None None None (_depth x) (data x) (aux x)]> h).

(** ** Links and depths apart *)

(** What a node is without its depth and its annotation. *)
Definition erase (x : node D M) : node D unit := Node (_child0 x) (_child1 x) (_parent x) 0 (data x) tt.

Definition bare (h : heap) : gmap id (node D unit) := erase <$> h.

Definition dep (h : heap) (m : id) : option Z := _depth <$> h !! m.

End Nodes.

(** The depth that fits to the depths [δ] of the children. *)
Definition kid_depth {D M} (δ : id → option Z) (x : node D M) (i : Side) : Z :=
  match _child i x with None => 0 | Some c => default 0 (δ c) end.
Definition fit_depth {D M} (δ : id → option Z) (x : node D M) : Z := u8 (Z.max (kid_depth δ x LEFT) (kid_depth δ x RIGHT) + 1).

Lemma fit_depth_ext {D M M'} δ δ' (x : node D M) (x' : node D M') :
  (∀ i, _child i x' = _child i x) → (∀ i c, _child i x = Some c → δ' c = δ c) → fit_depth δ' x' = fit_depth δ x.
Proof.
  intros Hc Hk. assert (∀ i, kid_depth δ' x' i = kid_depth δ x i) as E.
  { intros i. unfold kid_depth. rewrite Hc. destruct (_child i x) as [c|] eqn:Hx; [|done]. by rewrite (Hk i c Hx). }
  unfold fit_depth. by rewrite !E.
Qed.

Section Links.
Context {D : Type}.

Abbreviation links := (gmap id (node D unit)).
Implicit Types g : links.

Definition kids g (x : node D unit) : Prop := ∀ i c, _child i x = Some c → is_Some (g !! c).

(** The chain of parents of [n], from [n] to the root. *)
Inductive climbs g : id → list id → Prop :=
  | climbs_root n x : g !! n = Some x → _parent x = None → kids g x → climbs g n [n]
  | climbs_up n x p l : g !! n = Some x → _parent x = Some p → kids g x → climbs g p l → climbs g n (n :: l).

(** The node [n] carries the depth that its children have. *)
Definition consistent g (δ : id → option Z) (n : id) : Prop :=
  ∃ x, g !! n = Some x ∧ δ n = Some (fit_depth δ x).

(** [this] adopts [c] on the side [i]. *)
Definition link (this : id) (c : option id) (i : Side) g : links :=
  let g := alter (set_child i c) this g in
  match c with None => g | Some c => alter (set_parent (Some this)) c g end.

Lemma climbs_ext g g' n l :
  (∀ m, m ∈ l → g' !! m = g !! m) → (∀ m, is_Some (g !! m) → is_Some (g' !! m)) → climbs g n l → climbs g' n l.
Proof.
  intros He Hd Hc. induction Hc as [n x Hx Hp Hk|n x p l Hx Hp Hk Hc IH].
  - apply (climbs_root _ n x); [rewrite He; [done|constructor]|done|]. intros i c Hi. by apply Hd, (Hk i).
  - apply (climbs_up _ n x p); [rewrite He; [done|constructor]|done| |].
    + intros i c Hi. by apply Hd, (Hk i).
    + apply IH. intros m Hm. apply He. by constructor.
Qed.

Lemma climbs_dom g n l m : climbs g n l → m ∈ l → is_Some (g !! m).
Proof.
  induction 1 as [n x Hx _ _|n x p l Hx _ _ _ IH]; intros Hm; apply elem_of_cons in Hm as [->|Hm]; [by eexists| |by eexists|auto].
  by apply elem_of_nil in Hm.
Qed.

Lemma climbs_head g n l : climbs g n l → n ∈ l.
Proof. destruct 1; constructor. Qed.

Lemma consistent_ext g g' δ δ' n x x' :
  g !! n = Some x → g' !! n = Some x' → (∀ i, _child i x' = _child i x) →
  δ' n = δ n → (∀ i c, _child i x = Some c → δ' c = δ c) → consistent g δ n → consistent g' δ' n.
Proof.
  intros Hx Hx' Hc Hn Hk (x0 & Hx0 & E). assert (x0 = x) as -> by congruence. exists x'. split; [done|].
  rewrite Hn, E. f_equal. symmetry. by apply fit_depth_ext.
Qed.

End Links.

(** ** The recomputation of depths *)

Section Recompute.
Context {D M : Type} `{Policy D M}.
Abbreviation heap := (gmap id (node D M)).
Implicit Types h : heap.

Lemma bare_lookup h n : bare h !! n = erase <$> h !! n.
Proof. apply lookup_fmap. Qed.

Lemma bare_some h n x : bare h !! n = Some x → ∃ y, h !! n = Some y ∧ erase y = x.
Proof. rewrite bare_lookup. intros (y & ? & ->)%fmap_Some. by exists y. Qed.

Lemma bare_insert h n x y : h !! n = Some x → erase y = erase x → bare (<[n := y]> h) = bare h.
Proof. intros Hx E. unfold bare. rewrite fmap_insert, E. apply insert_id. by rewrite lookup_fmap, Hx. Qed.

Lemma bare_is_some h n : is_Some (bare h !! n) ↔ is_Some (h !! n).
Proof. rewrite bare_lookup. apply fmap_is_Some. Qed.

Lemma child_erase i (x : node D M) : _child i (erase x) = _child i x.
Proof. by destruct i. Qed.

Lemma child_depth_run h (x : node D M) i : kids (bare h) (erase x) →
  _child_depth i x h = Some (kid_depth (dep h) x i).
Proof.
  intros Hk. unfold _child_depth, kid_depth, dep. destruct (_child i x) as [c|] eqn:Hc; [|done].
  destruct (proj1 (bare_is_some h c)) as [y Hy]; [by apply (Hk i); rewrite child_erase|]. by rewrite Hy.
Qed.

Lemma hook_run h n x : h !! n = Some x → kids (bare h) (erase x) →
  ∃ h', hook n h = Some h' ∧ bare h' = bare h ∧ (∀ m, dep h' m = dep h m) ∧ ∀ m, m ≠ n → h' !! m = h !! m.
Proof.
  intros Hx Hk. assert (∀ i, is_Some (child_aux i x h)) as Ha.
  { intros i. unfold child_aux. destruct (_child i x) as [c|] eqn:Hc; [|by eexists].
    destruct (proj1 (bare_is_some h c)) as [y Hy]; [by apply (Hk i); rewrite child_erase|]. rewrite Hy. by eexists. }
  destruct (Ha LEFT) as [a0 E0], (Ha RIGHT) as [a1 E1]. unfold hook. rewrite Hx. cbn. rewrite E0. cbn. rewrite E1. cbn.
  eexists. split; [done|]. split_and!; [by apply bare_insert with x| |].
  - intros m. unfold dep. destruct (decide (m = n)) as [->|]; [by rewrite lookup_insert_eq, Hx|by rewrite lookup_insert_ne].
  - intros m Hm. by rewrite lookup_insert_ne.
Qed.

Lemma recompute_unfold fuel n h x :
  h !! n = Some x → kids (bare h) (erase x) →
  recompute_up (S fuel) n h =
    let h1 := <[n := set_depth (fit_depth (dep h) x) x]> h in
    match _parent x with
    | None => Some h1
    | Some p => h2 ← (if fit_depth (dep h) x =? _depth x then Some h1 else recompute_up fuel p h1); hook n h2
    end.
Proof. intros Hx Hk. cbn [recompute_up]. rewrite Hx. cbn. by rewrite !(child_depth_run h x) by done. Qed.

Lemma dep_insert h n x d m : h !! n = Some x → dep (<[n := set_depth d x]> h) m = if decide (m = n) then Some d else dep h m.
Proof. intros Hx. unfold dep. case_decide; [subst; by rewrite lookup_insert_eq|by rewrite lookup_insert_ne]. Qed.

Lemma erase_depth d (x : node D M) : erase (set_depth d x) = erase x.
Proof. done. Qed.

(** Along the parents of [n]. *)
Lemma recompute_climbs fuel n l h :
  climbs (bare h) n l → (length l ≤ fuel)%nat →
  ∃ h', recompute_up fuel n h = Some h' ∧ bare h' = bare h ∧ (∀ m, m ∉ l → h' !! m = h !! m) ∧
    (NoDup l → (∀ x i c, bare h !! n = Some x → _child i x = Some c → c ∉ l) → consistent (bare h') (dep h') n).
Proof.
  intros Hc. remember (bare h) as g eqn:Hg. revert fuel h Hg. induction Hc as [n z Hz Hp Hk|n z p l Hz Hp Hk Hc IH]; intros fuel h -> Hf;
    destruct (bare_some h n z Hz) as (x & Hx & <-); (destruct fuel as [|fuel]; [simpl in Hf; lia|]); rewrite (recompute_unfold fuel n h x Hx Hk);
    cbn zeta; change (_parent (erase x)) with (_parent x) in Hp; rewrite Hp.
  - set (h1 := <[n := _]> h). exists h1. assert (bare h1 = bare h) as Eb by (by apply bare_insert with x).
    split_and!; [done|done|intros m Hm; unfold h1; rewrite lookup_insert_ne; [done|by intros ->; apply Hm; constructor]|].
    intros _ Hkids. rewrite Eb. exists (erase x). split; [done|]. unfold h1 at 1. rewrite (dep_insert h n x), decide_True by done.
    f_equal. symmetry. apply fit_depth_ext; [intros i; by rewrite child_erase|]. intros i c Hcx.
    assert (c ∉ [n]) as [Hcn _]%not_elem_of_cons by (eapply Hkids; [exact Hz|by rewrite child_erase]).
    unfold h1. by rewrite (dep_insert h n x), decide_False.
  - set (h1 := <[n := _]> h). assert (bare h1 = bare h) as Eb by (by apply bare_insert with x).
    assert (∃ h2, (if fit_depth (dep h) x =? _depth x then Some h1 else recompute_up fuel p h1) = Some h2 ∧ bare h2 = bare h ∧
      ∀ m, m ∉ l → h2 !! m = h1 !! m) as (h2 & Hr2 & Eb2 & Hf2).
    { destruct (_ =? _); [by exists h1|]. destruct (IH fuel h1) as (h2 & Hr2 & Eb2 & Hf2 & _); [done|simpl in Hf; lia|].
      exists h2. split_and!; [done|by rewrite Eb2|done]. }
    rewrite Hr2. cbn [mbind option_bind]. destruct (bare_some h2 n (erase x)) as (x2 & Hx2 & Ex2); [by rewrite Eb2|].
    destruct (hook_run h2 n x2 Hx2) as (h' & Hr & Eb' & Hd' & Hf'); [by rewrite Eb2, Ex2|].
    assert (∀ m, dep h' m = dep h2 m) as Hdep' by done. exists h'. split_and!; [done|by rewrite Eb'| |].
    + intros m [Hmn Hml]%not_elem_of_cons. rewrite Hf' by done. rewrite Hf2 by done. unfold h1. by rewrite lookup_insert_ne.
    + intros [Hnl _]%NoDup_cons Hkids. rewrite Eb', Eb2. exists (erase x). split; [done|].
      assert (∀ m, m ∉ l → dep h2 m = dep h1 m) as Hd2 by (intros m Hm; unfold dep; by rewrite Hf2).
      rewrite Hd', Hd2 by done. unfold h1 at 1. rewrite (dep_insert h n x), decide_True by done.
      f_equal. symmetry. apply fit_depth_ext; [intros i; by rewrite child_erase|]. intros i c Hcx.
      assert (c ∉ n :: l) as [Hcn Hcl]%not_elem_of_cons by (eapply Hkids; [exact Hz|by rewrite child_erase]).
      rewrite Hd', Hd2 by done. unfold h1. by rewrite (dep_insert h n x), decide_False.
Qed.

(** At a node [n] below [p], which carries its depth already and is no parent of [n]
    in the direction of children: only [n] changes its depth. *)
Lemma recompute_stop k n p h x xp :
  bare h !! n = Some x → _parent x = Some p → kids (bare h) x → bare h !! p = Some xp → kids (bare h) xp → is_Some (_parent xp) →
  consistent (bare h) (dep h) p → p ≠ n → (∀ i, _child i xp ≠ Some n) →
  ∃ h', recompute_up (2 + k) n h = Some h' ∧ bare h' = bare h ∧ (∀ m, m ≠ n → dep h' m = dep h m) ∧
    ((∀ i, _child i x ≠ Some n) → consistent (bare h') (dep h') n).
Proof.
  intros Hz Hp Hk Hzp Hkp [q Hq] Hcp Hpn Hno. destruct (bare_some h n x Hz) as (y & Hy & <-). destruct (bare_some h p xp Hzp) as (yp & Hyp & <-).
  change (2 + k)%nat with (S (S k)). rewrite (recompute_unfold (S k) n h y Hy Hk). cbn zeta. change (_parent (erase y)) with (_parent y) in Hp. rewrite Hp.
  set (h1 := <[n := _]> h). assert (bare h1 = bare h) as Eb by (by apply bare_insert with y).
  assert (∀ m, m ≠ n → dep h1 m = dep h m) as Hd1 by (intros m Hm; unfold h1; by rewrite (dep_insert h n y), decide_False).
  assert (h1 !! p = Some yp) as Hyp1 by (unfold h1; by rewrite lookup_insert_ne by congruence).
  assert (∃ h2, (if fit_depth (dep h) y =? _depth y then Some h1 else recompute_up (S k) p h1) = Some h2 ∧ bare h2 = bare h ∧
    ∀ m, dep h2 m = dep h1 m) as (h2 & Hr2 & Eb2 & Hd2).
  { destruct (_ =? _); [by exists h1|]. rewrite (recompute_unfold k p h1 yp Hyp1) by (by rewrite Eb). cbn zeta.
    change (_parent (erase yp)) with (_parent yp) in Hq. rewrite Hq.
    assert (fit_depth (dep h1) yp = _depth yp) as Ef.
    { destruct Hcp as (xp' & Hxp' & E). assert (xp' = erase yp) as -> by congruence. unfold dep in E at 1. rewrite Hyp in E. simpl in E. injection E as ->.
      apply fit_depth_ext; [intros i; by rewrite child_erase|]. intros i c Hc. rewrite Hd1; [done|]. intros ->. by apply (Hno i). }
    rewrite Ef, Z.eqb_refl. cbn [mbind option_bind]. set (h2 := <[p := _]> h1).
    assert (h2 = h1) as -> by (unfold h2; apply insert_id; rewrite Hyp1; f_equal; by destruct yp).
    destruct (hook_run h1 p yp Hyp1) as (h' & Hr & Eb' & Hd' & _); [by rewrite Eb|]. exists h'. split_and!; [done|by rewrite Eb'|done]. }
  rewrite Hr2. cbn [mbind option_bind]. destruct (bare_some h2 n (erase y)) as (x2 & Hx2 & Ex2); [by rewrite Eb2|].
  destruct (hook_run h2 n x2 Hx2) as (h' & Hr & Eb' & Hd' & _); [by rewrite Eb2, Ex2|]. exists h'. split_and!; [done|by rewrite Eb'| |].
  - intros m Hm. by rewrite Hd', Hd2, Hd1.
  - intros Hself. rewrite Eb', Eb2. exists (erase y). split; [done|]. rewrite Hd', Hd2. unfold h1 at 1. rewrite (dep_insert h n y), decide_True by done.
    f_equal. symmetry. apply fit_depth_ext; [intros i; by rewrite child_erase|]. intros i c Hcx. rewrite Hd', Hd2, Hd1; [done|].
    intros ->. apply (Hself i). by rewrite child_erase.
Qed.

(** ** Adoption *)

Lemma bare_size h : base.size (bare h) = base.size h.
Proof. apply map_size_fmap. Qed.

Lemma dom_length (l : list id) (g : gmap id (node D unit)) : NoDup l → (∀ m, m ∈ l → is_Some (g !! m)) → (length l ≤ base.size g)%nat.
Proof.
  intros Hnd Hl. rewrite <- size_dom, <- (size_list_to_set (C := gset id) l) by done.
  apply subseteq_size. intros m Hm%elem_of_list_to_set. by apply elem_of_dom, Hl.
Qed.

Lemma recompute_run n l h :
  climbs (bare h) n l → NoDup l →
  ∃ h', _recompute_depth n h = Some h' ∧ bare h' = bare h ∧ (∀ m, m ∉ l → dep h' m = dep h m) ∧
    ((∀ x i c, bare h !! n = Some x → _child i x = Some c → c ∉ l) → consistent (bare h') (dep h') n).
Proof.
  intros Hc Hnd. destruct (recompute_climbs (2 + base.size h) n l h Hc) as (h' & Hr & Eb & Hf & Hcon).
  { rewrite <- bare_size. pose proof (dom_length l (bare h) Hnd (λ m, climbs_dom (bare h) n l m Hc)). lia. }
  exists h'. split_and!; [done..| |auto]. intros m Hm. unfold dep. by rewrite Hf.
Qed.

(** The links that [_adopt] sets before the recomputation. *)
Lemma adopt_links this c i h :
  is_Some (h !! this) → (∀ d, c = Some d → is_Some (h !! d)) →
  ∃ h1, _adopt this c i h = _recompute_depth this h1 ∧ bare h1 = link this c i (bare h) ∧ ∀ m, dep h1 m = dep h m.
Proof.
  intros [x Hx] Hc. unfold _adopt. rewrite Hx. cbn [mbind option_bind]. set (h1 := <[this := set_child i c x]> h).
  assert (bare h1 = alter (set_child i c) this (bare h)) as E1.
  { unfold h1, bare. rewrite fmap_insert. apply map_eq. intros m. rewrite lookup_insert, lookup_alter, !lookup_fmap.
    case_decide; [subst|done]. rewrite Hx. simpl. f_equal. by destruct i. }
  assert (∀ m, dep h1 m = dep h m) as D1.
  { intros m. unfold dep, h1. rewrite lookup_insert. case_decide; [subst|done]. rewrite Hx. simpl. by destruct i. }
  destruct c as [c|]; [|by exists h1]. destruct (Hc c eq_refl) as [y0 Hy0].
  assert (is_Some (h1 !! c)) as [y Hy] by (unfold h1; rewrite lookup_insert; case_decide; eauto).
  rewrite Hy. cbn [mbind option_bind]. eexists. split; [done|]. split.
  - unfold bare at 1. rewrite fmap_insert. fold (bare h1). cbn [link]. rewrite <- E1. apply map_eq. intros m.
    rewrite lookup_insert, lookup_alter. case_decide; [subst|done]. by rewrite bare_lookup, Hy.
  - intros m. rewrite <- D1. unfold dep. rewrite lookup_insert. case_decide; [subst|done]. by rewrite Hy.
Qed.

Lemma adopt_run this c i h l :
  is_Some (h !! this) → (∀ d, c = Some d → is_Some (h !! d)) → climbs (link this c i (bare h)) this l → NoDup l →
  ∃ h', _adopt this c i h = Some h' ∧ bare h' = link this c i (bare h) ∧ (∀ m, m ∉ l → dep h' m = dep h m) ∧
    ((∀ x i' d, link this c i (bare h) !! this = Some x → _child i' x = Some d → d ∉ l) → consistent (bare h') (dep h') this).
Proof.
  intros Ht Hc Hcl Hnd. destruct (adopt_links this c i h Ht Hc) as (h1 & -> & E1 & D1). rewrite <- E1 in *.
  destruct (recompute_run this l h1 Hcl Hnd) as (h' & Hr & Eb & Hd & Hcon). exists h'. split_and!; [done|done| |done].
  intros m Hm. by rewrite Hd, D1.
Qed.

Lemma adopt_stop this c i h p x xp :
  is_Some (h !! this) → (∀ d, c = Some d → is_Some (h !! d)) →
  let g := link this c i (bare h) in
  g !! this = Some x → _parent x = Some p → kids g x → g !! p = Some xp → kids g xp → is_Some (_parent xp) →
  consistent g (dep h) p → p ≠ this → (∀ i, _child i xp ≠ Some this) → (∀ i, _child i x ≠ Some this) →
  ∃ h', _adopt this c i h = Some h' ∧ bare h' = g ∧ (∀ m, m ≠ this → dep h' m = dep h m) ∧ consistent g (dep h') this.
Proof.
  intros Ht Hc g Hx Hp Hk Hxp Hkp Hpp Hcp Hne Hno Hself. destruct (adopt_links this c i h Ht Hc) as (h1 & -> & E1 & D1). fold g in E1.
  rewrite <- E1 in *. destruct (recompute_stop (base.size h1) this p h1 x xp) as (h' & Hr & Eb & Hd & Hcon); try done.
  - apply (consistent_ext (bare h1) (bare h1) (dep h) (dep h1) p xp xp); try done.
  - exists h'. split_and!; [done|done|intros m Hm; by rewrite Hd, D1|]. rewrite <- Eb. by apply Hcon.
Qed.

End Recompute.
