(* ===== verification/Avl_trees.v ===== *)
(** * Avl_trees: the linked nodes form a tree

    On top of [Avl_nodes]: when linked nodes represent a binary tree below a node of the
    tree, and what each operation of [src/repos/base/src/lib/base/avl_tree.cc] does to the
    tree.  Rotations, which pass through states with cyclic parent pointers, replace a
    subtree by one with the same nodes in order; [insert_run] and [remove_run] say that the
    operations end with a well-linked tree that has the node at its place or not any more,
    whatever the depths and annotations are. *)

From stdpp Require Import sorting.
From S2P Require Import Prelude Avl_nodes.

(** ** Trees *)

Inductive shape := Leaf | Br (l : shape) (n : id) (r : shape).

Definition root_of (T : shape) : option id := match T with Leaf => None | Br _ n _ => Some n end.

(** The nodes in order. *)
Fixpoint nodes (T : shape) : list id := match T with Leaf => [] | Br l n r => nodes l ++ n :: nodes r end.

(** The node [n] with [a] on the side [i] and [b] on the other. *)
Definition mk (i : Side) (a : shape) (n : id) (b : shape) : shape := if i then Br b n a else Br a n b.

Section Trees.
Context {D : Type}.
Abbreviation links := (gmap id (node D unit)).
Implicit Types g : links.

(** The nodes of [T] are linked as [T] says, the root to the parent [p]. *)
Fixpoint rep g (p : option id) (T : shape) : Prop :=
  match T with
  | Leaf => True
  | Br l n r => ∃ x, g !! n = Some x ∧ _child0 x = root_of l ∧ _child1 x = root_of r ∧ _parent x = p ∧ rep g (Some n) l ∧ rep g (Some n) r
  end.

Lemma nodes_mk i a n b : nodes (mk i a n b) = if i then nodes b ++ n :: nodes a else nodes a ++ n :: nodes b.
Proof. by destruct i. Qed.

Lemma elem_of_mk i a n b m : m ∈ nodes (mk i a n b) ↔ m = n ∨ m ∈ nodes a ∨ m ∈ nodes b.
Proof. rewrite nodes_mk. destruct i; rewrite elem_of_app, elem_of_cons; tauto. Qed.

Lemma NoDup_mk i a n b :
  NoDup (nodes (mk i a n b)) ↔ NoDup (nodes a) ∧ NoDup (nodes b) ∧ n ∉ nodes a ∧ n ∉ nodes b ∧ ∀ m, m ∈ nodes a → m ∉ nodes b.
Proof.
  rewrite nodes_mk. assert (∀ l r, NoDup (l ++ n :: r) ↔ NoDup l ∧ NoDup r ∧ n ∉ l ∧ n ∉ r ∧ ∀ m, m ∈ l → m ∉ r) as E.
  { intros l r. rewrite NoDup_app, NoDup_cons. setoid_rewrite not_elem_of_cons. naive_solver. }
  destruct i; rewrite E; naive_solver.
Qed.

Lemma rep_mk g p i a n b :
  rep g p (mk i a n b) ↔ ∃ x, g !! n = Some x ∧ _child i x = root_of a ∧ _child (negb i) x = root_of b ∧ _parent x = p ∧ rep g (Some n) a ∧ rep g (Some n) b.
Proof. destruct i; cbn; naive_solver. Qed.

Lemma root_in T m : root_of T = Some m → m ∈ nodes T.
Proof. destruct T; [done|]. intros [= ->]. cbn. set_solver. Qed.

Lemma rep_root g p T m : rep g p T → root_of T = Some m → ∃ x, g !! m = Some x ∧ _parent x = p.
Proof. destruct T; [done|]. intros (x & Hx & _ & _ & Hp & _) [= ->]. eauto. Qed.

Lemma rep_dom g p T m : rep g p T → m ∈ nodes T → is_Some (g !! m).
Proof.
  revert p. induction T as [|l IHl n r IHr]; intros p; [by intros _ ?%elem_of_nil|]. intros (x & Hx & _ & _ & _ & Hl & Hr).
  cbn. rewrite elem_of_app, elem_of_cons. intros [Hm|[->|Hm]]; [by apply (IHl (Some n))|by eexists|by apply (IHr (Some n))].
Qed.

Lemma rep_kids g p T m x : rep g p T → m ∈ nodes T → g !! m = Some x → kids g x.
Proof.
  revert p. induction T as [|l IHl n r IHr]; intros p; [by intros _ ?%elem_of_nil|]. intros (y & Hy & E0 & E1 & _ & Hl & Hr).
  cbn. rewrite elem_of_app, elem_of_cons. intros [Hm|[->|Hm]] Hx; [by apply (IHl (Some n))| |by apply (IHr (Some n))].
  assert (y = x) as -> by congruence. intros [] c Hc; cbn in Hc; [rewrite E1 in Hc|rewrite E0 in Hc];
    [destruct (rep_root g _ r c Hr Hc) as (z & Hz & _)|destruct (rep_root g _ l c Hl Hc) as (z & Hz & _)]; by eexists.
Qed.

(** A subtree under another parent, in links that are the same apart from that. *)
Lemma rep_move g g' p p' T :
  rep g p T → NoDup (nodes T) →
  (∀ m x, m ∈ nodes T → g !! m = Some x → g' !! m = Some (if decide (root_of T = Some m) then set_parent p' x else x)) →
  rep g' p' T.
Proof.
  revert p p'. induction T as [|l IHl n r IHr]; intros p p'; [done|]. intros (x & Hx & E0 & E1 & Ep & Hl & Hr) Hnd Hm.
  pose proof (NoDup_mk LEFT l n r) as E. change (mk LEFT l n r) with (Br l n r) in E. rewrite E in Hnd. destruct Hnd as (Nl & Nr & Hnl & Hnr & Hlr).
  assert (∀ m, m ∈ nodes l ∨ m ∈ nodes r → m ∈ nodes (Br l n r) ∧ m ≠ n) as Hin.
  { cbn. intros m. rewrite elem_of_app, elem_of_cons. intros [Hm'|Hm']; (split; [tauto|]); by intros ->. }
  assert (∀ T' m y, root_of T' = Some m → rep g (Some n) T' → g !! m = Some y → set_parent (Some n) y = y) as Hsame.
  { intros T' m y HT' Hrep Hy. destruct (rep_root g _ T' m Hrep HT') as (y' & Hy' & Hp). assert (y' = y) as -> by congruence. by destruct y; cbn in *; subst. }
  exists (set_parent p' x). rewrite (Hm n x) by (done || (cbn; rewrite elem_of_app, elem_of_cons; tauto)). rewrite decide_True by done.
  split_and!; try done.
  - apply (IHl (Some n)); [done..|]. intros m y Hml Hy. destruct (Hin m (or_introl Hml)) as [Hmt Hmn]. rewrite (Hm m y Hmt Hy).
    rewrite decide_False by (cbn; congruence). case_decide; [|done]. by rewrite (Hsame l m y).
  - apply (IHr (Some n)); [done..|]. intros m y Hml Hy. destruct (Hin m (or_intror Hml)) as [Hmt Hmn]. rewrite (Hm m y Hmt Hy).
    rewrite decide_False by (cbn; congruence). case_decide; [|done]. by rewrite (Hsame r m y).
Qed.

Lemma rep_ext g g' p T : rep g p T → (∀ m, m ∈ nodes T → g' !! m = g !! m) → rep g' p T.
Proof.
  revert p. induction T as [|l IHl n r IHr]; intros p; [done|]. intros (x & Hx & E0 & E1 & Ep & Hl & Hr) Hm.
  cbn in Hm. setoid_rewrite elem_of_app in Hm. setoid_rewrite elem_of_cons in Hm. exists x. rewrite Hm by tauto. split_and!; try done; [apply IHl|apply IHr]; auto.
Qed.

(** What [link] makes of the node [m]. *)
Definition link_node (this : id) (c : option id) (i : Side) (m : id) (x : node D unit) : node D unit :=
  let x := if decide (m = this) then set_child i c x else x in if decide (c = Some m) then set_parent (Some this) x else x.

Lemma lookup_link this c i g m : link this c i g !! m = link_node this c i m <$> g !! m.
Proof.
  unfold link, link_node. destruct c as [c|]; rewrite ?lookup_alter; destruct (g !! m) as [x|] eqn:Hx; repeat case_decide; simplify_eq; by rewrite ?Hx.
Qed.

Lemma link_node_other this c i m x : m ≠ this → c ≠ Some m → link_node this c i m x = x.
Proof. intros H1 H2. unfold link_node. by repeat case_decide. Qed.

Lemma link_node_this this c i x : c ≠ Some this → link_node this c i this x = set_child i c x.
Proof. intros H1. unfold link_node. by repeat case_decide. Qed.

Lemma link_node_child this c i x : c ≠ this → link_node this (Some c) i c x = set_parent (Some this) x.
Proof. intros H1. unfold link_node. by repeat case_decide. Qed.

Lemma link_dom this c i g m : is_Some (link this c i g !! m) ↔ is_Some (g !! m).
Proof. rewrite lookup_link. apply fmap_is_Some. Qed.

(** ** Subtrees in place *)

Lemma child_set i c (x : node D unit) : _child i (set_child i c x) = c.
Proof. by destruct i. Qed.
Lemma child_set_other i c (x : node D unit) : _child (negb i) (set_child i c x) = _child (negb i) x.
Proof. by destruct i. Qed.
Lemma child_set_other' i c (x : node D unit) : _child i (set_child (negb i) c x) = _child i x.
Proof. by destruct i. Qed.
Lemma child_set_parent i p (x : node D unit) : _child i (set_parent p x) = _child i x.
Proof. by destruct i. Qed.
Lemma parent_set_child i c (x : node D unit) : _parent (set_child i c x) = _parent x.
Proof. by destruct i. Qed.
Lemma data_set_child i c (x : node D unit) : data (set_child i c x) = data x.
Proof. by destruct i. Qed.
Lemma set_child_same i (x : node D unit) : set_child i (_child i x) x = x.
Proof. by destruct i, x. Qed.
Lemma set_child_set i c d (x : node D unit) : set_child i d (set_child i c x) = set_child i d x.
Proof. by destruct i. Qed.

Lemma both_sides s (P : Side → Prop) : P s → P (negb s) → ∀ i, P i.
Proof. by destruct s; intros ?? []. Qed.

Lemma kids_intro s g x :
  (∀ c, _child s x = Some c → is_Some (g !! c)) → (∀ c, _child (negb s) x = Some c → is_Some (g !! c)) → kids g x.
Proof. intros H1 H2. unfold kids. by apply (both_sides s (λ i, ∀ c, _child i x = Some c → is_Some (g !! c))). Qed.

(** The node [m] is not among the parents [l] of [P] and not at the other side of [P]. *)
Definition spare g (P : id) (i : Side) (l : list id) (m : id) : Prop :=
  m ∉ l ∧ ∀ x, g !! P = Some x → _child (negb i) x ≠ Some m.

(** The subtree [T] hangs at the side [i] of [P], and [l] is the way from [P] to the root. *)
Record hangs g (P : id) (i : Side) (T : shape) (l : list id) : Prop := Hangs {
  hangs_rep : rep g (Some P) T;
  hangs_nodup : NoDup (nodes T);
  hangs_climbs : climbs g P l;
  hangs_path : NoDup l;
  hangs_spare m : m ∈ nodes T → spare g P i l m;
  hangs_child x : g !! P = Some x → _child i x = root_of T }.

(** [T'] has taken the place of [T] at the side [i] of [P]. *)
Record replaced g g' (P : id) (i : Side) (T T' : shape) : Prop := Replaced {
  rpl_rep : rep g' (Some P) T';
  rpl_parent : g' !! P = set_child i (root_of T') <$> g !! P;
  rpl_frame m : m ≠ P → m ∉ nodes T → m ∉ nodes T' → g' !! m = g !! m;
  rpl_data m : data <$> g' !! m = data <$> g !! m }.

Lemma same_data_dom g g' : (∀ m, data <$> g' !! m = data <$> g !! m) → ∀ m, is_Some (g !! m) → is_Some (g' !! m).
Proof. intros Hd m Hm. rewrite <- (fmap_is_Some data), Hd. by apply fmap_is_Some. Qed.

Lemma hangs_top g P i T l : hangs g P i T l → ∃ x, g !! P = Some x ∧ kids g x ∧ P ∈ l.
Proof.
  intros H. destruct (hangs_climbs _ _ _ _ _ H) as [n x Hx _ Hk|n x p l' Hx _ Hk _]; exists x; (split_and!; [done|done|constructor]).
Qed.

Lemma replaced_refl g P i T l : hangs g P i T l → replaced g g P i T T.
Proof.
  intros H. destruct (hangs_top _ _ _ _ _ H) as (x & Hx & _). split; [by apply H| |done|done].
  rewrite Hx. cbn. f_equal. rewrite <- (hangs_child _ _ _ _ _ H x Hx). symmetry. apply set_child_same.
Qed.

Lemma replaced_trans g g1 g2 P i T T1 T2 :
  replaced g g1 P i T T1 → replaced g1 g2 P i T1 T2 → (∀ m, m ∈ nodes T1 → m ∈ nodes T ∨ m ∈ nodes T2) → replaced g g2 P i T T2.
Proof.
  intros H1 H2 Hsub. split; [by apply H2| | |].
  - rewrite (rpl_parent _ _ _ _ _ _ H2), (rpl_parent _ _ _ _ _ _ H1). destruct (g !! P); [|done]. cbn. by rewrite set_child_set.
  - intros m HP HT HT2. assert (m ∉ nodes T1) by (intros Hm; by destruct (Hsub m Hm)).
    by rewrite (rpl_frame _ _ _ _ _ _ H2), (rpl_frame _ _ _ _ _ _ H1).
  - intros m. by rewrite (rpl_data _ _ _ _ _ _ H2), (rpl_data _ _ _ _ _ _ H1).
Qed.

Lemma replaced_hangs g g' P i T T' l :
  hangs g P i T l → replaced g g' P i T T' → NoDup (nodes T') → (∀ m, m ∈ nodes T' → spare g P i l m) → hangs g' P i T' l.
Proof.
  intros H Hr Hnd Hsp. destruct (hangs_top _ _ _ _ _ H) as (x & Hx & Hk & HP).
  pose proof (rpl_parent _ _ _ _ _ _ Hr) as HxP. rewrite Hx in HxP. cbn in HxP.
  pose proof (same_data_dom g g' (rpl_data _ _ _ _ _ _ Hr)) as Hdom.
  assert (kids g' (set_child i (root_of T') x)) as Hk'.
  { apply (kids_intro i); intros c; [rewrite child_set|rewrite child_set_other].
    - intros Hc. destruct (rep_root _ _ _ _ (rpl_rep _ _ _ _ _ _ Hr) Hc) as (z & Hz & _). by eexists.
    - intros Hc. by apply Hdom, (Hk (negb i)). }
  split; [by apply Hr|done| |by apply H| |].
  - assert (∀ m, m ∈ l → m ≠ P → g' !! m = g !! m) as He.
    { intros m Hm HmP. apply (rpl_frame _ _ _ _ _ _ Hr); [done| |]; intros Hin;
        [by destruct (hangs_spare _ _ _ _ _ H m Hin)|by destruct (Hsp m Hin)]. }
    pose proof (hangs_path _ _ _ _ _ H) as Hnl. destruct (hangs_climbs _ _ _ _ _ H) as [P x' Hx' Hp _|P x' p l Hx' Hp _ Hc];
      assert (x' = x) as -> by congruence.
    + eapply climbs_root; [done|by rewrite parent_set_child|done].
    + apply NoDup_cons in Hnl as [HPl _]. eapply climbs_up; [done|by rewrite parent_set_child|done|].
      apply (climbs_ext g); [|done..]. intros m Hm. apply He; [by constructor|by intros ->].
  - intros m Hm. destruct (Hsp m Hm) as [Hml Hmc]. split; [done|]. intros x' Hx'. assert (x' = set_child i (root_of T') x) as -> by congruence.
    rewrite child_set_other. by apply Hmc.
  - intros x' Hx'. assert (x' = set_child i (root_of T') x) as -> by congruence. apply child_set.
Qed.

Lemma in_mk_top i a n b : n ∈ nodes (mk i a n b).
Proof. apply elem_of_mk. by left. Qed.
Lemma in_mk_at i a n b m : m ∈ nodes a → m ∈ nodes (mk i a n b).
Proof. intros ?. apply elem_of_mk. auto. Qed.
Lemma in_mk_other i a n b m : m ∈ nodes b → m ∈ nodes (mk i a n b).
Proof. intros ?. apply elem_of_mk. auto. Qed.

Lemma root_mk i a n b : root_of (mk i a n b) = Some n.
Proof. by destruct i. Qed.

Lemma mk_negb i a n b : mk (negb i) a n b = mk i b n a.
Proof. by destruct i. Qed.

(** One level down. *)
Lemma hangs_down g P i s a n b l : hangs g P i (mk s a n b) l → hangs g n s a (n :: l).
Proof.
  intros H. pose proof (hangs_rep _ _ _ _ _ H) as Hrep. apply rep_mk in Hrep as (x & Hx & Ea & Eb & Ep & Ha & Hb).
  pose proof (hangs_nodup _ _ _ _ _ H) as Hnd. apply NoDup_mk in Hnd as (Na & Nb & Hna & Hnb & Hab).
  destruct (hangs_spare _ _ _ _ _ H n (in_mk_top _ _ _ _)) as [Hnl _].
  split; [done|done| | | |].
  - apply (climbs_up _ n x P); [done|done| |by apply H]. apply (rep_kids g (Some P) (mk s a n b) n); [by apply H|apply in_mk_top|done].
  - apply NoDup_cons. split; [done|by apply H].
  - intros m Hm. destruct (hangs_spare _ _ _ _ _ H m (in_mk_at _ _ _ _ _ Hm)) as [Hml _]. split.
    + apply not_elem_of_cons. split; [by intros ->|done].
    + intros x' Hx' Hc. assert (x' = x) as -> by congruence. apply (Hab m Hm). apply root_in. congruence.
  - intros x' Hx'. by assert (x' = x) as -> by congruence.
Qed.

(** One level up. *)
Lemma replaced_up g g' P i s a a' n b l :
  hangs g P i (mk s a n b) l → replaced g g' n s a a' → P ∉ nodes a' → n ∉ nodes a' → (∀ m, m ∈ nodes a' → m ∉ nodes b) →
  replaced g g' P i (mk s a n b) (mk s a' n b).
Proof.
  intros H Hr HP Hn Hab'. pose proof (hangs_rep _ _ _ _ _ H) as Hrep. apply rep_mk in Hrep as (x & Hx & Ea & Eb & Ep & Ha & Hb).
  pose proof (hangs_nodup _ _ _ _ _ H) as Hnd. apply NoDup_mk in Hnd as (Na & Nb & Hna & Hnb & Hab).
  assert (∀ m, m ∈ nodes (mk s a n b) → m ≠ P) as HnP.
  { intros m Hm ->. destruct (hangs_spare _ _ _ _ _ H P Hm) as [Hl _]. apply Hl. apply (climbs_head g). by apply H. }
  destruct (hangs_top _ _ _ _ _ H) as (xP & HxP & _). split.
  - apply rep_mk. exists (set_child s (root_of a') x). rewrite (rpl_parent _ _ _ _ _ _ Hr), Hx, child_set, child_set_other, parent_set_child.
    split_and!; [done..|by apply Hr|]. apply (rep_ext g); [done|]. intros m Hm. apply (rpl_frame _ _ _ _ _ _ Hr); [by intros ->| |].
    + intros Hma. by apply (Hab m).
    + intros Hma. by apply (Hab' m).
  - rewrite (rpl_frame _ _ _ _ _ _ Hr); [|intros ->; by apply (HnP n (in_mk_top _ _ _ _))|intros Hma; by apply (HnP P (in_mk_at _ _ _ _ _ Hma))|done].
    rewrite HxP. cbn. f_equal. rewrite root_mk, <- (root_mk s a n b), <- (hangs_child _ _ _ _ _ H xP HxP). symmetry. apply set_child_same.
  - intros m HmP Hm Hm'. rewrite elem_of_mk in Hm, Hm'. apply (rpl_frame _ _ _ _ _ _ Hr); tauto.
  - apply Hr.
Qed.

Lemma climbs_link this c i g P l : climbs g P l → this ∉ l → (∀ d, c = Some d → d ∉ l) → climbs (link this c i g) P l.
Proof.
  intros Hc Ht Hd. apply (climbs_ext g); [|intros m; apply link_dom|done]. intros m Hm. rewrite lookup_link.
  destruct (g !! m) as [x|]; [|done]. cbn. rewrite link_node_other; [done|by intros ->|]. intros ->. by apply (Hd m).
Qed.

Lemma link_top this c i g x : g !! this = Some x → c ≠ Some this → link this c i g !! this = Some (set_child i c x).
Proof. intros Hx Hc. by rewrite lookup_link, Hx; cbn; rewrite link_node_this. Qed.

Lemma link_other this c i g m : m ≠ this → c ≠ Some m → link this c i g !! m = g !! m.
Proof. intros H1 H2. rewrite lookup_link. destruct (g !! m); [|done]. cbn. by rewrite link_node_other. Qed.

Lemma link_child this c i g x : g !! c = Some x → c ≠ this → link this (Some c) i g !! c = Some (set_parent (Some this) x).
Proof. intros Hx Hc. by rewrite lookup_link, Hx; cbn; rewrite link_node_child. Qed.

Lemma link_data this c i g m : data <$> link this c i g !! m = data <$> g !! m.
Proof.
  rewrite lookup_link. destruct (g !! m) as [x|]; [|done]. cbn. f_equal. unfold link_node.
  by repeat case_decide; cbn; rewrite ?data_set_child.
Qed.

Lemma kids_link s this c g x : kids g x → (∀ d, c = Some d → is_Some (g !! d)) → kids (link this c s g) (set_child s c x).
Proof.
  intros Hk Hc. apply (kids_intro s); intros d; [rewrite child_set|rewrite child_set_other]; intros Hd; apply link_dom; eauto.
Qed.

Lemma climbs_link_head this c i g l :
  climbs g this l → NoDup l → (∀ d, c = Some d → is_Some (g !! d) ∧ d ∉ l) → climbs (link this c i g) this l.
Proof.
  intros Hc Hnd Hd. assert (this ∈ l) as Hin by (by apply (climbs_head g)).
  assert (c ≠ Some this) as Hct by (intros ->; by destruct (Hd this eq_refl)).
  destruct Hc as [n x Hx Hp Hk|n x p l Hx Hp Hk Hc].
  - eapply climbs_root; [by apply link_top|by rewrite parent_set_child|]. apply kids_link; [done|]. intros d E. by apply Hd.
  - apply NoDup_cons in Hnd as [Hnl Hnd]. eapply climbs_up; [by apply link_top|by rewrite parent_set_child| |].
    + apply kids_link; [done|]. intros d E. by apply Hd.
    + apply climbs_link; [done|done|]. intros d E. destruct (Hd d E) as [_ Hdl]. by apply not_elem_of_cons in Hdl as [_ ?].
Qed.

(** The links that a simple rotation sets. *)
Definition turn (P : id) (i s : Side) (n : id) (rl : option id) (r : id) g : links :=
  link P (Some r) i (link r (Some n) s (link n rl (negb s) g)).

(** The links that a double rotation sets. *)
Definition turn2 (P : id) (i s : Side) (n : id) (kl : option id) (k : id) (kr : option id) (r : id) g : links :=
  link P (Some k) i (link k (Some r) (negb s) (link k (Some n) s (link r kr s (link n kl (negb s) g)))).

(** What is known of a node [m] in a subtree that a rotation moves as a whole. *)
Definition apart (P n r : id) (l : list id) (X Y : shape) (m : id) : Prop :=
  m ≠ P ∧ m ≠ n ∧ m ≠ r ∧ m ∉ l ∧ m ∉ nodes X ∧ m ∉ nodes Y.

Lemma not_root X m : m ∉ nodes X → root_of X ≠ Some m.
Proof. by intros Hm E%root_in. Qed.

Lemma hangs_apart1 g P i s a n rl r c l :
  hangs g P i (mk s a n (mk s rl r c)) l →
  (P ∈ l ∧ n ∉ l ∧ r ∉ l ∧ n ≠ P ∧ r ≠ P ∧ n ≠ r) ∧
  (∀ m, m ∈ nodes a → apart P n r l rl c m) ∧ (∀ m, m ∈ nodes rl → apart P n r l a c m) ∧ (∀ m, m ∈ nodes c → apart P n r l a rl m).
Proof.
  intros H. pose proof (hangs_nodup _ _ _ _ _ H) as Hnd. apply NoDup_mk in Hnd as (Na & Nr & Hna & Hnr & Har).
  apply NoDup_mk in Nr as (Nrl & Nc & Hrrl & Hrc & Hrlc). setoid_rewrite elem_of_mk in Har. rewrite elem_of_mk in Hnr.
  assert (∀ m, m ∈ nodes (mk s a n (mk s rl r c)) → m ∉ l) as Hl by (intros m Hm; by destruct (hangs_spare _ _ _ _ _ H m Hm)).
  setoid_rewrite elem_of_mk in Hl. setoid_rewrite elem_of_mk in Hl. pose proof (climbs_head _ _ _ (hangs_climbs _ _ _ _ _ H)) as HP.
  unfold apart. naive_solver.
Qed.

Lemma turn_replaced g P i s a n rl r c l :
  hangs g P i (mk s a n (mk s rl r c)) l →
  replaced g (turn P i s n (root_of rl) r g) P i (mk s a n (mk s rl r c)) (mk s (mk s a n rl) r c).
Proof.
  intros H. pose proof (hangs_nodup _ _ _ _ _ H) as Hnd. apply NoDup_mk in Hnd as (Na & (Nrl & Nc & _)%NoDup_mk & _).
  destruct (hangs_apart1 _ _ _ _ _ _ _ _ _ _ H) as ((HP & Hn & Hr & HnP & HrP & Hnr) & Aa & Arl & Ac).
  pose proof (hangs_rep _ _ _ _ _ H) as (xn & Hxn & En0 & En1 & Enp & Ra & (xr & Hxr & Er0 & Er1 & Erp & Rrl & Rc)%rep_mk)%rep_mk.
  rewrite root_mk in En1. destruct (hangs_top _ _ _ _ _ H) as (xP & HxP & _).
  assert (∀ m, root_of rl = Some m → m ∈ nodes rl) as Hrl by apply root_in.
  assert (root_of rl ≠ Some n ∧ root_of rl ≠ Some r ∧ root_of rl ≠ Some P) as (Hrln & Hrlr & HrlP).
  { split_and!; intros E%Hrl%Arl; by destruct E as (?&?&?&_). }
  assert (link n (root_of rl) (negb s) g !! n = Some (set_child (negb s) (root_of rl) xn)) as E1 by (by apply link_top).
  unfold turn. split.
  - apply rep_mk. exists (set_parent (Some P) (set_child s (Some n) xr)).
    rewrite (link_child _ _ _ _ (set_child s (Some n) xr)); [|apply link_top; [rewrite link_other by congruence; done|congruence]|done].
    rewrite !child_set_parent, child_set, child_set_other, root_mk. split_and!; try done.
    + apply rep_mk. exists (set_parent (Some r) (set_child (negb s) (root_of rl) xn)).
      rewrite link_other, (link_child _ _ _ _ _ E1) by congruence.
      rewrite !child_set_parent, child_set, child_set_other'. split_and!; try done.
      * apply (rep_ext g); [done|]. intros m (?&?&?&?&?%not_root&?)%Aa. rewrite !link_other by congruence. done.
      * apply (rep_move g _ (Some r) (Some n)); [done..|]. intros m x Hm Hx. pose proof (Arl m Hm) as (?&?&?&?&?&?).
        rewrite 2!link_other by congruence. case_decide as E; [rewrite E; by apply link_child|by rewrite link_other].
    + apply (rep_ext g); [done|]. intros m (?&?&?&?&_&?%not_root)%Ac. rewrite !link_other by congruence. done.
  - rewrite HxP, root_mk. apply link_top; [|congruence]. rewrite !link_other by congruence. done.
  - intros m HmP Hm _. rewrite !elem_of_mk in Hm. assert (root_of rl ≠ Some m) by (intros ?%root_in; tauto).
    rewrite !link_other; [done|naive_solver..].
  - intros m. by rewrite !link_data.
Qed.

Definition apart2 (P n r k : id) (l : list id) (X Y Z : shape) (m : id) : Prop :=
  m ≠ k ∧ m ∉ nodes Z ∧ apart P n r l X Y m.

Lemma hangs_apart2 g P i s a n kl k kr r c l :
  hangs g P i (mk s a n (mk s (mk s kl k kr) r c)) l →
  (P ∈ l ∧ n ∉ l ∧ r ∉ l ∧ k ∉ l) ∧ (n ≠ P ∧ r ≠ P ∧ k ≠ P ∧ n ≠ r ∧ n ≠ k ∧ r ≠ k) ∧
  (∀ m, m ∈ nodes a → apart2 P n r k l kl kr c m) ∧ (∀ m, m ∈ nodes kl → apart2 P n r k l a kr c m) ∧
  (∀ m, m ∈ nodes kr → apart2 P n r k l a kl c m) ∧ (∀ m, m ∈ nodes c → apart2 P n r k l a kl kr m).
Proof.
  intros H. pose proof (hangs_nodup _ _ _ _ _ H) as Hnd. apply NoDup_mk in Hnd as (_ & Nr & _).
  apply NoDup_mk in Nr as (Nk & _ & Hrk & _ & Hkc). apply NoDup_mk in Nk as (_ & _ & Hkkl & Hkkr & Hklr).
  destruct (hangs_apart1 _ _ _ _ _ _ _ _ _ _ H) as ((HP & Hn & Hr & HnP & HrP & Hnr) & Aa & Ak & Ac).
  assert (k ∈ nodes (mk s kl k kr)) as Hk by apply in_mk_top. setoid_rewrite elem_of_mk in Hkc. rewrite elem_of_mk in Hrk.
  pose proof (Ak k Hk) as (?&?&?&?&_). unfold apart2, apart in *. setoid_rewrite elem_of_mk in Aa. setoid_rewrite elem_of_mk in Ak.
  setoid_rewrite elem_of_mk in Ac. split_and!; try done; try congruence; intros m Hm.
  - pose proof (Aa m Hm). tauto.
  - pose proof (Ak m (or_intror (or_introl Hm))). split_and!; try tauto; [by intros ->|by apply Hklr].
  - pose proof (Ak m (or_intror (or_intror Hm))). split_and!; try tauto; [by intros ->|intros Hm'; by apply (Hklr m)].
  - pose proof (Ac m Hm). tauto.
Qed.

Lemma turn2_replaced g P i s a n kl k kr r c l :
  hangs g P i (mk s a n (mk s (mk s kl k kr) r c)) l →
  replaced g (turn2 P i s n (root_of kl) k (root_of kr) r g) P i
    (mk s a n (mk s (mk s kl k kr) r c)) (mk s (mk s a n kl) k (mk s kr r c)).
Proof.
  intros H. pose proof (hangs_nodup _ _ _ _ _ H) as Hnd. apply NoDup_mk in Hnd as (Na & ((Nkl & Nkr & _)%NoDup_mk & Nc & _)%NoDup_mk & _).
  destruct (hangs_apart2 _ _ _ _ _ _ _ _ _ _ _ _ H) as ((HP & Hn & Hr & Hk) & (HnP & HrP & HkP & Hnr & Hnk & Hrk) & Aa & Akl & Akr & Ac).
  pose proof (hangs_rep _ _ _ _ _ H) as (xn & Hxn & En0 & En1 & Enp & Ra & (xr & Hxr & Er0 & Er1 & Erp & Rk & Rc)%rep_mk)%rep_mk.
  pose proof Rk as (xk & Hxk & Ek0 & Ek1 & Ekp & Rkl & Rkr)%rep_mk.
  destruct (hangs_top _ _ _ _ _ H) as (xP & HxP & _).
  assert (∀ m, m = n ∨ m = r ∨ m = k ∨ m = P → root_of kl ≠ Some m ∧ root_of kr ≠ Some m) as Hroots.
  { intros m Hm. split; apply not_root; intros Hm'; [apply Akl in Hm'|apply Akr in Hm']; unfold apart2, apart in Hm'; naive_solver. }
  destruct (Hroots n) as [? ?]; [tauto|]. destruct (Hroots r) as [? ?]; [tauto|].
  destruct (Hroots k) as [? ?]; [tauto|]. destruct (Hroots P) as [? ?]; [tauto|].
  unfold turn2. set (g1 := link n _ _ g). set (g2 := link r _ _ g1). set (g3 := link k _ _ g2). set (g4 := link k _ _ g3).
  assert (g2 !! n = Some (set_child (negb s) (root_of kl) xn)) as E1 by (unfold g2; rewrite link_other by congruence; by apply link_top).
  assert (g3 !! r = Some (set_child s (root_of kr) xr)) as E2.
  { unfold g3, g2. rewrite link_other by congruence. apply link_top; [|done]. unfold g1. by rewrite link_other. }
  assert (g4 !! k = Some (set_child (negb s) (Some r) (set_child s (Some n) xk))) as E3.
  { apply link_top; [|congruence]. apply link_top; [|congruence]. unfold g2, g1. by rewrite !link_other by congruence. }
  split.
  - apply rep_mk. exists (set_parent (Some P) (set_child (negb s) (Some r) (set_child s (Some n) xk))). rewrite !root_mk.
    rewrite (link_child _ _ _ _ _ E3), !child_set_parent, child_set, child_set_other', child_set by done. split_and!; try done.
    + apply rep_mk. exists (set_parent (Some k) (set_child (negb s) (root_of kl) xn)). unfold g4.
      rewrite 2!(link_other _ _ _ _ n) by congruence. unfold g3. rewrite (link_child _ _ _ _ _ E1), !child_set_parent, child_set, child_set_other' by congruence. split_and!; try done.
      * apply (rep_ext g); [done|]. intros m (?&?&?&?&?&?&?%not_root&?%not_root)%Aa. unfold g3, g2, g1. by rewrite !link_other by congruence.
      * apply (rep_move g _ (Some k) (Some n)); [done..|]. intros m x Hm Hx. pose proof (Akl m Hm) as (?&?&?&?&?&?&?&?%not_root).
        unfold g3, g2, g1. rewrite !(link_other _ _ _ _ m) by congruence. case_decide as E; [rewrite E; by apply link_child|by rewrite link_other].
    + apply rep_mk. exists (set_parent (Some k) (set_child s (root_of kr) xr)). unfold g4.
      rewrite !(link_other P _ _ _ r), (link_child _ _ _ _ _ E2), !child_set_parent, child_set, child_set_other by congruence. split_and!; try done.
      * apply (rep_move g _ (Some k) (Some r)); [done..|]. intros m x Hm Hx. pose proof (Akr m Hm) as (?&?&?&?&?&?&?&?%not_root).
        unfold g3, g2, g1. rewrite !(link_other P _ _ _ m), !(link_other k _ _ _ m) by congruence.
        case_decide as E; [rewrite E; apply link_child; [by rewrite link_other|done]|by rewrite !link_other].
      * apply (rep_ext g); [done|]. intros m (?&?%not_root&?&?&?&?&_&?%not_root)%Ac. unfold g3, g2, g1. by rewrite !link_other by congruence.
  - rewrite HxP, root_mk. apply link_top; [|congruence]. unfold g4, g3, g2, g1. by rewrite !link_other by congruence.
  - intros m HmP Hm _. rewrite !elem_of_mk in Hm. assert (root_of kl ≠ Some m ∧ root_of kr ≠ Some m) as [? ?] by (split; apply not_root; tauto).
    assert (m ≠ n ∧ m ≠ r ∧ m ≠ k) as (?&?&?) by tauto. unfold g4, g3, g2, g1. by rewrite !link_other by congruence.
  - intros m. unfold g4, g3, g2, g1. by rewrite !link_data.
Qed.

End Trees.

(** ** Rotation *)

Section Balance.
Context {D M : Type} `{Policy D M}.
Abbreviation heap := (gmap id (node D M)).
Implicit Types h : heap.

Lemma adopt_climbs this c i h l :
  climbs (bare h) this l → NoDup l → (∀ d, c = Some d → is_Some (bare h !! d) ∧ d ∉ l) →
  ∃ h', _adopt this c i h = Some h' ∧ bare h' = link this c i (bare h) ∧ (∀ m, m ∉ l → dep h' m = dep h m) ∧
    ((∀ x d, bare h !! this = Some x → _child (negb i) x = Some d → d ∉ l) → consistent (bare h') (dep h') this).
Proof.
  intros Hc Hnd Hd. assert (this ∈ l) as Hin by (by apply (climbs_head (bare h))).
  destruct (climbs_dom _ _ _ _ Hc Hin) as [x Hx].
  assert (c ≠ Some this) as Hct by (intros ->; by destruct (Hd this eq_refl)).
  destruct (adopt_run this c i h l) as (h' & Hr & Eb & Hdep & Hcon); [..|exists h'; split_and!; try done].
  - apply bare_is_some. by eexists.
  - intros d E. apply bare_is_some. by apply Hd.
  - by apply climbs_link_head.
  - done.
  - intros Hother. apply Hcon. intros z i' d Hz. rewrite (link_top _ _ _ _ x) in Hz by done. injection Hz as <-.
    revert i'. apply (both_sides i (λ i', _child i' (set_child i c x) = Some d → d ∉ l)); [rewrite child_set|rewrite child_set_other].
    + intros E. by apply Hd.
    + intros E. by apply (Hother x).
Qed.

(** The node [n] with a single child is replaced by the child. *)
Lemma lift_replaced (g : gmap id (node D unit)) P i s c n l :
  hangs g P i (mk s c n Leaf) l → replaced g (link P (root_of c) i g) P i (mk s c n Leaf) c.
Proof.
  intros Hh. pose proof (hangs_rep _ _ _ _ _ Hh) as (x & Hx & Ea & Eb & Ep & Ha & _)%rep_mk.
  pose proof (hangs_nodup _ _ _ _ _ Hh) as (Na & _ & Hna & _)%NoDup_mk.
  pose proof (climbs_head _ _ _ (hangs_climbs _ _ _ _ _ Hh)) as HPl.
  assert (P ∉ nodes c) as HP by (intros E; by destruct (hangs_spare _ _ _ _ _ Hh P (in_mk_at _ _ _ _ _ E))).
  destruct (hangs_top _ _ _ _ _ Hh) as (xP & HxP & _). split.
  - apply (rep_move g _ (Some n) (Some P) c Ha Na). intros m z Hm Hz. case_decide as Hroot.
    + rewrite Hroot. apply link_child; [done|]. by intros ->.
    + rewrite link_other; [done|by intros ->|done].
  - rewrite HxP. apply link_top; [done|by apply not_root].
  - intros m HmP _ Hm. apply link_other; [done|by apply not_root].
  - intros m. apply link_data.
Qed.

Lemma adopt_lift h P i s c n l :
  hangs (bare h) P i (mk s c n Leaf) l → ∃ h', _adopt P (root_of c) i h = Some h' ∧ bare h' = link P (root_of c) i (bare h).
Proof.
  intros Hh. pose proof (hangs_rep _ _ _ _ _ Hh) as Hrep.
  destruct (adopt_climbs P (root_of c) i h l) as (h' & Hr & E & _); [by apply Hh|by apply Hh| |by exists h'].
  intros d E%root_in%(in_mk_at s _ n Leaf). split; [by apply (rep_dom _ _ _ _ Hrep)|by apply (hangs_spare _ _ _ _ _ Hh)].
Qed.

Lemma link_kids_eq this c i (g : gmap id (node D unit)) q : q ≠ this → ∀ x, g !! q = Some x →
  ∃ x', link this c i g !! q = Some x' ∧ (∀ j, _child j x' = _child j x) ∧ (is_Some (_parent x) → is_Some (_parent x')).
Proof.
  intros Hq x Hx. destruct (decide (c = Some q)) as [->|Hc].
  - eexists. split; [by apply link_child|]. split; [intros j; apply child_set_parent|]. intros _. by eexists.
  - exists x. by rewrite link_other.
Qed.

(** [this] adopts a node although its parent [p] is not above it any more, and stops there. *)
Lemma adopt_behind this c i h p x xp :
  bare h !! this = Some x → _parent x = Some p → kids (bare h) x → c ≠ Some this → _child (negb i) x ≠ Some this →
  (∀ d, c = Some d → is_Some (bare h !! d)) →
  bare h !! p = Some xp → kids (bare h) xp → is_Some (_parent xp) → p ≠ this → (∀ j, _child j xp ≠ Some this) →
  consistent (bare h) (dep h) p →
  ∃ h', _adopt this c i h = Some h' ∧ bare h' = link this c i (bare h) ∧ (∀ m, m ≠ this → dep h' m = dep h m) ∧ consistent (bare h') (dep h') this.
Proof.
  intros Hx Hp Hk Hct Hself Hd Hxp Hkp Hpp Hne Hno Hcon.
  destruct (link_kids_eq this c i (bare h) p Hne xp Hxp) as (xp' & Hxp' & Hch & Hpar).
  destruct (adopt_stop this c i h p (set_child i c x) xp') as (h' & Hr & E & Hdep & Hcon').
  - apply bare_is_some. by eexists.
  - intros d Hc. by apply bare_is_some, Hd.
  - by apply link_top.
  - by rewrite parent_set_child.
  - by apply kids_link.
  - done.
  - intros j d. rewrite Hch. intros Hj. by apply link_dom, (Hkp j).
  - by apply Hpar.
  - by apply (consistent_ext (bare h) _ (dep h) _ p xp xp').
  - done.
  - intros j. rewrite Hch. apply Hno.
  - apply (both_sides i (λ j, _child j (set_child i c x) ≠ Some this)); by rewrite ?child_set, ?child_set_other.
  - exists h'. rewrite E. by split_and!.
Qed.

Lemma consistent_link this c i (g : gmap id (node D unit)) δ δ' q x :
  consistent g δ q → q ≠ this → g !! q = Some x → (∀ j, _child j x ≠ Some this) → (∀ m, m ≠ this → δ' m = δ m) →
  consistent (link this c i g) δ' q.
Proof.
  intros Hcon Hq Hx Hno Hδ. destruct (link_kids_eq this c i g q Hq x Hx) as (x' & Hx' & Hch & _).
  apply (consistent_ext g _ δ _ q x x'); try done; [by apply Hδ|]. intros j d Hj. apply Hδ. intros ->. by apply (Hno j).
Qed.

(** The first step of a rotation: [n] adopts a subtree [X] of its other child. *)
Lemma turn_first h P i s a n b l X :
  hangs (bare h) P i (mk s a n b) l → (∀ m, m ∈ nodes X → m ∈ nodes b) →
  ∃ h1, _adopt n (root_of X) (negb s) h = Some h1 ∧ bare h1 = link n (root_of X) (negb s) (bare h) ∧ consistent (bare h1) (dep h1) n.
Proof.
  intros Hh HX. pose proof (hangs_rep _ _ _ _ _ Hh) as Hrep. pose proof Hrep as (xn & Hxn & En0 & _)%rep_mk.
  pose proof (hangs_down _ _ _ _ _ _ _ _ Hh) as Hhn.
  assert (∀ m, m ∈ nodes (mk s a n b) → m ≠ n → m ∉ n :: l) as Hl.
  { intros m Hm Hmn. apply not_elem_of_cons. split; [done|]. by destruct (hangs_spare _ _ _ _ _ Hh m Hm). }
  pose proof (hangs_nodup _ _ _ _ _ Hh) as (_ & _ & Hna & Hnb & _)%NoDup_mk.
  destruct (adopt_climbs n (root_of X) (negb s) h (n :: l)) as (h1 & R1 & E1 & _ & C1); [apply Hhn|apply Hhn| |].
  - intros d E%root_in%HX. split; [by apply (rep_dom _ _ _ _ Hrep), in_mk_other|].
    apply Hl; [by apply in_mk_other|by intros ->].
  - exists h1. split_and!; [done|done|]. apply C1. intros x d. rewrite Hxn, negb_involutive. intros [= <-]. rewrite En0. intros E%root_in.
    apply Hl; [by apply in_mk_at|by intros ->].
Qed.

(** The last step of a rotation: [P] adopts the new top [r]. *)
Lemma turn_last h P r i l :
  climbs (bare h) P l → NoDup l → is_Some (bare h !! r) → r ∉ l →
  ∃ h', _adopt P (Some r) i h = Some h' ∧ bare h' = link P (Some r) i (bare h).
Proof.
  intros Hc Hnd Hr Hrl. destruct (adopt_climbs P (Some r) i h l) as (h' & R & E & _); [done..| |by exists h'].
  by intros d [= <-].
Qed.

(** The simple rotation. *)
Lemma turn_run h P i s a n rl r c l :
  hangs (bare h) P i (mk s a n (mk s rl r c)) l →
  ∃ h', (h1 ← _adopt n (root_of rl) (negb s) h; h2 ← _adopt r (Some n) s h1; _adopt P (Some r) i h2) = Some h' ∧
    bare h' = turn P i s n (root_of rl) r (bare h).
Proof.
  intros Hh. destruct (hangs_apart1 _ _ _ _ _ _ _ _ _ _ Hh) as ((HP & Hn & Hr & HnP & HrP & Hnr) & Aa & Arl & Ac).
  pose proof (hangs_rep _ _ _ _ _ Hh) as (xn & Hxn & En0 & En1 & Enp & Ra & (xr & Hxr & Er0 & Er1 & Erp & Rrl & Rc)%rep_mk)%rep_mk.
  assert (kids (bare h) xn) as Kn by (eapply (rep_kids _ _ _ n), Hxn; [by apply Hh|apply in_mk_top]).
  assert (kids (bare h) xr) as Kr by (eapply (rep_kids _ _ _ r), Hxr; [by apply Hh|apply in_mk_other, in_mk_top]).
  assert (∀ d, root_of rl = Some d → is_Some (bare h !! d) ∧ d ≠ n ∧ d ≠ r ∧ d ∉ l) as Hrl.
  { intros d E. pose proof E as (?&?&?&?&_)%root_in%Arl. by destruct (rep_root _ _ _ _ Rrl E) as (z & Hz & _); split_and!. }
  assert (root_of rl ≠ Some r ∧ root_of rl ≠ Some n) as [Hrlr Hrln] by (split; intros E; destruct (Hrl _ E) as (_ & ? & ? & _); done).
  destruct (turn_first _ _ _ _ _ _ _ _ rl Hh) as (h1 & R1 & E1 & C1); [intros m; by apply in_mk_at|].
  rewrite R1. cbn [mbind option_bind].
  assert (bare h1 !! n = Some (set_child (negb s) (root_of rl) xn)) as Hn1 by (rewrite E1; by apply link_top).
  assert (bare h1 !! r = Some xr) as Hr1 by (rewrite E1, link_other; done || congruence).
  destruct (adopt_behind r (Some n) s h1 n xr (set_child (negb s) (root_of rl) xn)) as (h2 & R2 & E2 & _ & _); try done.
  - rewrite E1. intros j d Hd. by apply link_dom, (Kr j).
  - congruence.
  - rewrite Er1. by intros (?&?&?&?)%root_in%Ac.
  - intros d [= <-]. by eexists.
  - rewrite E1. apply kids_link; [done|]. intros d E. by apply Hrl.
  - rewrite parent_set_child, Enp. by eexists.
  - apply (both_sides (negb s) (λ j, _child j (set_child (negb s) (root_of rl) xn) ≠ Some r)); rewrite ?child_set, ?child_set_other; [done|].
    rewrite negb_involutive, En0. by intros (?&?&?&?)%root_in%Aa.
  - rewrite R2. cbn [mbind option_bind]. destruct (turn_last h2 P r i l) as (h3 & R3 & E3); [|by apply Hh|by rewrite E2; apply link_dom; eexists|done|].
    + rewrite E2, E1. apply climbs_link; [apply climbs_link; [apply Hh|done|]|done|by intros d [= <-]]. intros d E. by apply Hrl.
    + exists h3. by rewrite R3, E3, E2, E1.
Qed.

(** The double rotation. *)
Lemma turn2_run h P i s a n kl k kr r c l :
  hangs (bare h) P i (mk s a n (mk s (mk s kl k kr) r c)) l →
  ∃ h', (h1 ← _adopt n (root_of kl) (negb s) h; h2 ← _adopt r (root_of kr) s h1; h3 ← _adopt k (Some n) s h2;
         h4 ← _adopt k (Some r) (negb s) h3; _adopt P (Some k) i h4) = Some h' ∧
    bare h' = turn2 P i s n (root_of kl) k (root_of kr) r (bare h).
Proof.
  intros Hh. destruct (hangs_apart2 _ _ _ _ _ _ _ _ _ _ _ _ Hh) as ((HP & Hn & Hr & Hk) & (HnP & HrP & HkP & Hnr & Hnk & Hrk) & Aa & Akl & Akr & Ac).
  pose proof (hangs_rep _ _ _ _ _ Hh) as (xn & Hxn & En0 & En1 & Enp & Ra & (xr & Hxr & Er0 & Er1 & Erp & Rk & Rc)%rep_mk)%rep_mk.
  pose proof Rk as (xk & Hxk & Ek0 & Ek1 & Ekp & Rkl & Rkr)%rep_mk.
  assert (kids (bare h) xn) as Kn by (eapply (rep_kids _ _ _ n), Hxn; [by apply Hh|apply in_mk_top]).
  assert (kids (bare h) xr) as Kr by (eapply (rep_kids _ _ _ r), Hxr; [by apply Hh|apply in_mk_other, in_mk_top]).
  assert (kids (bare h) xk) as Kk by (eapply (rep_kids _ _ _ k), Hxk; [by apply Hh|apply in_mk_other, in_mk_at, in_mk_top]).
  assert (∀ d, root_of kl = Some d → is_Some (bare h !! d) ∧ d ≠ n ∧ d ≠ r ∧ d ≠ k ∧ d ∉ l) as Hkl.
  { intros d E. pose proof E as (?&_&?&?&?&?&_)%root_in%Akl. by destruct (rep_root _ _ _ _ Rkl E) as (z & Hz & _); split_and!. }
  assert (∀ d, root_of kr = Some d → is_Some (bare h !! d) ∧ d ≠ n ∧ d ≠ r ∧ d ≠ k ∧ d ∉ l) as Hkr.
  { intros d E. pose proof E as (?&_&?&?&?&?&_)%root_in%Akr. by destruct (rep_root _ _ _ _ Rkr E) as (z & Hz & _); split_and!. }
  assert (∀ m, m = n ∨ m = r ∨ m = k → root_of kl ≠ Some m ∧ root_of kr ≠ Some m) as Hroots.
  { intros m Hm. split; intros E; [destruct (Hkl m E) as (_&?&?&?&_)|destruct (Hkr m E) as (_&?&?&?&_)]; tauto. }
  destruct (Hroots n) as [? ?]; [tauto|]. destruct (Hroots r) as [? ?]; [tauto|]. destruct (Hroots k) as [? ?]; [tauto|].
  assert (root_of c ≠ Some r ∧ root_of c ≠ Some k) as [? ?] by (split; intros (?&?&?&?&?&_)%root_in%Ac; done).
  assert (root_of a ≠ Some r) by (intros (?&?&?&?&?&_)%root_in%Aa; done).
  destruct (turn_first _ _ _ _ _ _ _ _ kl Hh) as (h1 & R1 & E1 & C1); [intros m Hm; by apply in_mk_at, in_mk_at|].
  rewrite R1. cbn [mbind option_bind].
  set (yn := set_child (negb s) (root_of kl) xn). set (yr := set_child s (root_of kr) xr). set (yk := set_child s (Some n) xk).
  assert (∀ j d, _child j yn = Some d → d ≠ r) as Hyn.
  { apply (both_sides (negb s) (λ j, ∀ d, _child j yn = Some d → d ≠ r)); intros d; unfold yn; rewrite ?child_set, ?child_set_other, ?negb_involutive, ?En0; congruence. }
  assert (∀ j d, _child j yr = Some d → d ≠ k) as Hyr.
  { apply (both_sides s (λ j, ∀ d, _child j yr = Some d → d ≠ k)); intros d; unfold yr; rewrite ?child_set, ?child_set_other, ?Er1; congruence. }
  destruct (adopt_behind r (root_of kr) s h1 n xr yn) as (h2 & R2 & E2 & _ & C2); try done.
  { by rewrite E1, link_other. }
  { rewrite E1. intros j d Hd. by apply link_dom, (Kr j). }
  { congruence. }
  { intros d E. rewrite E1. by apply link_dom, Hkr. }
  { rewrite E1. by apply link_top. }
  { rewrite E1. apply kids_link; [done|]. intros d E. by apply Hkl. }
  { unfold yn. rewrite parent_set_child, Enp. by eexists. }
  { intros j E. by apply (Hyn j r). }
  rewrite R2. cbn [mbind option_bind].
  assert (bare h2 !! r = Some yr) as Hr2 by (rewrite E2, E1; apply link_top; [by rewrite link_other|done]).
  assert (bare h2 !! k = Some xk) as Hk2 by (rewrite E2, E1, !link_other by congruence; done).
  assert (kids (bare h2) yr) as Kr2.
  { rewrite E2. apply kids_link; [rewrite E1; intros j d Hd; by apply link_dom, (Kr j)|]. intros d E. rewrite E1. by apply link_dom, Hkr. }
  destruct (adopt_behind k (Some n) s h2 r xk yr) as (h3 & R3 & E3 & D3 & _); try done.
  { rewrite E2, E1. intros j d Hd. by apply link_dom, link_dom, (Kk j). }
  { congruence. }
  { by rewrite Ek1. }
  { intros d [= <-]. rewrite E2, E1. apply link_dom, link_dom. by eexists. }
  { unfold yr. rewrite parent_set_child, Erp. by eexists. }
  { intros j E. by apply (Hyr j k). }
  rewrite R3. cbn [mbind option_bind].
  destruct (adopt_behind k (Some r) (negb s) h3 r yk yr) as (h4 & R4 & E4 & _ & _); try done.
  { rewrite E3. apply link_top; [done|congruence]. }
  { unfold yk. by rewrite parent_set_child. }
  { rewrite E3. apply kids_link; [rewrite E2, E1; intros j d Hd; by apply link_dom, link_dom, (Kk j)|].
    intros d [= <-]. rewrite E2, E1. apply link_dom, link_dom. by eexists. }
  { congruence. }
  { unfold yk. rewrite negb_involutive, child_set. congruence. }
  { intros d [= <-]. rewrite E3. apply link_dom. by eexists. }
  { rewrite E3. rewrite link_other by congruence. done. }
  { rewrite E3. intros j d Hd. by apply link_dom, (Kr2 j). }
  { unfold yr. rewrite parent_set_child, Erp. by eexists. }
  { intros j E. by apply (Hyr j k). }
  { rewrite E3. apply (consistent_link k (Some n) s _ (dep h2) _ r yr); try done. intros j E. by apply (Hyr j k). }
  rewrite R4. cbn [mbind option_bind]. destruct (turn_last h4 P k i l) as (h5 & R5 & E5); [|by apply Hh| |done|].
  - rewrite E4, E3, E2, E1. repeat apply climbs_link; try done; try (apply Hh); try (by intros d [= <-]); intros d E; first [by apply Hkl|by apply Hkr].
  - rewrite E4, E3. apply link_dom, link_dom. by eexists.
  - exists h5. by rewrite R5, E5, E4, E3, E2, E1.
Qed.

Lemma br_mk s a n b : ∃ a' b', Br a n b = mk s a' n b'.
Proof. destruct s; by eexists _, _. Qed.

Lemma hangs_heap h P i s a n b l :
  hangs (bare h) P i (mk s a n b) l →
  ∃ x xP, h !! n = Some x ∧ h !! P = Some xP ∧ kids (bare h) (erase x) ∧ _child s x = root_of a ∧ _child (negb s) x = root_of b ∧ _parent x = Some P ∧
    _child i xP = Some n ∧ _child (negb i) xP ≠ Some n.
Proof.
  intros Hh. pose proof (hangs_rep _ _ _ _ _ Hh) as Hrep. pose proof Hrep as (z & Hz & E0 & E1 & Ep & _)%rep_mk.
  destruct (hangs_top _ _ _ _ _ Hh) as (zP & HzP & _). pose proof (hangs_child _ _ _ _ _ Hh zP HzP) as Ec. rewrite root_mk in Ec.
  destruct (hangs_spare _ _ _ _ _ Hh n (in_mk_top _ _ _ _)) as [_ Hs]. specialize (Hs zP HzP).
  assert (kids (bare h) z) as Hk by (eapply (rep_kids _ _ _ n), Hz; [done|apply in_mk_top]).
  destruct (bare_some h n z Hz) as (x & Hx & <-), (bare_some h P zP HzP) as (xP & HxP & <-). rewrite child_erase in *.
  by exists x, xP.
Qed.

Lemma rotate_run h P i s a n b l :
  hangs (bare h) P i (mk s a n b) l →
  ∃ h' T', _rotate_subtree P n s h = Some h' ∧ replaced (bare h) (bare h') P i (mk s a n b) T' ∧ nodes T' = nodes (mk s a n b).
Proof.
  intros Hh. destruct (hangs_heap _ _ _ _ _ _ _ _ Hh) as (x & xP & Hx & HxP & Hk & E0 & E1 & Ep & Ei & Eo).
  unfold _rotate_subtree. rewrite HxP, Hx. cbn [mbind option_bind]. rewrite E1.
  assert ((if decide (Some n = _child0 xP) then LEFT else RIGHT) = i) as ->.
  { destruct i; cbn in Ei, Eo; [by rewrite decide_False|by rewrite decide_True]. }
  destruct b as [|bl r br]; [by exists h, (mk s a n Leaf); split_and!; [|apply (replaced_refl _ _ _ _ _ Hh)|]|].
  destruct (br_mk s bl r br) as (rl & c & E). rewrite E in *. clear E. rewrite root_mk in *.
  pose proof (hangs_down (bare h) P i (negb s) (mk s rl r c) n a l) as Hd. rewrite mk_negb in Hd. specialize (Hd Hh).
  destruct (hangs_heap _ _ _ _ _ _ _ _ Hd) as (xr & _ & Hxr & _ & Hkr & Er0 & Er1 & _). rewrite Hxr. cbn [mbind option_bind].
  unfold _bias. rewrite !child_depth_run by done. cbn [mbind option_bind]. rewrite Er0. case_bool_decide as Hb.
  - destruct (turn_run _ _ _ _ _ _ _ _ _ _ Hh) as (h' & R & E). rewrite R. exists h', (mk s (mk s a n rl) r c).
    split_and!; [done|rewrite E; by eapply turn_replaced|]. destruct s; cbn; by rewrite <- !app_assoc.
  - destruct rl as [|kl k kr]; [by exists h, (mk s a n (mk s Leaf r c)); split_and!; [|apply (replaced_refl _ _ _ _ _ Hh)|]|].
    destruct (br_mk s kl k kr) as (ll & lr & E). rewrite E in *. clear E. rewrite root_mk in *.
    pose proof (hangs_down _ _ _ _ _ _ _ _ Hd) as Hdd. destruct (hangs_heap _ _ _ _ _ _ _ _ Hdd) as (xk & _ & Hxk & _ & _ & Ek0 & Ek1 & _).
    rewrite Hxk. cbn [mbind option_bind]. rewrite Ek0, Ek1. destruct (turn2_run _ _ _ _ _ _ _ _ _ _ _ _ Hh) as (h' & R & E). rewrite R.
    exists h', (mk s (mk s a n ll) k (mk s lr r c)). split_and!; [done|rewrite E; by eapply turn2_replaced|].
    destruct s; cbn; rewrite <- ?app_assoc; cbn; by rewrite <- ?app_assoc.
Qed.

Lemma rebalance_run h P i a n b l :
  hangs (bare h) P i (Br a n b) l →
  ∃ h' T', _rebalance_subtree P n h = Some h' ∧ replaced (bare h) (bare h') P i (Br a n b) T' ∧ nodes T' = nodes (Br a n b).
Proof.
  intros Hh. destruct (hangs_heap h P i LEFT a n b l Hh) as (x & xP & Hx & _ & Hk & _). unfold _rebalance_subtree. rewrite Hx.
  cbn [mbind option_bind]. rewrite !child_depth_run by done. cbn [mbind option_bind]. case_match.
  - exists h, (Br a n b). split_and!; [done|by apply replaced_refl with l|done].
  - match goal with |- context [_rotate_subtree P n ?s h] => destruct (br_mk s a n b) as (a' & b' & E) end.
    rewrite E in *. by apply rotate_run with l.
Qed.

(** ** Insertion *)

Lemma split_before {A} (l1 l2 xs ys : list A) t : l1 ++ t :: l2 = xs ++ ys → t ∉ ys → ∃ xs', xs = l1 ++ t :: xs' ∧ l2 = xs' ++ ys.
Proof.
  revert xs. induction l1 as [|z l1 IH]; intros [|z' xs] E Ht; simplify_list_eq.
  - exfalso. apply Ht. constructor.
  - by exists xs.
  - exfalso. apply Ht. set_solver.
  - destruct (IH xs) as (xs' & -> & ->); [done..|]. by exists xs'.
Qed.

Lemma split_after {A} (l1 l2 xs ys : list A) t : l1 ++ t :: l2 = xs ++ ys → t ∉ xs → ∃ ys', ys = ys' ++ t :: l2 ∧ l1 = xs ++ ys'.
Proof.
  revert xs. induction l1 as [|z l1 IH]; intros [|z' xs] E Ht; simplify_list_eq.
  - by exists [].
  - exfalso. apply Ht. constructor.
  - by exists (z :: l1).
  - destruct (IH xs) as (ys' & -> & ->); [done|set_solver|]. by exists ys'.
Qed.

(** The node [n] is to be inserted between [xs] and [ys]. *)
Definition splits (g : gmap id (node D unit)) (d : D) (xs ys : list id) : Prop :=
  (∀ m x, m ∈ xs → g !! m = Some x → higher (data x) d = true) ∧ (∀ m x, m ∈ ys → g !! m = Some x → higher (data x) d = false).

Lemma adopt_leaf h P i l n y :
  hangs (bare h) P i Leaf l → h !! n = Some y → _child0 y = None → _child1 y = None → spare (bare h) P i l n →
  ∃ h', _adopt P (Some n) i h = Some h' ∧ replaced (bare h) (bare h') P i Leaf (Br Leaf n Leaf).
Proof.
  intros Hh Hy Y0 Y1 [Hnl Hnc]. pose proof (climbs_head _ _ _ (hangs_climbs _ _ _ _ _ Hh)) as HP.
  assert (n ≠ P) as HnP by (by intros ->). assert (bare h !! n = Some (erase y)) as Hn by (by rewrite bare_lookup, Hy).
  destruct (hangs_top _ _ _ _ _ Hh) as (xP & HxP & _).
  destruct (turn_last h P n i l) as (h' & R & E); [by apply Hh|by apply Hh|by eexists|done|]. exists h'. split; [done|]. rewrite E. split.
  - exists (set_parent (Some P) (erase y)). by rewrite (link_child _ _ _ _ _ Hn).
  - rewrite HxP. apply link_top; [done|cbn; congruence].
  - intros m HmP _ Hm. cbn in Hm. apply not_elem_of_cons in Hm as [Hm _]. by rewrite link_other by congruence.
  - intros m. apply link_data.
Qed.

Lemma insert_side g d x a t b xs ys :
  g !! t = Some x → splits g d xs ys → nodes (Br a t b) = xs ++ ys →
  ∃ c o xs1 ys1, (c = a ∨ c = b) ∧ Br a t b = mk (higher (data x) d) c t o ∧ nodes c = xs1 ++ ys1 ∧ splits g d xs1 ys1 ∧
    ∀ n c', nodes c' = xs1 ++ n :: ys1 → nodes (mk (higher (data x) d) c' t o) = xs ++ n :: ys.
Proof.
  intros Hx [Hxs Hys] Hnodes. cbn in Hnodes. destruct (higher (data x) d) eqn:Es.
  - assert (t ∉ ys) as Hty by (intros E; pose proof (Hys t _ E Hx); congruence).
    destruct (split_before _ _ _ _ _ Hnodes Hty) as (xs' & -> & Eb). exists b, a, xs', ys.
    split_and!; [by right|done|done| |intros n c' E; cbn; by rewrite E, <- app_assoc]. split; [|done]. intros m z Hm. apply Hxs. set_solver.
  - assert (t ∉ xs) as Htx by (intros E; pose proof (Hxs t _ E Hx); congruence).
    destruct (split_after _ _ _ _ _ Hnodes Htx) as (ys' & -> & Eb). exists a, b, xs, ys'.
    split_and!; [by left|done|done| |intros n c' E; cbn; by rewrite E, <- app_assoc]. split; [done|]. intros m z Hm. apply Hys. set_solver.
Qed.

(** The way back from the insertion of [n] below [t]. *)
Lemma insert_back h h1 P i s c c1 t o l n :
  hangs (bare h) P i (mk s c t o) l → replaced (bare h) (bare h1) t s c c1 → nodes c1 ≡ₚ n :: nodes c →
  n ∉ nodes (mk s c t o) → spare (bare h) P i l n →
  ∃ h' T', (h2 ← _recompute_depth t h1; x ← h2 !! t; match _parent x with None => Some h2 | Some p => _rebalance_subtree p t h2 end) = Some h' ∧
    replaced (bare h) (bare h') P i (mk s c t o) T' ∧ nodes T' = nodes (mk s c1 t o).
Proof.
  intros Hh Hr Hp Hn Hsp. pose proof (hangs_nodup _ _ _ _ _ Hh) as (Nc & No & Htc & Hto & Hco)%NoDup_mk.
  rewrite elem_of_mk in Hn. assert (∀ m, m ∈ nodes c1 ↔ m = n ∨ m ∈ nodes c) as Hc1 by (intros m; by rewrite Hp, elem_of_cons).
  pose proof (climbs_head _ _ _ (hangs_climbs _ _ _ _ _ Hh)) as HP.
  assert (replaced (bare h) (bare h1) P i (mk s c t o) (mk s c1 t o)) as Hr1.
  { apply (replaced_up _ _ _ _ _ _ _ _ _ l Hh Hr); [rewrite Hc1|rewrite Hc1; naive_solver|intros m; rewrite Hc1; naive_solver].
    intros [->|E%(in_mk_at s _ t o)]; [by apply Hsp|]. by destruct (hangs_spare _ _ _ _ _ Hh P E). }
  assert (hangs (bare h1) P i (mk s c1 t o) l) as Hh1.
  { apply (replaced_hangs _ _ _ _ _ _ _ Hh Hr1).
    - apply NoDup_mk. split_and!; [rewrite Hp; apply NoDup_cons; tauto|done|rewrite Hc1; naive_solver|done|intros m; rewrite Hc1; naive_solver].
    - intros m. rewrite elem_of_mk, Hc1. intros Hm. destruct (decide (m = n)) as [->|]; [done|].
      apply (hangs_spare _ _ _ _ _ Hh). rewrite elem_of_mk. tauto. }
  pose proof (hangs_down _ _ _ _ _ _ _ _ Hh1) as Hd1.
  destruct (recompute_run t (t :: l) h1) as (h2 & R2 & E2 & _); [apply Hd1|apply Hd1|]. rewrite R2. cbn [mbind option_bind].
  rewrite <- E2 in Hh1, Hr1. destruct (hangs_heap h2 P i s c1 t o l Hh1) as (x & _ & Hx & _ & _ & _ & _ & Ep & _). rewrite Hx. cbn [mbind option_bind]. rewrite Ep.
  assert (∃ a b, mk s c1 t o = Br a t b) as (a & b & ET) by (destruct s; by eexists _, _). rewrite ET in *.
  destruct (rebalance_run h2 P i a t b l Hh1) as (h' & T' & R & Hr' & En). exists h', T'. split_and!; [done| |done].
  apply (replaced_trans _ _ _ _ _ _ _ _ Hr1 Hr'). intros m. rewrite En. tauto.
Qed.

Lemma insert_into n y T : ∀ h P i l fuel xs ys,
  hangs (bare h) P i T l → (length (nodes T) ≤ fuel)%nat → h !! n = Some y → _child0 y = None → _child1 y = None → n ∉ nodes T → spare (bare h) P i l n →
  nodes T = xs ++ ys → splits (bare h) (data y) xs ys →
  ∃ h' T', match root_of T with Some c => insert_below fuel c n h | None => _adopt P (Some n) i h end = Some h' ∧
    replaced (bare h) (bare h') P i T T' ∧ nodes T' = xs ++ n :: ys.
Proof.
  induction T as [|a IHa t b IHb]; intros h P i l fuel xs ys Hh Hf Hy Y0 Y1 HnT Hsp Hnodes Hs.
  { symmetry in Hnodes. apply app_eq_nil in Hnodes as [-> ->]. destruct (adopt_leaf _ _ _ _ _ _ Hh Hy Y0 Y1 Hsp) as (h' & R & Hr).
    by exists h', (Br Leaf n Leaf). }
  cbn [root_of]. destruct fuel as [|fuel]; [cbn in Hf; rewrite length_app in Hf; cbn in Hf; lia|]. cbn [insert_below].
  assert (t ∈ nodes (Br a t b)) as Ht by (cbn; set_solver). assert (n ≠ t) as Hnt by (by intros ->). rewrite decide_False by done.
  destruct (hangs_heap h P i LEFT a t b l Hh) as (x & _ & Hx & _ & _ & _ & _ & Ep & _). rewrite Hx, Hy. cbn [mbind option_bind]. rewrite Ep.
  assert (bare h !! t = Some (erase x)) as Hbx by (by rewrite bare_lookup, Hx).
  destruct (insert_side _ _ _ _ _ _ _ _ Hbx Hs Hnodes) as (c & o & xs1 & ys1 & Hc & ET & Ec & Hs1 & Hplace). change (data (erase x)) with (data x) in *.
  set (s := higher (data x) (data y)) in *. rewrite ET in *. destruct (hangs_heap h P i s c t o l Hh) as (x' & _ & Hx' & _ & _ & E0 & E1 & _).
  assert (x' = x) as -> by congruence. rewrite E0. rewrite elem_of_mk in HnT.
  assert (∃ h1 c1, match root_of c with Some c0 => insert_below fuel c0 n h | None => _adopt t (Some n) s h end = Some h1 ∧
    replaced (bare h) (bare h1) t s c c1 ∧ nodes c1 = xs1 ++ n :: ys1) as (h1 & c1 & R1 & Hr1 & Ec1).
  { assert (length (nodes c) ≤ fuel)%nat by (rewrite nodes_mk in Hf; destruct s; rewrite length_app in Hf; cbn in Hf; lia).
    pose proof (hangs_down _ _ _ _ _ _ _ _ Hh) as Hd. assert (n ∉ nodes c) by tauto.
    assert (spare (bare h) t s (t :: l) n).
    { split; [apply not_elem_of_cons; by destruct Hsp|]. intros z Hz. assert (z = erase x) as -> by congruence. rewrite child_erase, E1.
      intros Eo%root_in. tauto. }
    destruct Hc as [-> | ->]; eauto. }
  destruct (insert_back h h1 P i s c c1 t o l n) as (h' & T' & R & Hr & En); [done|done|rewrite Ec1, Ec; symmetry; apply Permutation_middle|by rewrite elem_of_mk|done|].
  exists h', T'. split_and!; [|done|rewrite En; by apply Hplace].
  destruct (root_of c); rewrite R1; cbn [mbind option_bind]; exact R.
Qed.

End Balance.

(** ** Contexts *)

(** The way up from a subtree: the side that it is on, the node above it and the other subtree of this node. *)
Abbreviation frame := (Side * id * shape)%type.

Fixpoint plug (C : list frame) (T : shape) : shape :=
  match C with [] => T | (i, m, s) :: C => plug C (mk i T m s) end.

Definition up (P : id) (C : list frame) : id := match C with [] => P | (_, m, _) :: _ => m end.
Definition at_side (i : Side) (C : list frame) : Side := match C with [] => i | (s, _, _) :: _ => s end.
Definition ids (C : list frame) : list id := (λ f : frame, f.1.2) <$> C.

Fixpoint before (C : list frame) : list id :=
  match C with [] => [] | (i, m, s) :: C => before C ++ if i then nodes s ++ [m] else [] end.
Fixpoint after (C : list frame) : list id :=
  match C with [] => [] | (i, m, s) :: C => (if i then [] else m :: nodes s) ++ after C end.

Lemma nodes_plug C T : nodes (plug C T) = before C ++ nodes T ++ after C.
Proof.
  revert T. induction C as [|[[i m] s] C IH]; intros T; [by rewrite app_nil_r|]. cbn. rewrite IH, nodes_mk.
  destruct i; cbn; rewrite <- ?app_assoc; cbn; by rewrite <- ?app_assoc, ?app_nil_l.
Qed.

Lemma plug_app C1 C2 T : plug (C1 ++ C2) T = plug C2 (plug C1 T).
Proof. revert T. by induction C1 as [|[[i m] s] C1 IH]; cbn. Qed.

Lemma up_app P C1 C2 : up P (C1 ++ C2) = up (up P C2) C1.
Proof. by destruct C1 as [|[[i m] s] C1]. Qed.

Lemma at_side_app i C1 C2 : at_side i (C1 ++ C2) = at_side (at_side i C2) C1.
Proof. by destruct C1 as [|[[j m] s] C1]. Qed.

Lemma in_plug C T m : m ∈ nodes T → m ∈ nodes (plug C T).
Proof. rewrite nodes_plug, !elem_of_app. auto. Qed.

Lemma find_plug T t : t ∈ nodes T → ∃ C a b, T = plug C (Br a t b).
Proof.
  induction T as [|l IHl n r IHr]; [by intros ?%elem_of_nil|]. cbn. rewrite elem_of_app, elem_of_cons. intros [Ht|[->|Ht]].
  - destruct (IHl Ht) as (C & a & b & ->). exists (C ++ [(LEFT, n, r)]), a, b. by rewrite plug_app.
  - by exists [], l, r.
  - destruct (IHr Ht) as (C & a & b & ->). exists (C ++ [(RIGHT, n, l)]), a, b. by rewrite plug_app.
Qed.

Lemma plug_root C T m : NoDup (nodes (plug C T)) → root_of (plug C T) = Some m → C ≠ [] → m ∉ nodes T.
Proof.
  revert T. induction C as [|[[s n] o] C IH]; intros T Hnd Hm HC; [done|]. cbn [plug] in *. intros HmT.
  destruct C as [|f C]; [|by apply (IH _ Hnd Hm); [|apply in_mk_at]].
  cbn [plug] in *. rewrite root_mk in Hm. injection Hm as <-. apply NoDup_mk in Hnd. tauto.
Qed.

Section Contexts.
Context {D : Type}.
Implicit Types g : gmap id (node D unit).

Lemma hangs_plug g P i C T l : hangs g P i (plug C T) l → hangs g (up P C) (at_side i C) T (ids C ++ l).
Proof.
  revert T. induction C as [|[[s m] o] C IH]; intros T; [done|]. cbn. intros Hd%IH. by apply hangs_down in Hd.
Qed.

(** A change at the end of a context is one of the whole tree. *)
Lemma replaced_plug g g' P i C T T' l :
  hangs g P i (plug C T) l → replaced g g' (up P C) (at_side i C) T T' →
  (∀ m, m ∈ nodes T' → m ∈ nodes T ∨ (m ∉ nodes (plug C T) ∧ m ∉ l)) → replaced g g' P i (plug C T) (plug C T').
Proof.
  revert T T'. induction C as [|[[s m] o] C IH]; intros T T' Hh Hr Hin; [done|]. cbn in *.
  pose proof (hangs_plug _ _ _ _ _ _ Hh) as Hd. pose proof (hangs_nodup _ _ _ _ _ Hd) as (_ & _ & HmT & Hmo & HTo)%NoDup_mk.
  pose proof (climbs_head _ _ _ (hangs_climbs _ _ _ _ _ Hd)) as HP.
  assert (up P C ∉ nodes (mk s T m o)) as Hup by (intros E; by destruct (hangs_spare _ _ _ _ _ Hd _ E)).
  assert (∀ n, n ∉ nodes (plug C (mk s T m o)) → n ∉ nodes (mk s T m o)) as Hpl by (intros n Hn E; by apply Hn, in_plug).
  assert (∀ n, n ∈ nodes T → n ∈ nodes (plug C (mk s T m o))) as Hpl2 by (intros n Hn; by apply in_plug, in_mk_at).
  rewrite elem_of_mk in Hup. setoid_rewrite elem_of_mk in Hpl.
  assert (up P C ∉ nodes T') as Hup'.
  { intros E. destruct (Hin _ E) as [?|[E' El]]; [tauto|]. destruct C as [|[[s' m'] o'] C']; [|by apply E'; cbn [plug up]; apply in_plug, in_mk_top].
    apply El, (climbs_head _ _ _ (hangs_climbs _ _ _ _ _ Hh)). }
  apply IH; [done| |].
  - apply (replaced_up _ _ _ _ _ _ _ _ _ _ Hd Hr); [done| |].
    + intros E. destruct (Hin _ E) as [?|[E' _]]; [done|]. apply Hpl in E'. tauto.
    + intros n E. destruct (Hin _ E) as [?|[E' _]]; [by apply HTo|]. apply Hpl in E'. tauto.
  - intros n. rewrite !elem_of_mk. intros [->|[E|E]]; [tauto| |tauto]. destruct (Hin n E); tauto.
Qed.

Lemma nodup_plug C T T' :
  NoDup (nodes (plug C T)) → NoDup (nodes T') → (∀ m, m ∈ nodes T' → m ∈ nodes T ∨ m ∉ nodes (plug C T)) → NoDup (nodes (plug C T')).
Proof.
  setoid_rewrite nodes_plug. setoid_rewrite NoDup_app. setoid_rewrite NoDup_app. setoid_rewrite elem_of_app. setoid_rewrite elem_of_app. naive_solver.
Qed.

Lemma hangs_replug g g' P i C T T' l :
  hangs g P i (plug C T) l → replaced g g' (up P C) (at_side i C) T T' → NoDup (nodes T') →
  (∀ m, m ∈ nodes T' → m ∈ nodes T ∨ (m ∉ nodes (plug C T) ∧ spare g P i l m)) →
  replaced g g' P i (plug C T) (plug C T') ∧ hangs g' P i (plug C T') l.
Proof.
  intros Hh Hr Hnd Hin. assert (replaced g g' P i (plug C T) (plug C T')) as Hr'.
  { apply (replaced_plug _ _ _ _ _ _ _ _ Hh Hr). intros m Hm. destruct (Hin m Hm) as [?|[? [? _]]]; tauto. }
  split; [done|]. apply (replaced_hangs _ _ _ _ _ _ _ Hh Hr').
  - apply (nodup_plug C T T'); [by apply Hh|done|]. intros m Hm. destruct (Hin m Hm); tauto.
  - intros m. rewrite nodes_plug, !elem_of_app. intros Hm. pose proof (hangs_spare _ _ _ _ _ Hh) as Hs. setoid_rewrite nodes_plug in Hs.
    setoid_rewrite elem_of_app in Hs. setoid_rewrite elem_of_app in Hs. destruct Hm as [?|[Hm|?]]; [by apply Hs; auto| |by apply Hs; auto].
    destruct (Hin m Hm) as [?|[_ ?]]; [by apply Hs; auto|done].
Qed.

End Contexts.

(** ** Removal *)

Section Removal.
Context {D M : Type} `{Policy D M}.
Abbreviation heap := (gmap id (node D M)).
Implicit Types h : heap.

Lemma length_nodes h P i T l : hangs (bare h) P i T l → (length (nodes T) ≤ base.size h)%nat.
Proof.
  intros Hh. rewrite <- bare_size. apply dom_length; [by apply Hh|]. intros m. apply (rep_dom _ (Some P)). by apply Hh.
Qed.

(** The right-most node is at the end of a context of right sides. *)
Lemma rightmost_run h T : ∀ fuel P n,
  rep (bare h) P T → root_of T = Some n → (length (nodes T) ≤ fuel)%nat →
  ∃ C a l, rightmost fuel n h = Some l ∧ T = plug C (Br a l Leaf) ∧ Forall (λ f : frame, f.1.1 = RIGHT) C.
Proof.
  induction T as [|a _ n b IH]; intros fuel P n' Hrep Hroot Hf; [done|]. injection Hroot as <-.
  destruct Hrep as (z & Hz & _ & E1 & _ & _ & Hb). destruct (bare_some h n z Hz) as (x & Hx & <-).
  cbn in Hf. rewrite length_app in Hf. cbn in Hf. destruct fuel as [|fuel]; [lia|]. cbn [rightmost]. rewrite Hx. cbn [mbind option_bind].
  change (_child1 (erase x)) with (_child1 x) in E1. rewrite E1. destruct b as [|b1 m b2]; [by exists [], a, n|]. cbn [root_of].
  destruct (IH fuel (Some n) m) as (C & c & l & R & E & HC); [done|done|lia|]. exists (C ++ [(RIGHT, n, a)]), c, l.
  split_and!; [done|by rewrite plug_app, E|]. apply Forall_app. by split; [|apply Forall_singleton].
Qed.

Lemma right_context C i : Forall (λ f : frame, f.1.1 = RIGHT) C → after C = [] ∧ at_side i C = if decide (C = []) then i else RIGHT.
Proof.
  intros HC. split; [|by destruct HC as [|[[s m] o] C' E _]; cbn in *]. induction HC as [|[[s m] o] C' E _ IH]; [done|]. cbn in *. by rewrite E, IH.
Qed.

(** The parent [P] of [t] adopts [c] in its place. *)
Lemma replace_at_run h P i t c l :
  (∀ x, bare h !! P = Some x → _child i x = Some t ∧ _child (negb i) x ≠ Some t) → t ∉ l → climbs (bare h) P l → NoDup l →
  (∀ d, c = Some d → d ≠ t ∧ d ∉ l ∧ is_Some (bare h !! d)) →
  ∃ h', replace_at P t c h = Some h' ∧ bare h' = link P c i (bare h).
Proof.
  intros Hch Ht Hc Hnd Hd. pose proof (climbs_head _ _ _ Hc) as HP. destruct (climbs_dom _ _ _ _ Hc HP) as [z Hz].
  destruct (Hch z Hz) as [E0 E1]. destruct (bare_some h P z Hz) as (x & Hx & <-). rewrite !child_erase in *.
  assert (c ≠ Some P) as HcP by (intros ->; by destruct (Hd P eq_refl) as (_ & ? & _)).
  destruct (adopt_climbs P c i h l) as (h' & R & E & _); [done..|intros d Ed; by destruct (Hd d Ed) as (_ & ? & ?)|].
  exists h'. split; [|done]. unfold replace_at, LEFT, RIGHT. rewrite Hx. cbn [mbind option_bind].
  assert (bare h' !! P = Some (set_child i c (erase x))) as Hz' by (rewrite E; by apply link_top).
  destruct (bare_some h' P _ Hz') as (x' & Hx' & Ex'). assert (_child (negb i) x' = _child (negb i) x) as Eo.
  { rewrite <- child_erase, Ex', child_set_other. apply child_erase. }
  destruct i; cbn [negb] in *.
  - rewrite decide_False by done. cbn [mbind option_bind]. rewrite Hx. cbn [mbind option_bind]. by rewrite decide_True.
  - rewrite decide_True by done. rewrite R. cbn [mbind option_bind]. rewrite Hx'. cbn [mbind option_bind]. rewrite decide_False; [done|].
    by rewrite Eo.
Qed.

(** The way from [lp] to the root is rebalanced. *)
Lemma rebalance_up_run C : ∀ h R a lp b fuel,
  hangs (bare h) R LEFT (plug C (Br a lp b)) [R] → (length C + 2 ≤ fuel)%nat →
  ∃ h' T', rebalance_up fuel lp h = Some h' ∧ replaced (bare h) (bare h') R LEFT (plug C (Br a lp b)) T' ∧
    nodes T' = nodes (plug C (Br a lp b)).
Proof.
  induction C as [|[[s m] o] C IH]; intros h R a lp b fuel Hh Hf; (destruct fuel as [|fuel]; [lia|]); cbn [rebalance_up].
  all: pose proof (hangs_plug _ _ _ _ _ _ Hh) as Hd; destruct (hangs_heap h _ _ LEFT a lp b _ Hd) as (x & _ & Hx & _ & _ & _ & _ & Ep & _);
    rewrite Hx; cbn [mbind option_bind]; rewrite Ep; destruct (rebalance_run _ _ _ _ _ _ _ Hd) as (h1 & T1 & R1 & Hr1 & E1);
    rewrite R1; cbn [mbind option_bind].
  all: assert (NoDup (nodes T1)) as N1 by (rewrite E1; apply Hd);
    assert (∀ m', m' ∈ nodes T1 → m' ∈ nodes (Br a lp b)) as Hsub by (intros m'; by rewrite E1).
  all: destruct (hangs_replug _ _ _ _ _ _ _ _ Hh Hr1 N1 ltac:(intros m' Hm'; by left; apply Hsub)) as [Hp1 Hh1].
  - exists h1, T1. cbn in *. destruct fuel as [|fuel]; [lia|]. cbn [rebalance_up]. pose proof (hangs_climbs _ _ _ _ _ Hh1) as Hc.
    inversion Hc as [n z Hz Hpz _|n z p l' Hz Hpz _ Hc']; subst; [|by inversion Hc'].
    destruct (bare_some h1 R z Hz) as (xR & HxR & <-). rewrite HxR. cbn [mbind option_bind]. change (_parent (erase xR)) with (_parent xR) in Hpz. by rewrite Hpz.
  - cbn [plug] in *. assert (∃ a' b', mk s T1 m o = Br a' m b') as (a' & b' & E) by (destruct s; by eexists _, _). rewrite E in *.
    destruct (IH h1 R a' m b' fuel Hh1) as (h2 & T2 & R2 & Hr2 & E2); [cbn in Hf; lia|]. exists h2, T2. split_and!; [done| |].
    + apply (replaced_trans _ _ _ _ _ _ _ _ Hp1 Hr2). intros m'. rewrite E2. tauto.
    + rewrite E2, !nodes_plug, <- E, !nodes_mk, E1. done.
Qed.

(** The links that put [l] into the place of [t]. *)
Lemma exchange_replaced (g : gmap id (node D unit)) P i a t b l z L :
  hangs g P i (Br a t b) L → g !! l = Some z → l ∉ nodes (Br a t b) → l ≠ P →
  replaced g (link l (root_of b) RIGHT (link l (root_of a) LEFT (link P (Some l) i g))) P i (Br a t b) (Br a l b).
Proof.
  intros Hh Hz Hl HlP. pose proof (hangs_nodup _ _ _ _ _ Hh) as Hnd. pose proof Hnd as (Na & Nb & Hta & Htb & Hab)%(NoDup_mk LEFT).
  pose proof (hangs_rep _ _ _ _ _ Hh) as (x & Hx & E0 & E1 & Ep & Ra & Rb). destruct (hangs_top _ _ _ _ _ Hh) as (xP & HxP & _).
  assert (P ∉ nodes (Br a t b)) as HP.
  { intros E. destruct (hangs_spare _ _ _ _ _ Hh P E) as [HL _]. apply HL, (climbs_head g). by apply Hh. }
  change (Br a t b) with (mk LEFT a t b) in Hl, HP. rewrite elem_of_mk in Hl, HP.
  assert (root_of a ≠ Some l ∧ root_of b ≠ Some l ∧ root_of a ≠ Some P ∧ root_of b ≠ Some P) as (Hal & Hbl & HaP & HbP).
  { split_and!; intros E%root_in; tauto. }
  assert (∀ m, m ∈ nodes a → root_of b ≠ Some m) as Hba by (intros m Hm E%root_in; by apply (Hab m)).
  assert (∀ m, m ∈ nodes b → root_of a ≠ Some m) as Hba' by (intros m Hm E%root_in; by apply (Hab m)).
  split.
  - exists (set_child RIGHT (root_of b) (set_child LEFT (root_of a) (set_parent (Some P) z))).
    rewrite (link_top _ _ _ _ (set_child LEFT (root_of a) (set_parent (Some P) z))); [|apply link_top; [by apply link_child|done]|done].
    split_and!; try done.
    + apply (rep_move g _ (Some t) (Some l)); [done..|]. intros m y Hm Hy. assert (m ≠ l ∧ m ≠ P) as [Hml HmP] by (split; intros ->; tauto).
      rewrite (link_other _ (root_of b)) by auto. case_decide as E; [rewrite E; apply link_child; [by rewrite link_other by congruence|done]|].
      by rewrite !link_other by congruence.
    + apply (rep_move g _ (Some t) (Some l)); [done..|]. intros m y Hm Hy. assert (m ≠ l ∧ m ≠ P) as [Hml HmP] by (split; intros ->; tauto).
      case_decide as E; [rewrite E; apply link_child; [by rewrite !link_other by (auto || congruence)|done]|].
      by rewrite !link_other by (auto || congruence).
  - rewrite HxP, !link_other by congruence. apply link_top; [done|cbn; congruence].
  - intros m HmP Hm Hm'. change (m ∉ nodes (mk LEFT a t b)) in Hm. change (m ∉ nodes (mk LEFT a l b)) in Hm'. rewrite elem_of_mk in Hm, Hm'.
    assert (root_of a ≠ Some m ∧ root_of b ≠ Some m) as [? ?] by (split; apply not_root; tauto).
    assert (m ≠ l) by tauto. by rewrite !link_other by congruence.
  - intros m. by rewrite !link_data.
Qed.

Lemma exchange_run h P i a t b L l z :
  hangs (bare h) P i (Br a t b) L → h !! l = Some z → _child1 z = None → (∀ d, _child0 z = Some d → is_Some (bare h !! d)) →
  l ∉ nodes (Br a t b) → spare (bare h) P i L l →
  ∃ h2 x2 h3 x3 h', replace_at P t (Some l) h = Some h2 ∧ h2 !! t = Some x2 ∧ _adopt l (_child0 x2) LEFT h2 = Some h3 ∧
    h3 !! t = Some x3 ∧ _adopt l (_child1 x3) RIGHT h3 = Some h' ∧ replaced (bare h) (bare h') P i (Br a t b) (Br a l b).
Proof.
  intros Hh Hz Z1 Z0 Hl [HlL Hlo]. pose proof (hangs_rep _ _ _ _ _ Hh) as (x & Hx & E0 & E1 & Ep & Ra & Rb).
  pose proof (climbs_head _ _ _ (hangs_climbs _ _ _ _ _ Hh)) as HPL. assert (l ≠ P) as HlP by (by intros ->).
  assert (∀ m, m ∈ nodes (Br a t b) → m ∉ L) as HT by (intros m Hm; by destruct (hangs_spare _ _ _ _ _ Hh m Hm)).
  assert (∀ m, m ∈ nodes a ∨ m = t ∨ m ∈ nodes b → m ∈ nodes (Br a t b)) as Hin by (intros m; cbn; set_solver).
  assert (l ≠ t) as Hlt by (intros ->; auto). assert (t ∉ L) as HtL by auto. assert (t ≠ P) as HtP by (by intros ->).
  assert (∀ d, root_of a = Some d ∨ root_of b = Some d → is_Some (bare h !! d) ∧ d ∉ l :: L) as Hroots.
  { intros d Hd. assert (d ∈ nodes (Br a t b)) as Hd' by (destruct Hd as [E%root_in|E%root_in]; auto).
    split; [apply (rep_dom _ (Some P) (Br a t b)), Hd'; apply Hh|apply not_elem_of_cons; split; [by intros ->|auto]]. }
  pose proof (hangs_nodup _ _ _ _ _ Hh) as (Na & Nb & Hta & Htb & Hab)%(NoDup_mk LEFT).
  assert (root_of a ≠ Some t ∧ root_of b ≠ Some t) as [Hat Hbt] by (split; by apply not_root).
  destruct (replace_at_run h P i t (Some l) L) as (h2 & R2 & B2); [|done|apply Hh|apply Hh|intros d [= <-]|].
  { intros y Hy. rewrite (hangs_child _ _ _ _ _ Hh y Hy). split; [done|]. apply (hangs_spare _ _ _ _ _ Hh t); auto. }
  { split_and!; [done|done|]. rewrite bare_lookup, Hz. by eexists. }
  assert (bare h2 !! t = Some x) as Ht2 by (rewrite B2, link_other; congruence). destruct (bare_some h2 t x Ht2) as (x2 & Hx2 & <-).
  assert (bare h !! l = Some (erase z)) as Hbz by (by rewrite bare_lookup, Hz).
  assert (climbs (bare h2) l (l :: L)) as C2.
  { rewrite B2. apply (climbs_up _ l (set_parent (Some P) (erase z)) P); [by apply link_child|done| |].
    - intros [] d Hd; cbn in Hd; [congruence|]. by apply link_dom, Z0.
    - apply climbs_link_head; [apply Hh|apply Hh|]. intros d [= <-]. split; [by eexists|done]. }
  assert (NoDup (l :: L)) as NL by (apply NoDup_cons; split; [done|apply Hh]).
  change (_child0 (erase x2)) with (_child0 x2) in E0. change (_child1 (erase x2)) with (_child1 x2) in E1.
  destruct (adopt_climbs l (_child0 x2) LEFT h2 (l :: L)) as (h3 & R3 & B3 & _); [done|done| |].
  { rewrite E0. intros d Hd. split; [|by apply Hroots; left]. rewrite B2. apply link_dom. by apply Hroots; left. }
  assert (bare h3 !! t = Some (erase x2)) as Ht3 by (rewrite B3, link_other by congruence; done). destruct (bare_some h3 t _ Ht3) as (x3 & Hx3 & Ex3).
  assert (_child1 x3 = root_of b) as E13 by (rewrite <- E1; change (_child1 (erase x3) = _child1 (erase x2)); by rewrite Ex3).
  destruct (adopt_climbs l (_child1 x3) RIGHT h3 (l :: L)) as (h4 & R4 & B4 & _); [|done| |].
  { rewrite B3. apply climbs_link_head; [done|done|]. rewrite E0. intros d Hd. split; [|by apply Hroots; left]. rewrite B2. apply link_dom. by apply Hroots; left. }
  { rewrite E13. intros d Hd. split; [|by apply Hroots; right]. rewrite B3, B2. apply link_dom, link_dom. by apply Hroots; right. }
  exists h2, x2, h3, x3, h4. split_and!; try done. rewrite B4, B3, B2, E0, E13. by apply exchange_replaced with (erase z) L.
Qed.

(** The right-most node [l] of the left subtree is taken out of the tree. *)
Lemma isolate_run h P i a t b L l0 :
  hangs (bare h) P i (Br a t b) L → root_of a = Some l0 →
  ∃ C ll l xl h1, rightmost (base.size h) l0 h = Some l ∧ a = plug C (Br ll l Leaf) ∧ Forall (λ f : frame, f.1.1 = RIGHT) C ∧
    h !! l = Some xl ∧ _child1 xl = None ∧ _parent xl = Some (up t C) ∧ (l = l0 ↔ C = []) ∧ (up t C = t ↔ C = []) ∧
    _adopt (up t C) (_child0 xl) (at_side LEFT C) h = Some h1 ∧ bare h1 !! l = bare h !! l ∧
    replaced (bare h) (bare h1) P i (Br a t b) (Br (plug C ll) t b) ∧ hangs (bare h1) P i (Br (plug C ll) t b) L.
Proof.
  intros Hh Hl0. pose proof (hangs_down _ _ i LEFT a t b L Hh) as Hd. pose proof (length_nodes _ _ _ _ _ Hd) as Hlen.
  destruct (rightmost_run h a (base.size h) (Some t) l0 (hangs_rep _ _ _ _ _ Hd) Hl0 Hlen) as (C & ll & l & R & Ea & HC).
  rewrite Ea in Hh, Hl0, Hd |- *. clear Ea Hlen.
  pose proof (hangs_plug _ _ _ _ _ _ Hd) as Hu. destruct (hangs_heap h _ _ LEFT ll l Leaf _ Hu) as (xl & _ & Hxl & _ & _ & E0 & E1 & Ep & _).
  pose proof (hangs_nodup _ _ _ _ _ Hd) as Hnd. change (Br ll l Leaf) with (mk LEFT ll l Leaf) in Hu.
  destruct (adopt_lift _ _ _ _ _ _ _ Hu) as (h1 & R1 & B1). pose proof (lift_replaced _ _ _ _ _ _ _ Hu) as Hr. rewrite <- B1 in Hr.
  assert (NoDup (nodes ll) ∧ l ∉ nodes ll) as [Nll Hlll] by (pose proof (hangs_nodup _ _ _ _ _ Hu) as (?&_&?&_)%NoDup_mk; done).
  assert (plug (C ++ [(LEFT, t, b)]) ll = Br (plug C ll) t b ∧ plug (C ++ [(LEFT, t, b)]) (mk LEFT ll l Leaf) = Br (plug C (Br ll l Leaf)) t b) as [P1 P2]
    by (by rewrite !plug_app).
  destruct (hangs_replug (bare h) (bare h1) P i (C ++ [(LEFT, t, b)]) (mk LEFT ll l Leaf) ll L) as [Hr1 Hh1].
  { by rewrite P2. }
  { by rewrite up_app, at_side_app. }
  { done. }
  { intros m Hm. left. by apply in_mk_at. }
  rewrite P1, P2 in Hr1. rewrite P1 in Hh1. exists C, ll, l, xl, h1. split_and!; try done.
  - split; [|intros ->; cbn in Hl0; congruence]. intros ->. destruct C as [|f C]; [done|]. exfalso.
    apply (plug_root (f :: C) (Br ll l0 Leaf) l0 Hnd Hl0); [done|]. apply (in_mk_top LEFT).
  - split; [|by intros ->]. destruct C as [|[[s m] o] C]; [done|]. cbn [up]. intros ->. exfalso.
    destruct (hangs_spare _ _ _ _ _ Hd t) as [Ht _]; [cbn [plug]; by apply in_plug, in_mk_top|]. apply Ht. constructor.
  - cbn in E0. by rewrite E0.
  - rewrite B1, link_other; [done| |by apply not_root]. intros ->. destruct (hangs_spare _ _ _ _ _ Hu _ (in_mk_top LEFT ll (up t C) Leaf)) as [Hl _].
    apply Hl, (climbs_head (bare h)). apply Hu.
Qed.

End Removal.

(** ** The tree as a whole *)

(** The tree with the root object [R] *)
Definition tree {D} (g : gmap id (node D unit)) (R : id) (T : shape) : Prop :=
  hangs g R LEFT T [R] ∧ ∀ x, g !! R = Some x → _child1 x = None.

Section Tree.
Context {D M : Type} `{Policy D M}.
Abbreviation heap := (gmap id (node D M)).
Implicit Types h : heap.

Lemma hangs_ext (g g' : gmap id (node D unit)) P i T l :
  hangs g P i T l → (∀ m, m ∈ nodes T ∨ m ∈ l → g' !! m = g !! m) → (∀ m, is_Some (g !! m) → is_Some (g' !! m)) → hangs g' P i T l.
Proof.
  intros Hh He Hd. pose proof (climbs_head _ _ _ (hangs_climbs _ _ _ _ _ Hh)) as HP.
  assert (g' !! P = g !! P) as EP by auto. split; try apply Hh.
  - apply (rep_ext g); [apply Hh|auto].
  - apply (climbs_ext g); [auto|done|apply Hh].
  - intros m Hm. destruct (hangs_spare _ _ _ _ _ Hh m Hm) as [Hl Ho]. split; [done|]. by rewrite EP.
  - rewrite EP. apply Hh.
Qed.

Lemma tree_replaced (g g' : gmap id (node D unit)) R T T' :
  tree g R T → replaced g g' R LEFT T T' → NoDup (nodes T') → (∀ m, m ∈ nodes T' → m ≠ R) → tree g' R T'.
Proof.
  intros [Hh H1] Hr Hnd HR. destruct (hangs_top _ _ _ _ _ Hh) as (x & Hx & _). split.
  - apply (replaced_hangs _ _ _ _ _ _ _ Hh Hr Hnd). intros m Hm. split; [apply not_elem_of_cons; split; [by apply HR|by intros ?%elem_of_nil]|].
    intros y Hy. cbn. by rewrite H1.
  - intros y. rewrite (rpl_parent _ _ _ _ _ _ Hr), Hx. intros [= <-]. cbn. by apply H1.
Qed.

Lemma tree_root_notin (g : gmap id (node D unit)) R T : tree g R T → R ∉ nodes T.
Proof. intros [Hh _] HR. destruct (hangs_spare _ _ _ _ _ Hh R HR) as [Hn _]. apply Hn. constructor. Qed.

(** The new node takes its place among the others. *)
Lemma insert_run h R T n y xs ys :
  tree (bare h) R T → h !! n = Some y → _child0 y = None → _child1 y = None → n ≠ R → n ∉ nodes T →
  nodes T = xs ++ ys → splits (bare h) (data y) xs ys →
  ∃ h' T', insert R n h = Some h' ∧ tree (bare h') R T' ∧ nodes T' = xs ++ n :: ys ∧
    (∀ m, m ≠ R → m ≠ n → m ∉ nodes T → bare h' !! m = bare h !! m) ∧ ∀ m, data <$> bare h' !! m = data <$> bare h !! m.
Proof.
  intros Ht Hy Y0 Y1 HnR HnT Hnodes Hs. pose proof Ht as [Hh H1]. pose proof (length_nodes _ _ _ _ _ Hh) as Hlen.
  destruct (insert_into n y T h R LEFT [R] (1 + base.size h) xs ys) as (h1 & T' & R1 & Hr1 & En); try done; [lia| |].
  { split; [apply not_elem_of_cons; split; [done|by intros ?%elem_of_nil]|]. intros x Hx. cbn. by rewrite H1. }
  assert (∀ m, m ∈ nodes T' ↔ m = n ∨ m ∈ nodes T) as Hin by (intros m; rewrite En, Hnodes, !elem_of_app, elem_of_cons; tauto).
  assert (tree (bare h1) R T') as Ht1.
  { apply (tree_replaced _ _ _ _ _ Ht Hr1); [|intros m Hm ->; apply Hin in Hm as [->|Hm]; [done|by apply (tree_root_notin _ _ _ Ht)]].
    rewrite En, <- Permutation_middle, <- Hnodes. apply NoDup_cons. split; [done|apply Hh]. }
  destruct (hangs_top _ _ _ _ _ Hh) as (z & Hz & _). destruct (bare_some h R z Hz) as (x & Hx & <-).
  assert (_parent x = None) as Hp.
  { pose proof (hangs_climbs _ _ _ _ _ Hh) as Hc. inversion Hc as [m w Hw Hpw _|m w p l Hw Hpw _ Hc']; subst; [|by inversion Hc'].
    assert (w = erase x) as -> by congruence. done. }
  destruct (recompute_run R [R] h1) as (h' & R2 & B2 & _); [apply Ht1|apply Ht1|]. exists h', T'. rewrite B2. split_and!; try done.
  - unfold insert. change (2 + base.size h)%nat with (S (1 + base.size h)). cbn [insert_below]. rewrite decide_False, Hx, Hy by done.
    cbn [mbind option_bind]. rewrite Hp. pose proof (hangs_child _ _ _ _ _ Hh _ Hz) as Ec. rewrite child_erase in Ec. rewrite Ec.
    assert (∃ xR, h' !! R = Some xR ∧ _parent xR = None) as (xR & HxR & HpR).
    { pose proof (rpl_parent _ _ _ _ _ _ Hr1) as Hz1. rewrite Hz in Hz1. rewrite <- B2 in Hz1. destruct (bare_some h' R _ Hz1) as (xR & HxR & ExR).
      exists xR. split; [done|]. change (_parent (erase xR) = None). rewrite ExR. done. }
    destruct (root_of T); rewrite R1; cbn [mbind option_bind]; rewrite R2; cbn [mbind option_bind]; rewrite HxR; cbn [mbind option_bind]; by rewrite HpR.
  - intros m HmR Hmn HmT. apply (rpl_frame _ _ _ _ _ _ Hr1); [done|done|]. rewrite Hin. tauto.
  - apply Hr1.
Qed.

Lemma length_plug C T : (length C ≤ length (nodes (plug C T)))%nat.
Proof.
  revert T. induction C as [|[[s m] o] C IH]; intros T; cbn; [lia|]. rewrite nodes_plug, !length_app, nodes_mk.
  specialize (IH Leaf). rewrite nodes_plug, !length_app in IH. cbn in IH. destruct s; rewrite length_app; cbn; lia.
Qed.

(** A node without a left subtree *)
Lemma unlink_leaf h R C t b :
  hangs (bare h) R LEFT (plug C (Br Leaf t b)) [R] →
  ∃ h', unlink (up R C) t h = Some (None, h') ∧ replaced (bare h) (bare h') R LEFT (plug C (Br Leaf t b)) (plug C b) ∧
    hangs (bare h') R LEFT (plug C b) [R].
Proof.
  intros Hh. pose proof (hangs_plug _ _ _ _ _ _ Hh) as Hd. change (Br Leaf t b) with (mk RIGHT b t Leaf) in *.
  destruct (hangs_heap _ _ _ _ _ _ _ _ Hd) as (x & _ & Hx & _ & _ & E1 & E0 & _). cbn in E1, E0.
  pose proof (hangs_spare _ _ _ _ _ Hd) as Hs. pose proof (hangs_nodup _ _ _ _ _ Hd) as (Nb & _ & Htb & _)%NoDup_mk.
  destruct (replace_at_run h (up R C) (at_side LEFT C) t (root_of b) (ids C ++ [R])) as (h' & R1 & B1);
    [|by apply Hs, in_mk_top|apply Hd|apply Hd| |].
  { intros y Hy. split; [by rewrite (hangs_child _ _ _ _ _ Hd y Hy), root_mk|by apply (Hs t (in_mk_top _ _ _ _))]. }
  { intros d E%root_in. split_and!; [by intros ->|by apply Hs, in_mk_at|].
    apply (rep_dom _ _ _ _ (hangs_rep _ _ _ _ _ Hd)). by apply in_mk_at. }
  exists h'. unfold unlink. rewrite Hx. cbn [mbind option_bind]. rewrite E0, E1, R1. split; [done|]. rewrite B1.
  apply hangs_replug; [done|by eapply lift_replaced|done|]. intros m Hm. left. by apply in_mk_at.
Qed.

(** A node with a left subtree *)
Lemma unlink_branch h R C a t b l0 :
  hangs (bare h) R LEFT (plug C (Br a t b)) [R] → root_of a = Some l0 →
  ∃ lp h' S, unlink (up R C) t h = Some (lp, h') ∧ replaced (bare h) (bare h') R LEFT (plug C (Br a t b)) (plug C S) ∧
    hangs (bare h') R LEFT (plug C S) [R] ∧ nodes S = nodes a ++ nodes b ∧
    ∀ q, lp = Some q → ∃ C' a' b', plug C S = plug C' (Br a' q b').
Proof.
  intros Hh Hl0. pose proof (hangs_plug _ _ _ _ _ _ Hh) as Hd.
  destruct (hangs_heap h _ _ LEFT a t b _ Hd) as (x & _ & Hx & _ & _ & E0 & _). cbn in E0.
  destruct (isolate_run _ _ _ _ _ _ _ _ Hd Hl0) as (Cr & ll & l & xl & h1 & Rr & Ea & HC & Hxl & Z1 & Zp & Hl & Hup & R1 & Bl & Hr1 & Hh1).
  assert (l ∈ nodes a) as Hla by (rewrite Ea; apply in_plug, (in_mk_top LEFT)).
  destruct (right_context _ LEFT HC) as [Haft Hside].
  assert (nodes a = nodes (plug Cr ll) ++ [l]) as Na by (rewrite Ea, !nodes_plug, Haft; cbn; by rewrite !app_nil_r, app_assoc).
  pose proof (hangs_nodup _ _ _ _ _ Hd) as (Nda & Ndb & Hta & Htb & Hab)%(NoDup_mk LEFT). rewrite Na in Nda.
  apply NoDup_app in Nda as (Ndp & Hpl & _). setoid_rewrite list_elem_of_singleton in Hpl.
  assert (l ∉ nodes (Br (plug Cr ll) t b)) as Hln.
  { intros E. change (l ∈ nodes (mk LEFT (plug Cr ll) t b)) in E. apply elem_of_mk in E as [->|[E|E]]; [done|by apply (Hpl l)|by apply (Hab l)]. }
  assert (∀ m, m ∈ nodes (Br (plug Cr ll) t b) → m ∈ nodes (Br a t b)) as Hsub.
  { cbn. intros m. rewrite Na, !elem_of_app. tauto. }
  assert (spare (bare h) (up R C) (at_side LEFT C) (ids C ++ [R]) l) as Hsp.
  { apply (hangs_spare _ _ _ _ _ Hd). change (l ∈ nodes (mk LEFT a t b)). by apply in_mk_at. }
  assert (spare (bare h1) (up R C) (at_side LEFT C) (ids C ++ [R]) l) as Hsp1.
  { split; [apply Hsp|]. intros y. rewrite (rpl_parent _ _ _ _ _ _ Hr1). intros (w & Hw & ->)%fmap_Some. rewrite child_set_other. by apply Hsp. }
  destruct (bare_some h1 l (erase xl)) as (z & Hz & Ez); [by rewrite Bl, bare_lookup, Hxl|].
  destruct (exchange_run h1 _ _ _ _ _ _ l z Hh1 Hz) as (h2 & x2 & h3 & x3 & h' & R2 & Hx2 & R3 & Hx3 & R4 & Hr2); [| |done|done|].
  { change (_child1 (erase z) = None). by rewrite Ez. }
  { intros d Hd0. apply (same_data_dom (bare h)); [apply Hr1|].
    assert (kids (bare h) (erase xl)) as Hk.
    { apply (rep_kids _ (Some (up R C)) (Br a t b) l); [apply Hd|change (l ∈ nodes (mk LEFT a t b)); by apply in_mk_at|by rewrite bare_lookup, Hxl]. }
    apply (Hk LEFT). change (_child0 (erase xl) = Some d). rewrite <- Ez. done. }
  exists (if decide (_parent xl = Some t) then None else _parent xl), h', (Br (plug Cr ll) l b). split.
  { unfold unlink. rewrite Hx. cbn [mbind option_bind]. rewrite E0, Hl0, Rr. cbn [mbind option_bind]. rewrite Hxl. cbn [mbind option_bind].
    rewrite Zp, Hside in *. cbn [mbind option_bind].
    assert ((if decide (l = l0) then _adopt t (_child0 xl) LEFT h else _adopt (up t Cr) (_child0 xl) RIGHT h) = Some h1) as ->.
    { rewrite <- R1. destruct (decide (l = l0)) as [El|El].
      - apply Hl in El. rewrite decide_True by done. by rewrite El.
      - rewrite decide_False; [done|]. by rewrite <- Hl. }
    cbn [mbind option_bind]. rewrite R2. cbn [mbind option_bind]. rewrite Hx2. cbn [mbind option_bind]. rewrite R3. cbn [mbind option_bind].
    rewrite Hx3. cbn [mbind option_bind]. by rewrite R4. }
  assert (replaced (bare h) (bare h') (up R C) (at_side LEFT C) (Br a t b) (Br (plug Cr ll) l b)) as Hr.
  { apply (replaced_trans _ _ _ _ _ _ _ _ Hr1 Hr2). intros m Hm. left. by apply Hsub. }
  assert (∀ m, m ∈ nodes (Br (plug Cr ll) l b) → m ∈ nodes (Br a t b)) as Hsub'.
  { cbn. intros m. rewrite Na, !elem_of_app, !elem_of_cons, elem_of_nil. tauto. }
  assert (NoDup (nodes (Br (plug Cr ll) l b))) as Nd.
  { apply (NoDup_mk LEFT). split_and!; [done|done|intros E; by apply (Hpl l)|by apply Hab|].
    intros m Hm. apply Hab. rewrite Na. apply elem_of_app. by left. }
  destruct (hangs_replug _ _ _ _ _ _ _ _ Hh Hr Nd ltac:(intros m Hm; left; by apply Hsub')) as [Hrp Hhp].
  split_and!; [done|done|by cbn; rewrite Na, <- app_assoc|]. intros q. rewrite Zp.
  destruct Cr as [|[[s m] o] Cr]; cbn [up]; [by rewrite decide_True|]. destruct (decide (Some m = Some t)) as [_|_]; [done|]. intros Eq. injection Eq as <-.
  assert (∃ a' b', mk s ll m o = Br a' m b') as (a' & b' & E) by (destruct s; by eexists _, _).
  exists (Cr ++ (LEFT, l, b) :: C), a', b'. rewrite plug_app, <- E. done.
Qed.

(** The node leaves the tree. *)
Lemma remove_run h R T t :
  tree (bare h) R T → t ∈ nodes T →
  ∃ h' T' xs ys, remove t h = Some h' ∧ tree (bare h') R T' ∧ nodes T = xs ++ t :: ys ∧ nodes T' = xs ++ ys ∧
    (∀ m, m ≠ R → m ∉ nodes T → bare h' !! m = bare h !! m) ∧ (∀ m, data <$> bare h' !! m = data <$> bare h !! m) ∧
    ∃ x, h' !! t = Some x ∧ _child0 x = None ∧ _child1 x = None.
Proof.
  intros Ht HtT. pose proof (tree_root_notin _ _ _ Ht) as HR. pose proof Ht as [Hh _]. destruct (find_plug T t HtT) as (C & a & b & ->).
  assert (∃ lp h1 S, unlink (up R C) t h = Some (lp, h1) ∧ replaced (bare h) (bare h1) R LEFT (plug C (Br a t b)) (plug C S) ∧
    hangs (bare h1) R LEFT (plug C S) [R] ∧ nodes S = nodes a ++ nodes b ∧ ∀ q, lp = Some q → ∃ C' a' b', plug C S = plug C' (Br a' q b'))
    as (lp & h1 & S & R1 & Hr1 & Hh1 & ES & Hlp).
  { destruct (root_of a) as [l0|] eqn:El; [by apply unlink_branch with l0|]. destruct a; [|done].
    destruct (unlink_leaf _ _ _ _ _ Hh) as (h1 & R1 & Hr1 & Hh1). by exists None, h1, b. }
  assert (∃ h2 T', match lp with None => Some h1 | Some lp => rebalance_up (2 + base.size h1) lp h1 end = Some h2 ∧
    replaced (bare h1) (bare h2) R LEFT (plug C S) T' ∧ nodes T' = nodes (plug C S)) as (h2 & T' & R2 & Hr2 & E2).
  { destruct lp as [q|]; [|by exists h1, (plug C S); split_and!; [|apply replaced_refl with [R]|]].
    destruct (Hlp q eq_refl) as (C' & a' & b' & E). rewrite E in *. pose proof (length_nodes _ _ _ _ _ Hh1). pose proof (length_plug C' (Br a' q b')).
    apply rebalance_up_run; [done|lia]. }
  assert (nodes (plug C (Br a t b)) = (before C ++ nodes a) ++ t :: nodes b ++ after C) as Nt by (rewrite nodes_plug; cbn; by rewrite <- !app_assoc).
  assert (nodes T' = (before C ++ nodes a) ++ nodes b ++ after C) as Nt' by (rewrite E2, nodes_plug, ES, <- !app_assoc; done).
  pose proof (hangs_nodup _ _ _ _ _ Hh) as Nd. rewrite Nt, <- Permutation_middle, <- Nt' in Nd. apply NoDup_cons in Nd as [HtT' Nd].
  assert (∀ m, m ∈ nodes T' → m ∈ nodes (plug C (Br a t b))) as Hsub by (intros m; rewrite Nt, Nt', !elem_of_app, elem_of_cons, !elem_of_app; tauto).
  assert (∀ m, m ∈ nodes (plug C S) → m ∈ nodes T') as Hsub2 by (intros m; by rewrite E2).
  assert (replaced (bare h) (bare h2) R LEFT (plug C (Br a t b)) T') as Hr.
  { apply (replaced_trans _ _ _ _ _ _ _ _ Hr1 Hr2). intros m Hm. right. by apply Hsub2. }
  assert (tree (bare h2) R T') as Ht2 by (apply (tree_replaced _ _ _ _ _ Ht Hr Nd); intros m Hm ->; by apply HR, Hsub).
  destruct (hangs_heap h _ _ LEFT a t b _ (hangs_plug _ _ _ _ _ _ Hh)) as (x & _ & Hx & _ & _ & _ & _ & Ep & _).
  destruct (same_data_dom _ _ (rpl_data _ _ _ _ _ _ Hr) t) as [z Hz]; [rewrite bare_lookup, Hx; by eexists|].
  destruct (bare_some h2 t z Hz) as (x2 & Hx2 & <-). set (y := Node None None None (_depth x2) (data x2) (aux x2)).
  assert (∀ m, m ≠ t → bare (<[t := y]> h2) !! m = bare h2 !! m) as Hf by (intros m Hm; by rewrite !bare_lookup, lookup_insert_ne).
  assert (t ≠ R) as HtR by (by intros ->). exists (<[t := y]> h2), T', (before C ++ nodes a), (nodes b ++ after C).
  split_and!; [|split|done|done| | |exists y; by rewrite lookup_insert_eq].
  - unfold remove. rewrite Hx. cbn [mbind option_bind]. rewrite Ep. cbn [mbind option_bind]. rewrite R1. cbn [mbind option_bind]. rewrite R2. cbn [mbind option_bind].
    by rewrite Hx2.
  - apply (hangs_ext (bare h2)); [apply Ht2| |].
    + intros m Hm. apply Hf. intros ->. destruct Hm as [?|[?|[]%elem_of_nil]%elem_of_cons]; done.
    + intros m Hm. destruct (decide (m = t)) as [->|]; [|by rewrite Hf]. rewrite bare_lookup, lookup_insert_eq. by eexists.
  - rewrite Hf by done. apply Ht2.
  - intros m HmR Hm. rewrite Hf by (by intros ->). apply (rpl_frame _ _ _ _ _ _ Hr); [done|done|]. intros E. by apply Hm, Hsub.
  - intros m. rewrite <- (rpl_data _ _ _ _ _ _ Hr). destruct (decide (m = t)) as [->|]; [|by rewrite Hf].
    rewrite !bare_lookup, lookup_insert_eq, Hx2. done.
Qed.

End Tree.

(** ** Sequences of insertions and removals *)

(** [higher] is a total preorder. *)
Class Ordered (D M : Type) `{Policy D M} := {
  higher_total a b : higher a b = true ∨ higher b a = true;
  higher_trans a b c : higher a b = true → higher b c = true → higher a c = true }.

Inductive op := Insert (n : id) | Remove (n : id).

Section Sequences.
Context {D M : Type} `{Ordered D M}.
Abbreviation heap := (gmap id (node D M)).
Implicit Types h : heap.

Definition apply_op (R : id) (o : op) h : option heap := match o with Insert n => insert R n h | Remove n => remove n h end.

Fixpoint apply_ops (R : id) (os : list op) h : option heap :=
  match os with [] => Some h | o :: os => h ← apply_op R o h; apply_ops R os h end.

(** The node [n] with the data [d n] behind all nodes of [l] that are not higher *)
Fixpoint place_node (d : id → option D) (n : id) (l : list id) : list id :=
  match l with
  | [] => [n]
  | m :: l' => match d m, d n with Some a, Some b => if higher a b then m :: place_node d n l' else n :: m :: l' | _, _ => n :: m :: l' end
  end.

Definition spec_op (d : id → option D) (l : list id) (o : op) : list id :=
  match o with Insert n => place_node d n l | Remove n => filter (λ m, m ≠ n) l end.

(** A node is inserted when it is allocated and not in the tree, and removed when it is in the tree. *)
Definition admissible_op (R : id) (d : id → option D) (l : list id) (o : op) : Prop :=
  match o with Insert n => is_Some (d n) ∧ n ≠ R ∧ n ∉ l | Remove n => n ∈ l end.

Fixpoint admissible_ops (R : id) (d : id → option D) (l : list id) (os : list op) : Prop :=
  match os with [] => True | o :: os => admissible_op R d l o ∧ admissible_ops R d (spec_op d l o) os end.

Definition data_at h (n : id) : option D := data <$> h !! n.

(** [m] is not behind [n]. *)
Definition not_behind (d : id → option D) (m n : id) : Prop := ∀ a b, d m = Some a → d n = Some b → higher a b = true.

(** The tree holds the nodes [l] in order, and the other nodes have no children. *)
Definition holds h (R : id) (l : list id) : Prop :=
  (∃ T, tree (bare h) R T ∧ nodes T = l) ∧ StronglySorted (not_behind (data_at h)) l ∧
  ∀ n x, h !! n = Some x → n ≠ R → n ∉ l → _child0 x = None ∧ _child1 x = None.

Lemma place_split (d : id → option D) n y l :
  d n = Some y → (∀ m, m ∈ l → is_Some (d m)) → StronglySorted (not_behind d) l →
  ∃ xs ys, l = xs ++ ys ∧ place_node d n l = xs ++ n :: ys ∧
    (∀ m a, m ∈ xs → d m = Some a → higher a y = true) ∧ (∀ m a, m ∈ ys → d m = Some a → higher a y = false) ∧
    StronglySorted (not_behind d) (xs ++ n :: ys).
Proof.
  intros Hn Hd Hs. induction Hs as [|m l Hs IH Hm].
  { exists [], []. split_and!; [done|done|by intros ? ? ?%elem_of_nil|by intros ? ? ?%elem_of_nil|repeat constructor]. }
  destruct (Hd m) as [a Ha]; [constructor|]. cbn. rewrite Ha, Hn. rewrite Forall_forall in Hm. destruct (higher a y) eqn:E.
  - destruct IH as (xs & ys & -> & -> & Hx & Hy & Hsorted); [intros k Hk; apply Hd; by constructor|]. exists (m :: xs), ys. split_and!; [done|done| |done|].
    + intros k b [->|Hk]%elem_of_cons Hb; [congruence|by apply (Hx k)].
    + cbn. constructor; [done|]. apply Forall_forall. intros k. rewrite elem_of_app, elem_of_cons. intros [Hk|[->|Hk]]; [apply Hm, elem_of_app; auto| |apply Hm, elem_of_app; auto].
      intros b c Hb Hc. congruence.
  - assert (∀ k b, k ∈ m :: l → d k = Some b → higher b y = false) as Hall.
    { intros k b [->|Hk]%elem_of_cons Hb; [congruence|]. apply not_true_is_false. intros Hby. enough (higher a y = true) by congruence.
      apply (higher_trans a b y); [|done]. by apply (Hm k Hk a b). }
    exists [], (m :: l). split_and!; [done|done|by intros ? ? ?%elem_of_nil|done|]. constructor; [constructor; [done|by apply Forall_forall]|].
    apply Forall_forall. intros k Hk b c Hb Hc. assert (b = y) as -> by congruence. destruct (higher_total y c) as [|Hcy]; [done|]. by rewrite (Hall k c Hk Hc) in Hcy.
Qed.

Lemma data_at_bare h h' : (∀ m, data <$> bare h' !! m = data <$> bare h !! m) → ∀ m, data_at h' m = data_at h m.
Proof.
  intros E m. specialize (E m). rewrite !bare_lookup in E. unfold data_at. destruct (h' !! m), (h !! m); cbn in *; congruence.
Qed.

Lemma sorted_ext (P Q : id → id → Prop) l : (∀ m n, P m n → Q m n) → StronglySorted P l → StronglySorted Q l.
Proof. intros Hpq. induction 1; constructor; [done|]. eapply Forall_impl; [done|]. intros k Hk. by apply Hpq. Qed.

Lemma filter_out (l1 l2 : list id) n : NoDup (l1 ++ n :: l2) → filter (λ m, m ≠ n) (l1 ++ n :: l2) = l1 ++ l2.
Proof.
  intros Hnd. rewrite <- Permutation_middle in Hnd. apply NoDup_cons in Hnd as [Hn _]. rewrite filter_app, filter_cons_False by (intros ?; done). rewrite elem_of_app in Hn.
  rewrite !filter_all; [done|apply Forall_forall..]; intros m Hm ->; tauto.
Qed.

Lemma apply_op_run R o h l :
  holds h R l → admissible_op R (data_at h) l o →
  ∃ h', apply_op R o h = Some h' ∧ holds h' R (spec_op (data_at h) l o) ∧ ∀ m, data_at h' m = data_at h m.
Proof.
  intros ((T & Ht & <-) & Hs & Hout) Ha. assert (∀ m, m ∈ nodes T → is_Some (data_at h m)) as Hd.
  { intros m Hm. unfold data_at. apply fmap_is_Some, bare_is_some. apply (rep_dom _ _ _ _ (hangs_rep _ _ _ _ _ (proj1 Ht)) Hm). }
  destruct o as [n|n]; cbn [admissible_op apply_op spec_op] in *.
  - destruct Ha as ([y (x & Hx & ->)%fmap_Some] & HnR & HnT). destruct (Hout n x Hx HnR HnT) as [X0 X1].
    assert (data_at h n = Some (data x)) as Hn by (unfold data_at; by rewrite Hx).
    destruct (place_split (data_at h) n (data x) (nodes T) Hn Hd Hs) as (xs & ys & E & -> & Hxs & Hys & Hsorted).
    destruct (insert_run h R T n x xs ys Ht Hx X0 X1 HnR HnT E) as (h' & T' & R1 & Ht' & E' & Hf & Hdata).
    { split; intros m z Hm (w & Hw & <-)%bare_some; [apply (Hxs m)|apply (Hys m)]; try done; unfold data_at; by rewrite Hw. }
    pose proof (data_at_bare _ _ Hdata) as Hda. exists h'. split_and!; [done| |done]. split_and!; [by exists T'| |].
    + eapply sorted_ext; [|exact Hsorted]. intros m k Hmk a b. rewrite !Hda. apply Hmk.
    + intros m z Hz HmR Hm. rewrite elem_of_app, elem_of_cons in Hm. assert (m ∉ nodes T) as HmT by (rewrite E, elem_of_app; tauto).
      specialize (Hf m HmR ltac:(tauto) HmT). rewrite !bare_lookup, Hz in Hf. destruct (h !! m) as [w|] eqn:Hw; [|done].
      cbn in Hf. injection Hf as E0 E1 _ _. rewrite E0, E1. by apply (Hout m).
  - destruct (remove_run h R T n Ht Ha) as (h' & T' & xs & ys & R1 & Ht' & E & E' & Hf & Hdata & x & Hx & X0 & X1).
    pose proof (data_at_bare _ _ Hdata) as Hda. pose proof (hangs_nodup _ _ _ _ _ (proj1 Ht)) as Hnd. rewrite E in Hnd. exists h'.
    rewrite E, (filter_out xs ys n Hnd). split_and!; [done| |done]. split_and!; [by exists T'| |].
    + rewrite E in Hs. apply (sorted_ext (not_behind (data_at h))); [intros m k Hmk a b; rewrite !Hda; apply Hmk|]. clear -Hs. induction xs as [|z xs IH]; cbn in *.
      * by apply StronglySorted_inv in Hs as [? _].
      * apply StronglySorted_inv in Hs as [Hs Hz]. constructor; [by apply IH|]. rewrite Forall_app, Forall_cons in Hz. apply Forall_app. tauto.
    + intros m z Hz HmR Hm. destruct (decide (m = n)) as [->|Hmn]; [by assert (z = x) as -> by congruence|].
      assert (m ∉ nodes T) as HmT by (rewrite E, elem_of_app, elem_of_cons; rewrite elem_of_app in Hm; tauto).
      specialize (Hf m HmR HmT). rewrite !bare_lookup, Hz in Hf. destruct (h !! m) as [w|] eqn:Hw; [|done].
      cbn in Hf. injection Hf as E0 E1 _ _. rewrite E0, E1. by apply (Hout m).
Qed.

Lemma admissible_ext R d d' l os : (∀ m, d' m = d m) → admissible_ops R d l os → admissible_ops R d' l os.
Proof.
  intros E. assert (∀ n l, place_node d' n l = place_node d n l) as Ep by (intros n k; induction k as [|m k IH]; cbn; rewrite ?E, ?IH; done).
  revert l. induction os as [|o os IH]; intros l; [done|]. cbn. intros [Ho Hos]. split.
  - destruct o; cbn in *; by rewrite ?E.
  - assert (spec_op d' l o = spec_op d l o) as -> by (destruct o; cbn; [apply Ep|done]). by apply IH.
Qed.

Lemma spec_op_ext d d' l os : (∀ m, d' m = d m) → foldl (spec_op d') l os = foldl (spec_op d) l os.
Proof.
  intros E. assert (∀ n l, place_node d' n l = place_node d n l) as Ep by (intros n k; induction k as [|m k IH]; cbn; rewrite ?E, ?IH; done).
  revert l. induction os as [|o os IH]; intros l; [done|]. cbn. rewrite IH. f_equal. by destruct o; cbn.
Qed.

(** C35: Insertion and removal on linked nodes, with depths and annotations of any value,
    refine a sorted sequence: every admissible series of operations ends without following
    a null pointer, the links form a tree with consistent parents, and the nodes are those
    of the sequence in its order. *)
Theorem linked_tree_refines_sequence R os h l :
  holds h R l → admissible_ops R (data_at h) l os →
  ∃ h', apply_ops R os h = Some h' ∧ holds h' R (foldl (spec_op (data_at h)) l os).
Proof.
  revert h l. induction os as [|o os IH]; intros h l Hh Ha; [by exists h|]. cbn in Ha. destruct Ha as [Ho Ha].
  destruct (apply_op_run R o h l Hh Ho) as (h1 & R1 & Hh1 & Hd). destruct (IH h1 _ Hh1) as (h2 & R2 & Hh2); [by apply (admissible_ext R (data_at h))|].
  exists h2. cbn [apply_ops foldl]. rewrite R1. split; [done|]. by rewrite <- (spec_op_ext _ _ _ _ Hd).
Qed.

End Sequences.

(** ** An example *)

(** A tree object without nodes *)
Lemma tree_leaf {D} (g : gmap id (node D unit)) R x :
  g !! R = Some x → _child0 x = None → _child1 x = None → _parent x = None → tree g R Leaf.
Proof.
  intros Hx X0 X1 Xp. assert (∀ y, g !! R = Some y → y = x) as Huniq by (intros y Hy; congruence).
  split; [|by intros y ->%Huniq]. split; [done|apply NoDup_nil_2| |apply NoDup_singleton|by intros m ?%elem_of_nil|by intros y ->%Huniq].
  apply (climbs_root g R x Hx Xp). intros [] c Hc; cbn in Hc; congruence.
Qed.

#[export] Instance admissible_op_dec R {D} (d : id → option D) l o : Decision (admissible_op R d l o).
Proof. destruct o; cbn; apply _. Defined.

#[export] Instance admissible_ops_dec R {D M} `{Policy D M} (d : id → option D) l os : Decision (admissible_ops R d l os).
Proof. revert l. induction os as [|o os IH]; intros l; cbn; apply _. Defined.

(** Nodes with integer keys; the annotation is the biggest key below. *)
#[local] Instance key_policy : Policy Z Z := {|
  higher a b := a <=? b;
  recompute k m0 m1 := Z.max k (Z.max (default k m0) (default k m1)) |}.

#[local] Instance key_ordered : Ordered Z Z.
Proof. split; intros *; cbn; rewrite ?Z.leb_le; lia. Qed.

Definition demo_nodes : gmap id (node Z Z) := list_to_map ((λ n, (n, fresh (n * 37 mod 11) 0)) <$> seqZ 0 12).

(** The object 0 is the root, and the nodes 1 to 11 have the keys 4, 8, 1, 5, 9, 2, 6, 10, 3, 7 and 0. *)
Definition demo_ops : list op :=
  [Insert 1; Insert 2; Insert 3; Insert 4; Insert 5; Insert 6; Insert 7; Insert 8; Insert 9; Insert 10; Insert 11; Remove 4; Remove 1; Remove 8; Insert 4].

Lemma demo_holds : holds demo_nodes 0 [].
Proof.
  split; [|split; [constructor|]].
  - exists Leaf. split; [|done]. apply (tree_leaf _ _ (erase (fresh 0 0))); [|done..]. rewrite bare_lookup. done.
  - intros n x Hn _ _. apply elem_of_list_to_map_2 in Hn. apply list_elem_of_fmap in Hn as (m & [= -> ->] & _). done.
Qed.

Lemma linked_tree_refines_sequence_witness :
  holds demo_nodes 0 [] ∧ admissible_ops 0 (data_at demo_nodes) [] demo_ops ∧
  ∃ h', apply_ops 0 demo_ops demo_nodes = Some h' ∧ holds h' 0 [11; 3; 6; 9; 4; 7; 10; 2; 5].
Proof.
  assert (admissible_ops 0 (data_at demo_nodes) [] demo_ops) as Ha by (apply (bool_decide_unpack _); vm_compute; exact I).
  split; [exact demo_holds|]. split; [exact Ha|]. destruct (linked_tree_refines_sequence 0 demo_ops demo_nodes [] demo_holds Ha) as (h' & R & Hh).
  exists h'. split; [exact R|]. assert (foldl (spec_op (data_at demo_nodes)) [] demo_ops = [11; 3; 6; 9; 4; 7; 10; 2; 5]) as <- by (vm_compute; reflexivity). exact Hh.
Defined.
