(* ===== verification/Allocator_avl.v ===== *)
(** * Allocator_avl: the address-range allocator of core

    Model of [src/repos/base/src/lib/base/allocator_avl.cc] and of the classes
    [Allocator_avl_base] and [Allocator_avl_tpl] of
    [src/repos/base/include/base/allocator_avl.h].  The allocator
    keeps the blocks of the managed ranges, free and used ones, in an AVL tree ordered by
    their base addresses; a block is a node of [Avl_nodes] whose annotation is the biggest
    free block of its subtree.  The nodes live in memory that a meta-data allocator hands
    out, here an interface: it may fail, and what it gives back or takes is what the state
    of the node store loses or gains, so that an access to a destroyed block has no result.
    A computation has the result [Err Fault] where the code dereferences such a pointer;
    errors that the code returns are values. *)

From S2P Require Import Prelude Avl_nodes Avl_trees.

(** [Ram_allocator::Alloc_error] *)
Inductive Alloc_error := OUT_OF_RAM | OUT_OF_CAPS | DENIED.
(** [Allocator_avl_base::Size_at_error] *)
Inductive Size_at_error := UNKNOWN_ADDR | MISMATCHING_ADDR.
Inductive fault := Fault.

#[export] Instance Alloc_error_eq_dec : EqDecision Alloc_error.
Proof. solve_decision. Defined.

(** ** Blocks *)

(** [Allocator_avl_base::Block] without its place in the tree and [_max_avail] *)
Record Block := Blk { _addr : Z; _size : Z; _used : bool }.

#[export] Instance Block_eq_dec : EqDecision Block.
Proof. solve_decision. Defined.

(** [Block::FREE] and [Block::USED] *)
Definition FREE : bool := false.
Definition USED : bool := true.

(** [Range_allocator::Range] *)
Record Range := Rng { start : Z; end_ : Z }.

Definition align_addr (addr align : Z) : Z :=
  let offset := u64 (u64 (Z.shiftl 1 align) - 1) in Z.land (u64 (addr + offset)) (u64 (Z.lnot offset)).

Definition _sum_in_range (addr offset : Z) : bool := addr <=? u64 (addr + offset - 1).

Definition avail_of (b : Block) : Z := if _used b then 0 else _size b.

Definition _fits (b : Block) (n align : Z) (range : Range) : bool :=
  let a := align_addr (Z.max (_addr b) (start range)) align in
  (_addr b <=? a) && _sum_in_range a n && (u64 (a - _addr b + n) <=? avail_of b) && (u64 (a + n - 1) <=? end_ range).

(** [higher] and [recompute] of [Block] *)
#[export] Instance block_policy : Policy Block Z := {|
  higher b a := _addr b <=? _addr a;
  recompute b m0 m1 := Z.max (avail_of b) (Z.max (default 0 m0) (default 0 m1)) |}.

Abbreviation tree_heap := (gmap id (node Block Z)).

(** The node of the tree object itself *)
Definition root : id := 0.

(** [_addr_tree.first()] *)
Definition first (h : tree_heap) : option (option id) := _child0 <$> h !! root.

Definition _child_max_avail (s : Side) (x : node Block Z) (h : tree_heap) : option Z := default 0 <$> child_aux s x h.

Fixpoint find_best_fit (fuel : nat) (this : id) (size align : Z) (range : Range) (h : tree_heap) : option (option id) :=
  match fuel with
  | O => None
  | S fuel =>
      x ← h !! this;
      m1 ← _child_max_avail RIGHT x h;
      m0 ← _child_max_avail LEFT x h;
      let fits := _fits (data x) size align range in
      let try (side : Side) (otherwise : option (option id)) :=
        if (if side then m1 else m0) <? size then otherwise
        else
          res ← match _child side x with Some c => find_best_fit fuel c size align range h | None => Some None end;
          match res with
          | Some r => y ← h !! r; Some (Some (if fits && (size <? _size (data y)) then this else r))
          | None => otherwise
          end in
      let side := m1 <? m0 in
      try side (try (negb side) (Some (if fits then Some this else None)))
  end.

Fixpoint find_by_address (fuel : nat) (this : id) (find_addr find_size : Z) (check_overlap : bool) (h : tree_heap) : option (option id) :=
  match fuel with
  | O => None
  | S fuel =>
      x ← h !! this;
      let b := data x in
      let find_size := if find_size =? 0 then 1 else find_size in
      if check_overlap && (_addr b <=? u64 (find_addr + find_size - 1)) && (find_addr <=? u64 (_addr b + _size b - 1)) then Some (Some this)
      else if (_addr b <=? find_addr) && (u64 (find_addr + find_size - 1) <=? u64 (_addr b + _size b - 1)) then Some (Some this)
      else match _child (_addr b <=? find_addr) x with
           | Some c => find_by_address fuel c find_addr find_size check_overlap h
           | None => Some None
           end
  end.

Fixpoint avail_in_subtree (fuel : nat) (this : id) (h : tree_heap) : option Z :=
  match fuel with
  | O => None
  | S fuel =>
      x ← h !! this;
      let child_avail c := match c with Some c => avail_in_subtree fuel c h | None => Some 0 end in
      a0 ← child_avail (_child0 x);
      a1 ← child_avail (_child1 x);
      Some (u64 (u64 (avail_of (data x) + a0) + a1))
  end.

(** [_find_any_used_block] and [_find_any_unused_block] *)
Fixpoint find_any_block (u : bool) (fuel : nat) (sub_tree : option id) (h : tree_heap) : option (option id) :=
  match fuel with
  | O => None
  | S fuel =>
      match sub_tree with
      | None => Some None
      | Some n =>
          x ← h !! n;
          if eqb (_used (data x)) u then Some (Some n)
          else
            r ← find_any_block u fuel (_child0 x) h;
            match r with Some b => Some (Some b) | None => find_any_block u fuel (_child1 x) h end
      end
  end.

Definition enough (h : tree_heap) : nat := 1 + base.size h.

(** ** Meta data *)

(** The meta-data allocator as far as the blocks use it, and whether it has a backing store.
    [add_range] detaches that for a while; where there is nothing to detach, as in an
    [Allocator_avl_base] on its own, the setter does nothing. *)
Class Metadata (S : Type) := {
  md_alloc : S → result Alloc_error id * S;
  md_free : id → S → S;
  md_backing_store : S → bool;
  md_set_backing_store : bool → S → S }.

(** The release of memory that the meta-data allocator does not need, for the destructor *)
Class Empty_blocks (S : Type) := md_free_empty_blocks : S → S.

Section Allocator.
Context {S : Type} `{Metadata S}.

(** [Allocator_avl_base] *)
Record state := St { heap : tree_heap; md : S }.

Abbreviation prog := (exc state fault).

Definition lift {A} (f : tree_heap → option A) : prog A := λ st,
  match f (heap st) with Some a => (Ok a, st) | None => (Err Fault, st) end.
Definition update (f : tree_heap → option tree_heap) : prog unit := λ st,
  match f (heap st) with Some h => (Ok tt, St h (md st)) | None => (Err Fault, st) end.

(** [*b] *)
Definition block (b : id) : prog Block := lift (λ h, data <$> h !! b).

Definition _alloc_block_metadata : prog (result Alloc_error id) := λ st,
  let '(r, s) := md_alloc (md st) in
  match r with
  | Ok i => (Ok (Ok i), St (<[i := fresh (Blk 0 0 FREE) 0]> (heap st)) s)
  | Err e => (Ok (Err e), St (heap st) s)
  end.

(** [_md_alloc.free] *)
Definition free_metadata (i : id) : prog unit := λ st, (Ok tt, St (base.delete i (heap st)) (md_free i (md st))).

Definition _alloc_two_blocks_metadata : prog (result Alloc_error (id * id)) :=
  r1 ← _alloc_block_metadata;
  match r1 with
  | Err error => mret (Err error)
  | Ok b1 =>
      r2 ← _alloc_block_metadata;
      match r2 with
      | Ok b2 => mret (Ok (b1, b2))
      | Err error => free_metadata b1;; mret (Err error)
      end
  end.

Definition _add_block (i : id) (base size : Z) (u : bool) : prog unit :=
  update (λ h, Some (<[i := fresh (Blk base size u) (if u then 0 else size)]> h));;
  update (insert root i).

Definition _destroy_block (b : id) : prog unit := update (remove b);; free_metadata b.

Definition _cut_from_block (b : id) (addr size : Z) (blocks : id * id) : prog unit :=
  x ← block b;
  let padding := if _addr x <? addr then u64 (addr - _addr x) else 0 in
  let b_size := if padding <? _size x then u64 (_size x - padding) else 0 in
  let remaining := if size <? b_size then u64 (b_size - size) else 0 in
  let remaining := if (_addr x =? 0) && (_size x =? 0) then u64 (_size x - size - padding) else remaining in
  _destroy_block b;;
  (if 0 <? padding then _add_block blocks.1 (_addr x) padding FREE else free_metadata blocks.1);;
  (if 0 <? remaining then _add_block blocks.2 (u64 (addr + size)) remaining FREE else free_metadata blocks.2).

Definition _find_by_address (addr size : Z) (check_overlap : bool) : prog (option id) :=
  lift (λ h, c ← first h; match c with Some b => find_by_address (enough h) b addr size check_overlap h | None => Some None end).

(** The free block at [addr], if there is one *)
Definition free_block_at (addr : Z) : prog (option (id * Block)) :=
  r ← _find_by_address addr 0 false;
  match r with
  | Some b => x ← block b; mret (if _used x then None else Some (b, x))
  | None => mret None
  end.

(** [Allocator_avl_base::add_range] *)
Definition add_range_base (new_addr new_size : Z) : prog (result Alloc_error unit) :=
  if new_size =? 0 then mret (Err DENIED)
  else
    conflict ← _find_by_address new_addr new_size true;
    match conflict with
    | Some _ => mret (Err DENIED)
    | None =>
        r ← _alloc_block_metadata;
        match r with
        | Err error => mret (Err error)
        | Ok new_block =>
            (* merge with predecessor *)
            p ← (if new_addr =? 0 then mret None else free_block_at (u64 (new_addr - 1)));
            range ← match p with
                    | Some (b, x) => _destroy_block b;; mret (_addr x, u64 (new_size + _size x))
                    | None => mret (new_addr, new_size)
                    end;
            (* merge with successor *)
            s ← free_block_at (u64 (range.1 + range.2));
            range ← match s with
                    | Some (b, x) => _destroy_block b;; mret (range.1, u64 (range.2 + _size x))
                    | None => mret range
                    end;
            _add_block new_block range.1 range.2 FREE;;
            mret (Ok tt)
        end
    end.

Definition backing_store : prog bool := λ st, (Ok (md_backing_store (md st)), st).
Definition set_backing_store (v : bool) : prog unit := λ st, (Ok tt, St (heap st) (md_set_backing_store v (md st))).

(** [Allocator_avl_tpl::add_range], which overrides the one of the base class, also where the
    base class calls it *)
Definition add_range (base size : Z) : prog (result Alloc_error unit) :=
  md_bs ← backing_store;
  set_backing_store false;;
  result ← add_range_base base size;
  set_backing_store md_bs;;
  mret result.

Fixpoint remove_loop (fuel : nat) (base size : Z) : prog (result Alloc_error unit) :=
  match fuel with
  | O => throw Fault
  | Datatypes.S fuel =>
      r ← _alloc_two_blocks_metadata;
      match r with
      | Err error => mret (Err error)
      | Ok blocks =>
          b ← _find_by_address base size true;
          match b with
          | None => free_metadata blocks.1;; free_metadata blocks.2;; mret (Ok tt)
          | Some b =>
              x ← block b;
              if avail_of x =? 0 then free_metadata blocks.1;; free_metadata blocks.2;; mret (Err DENIED)
              else
                let intersect_beg := Z.max base (_addr x) in
                let intersect_end := Z.min (u64 (base + size - 1)) (u64 (_addr x + _size x - 1)) in
                _cut_from_block b intersect_beg (u64 (intersect_end - intersect_beg + 1)) blocks;;
                remove_loop fuel base size
          end
      end
  end.

Definition remove_range (base size : Z) : prog (result Alloc_error unit) := λ st,
  (if size =? 0 then mret (Err DENIED) else remove_loop (2 + base.size (heap st)) base size) st.

Definition _allocate (size align : Z) (range : Range) (search_fn : id → tree_heap → option (option id)) : prog (result Alloc_error Z) :=
  r ← _alloc_two_blocks_metadata;
  match r with
  | Err error => mret (Err error)
  | Ok two_blocks =>
      let denied := free_metadata two_blocks.1;; free_metadata two_blocks.2;; mret (Err DENIED) in
      b ← lift (λ h, c ← first h; match c with Some c => search_fn c h | None => Some None end);
      match b with
      | None => denied
      | Some b =>
          x ← block b;
          if _used x then denied
          else
            let new_addr := align_addr (Z.max (_addr x) (start range)) align in
            _cut_from_block b new_addr size two_blocks;;
            r ← _alloc_block_metadata;
            match r with
            | Ok new_block => _add_block new_block new_addr size USED;; mret (Ok new_addr)
            | Err error => mret (Err error)
            end
      end
  end.

Definition alloc_aligned (size align : Z) (range : Range) : prog (result Alloc_error Z) :=
  _allocate size align range (λ c h, find_best_fit (enough h) c size align range h).

Definition alloc_addr (size addr : Z) : prog (result Alloc_error Z) :=
  if negb (_sum_in_range addr size) then mret (Err DENIED)
  else _allocate size 0 (Rng addr (u64 (addr + size - 1))) (λ c h, find_by_address (enough h) c addr size false h).

Definition try_alloc (size : Z) : prog (result Alloc_error Z) := alloc_aligned size 3 (Rng 0 (2 ^ 64 - 1)).

Definition free (addr : Z) : prog unit :=
  r ← _find_by_address addr 0 false;
  match r with
  | None => mret tt
  | Some b =>
      x ← block b;
      if negb (_used x) then mret tt
      else _destroy_block b;; add_range (_addr x) (_size x);; mret tt
  end.

Definition size_at (addr : Z) : prog (result Size_at_error Z) :=
  r ← _find_by_address addr 0 false;
  match r with
  | None => mret (Err UNKNOWN_ADDR)
  | Some b =>
      x ← block b;
      mret (if negb (_addr x =? addr) then Err MISMATCHING_ADDR else if _used x then Ok (_size x) else Err UNKNOWN_ADDR)
  end.

(** The address of some used block, [None] when there is none *)
Definition any_block_addr : prog (option Z) :=
  b ← lift (λ h, c ← first h; find_any_block USED (enough h) c h);
  match b with Some b => x ← block b; mret (Some (_addr x)) | None => mret None end.

Definition avail : prog Z :=
  lift (λ h, c ← first h; match c with Some b => avail_in_subtree (enough h) b h | None => Some 0 end).

Definition valid_addr (addr : Z) : prog bool := r ← _find_by_address addr 0 false; mret (bool_decide (is_Some r)).

(** [_revert_block_ranges]; the result says whether a block was found. *)
Fixpoint revert_loop (fuel : nat) (any_block_fn : prog (option id)) (found : bool) : prog bool :=
  match fuel with
  | O => throw Fault
  | Datatypes.S fuel =>
      b ← any_block_fn;
      match b with
      | None => mret found
      | Some b =>
          x ← block b;
          r ← remove_range (_addr x) (_size x);
          match r with
          | Ok _ => revert_loop fuel any_block_fn true
          | Err DENIED => _destroy_block b;; revert_loop fuel any_block_fn true
          | Err _ => mret true
          end
      end
  end.

Definition _revert_block_ranges (any_block_fn : prog (option id)) : prog bool := λ st,
  revert_loop (2 + base.size (heap st)) any_block_fn false st.

Definition _revert_unused_ranges : prog bool :=
  _revert_block_ranges (lift (λ h, c ← first h; find_any_block FREE (enough h) c h)).

Fixpoint free_dangling (fuel : nat) : prog unit :=
  match fuel with
  | O => throw Fault
  | Datatypes.S fuel =>
      a ← any_block_addr;
      match a with None => mret tt | Some addr => free addr;; free_dangling fuel end
  end.

Definition _revert_allocations_and_ranges : prog unit := λ st,
  (free_dangling (2 + base.size (heap st));; _revert_block_ranges (lift first);; mret tt) st.

(** [~Allocator_avl_tpl]; its loop goes on only while something was found, and with enough
    meta-data entries the second round finds nothing. *)
Definition free_empty_blocks `{Empty_blocks S} : prog unit := λ st, (Ok tt, St (heap st) (md_free_empty_blocks (md st))).

Fixpoint release_unused `{Empty_blocks S} (fuel : nat) : prog unit :=
  match fuel with
  | O => throw Fault
  | Datatypes.S fuel =>
      free_empty_blocks;;
      found ← _revert_unused_ranges;
      if (found : bool) then release_unused fuel else mret tt
  end.

Definition destroy `{Empty_blocks S} : prog unit :=
  _ ← _revert_unused_ranges;
  release_unused 2;;
  _revert_allocations_and_ranges.

(** A new allocator *)
Definition init (s : S) : state := St {[root := fresh (Blk 0 0 FREE) 0]} s.

End Allocator.
