(* ===== verification/Allocator_avl_blocks.v ===== *)
(** * Allocator_avl_blocks: the ordered blocks of an allocator and the searches among them

    What the tree of [Allocator_avl] means: a list of non-empty blocks that do not overlap,
    ordered by their addresses.  [owns] ties the node store and the meta-data allocator to
    that list.  The lemmas say what the searches of
    [src/repos/base/src/lib/base/allocator_avl.cc] find and what the two changes of the
    tree, [_add_block] and [_destroy_block], do to the list. *)

From stdpp Require Import sorting.
From S2P Require Import Prelude Avl_nodes Avl_trees Allocator_avl.

(** ** Lists of blocks *)

Definition block_ok (b : Block) : Prop := 0 ≤ _addr b ∧ 0 < _size b ∧ _addr b + _size b < 2 ^ 64.

(** The end of a block *)
Definition stop (b : Block) : Z := _addr b + _size b.

Definition below (a b : Block) : Prop := stop a ≤ _addr b.

(** [L] is what a well-formed tree holds in order. *)
Definition wf (L : list Block) : Prop := Forall block_ok L ∧ StronglySorted below L.

(** The byte [x] belongs to [b]. *)
Definition covers (b : Block) (x : Z) : Prop := _addr b ≤ x < stop b.

Lemma sorted_split {A} (R : relation A) l1 l2 :
  StronglySorted R (l1 ++ l2) ↔ StronglySorted R l1 ∧ StronglySorted R l2 ∧ ∀ x y, x ∈ l1 → y ∈ l2 → R x y.
Proof.
  induction l1 as [|z l1 IH]; cbn.
  - split; [|tauto]. intros Hs. split_and!; [constructor|done|]. by intros x y ?%elem_of_nil.
  - split.
    + intros [Hs Hf]%StronglySorted_inv. apply IH in Hs as (H1 & H2 & H3). rewrite Forall_app in Hf. destruct Hf as [Hf1 Hf2].
      rewrite Forall_forall in Hf2. split_and!; [by constructor|done|]. intros x y [->|Hx]%elem_of_cons Hy; auto.
    + intros ([Hs Hf]%StronglySorted_inv & H2 & H3). setoid_rewrite elem_of_cons in H3. constructor; [apply IH; split_and!; [done|done|]; auto|].
      apply Forall_app. split; [done|]. apply Forall_forall. auto.
Qed.

Lemma wf_app L1 L2 : wf (L1 ++ L2) ↔ wf L1 ∧ wf L2 ∧ ∀ a b, a ∈ L1 → b ∈ L2 → below a b.
Proof. unfold wf. rewrite Forall_app, sorted_split. naive_solver. Qed.

Lemma wf_cons b L : wf (b :: L) ↔ block_ok b ∧ wf L ∧ ∀ c, c ∈ L → below b c.
Proof.
  rewrite (wf_app [b] L). unfold wf at 1. rewrite Forall_singleton. setoid_rewrite list_elem_of_singleton. split; [naive_solver|].
  intros (H1 & H2 & H3). split_and!; [done|repeat constructor|done..|]. intros a c ->. auto.
Qed.

Lemma wf_nil : wf [].
Proof. split; constructor. Qed.

(** Around a block *)
Lemma wf_mid L1 b L2 :
  wf (L1 ++ b :: L2) ↔ block_ok b ∧ wf (L1 ++ L2) ∧ (∀ a, a ∈ L1 → below a b) ∧ (∀ c, c ∈ L2 → below b c).
Proof.
  rewrite !wf_app, wf_cons. setoid_rewrite elem_of_cons. split.
  - naive_solver.
  - intros (Hb & (H1 & H2 & H12) & Ha & Hc). split_and!; [done..|]. intros a c Hin [->|Hin']; auto.
Qed.

Lemma wf_ok L b : wf L → b ∈ L → block_ok b.
Proof. intros [Hf _]. by rewrite Forall_forall in Hf; auto. Qed.

(** Two blocks of a list are the same or do not share a byte. *)
Lemma wf_unique L a b x : wf L → a ∈ L → b ∈ L → covers a x → covers b x → a = b.
Proof.
  intros Hw Ha Hb Hax Hbx. apply list_elem_of_split in Ha as (L1 & L2 & ->). apply wf_mid in Hw as (_ & _ & H1 & H2).
  rewrite elem_of_app, elem_of_cons in Hb. unfold covers, below in *. destruct Hb as [Hb|[->|Hb]]; [|done|].
  - specialize (H1 b Hb). lia.
  - specialize (H2 b Hb). lia.
Qed.

Lemma covers_start b : block_ok b → covers b (_addr b).
Proof. unfold block_ok, covers, stop. lia. Qed.

(** Blocks in a store *)
Definition blocks (h : tree_heap) (l : list id) : list Block := omap (λ m, data <$> h !! m) l.

Lemma blocks_app h l1 l2 : blocks h (l1 ++ l2) = blocks h l1 ++ blocks h l2.
Proof. unfold blocks. apply omap_app. Qed.

Lemma blocks_cons h m x l : h !! m = Some x → blocks h (m :: l) = data x :: blocks h l.
Proof. intros Hm. unfold blocks. cbn. by rewrite Hm. Qed.

Lemma elem_of_blocks h l b : b ∈ blocks h l ↔ ∃ m x, m ∈ l ∧ h !! m = Some x ∧ data x = b.
Proof.
  unfold blocks. rewrite list_elem_of_omap. setoid_rewrite fmap_Some. naive_solver.
Qed.

Lemma blocks_ext h h' l : (∀ m, m ∈ l → data <$> h' !! m = data <$> h !! m) → blocks h' l = blocks h l.
Proof.
  intros E. unfold blocks. induction l as [|m l IH]; [done|]. cbn. rewrite E by constructor.
  rewrite IH; [done|]. intros n Hn. apply E. by constructor.
Qed.

Lemma data_bare (h : tree_heap) m : data <$> bare h !! m = data <$> h !! m.
Proof. rewrite bare_lookup. by destruct (h !! m). Qed.

(** ** The searches *)

(** A tree in the store, as the searches walk it *)
Lemma rep_node (h : tree_heap) p l n r :
  rep (bare h) p (Br l n r) →
  ∃ x, h !! n = Some x ∧ _child0 x = root_of l ∧ _child1 x = root_of r ∧ rep (bare h) (Some n) l ∧ rep (bare h) (Some n) r ∧
    blocks h (nodes (Br l n r)) = blocks h (nodes l) ++ data x :: blocks h (nodes r).
Proof.
  intros (z & Hz & E0 & E1 & _ & Hl & Hr). destruct (bare_some h n z Hz) as (x & Hx & <-). exists x.
  split_and!; [done..|]. cbn [nodes]. by rewrite blocks_app, (blocks_cons h n x).
Qed.

Lemma length_br l n r : length (nodes (Br l n r)) = (1 + length (nodes l) + length (nodes r))%nat.
Proof. cbn. rewrite length_app. cbn. lia. Qed.

(** [find_by_address] looks for a block with the bytes from [a] to [a + n - 1], or for one with
    some of these bytes. *)
Definition hit (b : Block) (a n : Z) (check_overlap : bool) : Prop :=
  if check_overlap then _addr b < a + n ∧ a < stop b else _addr b ≤ a ∧ a + n ≤ stop b.

(** The size that [find_by_address] uses *)
Definition least_one (s : Z) : Z := if s =? 0 then 1 else s.

Lemma least_one_pos s : 0 ≤ s → 0 < least_one s.
Proof. unfold least_one. zcases; lia. Qed.

Lemma least_one_twice s : least_one (least_one s) = least_one s.
Proof. unfold least_one. destruct (s =? 0) eqn:E; [done|]. by rewrite E. Qed.

Lemma find_by_address_run (h : tree_heap) a o T : ∀ fuel p n s,
  rep (bare h) p T → root_of T = Some n → (length (nodes T) ≤ fuel)%nat → wf (blocks h (nodes T)) →
  0 ≤ a → 0 ≤ s → a + least_one s ≤ 2 ^ 64 →
  ∃ r, find_by_address fuel n a s o h = Some r ∧
    match r with
    | Some m => m ∈ nodes T ∧ ∃ x, h !! m = Some x ∧ hit (data x) a (least_one s) o
    | None => ∀ b, b ∈ blocks h (nodes T) → ¬ hit b a (least_one s) o
    end.
Proof.
  induction T as [|l IHl n' r IHr]; intros fuel p n s Hrep Hroot Hf Hw Ha Hs Hn; [done|]. injection Hroot as ->.
  destruct (rep_node _ _ _ _ _ Hrep) as (x & Hx & E0 & E1 & Hl & Hr & Eb). rewrite Eb in Hw. apply wf_mid in Hw as (Hb & Hw & Hlx & Hrx).
  rewrite length_br in Hf. destruct fuel as [|fuel]; [lia|]. cbn [find_by_address]. rewrite Hx. cbn [mbind option_bind].
  fold (least_one s). pose proof (least_one_pos s Hs) as Hpos.
  rewrite !(wrap_small 64) by (unfold block_ok, stop in *; word_lia).
  assert (o && (_addr (data x) <=? a + least_one s - 1) && (a <=? _addr (data x) + _size (data x) - 1) = true ∨
    (_addr (data x) <=? a) && (a + least_one s - 1 <=? _addr (data x) + _size (data x) - 1) = true ↔ hit (data x) a (least_one s) o) as Hhit.
  { unfold hit, stop, block_ok in *. destruct o; cbn; zcases; cbn; split; try tauto; try lia; intros [?|?]; try done; lia. }
  destruct (o && _ && _) eqn:C1; [exists (Some n); split; [done|]; split; [cbn; set_solver|]; exists x; split; [done|]; apply Hhit; by left|].
  destruct ((_ <=? a) && _) eqn:C2; [exists (Some n); split; [done|]; split; [cbn; set_solver|]; exists x; split; [done|]; apply Hhit; by right|].
  assert (¬ hit (data x) a (least_one s) o) as Hno by (rewrite <- Hhit; intros [?|?]; congruence). clear Hhit C1 C2.
  apply wf_app in Hw as (Hwl & Hwr & _).
  assert (∀ b, b ∈ blocks h (nodes (Br l n r)) → b ∈ blocks h (nodes l) ∨ b = data x ∨ b ∈ blocks h (nodes r)) as Hin
    by (intros b; rewrite Eb, elem_of_app, elem_of_cons; tauto).
  assert (∀ T' c, root_of T' = c → (T' = l ∨ T' = r) → (∀ b, b ∈ blocks h (nodes l) ∨ b ∈ blocks h (nodes r) → hit b a (least_one s) o → b ∈ blocks h (nodes T')) →
    ∃ res, match c with Some c => find_by_address fuel c a (least_one s) o h | None => Some None end = Some res ∧
    match res with
    | Some m => m ∈ nodes (Br l n r) ∧ ∃ x, h !! m = Some x ∧ hit (data x) a (least_one s) o
    | None => ∀ b, b ∈ blocks h (nodes (Br l n r)) → ¬ hit b a (least_one s) o
    end) as Hside.
  { intros T' c Hc HT Honly. destruct c as [c|].
    - assert (∃ res, find_by_address fuel c a (least_one s) o h = Some res ∧
        match res with
        | Some m => m ∈ nodes T' ∧ ∃ x, h !! m = Some x ∧ hit (data x) a (least_one s) o
        | None => ∀ b, b ∈ blocks h (nodes T') → ¬ hit b a (least_one s) o
        end) as (res & Hres & Hr').
      { pose proof (IHl fuel (Some n) c (least_one s)) as IHl'. pose proof (IHr fuel (Some n) c (least_one s)) as IHr'. rewrite least_one_twice in IHl', IHr'.
        destruct HT as [-> | ->]; [apply IHl'|apply IHr']; done || lia. }
      exists res. split; [done|]. destruct res as [m|]; [destruct Hr' as [Hm ?]; split; [destruct HT as [-> | ->]; cbn; set_solver|done]|].
      intros b [Hb'|[->|Hb']]%Hin Hh; [eapply Hr', Hh; auto|done|eapply Hr', Hh; auto].
    - exists None. split; [done|]. destruct T'; [|done]. intros b [Hb'|[->|Hb']]%Hin Hh; [|done|];
        (apply (elem_of_nil (A := Block) b), Honly; [auto|done]). }
  destruct (Z.leb_spec (_addr (data x)) a) as [Hge|Hlt]; cbn [_child].
  - apply (Hside r (_child1 x)); [done|by right|]. intros b [Hb'|Hb'] Hh; [exfalso|done]. specialize (Hlx b Hb').
    destruct (wf_ok _ _ Hwl Hb') as (?&?&?). unfold hit, below, stop, block_ok in *. destruct o; lia.
  - apply (Hside l (_child0 x)); [done|by left|]. intros b [Hb'|Hb'] Hh; [done|exfalso]. specialize (Hrx b Hb').
    destruct (wf_ok _ _ Hwr Hb') as (?&?&?). unfold hit, below, stop, block_ok in *. destruct o; lia.
Qed.

(** ** Alignment and fitting *)

Lemma align_addr_spec m k :
  is_u64 m → 0 ≤ k < 64 →
  let a := align_addr m k in
  is_u64 a ∧ (2 ^ k | a) ∧ (m + 2 ^ k ≤ 2 ^ 64 → m ≤ a < m + 2 ^ k) ∧ (2 ^ 64 < m + 2 ^ k → a < m).
Proof.
  intros Hm Hk a. assert (0 < 2 ^ k < 2 ^ 64) as Hp by (split; [lia|apply Z.pow_lt_mono_r; lia]).
  assert (a = u64 (m + (2 ^ k - 1)) / 2 ^ k * 2 ^ k) as ->.
  { unfold a, align_addr. rewrite Z.shiftl_1_l, (wrap_small 64 (2 ^ k)), (wrap_small 64 (2 ^ k - 1)) by word_lia.
    rewrite <- (wrap_small 64 (2 ^ k - 1)) at 2 by word_lia. apply land_align_down; [apply wrap_range; lia|done]. }
  set (w := u64 (m + (2 ^ k - 1))). assert (is_u64 w) as Hw by (apply wrap_range; lia).
  pose proof (Z.mul_div_le w (2 ^ k)). pose proof (Z.mul_succ_div_gt w (2 ^ k)). pose proof (Z.div_pos w (2 ^ k)). unfold in_range in *.
  split_and!.
  - nia.
  - nia.
  - by apply Z.divide_factor_r.
  - intros Hle. assert (w = m + (2 ^ k - 1)) by (apply wrap_small; word_lia). nia.
  - intros Hgt. assert (w = m + (2 ^ k - 1) - 2 ^ 64) by (apply wrap_overflow; word_lia). nia.
Qed.

(** The arguments of [alloc_aligned] for which no intermediate result overflows *)
Definition request_ok (n k : Z) (r : Range) : Prop := 0 < n ∧ 0 ≤ k < 64 ∧ 0 ≤ start r ∧ is_u64 (end_ r) ∧ start r + 2 ^ k + n ≤ 2 ^ 64.

(** The lowest place for the bytes in the block [b] *)
Definition place (b : Block) (k : Z) (r : Range) : Z := align_addr (Z.max (_addr b) (start r)) k.

(** The bytes from [a] to [a + n - 1] can be taken from the block [b]. *)
Definition room (b : Block) (n k : Z) (r : Range) (a : Z) : Prop :=
  _used b = false ∧ _addr b ≤ a ∧ start r ≤ a ∧ (2 ^ k | a) ∧ a + n ≤ stop b ∧ a + n - 1 ≤ end_ r.

Lemma fits_room b n k r : block_ok b → request_ok n k r → _fits b n k r = true → room b n k r (place b k r).
Proof.
  intros Hb (Hn & Hk & Hs & He & Hsum). unfold _fits. fold (place b k r). set (a := place b k r).
  assert (0 < 2 ^ k) by lia. unfold block_ok, stop, in_range in *.
  destruct (align_addr_spec (Z.max (_addr b) (start r)) k) as (Ha & Hd & Hlow & Hhigh); [word_lia|done|]. fold (place b k r) in *. fold a in Ha, Hd, Hlow, Hhigh.
  unfold in_range in *. intros [[[H1 H2]%andb_prop H3]%andb_prop H4]%andb_prop. apply Z.leb_le in H1, H3, H4. unfold _sum_in_range in H2. apply Z.leb_le in H2.
  assert (Z.max (_addr b) (start r) ≤ a < Z.max (_addr b) (start r) + 2 ^ k) as Ha' by (apply Hlow; lia).
  assert (a + n - 1 < 2 ^ 64) as Hno.
  { destruct (Z.lt_ge_cases (a + n - 1) (2 ^ 64)) as [|Hge]; [done|]. exfalso. revert H2. replace (a + n - 1) with (a + (n - 1)) by lia.
    rewrite wrap_overflow by word_lia. lia. }
  rewrite wrap_small in H4 by word_lia. rewrite wrap_small in H3 by word_lia.
  unfold room, stop, avail_of in *. destruct (_used b); [lia|]. split_and!; (done || lia).
Qed.

Lemma room_fits b n k r a : block_ok b → request_ok n k r → room b n k r a → _fits b n k r = true.
Proof.
  intros Hb (Hn & Hk & Hs & He & Hsum) (Hu & Ha1 & Ha2 & Hd & Ha3 & Ha4). unfold _fits. fold (place b k r). set (c := place b k r).
  assert (0 < 2 ^ k) by lia. unfold block_ok, stop, in_range in *.
  destruct (align_addr_spec (Z.max (_addr b) (start r)) k) as (Hc & Hdc & Hlow & _); [word_lia|done|]. fold (place b k r) in *. fold c in Hc, Hdc, Hlow.
  unfold in_range in *. assert (Z.max (_addr b) (start r) + 2 ^ k ≤ 2 ^ 64 → c ≤ a) as Hca.
  { intros Hle. destruct (Hlow Hle) as [Hl1 Hl2]. destruct (Z.le_gt_cases c a) as [|Hgt]; [done|]. exfalso.
    destruct Hd as [x ->], Hdc as [y Hy]. assert (y < x + 1) as Hyx by (apply (Z.mul_lt_mono_pos_r (2 ^ k)); lia).
    assert (y * 2 ^ k ≤ x * 2 ^ k) by (apply Z.mul_le_mono_nonneg_r; lia). lia. }
  assert (Z.max (_addr b) (start r) + 2 ^ k ≤ 2 ^ 64) as Hle.
  { destruct Hd as [x ->]. assert (2 ^ 64 = 2 ^ (64 - k) * 2 ^ k) as Hpow by (rewrite <- Z.pow_add_r by lia; f_equal; lia).
    set (P := 2 ^ (64 - k)) in *. assert (x < P) as Hx by (apply (Z.mul_lt_mono_pos_r (2 ^ k)); lia).
    assert ((x + 1) * 2 ^ k ≤ P * 2 ^ k) by (apply Z.mul_le_mono_nonneg_r; lia). lia. }
  specialize (Hlow Hle). specialize (Hca Hle). unfold _sum_in_range, avail_of. rewrite Hu, !wrap_small by word_lia. zcases; done || lia.
Qed.

Lemma fits_avail b n k r : block_ok b → request_ok n k r → _fits b n k r = true → n ≤ avail_of b.
Proof.
  intros Hb Hr Hf. destruct (fits_room b n k r Hb Hr Hf) as (Hu & H1 & _ & _ & H2 & _). unfold avail_of. rewrite Hu. unfold stop in *. lia.
Qed.

(** The annotations of a tree are not below the sizes of the free blocks. *)
Fixpoint covered (h : tree_heap) (T : shape) : Prop :=
  match T with
  | Leaf => True
  | Br l n r => (∃ x, h !! n = Some x ∧ ∀ b, b ∈ blocks h (nodes T) → avail_of b ≤ aux x) ∧ covered h l ∧ covered h r
  end.

Lemma child_max_run (h : tree_heap) x s p T :
  _child s x = root_of T → rep (bare h) p T →
  ∃ m, _child_max_avail s x h = Some m ∧ (covered h T → ∀ b, b ∈ blocks h (nodes T) → avail_of b ≤ m).
Proof.
  intros Hc Hrep. unfold _child_max_avail, child_aux. rewrite Hc. destruct T as [|l n r]; cbn [root_of].
  - exists 0. split; [done|]. intros _ b ?%elem_of_nil. done.
  - destruct (rep_node _ _ _ _ _ Hrep) as (y & Hy & _). rewrite Hy. cbn. exists (aux y). split; [done|].
    intros [(z & Hz & Hcov) _] b Hb. assert (z = y) as -> by congruence. by apply Hcov.
Qed.

Lemma find_best_fit_run (h : tree_heap) size k rg T : ∀ fuel p n,
  rep (bare h) p T → root_of T = Some n → (length (nodes T) ≤ fuel)%nat → Forall block_ok (blocks h (nodes T)) → request_ok size k rg →
  ∃ r, find_best_fit fuel n size k rg h = Some r ∧
    match r with
    | Some m => m ∈ nodes T ∧ ∃ x, h !! m = Some x ∧ _fits (data x) size k rg = true
    | None => covered h T → ∀ b, b ∈ blocks h (nodes T) → _fits b size k rg = false
    end.
Proof.
  induction T as [|l IHl n' r IHr]; intros fuel p n Hrep Hroot Hf Hok Hreq; [done|]. injection Hroot as ->.
  destruct (rep_node _ _ _ _ _ Hrep) as (x & Hx & E0 & E1 & Hl & Hr & Eb). rewrite Eb in Hok. apply Forall_app in Hok as [Hokl [Hokx Hokr]%Forall_cons].
  rewrite length_br in Hf. destruct fuel as [|fuel]; [lia|]. cbn [find_best_fit]. rewrite Hx. cbn [mbind option_bind].
  destruct (child_max_run h x RIGHT _ r E1 Hr) as (m1 & R1 & C1), (child_max_run h x LEFT _ l E0 Hl) as (m0 & R0 & C0).
  rewrite R1, R0. cbn [mbind option_bind]. set (fits := _fits (data x) size k rg).
  set (good res := match res with
    | Some m => m ∈ nodes (Br l n r) ∧ ∃ x, h !! m = Some x ∧ _fits (data x) size k rg = true
    | None => True end).
  set (sub := λ s : Side, if s then r else l).
  set (nofit T' := covered h (Br l n r) → ∀ b, b ∈ blocks h (nodes T') → _fits b size k rg = false).
  assert (∀ (s : Side) otherwise res0, otherwise = Some res0 → good res0 →
    ∃ res, (if (if s then m1 else m0) <? size then otherwise else
      r ← match _child s x with Some c => find_best_fit fuel c size k rg h | None => Some None end;
      match r with
      | Some r => y ← h !! r; Some (Some (if fits && (size <? _size (data y)) then n else r))
      | None => otherwise end) = Some res ∧ good res ∧ (res = None → res0 = None ∧ nofit (sub s))) as Htry.
  { intros s otherwise res0 E0' Hres0. destruct (Z.ltb_spec (if s then m1 else m0) size) as [Hlt|Hge].
    - exists res0. split_and!; [done|done|]. intros ->. split; [done|]. intros (_ & Hcl & Hcr) b Hb.
      apply not_true_iff_false. intros Hfit. assert (block_ok b) as Hbok by (destruct s; [rewrite Forall_forall in Hokr|rewrite Forall_forall in Hokl]; auto).
      pose proof (fits_avail _ _ _ _ Hbok Hreq Hfit). destruct s; [specialize (C1 Hcr b Hb)|specialize (C0 Hcl b Hb)]; lia.
    - assert (_child s x = root_of (sub s)) as -> by (by destruct s). destruct (root_of (sub s)) as [c|] eqn:Ec.
      + assert (∃ res, find_best_fit fuel c size k rg h = Some res ∧ match res with
          | Some m => m ∈ nodes (sub s) ∧ ∃ x, h !! m = Some x ∧ _fits (data x) size k rg = true
          | None => covered h (sub s) → ∀ b, b ∈ blocks h (nodes (sub s)) → _fits b size k rg = false end) as (res & Hres & Hpost)
          by (destruct s; [apply (IHr fuel (Some n))|apply (IHl fuel (Some n))]; done || lia).
        rewrite Hres. cbn [mbind option_bind]. destruct res as [m|].
        * destruct Hpost as (Hm & y & Hy & Hfy). rewrite Hy. cbn [mbind option_bind]. eexists. split; [done|]. split; [|done].
          destruct (fits && _) eqn:Hb; [apply andb_prop in Hb as [Hfits _]; split; [cbn; set_solver|by exists x]|].
          split; [destruct s; cbn in *; set_solver|by exists y].
        * exists res0. split_and!; [done|done|]. intros ->. split; [done|]. intros (_ & Hcl & Hcr). apply Hpost. by destruct s.
      + exists res0. cbn [mbind option_bind]. split_and!; [done|done|]. intros ->. split; [done|]. intros _ b. destruct (sub s); [|done].
        by intros ?%elem_of_nil. }
  assert (good (if fits then Some n else None)) as Hlast.
  { unfold good. destruct fits eqn:Hfits; [|done]. split; [cbn; set_solver|by exists x]. }
  destruct (Htry (negb (m1 <? m0)) _ _ eq_refl Hlast) as (res1 & Hres1 & Hg1 & Hn1).
  destruct (Htry (m1 <? m0) _ _ Hres1 Hg1) as (res & Hres & Hg & Hn). exists res. split; [exact Hres|].
  destruct res as [m|]; [exact Hg|]. destruct (Hn eq_refl) as [-> Hno2], (Hn1 eq_refl) as [Hfits Hno1]. intros Hcov b. rewrite Eb, elem_of_app, elem_of_cons.
  assert (∀ s, nofit (sub s)) as Hno by (destruct (m1 <? m0); by intros []).
  intros [Hb|[->|Hb]]; [by apply (Hno LEFT)|by destruct fits eqn:?|by apply (Hno RIGHT)].
Qed.

(** ** Sums and scans *)

(** The free bytes of a list of blocks *)
Definition total (L : list Block) : Z := foldr (λ b s, avail_of b + s) 0 L.

Lemma total_app L1 L2 : total (L1 ++ L2) = total L1 + total L2.
Proof. induction L1; cbn; unfold total in *; lia. Qed.

Lemma total_bounds L lo : wf L → lo < 2 ^ 64 → (∀ b, b ∈ L → lo ≤ _addr b) → 0 ≤ total L < 2 ^ 64 - lo.
Proof.
  revert lo. induction L as [|b L IH]; intros lo Hw Hlo Hb; [cbn; lia|]. cbn [total foldr]. fold (total L). apply wf_cons in Hw as (Hok & Hw & Hbelow).
  unfold block_ok, below, stop in *. pose proof (Hb b (list_elem_of_here _ _)). pose proof (IH (_addr b + _size b) Hw ltac:(lia) Hbelow).
  unfold avail_of. case_match; lia.
Qed.

Lemma avail_run (h : tree_heap) T : ∀ fuel p n,
  rep (bare h) p T → root_of T = Some n → (length (nodes T) ≤ fuel)%nat → avail_in_subtree fuel n h = Some (u64 (total (blocks h (nodes T)))).
Proof.
  induction T as [|l IHl n' r IHr]; intros fuel p n Hrep Hroot Hf; [done|]. injection Hroot as ->.
  destruct (rep_node _ _ _ _ _ Hrep) as (x & Hx & E0 & E1 & Hl & Hr & Eb).
  rewrite length_br in Hf. destruct fuel as [|fuel]; [lia|]. cbn [avail_in_subtree]. rewrite Hx. cbn [mbind option_bind]. rewrite E0, E1.
  assert (∀ T' c, root_of T' = c → T' = l ∨ T' = r →
    match c with Some c => avail_in_subtree fuel c h | None => Some 0 end = Some (u64 (total (blocks h (nodes T'))))) as Hside.
  { intros T' [c|] Hc HT; [destruct HT as [-> | ->]; [apply (IHl fuel (Some n))|apply (IHr fuel (Some n))]; done || lia|]. by destruct T'. }
  rewrite (Hside l _ eq_refl (or_introl eq_refl)). cbn [mbind option_bind]. rewrite (Hside r _ eq_refl (or_intror eq_refl)). cbn [mbind option_bind].
  rewrite Eb, total_app. f_equal. cbn [total foldr]. fold (total (blocks h (nodes r))). unfold wrap.
  rewrite Zplus_mod_idemp_r, Zplus_mod_idemp_l, <- Z.add_assoc, (Z.add_comm (avail_of _)), <- Z.add_assoc, Zplus_mod_idemp_l.
  f_equal. lia.
Qed.

Lemma find_any_run (h : tree_heap) u T : ∀ fuel p,
  rep (bare h) p T → (length (nodes T) < fuel)%nat →
  ∃ r, find_any_block u fuel (root_of T) h = Some r ∧
    match r with
    | Some m => m ∈ nodes T ∧ ∃ x, h !! m = Some x ∧ _used (data x) = u
    | None => ∀ b, b ∈ blocks h (nodes T) → _used b = negb u
    end.
Proof.
  induction T as [|l IHl n r IHr]; intros [|fuel] p Hrep Hf; [cbn in Hf; lia| |lia|].
  { exists None. split; [done|]. by intros b ?%elem_of_nil. }
  rewrite length_br in Hf. destruct (rep_node _ _ _ _ _ Hrep) as (x & Hx & E0 & E1 & Hl & Hr & Eb). cbn [root_of find_any_block]. rewrite Hx. cbn [mbind option_bind].
  destruct (eqb_spec (_used (data x)) u) as [Hu|Hu]; [exists (Some n); split; [done|]; split; [cbn; set_solver|by exists x]|].
  rewrite E0, E1. destruct (IHl fuel (Some n) Hl) as (r0 & -> & H0); [lia|]. cbn [mbind option_bind]. destruct r0 as [m|].
  { exists (Some m). split; [done|]. destruct H0 as [? ?]. split; [cbn; set_solver|done]. }
  destruct (IHr fuel (Some n) Hr) as (r1 & -> & H1); [lia|]. exists r1. split; [done|]. destruct r1 as [m|].
  { destruct H1 as [? ?]. split; [cbn; set_solver|done]. }
  intros b. rewrite Eb, elem_of_app, elem_of_cons. intros [Hb|[->|Hb]]; [by apply H0|by destruct (_used (data x)), u|by apply H1].
Qed.
