(* ===== verification/Allocator_avl_spec.v ===== *)
(** * Allocator_avl_spec: what each operation of the allocator does to the blocks

    The store, the tree and the meta-data allocator of [Allocator_avl] represent an ordered
    list of blocks ([owns]); the lemmas of this file run each operation of
    [src/repos/base/src/lib/base/allocator_avl.cc] on such a state and give the list that it
    leaves behind, the result, and how many meta-data entries it needs.  The meta-data
    allocator is known by its laws only. *)

From S2P Require Import Prelude Avl_nodes Avl_trees Allocator_avl Allocator_avl_blocks.

(** What the blocks rely on: an entry is given out once, and [reserve] entries can be had
    without a failure.  A [Tslab] fails or takes a further slab block when three entries are
    left, so the reserve may be negative; a [Tslab] that returns empty slab blocks keeps some
    entries.  Without a backing store it gives the last entries too: [margin] more can be
    had. *)
Class Metadata_laws (S : Type) `{Metadata S} := {
  live : S → gset id;
  reserve : S → Z;
  margin : Z;
  margin_nonneg : 0 ≤ margin;
  root_dead s : root ∉ live s;
  md_alloc_ok s i s' : md_alloc s = (Ok i, s') → i ∉ live s ∧ live s' = {[i]} ∪ live s ∧ reserve s - 1 ≤ reserve s';
  md_alloc_err s e s' : md_alloc s = (Err e, s') → live s' = live s ∧ reserve s ≤ 0;
  md_free_live s i : i ∈ live s → live (md_free i s) = live s ∖ {[i]} ∧ Z.min (3 + margin) (reserve s + 1) ≤ reserve (md_free i s);
  md_set_live s v : live (md_set_backing_store v s) = live s;
  md_detached s : reserve s + (if md_backing_store s then margin else 0) ≤ reserve (md_set_backing_store false s);
  md_attached s : reserve s - margin ≤ reserve (md_set_backing_store true s) }.

Section Spec.
Context {S : Type} `{Metadata_laws S}.

Abbreviation state := (@state S).
Implicit Types st : state.

(** The tree [T] holds the blocks [L]; the entries [X] are allocated and not in the tree yet. *)
Record owns st (T : shape) (X : list id) (L : list Block) : Prop := Owns {
  owns_tree : tree (bare (heap st)) root T;
  owns_blocks : blocks (heap st) (nodes T) = L;
  owns_wf : wf L;
  owns_live : live (md st) = list_to_set (nodes T ++ X);
  owns_nodup : NoDup (nodes T ++ X) }.

Lemma owns_rep st T X L : owns st T X L → rep (bare (heap st)) (Some root) T.
Proof. intros Ho. apply (owns_tree _ _ _ _ Ho). Qed.

Lemma owns_perm st T X X' L : owns st T X L → X ≡ₚ X' → owns st T X' L.
Proof.
  intros [H1 H2 H3 H4 H5] HX. split; [done..| |by rewrite <- HX]. rewrite H4. apply leibniz_equiv. by rewrite HX.
Qed.

Lemma owns_live_in st T X L i : owns st T X L → i ∈ X → i ∈ live (md st).
Proof. intros Ho Hi. rewrite (owns_live _ _ _ _ Ho). apply elem_of_list_to_set, elem_of_app. by right. Qed.

Lemma owns_fuel st T X L : owns st T X L → (length (nodes T) < enough (heap st))%nat.
Proof. intros Ho. pose proof (length_nodes _ _ _ _ _ (proj1 (owns_tree _ _ _ _ Ho))). unfold enough. lia. Qed.

Lemma owns_first st T X L : owns st T X L → first (heap st) = Some (root_of T).
Proof.
  intros Ho. destruct (owns_tree _ _ _ _ Ho) as [Hh _]. destruct (hangs_top _ _ _ _ _ Hh) as (z & Hz & _).
  pose proof (hangs_child _ _ _ _ _ Hh z Hz) as Hc. destruct (bare_some _ _ _ Hz) as (x & Hx & <-). unfold first. rewrite Hx. cbn. f_equal. exact Hc.
Qed.

(** A block that a search has found *)
Lemma owns_node st T X L m x : owns st T X L → m ∈ nodes T → heap st !! m = Some x → ∃ L1 L2 xs ys, L = L1 ++ data x :: L2 ∧
  nodes T = xs ++ m :: ys ∧ blocks (heap st) xs = L1 ∧ blocks (heap st) ys = L2.
Proof.
  intros Ho (xs & ys & E)%list_elem_of_split Hx. exists (blocks (heap st) xs), (blocks (heap st) ys), xs, ys.
  split_and!; [|done..]. by rewrite <- (owns_blocks _ _ _ _ Ho), E, blocks_app, (blocks_cons _ m x).
Qed.

Lemma tree_ext (g g' : gmap id (node Block unit)) T :
  tree g root T → g' !! root = g !! root → (∀ m, m ∈ nodes T → g' !! m = g !! m) → tree g' root T.
Proof.
  intros [Hh H1] Hr Hn. destruct (hangs_top _ _ _ _ _ Hh) as (z & Hz & _). split; [|by rewrite Hr].
  split; try apply Hh.
  - apply (rep_ext g); [apply Hh|done].
  - pose proof (hangs_climbs _ _ _ _ _ Hh) as Hc. inversion Hc as [m w Hw Hp _|m w p l Hw Hp _ Hc']; subst; [|by inversion Hc'].
    apply (climbs_root _ root w); [by rewrite Hr|done|]. intros i c Hci. assert (w = z) as -> by congruence. destruct i.
    + cbn in Hci. by rewrite (H1 z Hz) in Hci.
    + pose proof (hangs_child _ _ _ _ _ Hh z Hz) as E. change (_child LEFT z = Some c) in Hci. rewrite E in Hci. apply root_in in Hci. rewrite Hn by done.
      by apply (rep_dom _ _ _ _ (hangs_rep _ _ _ _ _ Hh)).
  - intros m Hm. destruct (hangs_spare _ _ _ _ _ Hh m Hm) as [Hl Ho]. split; [done|]. by rewrite Hr.
  - rewrite Hr. apply Hh.
Qed.

(** A change of the store outside of the tree *)
Lemma owns_heap st T X X' L h' s' :
  owns st T X L → (∀ m, m = root ∨ m ∈ nodes T → h' !! m = heap st !! m) → live s' = list_to_set (nodes T ++ X') → NoDup (nodes T ++ X') →
  owns (St h' s') T X' L.
Proof.
  intros Ho Hh Hl Hnd. split; cbn [heap md]; [| |apply Ho|done|done].
  - apply (tree_ext (bare (heap st))); [apply Ho|by rewrite !bare_lookup, Hh; auto|]. intros m Hm. rewrite !bare_lookup, Hh; auto.
  - rewrite <- (owns_blocks _ _ _ _ Ho). apply blocks_ext. intros m Hm. by rewrite Hh; auto.
Qed.

Lemma root_notin st T X L i : owns st T X L → i ∈ nodes T ++ X → i ≠ root.
Proof.
  intros Ho Hi ->. apply (root_dead (md st)). rewrite (owns_live _ _ _ _ Ho). by apply elem_of_list_to_set.
Qed.

(** ** Meta data *)

Lemma alloc_metadata_run st T X L :
  owns st T X L →
  ∃ r st', _alloc_block_metadata st = (Ok r, st') ∧
    match r with
    | Ok i => owns st' T (i :: X) L ∧ reserve (md st) - 1 ≤ reserve (md st')
    | Err _ => owns st' T X L ∧ reserve (md st) ≤ 0
    end.
Proof.
  intros Ho. unfold _alloc_block_metadata. destruct (md_alloc (md st)) as [[i|e] s'] eqn:E.
  - destruct (md_alloc_ok _ _ _ E) as (Hi & Hl & Hr). exists (Ok i). eexists. split; [done|]. split; [|done].
    rewrite (owns_live _ _ _ _ Ho), elem_of_list_to_set in Hi. apply (owns_heap st T X); [done| | |].
    + intros m Hm. rewrite lookup_insert_ne; [done|]. intros ->. destruct Hm as [->|Hm]; [|by apply Hi, elem_of_app; left].
      apply (root_dead s'). rewrite Hl. set_solver.
    + rewrite Hl, (owns_live _ _ _ _ Ho). apply leibniz_equiv. rewrite <- Permutation_middle. by rewrite list_to_set_cons.
    + rewrite <- Permutation_middle. apply NoDup_cons. split; [done|apply Ho].
  - destruct (md_alloc_err _ _ _ E) as [Hl Hr]. exists (Err e). eexists. split; [done|]. split; [|done].
    apply (owns_heap st T X); [done|done|by rewrite Hl, (owns_live _ _ _ _ Ho)|apply Ho].
Qed.

Lemma free_metadata_run st T X L i :
  owns st T (i :: X) L → ∃ st', free_metadata i st = (Ok tt, st') ∧ owns st' T X L ∧ Z.min (3 + margin) (reserve (md st) + 1) ≤ reserve (md st').
Proof.
  intros Ho. eexists. split; [done|]. destruct (md_free_live (md st) i) as [Hl Hr]; [by eapply owns_live_in; [|constructor]|]. split; [|done].
  pose proof (owns_nodup _ _ _ _ Ho) as Hnd. rewrite <- Permutation_middle in Hnd. apply NoDup_cons in Hnd as [Hi Hnd].
  apply (owns_heap st T (i :: X)); [done| | |done].
  - intros m Hm. rewrite lookup_delete_ne; [done|]. intros ->. destruct Hm as [->|Hm]; [|by apply Hi, elem_of_app; left].
    apply (root_dead (md st)). by eapply owns_live_in; [|constructor].
  - rewrite Hl, (owns_live _ _ _ _ Ho). apply leibniz_equiv. rewrite <- Permutation_middle, list_to_set_cons. set_solver.
Qed.

Lemma alloc_two_run st T X L :
  owns st T X L →
  ∃ r st', _alloc_two_blocks_metadata st = (Ok r, st') ∧
    match r with
    | Ok (b1, b2) => owns st' T (b1 :: b2 :: X) L ∧ reserve (md st) - 2 ≤ reserve (md st')
    | Err _ => owns st' T X L ∧ reserve (md st) ≤ 1
    end.
Proof.
  intros Ho. unfold _alloc_two_blocks_metadata. destruct (alloc_metadata_run st T X L Ho) as ([b1|e] & st1 & R1 & H1); mrun R1.
  - destruct H1 as [Ho1 Hr1]. destruct (alloc_metadata_run st1 T _ L Ho1) as ([b2|e] & st2 & R2 & H2); mrun R2.
    + exists (Ok (b1, b2)), st2. split; [done|]. destruct H2 as [Ho2 Hr2]. split; [|lia]. eapply owns_perm; [done|constructor].
    + destruct H2 as [Ho2 Hr2]. destruct (free_metadata_run st2 T X L b1 Ho2) as (st3 & R3 & Ho3 & _). mrun R3.
      exists (Err e), st3. split_and!; [done|done|lia].
  - exists (Err e), st1. destruct H1 as [? ?]. split_and!; [done|done|lia].
Qed.

Lemma set_backing_store_run st T X L v :
  owns st T X L → ∃ st', set_backing_store v st = (Ok tt, st') ∧ owns st' T X L ∧ md st' = md_set_backing_store v (md st).
Proof.
  intros Ho. eexists. split; [done|]. split; [|done].
  apply (owns_heap st T X); [done|done|by rewrite md_set_live, (owns_live _ _ _ _ Ho)|apply Ho].
Qed.

(** ** Changes of the tree *)

Lemma update_heap_run (f : tree_heap → option tree_heap) st h : f (heap st) = Some h → update f st = (Ok tt, St h (md st)).
Proof. intros E. unfold update. by rewrite E. Qed.

Lemma lift_run {A} (f : tree_heap → option A) st a : f (heap st) = Some a → lift f st = (Ok a, st).
Proof. intros E. unfold lift. by rewrite E. Qed.

Lemma block_run st b x : heap st !! b = Some x → block b st = (Ok (data x), st).
Proof. intros E. apply lift_run. by rewrite E. Qed.

Lemma blocks_split (h : tree_heap) l : ∀ L1 L2, (∀ m, m ∈ l → is_Some (h !! m)) → blocks h l = L1 ++ L2 →
  ∃ xs ys, l = xs ++ ys ∧ blocks h xs = L1 ∧ blocks h ys = L2.
Proof.
  induction l as [|m l IH]; intros L1 L2 Hd E.
  { symmetry in E. apply app_eq_nil in E as [-> ->]. by exists [], []. }
  destruct L1 as [|b L1]; [by exists [], (m :: l)|]. destruct (Hd m) as [x Hx]; [constructor|]. rewrite (blocks_cons _ _ _ _ Hx) in E. injection E as <- E.
  destruct (IH L1 L2) as (xs & ys & -> & <- & <-); [intros n Hn; apply Hd; by constructor|done|].
  exists (m :: xs), ys. by rewrite (blocks_cons _ _ _ _ Hx).
Qed.

Lemma owns_dom st T X L m : owns st T X L → m ∈ nodes T → is_Some (heap st !! m).
Proof. intros Ho Hm. apply bare_is_some. by apply (rep_dom _ _ _ _ (owns_rep _ _ _ _ Ho)). Qed.

Lemma same_data_heap (h h' : tree_heap) : (∀ m, data <$> bare h' !! m = data <$> bare h !! m) → ∀ m, data <$> h' !! m = data <$> h !! m.
Proof. intros E m. rewrite <- (data_bare h'), <- (data_bare h). apply E. Qed.

Lemma add_block_run st T X L1 L2 i base size u :
  owns st T (i :: X) (L1 ++ L2) → wf (L1 ++ Blk base size u :: L2) →
  ∃ st' T', _add_block i base size u st = (Ok tt, st') ∧ owns st' T' X (L1 ++ Blk base size u :: L2) ∧ md st' = md st.
Proof.
  intros Ho Hw. pose proof (owns_nodup _ _ _ _ Ho) as Hnd. rewrite <- Permutation_middle in Hnd. apply NoDup_cons in Hnd as [Hi Hnd].
  assert (i ≠ root) as Hir by (eapply root_notin; [done|apply elem_of_app; right; constructor]).
  set (y := Avl_nodes.fresh (Blk base size u) (if u then 0 else size)). set (h1 := <[i := y]> (heap st)).
  assert (∀ m, m = root ∨ m ∈ nodes T → h1 !! m = heap st !! m) as H1.
  { intros m Hm. unfold h1. rewrite lookup_insert_ne; [done|]. intros ->. destruct Hm; [done|]. apply Hi, elem_of_app. by left. }
  pose proof (owns_heap st T (i :: X) (i :: X) _ h1 (md st) Ho H1 (owns_live _ _ _ _ Ho) (owns_nodup _ _ _ _ Ho)) as Ho1.
  destruct (blocks_split h1 (nodes T) L1 L2) as (xs & ys & Enodes & Exs & Eys); [intros m; apply (owns_dom _ _ _ _ m Ho1)|exact (owns_blocks _ _ _ _ Ho1)|].
  apply wf_mid in Hw as Hw'. destruct Hw' as (Hb & _ & Hbefore & Hafter).
  destruct (insert_run h1 root T i y xs ys) as (h2 & T' & R2 & Ht & En & _ & Hdata).
  { exact (owns_tree _ _ _ _ Ho1). } { unfold h1. by rewrite lookup_insert_eq. } { done. } { done. } { done. } { intros E. apply Hi, elem_of_app. by left. } { done. }
  { assert (∀ m x l, m ∈ l → bare h1 !! m = Some x → data x ∈ blocks h1 l) as Hin.
    { intros m x l Hm Hx. destruct (bare_some _ _ _ Hx) as (z & Hz & <-). apply elem_of_blocks. by exists m, z. }
    split; intros m x Hm Hx; apply (Hin m x _ Hm) in Hx; [rewrite Exs in Hx; specialize (Hbefore _ Hx)|rewrite Eys in Hx; specialize (Hafter _ Hx)].
    - apply Z.leb_le. assert (block_ok (data x)) as Hok by (eapply wf_ok; [exact Hw|]; apply elem_of_app; by left).
      unfold block_ok, below, stop in *. cbn in *. lia.
    - apply Z.leb_gt. unfold block_ok, below, stop in *. cbn in *. lia. }
  assert (nodes T ++ i :: X ≡ₚ nodes T' ++ X) as Hp by (rewrite En, Enodes, <- !app_assoc; cbn; by rewrite <- !Permutation_middle).
  exists (St h2 (md st)), T'. split; [|split; [|done]].
  - unfold _add_block. mrun (update_heap_run (λ h, Some (<[i := y]> h)) st h1 eq_refl). exact (update_heap_run (insert root i) (St h1 (md st)) h2 R2).
  - split; cbn [heap md]; [done| |done| |].
    + rewrite En, (blocks_ext h1 h2) by (intros; by apply same_data_heap). rewrite blocks_app, Exs, (blocks_cons _ i y), Eys; [done|].
      unfold h1. by rewrite lookup_insert_eq.
    + rewrite (owns_live _ _ _ _ Ho). apply leibniz_equiv. by rewrite Hp.
    + rewrite <- Hp. apply Ho.
Qed.

Lemma destroy_run st T X L m x :
  owns st T X L → m ∈ nodes T → heap st !! m = Some x →
  ∃ L1 L2 st' T', L = L1 ++ data x :: L2 ∧ _destroy_block m st = (Ok tt, st') ∧ owns st' T' X (L1 ++ L2) ∧
    Z.min (3 + margin) (reserve (md st) + 1) ≤ reserve (md st').
Proof.
  intros Ho Hm Hx. destruct (remove_run (heap st) root T m) as (h1 & T' & xs & ys & R1 & Ht & En & En' & _ & Hdata & _); [apply Ho|done|].
  pose proof (same_data_heap _ _ Hdata) as Hd. pose proof (owns_blocks _ _ _ _ Ho) as Eb. rewrite En, blocks_app, (blocks_cons _ _ _ _ Hx) in Eb.
  set (L1 := blocks (heap st) xs) in *. set (L2 := blocks (heap st) ys) in *.
  pose proof (owns_wf _ _ _ _ Ho) as Hw. rewrite <- Eb in Hw. apply wf_mid in Hw as (_ & Hw & _).
  assert (nodes T ++ X ≡ₚ nodes T' ++ m :: X) as Hp.
  { rewrite En, En', <- !app_assoc. cbn. by rewrite <- !Permutation_middle. }
  assert (owns (St h1 (md st)) T' (m :: X) (L1 ++ L2)) as Ho1.
  { split; cbn [heap md]; [done| |done| |].
    - rewrite En', (blocks_ext (heap st) h1) by (intros; apply Hd). apply blocks_app.
    - rewrite (owns_live _ _ _ _ Ho). apply leibniz_equiv. by rewrite Hp.
    - rewrite <- Hp. apply Ho. }
  destruct (free_metadata_run _ _ _ _ _ Ho1) as (st2 & R2 & Ho2 & Hr). exists L1, L2, st2, T'. split_and!; [done| |done|done].
  unfold _destroy_block. by mrun (update_heap_run (remove m) st h1 R1).
Qed.

(** ** Searching and cutting *)

Lemma find_run st T X L a s o :
  owns st T X L → 0 ≤ a → 0 ≤ s → a + least_one s ≤ 2 ^ 64 →
  ∃ r, _find_by_address a s o st = (Ok r, st) ∧
    match r with
    | Some m => m ∈ nodes T ∧ ∃ x, heap st !! m = Some x ∧ data x ∈ L ∧ hit (data x) a (least_one s) o
    | None => ∀ b, b ∈ L → ¬ hit b a (least_one s) o
    end.
Proof.
  intros Ho Ha Hs Hn. pose proof (owns_blocks _ _ _ _ Ho) as Eb. pose proof (owns_first _ _ _ _ Ho) as Hf.
  destruct (root_of T) as [n|] eqn:Er.
  - destruct (find_by_address_run (heap st) a o T (enough (heap st)) (Some root) n s) as (r & R & Hr);
      [by eapply owns_rep|done|pose proof (owns_fuel _ _ _ _ Ho); lia|rewrite Eb; apply Ho|done..|].
    exists r. split; [apply lift_run; by rewrite Hf; cbn|]. destruct r as [m|]; [|by rewrite Eb in Hr].
    destruct Hr as (Hm & x & Hx & Hh). split; [done|]. exists x. split_and!; [done| |done]. rewrite <- Eb. apply elem_of_blocks. by exists m, x.
  - exists None. split; [apply lift_run; by rewrite Hf; cbn|]. destruct T; [|done]. rewrite <- Eb. by intros b ?%elem_of_nil.
Qed.

(** What is left of the block [b] before [a] and after [a + n] *)
Definition front (b : Block) (a : Z) : list Block := if _addr b <? a then [Blk (_addr b) (a - _addr b) FREE] else [].
Definition back (b : Block) (e : Z) : list Block := if e <? stop b then [Blk e (stop b - e) FREE] else [].

Lemma wf_replace L1 b M L2 :
  wf (L1 ++ b :: L2) → wf M → (∀ c, c ∈ M → _addr b ≤ _addr c ∧ stop c ≤ stop b) → wf (L1 ++ M ++ L2).
Proof.
  intros (_ & (H1 & H2 & H12)%wf_app & Hbefore & Hafter)%wf_mid HM Hin. apply wf_app. split; [done|]. split.
  - apply wf_app. split_and!; [done|done|]. intros c d Hc Hd. destruct (Hin c Hc). specialize (Hafter d Hd). unfold below in *. lia.
  - intros c d Hc. rewrite elem_of_app. intros [Hd|Hd]; [|auto]. destruct (Hin d Hd). specialize (Hbefore c Hc). unfold below in *. lia.
Qed.

Lemma wf_pieces b a n :
  block_ok b → _addr b ≤ a → 0 < n → a + n ≤ stop b →
  wf (front b a ++ back b (a + n)) ∧ ∀ c, c ∈ front b a ++ back b (a + n) → _addr b ≤ _addr c ∧ stop c ≤ stop b ∧ _used c = false.
Proof.
  unfold block_ok, stop. intros Hb Ha Hn Hend. unfold front, back, stop. split.
  - destruct (Z.ltb_spec (_addr b) a), (Z.ltb_spec (a + n) (_addr b + _size b)); cbn [app]; rewrite ?wf_cons; unfold block_ok, below, stop; cbn;
      split_and!; try lia; try apply wf_nil; try (by intros c ?%elem_of_nil). intros c ->%list_elem_of_singleton. cbn. lia.
  - intros c. rewrite elem_of_app. destruct (Z.ltb_spec (_addr b) a), (Z.ltb_spec (a + n) (_addr b + _size b));
      rewrite ?list_elem_of_singleton, ?elem_of_nil; intros [?|?]; subst; cbn; try done; split_and!; done || lia.
Qed.

Lemma add_or_free st T X L1 L2 i base sz :
  owns st T (i :: X) (L1 ++ L2) → wf (L1 ++ (if 0 <? sz then [Blk base sz FREE] else []) ++ L2) →
  ∃ st' T', (if 0 <? sz then _add_block i base sz FREE else free_metadata i) st = (Ok tt, st') ∧
    owns st' T' X (L1 ++ (if 0 <? sz then [Blk base sz FREE] else []) ++ L2) ∧
    (if 0 <? sz then reserve (md st) else Z.min 3 (reserve (md st) + 1)) ≤ reserve (md st').
Proof.
  intros Ho Hw. pose proof margin_nonneg. destruct (0 <? sz).
  - destruct (add_block_run st T X L1 L2 i base sz FREE Ho Hw) as (st' & T' & R & Ho' & E). exists st', T'. split_and!; [done|done|]. rewrite E. lia.
  - destruct (free_metadata_run st T X _ i Ho) as (st' & R & Ho' & Hr). exists st', T. split_and!; [done|done|lia].
Qed.

Lemma cut_run st T X L b1 b2 m x a n :
  owns st T (b1 :: b2 :: X) L → m ∈ nodes T → heap st !! m = Some x → _addr (data x) ≤ a → 0 < n → a + n ≤ stop (data x) →
  ∃ L1 L2 st' T', L = L1 ++ data x :: L2 ∧ _cut_from_block m a n (b1, b2) st = (Ok tt, st') ∧
    owns st' T' X (L1 ++ (front (data x) a ++ back (data x) (a + n)) ++ L2) ∧
    (let both := (_addr (data x) <? a) && (a + n <? stop (data x)) in Z.min 3 (reserve (md st) + if both then 1 else 2)) ≤ reserve (md st').
Proof.
  intros Ho Hm Hx Ha Hn Hend. pose proof margin_nonneg as Hmg. set (b := data x) in *.
  destruct (destroy_run _ _ _ _ _ _ Ho Hm Hx) as (L1 & L2 & st1 & T1 & -> & R1 & Ho1 & Hr1). fold b in Ho |- *.
  pose proof (owns_wf _ _ _ _ Ho) as Hw. assert (block_ok b) as Hb by (eapply wf_ok; [exact Hw|set_solver]).
  destruct (wf_pieces b a n Hb Ha Hn Hend) as [Hwp Hin].
  assert (wf (L1 ++ (front b a ++ back b (a + n)) ++ L2)) as Hw2 by (apply (wf_replace _ b); [done|done|]; intros c Hc; by destruct (Hin c Hc) as (?&?&_)).
  unfold block_ok, stop in *.
  assert (front b a = if 0 <? a - _addr b then [Blk (_addr b) (a - _addr b) FREE] else []) as Ef.
  { unfold front. destruct (Z.ltb_spec (_addr b) a), (Z.ltb_spec 0 (a - _addr b)); done || lia. }
  assert (back b (a + n) = if 0 <? _addr b + _size b - (a + n) then [Blk (a + n) (_addr b + _size b - (a + n)) FREE] else []) as Eb.
  { unfold back, stop. destruct (Z.ltb_spec (a + n) (_addr b + _size b)), (Z.ltb_spec 0 (_addr b + _size b - (a + n))); done || lia. }
  destruct (add_or_free st1 T1 (b2 :: X) L1 L2 b1 (_addr b) (a - _addr b) Ho1) as (st2 & T2 & R2 & Ho2 & Hr2).
  { rewrite <- Ef. rewrite <- app_assoc, app_assoc in Hw2. apply wf_app in Hw2 as (Hw2 & H2 & H12). apply wf_app in H2 as (H2b & H2 & _).
    rewrite app_assoc. apply wf_app. split_and!; [done|done|]. intros c d Hc Hd. apply H12; [done|]. apply elem_of_app. by right. }
  rewrite <- Ef in Ho2. rewrite app_assoc in Ho2.
  destruct (add_or_free st2 T2 X (L1 ++ front b a) L2 b2 (a + n) (_addr b + _size b - (a + n)) Ho2) as (st3 & T3 & R3 & Ho3 & Hr3).
  { rewrite <- Eb, <- app_assoc. by rewrite <- app_assoc in Hw2. }
  rewrite <- Eb, <- app_assoc in Ho3. exists L1, L2, st3, T3. split_and!; [done| |by rewrite <- app_assoc|].
  - unfold _cut_from_block. mrun (block_run st m x Hx). fold b.
    assert ((if _addr b <? a then u64 (a - _addr b) else 0) = a - _addr b) as -> by (zcases; rewrite ?wrap_small by word_lia; lia).
    assert ((if a - _addr b <? _size b then u64 (_size b - (a - _addr b)) else 0) = _addr b + _size b - a) as -> by (zcases; rewrite ?wrap_small by word_lia; lia).
    assert ((if n <? _addr b + _size b - a then u64 (_addr b + _size b - a - n) else 0) = _addr b + _size b - (a + n)) as -> by (zcases; rewrite ?wrap_small by word_lia; lia).
    assert ((_addr b =? 0) && (_size b =? 0) = false) as -> by (apply andb_false_iff; right; lia). mrun R1. mrun R2.
    destruct (Z.ltb_spec 0 (_addr b + _size b - (a + n))); [rewrite wrap_small by word_lia|]; exact R3.
  - destruct (Z.ltb_spec 0 (a - _addr b)), (Z.ltb_spec 0 (_addr b + _size b - (a + n))), (Z.ltb_spec (_addr b) a), (Z.ltb_spec (a + n) (_addr b + _size b)); cbn [andb]; lia.
Qed.

End Spec.
