(* ===== verification/Allocator_avl_ops.v ===== *)
(** * Allocator_avl_ops: the operations of the allocator on bytes and allocations

    The effect of each public operation of [src/repos/base/src/lib/base/allocator_avl.cc] in
    terms of the bytes that are free ([free_in]) and of the used blocks, with every result it
    may give.  Free blocks never touch each other between two operations ([merged]), which
    makes [alloc_addr] exact: it fails only when one of the bytes is not free. *)

From S2P Require Import Prelude Avl_nodes Avl_trees Allocator_avl Allocator_avl_blocks Allocator_avl_spec.

(** The byte [x] is free. *)
Definition free_in (L : list Block) (x : Z) : Prop := ∃ b, b ∈ L ∧ _used b = false ∧ covers b x.

(** No two free blocks touch. *)
Definition merged (L : list Block) : Prop := ∀ b c, b ∈ L → c ∈ L → _used b = false → _used c = false → stop b ≠ _addr c.

(** [L'] is [L] without the block [o]. *)
Definition taken (o : option Block) (L L' : list Block) : Prop :=
  match o with Some b => ∃ L1 L2, L = L1 ++ b :: L2 ∧ L' = L1 ++ L2 | None => L' = L end.

Lemma taken_in o L L' : wf L → taken o L L' → ∀ b, b ∈ L' ↔ b ∈ L ∧ o ≠ Some b.
Proof.
  intros Hw. destruct o as [c|]; cbn; [|intros -> b; naive_solver]. intros (L1 & L2 & -> & ->) b.
  apply wf_mid in Hw as (Hc & _ & H1 & H2). rewrite !elem_of_app, elem_of_cons. split; [|intros [[?|[->|?]] ?]; auto; congruence].
  intros Hb. split; [tauto|]. intros [= <-]. unfold below, block_ok, stop in *. destruct Hb as [Hb|Hb]; [specialize (H1 _ Hb)|specialize (H2 _ Hb)]; lia.
Qed.

Lemma taken_wf o L L' : wf L → taken o L L' → wf L'.
Proof. destruct o as [c|]; cbn; [|by intros ? ->]. intros Hw (L1 & L2 & -> & ->). by apply wf_mid in Hw as (_ & ? & _). Qed.

Lemma wf_insert L n : wf L → block_ok n → (∀ b, b ∈ L → below b n ∨ below n b) → ∃ L1 L2, L = L1 ++ L2 ∧ wf (L1 ++ n :: L2).
Proof.
  intros Hw Hn. induction L as [|c L IH]; intros Hb.
  { exists [], []. split; [done|]. apply wf_cons. split_and!; [done|apply wf_nil|]. by intros c ?%elem_of_nil. }
  pose proof Hw as (Hc & Hw' & HcL)%wf_cons. destruct (Hb c (list_elem_of_here _ _)) as [Hcn|Hnc].
  - destruct (IH Hw') as (L1 & L2 & -> & Hw2); [intros b Hb'; apply Hb; by constructor|]. exists (c :: L1), L2. split; [done|].
    cbn. apply wf_cons. split_and!; [done|done|]. intros b. rewrite elem_of_app, elem_of_cons. intros [?|[->|?]]; [|done|];
      apply HcL, elem_of_app; tauto.
  - exists [], (c :: L). split; [done|]. apply wf_cons. split_and!; [done|done|]. intros b [->|Hb']%elem_of_cons; [done|].
    specialize (HcL b Hb'). unfold below, block_ok, stop in *. lia.
Qed.

(** Blocks without a byte in common are in order. *)
Lemma apart_below b c : block_ok b → block_ok c → (∀ x, covers b x → ¬ covers c x) → below b c ∨ below c b.
Proof.
  unfold block_ok, covers, below, stop. intros Hb Hc Hx. destruct (Z.le_gt_cases (_addr b) (_addr c)) as [Hle|Hgt].
  - left. destruct (Z.le_gt_cases (_addr b + _size b) (_addr c)); [done|]. exfalso. apply (Hx (_addr c)); lia.
  - right. destruct (Z.le_gt_cases (_addr c + _size c) (_addr b)); [done|]. exfalso. apply (Hx (_addr b)); lia.
Qed.

(** ** [add_range] *)

(** The free blocks that touch the range from [base] to [e] *)
Definition touching (L : list Block) (base e : Z) (p s : option Block) : Prop :=
  match p with Some b => b ∈ L ∧ _used b = false ∧ stop b = base | None => ∀ b, b ∈ L → _used b = false → stop b ≠ base end ∧
  match s with Some b => b ∈ L ∧ _used b = false ∧ _addr b = e | None => ∀ b, b ∈ L → _used b = false → _addr b ≠ e end.

Definition joined (base e : Z) (p s : option Block) : Block :=
  let lo := match p with Some b => _addr b | None => base end in
  let hi := match s with Some b => stop b | None => e end in Blk lo (hi - lo) FREE.

Lemma joined_covers L base e p s x :
  wf L → base < e → touching L base e p s →
  covers (joined base e p s) x ↔ base ≤ x < e ∨ (∃ b, p = Some b ∧ covers b x) ∨ (∃ b, s = Some b ∧ covers b x).
Proof.
  intros Hw He [Hp Hs]. unfold covers, joined. cbn. unfold stop at 1. cbn.
  assert (match p with Some b => _addr b < stop b ∧ stop b = base | None => True end) as Hp'.
  { destruct p as [b|]; [|done]. destruct Hp as (Hb & _ & <-). destruct (wf_ok _ _ Hw Hb) as (?&?&?). unfold stop. lia. }
  assert (match s with Some b => _addr b < stop b ∧ _addr b = e | None => True end) as Hs'.
  { destruct s as [b|]; [|done]. destruct Hs as (Hb & _ & <-). destruct (wf_ok _ _ Hw Hb) as (?&?&?). unfold stop. lia. }
  destruct p as [b|], s as [c|]; (split; [|intros [?|[(?&[=]&?)|(?&[=]&?)]]; subst; lia]); intros Hx.
  - destruct (Z.lt_ge_cases x base); [right; left; exists b; split; [done|lia]|]. destruct (Z.lt_ge_cases x e); [by left|right; right; exists c; split; [done|lia]].
  - destruct (Z.lt_ge_cases x base); [right; left; exists b; split; [done|lia]|left; lia].
  - destruct (Z.lt_ge_cases x e); [left; lia|right; right; exists c; split; [done|lia]].
  - left. lia.
Qed.

Lemma joined_ok L base e p s :
  wf L → 0 ≤ base < e → e < 2 ^ 64 → touching L base e p s → block_ok (joined base e p s).
Proof.
  intros Hw Hb He [Hp Hs]. unfold block_ok, joined. cbn.
  destruct p as [b|]; [destruct Hp as (Hin & _ & <-); destruct (wf_ok _ _ Hw Hin) as (?&?&?)|]; (destruct s as [c|]; [destruct Hs as (Hin' & _ & <-); destruct (wf_ok _ _ Hw Hin') as (?&?&?)|]); unfold stop in *; lia.
Qed.

Lemma join_spec L (L2 L' : list Block) base e p s :
  wf L → merged L → 0 ≤ base < e → e < 2 ^ 64 → touching L base e p s → (∀ b, b ∈ L → ¬ hit b base (e - base) true) →
  (∀ b, b ∈ L2 ↔ b ∈ L ∧ p ≠ Some b ∧ s ≠ Some b) →
  (∀ b, b ∈ L2 → ∀ x, covers b x → ¬ covers (joined base e p s) x) ∧
  ((∀ b, b ∈ L' ↔ b = joined base e p s ∨ b ∈ L2) → merged L' ∧ (∀ x, free_in L' x ↔ free_in L x ∨ base ≤ x < e) ∧ ∀ b, _used b = true → b ∈ L' ↔ b ∈ L).
Proof.
  intros Hw Hm Hb He Ht Hno H2. pose proof (λ x, joined_covers L base e p s x Hw (proj2 Hb) Ht) as Hj. set (n := joined base e p s) in *.
  assert (_used n = false) as Hun by done. pose proof Ht as [Hp Hs].
  assert (∀ b, p = Some b ∨ s = Some b → b ∈ L ∧ _used b = false) as Hps.
  { intros b [-> | ->]; [destruct Hp as (?&?&_)|destruct Hs as (?&?&_)]; done. }
  split.
  - intros b (HbL & Hbp & Hbs)%H2 x Hx Hnx. apply Hj in Hnx as [Hr|Hbx].
    + apply (Hno b HbL). unfold hit, covers in *. lia.
    + assert (∃ c, (p = Some c ∨ s = Some c) ∧ covers c x) as (c & Hc & Hcx) by naive_solver.
      destruct (Hps c Hc) as [HcL _]. assert (b = c) as -> by (by apply (wf_unique L _ _ x)). naive_solver.
  - intros H'. split_and!.
    + assert (∀ b, b ∈ L2 → _used b = false → stop b ≠ _addr n ∧ stop n ≠ _addr b) as Hside.
      { intros b (HbL & Hbp & Hbs)%H2 Hub. unfold n, joined. cbn. split.
        - destruct p as [c|]; [|by apply Hp]. destruct (Hps c (or_introl eq_refl)) as [HcL Huc]. by apply Hm.
        - unfold stop at 1. cbn. destruct s as [c|]; [|intros E; apply (Hs b HbL Hub); lia].
          destruct (Hps c (or_intror eq_refl)) as [HcL Huc]. intros E. apply (Hm c b); [done..|]. lia. }
      intros b c [->|Hb']%H' [->|Hc']%H' Hub Huc.
      * destruct (joined_ok L base e p s Hw Hb He Ht) as (_ & Hsz & _). unfold stop, n in *. lia.
      * by apply Hside.
      * by apply Hside.
      * apply H2 in Hb', Hc'. apply Hm; tauto.
    + intros x. unfold free_in. split.
      * intros (b & [->|Hb']%H' & Hub & Hx); [|left; exists b; apply H2 in Hb'; tauto]. apply Hj in Hx as [Hx|[(c & Hc & Hx)|(c & Hc & Hx)]]; [by right|..];
          left; exists c; [destruct (Hps c (or_introl Hc))|destruct (Hps c (or_intror Hc))]; done.
      * intros [(b & HbL & Hub & Hx)|Hx]; [|exists n; split; [apply H'; by left|]; split; [done|]; apply Hj; by left].
        destruct (decide (p = Some b ∨ s = Some b)) as [Hc|Hc].
        -- exists n. split; [apply H'; by left|]. split; [done|]. apply Hj. right. destruct Hc; [left|right]; by exists b.
        -- exists b. split; [apply H'; right; apply H2; tauto|done].
    + intros b Hub. rewrite H', H2. split; [intros [->|?]; [done|tauto]|]. intros HbL. right. split_and!; [done|..]; intros E;
        [destruct (Hps b (or_introl E))|destruct (Hps b (or_intror E))]; congruence.
Qed.

(** ** Cutting a range out of a free block *)

Lemma cut_split L L1 b L2 a n :
  wf L → L = L1 ++ b :: L2 → _used b = false → _addr b ≤ a → 0 < n → a + n ≤ stop b →
  let L' := L1 ++ (front b a ++ back b (a + n)) ++ L2 in
  (∀ x, free_in L' x ↔ free_in L x ∧ ¬ (a ≤ x < a + n)) ∧ (∀ u, _used u = true → u ∈ L' ↔ u ∈ L) ∧ (merged L → merged L').
Proof.
  intros Hw E Hub Ha Hn He L'. assert (b ∈ L) as HbL by (rewrite E; set_solver). pose proof (wf_ok _ _ Hw HbL) as Hb.
  assert (∀ c, c ∈ L → block_ok c) as Hall by (intros c; by apply wf_ok).
  destruct (wf_pieces b a n Hb Ha Hn He) as [_ Hin].
  assert (∀ x, (∃ c, c ∈ front b a ++ back b (a + n) ∧ covers c x) ↔ covers b x ∧ ¬ (a ≤ x < a + n)) as Hcov.
  { intros x. setoid_rewrite elem_of_app. unfold front, back, covers. split.
    - intros (c & Hc & Hx). revert Hc. destruct (Z.ltb_spec (_addr b) a), (Z.ltb_spec (a + n) (stop b)); rewrite ?list_elem_of_singleton, ?elem_of_nil;
        intros [?|?]; subst; try done; unfold stop in *; cbn in *; lia.
    - intros [Hx Hno]. destruct (Z.lt_ge_cases x a).
      + exists (Blk (_addr b) (a - _addr b) FREE). destruct (Z.ltb_spec (_addr b) a); [|lia]. split; [left; by apply list_elem_of_singleton|]. unfold stop. cbn. lia.
      + exists (Blk (a + n) (stop b - (a + n)) FREE). destruct (Z.ltb_spec (a + n) (stop b)); [|lia]. split; [right; by apply list_elem_of_singleton|]. unfold stop in *. cbn. lia. }
  set (M := front b a ++ back b (a + n)) in *. unfold L', free_in. subst L. rewrite wf_mid in Hw. destruct Hw as (_ & _ & Hbefore & Hafter).
  assert (∀ c, c ∈ L1 ∨ c ∈ L2 → ∀ x, covers c x → ¬ (a ≤ x < a + n)) as Hout.
  { intros c [Hc|Hc] x Hx; [specialize (Hbefore c Hc)|specialize (Hafter c Hc)]; unfold below, covers in *; lia. }
  split_and!.
  - intros x. split.
    + intros (c & Hc & Huc & Hx). rewrite !(elem_of_app _ _ c) in Hc. destruct Hc as [Hc|[Hc|Hc]].
      * split; [exists c; set_solver|by apply (Hout c); [left|]].
      * destruct (proj1 (Hcov x)) as [? ?]; [by exists c|]. split; [exists b; set_solver|done].
      * split; [exists c; set_solver|by apply (Hout c); [right|]].
    + intros [(c & Hc & Huc & Hx) Hno]. rewrite elem_of_app, elem_of_cons in Hc. destruct Hc as [Hc|[->|Hc]]; [exists c; set_solver| |exists c; set_solver].
      destruct (proj2 (Hcov x)) as (d & Hd & Hdx); [done|]. exists d. split; [set_solver|]. split; [by apply Hin|done].
  - intros u Hu. rewrite !elem_of_app, elem_of_cons. split; [|intros [?|[->|?]]; [tauto|congruence|tauto]]. intros [?|[Hc|?]]; [tauto| |tauto].
    destruct (Hin u Hc) as (_ & _ & ?). congruence.
  - intros Hm. assert (∀ c d, c ∈ M → d ∈ M → stop c ≠ _addr d) as HM.
    { unfold M, front, back. intros c d. rewrite !elem_of_app. destruct (Z.ltb_spec (_addr b) a), (Z.ltb_spec (a + n) (stop b)); rewrite ?list_elem_of_singleton, ?elem_of_nil;
        intros [?|?] [?|?]; subst; try done; unfold stop in *; cbn in *; lia. }
    assert (∀ c, c ∈ L1 ∨ c ∈ L2 → c ∈ L1 ++ b :: L2) as Hout' by (intros c; rewrite elem_of_app, elem_of_cons; tauto).
    assert (∀ c, c ∈ L1 ∨ c ∈ L2 → _used c = false → stop c ≠ _addr b ∧ stop b ≠ _addr c ∧ (below c b ∨ below b c) ∧ block_ok c) as Hside.
    { intros c Hc Huc. split_and!; [by apply Hm; auto|by apply Hm; auto|destruct Hc; auto|by apply Hall, Hout']. }
    assert (∀ c d, c ∈ L1 ∨ c ∈ L2 → _used c = false → d ∈ M → stop c ≠ _addr d ∧ stop d ≠ _addr c) as HcM.
    { intros c d Hc Huc Hd. destruct (Hside c Hc Huc) as (? & ? & Hor & Hok). destruct (Hin d Hd) as (? & ? & _).
      assert (∃ x, covers d x) as (x & Hx) by (exists (_addr d); destruct (wf_pieces b a n Hb Ha Hn He) as [HwM _]; apply covers_start; by eapply wf_ok).
      unfold below, covers, block_ok, stop in *. lia. }
    assert (∀ c, c ∈ L1 ++ M ++ L2 → (c ∈ L1 ∨ c ∈ L2) ∨ c ∈ M) as Hcase by (intros c; rewrite !elem_of_app; tauto).
    intros c d [Hc|Hc]%Hcase [Hd|Hd]%Hcase Huc Hud; [by apply Hm; auto|by apply (HcM c d)|by apply (HcM d c)|by apply HM].
Qed.

Section Ops.
Context {S : Type} `{Metadata_laws S}.
Abbreviation state := (@state S).
Implicit Types st : state.

Lemma free_block_run st T X L a :
  owns st T X L → 0 ≤ a < 2 ^ 64 →
  ∃ r, free_block_at a st = (Ok r, st) ∧
    match r with
    | Some (m, b) => m ∈ nodes T ∧ (∃ x, heap st !! m = Some x ∧ data x = b) ∧ b ∈ L ∧ _used b = false ∧ covers b a
    | None => ∀ b, b ∈ L → _used b = false → ¬ covers b a
    end.
Proof.
  intros Ho Ha. destruct (find_run st T X L a 0 false Ho) as (r & R & Hr); [lia|done|cbn; lia|].
  unfold free_block_at. mrun R. destruct r as [m|].
  - destruct Hr as (Hm & x & Hx & HxL & Hh). cbn in Hh. mrun (block_run st m x Hx). destruct (_used (data x)) eqn:Hu.
    + exists None. split; [done|]. intros b Hb Hub Hcov. assert (data x = b) as <-; [|congruence].
      apply (wf_unique L _ _ a); [apply Ho|done|done| |done]. unfold covers. lia.
    + exists (Some (m, data x)). split; [done|]. split_and!; [done|by exists x|done|done|]. unfold covers. lia.
  - exists None. split; [done|]. intros b Hb _ Hcov. apply (Hr b Hb). unfold covers in Hcov. cbn. lia.
Qed.

(** The merge with the free block that [free_block_at] has found *)
Lemma merge_run {A} st T X L (r : option (id * Block)) (f : Block → A) (d : A) :
  owns st T X L → match r with Some (m, b) => m ∈ nodes T ∧ ∃ x, heap st !! m = Some x ∧ data x = b | None => True end →
  ∃ st' T' L', match r with Some (b, x) => _destroy_block b;; mret (f x) | None => mret d end st =
      (Ok (match r with Some (_, x) => f x | None => d end), st') ∧
    owns st' T' X L' ∧ taken (snd <$> r) L L' ∧ Z.min (2 + margin) (reserve (md st)) ≤ reserve (md st').
Proof.
  intros Ho Hr. destruct r as [[m b]|].
  - destruct Hr as (Hm & x & Hx & <-). destruct (destroy_run _ _ _ _ _ _ Ho Hm Hx) as (L1 & L2 & st' & T' & -> & R & Ho' & Hr').
    exists st', T', (L1 ++ L2). split_and!; [by mrun R|done|by exists L1, L2|lia].
  - exists st, T, L. split_and!; try done. lia.
Qed.

Lemma add_range_base_run st T L base size :
  owns st T [] L → merged L → 0 ≤ base → 0 < size → base + size < 2 ^ 64 →
  ∃ r st' T' L', add_range_base base size st = (Ok r, st') ∧ owns st' T' [] L' ∧ merged L' ∧
    match r with
    | Ok _ => (∀ b, b ∈ L → ¬ hit b base size true) ∧ (∀ x, free_in L' x ↔ free_in L x ∨ base ≤ x < base + size) ∧
              (∀ b, _used b = true → b ∈ L' ↔ b ∈ L) ∧ Z.min (2 + margin) (reserve (md st) - 1) ≤ reserve (md st')
    | Err e => L' = L ∧ ((e = DENIED ∧ ∃ b, b ∈ L ∧ hit b base size true) ∨ (reserve (md st) ≤ 0 ∧ ∀ b, b ∈ L → ¬ hit b base size true))
    end.
Proof.
  intros Ho Hm Hb Hs He. assert (least_one size = size) as Els by (unfold least_one; zcases; lia).
  unfold add_range_base. replace (size =? 0) with false by (symmetry; apply Z.eqb_neq; lia).
  destruct (find_run st T [] L base size true Ho) as (c & Rc & Hc); [lia..|]. rewrite Els in Hc. mrun Rc. destruct c as [m|].
  { destruct Hc as (_ & x & _ & HxL & Hx). exists (Err DENIED), st, T, L. split_and!; try done. left. split; [done|]. by exists (data x). }
  destruct (alloc_metadata_run st T [] L Ho) as ([i|e] & st1 & R1 & Ho1 & Hr1); mrun R1.
  2: { exists (Err e), st1, T, L. split_and!; try done. by right. }
  pose proof (owns_wf _ _ _ _ Ho) as Hw.
  assert (∃ p, (if base =? 0 then mret None else free_block_at (u64 (base - 1))) st1 = (Ok p, st1) ∧
    match p with Some (m, b) => m ∈ nodes T ∧ (∃ x, heap st1 !! m = Some x ∧ data x = b) | None => True end ∧
    match snd <$> p with Some b => b ∈ L ∧ _used b = false ∧ stop b = base | None => ∀ b, b ∈ L → _used b = false → stop b ≠ base end)
    as (p & Rp & Hp1 & Hp).
  { destruct (Z.eqb_spec base 0) as [->|Hb0].
    - exists None. split_and!; [done|done|]. intros b HbL _. destruct (wf_ok _ _ Hw HbL) as (?&?&?). unfold stop. lia.
    - rewrite wrap_small by word_lia. destruct (free_block_run st1 T _ L (base - 1) Ho1) as (p & Rp & Hp); [lia|]. exists p. split; [done|].
      destruct p as [[m b]|]; cbn.
      + destruct Hp as (?&?&HbL&?&Hcov). split_and!; [done..|]. specialize (Hc b HbL). unfold hit, covers in *. lia.
      + split; [done|]. intros b HbL Hub E. apply (Hp b HbL Hub). destruct (wf_ok _ _ Hw HbL) as (?&?&?). unfold covers, stop in *. lia. }
  mrun Rp.
  destruct (merge_run st1 T _ L p (λ x, (_addr x, u64 (size + _size x))) (base, size) Ho1 ltac:(destruct p as [[? ?]|]; tauto)) as (st2 & T2 & L2 & R2 & Ho2 & Ht2 & Hres2).
  mrun R2. pose proof (taken_in _ _ _ Hw Ht2) as Hin2.
  set (lo := match snd <$> p with Some b => _addr b | None => base end).
  assert (match p with Some (_, x) => (_addr x, u64 (size + _size x)) | None => (base, size) end = (lo, base + size - lo) ∧ 0 ≤ lo ≤ base) as [-> Hlo].
  { unfold lo. destruct p as [[m b]|]; cbn in *; [|by rewrite Z.add_simpl_l]. destruct Hp as (HbL & _ & Hend). destruct (wf_ok _ _ Hw HbL) as (?&?&?).
    unfold stop in *. rewrite wrap_small by word_lia. split; [f_equal; lia|lia]. }
  cbn [fst snd]. replace (lo + (base + size - lo)) with (base + size) by lia. rewrite (wrap_small 64 (base + size)) by word_lia.
  destruct (free_block_run st2 T2 _ L2 (base + size) Ho2) as (s & Rs & Hs'); [lia|]. mrun Rs.
  assert (match snd <$> s with Some b => b ∈ L ∧ _used b = false ∧ _addr b = base + size | None => ∀ b, b ∈ L → _used b = false → _addr b ≠ base + size end) as Hsn.
  { destruct s as [[m b]|]; cbn.
    - destruct Hs' as (_ & _ & HbL & Hub & Hcov). apply Hin2 in HbL as [HbL _]. split_and!; [done..|]. specialize (Hc b HbL). unfold hit, covers in *. lia.
    - intros b HbL Hub E. apply (Hs' b); [|done|destruct (wf_ok _ _ Hw HbL) as (?&?&?); unfold covers, stop; lia]. apply Hin2. split; [done|].
      intros Ep. rewrite Ep in Hp. destruct Hp as (_ & _ & Hend). destruct (wf_ok _ _ Hw HbL) as (?&?&?). unfold stop in *. lia. }
  destruct (merge_run st2 T2 _ L2 s (λ x, (lo, u64 (base + size - lo + _size x))) (lo, base + size - lo) Ho2 ltac:(destruct s as [[? ?]|]; tauto)) as (st3 & T3 & L3 & R3 & Ho3 & Ht3 & Hres3).
  mrun R3. pose proof (taken_in _ _ _ (owns_wf _ _ _ _ Ho2) Ht3) as Hin3.
  pose proof (conj Hp Hsn : touching L base (base + size) (snd <$> p) (snd <$> s)) as Htouch. set (n := joined base (base + size) (snd <$> p) (snd <$> s)).
  assert (∃ lo', lo' = lo ∧ match s with Some (_, x) => (lo', u64 (base + size - lo + _size x)) | None => (lo', base + size - lo) end = (_addr n, _size n)) as (lo' & -> & ->).
  { exists lo. split; [done|]. unfold n, joined. cbn [_addr _size]. fold lo. destruct s as [[m b]|]; cbn in *; [|done].
    destruct Hsn as (HbL & _ & Hadr). destruct (wf_ok _ _ Hw HbL) as (?&?&?). unfold stop. rewrite wrap_small by word_lia. f_equal. lia. }
  cbn [fst snd].
  destruct (join_spec L L3 (n :: L3) base (base + size) (snd <$> p) (snd <$> s)) as [Hdis _]; [done|done|lia|done|done| | |].
  { by replace (base + size - base) with size by lia. }
  { intros b. rewrite Hin3, Hin2. tauto. }
  assert (block_ok n) as Hn by (by apply (joined_ok L); [|lia|..]).
  destruct (wf_insert L3 n) as (La & Lb & EL & HwL); [by apply Ho3|done| |].
  { intros b HbL. apply apart_below; [|done|by apply Hdis]. eapply wf_ok; [apply Ho3|done]. }
  rewrite EL in Ho3. assert (n = Blk (_addr n) (_size n) FREE) as En by done. rewrite En in HwL.
  destruct (add_block_run st3 T3 [] La Lb i (_addr n) (_size n) FREE Ho3 HwL) as (st4 & T4 & R4 & Ho4 & Emd). mrun R4.
  rewrite <- En in Ho4. destruct (join_spec L L3 (La ++ n :: Lb) base (base + size) (snd <$> p) (snd <$> s)) as [_ Hfin]; [done|done|lia|done|done| | |].
  { by replace (base + size - base) with size by lia. }
  { intros b. rewrite Hin3, Hin2. tauto. }
  destruct Hfin as (Hm' & Hfree & Hused); [intros b; rewrite EL, !elem_of_app, elem_of_cons; tauto|].
  exists (Ok tt), st4, T4, (La ++ n :: Lb). split_and!; try done. rewrite Emd. lia.
Qed.

(** Without the backing store, the reserve grows for the time of the call. *)
Lemma add_range_run st T L base size :
  owns st T [] L → merged L → 0 ≤ base → 0 < size → base + size < 2 ^ 64 →
  ∃ r st' T' L', add_range base size st = (Ok r, st') ∧ owns st' T' [] L' ∧ merged L' ∧
    match r with
    | Ok _ => (∀ b, b ∈ L → ¬ hit b base size true) ∧ (∀ x, free_in L' x ↔ free_in L x ∨ base ≤ x < base + size) ∧
              (∀ b, _used b = true → b ∈ L' ↔ b ∈ L) ∧ Z.min 2 (reserve (md st) - 1) ≤ reserve (md st')
    | Err e => L' = L ∧ ((e = DENIED ∧ ∃ b, b ∈ L ∧ hit b base size true) ∨ (reserve (md st) ≤ 0 ∧ ∀ b, b ∈ L → ¬ hit b base size true))
    end.
Proof.
  intros Ho Hm Hb Hs He. pose proof margin_nonneg as Hmg. unfold add_range, backing_store. erewrite bind_ok by reflexivity.
  destruct (set_backing_store_run st T [] L false Ho) as (st1 & R1 & Ho1 & E1). mrun R1.
  destruct (add_range_base_run st1 T L base size Ho1 Hm Hb Hs He) as (r & st2 & T2 & L2 & R2 & Ho2 & Hm2 & Hr2). mrun R2.
  destruct (set_backing_store_run st2 T2 [] L2 (md_backing_store (md st)) Ho2) as (st3 & R3 & Ho3 & E3). mrun R3.
  exists r, st3, T2, L2. split_and!; [done|done|done|]. pose proof (md_detached (md st)) as Hd. rewrite <- E1 in Hd.
  destruct r as [[]|e].
  - destruct Hr2 as (? & ? & ? & Hr). split_and!; [done|done|done|]. rewrite E3. destruct (md_backing_store (md st)).
    + pose proof (md_attached (md st2)). lia.
    + pose proof (md_detached (md st2)). destruct (md_backing_store (md st2)); lia.
  - destruct Hr2 as [-> Hr]. split; [done|]. destruct Hr as [?|[? ?]]; [by left|right]. split; [|done].
    destruct (md_backing_store (md st)); lia.
Qed.

(** An empty range is refused. *)
Lemma add_range_empty st T L base :
  owns st T [] L → ∃ st', add_range base 0 st = (Ok (Err DENIED), st') ∧ owns st' T [] L.
Proof.
  intros Ho. unfold add_range, backing_store. erewrite bind_ok by reflexivity.
  destruct (set_backing_store_run st T [] L false Ho) as (st1 & R1 & Ho1 & _). mrun R1.
  erewrite bind_ok by reflexivity.
  destruct (set_backing_store_run st1 T [] L (md_backing_store (md st)) Ho1) as (st2 & R2 & Ho2 & _). mrun R2. by exists st2.
Qed.

(** ** Allocation *)

Lemma alloc_frame st T X L r st' :
  owns st T X L → _alloc_block_metadata st = (r, st') → ∀ m, m ∈ nodes T → heap st' !! m = heap st !! m.
Proof.
  intros Ho. unfold _alloc_block_metadata. destruct (md_alloc (md st)) as [[i|e] s'] eqn:E; intros [= <- <-] m Hm; [|done].
  destruct (md_alloc_ok _ _ _ E) as (Hi & _). cbn. rewrite lookup_insert_ne; [done|]. intros ->. apply Hi.
  rewrite (owns_live _ _ _ _ Ho). apply elem_of_list_to_set, elem_of_app. by left.
Qed.

Lemma alloc_two_frame st T X L b st' :
  owns st T X L → _alloc_two_blocks_metadata st = (Ok (Ok b), st') → ∀ m, m ∈ nodes T → heap st' !! m = heap st !! m.
Proof.
  intros Ho. unfold _alloc_two_blocks_metadata. destruct (alloc_metadata_run st T X L Ho) as ([b1|e] & st1 & R1 & H1); mrun R1; [|done].
  destruct H1 as [Ho1 _]. destruct (alloc_metadata_run st1 T _ L Ho1) as ([b2|e] & st2 & R2 & H2); mrun R2; [|done].
  intros [= _ <-] m Hm. by rewrite (alloc_frame _ _ _ _ _ _ Ho1 R2), (alloc_frame _ _ _ _ _ _ Ho R1).
Qed.

Lemma free_two_run {A} st T X L b1 b2 (r : A) :
  owns st T (b1 :: b2 :: X) L →
  ∃ st', (free_metadata b1;; free_metadata b2;; mret r) st = (Ok r, st') ∧ owns st' T X L ∧ Z.min 3 (reserve (md st) + 2) ≤ reserve (md st').
Proof.
  intros Ho. pose proof margin_nonneg. destruct (free_metadata_run _ _ _ _ _ Ho) as (st1 & R1 & Ho1 & Hr1). destruct (free_metadata_run _ _ _ _ _ Ho1) as (st2 & R2 & Ho2 & Hr2).
  exists st2. mrun R1. mrun R2. split_and!; [done|done|lia].
Qed.

(** The used block [Blk a n USED] is put where the range has been cut out. *)
Lemma add_used_run st T L i a n :
  owns st T [i] L → 0 ≤ a → 0 < n → a + n < 2 ^ 64 → (∀ x, a ≤ x < a + n → ∀ b, b ∈ L → ¬ covers b x) →
  ∃ st' T' L', _add_block i a n USED st = (Ok tt, st') ∧ owns st' T' [] L' ∧
    (∀ b, b ∈ L' ↔ b = Blk a n USED ∨ b ∈ L).
Proof.
  intros Ho Ha Hn He Hfree. assert (block_ok (Blk a n USED)) as Hok by done.
  destruct (wf_insert L (Blk a n USED)) as (La & Lb & -> & Hw); [apply Ho|done| |].
  { intros b Hb. apply apart_below; [eapply wf_ok; [apply Ho|done]|done|]. intros x Hx Hx'. by apply (Hfree x Hx' b). }
  destruct (add_block_run st T [] La Lb i a n USED Ho Hw) as (st' & T' & R & Ho' & _). exists st', T', (La ++ Blk a n USED :: Lb).
  split_and!; [done|done|]. intros b. rewrite !elem_of_app, elem_of_cons. tauto.
Qed.

(** What a search tells [_allocate]: no suitable block, or the place [a] in a free block. *)
Definition search_result st T (L : list Block) (size align : Z) (range : Range) (refused : Prop) (P : Z → Prop) (r : option (option id)) : Prop :=
  ∃ o, r = Some o ∧
    match o with
    | Some m => m ∈ nodes T ∧ ∃ x, heap st !! m = Some x ∧ data x ∈ L ∧
        ((_used (data x) = true ∧ refused) ∨
         (_used (data x) = false ∧ ∃ a, a = align_addr (Z.max (_addr (data x)) (start range)) align ∧ P a ∧ _addr (data x) ≤ a ∧ a + size ≤ stop (data x)))
    | None => refused
    end.

(** The [n] bytes at [a] have been free in [L] and are not free any more in [L']. *)
Definition cut_out (L L' : list Block) (a n : Z) : Prop :=
  (∀ x, a ≤ x < a + n → free_in L x) ∧ ∀ x, free_in L' x ↔ free_in L x ∧ ¬ (a ≤ x < a + n).

Definition same_used (L L' : list Block) : Prop := ∀ u, _used u = true → u ∈ L' ↔ u ∈ L.

Lemma allocate_run st T L size align range search refused P :
  owns st T [] L → merged L → 0 < size →
  (∀ st1 X, owns st1 T X L → (∀ m, m ∈ nodes T → heap st1 !! m = heap st !! m) →
    search_result st1 T L size align range refused P (match root_of T with Some c => search c (heap st1) | None => Some None end)) →
  ∃ r st' T' L', _allocate size align range search st = (Ok r, st') ∧ owns st' T' [] L' ∧ merged L' ∧
    match r with
    | Ok a => P a ∧ cut_out L L' a size ∧ ∀ u, _used u = true → u ∈ L' ↔ u = Blk a size USED ∨ u ∈ L
    | Err e => same_used L L' ∧
        ((L' = L ∧ (e = DENIED ∧ refused ∨ reserve (md st) ≤ 1)) ∨ (reserve (md st) ≤ 1 ∧ ∃ a, P a ∧ cut_out L L' a size))
    end.
Proof.
  intros Ho Hm Hs Hsearch. unfold _allocate. pose proof (owns_wf _ _ _ _ Ho) as Hw.
  destruct (alloc_two_run st T [] L Ho) as ([[b1 b2]|e] & st1 & R1 & Ho1 & Hr1); mrun R1.
  2: { exists (Err e), st1, T, L. split_and!; try done. left. auto. }
  assert (∀ m, m ∈ nodes T → heap st1 !! m = heap st !! m) as Hf by (intros m; by apply (alloc_two_frame st T [] L _ st1 Ho R1)).
  destruct (Hsearch st1 _ Ho1 Hf) as (o & Eo & Hres). clear Hsearch. pose proof (owns_first _ _ _ _ Ho1) as Hfirst.
  assert (lift (λ h, c ← first h; match c with Some c => search c h | None => Some None end) st1 = (Ok o, st1)) as Rs by (apply lift_run; by rewrite Hfirst).
  mrun Rs.
  assert (∀ r : Alloc_error, ∃ st' T' L', (free_metadata b1;; free_metadata b2;; mret (Err (A := Z) r)) st1 = (Ok (Err r), st') ∧ owns st' T' [] L' ∧ merged L' ∧ L' = L) as Hdeny.
  { intros r. destruct (free_two_run st1 T [] L b1 b2 (Err (A := Z) r) Ho1) as (st2 & R2 & Ho2 & _). by exists st2, T, L. }
  destruct o as [m|].
  2: { destruct (Hdeny DENIED) as (st2 & T2 & L2 & R2 & Ho2 & Hm2 & ->). exists (Err DENIED), st2, T2, L. split_and!; try done. left. auto. }
  destruct Hres as (HmT & x & Hx & HxL & [[Hu Href]|(Hu & a & Ea & HP & Ha & Hend)]); mrun (block_run st1 m x Hx); rewrite Hu.
  { destruct (Hdeny DENIED) as (st2 & T2 & L2 & R2 & Ho2 & Hm2 & ->). exists (Err DENIED), st2, T2, L. split_and!; try done. left. auto. }
  cbn zeta. rewrite <- Ea. pose proof (wf_ok _ _ Hw HxL) as Hok.
  destruct (cut_run st1 T [] L b1 b2 m x a size Ho1 HmT Hx Ha Hs Hend) as (L1 & L2 & st2 & T2 & EL & R2 & Ho2 & Hr2). mrun R2.
  destruct (cut_split L L1 (data x) L2 a size Hw EL Hu Ha Hs Hend) as (Hfree & Hused & Hmerged). specialize (Hmerged Hm).
  set (L' := L1 ++ _ ++ L2) in *.
  assert (cut_out L L' a size) as Hcut.
  { split; [|done]. intros y Hy. exists (data x). split_and!; [done|done|]. unfold covers. lia. }
  destruct (alloc_metadata_run st2 T2 [] L' Ho2) as ([i|e] & st3 & R3 & Ho3 & Hr3); mrun R3.
  2: { exists (Err e), st3, T2, L'. split_and!; try done. right. split; [|by exists a]. cbn zeta in Hr2. destruct (_ && _) in Hr2; lia. }
  unfold block_ok, stop in *. destruct (add_used_run st3 T2 L' i a size Ho3) as (st4 & T4 & L4 & R4 & Ho4 & Hin4); [lia..| |].
  { intros y Hy b Hb Hby. destruct (_used b) eqn:Hub.
    - apply (Hused b Hub) in Hb. assert (b = data x) as ->; [|congruence]. apply (wf_unique L _ _ y); [done..|]. unfold covers, stop. lia.
    - destruct (proj1 (Hfree y)) as [_ ?]; [by exists b|]. lia. }
  mrun R4. exists (Ok a), st4, T4, L4. split_and!; try done.
  - intros b c [->|Hb]%Hin4 [->|Hc]%Hin4 Hub Huc; try done. by apply Hmerged.
  - split; [apply Hcut|]. intros y. rewrite <- Hfree. unfold free_in. split.
    + intros (b & [->|Hb]%Hin4 & Hub & Hy); [done|by exists b].
    + intros (b & Hb & Hub & Hy). exists b. split; [apply Hin4; by right|done].
  - intros u Hub. rewrite Hin4, (Hused u Hub). done.
Qed.

Lemma covered_ext (h h' : tree_heap) T : (∀ m, m ∈ nodes T → h' !! m = h !! m) → covered h T → covered h' T.
Proof.
  induction T as [|l IHl n r IHr]; [done|]. intros E ((x & Hx & Hc) & Hl & Hr).
  assert (∀ m, m = n ∨ m ∈ nodes l ∨ m ∈ nodes r → h' !! m = h !! m) as E' by (intros m Hm; apply E; cbn; set_solver).
  cbn [covered]. split; [|split; [apply IHl|apply IHr]; auto]. exists x. split; [rewrite E'; auto|].
  intros b Hb. apply Hc. by rewrite (blocks_ext h h') in Hb by (intros m Hm; by rewrite E).
Qed.

(** A request that [alloc_aligned] refuses cannot be fulfilled, if the annotations of the tree are not too small. *)
Lemma alloc_aligned_run st T L size align range :
  owns st T [] L → merged L → request_ok size align range →
  ∃ r st' T' L', alloc_aligned size align range st = (Ok r, st') ∧ owns st' T' [] L' ∧ merged L' ∧
    match r with
    | Ok a => ((2 ^ align | a) ∧ start range ≤ a ∧ a + size - 1 ≤ end_ range) ∧ cut_out L L' a size ∧
        ∀ u, _used u = true → u ∈ L' ↔ u = Blk a size USED ∨ u ∈ L
    | Err e => same_used L L' ∧
        ((L' = L ∧ (e = DENIED ∧ (covered (heap st) T → ∀ b a, b ∈ L → ¬ room b size align range a) ∨ reserve (md st) ≤ 1)) ∨
         (reserve (md st) ≤ 1 ∧ ∃ a, ((2 ^ align | a) ∧ start range ≤ a ∧ a + size - 1 ≤ end_ range) ∧ cut_out L L' a size))
    end.
Proof.
  intros Ho Hm Hreq. unfold alloc_aligned.
  apply (allocate_run st T L size align range _ (covered (heap st) T → ∀ b a, b ∈ L → ¬ room b size align range a)
    (λ a, (2 ^ align | a) ∧ start range ≤ a ∧ a + size - 1 ≤ end_ range) Ho Hm); [apply Hreq|].
  intros st1 X Ho1 Hf. pose proof (owns_blocks _ _ _ _ Ho1) as Eb. unfold search_result. pose proof (proj1 (owns_wf _ _ _ _ Ho1)) as Hok.
  destruct (root_of T) as [n|] eqn:Er.
  - destruct (find_best_fit_run (heap st1) size align range T (enough (heap st1)) (Some root) n) as (r & R & Hr);
      [by eapply owns_rep|done|pose proof (owns_fuel _ _ _ _ Ho1); lia|by rewrite Eb|done|].
    exists r. split; [done|]. destruct r as [m|].
    + destruct Hr as (HmT & x & Hx & Hfit). assert (data x ∈ L) as HxL by (rewrite <- Eb; apply elem_of_blocks; by exists m, x).
      split; [done|]. exists x. split_and!; [done|done|]. right. rewrite Forall_forall in Hok.
      destruct (fits_room _ _ _ _ (Hok _ HxL) Hreq Hfit) as (Hu & H1 & H2 & H3 & H4 & H5). split; [done|]. by exists (place (data x) align range).
    + intros Hcov b a Hb Hroom. rewrite Eb in Hr. rewrite Forall_forall in Hok. specialize (Hr (covered_ext _ _ T Hf Hcov) b Hb).
      rewrite (room_fits b size align range a) in Hr; [done|by apply Hok|done..].
  - exists None. split; [done|]. intros _ b a. rewrite <- Eb. destruct T; [|done]. by intros ?%elem_of_nil.
Qed.

(** Consecutive free bytes are in one block. *)
Lemma free_in_block L a n :
  wf L → merged L → 0 < n → (∀ x, a ≤ x < a + n → free_in L x) → ∃ b, b ∈ L ∧ _used b = false ∧ _addr b ≤ a ∧ a + n ≤ stop b.
Proof.
  intros Hw Hm Hn Hfree. destruct (Hfree a) as (b & Hb & Hub & Hx); [lia|]. exists b. split_and!; [done|done|apply Hx|].
  destruct (Z.le_gt_cases (a + n) (stop b)) as [|Hgt]; [done|]. exfalso.
  destruct (Hfree (stop b)) as (c & Hc & Huc & Hy); [unfold covers in *; lia|]. apply (Hm b c); [done..|].
  destruct (Z.eq_dec (stop b) (_addr c)) as [|Hne]; [done|]. exfalso. unfold covers in *.
  assert (b = c) as ->; [|lia]. destruct (Z.le_gt_cases (_addr b) (_addr c)); [apply (wf_unique L _ _ (_addr c))|apply (wf_unique L _ _ (_addr b))]; done || (unfold covers; lia).
Qed.

(** [alloc_addr] fails if and only if a byte is not free. *)
Lemma alloc_addr_run st T L size addr :
  owns st T [] L → merged L → 0 < size < 2 ^ 64 → 0 ≤ addr < 2 ^ 64 →
  ∃ r st' T' L', alloc_addr size addr st = (Ok r, st') ∧ owns st' T' [] L' ∧ merged L' ∧
    match r with
    | Ok a => a = addr ∧ cut_out L L' a size ∧ ∀ u, _used u = true → u ∈ L' ↔ u = Blk a size USED ∨ u ∈ L
    | Err e => same_used L L' ∧
        ((L' = L ∧ (e = DENIED ∧ ¬ (∀ x, addr ≤ x < addr + size → free_in L x) ∨ reserve (md st) ≤ 1)) ∨
         (reserve (md st) ≤ 1 ∧ ∃ a, a = addr ∧ cut_out L L' a size))
    end.
Proof.
  intros Ho Hm Hs Ha. pose proof (owns_wf _ _ _ _ Ho) as Hw. unfold alloc_addr. destruct (_sum_in_range addr size) eqn:Esum; cbn [negb].
  2: { exists (Err DENIED), st, T, L. split_and!; try done. left. split; [done|]. left. split; [done|]. intros Hfree.
    apply Z.leb_gt in Esum. assert (2 ^ 64 < addr + size) as Hov.
    { destruct (Z.le_gt_cases (addr + size) (2 ^ 64)); [|done]. rewrite wrap_small in Esum by word_lia. lia. }
    destruct (Hfree (2 ^ 64)) as (b & Hb & _ & Hx); [lia|]. destruct (wf_ok _ _ Hw Hb) as (_ & _ & ?). unfold covers, stop in *. lia. }
  apply Z.leb_le in Esum. assert (addr + size ≤ 2 ^ 64) as Hno.
  { destruct (Z.le_gt_cases (addr + size) (2 ^ 64)); [done|]. exfalso. replace (addr + size - 1) with (addr + (size - 1)) in Esum by lia.
    rewrite wrap_overflow in Esum by word_lia. lia. }
  apply (allocate_run st T L size 0 _ _ (¬ (∀ x, addr ≤ x < addr + size → free_in L x)) (λ a, a = addr) Ho Hm); [lia|].
  intros st1 X Ho1 Hf. pose proof (owns_blocks _ _ _ _ Ho1) as Eb. unfold search_result.
  assert (least_one size = size) as Els by (unfold least_one; zcases; lia).
  destruct (root_of T) as [n|] eqn:Er.
  - destruct (find_by_address_run (heap st1) addr false T (enough (heap st1)) (Some root) n size) as (r & R & Hr);
      [by eapply owns_rep|done|pose proof (owns_fuel _ _ _ _ Ho1); lia|rewrite Eb; apply Ho1|lia..|].
    rewrite Els in Hr. exists r. split; [done|]. destruct r as [m|].
    + destruct Hr as (HmT & x & Hx & Hh1 & Hh2). assert (data x ∈ L) as HxL by (rewrite <- Eb; apply elem_of_blocks; by exists m, x).
      split; [done|]. exists x. split_and!; [done|done|]. destruct (_used (data x)) eqn:Hu; [left|right].
      * split; [done|]. intros Hfree. destruct (Hfree addr) as (b & Hb & Hub & Hc); [lia|].
        assert (b = data x) as ->; [|congruence]. apply (wf_unique L _ _ addr); [done..|]. unfold covers. lia.
      * split; [done|]. exists addr. split_and!; [|done|done|done]. cbn. rewrite Z.max_r by done.
        destruct (align_addr_spec addr 0) as (_ & _ & Hl & _); [word_lia|lia|]. specialize (Hl ltac:(lia)). lia.
    + intros Hfree. destruct (free_in_block L addr size Hw Hm) as (b & Hb & _ & H1 & H2); [lia|done|]. rewrite Eb in Hr. by apply (Hr b Hb).
  - exists None. split; [done|]. intros Hfree. destruct (Hfree addr) as (b & Hb & _); [lia|]. rewrite <- Eb in Hb. destruct T; [|done].
    by apply elem_of_nil in Hb.
Qed.

(** ** [free] *)

Lemma free_run st T L addr :
  owns st T [] L → merged L → 0 ≤ addr < 2 ^ 64 →
  ∃ st' T' L', free addr st = (Ok tt, st') ∧ owns st' T' [] L' ∧ merged L' ∧ (2 ≤ reserve (md st) → 2 ≤ reserve (md st')) ∧
    ((L' = L ∧ ∀ b, b ∈ L → _used b = true → ¬ covers b addr) ∨
     ∃ b, b ∈ L ∧ _used b = true ∧ covers b addr ∧ (∀ u, _used u = true → u ∈ L' ↔ u ∈ L ∧ u ≠ b) ∧
       ((∀ x, free_in L' x ↔ free_in L x ∨ covers b x) ∨ (reserve (md st) < 0 ∧ ∀ x, free_in L' x ↔ free_in L x))).
Proof.
  intros Ho Hm Ha. pose proof (owns_wf _ _ _ _ Ho) as Hw. unfold free.
  destruct (find_run st T [] L addr 0 false Ho) as (r & R & Hr); [lia|done|cbn; lia|]. mrun R. destruct r as [m|].
  2: { exists st, T, L. split_and!; try done. left. split; [done|]. intros b Hb _ Hc. apply (Hr b Hb). unfold covers in *. cbn. lia. }
  destruct Hr as (HmT & x & Hx & HxL & Hh). cbn in Hh. mrun (block_run st m x Hx).
  assert (covers (data x) addr) as Hcov by (unfold covers; lia). destruct (_used (data x)) eqn:Hu; cbn [negb].
  2: { exists st, T, L. split_and!; try done. left. split; [done|]. intros b Hb Hub Hc. assert (b = data x) as ->; [|congruence]. by apply (wf_unique L _ _ addr). }
  destruct (destroy_run _ _ _ _ _ _ Ho HmT Hx) as (L1 & L2 & st1 & T1 & EL & R1 & Ho1 & Hr1). mrun R1.
  set (b := data x) in *. assert (taken (Some b) L (L1 ++ L2)) as Ht by (by exists L1, L2). pose proof (taken_in _ _ _ Hw Ht) as Hin.
  assert (merged (L1 ++ L2)) as Hm1 by (intros c d [Hc _]%Hin [Hd _]%Hin; by apply Hm).
  destruct (wf_ok _ _ Hw HxL) as (Hb1 & Hb2 & Hb3). pose proof margin_nonneg as Hmg.
  destruct (add_range_run st1 T1 _ (_addr b) (_size b) Ho1 Hm1 Hb1 Hb2 Hb3) as (r & st2 & T2 & L' & R2 & Ho2 & Hm2 & Hr2). mrun R2.
  assert (∀ c, c ∈ L1 ++ L2 → ¬ hit c (_addr b) (_size b) true) as Hno.
  { intros c [HcL Hcb]%Hin [Hh1 Hh2]. apply Hcb. f_equal. destruct (wf_ok _ _ Hw HcL) as (?&?&?).
    destruct (Z.le_gt_cases (_addr b) (_addr c)); [apply (wf_unique L _ _ (_addr c))|apply (wf_unique L _ _ (_addr b))]; try done; unfold covers, stop in *; lia. }
  assert (∀ y, free_in (L1 ++ L2) y ↔ free_in L y) as Hfree.
  { intros y. unfold free_in. split; intros (c & Hc & Huc & Hy); exists c; (split; [|done]).
    - by apply Hin in Hc as [? _].
    - apply Hin. split; [done|]. intros [= <-]. congruence. }
  exists st2, T2, L'. split_and!; [done|done|done| |].
  - intros Hres. destruct r as [u|e]; [destruct Hr2 as (_ & _ & _ & ?); lia|destruct Hr2 as (_ & [(_ & c & Hc & Hh')|[? _]]); [by destruct (Hno c Hc)|lia]].
  - right. exists b. split_and!; [done|done|done| |].
    + assert (∀ u, _used u = true → u ∈ L' ↔ u ∈ L1 ++ L2) as Hsame by (destruct r; [apply Hr2|by destruct Hr2 as [-> _]]).
      intros u Huu. rewrite (Hsame u Huu), Hin. naive_solver.
    + destruct r as [u|e].
      * left. intros y. destruct Hr2 as (_ & Hf2 & _). rewrite Hf2, Hfree. done.
      * right. destruct Hr2 as (-> & [(_ & c & Hc & Hh')|[? _]]); [by destruct (Hno c Hc)|]. split; [lia|]. done.
Qed.

(** ** [remove_range] *)

#[local] Instance hit_dec b a n o : Decision (hit b a n o).
Proof. unfold hit. destruct o; apply _. Defined.

(** The meta data that [remove_range] needs: two entries for each round, and one more for a block that is cut in the middle. *)
Definition ample (st : state) (L : list Block) (base size : Z) : Prop :=
  2 ≤ reserve (md st) ∧ ((∃ b, b ∈ L ∧ _addr b < base ∧ base + size < stop b) → 3 ≤ reserve (md st)).

Lemma filter_mid (P : Block → Prop) `{∀ b, Decision (P b)} L1 b M L2 :
  P b → (∀ c, c ∈ M → ¬ P c) → (length (filter P (L1 ++ M ++ L2)) < length (filter P (L1 ++ b :: L2)))%nat.
Proof.
  intros Hb HM. rewrite !filter_app, filter_cons_True by done. assert (filter P M = []) as ->; [|rewrite !length_app; cbn; lia].
  destruct (filter P M) as [|c l] eqn:E; [done|]. exfalso. assert (c ∈ filter P M) as [Hc HcM]%list_elem_of_filter by (rewrite E; constructor). by apply (HM c).
Qed.

Lemma remove_loop_run base size fuel : ∀ st T L,
  owns st T [] L → merged L → 0 ≤ base → 0 < size → base + size ≤ 2 ^ 64 → (length (filter (λ b, hit b base size true) L) < fuel)%nat →
  ∃ r st' T' L', remove_loop fuel base size st = (Ok r, st') ∧ owns st' T' [] L' ∧ merged L' ∧ same_used L L' ∧
    (∀ x, free_in L' x → free_in L x) ∧ (∀ x, ¬ (base ≤ x < base + size) → free_in L x → free_in L' x) ∧
    match r with
    | Ok _ => (∀ b, b ∈ L' → ¬ hit b base size true) ∧ (ample st L base size → 2 ≤ reserve (md st'))
    | Err e => (e = DENIED ∧ ∃ b, b ∈ L ∧ _used b = true ∧ hit b base size true) ∨ ¬ ample st L base size
    end.
Proof.
  induction fuel as [|fuel IH]; intros st T L Ho Hm Hb Hs He Hf; [lia|]. cbn [remove_loop]. pose proof (owns_wf _ _ _ _ Ho) as Hw.
  assert (least_one size = size) as Els by (unfold least_one; zcases; lia).
  destruct (alloc_two_run st T [] L Ho) as ([[b1 b2]|e] & st1 & R1 & Ho1 & Hr1); mrun R1.
  2: { exists (Err e), st1, T, L. split_and!; try done. right. unfold ample. lia. }
  destruct (find_run st1 T _ L base size true Ho1) as (c & Rc & Hc); [lia..|]. rewrite Els in Hc. mrun Rc.
  destruct c as [m|].
  2: { destruct (free_two_run st1 T [] L b1 b2 (Ok (E := Alloc_error) tt) Ho1) as (st2 & R2 & Ho2 & Hr2). cbn [fst snd]. rewrite R2.
    exists (Ok tt), st2, T, L. split_and!; try done. unfold ample. intros [? _]. lia. }
  destruct Hc as (HmT & x & Hx & HxL & [Hh1 Hh2]). mrun (block_run st1 m x Hx). set (b := data x) in *. pose proof (wf_ok _ _ Hw HxL) as Hok.
  unfold avail_of. destruct (_used b) eqn:Hu.
  { cbn [Z.eqb]. destruct (free_two_run st1 T [] L b1 b2 (Err (A := unit) DENIED) Ho1) as (st2 & R2 & Ho2 & _). cbn [fst snd]. rewrite R2.
    exists (Err DENIED), st2, T, L. split_and!; try done. left. split; [done|]. by exists b. }
  unfold block_ok, stop in *. replace (_size b =? 0) with false by (symmetry; apply Z.eqb_neq; lia).
  set (a := Z.max base (_addr b)). set (e := Z.min (base + size) (_addr b + _size b)).
  assert (Z.min (u64 (base + size - 1)) (u64 (_addr b + _size b - 1)) = e - 1) as -> by (rewrite !wrap_small by word_lia; lia). cbn zeta.
  replace (e - 1 - a + 1) with (e - a) by lia. rewrite (wrap_small 64 (e - a)) by word_lia.
  destruct (cut_run st1 T [] L b1 b2 m x a (e - a) Ho1 HmT Hx) as (L1 & L2 & st2 & T2 & EL & R2 & Ho2 & Hr2); [fold b; unfold stop; lia..|]. fold b in EL, Ho2, Hr2.
  mrun R2. destruct (cut_split L L1 b L2 a (e - a) Hw EL Hu) as (Hfree & Hused & Hmerged); [unfold stop; lia..|]. specialize (Hmerged Hm).
  destruct (wf_pieces b a (e - a)) as [_ Hpieces]; [done|unfold stop; lia..|].
  assert (∀ c, c ∈ front b a ++ back b (a + (e - a)) → ¬ hit c base size true) as Hnohit.
  { intros c Hc [Hc1 Hc2]. revert Hc. unfold front, back. rewrite elem_of_app. destruct (Z.ltb_spec (_addr b) a), (Z.ltb_spec (a + (e - a)) (stop b));
      rewrite ?list_elem_of_singleton, ?elem_of_nil; intros [Hc|Hc]; try done; rewrite Hc in Hc1, Hc2; unfold stop in *; cbn in Hc1, Hc2; lia. }
  set (M := front b a ++ back b (a + (e - a))) in *. set (L' := L1 ++ M ++ L2) in *.
  destruct (IH st2 T2 L' Ho2 Hmerged Hb Hs He) as (r & st3 & T3 & L3 & R3 & Ho3 & Hm3 & Hu3 & Hf3 & Hg3 & Hres).
  { unfold L'. pose proof (filter_mid (λ b, hit b base size true) L1 b M L2 (conj Hh1 Hh2) Hnohit) as Hlt. rewrite <- EL in Hlt. lia. }
  assert (ample st L base size → ample st2 L' base size) as Hample.
  { intros [Ha1 Ha2]. assert (¬ ∃ c, c ∈ L' ∧ _addr c < base ∧ base + size < stop c) as Hnone.
    { intros (c & Hc & Hc1 & Hc2). assert (covers c a) as Hca by (unfold covers, stop in *; lia). destruct (_used c) eqn:Huc.
      - apply (Hused c Huc) in Hc. assert (c = b) as ->; [|congruence]. apply (wf_unique L _ _ a); [done..|]. unfold covers, stop. lia.
      - destruct (proj1 (Hfree a)) as [_ Hna]; [by exists c|]. lia. }
    split; [|by intros ?]. cbn zeta in Hr2. destruct (Z.ltb_spec (_addr b) a) as [Hl1|Hl1]; [|cbn [andb] in Hr2; lia].
    destruct (Z.ltb_spec (a + (e - a)) (stop b)) as [Hl2|Hl2]; cbn [andb] in Hr2; [|lia].
    assert (3 ≤ reserve (md st)); [|lia]. apply Ha2. exists b. split; [done|]. unfold stop in *. lia. }
  exists r, st3, T3, L3. split_and!; [exact R3|done|done| | | |].
  - intros u Huu. by rewrite (Hu3 u Huu), (Hused u Huu).
  - intros y Hy. by apply Hf3, Hfree in Hy as [? _].
  - intros y Hy Hfy. apply Hg3; [done|]. apply Hfree. split; [done|]. lia.
  - destruct r as [u|er]; [destruct Hres as [? Hr]; split; auto|]. destruct Hres as [(-> & c & Hc & Huc & Hhc)|Hres]; [left|right; auto].
    split; [done|]. exists c. split_and!; [by apply (Hused c Huc)|done|done].
Qed.

Lemma owns_length st T X L : owns st T X L → (length L ≤ base.size (heap st))%nat.
Proof.
  intros Ho. pose proof (length_nodes _ _ _ _ _ (proj1 (owns_tree _ _ _ _ Ho))). rewrite <- (owns_blocks _ _ _ _ Ho).
  assert (∀ l, length (blocks (heap st) l) ≤ length l)%nat as Hle; [|specialize (Hle (nodes T)); lia].
  intros l. induction l as [|m l IH]; [done|]. unfold blocks in *. cbn. destruct (data <$> heap st !! m); cbn; lia.
Qed.

Lemma remove_range_run st T L base size :
  owns st T [] L → merged L → 0 ≤ base → 0 < size → base + size ≤ 2 ^ 64 →
  ∃ r st' T' L', remove_range base size st = (Ok r, st') ∧ owns st' T' [] L' ∧ merged L' ∧ same_used L L' ∧
    (∀ x, free_in L' x → free_in L x) ∧ (∀ x, ¬ (base ≤ x < base + size) → free_in L x → free_in L' x) ∧
    match r with
    | Ok _ => (∀ b, b ∈ L' → ¬ hit b base size true) ∧ (ample st L base size → 2 ≤ reserve (md st'))
    | Err e => (e = DENIED ∧ ∃ b, b ∈ L ∧ _used b = true ∧ hit b base size true) ∨ ¬ ample st L base size
    end.
Proof.
  intros Ho Hm Hb Hs He. unfold remove_range. replace (size =? 0) with false by (symmetry; apply Z.eqb_neq; lia).
  apply (remove_loop_run base size (2 + base.size (heap st)) st T L Ho Hm Hb Hs He).
  pose proof (owns_length _ _ _ _ Ho). pose proof (length_filter (λ b, hit b base size true) L). lia.
Qed.

End Ops.
