(* ===== verification/Allocator_avl_props.v ===== *)
(** * Allocator_avl_props: the allocator against a specification of free bytes and allocations

    The view of an allocator is the set of its free bytes and the map from the addresses of
    its allocations to their sizes.  [spec] says how each public operation of
    [src/repos/base/src/lib/base/allocator_avl.cc] changes the view and what it returns, the
    failures of the meta-data allocator included; the detailed operations refine it from any
    state that a new allocator can reach.  Further: an allocation fails for lack of memory
    only if there is none, provided that the annotations of the tree are right, and the
    destructor gives all meta data back. *)

From S2P Require Import Prelude Avl_nodes Avl_trees Allocator_avl Allocator_avl_blocks Allocator_avl_spec Allocator_avl_ops.

(** ** The view of a list of blocks *)

Definition range_set (a n : Z) : gset Z := list_to_set (seqZ a n).

Definition block_bytes (b : Block) : gset Z := range_set (_addr b) (_size b).

Definition free_bytes (L : list Block) : gset Z := ⋃ ((λ b, if _used b then ∅ else block_bytes b) <$> L).

Definition allocs (L : list Block) : gmap Z Z := list_to_map ((λ b, (_addr b, _size b)) <$> filter (λ b, _used b = true) L).

Record view := View { free_set : gset Z; allocated : gmap Z Z }.

Definition view_of (L : list Block) : view := View (free_bytes L) (allocs L).

Lemma elem_of_range x a n : x ∈ range_set a n ↔ a ≤ x < a + n.
Proof. unfold range_set. rewrite elem_of_list_to_set, elem_of_seqZ. done. Qed.

Lemma elem_of_block x b : x ∈ block_bytes b ↔ covers b x.
Proof. apply elem_of_range. Qed.

Lemma elem_of_free L x : x ∈ free_bytes L ↔ free_in L x.
Proof.
  unfold free_bytes, free_in. rewrite elem_of_union_list. setoid_rewrite list_elem_of_fmap. split.
  - intros (X & (b & -> & Hb) & Hx). exists b. destruct (_used b) eqn:Hu; [by apply elem_of_empty in Hx|]. by rewrite elem_of_block in Hx.
  - intros (b & Hb & Hu & Hx). exists (block_bytes b). split; [|by apply elem_of_block]. exists b. by rewrite Hu.
Qed.

Lemma free_bytes_eq L (X : gset Z) : (∀ x, free_in L x ↔ x ∈ X) → free_bytes L = X.
Proof. intros E. apply leibniz_equiv. intros x. by rewrite elem_of_free, E. Qed.

Lemma allocs_in L a n : wf L → allocs L !! a = Some n ↔ Blk a n USED ∈ L.
Proof.
  intros Hw. unfold allocs. rewrite <- elem_of_list_to_map.
  - rewrite list_elem_of_fmap. setoid_rewrite list_elem_of_filter. split.
    + intros (b & [= -> ->] & Hu & Hb). by destruct b; cbn in *; subst.
    + intros Hb. by exists (Blk a n USED).
  - rewrite <- list_fmap_compose. apply NoDup_fmap_2_strong; [|apply NoDup_filter].
    + intros b c [_ Hb]%list_elem_of_filter [_ Hc]%list_elem_of_filter E. cbn in E.
      apply (wf_unique L _ _ (_addr b)); [done..|apply covers_start; by eapply wf_ok|rewrite E; apply covers_start; by eapply wf_ok].
    + destruct Hw as [Hok Hs]. induction Hs as [|b L Hs IH Hb]; [constructor|]. apply Forall_cons in Hok as [Hbok Hok].
      apply NoDup_cons. split; [|by apply IH]. intros Hin. rewrite Forall_forall in Hb. specialize (Hb b Hin). unfold below, stop, block_ok in *. lia.
Qed.

Lemma allocs_eq (L : list Block) (m : gmap Z Z) : wf L → (∀ a n, Blk a n USED ∈ L ↔ m !! a = Some n) → allocs L = m.
Proof. intros Hw E. apply map_eq. intros a. apply option_eq. intros n. by rewrite (allocs_in L a n Hw), E. Qed.

Lemma same_allocs L L' : wf L → wf L' → same_used L L' → allocs L' = allocs L.
Proof. intros Hw Hw' Hs. apply allocs_eq; [done|]. intros a n. rewrite (Hs (Blk a n USED) eq_refl), allocs_in; done. Qed.

Lemma used_block (L : list Block) b : b ∈ L → _used b = true → Blk (_addr b) (_size b) USED ∈ L.
Proof. destruct b; cbn. by intros ? ->. Qed.

Lemma allocs_insert (L L' : list Block) a n :
  wf L → wf L' → (∀ x, a ≤ x < a + n → free_in L x) → 0 < n → (∀ u, _used u = true → u ∈ L' ↔ u = Blk a n USED ∨ u ∈ L) → allocs L' = <[a:=n]> (allocs L).
Proof.
  intros Hw Hw' Hf Hn Hu. apply allocs_eq; [done|]. intros c m. rewrite (Hu (Blk c m USED) eq_refl). rewrite lookup_insert_Some, allocs_in by done. split.
  - intros [[= -> ->]|Hin]; [by left|]. right. split; [|done]. intros <-. destruct (Hf a) as (b & Hb & Hub & Hx); [lia|].
    assert (Blk a m USED = b) as <-; [|done]. apply (wf_unique L _ _ a); [done..|by apply (covers_start (Blk a m USED)), (wf_ok L)|done].
  - intros [[-> ->]|[_ Hin]]; [by left|by right].
Qed.

Lemma allocs_delete (L L' : list Block) b :
  wf L → wf L' → b ∈ L → _used b = true → (∀ u, _used u = true → u ∈ L' ↔ u ∈ L ∧ u ≠ b) → allocs L' = base.delete (_addr b) (allocs L).
Proof.
  intros Hw Hw' Hb Hub Hu. apply allocs_eq; [done|]. intros c m. rewrite (Hu (Blk c m USED) eq_refl), lookup_delete_Some, allocs_in by done. split.
  - intros [Hin Hne]. split; [|done]. intros <-. apply Hne. apply (wf_unique L _ _ (_addr b)); [done..|by apply (covers_start (Blk (_addr b) m USED)), (wf_ok L)|].
    by apply covers_start, (wf_ok L).
  - intros [Hne Hin]. split; [done|]. by intros <-.
Qed.

(** A byte of an allocation *)
Definition used_byte (σ : view) (x : Z) : Prop := ∃ a n, allocated σ !! a = Some n ∧ a ≤ x < a + n.

Definition managed (σ : view) (x : Z) : Prop := x ∈ free_set σ ∨ used_byte σ x.

Lemma used_byte_of L x : wf L → used_byte (view_of L) x ↔ ∃ b, b ∈ L ∧ _used b = true ∧ covers b x.
Proof.
  intros Hw. unfold used_byte, view_of. cbn. split.
  - intros (a & n & Ha%allocs_in & Hx); [|done]. by exists (Blk a n USED).
  - intros (b & Hb & Hu & Hx). exists (_addr b), (_size b). rewrite allocs_in by done. split; [by apply used_block|done].
Qed.

Lemma managed_of L x : wf L → managed (view_of L) x ↔ ∃ b, b ∈ L ∧ covers b x.
Proof.
  intros Hw. unfold managed. rewrite used_byte_of by done. cbn. rewrite elem_of_free. unfold free_in. split.
  - intros [(b & ? & _ & ?)|(b & ? & _ & ?)]; by exists b.
  - intros (b & Hb & Hx). destruct (_used b) eqn:Hu; [right|left]; by exists b.
Qed.

(** The blocks that a range of bytes hits *)
Lemma hit_managed L base size : wf L → 0 < size → (∃ b, b ∈ L ∧ hit b base size true) ↔ ∃ x, base ≤ x < base + size ∧ managed (view_of L) x.
Proof.
  intros Hw Hs. setoid_rewrite managed_of; [|done]. split.
  - intros (b & Hb & H1 & H2). destruct (wf_ok _ _ Hw Hb) as (?&?&?). exists (Z.max base (_addr b)). unfold covers, stop in *. split; [lia|]. exists b. split; [done|lia].
  - intros (x & Hx & b & Hb & Hc). exists b. split; [done|]. unfold hit, covers in *. lia.
Qed.

Lemma total_size L : wf L → Z.of_nat (base.size (free_bytes L)) = total L.
Proof.
  induction L as [|b L IH]; intros Hw; [done|]. apply wf_cons in Hw as (Hb & Hw & Hbelow). unfold free_bytes. cbn [fmap list_fmap union_list foldr]. fold (free_bytes L).
  unfold total. cbn [foldr]. fold (total L). rewrite size_union.
  - rewrite Nat2Z.inj_add, (IH Hw). f_equal. unfold avail_of, block_bytes, range_set. destruct (_used b); [by rewrite size_empty|].
    rewrite size_list_to_set by apply NoDup_seqZ. rewrite length_seqZ. destruct Hb as (_ & ? & _). lia.
  - intros x Hx Hx'. apply elem_of_free in Hx' as (c & Hc & _ & Hcx). destruct (_used b); [by apply elem_of_empty in Hx|]. rewrite elem_of_block in Hx.
    specialize (Hbelow c Hc). unfold below, covers in *. lia.
Qed.

(** ** The interface and its specification *)

Inductive call :=
  | Add_range (base size : Z)
  | Remove_range (base size : Z)
  | Alloc_aligned (size align : Z) (range : Range)
  | Alloc_addr (size addr : Z)
  | Free (addr : Z)
  | Size_at (addr : Z)
  | Valid_addr (addr : Z)
  | Any_block_addr
  | Avail.

Inductive answer :=
  | Done (r : result Alloc_error unit)
  | Got (r : result Alloc_error Z)
  | Nothing
  | Size (r : result Size_at_error Z)
  | Is (b : bool)
  | Address (a : option Z)
  | Bytes (n : Z).

(** The arguments for which no address computation of the code overflows *)
Definition valid (c : call) : Prop :=
  match c with
  | Add_range base size => 0 ≤ base ∧ 0 ≤ size ∧ base + size < 2 ^ 64
  | Remove_range base size => 0 ≤ base ∧ 0 ≤ size ∧ base + size ≤ 2 ^ 64
  | Alloc_aligned size align range => request_ok size align range
  | Alloc_addr size addr => 0 < size < 2 ^ 64 ∧ 0 ≤ addr < 2 ^ 64
  | Free addr | Size_at addr | Valid_addr addr => 0 ≤ addr < 2 ^ 64
  | Any_block_addr | Avail => True
  end.

(** What a call may do to the view. A meta-data allocator with [scarce] entries may let some calls fail, and an
    allocation that fails in its middle loses the range. *)
Inductive spec (scarce : Prop) (σ : view) : call → answer → view → Prop :=
  | add_ok base size :
      0 < size → (∀ x, base ≤ x < base + size → ¬ managed σ x) →
      spec scarce σ (Add_range base size) (Done (Ok tt)) (View (free_set σ ∪ range_set base size) (allocated σ))
  | add_denied base size :
      size = 0 ∨ (∃ x, base ≤ x < base + size ∧ managed σ x) → spec scarce σ (Add_range base size) (Done (Err DENIED)) σ
  | add_failed base size e :
      scarce → (∀ x, base ≤ x < base + size → ¬ managed σ x) → spec scarce σ (Add_range base size) (Done (Err e)) σ
  | remove_ok base size :
      0 < size → (∀ x, base ≤ x < base + size → ¬ used_byte σ x) →
      spec scarce σ (Remove_range base size) (Done (Ok tt)) (View (free_set σ ∖ range_set base size) (allocated σ))
  | remove_empty base : spec scarce σ (Remove_range base 0) (Done (Err DENIED)) σ
  | remove_denied base size e f :
      (e = DENIED ∧ ∃ x, base ≤ x < base + size ∧ used_byte σ x) ∨ scarce → f ⊆ free_set σ → free_set σ ∖ range_set base size ⊆ f →
      spec scarce σ (Remove_range base size) (Done (Err e)) (View f (allocated σ))
  | aligned_ok size align range a :
      (2 ^ align | a) → start range ≤ a → a + size - 1 ≤ end_ range → range_set a size ⊆ free_set σ →
      spec scarce σ (Alloc_aligned size align range) (Got (Ok a)) (View (free_set σ ∖ range_set a size) (<[a:=size]> (allocated σ)))
  | aligned_denied size align range : spec scarce σ (Alloc_aligned size align range) (Got (Err DENIED)) σ
  | aligned_failed size align range e : scarce → spec scarce σ (Alloc_aligned size align range) (Got (Err e)) σ
  | aligned_lost size align range e a :
      scarce → range_set a size ⊆ free_set σ →
      spec scarce σ (Alloc_aligned size align range) (Got (Err e)) (View (free_set σ ∖ range_set a size) (allocated σ))
  | addr_ok size addr :
      range_set addr size ⊆ free_set σ →
      spec scarce σ (Alloc_addr size addr) (Got (Ok addr)) (View (free_set σ ∖ range_set addr size) (<[addr:=size]> (allocated σ)))
  | addr_denied size addr : ¬ range_set addr size ⊆ free_set σ → spec scarce σ (Alloc_addr size addr) (Got (Err DENIED)) σ
  | addr_failed size addr e : scarce → spec scarce σ (Alloc_addr size addr) (Got (Err e)) σ
  | addr_lost size addr e :
      scarce → range_set addr size ⊆ free_set σ →
      spec scarce σ (Alloc_addr size addr) (Got (Err e)) (View (free_set σ ∖ range_set addr size) (allocated σ))
  | free_ok addr a n :
      allocated σ !! a = Some n → a ≤ addr < a + n →
      spec scarce σ (Free addr) Nothing (View (free_set σ ∪ range_set a n) (base.delete a (allocated σ)))
  | free_lost addr a n :
      scarce → allocated σ !! a = Some n → a ≤ addr < a + n → spec scarce σ (Free addr) Nothing (View (free_set σ) (base.delete a (allocated σ)))
  | free_none addr : ¬ used_byte σ addr → spec scarce σ (Free addr) Nothing σ
  | size_ok addr n : allocated σ !! addr = Some n → spec scarce σ (Size_at addr) (Size (Ok n)) σ
  | size_mismatch addr :
      (used_byte σ addr ∧ allocated σ !! addr = None) ∨ (addr ∈ free_set σ ∧ addr - 1 ∈ free_set σ) →
      spec scarce σ (Size_at addr) (Size (Err MISMATCHING_ADDR)) σ
  | size_unknown addr :
      ¬ managed σ addr ∨ (addr ∈ free_set σ ∧ addr - 1 ∉ free_set σ) → spec scarce σ (Size_at addr) (Size (Err UNKNOWN_ADDR)) σ
  | valid_yes addr : managed σ addr → spec scarce σ (Valid_addr addr) (Is true) σ
  | valid_no addr : ¬ managed σ addr → spec scarce σ (Valid_addr addr) (Is false) σ
  | any_some a : is_Some (allocated σ !! a) → spec scarce σ Any_block_addr (Address (Some a)) σ
  | any_none : allocated σ = ∅ → spec scarce σ Any_block_addr (Address None) σ
  | avail_sum : spec scarce σ Avail (Bytes (Z.of_nat (base.size (free_set σ)))) σ.

Section Refinement.
Context {S : Type} `{Metadata_laws S}.
Abbreviation state := (@state S).
Abbreviation prog := (exc state fault).
Implicit Types st : state.

Definition perform (c : call) : prog answer :=
  match c with
  | Add_range base size => r ← add_range base size; mret (Done r)
  | Remove_range base size => r ← remove_range base size; mret (Done r)
  | Alloc_aligned size align range => r ← alloc_aligned size align range; mret (Got r)
  | Alloc_addr size addr => r ← alloc_addr size addr; mret (Got r)
  | Free addr => free addr;; mret Nothing
  | Size_at addr => r ← size_at addr; mret (Size r)
  | Valid_addr addr => r ← valid_addr addr; mret (Is r)
  | Any_block_addr => r ← any_block_addr; mret (Address r)
  | Avail => r ← avail; mret (Bytes r)
  end.

(** The blocks [L] of a consistent state between two operations *)
Definition inv st (L : list Block) : Prop := (∃ T, owns st T [] L) ∧ merged L.

(** What a call does, in terms of the specification *)
Definition refines st (L : list Block) (c : call) : Prop :=
  ∃ a st' L', perform c st = (Ok a, st') ∧ inv st' L' ∧ spec (reserve (md st) < 3) (view_of L) c a (view_of L').

Lemma same_state st L c a :
  inv st L → perform c st = (Ok a, st) → spec (reserve (md st) < 3) (view_of L) c a (view_of L) → refines st L c.
Proof. intros Hi R Hs. by exists a, st, L. Qed.

Lemma refines_add st L base size : inv st L → valid (Add_range base size) → refines st L (Add_range base size).
Proof.
  intros Hi (Hb & Hs & He). pose proof Hi as [[T Ho] Hm]. pose proof (owns_wf _ _ _ _ Ho) as Hw. destruct (Z.eq_dec size 0) as [->|Hs0].
  { destruct (add_range_empty st T L base Ho) as (st' & R & Ho'). exists (Done (Err DENIED)), st', L. cbn [perform]. mrun R.
    split_and!; [done|split; [by exists T|done]|]. apply add_denied. by left. }
  destruct (add_range_run st T L base size Ho Hm) as (r & st' & T' & L' & R & Ho' & Hm' & Hr); [lia..|].
  pose proof (owns_wf _ _ _ _ Ho') as Hw'. pose proof (hit_managed L base size Hw ltac:(lia)) as Hhit.
  exists (Done r), st', L'. cbn [perform]. mrun R. split_and!; [done|split; [by exists T'|done]|]. destruct r as [[]|e].
  - destruct Hr as (Hno & Hfree & Hused & _).
    assert (view_of L' = View (free_set (view_of L) ∪ range_set base size) (allocated (view_of L))) as ->.
    { unfold view_of. cbn. f_equal; [|by apply same_allocs]. apply free_bytes_eq. intros x. rewrite Hfree, elem_of_union, elem_of_free, elem_of_range. done. }
    apply add_ok; [lia|]. intros x Hx Hmx. destruct (proj2 Hhit) as (b & Hb' & Hh); [by exists x|]. by apply (Hno b).
  - destruct Hr as [-> [[-> Hex]|[Hres Hno]]]; [apply add_denied; right; by apply Hhit|]. apply add_failed; [lia|].
    intros x Hx Hmx. destruct (proj2 Hhit) as (b & Hb' & Hh); [by exists x|]. by apply (Hno b).
Qed.

Lemma refines_remove st L base size : inv st L → valid (Remove_range base size) → refines st L (Remove_range base size).
Proof.
  intros Hi (Hb & Hs & He). pose proof Hi as [[T Ho] Hm]. pose proof (owns_wf _ _ _ _ Ho) as Hw. destruct (Z.eq_dec size 0) as [->|Hs0].
  { apply (same_state _ _ _ (Done (Err DENIED))); [done|done|]. apply remove_empty. }
  destruct (remove_range_run st T L base size Ho Hm) as (r & st' & T' & L' & R & Ho' & Hm' & Hu & Hsub & Hout & Hr); [lia..|].
  pose proof (owns_wf _ _ _ _ Ho') as Hw'. exists (Done r), st', L'. cbn [perform]. mrun R. split_and!; [done|split; [by exists T'|done]|].
  assert (view_of L' = View (free_bytes L') (allocated (view_of L))) as -> by (unfold view_of; cbn; f_equal; by apply same_allocs).
  destruct r as [[]|e].
  - destruct Hr as [Hno _]. assert (∀ x, base ≤ x < base + size → ¬ managed (view_of L') x) as Hclean.
    { intros x Hx Hmx. destruct (proj2 (hit_managed L' base size Hw' ltac:(lia))) as (b & Hb' & Hh); [by exists x|]. by apply (Hno b). }
    assert (free_bytes L' = free_set (view_of L) ∖ range_set base size) as ->.
    { apply free_bytes_eq. intros x. rewrite elem_of_difference, elem_of_range. cbn. rewrite elem_of_free. split; [|intros [? ?]; by apply Hout].
      intros Hx. split; [by apply Hsub|]. intros Hr. apply (Hclean x Hr). left. by apply elem_of_free. }
    apply remove_ok; [lia|]. intros x Hx Hux. apply (Hclean x Hx). right. apply used_byte_of in Hux as (b & Hb' & Hub & Hc); [|done].
    apply used_byte_of; [done|]. exists b. split; [by apply Hu|done].
  - apply remove_denied.
    + destruct Hr as [(-> & b & Hb' & Hub & Hh1 & Hh2)|Hamp]; [left; split; [done|]|right; unfold ample in Hamp; lia].
      destruct (wf_ok _ _ Hw Hb') as (?&?&?). exists (Z.max base (_addr b)). unfold stop in *. split; [lia|]. apply used_byte_of; [done|]. exists b. unfold covers, stop. split_and!; [done|done|lia..].
    + intros x. cbn. rewrite !elem_of_free. apply Hsub.
    + intros x. rewrite elem_of_difference, elem_of_range. cbn. rewrite !elem_of_free. intros [? ?]. by apply Hout.
Qed.

(** The view after a range has been cut out *)
Lemma cut_view L L' a n : cut_out L L' a n → range_set a n ⊆ free_bytes L ∧ free_bytes L' = free_bytes L ∖ range_set a n.
Proof.
  intros [Hin Hcut]. split.
  - intros x. rewrite elem_of_range, elem_of_free. apply Hin.
  - apply free_bytes_eq. intros x. by rewrite Hcut, elem_of_difference, elem_of_free, elem_of_range.
Qed.

Lemma refines_aligned st L size align range : inv st L → valid (Alloc_aligned size align range) → refines st L (Alloc_aligned size align range).
Proof.
  intros Hi Hv. pose proof Hi as [[T Ho] Hm]. pose proof (owns_wf _ _ _ _ Ho) as Hw. pose proof Hv as (Hs & _).
  destruct (alloc_aligned_run st T L size align range Ho Hm Hv) as (r & st' & T' & L' & R & Ho' & Hm' & Hr). pose proof (owns_wf _ _ _ _ Ho') as Hw'.
  exists (Got r), st', L'. cbn [perform]. mrun R. split_and!; [done|split; [by exists T'|done]|]. destruct r as [a|e].
  - destruct Hr as ((H1 & H2 & H3) & Hcut & Hu). destruct (cut_view _ _ _ _ Hcut) as [Hsub E].
    assert (view_of L' = View (free_set (view_of L) ∖ range_set a size) (<[a:=size]> (allocated (view_of L)))) as ->.
    { unfold view_of. cbn. rewrite E. f_equal. apply allocs_insert; [done|done|apply Hcut|done|done]. }
    by apply aligned_ok.
  - destruct Hr as [Hu [[-> [[-> _]|Hres]]|(Hres & a & _ & Hcut)]]; [apply aligned_denied|apply aligned_failed; lia|].
    destruct (cut_view _ _ _ _ Hcut) as [Hsub E].
    assert (view_of L' = View (free_set (view_of L) ∖ range_set a size) (allocated (view_of L))) as -> by (unfold view_of; cbn; rewrite E; f_equal; by apply same_allocs).
    apply aligned_lost; [lia|done].
Qed.

Lemma refines_addr st L size addr : inv st L → valid (Alloc_addr size addr) → refines st L (Alloc_addr size addr).
Proof.
  intros Hi [Hs Ha]. pose proof Hi as [[T Ho] Hm]. pose proof (owns_wf _ _ _ _ Ho) as Hw.
  destruct (alloc_addr_run st T L size addr Ho Hm Hs Ha) as (r & st' & T' & L' & R & Ho' & Hm' & Hr). pose proof (owns_wf _ _ _ _ Ho') as Hw'.
  exists (Got r), st', L'. cbn [perform]. mrun R. split_and!; [done|split; [by exists T'|done]|]. destruct r as [a|e].
  - destruct Hr as (-> & Hcut & Hu). destruct (cut_view _ _ _ _ Hcut) as [Hsub E].
    assert (view_of L' = View (free_set (view_of L) ∖ range_set addr size) (<[addr:=size]> (allocated (view_of L)))) as ->.
    { unfold view_of. cbn. rewrite E. f_equal. apply allocs_insert; [done|done|apply Hcut|lia|done]. }
    by apply addr_ok.
  - destruct Hr as [Hu [[-> [[-> Hno]|Hres]]|(Hres & a & -> & Hcut)]]; [apply addr_denied|apply addr_failed; lia|].
    { intros Hsub. apply Hno. intros x Hx. apply elem_of_free, Hsub. by apply elem_of_range. }
    destruct (cut_view _ _ _ _ Hcut) as [Hsub E].
    assert (view_of L' = View (free_set (view_of L) ∖ range_set addr size) (allocated (view_of L))) as -> by (unfold view_of; cbn; rewrite E; f_equal; by apply same_allocs).
    apply addr_lost; [lia|done].
Qed.

Lemma refines_free st L addr : inv st L → valid (Free addr) → refines st L (Free addr).
Proof.
  intros Hi Ha. pose proof Hi as [[T Ho] Hm]. pose proof (owns_wf _ _ _ _ Ho) as Hw.
  destruct (free_run st T L addr Ho Hm Ha) as (st' & T' & L' & R & Ho' & Hm' & _ & Hr). pose proof (owns_wf _ _ _ _ Ho') as Hw'.
  exists Nothing, st', L'. cbn [perform]. mrun R. split_and!; [done|split; [by exists T'|done]|].
  destruct Hr as [[-> Hno]|(b & Hb & Hub & Hc & Hu & Hf)].
  { apply free_none. intros (b & Hb & Hub & Hx)%used_byte_of; [|done]. by apply (Hno b). }
  assert (allocs L !! _addr b = Some (_size b)) as Hal by (apply allocs_in; [done|by apply used_block]).
  destruct Hf as [Hf|[Hres Hf]].
  - assert (view_of L' = View (free_set (view_of L) ∪ range_set (_addr b) (_size b)) (base.delete (_addr b) (allocated (view_of L)))) as ->; [|by apply free_ok].
    unfold view_of. cbn. f_equal; [|by apply allocs_delete]. apply free_bytes_eq. intros x. rewrite Hf, elem_of_union, elem_of_free, elem_of_range. done.
  - assert (view_of L' = View (free_set (view_of L)) (base.delete (_addr b) (allocated (view_of L)))) as ->.
    { unfold view_of. cbn. f_equal; [|by apply allocs_delete]. apply free_bytes_eq. intros x. by rewrite Hf, elem_of_free. }
    apply (free_lost _ _ addr (_addr b) (_size b)); [lia|done|done].
Qed.

Lemma find_block_run st T L addr :
  owns st T [] L → 0 ≤ addr < 2 ^ 64 →
  ∃ r, _find_by_address addr 0 false st = (Ok r, st) ∧
    match r with
    | Some m => ∃ x, heap st !! m = Some x ∧ data x ∈ L ∧ covers (data x) addr
    | None => ∀ b, b ∈ L → ¬ covers b addr
    end.
Proof.
  intros Ho Ha. destruct (find_run st T [] L addr 0 false Ho) as (r & R & Hr); [lia|done|cbn; lia|]. exists r. split; [done|]. cbn in Hr. destruct r as [m|].
  - destruct Hr as (_ & x & Hx & HxL & Hh). exists x. split_and!; [done|done|]. unfold covers. lia.
  - intros b Hb Hc. apply (Hr b Hb). unfold covers in Hc. lia.
Qed.

Lemma refines_size_at st L addr : inv st L → valid (Size_at addr) → refines st L (Size_at addr).
Proof.
  intros Hi Ha. pose proof Hi as [[T Ho] Hm]. pose proof (owns_wf _ _ _ _ Ho) as Hw. destruct (find_block_run st T L addr Ho Ha) as (r & R & Hr).
  assert (∀ a, size_at addr st = (Ok a, st) → spec (reserve (md st) < 3) (view_of L) (Size_at addr) (Size a) (view_of L) → refines st L (Size_at addr)) as Hgo.
  { intros a Ra Hs. apply (same_state _ _ _ (Size a)); [done|cbn [perform]; by mrun Ra|done]. }
  unfold size_at in Hgo. rewrite (bind_ok _ _ _ _ _ R) in Hgo. destruct r as [m|].
  2: { apply (Hgo (Err UNKNOWN_ADDR)); [done|]. apply size_unknown. left. intros (b & Hb & Hc)%managed_of; [|done]. by apply (Hr b). }
  destruct Hr as (x & Hx & Hb & Hc). rewrite (bind_ok _ _ _ _ _ (block_run st m x Hx)) in Hgo. set (b := data x) in *.
  assert (∀ c, c ∈ L → covers c addr → c = b) as Huniq by (intros c Hcl Hcc; by apply (wf_unique L _ _ addr)).
  destruct (Z.eqb_spec (_addr b) addr) as [E|E]; cbn [negb] in Hgo; (destruct (_used b) eqn:Hu; [|]).
  - apply (Hgo (Ok (_size b)) eq_refl). apply size_ok. cbn. rewrite <- E. apply allocs_in; [done|]. by apply used_block.
  - apply (Hgo (Err UNKNOWN_ADDR) eq_refl). apply size_unknown. right. cbn. rewrite !elem_of_free. split; [by exists b|]. intros (c & Hcl & Hcu & Hcc).
    destruct (decide (covers c addr)) as [Hca|Hca].
    { rewrite (Huniq c Hcl Hca) in Hcc. unfold covers in Hcc. lia. }
    apply (Hm c b); [done..|]. unfold covers in *. lia.
  - apply (Hgo (Err MISMATCHING_ADDR) eq_refl). apply size_mismatch. left. split; [apply used_byte_of; [done|]; by exists b|]. cbn.
    destruct (allocs L !! addr) as [n|] eqn:En; [|done]. exfalso. apply allocs_in in En; [|done]. apply E.
    rewrite <- (Huniq _ En); [done|]. apply (covers_start (Blk addr n USED)). by eapply wf_ok.
  - apply (Hgo (Err MISMATCHING_ADDR) eq_refl). apply size_mismatch. right. cbn. rewrite !elem_of_free. split; exists b; (split_and!; [done|done|]); [done|].
    unfold covers in *. lia.
Qed.

Lemma refines_valid_addr st L addr : inv st L → valid (Valid_addr addr) → refines st L (Valid_addr addr).
Proof.
  intros Hi Ha. pose proof Hi as [[T Ho] Hm]. pose proof (owns_wf _ _ _ _ Ho) as Hw. destruct (find_block_run st T L addr Ho Ha) as (r & R & Hr).
  assert (valid_addr addr st = (Ok (bool_decide (is_Some r)), st)) as Rv by (unfold valid_addr; by mrun R).
  apply (same_state _ _ _ (Is (bool_decide (is_Some r)))); [done|cbn [perform]; by mrun Rv|]. destruct r as [m|]; cbn.
  - destruct Hr as (x & Hx & Hb & Hc). apply valid_yes, managed_of; [done|]. by exists (data x).
  - apply valid_no. intros (b & Hb & Hc)%managed_of; [|done]. by apply (Hr b).
Qed.

Lemma any_block_run st T L :
  owns st T [] L →
  ∃ r, any_block_addr st = (Ok r, st) ∧
    match r with Some a => ∃ b, b ∈ L ∧ _used b = true ∧ a = _addr b | None => ∀ b, b ∈ L → _used b = false end.
Proof.
  intros Ho. pose proof (owns_blocks _ _ _ _ Ho) as Eb.
  destruct (find_any_run (heap st) USED T (enough (heap st)) (Some root)) as (r & R & Hr); [by eapply owns_rep|by eapply owns_fuel|].
  assert (lift (λ h, c ← first h; find_any_block USED (enough h) c h) st = (Ok r, st)) as Rl by (apply lift_run; by rewrite (owns_first _ _ _ _ Ho)).
  unfold any_block_addr. rewrite (bind_ok _ _ _ _ _ Rl). destruct r as [m|].
  - destruct Hr as (Hm & x & Hx & Hu). exists (Some (_addr (data x))). split; [by mrun (block_run st m x Hx)|]. exists (data x). split_and!; [|done|done].
    rewrite <- Eb. apply elem_of_blocks. by exists m, x.
  - exists None. split; [done|]. intros b. rewrite <- Eb. apply Hr.
Qed.

Lemma refines_any_block st L : inv st L → refines st L Any_block_addr.
Proof.
  intros Hi. pose proof Hi as [[T Ho] Hm]. pose proof (owns_wf _ _ _ _ Ho) as Hw. destruct (any_block_run st T L Ho) as (r & R & Hr).
  apply (same_state _ _ _ (Address r)); [done|cbn [perform]; by mrun R|]. destruct r as [a|].
  - destruct Hr as (b & Hb & Hu & ->). apply any_some. exists (_size b). cbn. apply allocs_in; [done|]. by apply used_block.
  - apply any_none. cbn. apply map_eq. intros a. rewrite lookup_empty. destruct (allocs L !! a) as [n|] eqn:E; [|done].
    apply allocs_in in E; [|done]. by specialize (Hr _ E).
Qed.

Lemma refines_avail st L : inv st L → refines st L Avail.
Proof.
  intros Hi. pose proof Hi as [[T Ho] Hm]. pose proof (owns_wf _ _ _ _ Ho) as Hw. pose proof (owns_blocks _ _ _ _ Ho) as Eb.
  assert (avail st = (Ok (total L), st)) as R.
  { unfold avail. apply lift_run. rewrite (owns_first _ _ _ _ Ho). cbn [mbind option_bind]. destruct (root_of T) as [n|] eqn:Er.
    - rewrite (avail_run (heap st) T (enough (heap st)) (Some root) n); [|by eapply owns_rep|done|pose proof (owns_fuel _ _ _ _ Ho); lia].
      rewrite Eb. f_equal. apply wrap_small. pose proof (total_bounds L 0 Hw ltac:(lia)) as Hb. unfold in_range.
      destruct Hb; [intros b HbL; by destruct (wf_ok _ _ Hw HbL)|]. lia.
    - destruct T; [|done]. by rewrite <- Eb. }
  apply (same_state _ _ _ (Bytes (total L))); [done|cbn [perform]; by mrun R|]. rewrite <- (total_size L Hw). apply avail_sum.
Qed.

Lemma perform_refines st L c : inv st L → valid c → refines st L c.
Proof.
  intros Hi Hv. destruct c; [by apply refines_add|by apply refines_remove|by apply refines_aligned|by apply refines_addr|by apply refines_free|
    by apply refines_size_at|by apply refines_valid_addr|by apply refines_any_block|by apply refines_avail].
Qed.

(** ** Histories *)

Fixpoint history (cs : list call) : prog (list answer) :=
  match cs with [] => mret [] | c :: cs => a ← perform c; answers ← history cs; mret (a :: answers) end.

Lemma bare_init (s : S) : bare (heap (init s)) !! root = Some (erase (fresh (Blk 0 0 FREE) 0)).
Proof. rewrite bare_lookup. unfold init. cbn [heap]. by rewrite lookup_singleton_eq. Qed.

Lemma new_allocator_inv (s : S) : live s = ∅ → inv (init s) [].
Proof.
  intros Hl. split; [|by intros b c ?%elem_of_nil]. exists Leaf. split.
  - by apply (tree_leaf _ _ _ (bare_init s)).
  - done.
  - apply wf_nil.
  - exact Hl.
  - apply NoDup_nil_2.
Qed.

Lemma history_runs cs : ∀ st L, inv st L → Forall valid cs → ∃ answers st' L', history cs st = (Ok answers, st') ∧ inv st' L'.
Proof.
  induction cs as [|c cs IH]; intros st L Hi Hv; [by exists [], st, L|]. apply Forall_cons in Hv as [Hc Hv].
  destruct (perform_refines st L c Hi Hc) as (a & st1 & L1 & R1 & Hi1 & _). destruct (IH st1 L1 Hi1 Hv) as (l & st2 & L2 & R2 & Hi2).
  exists (a :: l), st2, L2. cbn [history]. mrun R1. by mrun R2.
Qed.

(** ** The annotations *)

(** No annotation is less than the free bytes of its node or the annotation of a child. *)
Definition annotated (h : tree_heap) : Prop :=
  ∀ m x, h !! m = Some x → m ≠ root → avail_of (data x) ≤ aux x ∧ ∀ i c y, _child i x = Some c → h !! c = Some y → aux y ≤ aux x.

Lemma annotated_max (h : tree_heap) T p : annotated h → rep (bare h) p T → root ∉ nodes T →
  covered h T ∧ ∀ n x b, root_of T = Some n → h !! n = Some x → b ∈ blocks h (nodes T) → avail_of b ≤ aux x.
Proof.
  intros Ha. revert p. induction T as [|l IHl n r IHr]; intros p Hrep Hroot; [done|].
  destruct (rep_node _ _ _ _ _ Hrep) as (x & Hx & E0 & E1 & Hl & Hr & Eb). cbn in Hroot. rewrite elem_of_app, elem_of_cons in Hroot.
  destruct (IHl _ Hl) as [Cl Ml]; [tauto|]. destruct (IHr _ Hr) as [Cr Mr]; [tauto|]. destruct (Ha n x Hx) as [Hself Hkids]; [by intros ->; tauto|].
  assert (∀ b, b ∈ blocks h (nodes (Br l n r)) → avail_of b ≤ aux x) as Hmax.
  { intros b. rewrite Eb, elem_of_app, elem_of_cons. intros [Hb|[->|Hb]]; [|done|].
    - destruct l as [|l1 c l2] eqn:El; [by apply elem_of_nil in Hb|]. rewrite <- El in *.
      assert (root_of l = Some c) as Ec by (by rewrite El). destruct (rep_root _ _ _ _ Hl Ec) as (z & Hz & _). destruct (bare_some _ _ _ Hz) as (y & Hy & _).
      specialize (Ml c y b Ec Hy Hb). specialize (Hkids LEFT c y). cbn in Hkids. rewrite E0 in Hkids. specialize (Hkids Ec Hy). lia.
    - destruct r as [|r1 c r2] eqn:Er; [by apply elem_of_nil in Hb|]. rewrite <- Er in *.
      assert (root_of r = Some c) as Ec by (by rewrite Er). destruct (rep_root _ _ _ _ Hr Ec) as (z & Hz & _). destruct (bare_some _ _ _ Hz) as (y & Hy & _).
      specialize (Mr c y b Ec Hy Hb). specialize (Hkids RIGHT c y). cbn in Hkids. rewrite E1 in Hkids. specialize (Hkids Ec Hy). lia. }
  split; [split; [by exists x|done]|]. intros n' x' b [= <-] Hx'. assert (x' = x) as -> by congruence. apply Hmax.
Qed.

(** ** Destruction *)

Lemma wf_nodup L : wf L → NoDup L.
Proof.
  induction L as [|b L IH]; [constructor|]. intros (Hb & Hw & Hbelow)%wf_cons. apply NoDup_cons. split; [|by apply IH].
  intros Hin. specialize (Hbelow b Hin). unfold below, stop, block_ok in *. lia.
Qed.

Lemma fewer {A} (l l' : list A) b : NoDup l → NoDup l' → b ∈ l → (∀ u, u ∈ l' → u ∈ l ∧ u ≠ b) → (length l' < length l)%nat.
Proof.
  intros Hl Hl' Hb Hsub. change (length (b :: l') ≤ length l)%nat. apply submseteq_length, NoDup_submseteq.
  - apply NoDup_cons. split; [|done]. intros Hin. by destruct (Hsub b Hin).
  - intros u [->|Hu]%elem_of_cons; [done|by apply Hsub].
Qed.

Lemma free_dangling_run fuel : ∀ st T L,
  owns st T [] L → merged L → 2 ≤ reserve (md st) → (length (filter (λ b, _used b = true) L) < fuel)%nat →
  ∃ st' T' L', free_dangling fuel st = (Ok tt, st') ∧ owns st' T' [] L' ∧ merged L' ∧ 2 ≤ reserve (md st') ∧ ∀ b, b ∈ L' → _used b = false.
Proof.
  induction fuel as [|fuel IH]; intros st T L Ho Hm Hr Hf; [lia|]. pose proof (owns_wf _ _ _ _ Ho) as Hw. cbn [free_dangling].
  destruct (any_block_run st T L Ho) as (r & R & Hany). mrun R. destruct r as [a|]; [|by exists st, T, L]. destruct Hany as (b & Hb & Hu & ->).
  destruct (wf_ok _ _ Hw Hb) as (?&?&?). destruct (free_run st T L (_addr b) Ho Hm) as (st1 & T1 & L1 & R1 & Ho1 & Hm1 & Hr1 & Hres); [lia|]. mrun R1.
  apply (IH st1 T1 L1); [done|done|auto|]. destruct Hres as [[_ Hno]|(c & Hc & Huc & Hcov & Hused & _)].
  { exfalso. apply (Hno b); [done|done|]. apply covers_start. done. }
  pose proof (owns_wf _ _ _ _ Ho1) as Hw1. assert (length (filter (λ b, _used b = true) L1) < length (filter (λ b, _used b = true) L))%nat; [|lia].
  apply (fewer _ _ c); [by apply NoDup_filter, wf_nodup|by apply NoDup_filter, wf_nodup|by apply list_elem_of_filter|].
  intros u [Huu Hin]%list_elem_of_filter. apply (Hused u Huu) in Hin as [? ?]. split; [by apply list_elem_of_filter|done].
Qed.

(** The free bytes determine the free blocks. *)
Lemma same_free_blocks L L' b :
  wf L → wf L' → merged L → merged L' → (∀ x, free_in L x ↔ free_in L' x) → b ∈ L → _used b = false → b ∈ L'.
Proof.
  intros Hw Hw' Hm Hm' Hf Hb Hu. assert (∀ c K, wf K → c ∈ K → _used c = false → (∀ x, _addr c ≤ x < _addr c + _size c → free_in K x)) as Hin
    by (intros c K _ Hc Huc x Hx; by exists c).
  destruct (wf_ok _ _ Hw Hb) as (_ & Hsz & _).
  destruct (free_in_block L' (_addr b) (_size b) Hw' Hm' Hsz) as (c & Hc & Huc & Hc1 & Hc2); [intros x Hx; apply Hf; by apply (Hin b)|].
  destruct (wf_ok _ _ Hw' Hc) as (_ & Hszc & _).
  destruct (free_in_block L (_addr c) (_size c) Hw Hm Hszc) as (d & Hd & Hud & Hd1 & Hd2); [intros x Hx; apply Hf; by apply (Hin c)|].
  assert (b = d) as <- by (apply (wf_unique L _ _ (_addr b)); [done..|by apply covers_start, (wf_ok L)|unfold covers, stop in *; lia]).
  assert (b = c) as ->; [|done]. destruct b, c. unfold stop in *. cbn in *. f_equal; [lia|lia|congruence].
Qed.

(** What [any_block_fn] returns in every state with blocks that all have [Q]: a free block,
    as long as there is one. *)
Definition finds_free (Q : Block → Prop) (fn : prog (option id)) : Prop := ∀ st T L,
  owns st T [] L → (∀ b, b ∈ L → Q b) →
  ∃ r, fn st = (Ok r, st) ∧
    match r with
    | Some n => ∃ x, heap st !! n = Some x ∧ data x ∈ L ∧ _used (data x) = false
    | None => ∀ b, b ∈ L → _used b = true
    end.

(** The ranges are reverted until only used blocks are left. *)
Lemma revert_loop_run Q fn fuel : finds_free Q fn → ∀ st T L found,
  owns st T [] L → merged L → 2 ≤ reserve (md st) → (∀ b, b ∈ L → Q b) → (length L < fuel)%nat →
  ∃ r st' T' L', revert_loop fuel fn found st = (Ok r, st') ∧ owns st' T' [] L' ∧ merged L' ∧ 2 ≤ reserve (md st') ∧
    (∀ b, b ∈ L' ↔ b ∈ L ∧ _used b = true) ∧ ((∀ b, b ∈ L → _used b = true) → r = found).
Proof.
  intros Hfn. induction fuel as [|fuel IH]; intros st T L found Ho Hm Hr HQ Hf; [lia|]. pose proof (owns_wf _ _ _ _ Ho) as Hw. cbn [revert_loop].
  destruct (Hfn st T L Ho HQ) as (r & R & Hn). mrun R. destruct r as [n|].
  2: { exists found, st, T, L. split_and!; try done. intros b. split; [intros ?; auto|by intros [? _]]. }
  destruct Hn as (x & Hx & Hb & Hub). mrun (block_run st n x Hx). set (b := data x) in *.
  destruct (wf_ok _ _ Hw Hb) as (Hb1 & Hb2 & Hb3).
  destruct (remove_range_run st T L (_addr b) (_size b) Ho Hm) as (r & st1 & T1 & L1 & R1 & Ho1 & Hm1 & Hu1 & Hsub & Hout & Hres); [lia..|]. mrun R1.
  pose proof (owns_wf _ _ _ _ Ho1) as Hw1. assert (ample st L (_addr b) (_size b)) as Hample.
  { split; [done|]. intros (c & Hc & Hc1 & Hc2). exfalso. assert (c = b) as ->; [|lia]. apply (wf_unique L _ _ (_addr b)); [done..|unfold covers; lia|]. by apply covers_start. }
  destruct r as [[]|e].
  2: { exfalso. destruct Hres as [(_ & c & Hc & Huc & Hc1 & Hc2)|?]; [|done]. destruct (wf_ok _ _ Hw Hc) as (?&?&?).
    assert (c = b) as ->; [|congruence]. destruct (Z.le_gt_cases (_addr b) (_addr c)); [apply (wf_unique L _ _ (_addr c))|apply (wf_unique L _ _ (_addr b))];
      try done; unfold covers, stop in *; lia. }
  destruct Hres as [Hno Hr1]. specialize (Hr1 Hample).
  assert (∀ u, u ∈ L1 → u ∈ L ∧ u ≠ b) as Hless; [|assert (∀ u, u ∈ L → _used u = true → u ∈ L1) as Hmore by (intros u Hu Huu; by apply Hu1)].
  { apply list_elem_of_split in Hb as Hsplit. destruct Hsplit as (La & Lb & EL). assert (taken (Some b) L (La ++ Lb)) as Ht by (by exists La, Lb).
    pose proof (taken_in _ _ _ Hw Ht) as Hin. pose proof (taken_wf _ _ _ Hw Ht) as Hwt.
    intros u Hul. assert (u ∈ La ++ Lb) as Hut; [|by apply Hin in Hut as [? Hne]; split; [|by intros ->]].
    destruct (_used u) eqn:Huu; [apply Hin; split; [by apply (Hu1 u Huu)|congruence]|].
    apply (same_free_blocks L1 (La ++ Lb)); [done|done|done|intros c d [Hc _]%Hin [Hd _]%Hin; by apply Hm| |done|done].
    intros y. split.
    - intros Hy. pose proof (Hsub y Hy) as (c & Hc & Huc & Hcy). exists c. split_and!; [|done|done]. apply Hin. split; [done|]. intros [= <-].
      destruct Hy as (d & Hd & _ & Hdy). apply (Hno d Hd). unfold hit, covers, stop in *. lia.
    - intros (c & [Hc Hne]%Hin & Huc & Hcy). apply Hout; [|by exists c]. intros Hr'. apply Hne. f_equal. by apply (wf_unique L _ _ y). }
  destruct (IH st1 T1 L1 true) as (r & st2 & T2 & L2 & R2 & Ho2 & Hm2 & Hr2 & HL2 & _); [done|done|done|intros u Hu; apply HQ; by apply Hless| |].
  { assert (length L1 < length L)%nat; [|lia]. by apply (fewer _ _ b); [apply wf_nodup|apply wf_nodup| |]. }
  exists r, st2, T2, L2. split_and!; [done|done|done|done| |].
  - intros u. rewrite HL2. split; intros [? ?]; (split; [|done]); [by apply Hless|by apply Hmore].
  - intros Hall. specialize (Hall b Hb). congruence.
Qed.

Lemma owns_nothing st T : owns st T [] [] → live (md st) = ∅.
Proof.
  intros Ho. rewrite (owns_live _ _ _ _ Ho), app_nil_r. destruct (nodes T) as [|m l] eqn:E; [done|]. exfalso.
  destruct (owns_dom st T [] [] m Ho) as [x Hx]; [rewrite E; constructor|]. pose proof (owns_blocks _ _ _ _ Ho) as Eb. rewrite E, (blocks_cons _ _ _ _ Hx) in Eb. done.
Qed.

(** C26: Every public operation of the allocator refines the specification: from a consistent
    state it ends without following a dangling pointer, changes the free bytes and the
    allocations as specified, answers as specified, and leaves a consistent state. Failures
    that the meta-data allocator causes occur only when fewer than three entries are
    left. *)
Theorem allocator_refines st L c :
  inv st L → valid c →
  ∃ a st' L', perform c st = (Ok a, st') ∧ inv st' L' ∧ spec (reserve (md st) < 3) (view_of L) c a (view_of L').
Proof. apply perform_refines. Qed.

Lemma allocs_apart L a n a' n' :
  wf L → allocated (view_of L) !! a = Some n → allocated (view_of L) !! a' = Some n' → a' ≠ a → range_set a n ## range_set a' n'.
Proof.
  intros Hw Ha Ha' Hne x Hx Hx'. rewrite elem_of_range in Hx, Hx'. cbn in Ha, Ha'. apply allocs_in in Ha; [|done]. apply allocs_in in Ha'; [|done].
  assert (Blk a n USED = Blk a' n' USED) as [= -> _]; [|done]. by apply (wf_unique L _ _ x).
Qed.

(** C27: In every state that calls with [valid] arguments to a new allocator can reach, the allocations are
    non-empty, do not overlap each other or a free byte and do not wrap around the address
    space, free blocks are merged, and there is exactly one meta-data entry per block. *)
Theorem allocations_apart s cs :
  live s = ∅ → Forall valid cs →
  ∃ answers st L, history cs (init s) = (Ok answers, st) ∧ inv st L ∧ base.size (live (md st)) = length L ∧
    (∀ a n, allocated (view_of L) !! a = Some n →
      0 ≤ a ∧ 0 < n ∧ a + n < 2 ^ 64 ∧ range_set a n ## free_set (view_of L) ∧
      ∀ a' n', allocated (view_of L) !! a' = Some n' → a' ≠ a → range_set a n ## range_set a' n').
Proof.
  intros Hl Hv. destruct (history_runs cs (init s) [] (new_allocator_inv s Hl) Hv) as (answers & st & L & R & Hi). exists answers, st, L.
  pose proof Hi as [[T Ho] _]. pose proof (owns_wf _ _ _ _ Ho) as Hw. split_and!; [done|done| |].
  - rewrite (owns_live _ _ _ _ Ho), app_nil_r, size_list_to_set, <- (owns_blocks _ _ _ _ Ho).
    + assert (∀ l, (∀ m, m ∈ l → is_Some (heap st !! m)) → length l = length (blocks (heap st) l)) as Hlen; [|apply Hlen; intros m; by apply (owns_dom _ _ _ _ m Ho)].
      intros l. induction l as [|m l IH]; intros Hd; [done|]. destruct (Hd m) as [x Hx]; [constructor|]. rewrite (blocks_cons _ _ _ _ Hx). cbn. f_equal.
      apply IH. intros n Hn. apply Hd. by constructor.
    + pose proof (owns_nodup _ _ _ _ Ho) as Hn. by rewrite app_nil_r in Hn.
  - intros a n Hat. pose proof Hat as Ha. cbn in Ha. apply allocs_in in Ha; [|done]. destruct (wf_ok _ _ Hw Ha) as (?&?&?). cbn in *. split_and!; [done..| |].
    + intros x Hx Hx'. rewrite elem_of_range in Hx. apply elem_of_free in Hx' as (b & Hb & Hu & Hc).
      assert (Blk a n USED = b) as <-; [|done]. by apply (wf_unique L _ _ x).
    + intros a' n' Ha' Hne. by apply (allocs_apart L a n a' n').
Qed.

(** C36: An aligned allocation succeeds whenever there is a suitable range of free bytes, as
    long as no annotation of the tree is too small and two meta-data entries can be had. *)
Theorem alloc_complete st L size align range a :
  inv st L → annotated (heap st) → 2 ≤ reserve (md st) → request_ok size align range →
  (2 ^ align | a) → start range ≤ a → a + size - 1 ≤ end_ range → range_set a size ⊆ free_set (view_of L) →
  ∃ a' st', alloc_aligned size align range st = (Ok (Ok a'), st').
Proof.
  intros [[T Ho] Hm] Hann Hr Hreq Hal Hst Hend Hsub. pose proof (owns_wf _ _ _ _ Ho) as Hw. pose proof Hreq as (Hs & _).
  destruct (alloc_aligned_run st T L size align range Ho Hm Hreq) as ([a'|e] & st' & T' & L' & R & _ & _ & Hpost); [by exists a', st'|exfalso].
  destruct Hpost as [_ [[_ [[_ Hno]|?]]|[? _]]]; [|lia..].
  destruct (free_in_block L a size Hw Hm Hs) as (b & Hb & Hu & H1 & H2); [intros x Hx; by apply elem_of_free, Hsub, elem_of_range|].
  assert (root ∉ nodes T) as Hroot by (apply (tree_root_notin (bare (heap st)) _ _ (owns_tree _ _ _ _ Ho))).
  destruct (annotated_max (heap st) T _ Hann (owns_rep _ _ _ _ Ho) Hroot) as [Hcov _]. by apply (Hno Hcov b a Hb).
Qed.

Lemma first_finds_free : finds_free (λ b, _used b = false) (lift first).
Proof.
  intros st T L Ho Hu. pose proof (owns_blocks _ _ _ _ Ho) as Eb. exists (root_of T). split; [by rewrite (lift_run first st _ (owns_first _ _ _ _ Ho))|].
  destruct (root_of T) as [n|] eqn:Er.
  - destruct (owns_dom st T [] L n Ho) as [x Hx]; [by apply root_in|]. exists x. split; [done|].
    assert (data x ∈ L) as Hb by (rewrite <- Eb; apply elem_of_blocks; exists n, x; split; [by apply root_in|done]). auto.
  - intros b Hb. rewrite <- Eb in Hb. destruct T; [by apply elem_of_nil in Hb|done].
Qed.

Lemma unused_finds_free :
  finds_free (λ _, True) (lift (λ h, c ← first h; find_any_block FREE (enough h) c h)).
Proof.
  intros st T L Ho _. pose proof (owns_blocks _ _ _ _ Ho) as Eb.
  destruct (find_any_run (heap st) FREE T (enough (heap st)) (Some root)) as (r & R & Hr); [by eapply owns_rep|by eapply owns_fuel|].
  exists r. split; [apply lift_run; by rewrite (owns_first _ _ _ _ Ho)|]. destruct r as [m|].
  - destruct Hr as (Hm & x & Hx & Hu). exists x. split_and!; [done| |done]. rewrite <- Eb. apply elem_of_blocks. by exists m, x.
  - intros b. rewrite <- Eb. intros Hb. specialize (Hr b Hb). by destruct (_used b).
Qed.

Lemma destructor_run st L :
  inv st L → 2 ≤ reserve (md st) → ∃ st', _revert_allocations_and_ranges st = (Ok tt, st') ∧ live (md st') = ∅.
Proof.
  intros [[T Ho] Hm] Hr. pose proof (owns_length _ _ _ _ Ho) as Hlen. pose proof (length_filter (λ b, _used b = true) L) as Hfil.
  destruct (free_dangling_run (2 + base.size (heap st)) st T L Ho Hm Hr) as (st1 & T1 & L1 & R1 & Ho1 & Hm1 & Hr1 & Hu1); [lia|].
  pose proof (owns_length _ _ _ _ Ho1) as Hlen1.
  destruct (revert_loop_run _ _ (2 + base.size (heap st1)) first_finds_free st1 T1 L1 false Ho1 Hm1 Hr1 Hu1) as (b & st2 & T2 & L2 & R2 & Ho2 & _ & _ & HL2 & _); [lia|].
  assert (_revert_block_ranges (lift first) st1 = (Ok b, st2)) as R3 by exact R2.
  assert (L2 = []) as ->. { destruct L2 as [|u L2]; [done|]. exfalso. destruct (proj1 (HL2 u)) as [Hu ?]; [constructor|]. specialize (Hu1 u Hu). congruence. }
  exists st2. split; [|by apply (owns_nothing st2 T2)]. unfold _revert_allocations_and_ranges. mrun R1. by mrun R3.
Qed.

(** Removing the unused ranges leaves the used blocks. *)
Lemma revert_unused_run st L :
  inv st L → 2 ≤ reserve (md st) →
  ∃ r st' L', _revert_unused_ranges st = (Ok r, st') ∧ inv st' L' ∧ 2 ≤ reserve (md st') ∧
    (∀ b, b ∈ L' ↔ b ∈ L ∧ _used b = true) ∧ ((∀ b, b ∈ L → _used b = true) → r = false).
Proof.
  intros [[T Ho] Hm] Hr. pose proof (owns_length _ _ _ _ Ho) as Hlen.
  destruct (revert_loop_run _ _ (2 + base.size (heap st)) unused_finds_free st T L false Ho Hm Hr ltac:(done)) as (r & st' & T' & L' & R & Ho' & Hm' & Hr' & HL & Hf); [lia|].
  exists r, st', L'. split_and!; [exact R|split; [by exists T'|done]|done|done|done].
Qed.

(** The release of empty slab blocks keeps the entries in use, and enough of the others. *)
Definition trims `{Empty_blocks S} : Prop := ∀ s : S,
  live (md_free_empty_blocks s) = live s ∧ (2 ≤ reserve s → 2 ≤ reserve (md_free_empty_blocks s)).

Lemma destroy_runs `{Empty_blocks S} st L :
  trims → inv st L → 2 ≤ reserve (md st) → ∃ st', destroy st = (Ok tt, st') ∧ live (md st') = ∅.
Proof.
  intros Htrim Hi Hr. destruct (revert_unused_run st L Hi Hr) as (r1 & st1 & L1 & R1 & [[T1 Ho1] Hm1] & Hr1 & HL1 & _).
  set (st2 := St (heap st1) (md_free_empty_blocks (md st1))). destruct (Htrim (md st1)) as [Hlive Hres].
  assert (inv st2 L1) as Hi2.
  { split; [|done]. exists T1. apply (owns_heap st1 T1 []); [done|done|by rewrite Hlive, (owns_live _ _ _ _ Ho1)|apply Ho1]. }
  destruct (revert_unused_run st2 L1 Hi2 (Hres Hr1)) as (r3 & st3 & L3 & R3 & Hi3 & Hr3 & _ & Hno).
  assert (r3 = false) as -> by (apply Hno; intros b Hb; by apply HL1 in Hb as [_ ?]).
  destruct (destructor_run st3 L3 Hi3 Hr3) as (st4 & R4 & Hl4). exists st4. split; [|done].
  unfold destroy. mrun R1. assert (release_unused 2 st1 = (Ok tt, st3)) as R2; [|by mrun R2].
  cbn [release_unused]. unfold free_empty_blocks at 1. erewrite bind_ok by reflexivity. fold st2. by mrun R3.
Qed.


End Refinement.

(** ** A bounded pool of meta-data entries *)

(** [room] entries in total, [taken] the ones in use *)
Record pool := Pool { capacity : nat; taken_ids : list id }.

Definition pool_alloc (p : pool) : result Alloc_error id * pool :=
  if (length (taken_ids p) <? capacity p)%nat then
    let i := 1 + foldr Z.max 0 (taken_ids p) in (Ok i, Pool (capacity p) (i :: taken_ids p))
  else (Err OUT_OF_RAM, p).

#[export] Instance pool_metadata : Metadata pool := {|
  md_alloc := pool_alloc;
  md_free i p := Pool (capacity p) (filter (λ j, j ≠ i) (taken_ids p));
  md_backing_store _ := false;
  md_set_backing_store _ p := p |}.

(** A pool has no slab blocks. *)
#[export] Instance pool_empty_blocks : Empty_blocks pool := λ p, p.

Lemma below_max l : ∀ i, i ∈ l → i ≤ foldr Z.max 0 l.
Proof. induction l as [|j l IH]; intros i; [by intros ?%elem_of_nil|]. intros [->|Hi]%elem_of_cons; cbn; [lia|]. specialize (IH i Hi). lia. Qed.

Lemma filter_shorter (l : list id) i : i ∈ l → (length (filter (λ j, j ≠ i) l) < length l)%nat.
Proof.
  intros (l1 & l2 & ->)%list_elem_of_split. rewrite filter_app, filter_cons_False by (intros ?; done). rewrite !length_app. cbn.
  pose proof (length_filter (λ j, j ≠ i) l1). pose proof (length_filter (λ j, j ≠ i) l2). lia.
Qed.

#[export] Program Instance pool_laws : Metadata_laws pool := {|
  live p := list_to_set (filter (λ i, i ≠ root) (taken_ids p));
  reserve p := Z.of_nat (capacity p) - Z.of_nat (length (taken_ids p));
  margin := 0 |}.
Next Obligation. done. Qed.
Next Obligation. intros p Hr. apply elem_of_list_to_set, list_elem_of_filter in Hr as [? _]. done. Qed.
Next Obligation.
  intros p i p'. cbn. unfold pool_alloc. destruct (Nat.ltb_spec (length (taken_ids p)) (capacity p)); [|done]. intros [= <- <-]. cbn [taken_ids capacity length].
  set (i := 1 + foldr Z.max 0 (taken_ids p)). assert (i ∉ taken_ids p) as Hi by (intros Hi%below_max; unfold i in Hi; lia).
  assert (0 ≤ foldr Z.max 0 (taken_ids p)) as H0 by (clear; induction (taken_ids p); cbn; lia). split_and!; [| |lia].
  - intros Hin%elem_of_list_to_set%list_elem_of_filter. tauto.
  - rewrite filter_cons_True by (unfold root, i; lia). apply leibniz_equiv. by rewrite list_to_set_cons.
Qed.
Next Obligation.
  intros p e p'. cbn. unfold pool_alloc. destruct (Nat.ltb_spec (length (taken_ids p)) (capacity p)); [done|]. intros [= _ <-]. split; [done|lia].
Qed.
Next Obligation.
  intros p i. cbn. intros [Hr Hi]%elem_of_list_to_set%list_elem_of_filter. pose proof (filter_shorter _ _ Hi). split; [|lia].
  apply set_eq. intros j. rewrite elem_of_difference, !elem_of_list_to_set, !list_elem_of_filter, elem_of_singleton. tauto.
Qed.
Next Obligation. done. Qed.
Next Obligation. intros p. cbn. lia. Qed.
Next Obligation. intros p. cbn. lia. Qed.

(** ** Example runs *)

Definition demo_pool : pool := Pool 100 [].

(** The answers of some calls to a new allocator *)
Definition answers_of (cs : list call) : result fault (list answer) := (history cs (init demo_pool)).1.

Definition anywhere : Range := Rng 0 (2 ^ 64 - 1).

(** Two ranges that touch, allocations of both kinds, a conflict, a release and queries *)
Definition demo : list call :=
  [Add_range 4096 8192; Add_range 12288 4096; Alloc_aligned 100 3 anywhere; Alloc_addr 4096 8192; Alloc_addr 16 8192; Free 4096; Size_at 8192; Avail].

Example demo_answers : answers_of demo =
  Ok [Done (Ok tt); Done (Ok tt); Got (Ok 4096); Got (Ok 8192); Got (Err DENIED); Nothing; Size (Ok 4096); Bytes 8192].
Proof. by vm_compute. Qed.

Lemma demo_valid : Forall valid demo.
Proof.
  repeat (apply List.Forall_cons; [cbn; unfold request_ok, in_range; cbn; split_and?; (lia || done)|]). apply List.Forall_nil.
Qed.

Lemma demo_inv : inv (init demo_pool) [].
Proof. by apply new_allocator_inv. Qed.

Lemma allocator_refines_witness :
  ∃ st L, inv st L ∧ valid (Alloc_addr 16 4096) ∧
    ∃ a st' L', perform (Alloc_addr 16 4096) st = (Ok a, st') ∧ inv st' L' ∧ spec (reserve (md st) < 3) (view_of L) (Alloc_addr 16 4096) a (view_of L').
Proof.
  destruct (history_runs demo (init demo_pool) [] demo_inv demo_valid) as (answers & st & L & _ & Hi). exists st, L.
  assert (valid (Alloc_addr 16 4096)) as Hv by (cbn; lia). split; [done|]. split; [done|]. exact (allocator_refines st L (Alloc_addr 16 4096) Hi Hv).
Defined.

Lemma allocations_apart_witness :
  live demo_pool = ∅ ∧ Forall valid demo ∧
  ∃ answers st L, history demo (init demo_pool) = (Ok answers, st) ∧ inv st L ∧ base.size (live (md st)) = length L ∧
    (∀ a n, allocated (view_of L) !! a = Some n →
      0 ≤ a ∧ 0 < n ∧ a + n < 2 ^ 64 ∧ range_set a n ## free_set (view_of L) ∧
      ∀ a' n', allocated (view_of L) !! a' = Some n' → a' ≠ a → range_set a n ## range_set a' n').
Proof. split; [done|]. split; [exact demo_valid|]. apply (allocations_apart demo_pool demo); [done|exact demo_valid]. Defined.

Definition after (cs : list call) : state := (history cs (init demo_pool)).2.

Lemma after_inv cs : Forall valid cs → ∃ L, inv (after cs) L.
Proof.
  intros Hv. destruct (history_runs cs (init demo_pool) [] demo_inv Hv) as (answers & st & L & R & Hi). exists L. unfold after. by rewrite R.
Qed.

Lemma pool_trims : trims (S := pool).
Proof. by intros p. Qed.


(** [annotated] as a computation *)
Definition annotated_at (h : tree_heap) (m : id) (x : node Block Z) : bool :=
  (m =? root) || ((avail_of (data x) <=? aux x) &&
    forallb (λ i, match _child i x with Some c => match h !! c with Some y => aux y <=? aux x | None => true end | None => true end) [LEFT; RIGHT]).

Lemma annotated_check h : forallb (λ e, annotated_at h e.1 e.2) (map_to_list h) = true → annotated h.
Proof.
  rewrite forallb_forall. intros Hall m x Hx Hm. specialize (Hall (m, x)). rewrite <- list_elem_of_In, elem_of_map_to_list in Hall. specialize (Hall Hx).
  unfold annotated_at in Hall. cbn [fst snd] in Hall. destruct (Z.eqb_spec m root); [done|]. cbn [orb] in Hall. apply andb_prop in Hall as [Hself Hkids].
  split; [by apply Z.leb_le|]. rewrite forallb_forall in Hkids. intros i c y Hc Hy. specialize (Hkids i). rewrite Hc, Hy in Hkids.
  apply Z.leb_le, Hkids. destruct i; cbn; tauto.
Qed.

(** The state after a single range has been added *)
Lemma added_view base size st :
  0 ≤ base → 0 < size → base + size < 2 ^ 64 → perform (Add_range base size) (init demo_pool) = (Ok (Done (Ok tt)), st) →
  ∃ L, inv st L ∧ view_of L = View (range_set base size) ∅.
Proof.
  intros Hb Hs He R. destruct (perform_refines (init demo_pool) [] (Add_range base size) demo_inv) as (a & st' & L & R' & Hi & Hspec); [cbn; lia|].
  rewrite R in R'. injection R' as <- <-. exists L. split; [done|]. inversion Hspec.
  match goal with E : _ = free_bytes L, E' : _ = allocs L |- _ => unfold view_of; rewrite <- E, <- E' end.
  change (free_bytes []) with (∅ : gset Z). f_equal. apply union_empty_l_L.
Qed.

Lemma alloc_complete_witness :
  ∃ st L, inv st L ∧ annotated (heap st) ∧ 2 ≤ reserve (md st) ∧ request_ok 100 12 anywhere ∧
    (2 ^ 12 | 8192) ∧ start anywhere ≤ 8192 ∧ 8192 + 100 - 1 ≤ end_ anywhere ∧ range_set 8192 100 ⊆ free_set (view_of L) ∧
    ∃ a' st', alloc_aligned 100 12 anywhere st = (Ok (Ok a'), st').
Proof.
  destruct (perform (Add_range 5000 8192) (init demo_pool)) as [r st] eqn:R. vm_compute in R. injection R as <- Est.
  destruct (added_view 5000 8192 st) as (L & Hi & Hv); [lia..| |]; [rewrite <- Est; by vm_compute|].
  assert (annotated (heap st)) as Hann by (apply annotated_check; rewrite <- Est; by vm_compute).
  assert (2 ≤ reserve (md st)) as Hr by (rewrite <- Est; by vm_compute).
  assert (request_ok 100 12 anywhere) as Hreq by (unfold request_ok, in_range, anywhere; cbn; split_and!; lia).
  assert (2 ^ 12 | 8192) as Hal by (by exists 2).
  assert (range_set 8192 100 ⊆ free_set (view_of L)) as Hsub by (rewrite Hv; intros x; cbn [free_set]; rewrite !elem_of_range; lia).
  exists st, L. do 4 (split; [done|]). split; [exact Hal|]. do 2 (split; [cbn; lia|]). split; [exact Hsub|].
  exact (alloc_complete st L 100 12 anywhere 8192 Hi Hann Hr Hreq Hal ltac:(cbn; lia) ltac:(cbn; lia) Hsub).
Defined.

(** ** What the model shows about the code *)

(** A rotation lets the hook of the parent run before the one of the child, and an annotation stays too small:
    the request is denied although the block at 864 is free and has the size. *)
Example annotation_too_small :
  answers_of [Add_range 144 3; Add_range 288 5; Add_range 864 8; Add_range 192 5; Add_range 176 6; Add_range 256 1; Add_range 608 6; Add_range 512 6;
    Remove_range 608 6; Alloc_aligned 7 0 anywhere; Alloc_addr 7 864] =
  Ok [Done (Ok tt); Done (Ok tt); Done (Ok tt); Done (Ok tt); Done (Ok tt); Done (Ok tt); Done (Ok tt); Done (Ok tt); Done (Ok tt);
    Got (Err DENIED); Got (Ok 864)].
Proof. by vm_compute. Qed.

(** [find_best_fit] compares the size of the request, not the one of its own block, with the block below: the
    bytes come from the block of 100 bytes although the one of 20 bytes fits better. *)
Example not_the_best_fit :
  answers_of [Add_range 1000 100; Add_range 2000 20; Alloc_aligned 10 0 anywhere] = Ok [Done (Ok tt); Done (Ok tt); Got (Ok 1000)].
Proof. by vm_compute. Qed.

(** A failing [remove_range] may have removed free bytes. *)
Example remove_range_partly :
  answers_of [Add_range 1000 100; Add_range 2000 100; Alloc_addr 100 2000; Remove_range 1000 1100; Avail] =
  Ok [Done (Ok tt); Done (Ok tt); Got (Ok 2000); Done (Err DENIED); Bytes 0].
Proof. by vm_compute. Qed.

(** The alignment of [range.start] wraps around, and the allocation is outside of the range. *)
Example below_the_range :
  answers_of [Add_range 0 65536; Alloc_aligned 16 12 (Rng (2 ^ 64 - 100) (2 ^ 64 - 1))] = Ok [Done (Ok tt); Got (Ok 0)].
Proof. by vm_compute. Qed.

(** The offset of the end wraps around in [_fits], and a block of 100 bytes yields almost the whole address space. *)
Example larger_than_the_block :
  answers_of [Add_range 0 100; Alloc_aligned (2 ^ 64 - 64) 6 (Rng 64 (2 ^ 64 - 1))] = Ok [Done (Ok tt); Got (Ok 64)].
Proof. by vm_compute. Qed.

(** A range that ends with the address space is merged with a block at address 0, and the bytes of that block
    cannot be found any more. *)
Example merged_around :
  answers_of [Add_range 0 4096; Add_range (2 ^ 64 - 4096) 4096; Valid_addr 0; Alloc_addr 16 0] =
  Ok [Done (Ok tt); Done (Ok tt); Is false; Got (Err DENIED)].
Proof. by vm_compute. Qed.

(** A block of no bytes can be allocated at address 0 but not be freed, and the loop of the destructor does not end. *)
Lemma empty_block_stays :
  let st := after [Add_range 0 100; Alloc_aligned 0 0 anywhere] in ∀ fuel, (free_dangling fuel st).1 = Err Fault.
Proof.
  intros st. assert (any_block_addr st = (Ok (Some 0), st)) as R1 by (vm_compute; reflexivity).
  assert (free 0 st = (Ok tt, st)) as R2 by (vm_compute; reflexivity). clearbody st.
  intros fuel. induction fuel as [|fuel IH]; [done|]. cbn [free_dangling]. mrun R1. by mrun R2.
Qed.

(** Without two meta-data entries, [_revert_unused_ranges] gives up and still says that it has
    found something: the loop of the destructor does not end. *)
Lemma destructor_spins :
  let st := (history [Add_range 0 100] (init (Pool 1 []))).2 in ∀ fuel, (release_unused fuel st).1 = Err Fault.
Proof.
  intros st. assert (free_empty_blocks st = (Ok tt, st)) as R1 by (vm_compute; reflexivity).
  assert (_revert_unused_ranges st = (Ok true, st)) as R2 by (vm_compute; reflexivity). clearbody st.
  intros fuel. induction fuel as [|fuel IH]; [done|]. cbn [release_unused]. mrun R1. by mrun R2.
Qed.
