(* ===== verification/Slab.v ===== *)
(** * Slab: the slab allocator

    Model of [src/repos/base/src/lib/base/slab.cc] and
    [src/repos/base/include/base/slab.h].  Elements of one size live in blocks that form a
    ring; a block starts with its header and a table of one state per element, and each
    element is preceded by a reference to its block.  The memory that the allocator reaches
    is a store of block headers and one of element headers, both by address; a block that is
    given back leaves the store, so that a later access has the result [Err Fault].

    The backing store is an interface.  As it may itself allocate its meta data from the very
    slab that asks it for a block, a call of it is a [Script] of calls back to the slab.  Such
    a nested call may reach the backing store again; the depth of this nesting is the fuel of
    the model, and running out of it is the error [Diverges]. *)

From S2P Require Import Prelude Avl_nodes Avl_trees Allocator_avl.

Inductive fault := Fault | Diverges.

(** ** The backing store *)

(** What a call of the backing store does: it returns, or allocates from or frees to the slab,
    in a state that nested calls of the backing store change. *)
Inductive Script (B R : Type) :=
  | Return (st : B) (r : R)
  | Take (st : B) (size : Z) (k : B → result Alloc_error Z → Script B R)
  | Give (st : B) (addr : Z) (k : B → Script B R).
Arguments Return {B R}.
Arguments Take {B R}.
Arguments Give {B R}.

(** [Allocator] as far as the slab uses it: [try_alloc] and [free] *)
Class Backing (B : Type) := {
  bs_try_alloc : Z → B → Script B (result Alloc_error Z);
  bs_free : Z → Z → B → Script B unit }.

(** ** Blocks and slabs *)

(** [Slab::Block]; [states] is the state table. *)
Record Block := Blk { next : Z; prev : Z; _avail : Z; states : list bool }.

(** The constants of a slab; [_initial_sb] is zero when there is none. *)
Record config := Config { _slab_size : Z; _block_size : Z; _initial_sb : Z }.

(** [sizeof(Block)], [sizeof(Entry)] and [sizeof(umword_t)] *)
Definition sizeof_Block : Z := 32.
Definition sizeof_Entry : Z := 8.
Definition sizeof_umword : Z := 8.

Definition _entries_per_block (c : config) : Z :=
  u64 (u64 (_block_size c - sizeof_Block) - sizeof_umword) / u64 (u64 (_slab_size c + sizeof_Entry) + 1).

(** [Slab]: its members, and the memory that it reaches *)
Record slab (B : Type) := Slab {
  blocks : gmap Z Block; headers : gmap Z Z;
  _nested : bool; _num_blocks : Z; _total_avail : Z; _curr_sb : Z; _backing_store : bool; backing : B }.
Arguments Slab {B}.
Arguments blocks {B}.
Arguments headers {B}.
Arguments _nested {B}.
Arguments _num_blocks {B}.
Arguments _total_avail {B}.
Arguments _curr_sb {B}.
Arguments _backing_store {B}.
Arguments backing {B}.

Section Slab.
Context {B : Type} `{Backing B} (c : config).

Abbreviation prog := (exc (slab B) fault).
Implicit Types (s : slab B) (b : Z).

Definition with_blocks f s : slab B := Slab (f (blocks s)) (headers s) (_nested s) (_num_blocks s) (_total_avail s) (_curr_sb s) (_backing_store s) (backing s).
Definition with_headers f s : slab B := Slab (blocks s) (f (headers s)) (_nested s) (_num_blocks s) (_total_avail s) (_curr_sb s) (_backing_store s) (backing s).
Definition with_nested v s : slab B := Slab (blocks s) (headers s) v (_num_blocks s) (_total_avail s) (_curr_sb s) (_backing_store s) (backing s).
Definition with_counts n t s : slab B := Slab (blocks s) (headers s) (_nested s) n t (_curr_sb s) (_backing_store s) (backing s).
Definition with_curr b s : slab B := Slab (blocks s) (headers s) (_nested s) (_num_blocks s) (_total_avail s) b (_backing_store s) (backing s).
Definition with_attached v s : slab B := Slab (blocks s) (headers s) (_nested s) (_num_blocks s) (_total_avail s) (_curr_sb s) v (backing s).
Definition with_backing st s : slab B := Slab (blocks s) (headers s) (_nested s) (_num_blocks s) (_total_avail s) (_curr_sb s) (_backing_store s) st.

(** [*b], a member of the slab, and the assignments to members of a block *)
Definition block b : prog Block := λ s, match blocks s !! b with Some x => (Ok x, s) | None => (Err Fault, s) end.
Definition get {A} (f : slab B → A) : prog A := λ s, (Ok (f s), s).
Definition set_block b (x : Block) : prog unit := modify (with_blocks <[b := x]>).
Definition set_next b v : prog unit := x ← block b; set_block b (Blk v (prev x) (_avail x) (states x)).
Definition set_prev b v : prog unit := x ← block b; set_block b (Blk (next x) v (_avail x) (states x)).

(** The two functions [backing_store]: the store can be detached, and attached again. *)
Definition backing_store : prog bool := get _backing_store.
Definition set_backing_store (v : bool) : prog unit := modify (with_attached v).

(** ** Slab block *)

(** [Block::avail] *)
Definition avail (x : Block) : Z := u32 (_avail x).

(** The conversion to [int] *)
Definition to_int (z : Z) : Z := let r := u32 z in if r <? 2 ^ 31 then r else r - 2 ^ 32.

Definition slots_start : Z := align_addr (_entries_per_block c) 3.

Definition _slab_entry b (idx : Z) : Z :=
  u64 (b + sizeof_Block + u64 (slots_start + u64 (u64 (sizeof_Entry + _slab_size c) * idx))).

Definition _slab_entry_idx b (e : Z) : Z := to_int (u64 (e - _slab_entry b 0) / u64 (sizeof_Entry + _slab_size c)).

(** The constructor of [Block] at an address *)
Definition construct_block b : prog unit :=
  set_block b (Blk b b (_entries_per_block c) (replicate (Z.to_nat (_entries_per_block c)) FREE)).

(** The index of the first element in a state *)
Fixpoint first_state (v : bool) (l : list bool) (i : Z) : option Z :=
  match l with
  | [] => None
  | x :: l => if eqb x v then Some i else first_state v l (i + 1)
  end.

(** [Block::alloc]; zero stands for the null pointer. *)
Definition block_alloc b : prog Z :=
  x ← block b;
  match first_state FREE (states x) 0 with
  | None => mret 0
  | Some i =>
      let e := _slab_entry b i in
      set_block b (Blk (next x) (prev x) (u64 (_avail x - 1)) (<[Z.to_nat i := USED]> (states x)));;
      modify (with_headers <[e := b]>);;
      mret (u64 (e + sizeof_Entry))
  end.

Definition any_used_entry b : prog Z :=
  x ← block b;
  mret match first_state USED (states x) 0 with Some i => _slab_entry b i | None => 0 end.

(** [Entry::used] for an element of a block, and its destructor with [Block::inc_avail] *)
Definition used b (e : Z) : prog bool :=
  x ← block b;
  let i := _slab_entry_idx b e in
  match (if 0 <=? i then states x !! Z.to_nat i else None) with Some v => mret (eqb v USED) | None => throw Fault end.

Definition destroy_entry b (e : Z) : prog unit :=
  x ← block b;
  set_block b (Blk (next x) (prev x) (u64 (_avail x + 1)) (<[Z.to_nat (_slab_entry_idx b e) := FREE]> (states x))).

(** ** Calls back *)

Fixpoint run {R} (nested_alloc : Z → prog (result Alloc_error Z)) (nested_free : Z → prog unit) (sc : Script B R) : prog R :=
  match sc with
  | Return st r => modify (with_backing st);; mret r
  | Take st size k =>
      modify (with_backing st);;
      r ← nested_alloc size;
      st' ← get backing;
      run nested_alloc nested_free (k st' r)
  | Give st addr k =>
      modify (with_backing st);;
      nested_free addr;;
      st' ← get backing;
      run nested_alloc nested_free (k st')
  end.

(** The memory of a block becomes the one of the backing store. *)
Definition hand_over b : prog unit :=
  modify (λ s, with_headers (filter (λ h, h.2 ≠ b)) (with_blocks (base.delete b) s)).

(** ** The slab *)
Section Nesting.
Variable nested_alloc : Z → prog (result Alloc_error Z).
Variable nested_free : Z → prog unit.

Definition _new_slab_block : prog (result Alloc_error Z) :=
  bs ← get _backing_store;
  if negb bs then mret (Err DENIED)
  else
    st ← get backing;
    r ← run nested_alloc nested_free (bs_try_alloc (_block_size c) st);
    match r with
    | Ok sb => construct_block sb;; mret (Ok sb)
    | Err error => mret (Err error)
    end.

(** A block with used elements is reported, and released nevertheless. *)
Definition _release_backing_store b : prog unit :=
  x ← block b;
  modify (λ s, with_counts (u64 (_num_blocks s - 1)) (u64 (_total_avail s - avail x)) s);;
  bs ← get _backing_store;
  if bs && negb (b =? _initial_sb c) then
    hand_over b;;
    st ← get backing;
    run nested_alloc nested_free (bs_free b (_block_size c) st)
  else mret tt.

Definition _free_curr_sb : prog unit :=
  b ← get _curr_sb;
  x ← block b;
  modify (with_curr (next x));;
  n ← get _num_blocks;
  if n <=? 1 then mret tt
  else
    x ← block b;
    set_next (prev x) (next x);;
    x ← block b;
    set_prev (next x) (prev x);;
    _release_backing_store b.

Definition _insert_sb sb : prog unit :=
  curr ← get _curr_sb;
  set_prev sb curr;;
  x ← block curr;
  set_next sb (next x);;
  x ← block curr;
  set_prev (next x) sb;;
  set_next curr sb;;
  modify (λ s, with_counts (u64 (_num_blocks s + 1)) (u64 (_total_avail s + _entries_per_block c)) s).

Definition _expand : prog (result Alloc_error unit) :=
  bs ← get _backing_store;
  nested ← get _nested;
  if negb bs || nested then mret (Ok tt)
  else
    modify (with_nested true);;
    r ← _new_slab_block;
    res ← match r with
          | Ok sb => _insert_sb sb;; mret (Ok tt)
          | Err error => mret (Err error)
          end;
    modify (with_nested false);;
    mret res.

Definition insert_sb (ptr : Z) : prog unit := construct_block ptr;; _insert_sb ptr.

(** The loop over completely occupied blocks *)
Fixpoint skip_occupied (fuel : nat) (orig_curr_sb : Z) : prog unit :=
  match fuel with
  | O => throw Diverges
  | S fuel =>
      curr ← get _curr_sb;
      x ← block curr;
      if negb (avail x =? 0) || (next x =? orig_curr_sb) then mret tt
      else modify (with_curr (next x));; skip_occupied fuel orig_curr_sb
  end.

Definition try_alloc (size : Z) : prog (result Alloc_error Z) :=
  if _slab_size c <? size then mret (Err DENIED)
  else
    total ← get _total_avail;
    expand_result ← (if total <=? 3 then _expand else mret (Ok tt));
    match expand_result with
    | Err error => mret (Err error)
    | Ok _ =>
        n ← get (λ s, base.size (blocks s));
        orig_curr_sb ← get _curr_sb;
        skip_occupied (1 + n) orig_curr_sb;;
        curr ← get _curr_sb;
        ptr ← block_alloc curr;
        if ptr =? 0 then mret (Err DENIED)
        else modify (λ s, with_counts (_num_blocks s) (u64 (_total_avail s - 1)) s);; mret (Ok ptr)
    end.

(** The loop that releases free blocks *)
Fixpoint release_loop (fuel : nat) : prog unit :=
  match fuel with
  | O => throw Diverges
  | S fuel =>
      s ← get_state;
      x ← block (_curr_sb s);
      if (u64 (2 * _entries_per_block c) <? _total_avail s) && (1 <? _num_blocks s) && (avail x =? _entries_per_block c) && _backing_store s
      then _free_curr_sb;; release_loop fuel
      else mret tt
  end.

(** [_free]; errors that are only reported leave the slab as it is. *)
Definition _free (addr : Z) : prog unit :=
  if addr =? 0 then mret tt
  else
    let e := u64 (addr - sizeof_Entry) in
    s ← get_state;
    match headers s !! e with
    | None => throw Fault
    | Some b =>
        if (addr <? u64 (b + sizeof_Block)) || (u64 (b + _block_size c) <=? addr) then mret tt
        else
          u ← used b e;
          if negb u then mret tt
          else
            destroy_entry b e;;
            modify (λ s, with_counts (_num_blocks s) (u64 (_total_avail s + 1)) s);;
            modify (with_curr b);;
            release_loop (1 + Z.to_nat (_num_blocks s))
    end.

Fixpoint free_empty_loop (n : nat) : prog unit :=
  match n with
  | O => mret tt
  | S n =>
      curr ← get _curr_sb;
      x ← block curr;
      (if negb (curr =? _initial_sb c) && (avail x =? _entries_per_block c) then _free_curr_sb
       else modify (with_curr (next x)));;
      free_empty_loop n
  end.

Definition free_empty_blocks : prog unit := n ← get _num_blocks; free_empty_loop (Z.to_nat n).

(** [~Slab] *)
Fixpoint destroy_loop (fuel : nat) : prog unit :=
  match fuel with
  | O => throw Diverges
  | S fuel =>
      s ← get_state;
      if negb (1 <? _num_blocks s) then mret tt
      else
        (if _curr_sb s =? _initial_sb c then x ← block (_curr_sb s); modify (with_curr (next x)) else mret tt);;
        _free_curr_sb;;
        destroy_loop fuel
  end.

Definition destroy : prog unit :=
  s ← get_state;
  if negb (_backing_store s) then mret tt
  else
    destroy_loop (1 + Z.to_nat (_num_blocks s));;
    curr ← get _curr_sb;
    _release_backing_store curr.

(** The constructor; it throws the error of the backing store, and [DENIED] without any block. *)
Definition init : prog (result Alloc_error unit) :=
  modify (with_curr (_initial_sb c));;
  bs ← get _backing_store;
  r ← (if (_initial_sb c =? 0) && bs then
         r ← _new_slab_block;
         match r with Ok sb => modify (with_curr sb);; mret (Ok tt) | Err error => mret (Err error) end
       else mret (Ok tt));
  match r with
  | Err error => mret (Err error)
  | Ok _ =>
      curr ← get _curr_sb;
      if curr =? 0 then mret (Err DENIED)
      else
        construct_block curr;;
        modify (with_counts 1 (_entries_per_block c));;
        mret (Ok tt)
  end.

End Nesting.

(** The loop over completely free blocks, and a used element *)
Fixpoint skip_free (fuel : nat) : prog unit :=
  match fuel with
  | O => throw Diverges
  | S fuel =>
      curr ← get _curr_sb;
      x ← block curr;
      if negb (avail x =? _entries_per_block c) then mret tt else modify (with_curr (next x));; skip_free fuel
  end.

Definition any_used_elem : prog Z :=
  s ← get_state;
  if _total_avail s =? u64 (_num_blocks s * _entries_per_block c) then mret 0
  else
    skip_free (1 + base.size (blocks s));;
    curr ← get _curr_sb;
    e ← any_used_entry curr;
    mret (if e =? 0 then 0 else u64 (e + sizeof_Entry)).

Definition consumed : prog Z := s ← get_state; mret (u64 (_num_blocks s * _block_size c)).
Definition avail_entries : prog Z := get _total_avail.

(** [try_alloc] and [free] as the backing store calls them, up to a depth of nesting *)
Fixpoint nest (depth : nat) : (Z → prog (result Alloc_error Z)) * (Z → prog unit) :=
  match depth with
  | O => (λ _, throw Diverges, λ _, throw Diverges)
  | S depth => let '(a, f) := nest depth in (try_alloc a f, _free a f)
  end.

(** The depth that the proofs show to be enough *)
Definition at_depth {A} (op : (Z → prog (result Alloc_error Z)) → (Z → prog unit) → prog A) : prog A := λ s,
  let '(a, f) := nest (1 + Z.to_nat (_num_blocks s)) in op a f s.

(** A slab before its constructor has run *)
Definition blank (attached : bool) (st : B) : slab B := Slab ∅ ∅ false 0 0 0 attached st.

End Slab.

(** [overhead] *)
Definition overhead (c : config) : Z := _block_size c / _entries_per_block c.
