(* ===== verification/Slab_ring.v ===== *)
(** * Slab_ring: elements of a block, the ring of blocks, and the invariant of a slab

    Lemmas on the layout of a block, on the circular list that the blocks of a [Slab] form,
    and on the state tables, for [src/repos/base/src/lib/base/slab.cc]; [holds] says that a
    slab has the blocks of a list and that exactly the elements of a set are used. *)

From S2P Require Import Prelude Avl_nodes Avl_trees Allocator_avl Slab.

(** What the code relies on: a block has room for five elements, and its size is that of an
    [int]. *)
Record good (c : config) : Prop := Good {
  good_slab : 0 ≤ _slab_size c;
  good_room : 40 + 5 * (_slab_size c + 9) ≤ _block_size c;
  good_block : _block_size c < 2 ^ 31 }.

(** ** Layout *)
Section Layout.
Context (c : config) (Hg : good c).

Abbreviation E := (_entries_per_block c).

(** The bytes from one element to the next *)
Definition stride : Z := sizeof_Entry + _slab_size c.

Lemma epb_eq : E = (_block_size c - 40) / (_slab_size c + 9).
Proof.
  destruct Hg as [H1 H2 H3]. unfold _entries_per_block, sizeof_Block, sizeof_Entry, sizeof_umword.
  rewrite (wrap_small 64 (_ - 32)), (wrap_small 64 (_ + 8)) by word_lia.
  rewrite (wrap_small 64 (_ - 8)), (wrap_small 64 (_ + 1)) by word_lia. f_equal; lia.
Qed.

Lemma epb_bounds : 5 ≤ E ∧ E * (_slab_size c + 9) ≤ _block_size c - 40 ∧ E < 2 ^ 31.
Proof.
  destruct Hg as [H1 H2 H3]. rewrite epb_eq. pose proof (Z.div_le_lower_bound (_block_size c - 40) (_slab_size c + 9) 5).
  pose proof (Z.mul_div_le (_block_size c - 40) (_slab_size c + 9)). nia.
Qed.

Lemma slots_start_bounds : E ≤ slots_start c ≤ E + 7 ∧ (8 | slots_start c).
Proof.
  destruct epb_bounds as (He & _ & Hx). unfold slots_start, align_addr. change (u64 (u64 (Z.shiftl 1 3) - 1)) with (u64 (2 ^ 3 - 1)).
  rewrite (wrap_small 64 (E + _)) by (change (u64 (2 ^ 3 - 1)) with 7; word_lia). rewrite land_align_down by (change (u64 (2 ^ 3 - 1)) with 7; word_lia).
  change (u64 (2 ^ 3 - 1)) with 7. change (2 ^ 3) with 8. pose proof (Z.div_mod (E + 7) 8). pose proof (Z.mod_pos_bound (E + 7) 8).
  split; [lia|]. by exists ((E + 7) / 8).
Qed.

(** A block lies in the address space. *)
Definition block_fits (b : Z) : Prop := 0 < b ∧ b + _block_size c < 2 ^ 64.

Definition elem (b i : Z) : Z := b + sizeof_Block + slots_start c + stride * i + sizeof_Entry.

Lemma elem_bounds b i : 0 ≤ i < E → b + sizeof_Block + E + 8 ≤ elem b i ∧ elem b i + _slab_size c < b + _block_size c.
Proof.
  destruct Hg as [H1 H2 H3]. destruct epb_bounds as (? & ? & _). destruct slots_start_bounds as [? _].
  unfold elem, stride, sizeof_Block, sizeof_Entry. nia.
Qed.

Lemma slab_entry_eq b i : block_fits b → 0 ≤ i < E → _slab_entry c b i = elem b i - sizeof_Entry.
Proof.
  intros [Hb Hb'] Hi. pose proof (elem_bounds b i Hi) as He. destruct Hg as [H1 H2 H3]. destruct epb_bounds as (? & ? & _). destruct slots_start_bounds as [? _].
  assert (0 ≤ (8 + _slab_size c) * i) by nia. unfold _slab_entry, elem, stride, sizeof_Block, sizeof_Entry in *.
  rewrite (wrap_small 64 (8 + _)), (wrap_small 64 (_ * i)), (wrap_small 64 (slots_start c + _)), wrap_small by word_lia. lia.
Qed.

Lemma slab_entry_data b i : block_fits b → 0 ≤ i < E → u64 (_slab_entry c b i + sizeof_Entry) = elem b i.
Proof.
  intros Hb Hi. rewrite slab_entry_eq by done. pose proof (elem_bounds b i Hi). pose proof epb_bounds. pose proof (good_slab c Hg). destruct Hb.
  unfold sizeof_Entry, sizeof_Block in *. rewrite wrap_small; word_lia.
Qed.

Lemma elem_entry b i : block_fits b → 0 ≤ i < E → u64 (elem b i - sizeof_Entry) = _slab_entry c b i.
Proof.
  intros Hb Hi. rewrite slab_entry_eq by done. pose proof (elem_bounds b i Hi). pose proof epb_bounds. pose proof (good_slab c Hg). destruct Hb.
  apply wrap_small. unfold sizeof_Entry, sizeof_Block in *. word_lia.
Qed.

Lemma slab_entry_idx_eq b i : block_fits b → 0 ≤ i < E → _slab_entry_idx c b (_slab_entry c b i) = i.
Proof.
  intros Hb Hi. pose proof epb_bounds as (He & Hm & Hx). pose proof (good_slab c Hg). pose proof (good_block c Hg). pose proof (elem_bounds b i Hi).
  unfold _slab_entry_idx. rewrite !slab_entry_eq by (done || lia). unfold elem, stride in *. replace (_ - _) with ((sizeof_Entry + _slab_size c) * i) by lia.
  assert (0 ≤ (sizeof_Entry + _slab_size c) * i < 2 ^ 63) by (unfold sizeof_Entry, sizeof_Block in *; nia).
  rewrite (wrap_small 64 (_ * i)) by word_lia. rewrite (wrap_small 64 (_ + _)) by (unfold sizeof_Entry; word_lia).
  rewrite Z.mul_comm, Z.div_mul by (unfold sizeof_Entry; lia). unfold to_int. rewrite wrap_small by word_lia. destruct (Z.ltb_spec i (2 ^ 31)); lia.
Qed.

(** Two blocks share no memory. *)
Definition apart (b b' : Z) : Prop := b + _block_size c ≤ b' ∨ b' + _block_size c ≤ b.

Lemma elem_inj b b' i i' : 0 ≤ i < E → 0 ≤ i' < E → b = b' ∨ apart b b' → elem b i = elem b' i' → b = b' ∧ i = i'.
Proof.
  intros Hi Hi' Hb He. pose proof (elem_bounds b i Hi). pose proof (elem_bounds b' i' Hi'). pose proof epb_bounds. pose proof (good_slab c Hg).
  unfold apart, sizeof_Block in *. assert (b = b') as <- by lia. split; [done|]. unfold elem, stride, sizeof_Entry in He. nia.
Qed.

End Layout.

(** ** State tables *)

Lemma first_state_some v l : ∀ i k, first_state v l i = Some k → ∃ n, k = i + Z.of_nat n ∧ l !! n = Some v.
Proof.
  induction l as [|x l IH]; intros i k; [done|]. cbn. destruct (eqb x v) eqn:Ev.
  - intros [= <-]. apply eqb_prop in Ev as ->. exists O. split; [lia|done].
  - intros Hk. destruct (IH _ _ Hk) as (n & -> & Hn). exists (S n). split; [lia|done].
Qed.

Lemma first_state_none v l : ∀ i, first_state v l i = None → v ∉ l.
Proof.
  induction l as [|x l IH]; intros i; [intros _; apply not_elem_of_nil|]. cbn. destruct (eqb x v) eqn:Ev; [done|].
  intros Hn%IH [->|?]%elem_of_cons; [by rewrite eqb_reflx in Ev|done].
Qed.

(** The number of free elements of a state table *)
Definition free_in (l : list bool) : Z := Z.of_nat (length (filter (λ v, v = FREE) l)).

Lemma free_in_cons v l : free_in (v :: l) = (if v then 0 else 1) + free_in l.
Proof. unfold free_in. destruct v; [by rewrite filter_cons_False|rewrite filter_cons_True by done; cbn [length]; lia]. Qed.

Lemma free_in_insert l n v : l !! n = Some (negb v) → free_in (<[n := v]> l) = free_in l + (if v then -1 else 1).
Proof.
  revert n. induction l as [|x l IH]; intros n; [done|]. destruct n as [|n].
  - intros [= ->]. change (<[0%nat:=v]> (negb v :: l)) with (v :: l). rewrite !free_in_cons. destruct v; cbn; lia.
  - intros Hn. change (<[S n:=v]> (x :: l)) with (x :: <[n:=v]> l). rewrite !free_in_cons, IH by done. lia.
Qed.

Lemma free_in_pos l n : l !! n = Some FREE → 0 < free_in l.
Proof.
  intros Hn. unfold free_in. assert (FREE ∈ filter (λ v, v = FREE) l) as Hin by (apply list_elem_of_filter; split; [done|by eapply list_elem_of_lookup_2]).
  destruct (filter _ l); [by apply elem_of_nil in Hin|cbn; lia].
Qed.

Lemma free_in_le l : 0 ≤ free_in l ≤ Z.of_nat (length l).
Proof. unfold free_in. pose proof (length_filter (λ v, v = FREE) l). lia. Qed.

Lemma free_in_replicate n : free_in (replicate n FREE) = Z.of_nat n.
Proof. induction n as [|n IH]; [done|]. cbn [replicate]. rewrite free_in_cons, IH. cbn. lia. Qed.

Lemma free_in_full l : free_in l = Z.of_nat (length l) → USED ∉ l.
Proof.
  induction l as [|x l IH]; [intros _; apply not_elem_of_nil|]. rewrite free_in_cons. pose proof (free_in_le l). cbn [length].
  destruct x; [lia|]. intros He [Hx|Hx]%elem_of_cons; [done|]. by apply IH; [lia|].
Qed.

Lemma free_in_zero l : free_in l = 0 → FREE ∉ l.
Proof. intros Hl (n & Hn)%list_elem_of_lookup. apply free_in_pos in Hn. lia. Qed.

(** ** The ring *)

Abbreviation store := (gmap Z Block).

Definition hd_z (l : list Z) (d : Z) : Z := match l with [] => d | b :: _ => b end.
Definition last_z (d : Z) (l : list Z) : Z := default d (last l).

Fixpoint chain (h : store) (p : Z) (l : list Z) (n : Z) : Prop :=
  match l with
  | [] => True
  | b :: l => (∃ x, h !! b = Some x ∧ next x = hd_z l n ∧ prev x = p) ∧ chain h b l n
  end.

Definition ring (h : store) (l : list Z) : Prop := chain h (last_z 0 l) l (hd_z l 0).

Lemma hd_z_app l k d : hd_z (l ++ k) d = hd_z l (hd_z k d).
Proof. by destruct l. Qed.

Lemma last_z_app d l k : last_z d (l ++ k) = last_z (last_z d l) k.
Proof. unfold last_z. rewrite last_app. by destruct (last k). Qed.

Lemma last_z_cons d b l : last_z d (b :: l) = last_z b l.
Proof. apply (last_z_app d [b] l). Qed.

Lemma last_z_snoc d b l : last_z d (l ++ [b]) = b.
Proof. by rewrite last_z_app. Qed.

Lemma last_z_in d l : l ≠ [] → last_z d l ∈ l.
Proof. destruct l as [|? ? _] using rev_ind; [done|]. intros _. rewrite last_z_snoc. set_solver. Qed.

#[export] Hint Rewrite hd_z_app last_z_app last_z_cons last_z_snoc : ring.

Lemma chain_app h p l k n : chain h p (l ++ k) n ↔ chain h p l (hd_z k n) ∧ chain h (last_z p l) k n.
Proof.
  revert p. induction l as [|b l IH]; intros p; cbn; [unfold last_z; cbn; tauto|].
  rewrite IH, hd_z_app, last_z_cons. tauto.
Qed.

(** Only the links of the members matter. *)
Definition same_links (h h' : store) (l : list Z) : Prop :=
  ∀ b x, b ∈ l → h !! b = Some x → ∃ y, h' !! b = Some y ∧ next y = next x ∧ prev y = prev x.

Lemma chain_same h h' p l n : same_links h h' l → chain h p l n → chain h' p l n.
Proof.
  revert p. induction l as [|b l IH]; intros p Hs; [done|]. cbn. intros [(x & Hx & Hn & Hp) Hc]. split.
  - destruct (Hs b x) as (y & Hy & ? & ?); [constructor|done|]. exists y. split; [done|]. split; congruence.
  - apply IH; [|done]. intros b' x' Hb'. apply Hs. by constructor.
Qed.

Lemma ring_same h h' l : same_links h h' l → ring h l → ring h' l.
Proof. apply chain_same. Qed.

Lemma ring_rotate h b l : ring h (b :: l) ↔ ring h (l ++ [b]).
Proof.
  unfold ring. rewrite last_z_cons, last_z_snoc. cbn [hd_z]. rewrite chain_app. cbn.
  destruct l as [|b' l]; cbn; unfold last_z; cbn; tauto.
Qed.

Lemma ring_curr h b l : ring h (b :: l) → ∃ x, h !! b = Some x ∧ next x = hd_z l b ∧ prev x = last_z b l.
Proof. intros [(x & Hx & Hn & Hp) _]. exists x. rewrite last_z_cons in Hp. done. Qed.

Lemma ring_lookup h l b : ring h l → b ∈ l → is_Some (h !! b).
Proof.
  unfold ring. generalize (last_z 0 l) (hd_z l 0). induction l as [|b' l IH]; intros p n; [by intros _ ?%elem_of_nil|].
  intros [(x & Hx & _) Hc] [->|Hb]%elem_of_cons; [done|]. by apply (IH _ _ Hc).
Qed.

Lemma same_links_insert h l b x : b ∉ l → same_links h (<[b := x]> h) l.
Proof. intros Hb b' y Hb' Hy. exists y. rewrite lookup_insert_ne by (intros ->; done). done. Qed.

Lemma same_links_trans h h' h'' l : same_links h h' l → same_links h' h'' l → same_links h h'' l.
Proof. intros H1 H2 b x Hb Hx. destruct (H1 b x Hb Hx) as (y & Hy & ? & ?). destruct (H2 b y Hb Hy) as (z & Hz & ? & ?). exists z. split_and!; congruence. Qed.

Lemma same_links_delete h l b : b ∉ l → same_links h (base.delete b h) l.
Proof. intros Hb b' y Hb' Hy. exists y. rewrite lookup_delete_ne by (intros ->; done). done. Qed.

(** A change of the block outside its links *)
Lemma same_links_update h l b x y : h !! b = Some x → next y = next x → prev y = prev x → same_links h (<[b := y]> h) l.
Proof.
  intros Hb Hn Hp b' z _ Hz. destruct (decide (b' = b)) as [->|Hne].
  - exists y. rewrite lookup_insert_eq. split_and!; [done|congruence..].
  - exists z. by rewrite lookup_insert_ne.
Qed.

(** The memory of a block apart from the links *)
Definition same_data (h h' : store) : Prop :=
  ∀ b, (λ x, (_avail x, states x)) <$> h !! b = (λ x, (_avail x, states x)) <$> h' !! b.

Lemma same_data_insert h b x y : h !! b = Some x → _avail y = _avail x → states y = states x → same_data h (<[b := y]> h).
Proof.
  intros Hb Ha Hs b'. destruct (decide (b' = b)) as [->|Hne]; [rewrite lookup_insert_eq, Hb; cbn; congruence|by rewrite lookup_insert_ne].
Qed.

Lemma same_data_trans h h' h'' : same_data h h' → same_data h' h'' → same_data h h''.
Proof. intros H1 H2 b. by rewrite (H1 b). Qed.

(** Assignments at the ends of a chain *)
Lemma chain_set_first h p p' b l n x y :
  b ∉ l → h !! b = Some x → next y = next x → prev y = p' → chain h p (b :: l) n → chain (<[b := y]> h) p' (b :: l) n.
Proof.
  intros Hb Hx Hn Hp [(x' & Hx' & Hn' & _) Hc]. cbn. split.
  - exists y. rewrite lookup_insert_eq. split_and!; congruence.
  - apply (chain_same h); [|done]. by apply same_links_insert.
Qed.

Lemma chain_set_last h p b l n n' x y :
  b ∉ l → h !! b = Some x → next y = n' → prev y = prev x → chain h p (l ++ [b]) n → chain (<[b := y]> h) p (l ++ [b]) n'.
Proof.
  intros Hb Hx Hn Hp. rewrite !chain_app. cbn. intros [Hc [(x' & Hx' & _ & Hp') _]]. split.
  - apply (chain_same h); [|done]. by apply same_links_insert.
  - split; [|done]. exists y. rewrite lookup_insert_eq. split_and!; congruence.
Qed.

Definition avail_at (h : store) (b : Z) : Z := from_option _avail 0 (h !! b).
Definition sum_avail (h : store) (l : list Z) : Z := foldr (λ b n, avail_at h b + n) 0 l.

Lemma sum_avail_app h l k : sum_avail h (l ++ k) = sum_avail h l + sum_avail h k.
Proof. unfold sum_avail. induction l as [|b l IH]; cbn; lia. Qed.

Lemma sum_avail_same h h' l : (∀ b, b ∈ l → avail_at h' b = avail_at h b) → sum_avail h' l = sum_avail h l.
Proof.
  unfold sum_avail. induction l as [|b l IH]; intros Hs; [done|]. cbn. rewrite IH by (intros; apply Hs; by constructor).
  rewrite (Hs b) by constructor. lia.
Qed.

Lemma sum_avail_insert h l b y : NoDup l → b ∈ l → sum_avail (<[b := y]> h) l = sum_avail h l + (_avail y - avail_at h b).
Proof.
  intros Hd (l1 & l2 & ->)%list_elem_of_split. apply NoDup_app in Hd as (_ & H1 & [H2 _]%NoDup_cons). rewrite !sum_avail_app.
  change (sum_avail ?h (b :: l2)) with (avail_at h b + sum_avail h l2).
  rewrite (sum_avail_same h (<[b := y]> h) l1), (sum_avail_same h (<[b := y]> h) l2).
  - unfold avail_at at 1. rewrite lookup_insert_eq. cbn. lia.
  - intros b' Hb'. unfold avail_at. rewrite lookup_insert_ne; [done|]. by intros ->.
  - intros b' Hb'. unfold avail_at. rewrite lookup_insert_ne; [done|]. intros ->. apply (H1 b' Hb'). constructor.
Qed.

(** ** Disjoint blocks fit into the address space *)

Lemma nodup_bounded (l : list Z) (n : Z) : NoDup l → (∀ i, i ∈ l → 0 ≤ i < n) → Z.of_nat (length l) ≤ Z.max 0 n.
Proof.
  intros Hd Hb. assert (length l ≤ length (seqZ 0 n))%nat as Hl; [|rewrite length_seqZ in Hl; lia].
  apply submseteq_length, NoDup_submseteq; [done|]. intros i Hi. apply elem_of_seqZ. specialize (Hb i Hi). lia.
Qed.

Lemma packing c l :
  good c → NoDup l → (∀ b, b ∈ l → block_fits c b) → (∀ b b', b ∈ l → b' ∈ l → b = b' ∨ apart c b b') →
  Z.of_nat (length l) * _block_size c ≤ 2 ^ 64.
Proof.
  intros Hg Hd Hf Ha. pose proof (good_slab c Hg). pose proof (good_room c Hg). set (w := _block_size c) in *.
  assert (NoDup ((λ b, b / w) <$> l)) as Hd'.
  { clear Hf. induction Hd as [|b l Hb Hd IH]; [constructor|]. cbn. constructor.
    - intros (b' & Hq & Hb')%list_elem_of_fmap. destruct (Ha b b') as [->|Hap]; [constructor|by constructor|done|].
      pose proof (Z.div_mod b w). pose proof (Z.mod_pos_bound b w). pose proof (Z.div_mod b' w). pose proof (Z.mod_pos_bound b' w). unfold apart in Hap. change (_block_size c) with w in Hap. nia.
    - apply IH. intros x y Hx Hy. apply Ha; by constructor. }
  pose proof (nodup_bounded _ (2 ^ 64 / w) Hd') as Hn. rewrite length_fmap in Hn.
  assert (0 ≤ 2 ^ 64 / w) by (apply Z.div_pos; lia). pose proof (Z.mul_div_le (2 ^ 64) w). enough (Z.of_nat (length l) ≤ 2 ^ 64 / w) by nia.
  rewrite Z.max_r in Hn by lia. apply Hn. intros i (b & -> & Hb)%list_elem_of_fmap. destruct (Hf b Hb) as [? Hw]. change (_block_size c) with w in Hw.
  pose proof (Z.div_pos b w). split; [lia|]. pose proof (Z.div_mod b w). pose proof (Z.mod_pos_bound b w).
  enough (b / w + 1 ≤ 2 ^ 64 / w) by lia. apply Z.div_le_lower_bound; nia.
Qed.

(** ** The invariant *)

(** The elements that are used *)
Definition used_elem (c : config) (h : store) (a : Z) : Prop :=
  ∃ b x n, h !! b = Some x ∧ states x !! n = Some USED ∧ a = elem c b (Z.of_nat n).

Definition block_ok (c : config) (b : Z) (x : Block) : Prop :=
  block_fits c b ∧ Z.of_nat (length (states x)) = _entries_per_block c ∧ _avail x = free_in (states x).

(** The ring consists of [l], starting at the current block, and the used elements are [X]; a
    block that has left the ring without being given back is the initial one. *)
Record holds {B} (c : config) (s : slab B) (l : list Z) (X : gset Z) : Prop := Holds {
  h_nodup : NoDup l;
  h_ring : ring (blocks s) l;
  h_curr : ∃ l', l = _curr_sb s :: l';
  h_block : ∀ b x, blocks s !! b = Some x → block_ok c b x;
  h_apart : ∀ b b', is_Some (blocks s !! b) → is_Some (blocks s !! b') → b = b' ∨ apart c b b';
  h_spare : ∀ b x, blocks s !! b = Some x → b ∈ l ∨ b = _initial_sb c ∧ _avail x = _entries_per_block c;
  h_headers : ∀ b x n, blocks s !! b = Some x → states x !! n = Some USED → headers s !! _slab_entry c b (Z.of_nat n) = Some b;
  h_used : ∀ a, a ∈ X ↔ used_elem c (blocks s) a;
  h_num : _num_blocks s = Z.of_nat (length l);
  h_total : _total_avail s = sum_avail (blocks s) l }.
