(* ===== verification/Slab_ops.v ===== *)
(** * Slab_ops: what the operations on blocks do to the invariant

    The lemmas of this file run the parts of [src/repos/base/src/lib/base/slab.cc] that do
    not call the backing store on a slab whose invariant is [holds], and say how the list of
    blocks and the set of used elements change. *)

From S2P Require Import Prelude Avl_nodes Avl_trees Allocator_avl Slab Slab_ring.

Section Ops.
Context {B : Type} `{Backing B} (c : config) (Hg : good c).

Abbreviation E := (_entries_per_block c).
Implicit Types (s : slab B) (l : list Z) (X : gset Z).

Lemma block_get_run s b x : blocks s !! b = Some x → block b s = (Ok x, s).
Proof. intros Hb. unfold block. by rewrite Hb. Qed.

Lemma set_next_run s b v x : blocks s !! b = Some x → set_next b v s = (Ok tt, with_blocks <[b := Blk v (prev x) (_avail x) (states x)]> s).
Proof. intros Hb. unfold set_next. by mrun (block_get_run s b x Hb). Qed.

Lemma set_prev_run s b v x : blocks s !! b = Some x → set_prev b v s = (Ok tt, with_blocks <[b := Blk (next x) v (_avail x) (states x)]> s).
Proof. intros Hb. unfold set_prev. by mrun (block_get_run s b x Hb). Qed.

Section Facts.
Context s l X (Hh : holds c s l X).

Lemma holds_in b : b ∈ l → ∃ x, blocks s !! b = Some x ∧ block_ok c b x.
Proof.
  intros Hb. destruct (ring_lookup _ _ _ (h_ring _ _ _ _ Hh) Hb) as [x Hx]. exists x. split; [done|]. exact (h_block _ _ _ _ Hh b x Hx).
Qed.

Lemma holds_avail b x : blocks s !! b = Some x → 0 ≤ _avail x ≤ E ∧ avail x = _avail x.
Proof.
  intros Hx. destruct (h_block _ _ _ _ Hh b x Hx) as (_ & Hl & Ha). pose proof (free_in_le (states x)). pose proof (epb_bounds c Hg).
  split; [lia|]. apply wrap_small. word_lia.
Qed.

Lemma sum_avail_bounds k : (∀ b, b ∈ k → is_Some (blocks s !! b)) → 0 ≤ sum_avail (blocks s) k ≤ Z.of_nat (length k) * E.
Proof.
  induction k as [|b k IH]; intros Hk; [cbn; lia|]. change (sum_avail ?h (b :: k)) with (avail_at h b + sum_avail h k). cbn [length].
  destruct (Hk b) as [x Hx]; [constructor|]. unfold avail_at. rewrite Hx. cbn [from_option]. destruct (holds_avail b x Hx) as [? _].
  destruct IH as [? ?]; [intros b' Hb'; apply Hk; by constructor|]. lia.
Qed.

Lemma holds_bounds : 1 ≤ _num_blocks s < 2 ^ 58 ∧ 0 ≤ _total_avail s ≤ _num_blocks s * E ∧ _num_blocks s * E < 2 ^ 62.
Proof.
  pose proof (packing c l Hg (h_nodup _ _ _ _ Hh)) as Hp. rewrite (h_num _ _ _ _ Hh), (h_total _ _ _ _ Hh).
  pose proof (epb_bounds c Hg) as (? & ? & _). pose proof (good_slab c Hg). pose proof (good_room c Hg).
  assert (Z.of_nat (length l) * _block_size c ≤ 2 ^ 64) as Hb.
  { apply Hp; intros b; [intros (x & _ & Hx & _)%holds_in; exact Hx|]. intros b' (x & Hx & _)%holds_in (x' & Hx' & _)%holds_in. by apply (h_apart _ _ _ _ Hh). }
  destruct (h_curr _ _ _ _ Hh) as [l' Hl]. assert (1 ≤ Z.of_nat (length l)) by (rewrite Hl; cbn [length]; lia).
  pose proof (sum_avail_bounds l) as Hs. assert (Z.of_nat (length l) < 2 ^ 58) by nia.
  assert (Z.of_nat (length l) * E < 2 ^ 62) by nia. split; [lia|]. split; [|done]. apply Hs. intros b (x & Hx & _)%holds_in. by exists x.
Qed.

Lemma holds_fuel : (length l ≤ base.size (blocks s))%nat.
Proof.
  rewrite <- size_dom, <- (size_list_to_set (C := gset Z) l) by exact (h_nodup _ _ _ _ Hh). apply subseteq_size. intros b Hb.
  apply elem_of_list_to_set in Hb. apply elem_of_dom. exact (ring_lookup _ _ _ (h_ring _ _ _ _ Hh) Hb).
Qed.

(** An element in a state *)
Lemma holds_slot b x n v : blocks s !! b = Some x → states x !! n = Some v → 0 ≤ Z.of_nat n < E.
Proof. intros Hx Hn. destruct (h_block _ _ _ _ Hh b x Hx) as (_ & Hl & _). apply lookup_lt_Some in Hn. lia. Qed.

Lemma used_unique b x n b' x' n' :
  blocks s !! b = Some x → is_Some (states x !! n) → blocks s !! b' = Some x' → is_Some (states x' !! n') →
  elem c b (Z.of_nat n) = elem c b' (Z.of_nat n') → b = b' ∧ n = n'.
Proof.
  intros Hx [v Hn] Hx' [v' Hn'] He. destruct (elem_inj c Hg b b' (Z.of_nat n) (Z.of_nat n')) as [? ?]; [..|done|split; [done|lia]].
  - by apply (holds_slot b x n v). - by apply (holds_slot b' x' n' v'). - by apply (h_apart _ _ _ _ Hh).
Qed.

Lemma used_in_ring b x n : blocks s !! b = Some x → states x !! n = Some USED → b ∈ l.
Proof.
  intros Hx Hn. destruct (h_spare _ _ _ _ Hh b x Hx) as [?|[_ Ha]]; [done|]. destruct (h_block _ _ _ _ Hh b x Hx) as (_ & Hl & Hf).
  destruct (free_in_full (states x)); [lia|]. by eapply list_elem_of_lookup_2.
Qed.

End Facts.

(** ** The ring *)

(** A different order of the ring, and other links that represent it *)
Lemma holds_relink s s' l l' X :
  holds c s l X → same_data (blocks s) (blocks s') → ring (blocks s') l' → l ≡ₚ l' → (∃ k, l' = _curr_sb s' :: k) →
  headers s' = headers s → _num_blocks s' = _num_blocks s → _total_avail s' = _total_avail s → holds c s' l' X.
Proof.
  intros Hh Hd Hr Hp Hc Hhd Hn Ht.
  assert (∀ b y, blocks s' !! b = Some y → ∃ x, blocks s !! b = Some x ∧ _avail x = _avail y ∧ states x = states y) as Hback.
  { intros b y Hy. specialize (Hd b). rewrite Hy in Hd. destruct (blocks s !! b) as [x|]; [|done]. cbn in Hd. injection Hd as ? ?. by exists x. }
  assert (∀ b x, blocks s !! b = Some x → ∃ y, blocks s' !! b = Some y ∧ _avail x = _avail y ∧ states x = states y) as Hforth.
  { intros b x Hx. specialize (Hd b). rewrite Hx in Hd. destruct (blocks s' !! b) as [y|]; [|done]. cbn in Hd. injection Hd as ? ?. by exists y. }
  split.
  - rewrite <- Hp. exact (h_nodup _ _ _ _ Hh).
  - done.
  - done.
  - intros b y (x & Hx & Ha & Hs)%Hback. unfold block_ok. rewrite <- Ha, <- Hs. exact (h_block _ _ _ _ Hh b x Hx).
  - intros b b' [y (x & Hx & _)%Hback] [y' (x' & Hx' & _)%Hback]. by apply (h_apart _ _ _ _ Hh).
  - intros b y (x & Hx & Ha & Hs)%Hback. rewrite <- Hp, <- Ha. exact (h_spare _ _ _ _ Hh b x Hx).
  - intros b y n (x & Hx & _ & Hs)%Hback Hn'. rewrite Hhd. rewrite <- Hs in Hn'. exact (h_headers _ _ _ _ Hh b x n Hx Hn').
  - intros a. rewrite (h_used _ _ _ _ Hh). split.
    + intros (b & x & n & (y & Hy & _ & Hs)%Hforth & Hu & ->). exists b, y, n. by rewrite <- Hs.
    + intros (b & y & n & (x & Hx & _ & Hs)%Hback & Hu & ->). exists b, x, n. by rewrite Hs.
  - rewrite Hn, (h_num _ _ _ _ Hh). by rewrite Hp.
  - rewrite Ht, (h_total _ _ _ _ Hh). transitivity (sum_avail (blocks s) l').
    + clear -Hp. induction Hp; cbn [sum_avail foldr] in *; unfold sum_avail in *; cbn [foldr]; lia.
    + symmetry. apply sum_avail_same. intros b _. unfold avail_at. specialize (Hd b).
      destruct (blocks s !! b), (blocks s' !! b); cbn in *; congruence.
Qed.

Lemma same_data_refl h : same_data h h.
Proof. done. Qed.

(** [_curr_sb] moves on. *)
Lemma holds_rotate s l X b : holds c s (b :: l) X → holds c (with_curr (hd_z l b) s) (l ++ [b]) X.
Proof.
  intros Hh. apply (holds_relink s _ (b :: l)); [done|done| |by rewrite Permutation_cons_append| |done..].
  - apply ring_rotate, (h_ring _ _ _ _ Hh).
  - destruct l as [|b' l]; cbn; eauto.
Qed.

(** [_curr_sb] becomes another member. *)
Lemma ring_rotate_app h l1 l2 : ring h (l1 ++ l2) ↔ ring h (l2 ++ l1).
Proof.
  revert l2. induction l1 as [|b l1 IH]; intros l2; [by rewrite app_nil_r|]. cbn [app]. rewrite ring_rotate, <- app_assoc, IH. by rewrite <- app_assoc.
Qed.

Lemma holds_curr s l X b : holds c s l X → b ∈ l → ∃ k, holds c (with_curr b s) (b :: k) X ∧ l ≡ₚ b :: k.
Proof.
  intros Hh (l1 & l2 & ->)%list_elem_of_split. exists (l2 ++ l1). assert (l1 ++ b :: l2 ≡ₚ b :: l2 ++ l1) as Hp by (rewrite Permutation_app_comm; done).
  split; [|done]. apply (holds_relink s _ (l1 ++ b :: l2)); [done|done| |done|by eexists|done..].
  apply (ring_rotate_app _ l1 (b :: l2)), (h_ring _ _ _ _ Hh).
Qed.

Lemma curr_block s l X : holds c s l X → ∃ k x, l = _curr_sb s :: k ∧ blocks s !! _curr_sb s = Some x ∧ next x = hd_z k (_curr_sb s) ∧ prev x = last_z (_curr_sb s) k.
Proof. intros Hh. destruct (h_curr _ _ _ _ Hh) as [k ->]. destruct (ring_curr _ _ _ (h_ring _ _ _ _ Hh)) as (x & ?). by exists k, x. Qed.

(** ** Elements *)

(** An element changes its state. *)
Lemma holds_mark s l X b x n (v : bool) :
  holds c s l X → b ∈ l → blocks s !! b = Some x → states x !! n = Some (negb v) →
  let d := if v then -1 else 1 in
  holds c (Slab (<[b := Blk (next x) (prev x) (_avail x + d) (<[n := v]> (states x))]> (blocks s))
    (if v then <[_slab_entry c b (Z.of_nat n) := b]> (headers s) else headers s) (_nested s) (_num_blocks s) (_total_avail s + d)
    (_curr_sb s) (_backing_store s) (backing s)) l
    (if v then {[elem c b (Z.of_nat n)]} ∪ X else X ∖ {[elem c b (Z.of_nat n)]}).
Proof.
  intros Hh Hb Hx Hn d. set (y := Blk _ _ _ _). pose proof (holds_slot s l X Hh b x n _ Hx Hn) as Hin. pose proof (lookup_lt_Some _ _ _ Hn) as Hlt.
  assert (<[n := v]> (states x) !! n = Some v) as Hv by (by apply list_lookup_insert_eq).
  assert (∀ b' x', <[b := y]> (blocks s) !! b' = Some x' → (b' = b ∧ x' = y) ∨ (b' ≠ b ∧ blocks s !! b' = Some x')) as Hcase.
  { intros b' x'. destruct (decide (b' = b)) as [->|Hne]; [rewrite lookup_insert_eq; intros [= <-]; by left|rewrite lookup_insert_ne by done; by right]. }
  assert (∀ b', is_Some (<[b := y]> (blocks s) !! b') → is_Some (blocks s !! b')) as Hsome by (intros b' [x' [[-> _]|[_ ?]]%Hcase]; by eexists).
  assert (∀ m, m ≠ n → states y !! m = states x !! m) as Hother by (intros m Hm; unfold y; cbn; by rewrite list_lookup_insert_ne).
  split; cbn [blocks headers _nested _num_blocks _total_avail _curr_sb _backing_store backing].
  - exact (h_nodup _ _ _ _ Hh).
  - apply (ring_same (blocks s)); [|exact (h_ring _ _ _ _ Hh)]. by apply (same_links_update _ _ _ x).
  - exact (h_curr _ _ _ _ Hh).
  - intros b' x' [[-> ->]|[_ Hx']]%Hcase; [|exact (h_block _ _ _ _ Hh b' x' Hx')]. destruct (h_block _ _ _ _ Hh b x Hx) as (Hf & Hl & Ha).
    unfold block_ok, y. cbn. rewrite length_insert. split_and!; [done|done|]. rewrite (free_in_insert _ _ v) by done. unfold d. destruct v; lia.
  - intros b' b'' H1%Hsome H2%Hsome. by apply (h_apart _ _ _ _ Hh).
  - intros b' x' [[-> ->]|[_ Hx']]%Hcase; [by left|exact (h_spare _ _ _ _ Hh b' x' Hx')].
  - intros b' x' m [[-> ->]|[Hne Hx']]%Hcase Hm.
    + destruct (decide (m = n)) as [->|Hmn].
      * cbn in Hm. rewrite Hv in Hm. injection Hm as ->. unfold USED. by rewrite lookup_insert_eq.
      * rewrite Hother in Hm by done. pose proof (h_headers _ _ _ _ Hh b x m Hx Hm) as Hhd. destruct v; [|done].
        destruct (decide (_slab_entry c b (Z.of_nat n) = _slab_entry c b (Z.of_nat m))) as [->|?]; [by rewrite lookup_insert_eq|by rewrite lookup_insert_ne].
    + pose proof (h_headers _ _ _ _ Hh b' x' m Hx' Hm) as Hhd. destruct v; [|done]. rewrite lookup_insert_ne; [done|].
      destruct (h_block _ _ _ _ Hh b x Hx) as (Hf & _). destruct (h_block _ _ _ _ Hh b' x' Hx') as (Hf' & _). pose proof (holds_slot s l X Hh b' x' m _ Hx' Hm).
      rewrite !slab_entry_eq by done. intros He. destruct (used_unique s l X Hh b x n b' x' m) as [<- _]; try done. lia.
  - intros a. assert (a ∈ (if v then {[elem c b (Z.of_nat n)]} ∪ X else X ∖ {[elem c b (Z.of_nat n)]}) ↔
        (v = USED ∧ a = elem c b (Z.of_nat n)) ∨ (a ≠ elem c b (Z.of_nat n) ∧ a ∈ X)) as ->.
    { destruct v; [|set_solver]. rewrite elem_of_union, elem_of_singleton. destruct (decide (a = elem c b (Z.of_nat n))); unfold USED; tauto. }
    rewrite (h_used _ _ _ _ Hh). split.
    + intros [[-> ->]|[Hne (b' & x' & m & Hx' & Hm & ->)]].
      * exists b, y, n. by rewrite lookup_insert_eq.
      * destruct (decide (b' = b)) as [->|Hb']; [|exists b', x', m; by rewrite lookup_insert_ne].
        rewrite Hx in Hx'. injection Hx' as <-. exists b, y, m. rewrite lookup_insert_eq. split; [done|]. rewrite Hother by (intros ->; done). done.
    + intros (b' & x' & m & [[-> ->]|[Hne Hx']]%Hcase & Hm & ->).
      * destruct (decide (m = n)) as [->|Hmn]; [cbn in Hm; rewrite Hv in Hm; left; split; [by injection Hm|done]|]. rewrite Hother in Hm by done. right. split; [|by exists b, x, m].
        intros He. destruct (used_unique s l X Hh b x m b x n) as [_ ?]; done.
      * right. split; [|by exists b', x', m]. intros He. destruct (used_unique s l X Hh b' x' m b x n) as [? _]; done.
  - exact (h_num _ _ _ _ Hh).
  - rewrite (h_total _ _ _ _ Hh), sum_avail_insert by (done || exact (h_nodup _ _ _ _ Hh)). unfold avail_at. rewrite Hx. cbn. lia.
Qed.

(** What an operation leaves alone *)
Definition frame s s' : Prop := _nested s' = _nested s ∧ _backing_store s' = _backing_store s ∧ backing s' = backing s.

(** An allocation from the current block *)
Lemma block_alloc_run s l X :
  holds c s l X → 0 < avail_at (blocks s) (_curr_sb s) →
  ∃ p s1, block_alloc c (_curr_sb s) s = (Ok p, s1) ∧ p ≠ 0 ∧ p ∉ X ∧ _num_blocks s1 = _num_blocks s ∧ _total_avail s1 = _total_avail s ∧
    holds c (with_counts (_num_blocks s) (u64 (_total_avail s - 1)) s1) l ({[p]} ∪ X) ∧ frame s s1 ∧ dom (blocks s1) =@{gset Z} dom (blocks s).
Proof.
  intros Hh Ha. destruct (curr_block s l X Hh) as (k & x & El & Hx & _). unfold avail_at in Ha. rewrite Hx in Ha. cbn in Ha.
  pose proof (h_block _ _ _ _ Hh _ x Hx) as (Hf & Hl & Hav). pose proof (holds_avail s l X Hh _ x Hx) as [? _]. pose proof (epb_bounds c Hg) as (_ & _ & Hlt).
  destruct (holds_bounds s l X Hh) as (_ & Ht & Htb).
  destruct (first_state FREE (states x) 0) as [i|] eqn:Ei; [|apply first_state_none in Ei; exfalso; apply Ei].
  2: { destruct (filter (λ v, v = FREE) (states x)) as [|v vs] eqn:Ev; [unfold free_in in Hav; rewrite Ev in Hav; cbn in Hav; lia|].
       assert (v ∈ filter (λ v, v = FREE) (states x)) as [-> ?]%list_elem_of_filter; [rewrite Ev; constructor|done]. }
  destruct (first_state_some _ _ _ _ Ei) as (n & Hi & Hn). rewrite Z.add_0_l in Hi. subst i. pose proof (holds_slot s l X Hh _ x n _ Hx Hn) as Hin.
  pose proof (holds_mark s l X _ x n USED Hh ltac:(rewrite El; constructor) Hx Hn) as Hm. cbv zeta in Hm. cbn [USED] in Hm.
  exists (elem c (_curr_sb s) (Z.of_nat n)). eexists. split_and!.
  - unfold block_alloc. mrun (block_get_run s _ x Hx). rewrite Ei. unfold set_block, modify.
    erewrite bind_ok by reflexivity. erewrite bind_ok by reflexivity. unfold mret, exc_ret. rewrite slab_entry_data by done. reflexivity.
  - pose proof (elem_bounds c Hg (_curr_sb s) (Z.of_nat n) Hin). destruct Hf. unfold sizeof_Block in *. lia.
  - intros (b' & x' & m & Hx' & Hu & He)%(h_used _ _ _ _ Hh). destruct (used_unique s l X Hh (_curr_sb s) x n b' x' m) as [<- <-]; [done|by eexists|done|by eexists|done|].
    rewrite Hx in Hx'. injection Hx' as <-. rewrite Hn in Hu. discriminate.
  - done.
  - done.
  - cbn. rewrite Nat2Z.id. destruct (holds_bounds _ _ _ Hm) as (_ & Ht' & _). cbn in Ht'. rewrite !wrap_small by word_lia.
    rewrite <- !Z.add_opp_r. exact Hm.
  - done.
  - cbn [blocks with_blocks with_headers]. apply dom_insert_lookup_L. by eexists.
Qed.

(** Along the ring *)
Lemma walk_next s l X seen b todo x :
  holds c s l X → l = seen ++ b :: todo → blocks s !! b = Some x → next x = hd_z todo (hd_z (seen ++ [b]) 0).
Proof.
  intros Hh El Hx. pose proof (h_ring _ _ _ _ Hh) as Hr. unfold ring in Hr. rewrite El, chain_app in Hr. destruct Hr as [_ [(x' & Hx' & Hn' & _) _]].
  rewrite Hx in Hx'. injection Hx' as <-. rewrite Hn'. f_equal. by destruct seen.
Qed.

Lemma walk_total s l X seen b todo x :
  holds c s l X → l = seen ++ b :: todo → blocks s !! b = Some x → _total_avail s = sum_avail (blocks s) seen + _avail x + sum_avail (blocks s) todo ∧
    0 ≤ sum_avail (blocks s) todo ≤ Z.of_nat (length todo) * E.
Proof.
  intros Hh El Hx. split.
  - rewrite (h_total _ _ _ _ Hh), El, sum_avail_app. change (sum_avail ?h (b :: todo)) with (avail_at h b + sum_avail h todo). unfold avail_at. rewrite Hx. cbn. lia.
  - apply (sum_avail_bounds s l X Hh). intros b' Hb'. apply (ring_lookup _ l _ (h_ring _ _ _ _ Hh)). rewrite El. set_solver.
Qed.

(** The search for a block with an element to give *)
Lemma skip_occupied_run s l X :
  holds c s l X →
  ∃ b, skip_occupied (1 + base.size (blocks s)) (_curr_sb s) s = (Ok tt, with_curr b s) ∧ b ∈ l ∧
    (0 < _total_avail s → 0 < avail_at (blocks s) b) ∧ (_total_avail s = 0 → avail_at (blocks s) b = 0).
Proof.
  intros Hh. pose proof (holds_fuel s l X Hh) as Hfu. destruct (h_curr _ _ _ _ Hh) as [k0 El]. set (orig := _curr_sb s) in *.
  assert (∀ fuel todo seen b, l = seen ++ b :: todo → hd_z (seen ++ [b]) 0 = orig → sum_avail (blocks s) seen = 0 → (length todo < fuel)%nat →
    ∃ b', skip_occupied fuel orig (with_curr b s) = (Ok tt, with_curr b' s) ∧ b' ∈ l ∧
      (0 < _total_avail s → 0 < avail_at (blocks s) b') ∧ (_total_avail s = 0 → avail_at (blocks s) b' = 0)) as Hloop.
  { induction fuel as [|fuel IH]; [lia|]. intros todo seen b El' Ho Hs Hlen. cbn [skip_occupied].
    unfold get. erewrite bind_ok by reflexivity. cbn [_curr_sb with_curr].
    assert (b ∈ l) as Hb by (rewrite El'; set_solver). destruct (holds_in s l X Hh b Hb) as (x & Hx & _). destruct (holds_avail s l X Hh b x Hx) as [Hax Hay].
    mrun (block_get_run (with_curr b s) b x Hx). rewrite Hay.
    pose proof (walk_next s l X _ _ _ x Hh El' Hx) as Hn. rewrite Ho in Hn. destruct (walk_total s l X _ _ _ x Hh El' Hx) as [Htot ?]. rewrite Hs in Htot.
    assert (avail_at (blocks s) b = _avail x) as Hat by (unfold avail_at; by rewrite Hx).
    destruct (Z.eqb_spec (_avail x) 0) as [Hz|Hz]; cbn [negb orb]; [|exists b; split_and!; [done|done|lia|lia]].
    destruct todo as [|b' todo]; cbn in Hn, Htot.
    - rewrite Hn, Z.eqb_refl. exists b. cbn in *. split_and!; [done|done|lia..].
    - rewrite Hn. destruct (Z.eqb_spec b' orig) as [Hbo|_].
      + exfalso. pose proof (h_nodup _ _ _ _ Hh) as Hd. rewrite El' in Hd. destruct seen as [|z seen]; cbn in Ho; subst; inversion Hd; set_solver.
      + unfold modify. erewrite bind_ok by reflexivity. change (with_curr b' (with_curr b s)) with (with_curr b' s).
        apply (IH todo (seen ++ [b])); [by rewrite <- app_assoc|rewrite <- Ho; by destruct seen| |cbn in Hlen; lia].
        rewrite sum_avail_app, Hs. cbn. rewrite Hat. lia. }
  destruct (Hloop (1 + base.size (blocks s))%nat k0 [] orig) as (b & Hb); [done..|rewrite El in Hfu; cbn in Hfu; lia|].
  exists b. rewrite <- (proj1 Hb). split; [|exact (proj2 Hb)]. by destruct s.
Qed.

(** The search for a block with a used element *)
Lemma skip_free_run s l X :
  holds c s l X → _total_avail s ≠ _num_blocks s * E →
  ∃ b, skip_free c (1 + base.size (blocks s)) s = (Ok tt, with_curr b s) ∧ b ∈ l ∧ avail_at (blocks s) b ≠ E.
Proof.
  intros Hh Hne. pose proof (holds_fuel s l X Hh) as Hfu. destruct (h_curr _ _ _ _ Hh) as [k0 El]. rewrite (h_num _ _ _ _ Hh) in Hne.
  assert (∀ fuel todo seen b, l = seen ++ b :: todo → sum_avail (blocks s) seen = Z.of_nat (length seen) * E → (length todo < fuel)%nat →
    ∃ b', skip_free c fuel (with_curr b s) = (Ok tt, with_curr b' s) ∧ b' ∈ l ∧ avail_at (blocks s) b' ≠ E) as Hloop.
  { induction fuel as [|fuel IH]; [lia|]. intros todo seen b El' Hs Hlen. cbn [skip_free].
    unfold get. erewrite bind_ok by reflexivity. cbn [_curr_sb with_curr].
    assert (b ∈ l) as Hb by (rewrite El'; set_solver). destruct (holds_in s l X Hh b Hb) as (x & Hx & _). destruct (holds_avail s l X Hh b x Hx) as [Hax Hay].
    mrun (block_get_run (with_curr b s) b x Hx). rewrite Hay.
    pose proof (walk_next s l X _ _ _ x Hh El' Hx) as Hn. destruct (walk_total s l X _ _ _ x Hh El' Hx) as [Htot ?]. rewrite Hs in Htot.
    assert (avail_at (blocks s) b = _avail x) as Hat by (unfold avail_at; by rewrite Hx).
    destruct (Z.eqb_spec (_avail x) E) as [Hz|Hz]; cbn [negb]; [|exists b; split_and!; [done|done|lia]].
    destruct todo as [|b' todo]; cbn in Hn, Htot; [exfalso; apply Hne; rewrite Htot, El', length_app; cbn; lia|]. rewrite Hn.
    unfold modify. erewrite bind_ok by reflexivity. change (with_curr b' (with_curr b s)) with (with_curr b' s).
    apply (IH todo (seen ++ [b])); [by rewrite <- app_assoc| |cbn in Hlen; lia]. rewrite sum_avail_app, Hs, length_app. cbn. rewrite Hat. lia. }
  destruct (Hloop (1 + base.size (blocks s))%nat k0 [] (_curr_sb s)) as (b & Hb); [done..|rewrite El in Hfu; cbn in Hfu; lia|].
  exists b. rewrite <- (proj1 Hb). split; [|exact (proj2 Hb)]. by destruct s.
Qed.

Lemma unused_full s l : holds c s l ∅ → ∀ b, b ∈ l → avail_at (blocks s) b = E.
Proof.
  intros Hh b (x & Hx & _ & Hl & Hf)%(holds_in s l _ Hh). unfold avail_at. rewrite Hx. cbn. rewrite Hf, <- Hl.
  unfold free_in. f_equal. f_equal. apply filter_all, Forall_forall. intros v (n & Hn)%list_elem_of_lookup. destruct v; [|done].
  exfalso. apply (not_elem_of_empty (C := gset Z) (elem c b (Z.of_nat n))). apply (h_used _ _ _ _ Hh). by exists b, x, n.
Qed.

(** All elements are free exactly if none is used. *)
Lemma all_free s l X : holds c s l X → (_total_avail s = _num_blocks s * E ↔ X = ∅).
Proof.
  intros Hh. rewrite (h_total _ _ _ _ Hh), (h_num _ _ _ _ Hh).
  assert (∀ k, (∀ b, b ∈ k → is_Some (blocks s !! b)) → sum_avail (blocks s) k = Z.of_nat (length k) * E ↔ ∀ b, b ∈ k → avail_at (blocks s) b = E) as Hall.
  { induction k as [|b k IH]; intros Hk; [split; [by intros _ b ?%elem_of_nil|done]|]. change (sum_avail ?h (b :: k)) with (avail_at h b + sum_avail h k). cbn [length].
    assert (∀ b, b ∈ k → is_Some (blocks s !! b)) as Hk' by (intros; apply Hk; by constructor). pose proof (sum_avail_bounds s l X Hh k Hk').
    destruct (Hk b) as [x Hx]; [constructor|]. pose proof (holds_avail s l X Hh b x Hx) as [Hax _]. assert (avail_at (blocks s) b = _avail x) as Hat by (unfold avail_at; by rewrite Hx).
    split.
    - intros Hs b' [->|Hb']%elem_of_cons; [lia|]. revert b' Hb'. apply IH; [done|lia].
    - intros Ha. rewrite (Ha b) by constructor. rewrite (proj2 (IH Hk')); [lia|]. intros b' Hb'. apply Ha. by constructor. }
  rewrite Hall by (intros b Hb; exact (ring_lookup _ _ _ (h_ring _ _ _ _ Hh) Hb)). split.
  - intros Ha. apply set_eq. intros a. split; [|set_solver]. intros (b & x & n & Hx & Hu & ->)%(h_used _ _ _ _ Hh).
    pose proof (Ha b (used_in_ring s l X Hh b x n Hx Hu)) as He. unfold avail_at in He. rewrite Hx in He. cbn in He.
    destruct (h_block _ _ _ _ Hh b x Hx) as (_ & Hl & Hf). destruct (free_in_full (states x)); [lia|]. by eapply list_elem_of_lookup_2.
  - intros -> b Hb. exact (unused_full s l Hh b Hb).
Qed.

(** ** Leaving the ring *)

(** The members around [b] are joined. *)
Lemma ring_unlink h b l x p :
  ring h (b :: l) → l ≠ [] → NoDup (b :: l) → h !! b = Some x → h !! prev x = Some p →
  let h1 := <[prev x := Blk (next x) (prev p) (_avail p) (states p)]> h in
  ∃ n, h1 !! next x = Some n ∧ prev x ≠ b ∧ next x ≠ b ∧ ring (<[next x := Blk (next n) (prev x) (_avail n) (states n)]> h1) l.
Proof.
  intros Hr Hl [Hb Hd]%NoDup_cons Hx Hp h1. destruct (ring_curr _ _ _ Hr) as (x' & Hx' & Hnx & Hpx). rewrite Hx in Hx'. injection Hx' as <-.
  destruct Hr as [_ Hc]. cbn [hd_z] in Hc.
  assert (chain h1 b l (next x)) as Hc1.
  { destruct (list_snoc_case l) as [->|(k & z & ->)]; [done|]. rewrite last_z_snoc in Hpx. apply NoDup_snoc in Hd as [_ Hz]. unfold h1. rewrite Hpx in *.
    by eapply (chain_set_last _ _ _ _ _ _ p). }
  destruct l as [|y l]; [done|]. cbn in Hnx. apply NoDup_cons in Hd as [Hy Hd]. pose proof Hc1 as [(n & Hn & Hnn & _) _]. rewrite Hnx in *. exists n. split; [done|].
  split; [rewrite Hpx; intros He; apply Hb; rewrite <- He; by apply last_z_in|]. split; [set_solver|].
  unfold ring. cbn [hd_z]. rewrite last_z_cons. rewrite last_z_cons in Hpx. rewrite <- Hpx. by eapply chain_set_first.
Qed.

(** A free block that has left the ring; [gone] says that its memory is given back. *)
Lemma holds_drop s s' b l X x (gone : bool) :
  holds c s (b :: l) X → l ≠ [] → blocks s !! b = Some x → _avail x = E → (gone = false → b = _initial_sb c) →
  (∃ h', same_data (blocks s) h' ∧ ring h' l ∧ blocks s' = if gone then base.delete b h' else h') →
  headers s' = (if gone then filter (λ e, e.2 ≠ b) (headers s) else headers s) → (∃ k, l = _curr_sb s' :: k) →
  _num_blocks s' = _num_blocks s - 1 → _total_avail s' = _total_avail s - E → holds c s' l X.
Proof.
  intros Hh Hl Hx Ha Hg' (h' & Hd & Hr & Hb') Hhd Hc Hn Ht.
  pose proof (h_nodup _ _ _ _ Hh) as Hnd. apply NoDup_cons in Hnd as [Hbl Hnd].
  assert (∀ b' y, blocks s' !! b' = Some y → ∃ x', blocks s !! b' = Some x' ∧ _avail x' = _avail y ∧ states x' = states y ∧ (gone = true → b' ≠ b)) as Hback.
  { intros b' y Hy. assert (h' !! b' = Some y ∧ (gone = true → b' ≠ b)) as [Hy' Hne] by (rewrite Hb' in Hy; destruct gone; [apply lookup_delete_Some in Hy as [? ?]|]; by split).
    specialize (Hd b'). rewrite Hy' in Hd. destruct (blocks s !! b') as [x'|]; [|done]. cbn in Hd. injection Hd as ? ?. by exists x'. }
  assert (∀ b' x', blocks s !! b' = Some x' → (gone = true → b' ≠ b) → ∃ y, blocks s' !! b' = Some y ∧ _avail x' = _avail y ∧ states x' = states y) as Hforth.
  { intros b' x' Hx' Hne. specialize (Hd b'). rewrite Hx' in Hd. destruct (h' !! b') as [y|] eqn:Ey; [|done]. cbn in Hd. injection Hd as ? ?. exists y.
    split; [|done]. rewrite Hb'. destruct gone; [|done]. rewrite lookup_delete_ne; [done|]. by intros <-; apply Hne. }
  assert (∀ n, states x !! n ≠ Some USED) as Hfree.
  { intros n Hu. destruct (h_block _ _ _ _ Hh b x Hx) as (_ & Hlen & Hf). apply (free_in_full (states x)); [lia|]. by eapply list_elem_of_lookup_2. }
  split.
  - done.
  - rewrite Hb'. destruct gone; [|done]. apply (ring_same h'); [by apply same_links_delete|done].
  - done.
  - intros b' y (x' & Hx' & Ha' & Hs & _)%Hback. unfold block_ok. rewrite <- Ha', <- Hs. exact (h_block _ _ _ _ Hh b' x' Hx').
  - intros b' b'' [y (x' & Hx' & _)%Hback] [y' (x'' & Hx'' & _)%Hback]. by apply (h_apart _ _ _ _ Hh).
  - intros b' y (x' & Hx' & Ha' & _ & Hne)%Hback. destruct (h_spare _ _ _ _ Hh b' x' Hx') as [[->|?]%elem_of_cons|[? ?]]; [|by left|right; split; [done|congruence]].
    destruct gone; [by destruct Hne|]. right. rewrite Hx in Hx'. injection Hx' as <-. split; [by apply Hg'|congruence].
  - intros b' y n (x' & Hx' & _ & Hs & Hne)%Hback Hu. rewrite <- Hs in Hu. pose proof (h_headers _ _ _ _ Hh b' x' n Hx' Hu) as Hl'. rewrite Hhd.
    destruct gone; [|done]. apply map_lookup_filter_Some. split; [done|]. by apply Hne.
  - intros a. rewrite (h_used _ _ _ _ Hh). split.
    + intros (b' & x' & n & Hx' & Hu & ->). assert (b' ≠ b) as Hne by (intros ->; rewrite Hx in Hx'; injection Hx' as <-; by destruct (Hfree n)).
      destruct (Hforth b' x' Hx') as (y & Hy & _ & Hs); [done|]. exists b', y, n. by rewrite <- Hs.
    + intros (b' & y & n & (x' & Hx' & _ & Hs & _)%Hback & Hu & ->). exists b', x', n. by rewrite Hs.
  - rewrite Hn, (h_num _ _ _ _ Hh). cbn [length]. lia.
  - rewrite Ht, (h_total _ _ _ _ Hh). change (sum_avail ?h (b :: l)) with (avail_at h b + sum_avail h l). unfold avail_at at 1. rewrite Hx. cbn [from_option]. rewrite Ha.
    rewrite (sum_avail_same (blocks s) (blocks s') l); [lia|]. intros b' Hb''. unfold avail_at.
    destruct (holds_in s _ X Hh b') as (x' & Hx' & _); [by apply elem_of_cons; right|]. destruct (Hforth b' x' Hx') as (y & -> & ? & _); [intros _ ->; done|]. by rewrite Hx'.
Qed.

(** [_free_curr_sb] up to the call of the backing store *)
Lemma free_curr_run s b l X x alloc free :
  holds c s (b :: l) X → l ≠ [] → _curr_sb s = b → blocks s !! b = Some x → _avail x = E → _backing_store s = true →
  ∃ s', _free_curr_sb c alloc free s =
      (if bool_decide (b = _initial_sb c) then (Ok tt, s') else run alloc free (bs_free b (_block_size c) (backing s)) s') ∧
    holds c s' l X ∧ _num_blocks s' = _num_blocks s - 1 ∧ _total_avail s' = _total_avail s - E ∧ frame s s' ∧
    dom (blocks s') =@{gset Z} (if bool_decide (b = _initial_sb c) then dom (blocks s) else dom (blocks s) ∖ {[b]}) ∧
    (∀ b', b' ≠ b → avail_at (blocks s') b' = avail_at (blocks s) b').
Proof.
  intros Hh Hl Hcu Hx Ha Hbs. destruct (holds_bounds s _ X Hh) as (Hn & Ht & Htb). pose proof (epb_bounds c Hg) as (He5 & _ & Hlt).
  pose proof (h_ring _ _ _ _ Hh) as Hr. destruct (ring_curr _ _ _ Hr) as (x' & Hx' & Hnx & Hpx). rewrite Hx in Hx'. injection Hx' as <-.
  assert (prev x ∈ b :: l) as Hpin by (rewrite Hpx; apply elem_of_cons; right; by apply last_z_in). destruct (holds_in s _ X Hh _ Hpin) as (p & Hp & _).
  destruct (ring_unlink _ _ _ _ _ Hr Hl (h_nodup _ _ _ _ Hh) Hx Hp) as (n & Hnn & Hpb & Hnb & Hr').
  set (h1 := <[prev x := _]> (blocks s)) in *. set (h2 := <[next x := _]> h1) in *.
  assert (same_data (blocks s) h2) as Hd by (apply (same_data_trans _ h1); [by apply (same_data_insert _ _ p)|by apply (same_data_insert _ _ n)]).
  assert (h1 !! b = Some x) as H1b by (unfold h1; by rewrite lookup_insert_ne). assert (h2 !! b = Some x) as H2b by (unfold h2; by rewrite lookup_insert_ne).
  set (t1 := with_curr (next x) s). set (t2 := with_blocks (λ _, h2) t1).
  set (t3 := with_counts (_num_blocks s - 1) (_total_avail s - E) t2).
  assert (_num_blocks s = Z.of_nat (length (b :: l))) as Hnum by exact (h_num _ _ _ _ Hh).
  assert (1 < _num_blocks s) as Hn1 by (rewrite Hnum; destruct l; [done|cbn [length]; lia]).
  assert (E ≤ _total_avail s) as HtE.
  { rewrite (h_total _ _ _ _ Hh). change (sum_avail ?h (b :: l)) with (avail_at h b + sum_avail h l). unfold avail_at. rewrite Hx. cbn [from_option].
    pose proof (sum_avail_bounds s _ X Hh l) as Hs. rewrite Ha. enough (0 ≤ sum_avail (blocks s) l) by lia. apply Hs. intros b' Hb'. apply (ring_lookup _ _ _ Hr). by apply elem_of_cons; right. }
  assert (_free_curr_sb c alloc free s = _release_backing_store c alloc free b t2) as Hrun.
  { unfold _free_curr_sb, get. erewrite bind_ok by reflexivity. rewrite Hcu. mrun (block_get_run s b x Hx). unfold modify. erewrite bind_ok by reflexivity.
    erewrite bind_ok by reflexivity. cbn [_num_blocks with_curr]. destruct (Z.leb_spec (_num_blocks s) 1) as [?|_]; [lia|].
    fold t1. mrun (block_get_run t1 b x Hx). mrun (set_next_run t1 (prev x) (next x) p Hp).
    change (with_blocks _ t1) with (with_blocks (λ _, h1) t1). mrun (block_get_run (with_blocks (λ _, h1) t1) b x H1b).
    mrun (set_prev_run (with_blocks (λ _, h1) t1) (next x) (prev x) n Hnn). reflexivity. }
  assert (_release_backing_store c alloc free b t2 = (if bool_decide (b = _initial_sb c) then (Ok tt, t3)
      else run alloc free (bs_free b (_block_size c) (backing s)) (with_headers (filter (λ h, h.2 ≠ b)) (with_blocks (base.delete b) t3)))) as Hrel.
  { unfold _release_backing_store. mrun (block_get_run t2 b x H2b). unfold modify. erewrite bind_ok by reflexivity. unfold get. erewrite bind_ok by reflexivity.
    rewrite (proj2 (holds_avail s _ X Hh b x Hx)), Ha. cbn [_num_blocks _total_avail with_counts t2 t1 with_curr with_blocks _backing_store]. rewrite Hbs.
    rewrite (wrap_small 64 (_num_blocks s - 1)), (wrap_small 64 (_total_avail s - E)) by word_lia.
    fold t3. destruct (Z.eqb_spec b (_initial_sb c)) as [->|Hne]; [by rewrite bool_decide_true by done|]. rewrite bool_decide_false by done. cbn [negb andb].
    unfold hand_over, modify. erewrite bind_ok by reflexivity. by erewrite bind_ok by reflexivity. }
  assert (∀ b', avail_at h2 b' = avail_at (blocks s) b') as Hav.
  { intros b'. unfold avail_at. specialize (Hd b'). destruct (blocks s !! b'), (h2 !! b'); cbn in *; congruence. }
  assert (∃ k, l = next x :: k) as Hk by (rewrite Hnx; destruct l as [|y k]; [done|by exists k]).
  destruct (decide (b = _initial_sb c)) as [Hi|Hi].
  - rewrite bool_decide_true in Hrel |- * by done. exists t3. split; [by rewrite Hrun|]. split; [|split_and!; [done..| |by intros b' _; apply Hav]].
    + apply (holds_drop s t3 b l X x false Hh); try done. by exists h2.
    + cbn. apply set_eq. intros b'. rewrite !elem_of_dom. specialize (Hd b'). destruct (blocks s !! b'), (h2 !! b'); (done || naive_solver).
  - rewrite bool_decide_false in Hrel |- * by done. eexists. split; [rewrite Hrun; exact Hrel|]. split; [|split_and!; [done..| |intros b' Hne; rewrite <- Hav; unfold avail_at; cbn; by rewrite lookup_delete_ne]].
    + apply (holds_drop s _ b l X x true Hh); try done. by exists h2.
    + cbn. rewrite dom_delete_L. f_equal. apply set_eq. intros b'. rewrite !elem_of_dom. specialize (Hd b'). destruct (blocks s !! b'), (h2 !! b'); (done || naive_solver).
Qed.

(** ** Joining the ring *)

Lemma ring_link h cur l sb z y w :
  ring h (cur :: l) → NoDup (cur :: l) → sb ∉ cur :: l → h !! sb = Some z → next z = hd_z l cur → prev z = cur → h !! hd_z l cur = Some y →
  let h3 := <[hd_z l cur := Blk (next y) sb (_avail y) (states y)]> h in
  h3 !! cur = Some w → ring (<[cur := Blk sb (prev w) (_avail w) (states w)]> h3) (cur :: sb :: l).
Proof.
  intros Hr Hd Hsb Hz Hnz Hpz Hy h3 Hw. apply NoDup_cons in Hd as [Hcl Hd]. apply not_elem_of_cons in Hsb as [Hsc Hsl]. set (h4 := <[cur := _]> h3).
  assert (chain h3 sb (l ++ [cur]) (hd_z l cur)) as H3.
  { apply ring_rotate in Hr. unfold ring in Hr. rewrite last_z_snoc, hd_z_app in Hr. cbn in Hr. unfold h3. destruct l as [|b l]; cbn in *.
    - by apply (chain_set_first _ cur _ _ [] _ y).
    - apply NoDup_cons in Hd as [? ?]. apply (chain_set_first _ cur _ _ _ _ y); try done. rewrite elem_of_app, list_elem_of_singleton. intros [?| ->]; [done|]. apply Hcl. constructor. }
  assert (chain h4 sb (l ++ [cur]) sb) as H4 by (by apply (chain_set_last _ _ _ _ (hd_z l cur) _ w)).
  assert (hd_z l cur ≠ sb) by (destruct l; cbn; [done|]; intros ->; apply Hsl; constructor).
  assert (h4 !! sb = Some z) as Hz4 by (unfold h4, h3; by rewrite !lookup_insert_ne by done).
  apply (ring_rotate_app h4 [cur; sb] l). unfold ring. change (l ++ [cur; sb]) with (l ++ [cur] ++ [sb]). rewrite app_assoc, last_z_snoc, chain_app, last_z_snoc.
  split; [done|]. split; [|done]. exists z. rewrite !hd_z_app. cbn. destruct l; by split_and!.
Qed.

Definition new_block b : Block := Blk b b E (replicate (Z.to_nat E) FREE).

Lemma new_block_ok b : block_fits c b → block_ok c b (new_block b).
Proof.
  intros Hf. pose proof (epb_bounds c Hg). unfold block_ok, new_block. cbn. rewrite length_replicate, free_in_replicate. split_and!; [done|lia|lia].
Qed.

Lemma new_block_unused b n : states (new_block b) !! n ≠ Some USED.
Proof. intros Hu. apply lookup_replicate in Hu as [? _]. done. Qed.

Lemma holds_new s s' l l' X sb :
  holds c s l X → block_fits c sb → sb ∉ dom (blocks s) → (∀ b, b ∈ dom (blocks s) → apart c sb b) →
  same_data (<[sb := new_block sb]> (blocks s)) (blocks s') → ring (blocks s') l' → l' ≡ₚ sb :: l → (∃ k, l' = _curr_sb s' :: k) →
  headers s' = headers s → _num_blocks s' = _num_blocks s + 1 → _total_avail s' = _total_avail s + E → holds c s' l' X.
Proof.
  intros Hh Hf Hsb Hap Hd Hr Hp Hc Hhd Hn Ht. apply not_elem_of_dom in Hsb.
  assert (∀ b y, blocks s' !! b = Some y → (b = sb ∧ _avail y = E ∧ block_ok c b y ∧ ∀ n, states y !! n ≠ Some USED) ∨
    ∃ x, blocks s !! b = Some x ∧ _avail x = _avail y ∧ states x = states y) as Hback.
  { intros b y Hy. specialize (Hd b). rewrite Hy in Hd. destruct (decide (b = sb)) as [->|Hne].
    - rewrite lookup_insert_eq in Hd. cbn in Hd. injection Hd as Ha Hs. left. pose proof (new_block_ok sb Hf) as Hok. pose proof (new_block_unused sb) as Hu.
      unfold block_ok in *. rewrite <- Ha, <- Hs. done.
    - right. rewrite lookup_insert_ne in Hd by done. destruct (blocks s !! b) as [x|]; [|done]. cbn in Hd. injection Hd as ? ?. by exists x. }
  assert (∀ b x, blocks s !! b = Some x → b ≠ sb ∧ ∃ y, blocks s' !! b = Some y ∧ _avail x = _avail y ∧ states x = states y) as Hforth.
  { intros b x Hx. assert (b ≠ sb) as Hne by (intros ->; congruence). split; [done|]. specialize (Hd b). rewrite lookup_insert_ne, Hx in Hd by done.
    destruct (blocks s' !! b) as [y|]; [|done]. cbn in Hd. injection Hd as ? ?. by exists y. }
  assert (sb ∉ l) as Hsl by (intros (x & Hx & _)%(holds_in s l X Hh); congruence).
  split.
  - rewrite Hp. apply NoDup_cons. split; [done|exact (h_nodup _ _ _ _ Hh)].
  - done.
  - done.
  - intros b y [(-> & _ & Hok & _)|(x & Hx & Ha & Hs)]%Hback; [done|]. unfold block_ok. rewrite <- Ha, <- Hs. exact (h_block _ _ _ _ Hh b x Hx).
  - assert (∀ b x, blocks s !! b = Some x → apart c sb b) as Hap' by (intros b x Hx; apply Hap, elem_of_dom; by exists x).
    intros b b' [y [(-> & _)|(x & Hx & _)]%Hback] [y' [(-> & _)|(x' & Hx' & _)]%Hback]; [by left|right; by eapply Hap'| |by eapply (h_apart _ _ _ _ Hh)].
    right. destruct (Hap' b x Hx); [by right|by left].
  - intros b y [(-> & _)|(x & Hx & Ha & _)]%Hback; [left; rewrite Hp; constructor|]. rewrite <- Ha, Hp. destruct (h_spare _ _ _ _ Hh b x Hx) as [?|?]; [left; by apply elem_of_cons; right|by right].
  - intros b y n [(-> & _ & _ & Hu)|(x & Hx & _ & Hs)]%Hback Hn'; [by destruct (Hu n)|]. rewrite Hhd. rewrite <- Hs in Hn'. exact (h_headers _ _ _ _ Hh b x n Hx Hn').
  - intros a. rewrite (h_used _ _ _ _ Hh). split.
    + intros (b & x & n & (_ & y & Hy & _ & Hs)%Hforth & Hu & ->). exists b, y, n. by rewrite <- Hs.
    + intros (b & y & n & [(-> & _ & _ & Hu')|(x & Hx & _ & Hs)]%Hback & Hu & ->); [by destruct (Hu' n)|]. exists b, x, n. by rewrite Hs.
  - rewrite Hn, (h_num _ _ _ _ Hh), Hp. cbn [length]. lia.
  - rewrite Ht, (h_total _ _ _ _ Hh). transitivity (sum_avail (blocks s') (sb :: l)).
    + change (sum_avail ?h (sb :: l)) with (avail_at h sb + sum_avail h l). rewrite (sum_avail_same (blocks s) (blocks s') l).
      * unfold avail_at. specialize (Hd sb). rewrite lookup_insert_eq in Hd. destruct (blocks s' !! sb) as [y|]; [|done]. cbn in Hd |- *. injection Hd as <- _. lia.
      * intros b (x & Hx & _)%(holds_in s l X Hh). destruct (Hforth b x Hx) as (_ & y & Hy & Ha & _). unfold avail_at. rewrite Hx, Hy. cbn. congruence.
    + clear -Hp. symmetry in Hp. generalize (blocks s') as h. intros h. induction Hp; cbn [sum_avail foldr] in *; unfold sum_avail in *; cbn [foldr]; lia.
Qed.

Lemma join_run s cur l X sb :
  holds c s (cur :: l) X → block_fits c sb → sb ∉ dom (blocks s) → (∀ b, b ∈ dom (blocks s) → apart c sb b) →
  let s1 := with_blocks <[sb := new_block sb]> s in
  construct_block c sb s = (Ok tt, s1) ∧
  ∃ s', _insert_sb c sb s1 = (Ok tt, s') ∧ holds c s' (cur :: sb :: l) X ∧
    _num_blocks s' = _num_blocks s + 1 ∧ _total_avail s' = _total_avail s + E ∧ frame s s' ∧ dom (blocks s') =@{gset Z} {[sb]} ∪ dom (blocks s).
Proof.
  intros Hh Hf Hsb Hap s1. split; [done|]. destruct (holds_bounds s _ X Hh) as (Hn & Ht & Htb). pose proof (epb_bounds c Hg) as (He5 & _ & Hlt).
  pose proof (h_ring _ _ _ _ Hh) as Hr. destruct (h_curr _ _ _ _ Hh) as [l' Hcu]. injection Hcu as -> <-. set (cur := _curr_sb s) in *.
  destruct (ring_curr _ _ _ Hr) as (x & Hx & Hnx & Hpx).
  assert (hd_z l cur ∈ cur :: l) as Hnin by (destruct l; cbn; set_solver). destruct (holds_in s _ X Hh _ Hnin) as (y & Hy & _).
  assert (∀ b, b ∈ cur :: l → b ≠ sb) as Hne by (intros b (x' & Hx' & _)%(holds_in s _ X Hh) ->; apply Hsb, elem_of_dom; by exists x').
  assert (cur ≠ sb) as Hcs by (apply Hne; constructor). assert (hd_z l cur ≠ sb) as Hns by (by apply Hne).
  set (z := Blk (hd_z l cur) cur E (replicate (Z.to_nat E) FREE)). set (h2 := <[sb := z]> (blocks s)).
  assert (ring h2 (cur :: l)) as Hr2 by (apply (ring_same (blocks s)); [apply same_links_insert; intros Hin; by apply (Hne sb)|done]).
  assert (h2 !! hd_z l cur = Some y) as Hy2 by (unfold h2; by rewrite lookup_insert_ne). assert (h2 !! cur = Some x) as Hx2 by (unfold h2; by rewrite lookup_insert_ne).
  set (h3 := <[hd_z l cur := Blk (next y) sb (_avail y) (states y)]> h2).
  assert (∃ w, h3 !! cur = Some w) as [w Hw].
  { unfold h3. destruct (decide (hd_z l cur = cur)) as [->|?]; [rewrite lookup_insert_eq; by eexists|rewrite lookup_insert_ne by done; by eexists]. }
  pose proof (ring_link h2 cur l sb z y w Hr2 (h_nodup _ _ _ _ Hh) ltac:(intros Hin; by apply (Hne sb)) ltac:(unfold h2; by rewrite lookup_insert_eq) eq_refl eq_refl Hy2 Hw) as Hr4.
  fold h3 in Hr4. set (h4 := <[cur := _]> h3) in Hr4.
  set (s' := with_counts (_num_blocks s + 1) (_total_avail s + E) (with_blocks (λ _, h4) s)). exists s'.
  assert (same_data (<[sb := new_block sb]> (blocks s)) h4) as Hd.
  { apply (same_data_trans _ h2); [unfold h2; intros b; destruct (decide (b = sb)) as [->|?]; [by rewrite !lookup_insert_eq|by rewrite !lookup_insert_ne by done]|].
    apply (same_data_trans _ h3); [by apply (same_data_insert _ _ y)|by apply (same_data_insert _ _ w)]. }
  split; [|split; [|split_and!; [done..|]]].
  - unfold _insert_sb, get. erewrite bind_ok by reflexivity. change (_curr_sb s1) with cur.
    mrun (set_prev_run s1 sb cur (new_block sb) ltac:(apply lookup_insert_eq)).
    set (u := with_blocks _ s1). assert (blocks u = <[sb := Blk sb cur E (replicate (Z.to_nat E) FREE)]> (blocks s)) as Hu by (apply insert_insert_eq).
    mrun (block_get_run u cur x ltac:(rewrite Hu; by rewrite lookup_insert_ne)).
    mrun (set_next_run u sb (next x) (Blk sb cur E (replicate (Z.to_nat E) FREE)) ltac:(rewrite Hu; apply lookup_insert_eq)). rewrite Hnx. cbn [prev _avail states].
    set (u2 := with_blocks _ u). assert (blocks u2 = h2) as Hu2 by (cbn; rewrite !insert_insert_eq; done).
    mrun (block_get_run u2 cur x ltac:(by rewrite Hu2)). rewrite Hnx. mrun (set_prev_run u2 (hd_z l cur) sb y ltac:(by rewrite Hu2)).
    set (u3 := with_blocks _ u2). assert (blocks u3 = h3) as Hu3 by (cbn [blocks with_blocks u3]; by rewrite Hu2).
    mrun (set_next_run u3 cur sb w ltac:(by rewrite Hu3)). transitivity (Ok (E := fault) tt, with_counts (u64 (_num_blocks s + 1)) (u64 (_total_avail s + E)) (with_blocks (λ _, <[cur := Blk sb (prev w) (_avail w) (states w)]> (blocks u3)) s)); [done|].
    by rewrite !wrap_small, Hu3 by word_lia.
  - apply (holds_new s s' (cur :: l) _ X sb Hh Hf Hsb Hap Hd Hr4); [by rewrite (perm_swap sb cur l)|by eexists|done..].
  - cbn. rewrite <- (dom_insert_L (blocks s) sb (new_block sb)). apply set_eq. intros b. rewrite !elem_of_dom. specialize (Hd b).
    destruct (<[sb:=_]> (blocks s) !! b), (h4 !! b); (done || naive_solver).
Qed.

(** ** A freed element *)

Lemma used_run s b x n v :
  blocks s !! b = Some x → block_ok c b x → states x !! n = Some v → used c b (_slab_entry c b (Z.of_nat n)) s = (Ok (eqb v USED), s).
Proof.
  intros Hx (Hf & Hl & _) Hn. pose proof (lookup_lt_Some _ _ _ Hn). unfold used. mrun (block_get_run s b x Hx).
  rewrite slab_entry_idx_eq by (done || lia). destruct (Z.leb_spec 0 (Z.of_nat n)); [|lia]. by rewrite Nat2Z.id, Hn.
Qed.

(** [_free] passes its checks for an element with a header, and finds the state of the element. *)
Lemma free_checks alloc free s b x n v :
  blocks s !! b = Some x → block_ok c b x → states x !! n = Some v → headers s !! _slab_entry c b (Z.of_nat n) = Some b →
  _free c alloc free (elem c b (Z.of_nat n)) s =
    if eqb v USED then (destroy_entry c b (_slab_entry c b (Z.of_nat n));; modify (λ s, with_counts (_num_blocks s) (u64 (_total_avail s + 1)) s);;
      modify (with_curr b);; release_loop c alloc free (1 + Z.to_nat (_num_blocks s))) s else (Ok tt, s).
Proof.
  intros Hx Hok Hn Hh. pose proof Hok as ((Hb & Hb') & Hl & _). pose proof (lookup_lt_Some _ _ _ Hn) as Hlt.
  pose proof (elem_bounds c Hg b (Z.of_nat n) ltac:(lia)) as [He1 He2]. pose proof (epb_bounds c Hg) as [? _]. pose proof (good_slab c Hg). pose proof (good_room c Hg).
  unfold _free. destruct (Z.eqb_spec (elem c b (Z.of_nat n)) 0) as [?|_]; [unfold sizeof_Block in *; lia|]. rewrite elem_entry by (done || lia).
  unfold get_state. erewrite bind_ok by reflexivity. rewrite Hh. rewrite !(wrap_small 64 (b + _)) by (unfold sizeof_Block in *; word_lia).
  destruct (Z.ltb_spec (elem c b (Z.of_nat n)) (b + sizeof_Block)); [lia|]. destruct (Z.leb_spec (b + _block_size c) (elem c b (Z.of_nat n))); [lia|]. cbn [orb].
  mrun (used_run s b x n v Hx Hok Hn). by destruct v.
Qed.

Lemma free_steps alloc free s l X a :
  holds c s l X → a ∈ X →
  ∃ s1 b k, _free c alloc free a s = release_loop c alloc free (1 + Z.to_nat (_num_blocks s)) s1 ∧ holds c s1 (b :: k) (X ∖ {[a]}) ∧
    _num_blocks s1 = _num_blocks s ∧ _total_avail s1 = _total_avail s + 1 ∧ frame s s1 ∧ dom (blocks s1) =@{gset Z} dom (blocks s).
Proof.
  intros Hh (b & x & n & Hx & Hu & ->)%(h_used _ _ _ _ Hh). pose proof (h_block _ _ _ _ Hh b x Hx) as Hok. pose proof Hok as (Hf & Hl & Hav).
  pose proof (holds_slot s l X Hh b x n _ Hx Hu) as Hin. pose proof (epb_bounds c Hg) as (_ & _ & Hlt).
  destruct (holds_bounds s l X Hh) as (_ & Ht & Htb). pose proof (holds_avail s l X Hh b x Hx) as [? _].
  pose proof (used_in_ring s l X Hh b x n Hx Hu) as Hb. pose proof (holds_mark s l X b x n FREE Hh Hb Hx Hu) as Hm. cbv zeta in Hm. cbn [FREE] in Hm.
  set (s0 := Slab _ _ _ _ _ _ _ _) in Hm. destruct (holds_curr s0 l _ b Hm Hb) as (k & Hk & _). exists (with_curr b s0), b, k. split; [|split; [done|split_and!; [done..|]]].
  - rewrite (free_checks alloc free s b x n USED Hx Hok Hu (h_headers _ _ _ _ Hh b x n Hx Hu)). rewrite eqb_reflx.
    assert (destroy_entry c b (_slab_entry c b (Z.of_nat n)) s =
      (Ok tt, with_blocks <[b := Blk (next x) (prev x) (_avail x + 1) (<[n := FREE]> (states x))]> s)) as Hde.
    { unfold destroy_entry. mrun (block_get_run s b x Hx). rewrite slab_entry_idx_eq, Nat2Z.id by done. by rewrite wrap_small by word_lia. }
    mrun Hde. unfold modify. do 2 erewrite bind_ok by reflexivity. f_equal.
    transitivity (with_curr b (with_counts (_num_blocks s) (u64 (_total_avail s + 1)) (with_blocks <[b := Blk (next x) (prev x) (_avail x + 1) (<[n := FREE]> (states x))]> s))); [done|].
    by rewrite wrap_small by word_lia.
  - cbn. apply dom_insert_lookup_L. by eexists.
Qed.

(** Freeing an element that is free is reported, and changes nothing. *)
Lemma free_unused_run alloc free s l X b x n :
  holds c s l X → blocks s !! b = Some x → states x !! n = Some FREE → headers s !! _slab_entry c b (Z.of_nat n) = Some b →
  _free c alloc free (elem c b (Z.of_nat n)) s = (Ok tt, s).
Proof. intros Hh Hx Hn Hhd. by rewrite (free_checks alloc free s b x n FREE Hx (h_block _ _ _ _ Hh b x Hx) Hn Hhd). Qed.

End Ops.
