(* ===== verification/Slab_spec.v ===== *)
(** * Slab_spec: allocation and release with a backing store that calls back

    What the slab relies on from its backing store is the class [Backing_laws]: the blocks
    that it lends do not overlap, a call of [try_alloc] allocates at most [takes] elements, which
    are no more than the three that the comment in [Slab::try_alloc] of
    [src/repos/base/src/lib/base/slab.cc] allows, and a call of [free] allocates none.  The lemmas of this file run allocation
    and release on a state with the invariant [inv], with all the nested calls. *)

From S2P Require Import Prelude Avl_nodes Avl_trees Allocator_avl Slab Slab_ring Slab_ops.

(** ** The contract of the backing store *)

(** [follows Q n o le sc]: in a slab where the backing store holds the elements [o] and has lent
    the blocks [le], [sc] allocates at most [n] more elements, which it gets, frees
    only elements that it holds, and ends with [Q]. *)
Inductive follows {B} (ok : B → Prop) (owned lent : B → gset Z) (c : config) {R} (Q : B → R → gset Z → gset Z → Prop) : nat → gset Z → gset Z → Script B R → Prop :=
  | follows_return n o le st r : Q st r o le → follows ok owned lent c Q n o le (Return st r)
  | follows_take n o le st size k :
      ok st → owned st = o → lent st = le → size ≤ _slab_size c → (∀ p, p ∉ o → p ≠ 0 → follows ok owned lent c Q n ({[p]} ∪ o) le (k st (Ok p))) →
      follows ok owned lent c Q (S n) o le (Take st size k)
  | follows_give n o le st a k :
      a ∈ o → ok st → owned st = o ∖ {[a]} → lent st = le →
      (∀ st', ok st' → owned st' ⊆ o ∖ {[a]} → lent st' ⊆ le → follows ok owned lent c Q n (owned st') (lent st') (k st')) →
      follows ok owned lent c Q n o le (Give st a k).

(** How a call of [try_alloc] that found the elements [o0] ends, and one of [free] *)
Definition allocated_from {B} (ok : B → Prop) (owned lent : B → gset Z) (o0 : gset Z) (st : B) (r : result Alloc_error Z) (o le : gset Z) : Prop :=
  ok st ∧ owned st = o ∧ match r with Ok b => b ∉ le ∧ lent st = {[b]} ∪ le | Err _ => lent st = le ∧ o ⊆ o0 end.
Definition freed_to {B} (ok : B → Prop) (owned lent : B → gset Z) (st : B) (_ : unit) (o le : gset Z) : Prop := ok st ∧ owned st = o ∧ lent st = le.

Class Backing_laws (c : config) (B : Type) `{Backing B} := {
  ok : B → Prop;
  owned : B → gset Z;
  lent : B → gset Z;
  takes : nat;
  takes_three : (takes ≤ 3)%nat;
  lent_fits st b : ok st → b ∈ lent st → block_fits c b;
  lent_apart st b b' : ok st → b ∈ lent st → b' ∈ lent st → b = b' ∨ apart c b b';
  lent_initial st b : ok st → b ∈ lent st → b ≠ _initial_sb c ∧ (_initial_sb c ≠ 0 → apart c b (_initial_sb c));
  try_alloc_follows st : ok st →
    follows ok owned lent c (allocated_from ok owned lent (owned st)) takes (owned st) (lent st) (bs_try_alloc (_block_size c) st);
  free_follows st b : ok st → b ∈ lent st →
    follows ok owned lent c (freed_to ok owned lent) 0 (owned st) (lent st ∖ {[b]}) (bs_free b (_block_size c) st) }.

Section Spec.
Context {B : Type} (c : config) `{Backing_laws c B} (Hg : good c).

Abbreviation E := (_entries_per_block c).
Abbreviation prog := (exc (slab B) fault).
Implicit Types (s : slab B) (l : list Z) (C o le : gset Z).

(** The blocks that the backing store has lent, as the slab knows them *)
Definition lent_blocks s : gset Z := dom (blocks s) ∖ {[_initial_sb c]}.

(** The users of the slab hold the elements [C], the backing store the elements [o]. *)
Definition mid s C o : Prop := C ## o ∧ ∃ l, holds c s l (C ∪ o).

Definition inv s C : Prop := mid s C (owned (backing s)) ∧ ok (backing s) ∧ lent (backing s) = lent_blocks s.

Lemma holds_backing s l X st : holds c s l X → holds c (with_backing st s) l X.
Proof. intros []. by split. Qed.

Lemma mid_bounds s C o : mid s C o → 1 ≤ _num_blocks s < 2 ^ 58 ∧ 0 ≤ _total_avail s ≤ _num_blocks s * E.
Proof. intros (_ & l & Hh). pose proof (holds_bounds c Hg s l _ Hh). tauto. Qed.

Lemma union_move (a : Z) (X Y : gset Z) : ({[a]} ∪ X) ∪ Y = {[a]} ∪ (X ∪ Y).
Proof. set_solver. Qed.

(** ** Allocation without a further block *)

Lemma alloc_here s C o size alloc free :
  mid s C o → size ≤ _slab_size c → (3 < _total_avail s ∨ _backing_store s = false ∨ _nested s = true) → 0 < _total_avail s →
  ∃ p s', try_alloc c alloc free size s = (Ok (Ok p), s') ∧ p ≠ 0 ∧ p ∉ C ∪ o ∧ (∀ C' o', C' ∪ o' = {[p]} ∪ (C ∪ o) → C' ## o' → mid s' C' o') ∧
    _num_blocks s' = _num_blocks s ∧ _total_avail s' = _total_avail s - 1 ∧ frame s s' ∧ dom (blocks s') =@{gset Z} dom (blocks s).
Proof.
  intros (Hd & l & Hh) Hsize Hmode Ht. unfold try_alloc. destruct (Z.ltb_spec (_slab_size c) size); [lia|]. unfold get at 1. erewrite bind_ok by reflexivity.
  assert ((if _total_avail s <=? 3 then _expand c alloc free else mret (Ok tt)) s = (Ok (Ok tt), s)) as Hexp.
  { destruct (Z.leb_spec (_total_avail s) 3) as [?|?]; [|done]. unfold _expand, get. do 2 erewrite bind_ok by reflexivity. destruct Hmode as [?|[->| ->]]; [lia|done|]. by rewrite orb_true_r. }
  mrun Hexp. unfold get. do 2 erewrite bind_ok by reflexivity. destruct (skip_occupied_run c Hg s l _ Hh) as (b & Hrun & Hb & Hpos & _). mrun Hrun.
  erewrite bind_ok by reflexivity. cbn [_curr_sb with_curr]. destruct (holds_curr c s l _ b Hh Hb) as (k & Hk & _).
  destruct (block_alloc_run c Hg (with_curr b s) (b :: k) _ Hk (Hpos Ht)) as (p & s1 & Ha & Hp0 & Hp & Hn & Htot & Hh1 & Hfr & Hdom). mrun Ha.
  destruct (Z.eqb_spec p 0); [done|]. unfold modify. erewrite bind_ok by reflexivity. exists p. eexists. split; [reflexivity|].
  rewrite Hn. cbn [_num_blocks _total_avail with_curr with_counts] in *. rewrite Htot. destruct (mid_bounds s C o) as [_ ?]; [by split; [|exists l]|].
  pose proof (holds_bounds c Hg s l _ Hh) as (_ & _ & ?). rewrite wrap_small in Hh1 |- * by word_lia.
  split_and!; [done|done| |done|done|exact Hfr|exact Hdom]. intros C' o' HC Hd'. split; [done|]. exists (b :: k). by rewrite HC.
Qed.

(** An exhausted slab denies the request. *)
Lemma alloc_exhausted s C o size alloc free :
  mid s C o → size ≤ _slab_size c → _backing_store s = false ∨ _nested s = true → _total_avail s = 0 →
  ∃ s', try_alloc c alloc free size s = (Ok (Err DENIED), s') ∧ mid s' C o ∧
    _num_blocks s' = _num_blocks s ∧ _total_avail s' = _total_avail s ∧ frame s s' ∧ dom (blocks s') =@{gset Z} dom (blocks s).
Proof.
  intros (Hd & l & Hh) Hsize Hmode Ht. unfold try_alloc. destruct (Z.ltb_spec (_slab_size c) size); [lia|]. unfold get at 1. erewrite bind_ok by reflexivity.
  assert ((if _total_avail s <=? 3 then _expand c alloc free else mret (Ok tt)) s = (Ok (Ok tt), s)) as Hexp.
  { rewrite Ht. cbn. unfold _expand, get. do 2 erewrite bind_ok by reflexivity. destruct Hmode as [->| ->]; [done|]. by rewrite orb_true_r. }
  mrun Hexp. unfold get. do 2 erewrite bind_ok by reflexivity. destruct (skip_occupied_run c Hg s l _ Hh) as (b & Hrun & Hb & _ & Hz). mrun Hrun.
  erewrite bind_ok by reflexivity. cbn [_curr_sb with_curr]. destruct (holds_curr c s l _ b Hh Hb) as (k & Hk & _).
  destruct (holds_in c s l _ Hh b Hb) as (x & Hx & _ & _ & Hav). specialize (Hz Ht). unfold avail_at in Hz. rewrite Hx in Hz. cbn in Hz.
  assert (block_alloc c b (with_curr b s) = (Ok 0, with_curr b s)) as Hnull.
  { unfold block_alloc. mrun (block_get_run (with_curr b s) b x Hx). destruct (first_state FREE (states x) 0) as [i|] eqn:Ei; [|done].
    exfalso. apply first_state_some in Ei as (n & _ & Hn). apply free_in_pos in Hn. lia. }
  mrun Hnull. eexists. split; [reflexivity|]. split_and!; [|done..]. split; [done|]. by exists (b :: k).
Qed.

(** ** Scripts *)

(** What stays the same in a call, nested calls included *)
Definition calm s s' : Prop :=
  _nested s' = _nested s ∧ _backing_store s' = _backing_store s ∧ _num_blocks s' ≤ _num_blocks s ∧ dom (blocks s') ⊆@{gset Z} dom (blocks s).

Lemma calm_trans s1 s2 s3 : calm s1 s2 → calm s2 s3 → calm s1 s3.
Proof. intros (?&?&?&?) (?&?&?&?). split_and!; [congruence|congruence|lia|set_solver]. Qed.

Lemma frame_calm s s' : frame s s' → _num_blocks s' = _num_blocks s → dom (blocks s') =@{gset Z} dom (blocks s) → calm s s'.
Proof. intros (? & ? & _) Hn Hd. split_and!; [done|done|lia|by rewrite Hd]. Qed.

Lemma lent_blocks_calm s s' : calm s s' → lent_blocks s' ⊆ lent_blocks s.
Proof. intros (_ & _ & _ & Hd). unfold lent_blocks. set_solver. Qed.

(** How many elements are free after a release: one more, or blocks were given back and more
    than the elements of one block are left. *)
Definition freed s s' : Prop := (_total_avail s' = _total_avail s + 1 ∧ backing s' = backing s) ∨ E < _total_avail s'.

Definition free_spec (free : Z → prog unit) (N : nat) : Prop := ∀ s C a,
  _num_blocks s ≤ Z.of_nat N → inv s ({[a]} ∪ C) → a ∉ C →
  ∃ s', free a s = (Ok tt, s') ∧ inv s' C ∧ calm s s' ∧ owned (backing s') ⊆ owned (backing s) ∧ freed s s'.

Definition alloc_spec (alloc : Z → prog (result Alloc_error Z)) : Prop := ∀ s C o size,
  mid s C o → size ≤ _slab_size c → (3 < _total_avail s ∨ _backing_store s = false ∨ _nested s = true) → 0 < _total_avail s →
  ∃ p s', alloc size s = (Ok (Ok p), s') ∧ p ≠ 0 ∧ p ∉ C ∪ o ∧ (∀ C' o', C' ∪ o' = {[p]} ∪ (C ∪ o) → C' ## o' → mid s' C' o') ∧
    _num_blocks s' = _num_blocks s ∧ _total_avail s' = _total_avail s - 1 ∧ frame s s' ∧ dom (blocks s') =@{gset Z} dom (blocks s).

Abbreviation script_follows := (follows ok owned lent c).

(** The free elements that a script leaves: those of the sum [T] of free elements and of elements
    that the backing store holds, or [K] on top of those it may still take. *)
Definition room_left (T K : Z) (n : nat) s o : Prop := T ≤ _total_avail s + Z.of_nat (base.size o) ∨ K + Z.of_nat n ≤ _total_avail s.

Lemma run_spec {R} (Q : B → R → gset Z → gset Z → Prop) alloc free N T K n o le sc :
  ((0 < n)%nat → alloc_spec alloc) → free_spec free N → script_follows Q n o le sc → K + Z.of_nat n ≤ E + 1 →
  ∀ s C, mid s C o → lent_blocks s = le → _num_blocks s ≤ Z.of_nat N → Z.of_nat n ≤ _total_avail s →
  (n = O ∨ _nested s = true) → Z.of_nat n ≤ E + 1 → room_left T K n s o →
  ∃ r s' o' n', run alloc free sc s = (Ok r, s') ∧ Q (backing s') r o' (lent_blocks s') ∧ mid s' C o' ∧ calm s s' ∧
    (n' ≤ n)%nat ∧ Z.of_nat n' ≤ _total_avail s' ∧ room_left T K n' s' o' ∧ (n = O → o' ⊆ o).
Proof.
  intros Ha Hf Hsc. induction Hsc as [n o le st r HQ|n o le st sz k Hok Ho Hle Hsz Hk IH|n o le st a k Hin Hok Ho Hle Hk IH]; intros HK s C Hm Hl HN Hn Hmode HnE Hroom.
  - exists r, (with_backing st s), o, n. split; [done|]. cbn. rewrite <- Hl in HQ. split; [exact HQ|]. split_and!; [|done|done|cbn; lia|done..].
    destruct Hm as (? & l & ?). split; [done|]. exists l. by apply holds_backing.
  - cbn [run]. unfold modify. erewrite bind_ok by reflexivity. set (s1 := with_backing st s).
    assert (mid s1 C o) as Hm1 by (destruct Hm as (? & l & ?); split; [done|]; exists l; by apply holds_backing).
    destruct (Ha (Nat.lt_0_succ n) s1 C o sz Hm1 Hsz) as (p & s2 & Hrun & Hp0 & Hp & Hm2 & Hn2 & Ht2 & Hfr & Hdom); [destruct Hmode; [done|by right; right]|cbn; lia|].
    mrun Hrun. unfold get. erewrite bind_ok by reflexivity. destruct Hfr as (Hne & Hb2 & ->). cbn [backing s1 with_backing].
    assert (calm s s2) as Hc by (cbn in *; split_and!; [done|done|lia|by rewrite Hdom]).
    destruct Hm as [Hd _]. destruct (IH p) with (s := s2) (C := C) as (r & s' & o' & n' & R1 & HQ & Hm' & Hc' & Hn' & Ht' & Hr' & _); [set_solver|done|intros _; apply Ha; lia|lia|..].
    + apply Hm2; set_solver. + unfold lent_blocks. rewrite Hdom. exact Hl. + cbn in *. lia.
    + cbn in *. lia. + right. rewrite Hne. destruct Hmode; done. + lia.
    + unfold room_left. rewrite Ht2. cbn [_total_avail s1 with_backing]. assert (p ∉ o) by set_solver. rewrite size_union, size_singleton by set_solver. destruct Hroom as [?|?]; [left; lia|right; lia].
    + exists r, s', o', n'. split_and!; [done|done|done|by eapply calm_trans|lia|done|done|done].
  - cbn [run]. unfold modify. erewrite bind_ok by reflexivity. set (s1 := with_backing st s). destruct Hm as (Hd & l & Hh).
    assert (inv s1 ({[a]} ∪ C)) as Hi.
    { split_and!; cbn; [split|done|by rewrite Hle, <- Hl].
      - rewrite Ho. set_solver.
      - exists l. rewrite Ho. replace (({[a]} ∪ C) ∪ o ∖ {[a]}) with (C ∪ o); [by apply holds_backing|].
        apply set_eq. intros y. rewrite !elem_of_union, elem_of_difference, elem_of_singleton. destruct (decide (y = a)) as [->|?]; tauto. }
    destruct (Hf s1 C a) as (s2 & Hrun & (Hm2 & Hok2 & Hl2) & Hc2 & Ho2 & Hfreed); [done..|set_solver|].
    mrun Hrun. unfold get. erewrite bind_ok by reflexivity. cbn [backing s1 with_backing] in Ho2. rewrite Ho in Ho2.
    assert (calm s s2) as Hc by exact Hc2. pose proof (lent_blocks_calm _ _ Hc) as Hls.
    destruct (mid_bounds _ _ _ Hm2) as (_ & Ht2).
    assert (Z.of_nat n ≤ _total_avail s2) as Hn2 by (destruct Hfreed as [[-> _]|?]; cbn; lia).
    destruct (IH (backing s2)) with (s := s2) (C := C) as (r & s' & o' & n' & R1 & HQ & Hm' & Hc' & Hn' & Ht' & Hr' & Hoo); [done|done|rewrite Hl2, <- Hl; done|done|done|done|by rewrite Hl2|..].
    + destruct Hc as (_ & _ & ? & _). lia. + done. + destruct Hc as (-> & _). done. + done.
    + destruct Hfreed as [[Ht Hb]|?]; [|right; lia]. rewrite Hb. cbn. rewrite Ho. unfold room_left. rewrite Ht. cbn.
      assert (base.size o = S (base.size (o ∖ {[a]}))) as Hso.
      { rewrite (union_difference_L {[a]} o) at 1 by set_solver. by rewrite size_union, size_singleton by set_solver. }
      destruct Hroom; [left|right]; lia.
    + exists r, s', o', n'. split_and!; [done|done|done|by eapply calm_trans|lia|done|done|]. intros ->. specialize (Hoo eq_refl). set_solver.
Qed.

Lemma alloc_spec_here alloc free : alloc_spec (try_alloc c alloc free).
Proof. intros s C o sz. apply alloc_here. Qed.

(** ** Release *)

Lemma inv_frame s s' C l :
  inv s C → holds c s' l (C ∪ owned (backing s)) → frame s s' → lent_blocks s' = lent_blocks s → inv s' C.
Proof.
  intros ((Hd & _) & Hok & Hl) Hh (_ & _ & Hb) Hle. unfold inv. rewrite Hb, Hle. split_and!; [|done|done]. split; [done|]. by exists l.
Qed.

(** Giving up the current block, which is free *)
Lemma free_curr_spec alloc free N s C b l x :
  free_spec free N → _num_blocks s ≤ Z.of_nat N + 1 → inv s C →
  holds c s (b :: l) (C ∪ owned (backing s)) → l ≠ [] → _curr_sb s = b → blocks s !! b = Some x → _avail x = E → _backing_store s = true → 2 * E < _total_avail s →
  ∃ s', _free_curr_sb c alloc free s = (Ok tt, s') ∧ inv s' C ∧ calm s s' ∧ owned (backing s') ⊆ owned (backing s) ∧ E < _total_avail s' ∧ _num_blocks s' < _num_blocks s.
Proof.
  intros Hf HN Hi Hh Hl Hcu Hx Hav Hbs Ht. pose proof (epb_bounds c Hg) as (He5 & _). pose proof Hi as (Hm & Hok & Hle). pose proof Hm as [Hd _].
  destruct (free_curr_run c Hg s b l _ x alloc free Hh Hl Hcu Hx Hav Hbs) as (s1 & Hrun & Hh1 & Hn1 & Ht1 & Hfr & Hdom & _). rewrite Hrun.
  assert (calm s s1) as Hc1.
  { destruct Hfr as (? & ? & _). split_and!; [done|done|lia|]. rewrite Hdom. case_bool_decide; set_solver. }
  case_bool_decide as Hb.
  - exists s1. split_and!; [done| |done|by destruct Hfr as (_ & _ & ->)|lia|lia]. apply (inv_frame s s1 C l Hi Hh1 Hfr). unfold lent_blocks. by rewrite Hdom.
  - assert (b ∈ lent (backing s)) as Hbl by (rewrite Hle; unfold lent_blocks; rewrite elem_of_difference, elem_of_singleton, elem_of_dom; split; [by exists x|done]).
    destruct (run_spec _ alloc free N (E + 1 + Z.of_nat (base.size (owned (backing s)))) (E + 1) 0 _ _ _ ltac:(lia) Hf (free_follows (backing s) b Hok Hbl)) with (s := s1) (C := C)
      as (r & s2 & o2 & n2 & Hrun2 & (Hok2 & Ho2 & Hl2) & Hm2 & Hc2 & Hn2 & _ & Hroom & Hsub);
      [lia|split; [done|by exists l]|unfold lent_blocks in *; rewrite Hdom, Hle; set_solver|lia|lia|by left|lia|right; lia|].
    specialize (Hsub eq_refl). destruct r. subst o2. exists s2. split_and!.
    + done. + done. + by eapply calm_trans. + exact Hsub.
    + pose proof (subseteq_size _ _ Hsub). destruct Hroom; lia.
    + destruct Hc2 as (_ & _ & ? & _). lia.
Qed.

Lemma release_loop_spec alloc free N fuel s C :
  free_spec free N → _num_blocks s ≤ Z.of_nat N + 1 → _num_blocks s < Z.of_nat fuel → inv s C →
  ∃ s', release_loop c alloc free fuel s = (Ok tt, s') ∧ inv s' C ∧ calm s s' ∧ owned (backing s') ⊆ owned (backing s) ∧ (s' = s ∨ E < _total_avail s').
Proof.
  intros Hf. revert s. induction fuel as [|fuel IH]; intros s HN Hfu Hi; pose proof Hi as ((Hd & l & Hh) & _); pose proof (holds_bounds c Hg s l _ Hh) as (Hn & Htt & Hnb); [lia|].
  pose proof (epb_bounds c Hg) as (He & _ & Hlt). cbn [release_loop]. unfold get_state. erewrite bind_ok by reflexivity.
  destruct (curr_block c s l _ Hh) as (k & x & -> & Hx & _). mrun (block_get_run s _ x Hx). rewrite (wrap_small 64 (2 * E)) by word_lia. rewrite (proj2 (holds_avail c Hg s _ _ Hh _ x Hx)).
  destruct ((2 * E <? _total_avail s) && (1 <? _num_blocks s) && (_avail x =? E) && _backing_store s) eqn:Ec.
  2: { exists s. split_and!; [done|done|by split_and!; [..|lia|]|done|by left]. }
  apply andb_prop in Ec as [[[H1%Z.ltb_lt H2%Z.ltb_lt]%andb_prop H3%Z.eqb_eq]%andb_prop H4].
  destruct (free_curr_spec alloc free N s C _ k x Hf HN Hi Hh) as (s1 & Hrun & Hi1 & Hc1 & Ho1 & Ht1 & Hn1); try done.
  { intros ->. rewrite (h_num _ _ _ _ Hh) in H2. cbn in H2. lia. }
  mrun Hrun. destruct (IH s1) as (s2 & Hrun2 & Hi2 & Hc2 & Ho2 & Ht2); [lia|lia|done|]. exists s2. split_and!; [done|exact Hi2|by eapply calm_trans|set_solver|].
  right. destruct Ht2 as [->|?]; lia.
Qed.

Lemma free_here alloc free N : free_spec free N → free_spec (_free c alloc free) (S N).
Proof.
  intros Hf s C a HN Hi Hac. pose proof Hi as ((Hd & l & Hh) & _). pose proof (holds_bounds c Hg s l _ Hh) as (Hn & _).
  destruct (free_steps c Hg alloc free s l _ a Hh) as (s1 & b & k & Hrun & Hh1 & Hn1 & Ht1 & Hfr & Hdom); [set_solver|]. rewrite Hrun.
  assert (inv s1 C) as Hi1.
  { destruct Hi as (_ & Hok & Hl). destruct Hfr as (_ & _ & Hb). unfold inv, lent_blocks. rewrite Hb, Hdom. split_and!; [|done|done]. split; [set_solver|].
    exists (b :: k). replace (C ∪ owned (backing s)) with ((({[a]} ∪ C) ∪ owned (backing s)) ∖ {[a]}); [done|]. set_solver. }
  destruct (release_loop_spec alloc free N (1 + Z.to_nat (_num_blocks s)) s1 C Hf) as (s2 & Hrun2 & Hi2 & Hc2 & Ho2 & Ht2); [lia|lia|done|].
  exists s2. pose proof (frame_calm s s1 Hfr Hn1 Hdom) as Hc1. split_and!; [done|exact Hi2|by apply (calm_trans s s1)|..].
  - destruct Hfr as (_ & _ & Hb). by rewrite <- Hb.
  - destruct Ht2 as [->|?]; [left|by right]. destruct Hfr as (_ & _ & ?). done.
Qed.

(** The nested calls up to a depth *)
Lemma nest_spec N : free_spec (nest c N).2 N ∧ alloc_spec (nest c (S N)).1.
Proof.
  induction N as [|N [IHf _]]; cbn [nest].
  - split; [|destruct (nest c 0); apply alloc_spec_here]. intros s C a HN ((_ & l & Hh) & _). pose proof (holds_bounds c Hg s l _ Hh). lia.
  - destruct (nest c N) as [a f] eqn:En. cbn [snd] in IHf. split; [by apply free_here|apply alloc_spec_here].
Qed.

(** ** Expansion *)

(** The reserve for the calls back of the backing store *)
Definition reserved s : Prop := _backing_store s = true → Z.of_nat (takes (c := c)) ≤ _total_avail s.

(** The state between two calls of the slab by its users, who hold [C] *)
Definition ready s C : Prop := inv s C ∧ _nested s = false ∧ reserved s.

(** A block that the backing store lends may join the ring. *)
Lemma lent_block_new s C o b :
  mid s C o → ok (backing s) → b ∉ lent_blocks s → lent (backing s) = {[b]} ∪ lent_blocks s →
  block_fits c b ∧ b ∉ dom (blocks s) ∧ (∀ b', b' ∈ dom (blocks s) → apart c b b').
Proof.
  intros (_ & l & Hh) Hok Hb Hl. assert (b ∈ lent (backing s)) as Hin by (rewrite Hl; set_solver). destruct (lent_initial _ b Hok Hin) as [Hbi Hia].
  split; [by apply (lent_fits (backing s))|]. assert (b ∉ dom (blocks s)) as Hbd by (unfold lent_blocks in Hb; set_solver). split; [done|].
  intros b' Hb'. destruct (decide (b' = _initial_sb c)) as [->|Hne].
  - apply Hia. apply elem_of_dom in Hb' as [x Hx]. destruct (h_block _ _ _ _ Hh _ x Hx) as ([? _] & _). lia.
  - destruct (lent_apart _ b b' Hok Hin) as [->|?]; [|done|done]. rewrite Hl. unfold lent_blocks. set_solver.
Qed.

Lemma mid_nested s C o v : mid s C o → mid (with_nested v s) C o.
Proof. intros (? & l & []). split; [done|]. exists l. by split. Qed.

(** [_new_slab_block] with a backing store *)
Lemma new_slab_block_spec alloc free N s C :
  alloc_spec alloc → free_spec free N → _num_blocks s ≤ Z.of_nat N → inv s C → _nested s = true → _backing_store s = true → Z.of_nat (takes (c := c)) ≤ _total_avail s →
  ∃ r s', _new_slab_block c alloc free s = (Ok r, s') ∧ _nested s' = true ∧ _backing_store s' = true ∧
    match r with
    | Ok b => ∃ s1 o, s' = with_blocks <[b := new_block c b]> s1 ∧ mid s1 C o ∧ ok (backing s1) ∧ owned (backing s1) = o ∧
        b ∉ lent_blocks s1 ∧ lent (backing s1) = {[b]} ∪ lent_blocks s1
    | Err _ => inv s' C ∧ Z.of_nat (takes (c := c)) ≤ _total_avail s'
    end.
Proof.
  intros Ha Hf HN (Hm & Hok & Hl) Hne Hbs Ht. pose proof (epb_bounds c Hg) as (He & _). pose proof (takes_three (c := c)) as H3.
  destruct (run_spec _ alloc free N (_total_avail s + Z.of_nat (base.size (owned (backing s)))) (E + 1 - Z.of_nat (takes (c := c))) (takes (c := c)) _ _ _ (λ _, Ha) Hf (try_alloc_follows (backing s) Hok)) with (s := s) (C := C)
    as (r & s1 & o & n & Hrun & (Hok1 & Ho1 & Hr) & Hm1 & (Hne1 & Hbs1 & _) & Hn & Htn & Hroom & _); [lia|done|done|done|lia|by right|lia|left; lia|].
  unfold _new_slab_block, get. erewrite bind_ok by reflexivity. rewrite Hbs. cbn [negb]. erewrite bind_ok by reflexivity. mrun Hrun.
  destruct r as [b|e]; [destruct Hr as [Hb Hl1]|destruct Hr as [Hl1 Hsub]].
  - exists (Ok b), (with_blocks <[b := new_block c b]> s1). split; [done|]. split_and!; [by rewrite <- Hne, <- Hne1|by rewrite <- Hbs, <- Hbs1|]. by exists s1, o.
  - exists (Err e), s1. split; [done|]. subst o. split_and!; [congruence|congruence|by split|].
    pose proof (subseteq_size _ _ Hsub). destruct Hroom; lia.
Qed.

Lemma expand_spec alloc free N s C :
  alloc_spec alloc → free_spec free N → _num_blocks s ≤ Z.of_nat N → ready s C → _backing_store s = true →
  ∃ r s', _expand c alloc free s = (Ok r, s') ∧ ready s' C ∧ _backing_store s' = true ∧ (is_ok r = true → 5 ≤ _total_avail s').
Proof.
  intros Ha Hf HN (Hi & Hne & Hres) Hbs. specialize (Hres Hbs). pose proof (epb_bounds c Hg) as (He & _). pose proof (takes_three (c := c)) as H3.
  unfold _expand, get, modify. do 2 erewrite bind_ok by reflexivity. rewrite Hbs, Hne. cbn [negb orb]. erewrite bind_ok by reflexivity.
  assert (inv (with_nested true s) C) as Hi' by (destruct Hi as (Hm & ? & ?); split; [by apply mid_nested|done]).
  destruct (new_slab_block_spec alloc free N (with_nested true s) C Ha Hf HN Hi' eq_refl Hbs Hres) as (r & s1 & Hrun & Hne1 & Hbs1 & Hr). mrun Hrun.
  destruct r as [b|e].
  - destruct Hr as (s0 & o & -> & Hm0 & Hok0 & Ho0 & Hb & Hl0). destruct (lent_block_new s0 C o b Hm0 Hok0 Hb Hl0) as (Hfit & Hdom & Hap).
    pose proof (mid_bounds _ _ _ Hm0) as (_ & Ht0). destruct Hm0 as (Hd & l & Hh). destruct (h_curr _ _ _ _ Hh) as [l' El]. rewrite El in Hh.
    destruct (join_run c Hg s0 _ l' _ b Hh Hfit Hdom Hap) as (_ & s2 & Hins & Hh2 & Hn2 & Ht2 & Hfr & Hd2).
    erewrite bind_ok by (erewrite bind_ok by exact Hins; reflexivity). erewrite bind_ok by reflexivity. exists (Ok tt). eexists. split; [reflexivity|].
    destruct Hfr as (_ & Hbs2 & Hb2). cbn. split; [|split; [rewrite Hbs2; exact Hbs1|lia]]. split; [|split; [done|intros _; cbn; lia]].
    unfold inv, lent_blocks. cbn. rewrite Hb2, Ho0, Hd2, Hl0. split; [|split; [done|]].
    + apply mid_nested. split; [done|]. by eexists.
    + unfold lent_blocks. assert (b ≠ _initial_sb c); [|set_solver]. apply (lent_initial (backing s0) b Hok0). rewrite Hl0. set_solver.
  - destruct Hr as [Hi1 Ht1]. do 2 erewrite bind_ok by reflexivity. exists (Err e). eexists. split; [reflexivity|]. split; [|by split].
    split; [|split; [done|by intros _]]. destruct Hi1 as (Hm & ? & ?). split; [by apply mid_nested|done].
Qed.

(** ** Calls by the users *)

Lemma try_alloc_spec alloc free N s C sz :
  alloc_spec alloc → free_spec free N → _num_blocks s ≤ Z.of_nat N → ready s C → sz ≤ _slab_size c →
  ∃ r s', try_alloc c alloc free sz s = (Ok r, s') ∧ _backing_store s' = _backing_store s ∧
    match r with
    | Ok p => p ≠ 0 ∧ p ∉ C ∧ ready s' ({[p]} ∪ C) ∧ _total_avail s - 1 ≤ _total_avail s'
    | Err e => ready s' C ∧ if _backing_store s then _total_avail s ≤ 3 else e = DENIED ∧ _total_avail s = 0
    end.
Proof.
  intros Ha Hf HN Hrd Hsz. pose proof (takes_three (c := c)) as Ht3. pose proof Hrd as (Hi & Hne & Hres). pose proof Hi as (Hm & Hok & Hl).
  assert (∀ s0, ready s0 C → _backing_store s0 = _backing_store s → (3 < _total_avail s0 ∨ _backing_store s0 = false) → 0 < _total_avail s0 → _total_avail s ≤ _total_avail s0 →
    ∃ p s', try_alloc c alloc free sz s0 = (Ok (Ok p), s') ∧ _backing_store s' = _backing_store s ∧ p ≠ 0 ∧ p ∉ C ∧ ready s' ({[p]} ∪ C) ∧ _total_avail s - 1 ≤ _total_avail s') as Hhere.
  { intros s0 (Hi0 & Hne0 & _) Hbs0 Hmode Ht0 Hle. pose proof Hi0 as (Hm0 & Hok0 & Hl0).
    destruct (alloc_here s0 C _ sz alloc free Hm0 Hsz ltac:(tauto) Ht0) as (p & s' & Hrun & Hp0 & Hp & Hm' & Hn' & Ht' & (Hne' & Hbs' & Hb') & Hdom').
    exists p, s'. split_and!; [done|congruence|done|set_solver| |lia]. unfold ready, inv, lent_blocks. rewrite Hb', Hdom'. split; [|split; [congruence|intros Hx; destruct Hmode; [lia|congruence]]].
    split; [|done]. destruct Hm0 as [Hd _]. apply Hm'; set_solver. }
  destruct (decide (_total_avail s ≤ 3)) as [H3|H3]; [|destruct (Hhere s) as (p & s' & ?); [done|done|left; lia|lia|lia|by exists (Ok p), s']].
  destruct (_backing_store s) eqn:Hbs.
  - destruct (expand_spec alloc free N s C Ha Hf HN Hrd Hbs) as (r & s1 & Hrun & Hrd1 & Hbs1 & Htot).
    destruct r as [[]|e].
    + specialize (Htot eq_refl). destruct (Hhere s1) as (p & s' & Hrun' & Hpost); [done|done|left; lia|lia|lia|]. exists (Ok p), s'. split; [|exact Hpost].
      rewrite <- Hrun'. unfold try_alloc, get. destruct (Z.ltb_spec (_slab_size c) sz); [lia|]. erewrite !bind_ok by reflexivity.
      destruct (Z.leb_spec (_total_avail s) 3); [|lia]. mrun Hrun. symmetry. erewrite bind_ok by reflexivity. destruct (Z.leb_spec (_total_avail s1) 3); [lia|]. by erewrite bind_ok by reflexivity.
    + exists (Err e), s1. split; [|done]. unfold try_alloc, get. destruct (Z.ltb_spec (_slab_size c) sz); [lia|]. erewrite bind_ok by reflexivity.
      destruct (Z.leb_spec (_total_avail s) 3); [|lia]. by mrun Hrun.
  - destruct (mid_bounds _ _ _ Hm) as (_ & Ht). destruct (decide (_total_avail s = 0)) as [Hz|Hz].
    + destruct (alloc_exhausted s C _ sz alloc free Hm Hsz ltac:(by left) Hz) as (s' & Hrun & Hm' & Hn' & Ht' & (Hne' & Hbs' & Hb') & Hdom').
      exists (Err DENIED), s'. split; [done|]. split; [congruence|]. split; [|done]. unfold ready, inv, reserved, lent_blocks. rewrite Hb', Hdom', Hne', Hbs', Hbs. done.
    + destruct (Hhere s) as (p & s' & ?); [done|done|by right|lia|lia|by exists (Ok p), s'].
Qed.

Lemma free_ready free N s C a :
  free_spec free N → _num_blocks s ≤ Z.of_nat N → ready s ({[a]} ∪ C) → a ∉ C →
  ∃ s', free a s = (Ok tt, s') ∧ ready s' C ∧ _backing_store s' = _backing_store s ∧ (_total_avail s' = _total_avail s + 1 ∨ E < _total_avail s').
Proof.
  intros Hf HN (Hi & Hne & Hres) Ha. pose proof (epb_bounds c Hg) as (He & _). pose proof (takes_three (c := c)) as H3. destruct (Hf s C a HN Hi Ha) as (s' & Hrun & Hi' & (Hne' & Hbs' & _) & _ & Hfr). exists s'. split; [done|].
  split; [|split; [done|destruct Hfr as [[? _]|?]; [by left|by right]]]. split; [done|]. split; [congruence|]. intros Hb. rewrite Hbs' in Hb. specialize (Hres Hb). destruct Hfr as [[? _]|?]; lia.
Qed.

(** Detaching the store, and attaching it again when there is room for what it takes *)
Lemma set_backing_store_ready s C v :
  ready s C → (v = true → Z.of_nat (takes (c := c)) ≤ _total_avail s) →
  set_backing_store v s = (Ok tt, with_attached v s) ∧ ready (with_attached v s) C.
Proof.
  intros (((Hd & l & Hh) & Hok & Hl) & Hne & _) Hv. split; [done|]. split; [|done].
  split; [|done]. split; [done|]. exists l. destruct Hh. by split.
Qed.

(** A used element, if there is one *)
Lemma any_used_elem_spec s C :
  ready s C → ∃ a s', any_used_elem c s = (Ok a, s') ∧ ready s' C ∧ backing s' = backing s ∧ (if a =? 0 then C ∪ owned (backing s) = ∅ else a ∈ C ∪ owned (backing s)).
Proof.
  intros Hrd. pose proof Hrd as (((Hd & l & Hh) & Hok & Hl) & Hne & Hres). destruct (holds_bounds c Hg s l _ Hh) as (_ & _ & Htb). pose proof (mid_bounds s C _ ltac:(split; [done|by exists l])) as (? & Ht).
  unfold any_used_elem, get_state. erewrite bind_ok by reflexivity. rewrite wrap_small by word_lia. pose proof (all_free c Hg s l _ Hh) as Hall.
  destruct (Z.eqb_spec (_total_avail s) (_num_blocks s * E)) as [Heq|Hneq]; [exists 0, s; split_and!; [done|done|done|by apply Hall]|].
  destruct (skip_free_run c Hg s l _ Hh Hneq) as (b & Hrun & Hb & Hav). mrun Hrun. unfold get. erewrite bind_ok by reflexivity. cbn [_curr_sb with_curr].
  destruct (holds_curr c s l _ b Hh Hb) as (k & Hk & _). destruct (holds_in c s l _ Hh b Hb) as (x & Hx & Hf & Hlen & Hfr). unfold avail_at in Hav. rewrite Hx in Hav. cbn in Hav.
  assert (any_used_entry c b (with_curr b s) = (Ok (match first_state USED (states x) 0 with Some i => _slab_entry c b i | None => 0 end), with_curr b s)) as Hent
    by (unfold any_used_entry; by mrun (block_get_run (with_curr b s) b x Hx)).
  mrun Hent. assert (ready (with_curr b s) C) as Hrd' by (split; [split; [split; [done|by exists (b :: k)]|done]|done]).
  destruct (first_state USED (states x) 0) as [i|] eqn:Ei.
  - apply first_state_some in Ei as (n & -> & Hn). rewrite Z.add_0_l. pose proof (holds_slot c s l _ Hh b x n _ Hx Hn) as Hin.
    pose proof (elem_bounds c Hg b (Z.of_nat n) Hin). pose proof (slab_entry_eq c Hg b _ Hf Hin) as Hse. pose proof (slab_entry_data c Hg b _ Hf Hin) as Hsd. destruct Hf as [? _]. pose proof (epb_bounds c Hg) as (? & _).
    destruct (Z.eqb_spec (_slab_entry c b (Z.of_nat n)) 0) as [?|_]; [unfold sizeof_Block, sizeof_Entry in *; lia|]. rewrite Hsd.
    exists (elem c b (Z.of_nat n)), (with_curr b s). do 3 (split; [done|]).
    destruct (Z.eqb_spec (elem c b (Z.of_nat n)) 0) as [?|_]; [unfold sizeof_Block in *; lia|]. apply (h_used _ _ _ _ Hh). by exists b, x, n.
  - exfalso. apply first_state_none in Ei. apply Hav. rewrite Hfr, <- Hlen. unfold free_in. f_equal. f_equal. apply filter_all, Forall_forall. intros v Hv. destruct v; [|done]. by destruct Ei.
Qed.
End Spec.
