(* ===== verification/Slab_props.v ===== *)
(** * Slab_props: what the slab allocator promises

    The calls of [src/repos/base/src/lib/base/slab.cc] by the users of a slab refine a set of
    used elements, for every backing store with the contract [Backing_laws], also one that
    calls back. *)

From S2P Require Import Prelude Avl_nodes Avl_trees Allocator_avl Slab Slab_ring Slab_ops Slab_spec.

(** ** Calls *)
Inductive call := Try_alloc (size : Z) | Free (addr : Z) | Any_used_elem | Avail_entries | Set_backing_store (v : bool).
Inductive answer := Got (r : result Alloc_error Z) | Nothing | Elem (a : Z) | Entries (n : Z).

Section Props.
Context {B : Type} (c : config) `{Backing_laws c B} (Hg : good c).

Abbreviation E := (_entries_per_block c).
Abbreviation prog := (exc (slab B) fault).
Abbreviation state := (slab B).
Implicit Types (s : state) (l : list Z) (C : gset Z).

Definition perform (k : call) : prog answer :=
  match k with
  | Try_alloc size => r ← at_depth c (λ a f, try_alloc c a f size); mret (Got r)
  | Free addr => at_depth c (λ a f, _free c a f addr);; mret Nothing
  | Any_used_elem => a ← any_used_elem c; mret (Elem a)
  | Avail_entries => n ← avail_entries; mret (Entries n)
  | Set_backing_store v => set_backing_store v;; mret Nothing
  end.

(** Only used elements are freed, and the store is attached only while there are as many
    free elements as it may take. *)
Definition valid s C (k : call) : bool :=
  match k with
  | Free addr => bool_decide (addr ∈ C)
  | Set_backing_store true => Z.of_nat (takes (c := c)) <=? _total_avail s
  | _ => true
  end.

(** The promise: [C] are the used elements of the users, [o] the ones of the backing store. *)
Inductive spec (o C : gset Z) : call → answer → gset Z → Prop :=
  | spec_alloc size p : size ≤ _slab_size c → p ≠ 0 → p ∉ C ∪ o → spec o C (Try_alloc size) (Got (Ok p)) ({[p]} ∪ C)
  | spec_alloc_failed size e : spec o C (Try_alloc size) (Got (Err e)) C
  | spec_free addr : spec o C (Free addr) Nothing (C ∖ {[addr]})
  | spec_any a : a ∈ C ∪ o → spec o C Any_used_elem (Elem a) C
  | spec_none : C ∪ o = ∅ → spec o C Any_used_elem (Elem 0) C
  | spec_entries n : 0 ≤ n → spec o C Avail_entries (Entries n) C
  | spec_attach v : spec o C (Set_backing_store v) Nothing C.

Lemma depth_enough s C : inv c s C → let N := (1 + Z.to_nat (_num_blocks s))%nat in
  _num_blocks s ≤ Z.of_nat N ∧ free_spec c (nest c N).2 N ∧ alloc_spec c (nest c N).1.
Proof.
  intros ((_ & l & Hh) & _) N. pose proof (holds_bounds c Hg s l _ Hh) as (? & _). unfold N. split; [lia|].
  destruct (nest_spec c Hg (1 + Z.to_nat (_num_blocks s))) as [? _]. destruct (nest_spec c Hg (Z.to_nat (_num_blocks s))) as [_ ?]. by split.
Qed.

Lemma at_depth_run {A} (op : _ → _ → prog A) s : at_depth c op s = op (nest c (1 + Z.to_nat (_num_blocks s))).1 (nest c (1 + Z.to_nat (_num_blocks s))).2 s.
Proof. unfold at_depth. by destruct (nest c (1 + Z.to_nat (_num_blocks s))). Qed.

Lemma top_alloc s C sz :
  ready c s C → sz ≤ _slab_size c →
  ∃ r s', at_depth c (λ a f, try_alloc c a f sz) s = (Ok r, s') ∧ _backing_store s' = _backing_store s ∧
    match r with
    | Ok p => p ≠ 0 ∧ p ∉ C ∪ owned (backing s') ∧ ready c s' ({[p]} ∪ C) ∧ _total_avail s - 1 ≤ _total_avail s'
    | Err e => ready c s' C ∧ if _backing_store s then _total_avail s ≤ 3 else e = DENIED ∧ _total_avail s = 0
    end.
Proof.
  intros Hr Hsz. destruct (depth_enough s C (proj1 Hr)) as (HN & Hf & Ha). rewrite at_depth_run.
  destruct (try_alloc_spec c Hg _ _ _ s C sz Ha Hf HN Hr Hsz) as (r & s' & Hrun & Hbs & Hpost). exists r, s'. split_and!; [done|done|].
  destruct r as [p|e]; [|done]. destruct Hpost as (Hp & Hpc & Hr' & Ht). split_and!; [done| |done|done].
  destruct Hr' as (((Hd & _) & _) & _). set_solver.
Qed.

Lemma top_free s C a :
  ready c s ({[a]} ∪ C) → a ∉ C →
  ∃ s', at_depth c (λ al f, _free c al f a) s = (Ok tt, s') ∧ ready c s' C ∧ _backing_store s' = _backing_store s ∧
    (_total_avail s' = _total_avail s + 1 ∨ E < _total_avail s').
Proof.
  intros Hr Ha. destruct (depth_enough s _ (proj1 Hr)) as (HN & Hf & _). rewrite at_depth_run.
  apply (free_ready c Hg _ _ s C a (free_here c Hg _ _ _ Hf)); [lia|done|done].
Qed.

Lemma alloc_too_large s sz : _slab_size c < sz → at_depth c (λ a f, try_alloc c a f sz) s = (Ok (Err DENIED), s).
Proof. intros Hsz. rewrite at_depth_run. unfold try_alloc. by destruct (Z.ltb_spec (_slab_size c) sz); [|lia]. Qed.

Lemma slab_perform_refines s C k :
  ready c s C → valid s C k = true → ∃ a s' C', perform k s = (Ok a, s') ∧ ready c s' C' ∧ spec (owned (backing s')) C k a C'.
Proof.
  intros Hr Hv. destruct k as [sz|addr| | |v]; cbn [valid perform] in *.
  - destruct (decide (sz ≤ _slab_size c)) as [Hsz|Hsz].
    + destruct (top_alloc s C sz Hr Hsz) as (r & s' & Hrun & _ & Hpost). mrun Hrun.
      exists (Got r), s'. destruct r as [p|e]; [destruct Hpost as (? & ? & ? & _)|destruct Hpost as [? _]]; eexists; (split; [done|]); (split; [done|by constructor]).
    + mrun (alloc_too_large s sz ltac:(lia)). exists (Got (Err DENIED)), s, C. split_and!; [done|done|constructor].
  - apply bool_decide_eq_true in Hv. assert (ready c s ({[addr]} ∪ C ∖ {[addr]})) as Hr' by (by rewrite <- union_difference_L by set_solver).
    destruct (top_free s _ addr Hr') as (s' & Hrun & Hr2 & _); [set_solver|]. mrun Hrun.
    exists Nothing, s', (C ∖ {[addr]}). split_and!; [done|done|constructor].
  - destruct (any_used_elem_spec c Hg s C Hr) as (a & s' & Hrun & Hr' & Hb & Ha). mrun Hrun. exists (Elem a), s', C.
    split_and!; [done|done|]. rewrite Hb. destruct (Z.eqb_spec a 0) as [->|?]; by constructor.
  - exists (Entries (_total_avail s)), s, C. split_and!; [done|done|]. constructor.
    destruct Hr as ((Hm & _) & _). pose proof (mid_bounds c Hg _ _ _ Hm). lia.
  - destruct (set_backing_store_ready c s C v Hr) as [Hrun Hr']; [intros ->; by apply Z.leb_le|]. mrun Hrun.
    exists Nothing, (with_attached v s), C. split_and!; [done|done|constructor].
Qed.

(** C28: Every valid call by the users of a slab returns, for every backing store that keeps the
    contract [Backing_laws]: it allocates at most three elements from the slab while it is asked
    for a block and none while a block is given back.  (A store that keeps its meta data in
    this very slab, as a range allocator that is its own store of meta data, does not keep it.)
    No pointer leads out of the blocks, no loop or nesting of calls runs forever.  An allocation
    gives an element that nobody has, frees take exactly the named element, and the elements that
    the backing store takes for its own use stay apart from those of the users.  The store may be
    detached at any time, and attached while there is room for what it takes. *)
Theorem slab_refines s C k :
  ready c s C → valid s C k = true →
  ∃ a s' C', perform k s = (Ok a, s') ∧ ready c s' C' ∧ spec (owned (backing s')) C k a C'.
Proof.
  apply slab_perform_refines.
Qed.

Lemma used_apart s l X a a' :
  holds c s l X → a ∈ X → a' ∈ X → a' ≠ a → a + _slab_size c ≤ a' - sizeof_Entry ∨ a' + _slab_size c ≤ a - sizeof_Entry.
Proof.
  intros Hh (b & x & n & Hx & Hn & ->)%(h_used _ _ _ _ Hh) (b' & x' & n' & Hx' & Hn' & ->)%(h_used _ _ _ _ Hh) Hne.
  pose proof (holds_slot c s l _ Hh b x n _ Hx Hn) as Hin. pose proof (elem_bounds c Hg b _ Hin). pose proof (good_slab c Hg).
  pose proof (holds_slot c s l _ Hh b' x' n' _ Hx' Hn') as Hin'. pose proof (elem_bounds c Hg b' _ Hin').
  destruct (h_apart _ _ _ _ Hh b b' ltac:(by eexists) ltac:(by eexists)) as [<-|Hap].
  - unfold elem, stride, sizeof_Entry in *. assert (n ≠ n') by (intros ->; done). destruct (decide (n < n')%nat); [left|right]; nia.
  - unfold apart in Hap. unfold sizeof_Block, sizeof_Entry in *. pose proof (epb_bounds c Hg). lia.
Qed.

(** C29: The used elements, with the reference to the block in front of each, lie in the blocks
    behind the header and the state table, and no two of them overlap.  If the address of the
    block and the size of the elements are multiples of eight, so is the address of the element. *)
Theorem slab_elements_apart s C a :
  ready c s C → a ∈ C ∪ owned (backing s) →
  (∃ b, (b ∈ lent (backing s) ∨ b = _initial_sb c) ∧ b + sizeof_Block + E ≤ a - sizeof_Entry ∧ a + _slab_size c < b + _block_size c ∧
    ((8 | b) → (8 | _slab_size c) → (8 | a))) ∧
  ∀ a', a' ∈ C ∪ owned (backing s) → a' ≠ a → a + _slab_size c ≤ a' - sizeof_Entry ∨ a' + _slab_size c ≤ a - sizeof_Entry.
Proof.
  intros (((_ & l & Hh) & _ & Hl) & _) Ha. apply (h_used _ _ _ _ Hh) in Ha as (b & x & n & Hx & Hn & ->).
  pose proof (holds_slot c s l _ Hh b x n _ Hx Hn) as Hin. pose proof (elem_bounds c Hg b _ Hin). pose proof (good_slab c Hg). split.
  - exists b. split; [|split; [unfold sizeof_Entry, sizeof_Block in *; lia|split; [lia|]]].
    + rewrite Hl. unfold lent_blocks. rewrite elem_of_difference, elem_of_singleton, elem_of_dom. destruct (decide (b = _initial_sb c)); [by right|left; split; [by eexists|done]].
    + intros H8 Hs. destruct (slots_start_bounds c Hg) as [_ Hst]. unfold elem, stride, sizeof_Block, sizeof_Entry.
      assert ((8 | (8 + _slab_size c) * Z.of_nat n)) by (apply Z.divide_mul_l, Z.divide_add_r; [by exists 1|done]).
      repeat apply Z.divide_add_r; first [done|by exists 4|by exists 1].
  - intros a' Ha' Hne. apply (used_apart s l _ _ a' Hh); [|done|done]. apply (h_used _ _ _ _ Hh). by exists b, x, n.
Qed.

Fixpoint history (ks : list call) : prog (list answer) :=
  match ks with [] => mret [] | k :: ks => a ← perform k; answers ← history ks; mret (a :: answers) end.

(** The elements that the users hold after a call with an answer, and whether the call is valid *)
Definition held C (k : call) (a : answer) : gset Z :=
  match k, a with
  | Try_alloc _, Got (Ok p) => {[p]} ∪ C
  | Free addr, _ => C ∖ {[addr]}
  | _, _ => C
  end.

Fixpoint held_after C (ks : list call) (answers : list answer) : gset Z :=
  match ks, answers with k :: ks, a :: answers => held_after (held C k a) ks answers | _, _ => C end.

Fixpoint valid_history C (ks : list call) s : bool :=
  match ks with
  | [] => true
  | k :: ks =>
      valid s C k &&
      match perform k s with (Ok a, s') => valid_history (held C k a) ks s' | _ => true end
  end.

Lemma history_ready ks : ∀ s C answers s',
  ready c s C → history ks s = (Ok answers, s') → valid_history C ks s = true → ready c s' (held_after C ks answers).
Proof.
  induction ks as [|k ks IH]; intros s C answers s' Hr Hrun Hv; [by injection Hrun as <- <-|].
  cbn [history] in Hrun. unfold mbind, exc_bind in Hrun. destruct (perform k s) as [[a|] s1] eqn:R1; [|done]. destruct (history ks s1) as [[l|] s2] eqn:R2; [|done].
  injection Hrun as <- <-. cbn in Hv. rewrite R1 in Hv. apply andb_prop in Hv as [Hk Hv].
  destruct (slab_perform_refines s C k Hr Hk) as (a' & s1' & C1 & R1' & Hr1 & Hsp).
  rewrite R1 in R1'. injection R1' as <- <-. assert (held C k a = C1) as HC by (by destruct Hsp). cbn [held_after]. apply (IH s1); [by rewrite HC|done|done].
Qed.

(** Three elements for a slab in whose reserve they are *)
Lemma nested_three s C sz alloc free :
  ready c s C → 3 ≤ _total_avail s → sz ≤ _slab_size c →
  ∃ p1 p2 p3 s', (r1 ← try_alloc c alloc free sz; r2 ← try_alloc c alloc free sz; r3 ← try_alloc c alloc free sz; mret (r1, r2, r3)) (with_nested true s) =
      (Ok (Ok p1, Ok p2, Ok p3), s') ∧
    NoDup [p1; p2; p3] ∧ {[p1; p2; p3]} ## C ∪ owned (backing s) ∧ lent_blocks c s' = lent_blocks c s.
Proof.
  intros (((Hd & l & Hh) & _) & _) Hres Hsz.
  assert (mid c (with_nested true s) (C ∪ owned (backing s)) ∅) as Hm0 by (apply mid_nested; split; [set_solver|exists l; by rewrite union_empty_r_L]).
  destruct (alloc_here c Hg _ _ _ sz alloc free Hm0 Hsz ltac:(by right; right) ltac:(cbn; lia)) as (p1 & s1 & R1 & _ & H1 & M1 & _ & T1 & (N1 & _) & D1). mrun R1. cbn [_total_avail with_nested] in T1.
  specialize (M1 ({[p1]} ∪ (C ∪ owned (backing s))) ∅ ltac:(by rewrite !union_empty_r_L) ltac:(set_solver)).
  destruct (alloc_here c Hg _ _ _ sz alloc free M1 Hsz ltac:(by right; right) ltac:(lia)) as (p2 & s2 & R2 & _ & H2 & M2 & _ & T2 & (N2 & _) & D2). mrun R2.
  specialize (M2 ({[p2]} ∪ ({[p1]} ∪ (C ∪ owned (backing s)))) ∅ ltac:(by rewrite !union_empty_r_L) ltac:(set_solver)).
  destruct (alloc_here c Hg _ _ _ sz alloc free M2 Hsz ltac:(right; right; by rewrite N2, N1) ltac:(lia)) as (p3 & s3 & R3 & _ & H3 & _ & _ & _ & _ & D3). mrun R3.
  exists p1, p2, p3, s3. split; [done|]. split; [|split; [set_solver|unfold lent_blocks; by rewrite D3, D2, D1]].
  rewrite !NoDup_cons. split_and!; [set_solver..|]. constructor.
Qed.

End Props.
