(* ===== verification/Slab_life.v ===== *)
(** * Slab_life: construction, release of empty blocks, and destruction of a slab

    The constructor, [insert_sb], [free_empty_blocks] and the destructor of
    [src/repos/base/src/lib/base/slab.cc].  The lemmas on the release of blocks assume that a
    release by the backing store does not call back ([quiet]).  That three elements are in
    reserve for calls back is shown from the construction on. *)

From S2P Require Import Prelude Avl_nodes Avl_trees Allocator_avl Slab Slab_ring Slab_ops Slab_spec Slab_props.

Section Life.
Context {B : Type} (c : config) `{Backing_laws c B} (Hg : good c).

Abbreviation E := (_entries_per_block c).
Abbreviation prog := (exc (slab B) fault).
Implicit Types (s : slab B) (l : list Z) (C : gset Z).

(** ** Construction *)

(** The state that the constructor leaves *)
Definition fresh_slab attached st b : slab B := Slab {[b := new_block c b]} ∅ false 1 E b attached st.

Lemma fresh_slab_holds attached st b : block_fits c b → holds c (fresh_slab attached st b) [b] ∅.
Proof.
  intros Hf. assert (∀ b' x, ({[b := new_block c b]} : gmap Z Block) !! b' = Some x → b' = b ∧ x = new_block c b) as Hl
    by (intros b' x [<- <-]%lookup_singleton_Some; done).
  split; cbn [blocks headers _num_blocks _total_avail _curr_sb fresh_slab].
  - apply NoDup_singleton.
  - split; [|done]. exists (new_block c b). by rewrite lookup_singleton_eq.
  - by exists [].
  - intros b' x [-> ->]%Hl. by apply new_block_ok.
  - intros b' b'' [x [-> _]%Hl] [y [-> _]%Hl]. by left.
  - intros b' x [-> _]%Hl. left. constructor.
  - intros b' x n [-> ->]%Hl Hu. by destruct (new_block_unused c b n).
  - intros a. split; [set_solver|]. intros (b' & x & n & [-> ->]%Hl & Hu & _). by destruct (new_block_unused c b n).
  - done.
  - unfold sum_avail, avail_at. cbn. rewrite lookup_singleton_eq. cbn. lia.
Qed.

Lemma fresh_slab_ready attached st b :
  block_fits c b → ok st → owned st = ∅ → lent st = {[b]} ∖ {[_initial_sb c]} → ready c (fresh_slab attached st b) ∅.
Proof.
  intros Hf Hok Ho Hl. pose proof (epb_bounds c Hg) as (? & _). pose proof (takes_three (c := c)) as Ht. split; [split; [|split; [done|]]|split; [done|intros _; cbn; lia]].
  - cbn. rewrite Ho. split; [set_solver|]. exists [b]. rewrite union_empty_r_L. by apply fresh_slab_holds.
  - cbn. rewrite Hl. unfold lent_blocks. cbn. by rewrite dom_singleton_L.
Qed.

(** With an initial block *)
Lemma init_given attached st :
  block_fits c (_initial_sb c) → ok st → owned st = ∅ → lent st = ∅ →
  ∃ s, at_depth c (init c) (blank attached st) = (Ok (Ok tt), s) ∧ ready c s ∅ ∧ _backing_store s = attached.
Proof.
  intros Hf Hok Ho Hl. exists (fresh_slab attached st (_initial_sb c)). split; [|split; [apply fresh_slab_ready; [done..|rewrite Hl; set_solver]|done]].
  unfold at_depth. destruct (nest c _) as [a f]. unfold init, get, modify. do 2 erewrite bind_ok by reflexivity. destruct Hf as [? _].
  destruct (Z.eqb_spec (_initial_sb c) 0); [lia|]. cbn [andb]. erewrite bind_ok by reflexivity. cbn [_curr_sb with_curr blank]. erewrite bind_ok by reflexivity.
  destruct (Z.eqb_spec (_curr_sb (with_curr (_initial_sb c) (blank attached st))) 0); [cbn in *; lia|]. do 2 erewrite bind_ok by reflexivity. unfold fresh_slab. done.
Qed.

Lemma follows_return_inv {R} (Q : B → R → gset Z → gset Z → Prop) n o le st r : follows ok owned lent c Q n o le (Return st r) → Q st r o le.
Proof. inversion 1. by simplify_eq. Qed.

(** Without one, the first block comes from the backing store, which has no slab to call back. *)
Lemma init_lent st st' r :
  _initial_sb c = 0 → ok st → owned st = ∅ → lent st = ∅ → bs_try_alloc (_block_size c) st = Return st' r →
  ∃ s, at_depth c (init c) (blank true st) = (Ok (match r with Ok _ => Ok tt | Err e => Err e end), s) ∧ (is_ok r = true → ready c s ∅ ∧ _backing_store s = true).
Proof.
  intros Hi Hok Ho Hl Hret. pose proof (try_alloc_follows st Hok) as Hfo. rewrite Hret in Hfo. apply follows_return_inv in Hfo as (Hok' & Ho' & Hr).
  unfold at_depth. destruct (nest c _) as [a f]. unfold init, get. rewrite Hi. do 2 erewrite bind_ok by reflexivity. cbn [Z.eqb _backing_store with_curr blank andb].
  assert ((r ← _new_slab_block c a f; match r with Ok sb => modify (with_curr sb);; mret (Ok tt) | Err error => mret (Err error) end) (with_curr 0 (blank true st)) =
    match r with
    | Ok b => (Ok (Ok tt), with_curr b (with_blocks <[b := new_block c b]> (with_backing st' (with_curr 0 (blank true st)))))
    | Err e => (Ok (Err e), with_backing st' (with_curr 0 (blank true st)))
    end) as Hnew.
  { unfold _new_slab_block, get, mbind, exc_bind. cbn [_backing_store backing with_curr blank negb]. rewrite Hret. by destruct r. }
  unfold mbind at 1, exc_bind at 1. rewrite Hnew.
  destruct r as [b|e].
  - destruct Hr as [_ Hl']. assert (b ∈ lent st') as Hb by (rewrite Hl'; set_solver). pose proof (lent_fits st' b Hok' Hb) as Hf. pose proof Hf as [Hb0 _].
    erewrite bind_ok by reflexivity. cbn [_curr_sb with_curr].
    destruct (Z.eqb_spec b 0); [lia|]. do 2 erewrite bind_ok by reflexivity. eexists. split; [reflexivity|]. intros _. split; [|done].
    match goal with |- ready _ ?s _ => replace s with (fresh_slab true st' b) end.
    + apply fresh_slab_ready; [done|done|by rewrite Ho', Ho|]. rewrite Hl', Hl, Hi. set_solver by lia.
    + unfold fresh_slab. cbn. f_equal. unfold with_counts, with_blocks, with_curr, with_backing. cbn. by rewrite insert_insert_eq.
  - eexists. split; [reflexivity|done].
Qed.

(** Without any memory the constructor throws [DENIED]. *)
Lemma init_denied st : _initial_sb c = 0 → ∃ s, at_depth c (init c) (blank false st) = (Ok (Err DENIED), s).
Proof. intros Hi. unfold at_depth, init. rewrite Hi. destruct (nest c _) as [a f]. by eexists. Qed.

(** A block that the users got from the backing store *)
Lemma insert_sb_spec s C ptr :
  mid c s C (owned (backing s)) → ok (backing s) → _nested s = false → reserved c s → ptr ∉ lent_blocks c s → lent (backing s) = {[ptr]} ∪ lent_blocks c s →
  ∃ s', insert_sb c ptr s = (Ok tt, s') ∧ ready c s' C ∧ _total_avail s' = _total_avail s + E.
Proof.
  intros Hm Hok Hne Hres Hp Hl. pose proof (takes_three (c := c)) as Htk. destruct (lent_block_new c Hg s C _ ptr Hm Hok Hp Hl) as (Hfit & Hdom & Hap). pose proof (epb_bounds c Hg) as (He & _).
  pose proof (mid_bounds c Hg _ _ _ Hm) as (_ & Ht). destruct Hm as (Hd & l & Hh). destruct (h_curr _ _ _ _ Hh) as [l' El]. rewrite El in Hh.
  destruct (join_run c Hg s _ l' _ ptr Hh Hfit Hdom Hap) as (Hc & s2 & Hins & Hh2 & Hn2 & Ht2 & (Hne2 & Hbs2 & Hb2) & Hd2).
  exists s2. split; [unfold insert_sb; by mrun Hc|]. split; [|done]. assert (ptr ≠ _initial_sb c) by (apply (lent_initial (backing s) ptr Hok); rewrite Hl; set_solver).
  split; [|split; [congruence|intros Hb; rewrite Hbs2 in Hb; specialize (Hres Hb); lia]]. unfold inv, lent_blocks. rewrite Hb2, Hd2, Hl. split; [split; [done|by eexists]|].
  split; [done|]. unfold lent_blocks. set_solver.
Qed.

(** ** The reserve for calls back *)

(** C30: From the construction on, after any history of valid calls, a slab whose backing
    store may take three elements has them in reserve while the store is attached: in the
    course of a call, when no further block is asked for, three allocations succeed with three
    new elements, and the ring of blocks stays as it is. *)
Theorem slab_nested_reserve st s0 ks answers s sz alloc free :
  takes (c := c) = 3%nat → block_fits c (_initial_sb c) → ok st → owned st = ∅ → lent st = ∅ →
  at_depth c (init c) (blank true st) = (Ok (Ok tt), s0) →
  history c ks s0 = (Ok answers, s) → valid_history c ∅ ks s0 = true → _backing_store s = true → sz ≤ _slab_size c →
  ∃ p1 p2 p3 s', (r1 ← try_alloc c alloc free sz; r2 ← try_alloc c alloc free sz; r3 ← try_alloc c alloc free sz; mret (r1, r2, r3)) (with_nested true s) =
      (Ok (Ok p1, Ok p2, Ok p3), s') ∧
    NoDup [p1; p2; p3] ∧ {[p1; p2; p3]} ## held_after ∅ ks answers ∪ owned (backing s) ∧ lent_blocks c s' = lent_blocks c s.
Proof.
  intros Htk Hf Hok Ho Hl Hinit Hrun Hv Hbs Hsz. destruct (init_given true st Hf Hok Ho Hl) as (s1 & Hi & Hr & _).
  rewrite Hinit in Hi. injection Hi as <-. pose proof (history_ready c Hg ks _ _ _ _ Hr Hrun Hv) as Hr'.
  apply (nested_three c Hg); [done| |done]. destruct Hr' as (_ & _ & Hres). specialize (Hres Hbs). rewrite Htk in Hres. exact Hres.
Qed.

(** ** Release without calls back *)

Definition quiet : Prop := ∀ st b, ok st → b ∈ lent st → ∃ st', bs_free b (_block_size c) st = Return st' tt.

Lemma quiet_free st b : quiet → ok st → b ∈ lent st →
  ∃ st', bs_free b (_block_size c) st = Return st' tt ∧ ok st' ∧ owned st' = owned st ∧ lent st' = lent st ∖ {[b]}.
Proof.
  intros Hq Hok Hb. destruct (Hq st b Hok Hb) as [st' Hret]. exists st'. split; [done|]. pose proof (free_follows st b Hok Hb) as Hf. rewrite Hret in Hf.
  by apply follows_return_inv in Hf.
Qed.

(** What is lent is, apart from the initial block, exactly the ring. *)
Definition lent_ring s l : Prop := lent (backing s) = list_to_set l ∖ {[_initial_sb c]}.

Lemma inv_lent_ring s C l : inv c s C → holds c s l (C ∪ owned (backing s)) → lent_ring s l.
Proof.
  intros (_ & _ & Hl) Hh. unfold lent_ring. rewrite Hl. unfold lent_blocks. apply set_eq. intros b.
  rewrite !elem_of_difference, elem_of_list_to_set, elem_of_singleton, elem_of_dom. split; intros [Hb Hi]; (split; [|done]).
  - destruct Hb as [x Hx]. destruct (h_spare _ _ _ _ Hh b x Hx) as [?|[? _]]; done.
  - exact (ring_lookup _ _ _ (h_ring _ _ _ _ Hh) Hb).
Qed.

Lemma free_curr_quiet alloc free s C b l :
  quiet → inv c s C → holds c s (b :: l) (C ∪ owned (backing s)) → l ≠ [] → avail_at (blocks s) b = E → _backing_store s = true →
  ∃ s', _free_curr_sb c alloc free s = (Ok tt, s') ∧ inv c s' C ∧ holds c s' l (C ∪ owned (backing s')) ∧ owned (backing s') = owned (backing s) ∧
    _nested s' = _nested s ∧ _backing_store s' = true ∧ _num_blocks s' = _num_blocks s - 1 ∧ (∀ b', b' ≠ b → avail_at (blocks s') b' = avail_at (blocks s) b').
Proof.
  intros Hq Hi Hh Hl Hav Hbs. pose proof Hi as ((Hd & _) & Hok & Hle). destruct (holds_in c s _ _ Hh b ltac:(constructor)) as (x & Hx & _). unfold avail_at in Hav. rewrite Hx in Hav. cbn in Hav.
  destruct (h_curr _ _ _ _ Hh) as [l' [= Hcu _]].
  destruct (free_curr_run c Hg s b l _ x alloc free Hh Hl (eq_sym Hcu) Hx Hav Hbs) as (s1 & Hrun & Hh1 & Hn1 & Ht1 & (Hne1 & Hbs1 & Hb1) & Hdom & Hsame). rewrite Hrun.
  case_bool_decide as Hb.
  - exists s1. rewrite Hb1. split; [done|]. split; [|split_and!; [done|done|done|congruence|done|done]]. unfold inv, lent_blocks. rewrite Hb1, Hdom. split; [split; [done|by exists l]|done].
  - assert (b ∈ lent (backing s)) as Hbl by (rewrite Hle; unfold lent_blocks; rewrite elem_of_difference, elem_of_singleton, elem_of_dom; split; [by exists x|done]).
    destruct (quiet_free _ b Hq Hok Hbl) as (st' & -> & Hok' & Ho' & Hl'). exists (with_backing st' s1). cbn [backing with_backing]. rewrite Ho'.
    split; [done|]. split; [|split_and!; [by apply holds_backing|done|done|cbn; congruence|done|done]].
    unfold inv, lent_blocks. cbn. rewrite Ho', Hl', Hdom, Hle. unfold lent_blocks. split; [split; [done|]|split; [done|set_solver]]. exists l. by apply holds_backing.
Qed.

(** A block that [free_empty_blocks] leaves alone *)
Definition kept s b : Prop := b = _initial_sb c ∨ avail_at (blocks s) b ≠ E.

Lemma free_empty_loop_run alloc free seen : ∀ s C todo,
  quiet → inv c s C → holds c s (todo ++ seen) (C ∪ owned (backing s)) → _backing_store s = true → Forall (kept s) seen ∨ (todo = [] ∧ length seen = 1%nat) →
  ∃ s' l, free_empty_loop c alloc free (length todo) s = (Ok tt, s') ∧ inv c s' C ∧ holds c s' l (C ∪ owned (backing s')) ∧ owned (backing s') = owned (backing s) ∧
    _nested s' = _nested s ∧ _backing_store s' = true ∧ (Forall (kept s') l ∨ length l = 1%nat).
Proof.
  intros s C todo. revert s seen. induction todo as [|b todo IH]; intros s seen Hq Hi Hh Hbs Hk.
  - exists s, seen. cbn. split_and!; [done|done|done|done|done|done|]. destruct Hk as [?|[_ ?]]; [by left|by right].
  - destruct Hk as [Hk|[? _]]; [|done]. cbn [length free_empty_loop app] in *. destruct (h_curr _ _ _ _ Hh) as [l' [= Hcu Hll]]. unfold get. erewrite bind_ok by reflexivity. rewrite <- Hcu.
    destruct (ring_curr _ _ _ (h_ring _ _ _ _ Hh)) as (x & Hx & Hnx & _). mrun (block_get_run s b x Hx). destruct (holds_avail c Hg s _ _ Hh b x Hx) as [Hax ->].
    assert (avail_at (blocks s) b = _avail x) as Hat by (unfold avail_at; by rewrite Hx).
    destruct (negb (b =? _initial_sb c) && (_avail x =? E)) eqn:Ec.
    + apply andb_prop in Ec as [Hbi%negb_true_iff%Z.eqb_neq Hb2%Z.eqb_eq]. destruct (decide (todo ++ seen = [])) as [Hnil|Hnil].
      * apply app_eq_nil in Hnil as [-> ->]. cbn in Hh.
        assert (_free_curr_sb c alloc free s = (Ok tt, with_curr (hd_z [] b) s)) as Hrun.
        { unfold _free_curr_sb, get. erewrite bind_ok by reflexivity. rewrite <- Hcu. mrun (block_get_run s b x Hx). unfold modify. do 2 erewrite bind_ok by reflexivity. cbn [_num_blocks with_curr].
          rewrite (h_num _ _ _ _ Hh). cbn. by rewrite Hnx. }
        mrun Hrun. cbn [length free_empty_loop]. eexists; exists [b]. split; [reflexivity|]. pose proof (holds_rotate c s [] _ b Hh) as Hh'. cbn in Hh'.
        split_and!; [|done..|by right]. destruct Hi as ((? & _) & ? & ?). split; [split; [done|by exists [b]]|done].
      * destruct (free_curr_quiet alloc free s C b _ Hq Hi Hh Hnil ltac:(congruence) Hbs) as (s1 & Hrun & Hi1 & Hh1 & Ho1 & Hne1 & Hbs1 & _ & Hsame). mrun Hrun.
        destruct (IH s1 seen Hq Hi1 Hh1 Hbs1) as (s2 & l & Hrun2 & Hi2 & Hh2 & Ho2 & Hne2 & Hbs2 & Hk2).
        { left. apply Forall_forall. intros b' Hb'. rewrite Forall_forall in Hk. destruct (Hk b' Hb') as [?|Hv]; [by left|right]. rewrite Hsame; [done|]. intros ->.
          pose proof (h_nodup _ _ _ _ Hh) as [Hnb _]%NoDup_cons. apply Hnb. set_solver. }
        exists s2, l. split_and!; try done; congruence.
    + unfold modify. erewrite bind_ok by reflexivity. rewrite Hnx. pose proof (holds_rotate c s _ _ b Hh) as Hh'. rewrite <- app_assoc in Hh'.
      destruct (IH (with_curr (hd_z (todo ++ seen) b) s) (seen ++ [b]) Hq) as (s2 & l & Hrun2 & Hi2 & Hh2 & Ho2 & Hne2 & Hbs2 & Hk2); [|done|done| |by exists s2, l].
      * destruct Hi as ((? & _) & ? & ?). split; [split; [done|by eexists]|done].
      * left. apply Forall_app. split; [exact Hk|]. constructor; [|done]. unfold kept. cbn. rewrite Hat. apply andb_false_iff in Ec as [Ec%negb_false_iff%Z.eqb_eq|Ec%Z.eqb_neq]; [by left|by right].
Qed.

(** [free_empty_blocks] gives every block without a used element back, apart from the
    initial block or a last one, and touches no element. *)
Theorem free_empty_blocks_releases s C alloc free :
  quiet → inv c s C → _backing_store s = true →
  ∃ s' l, free_empty_blocks c alloc free s = (Ok tt, s') ∧ inv c s' C ∧ owned (backing s') = owned (backing s) ∧
    lent (backing s') = list_to_set l ∖ {[_initial_sb c]} ∧
    ((∃ b, l = [b]) ∨ ∀ b, b ∈ l → b ≠ _initial_sb c → ∃ x n, blocks s' !! b = Some x ∧ states x !! n = Some USED).
Proof.
  intros Hq Hi Hbs. pose proof Hi as ((_ & l & Hh) & _). pose proof (h_num _ _ _ _ Hh) as Hn.
  destruct (free_empty_loop_run alloc free [] s C l Hq Hi) as (s' & l' & Hrun & Hi' & Hh' & Ho' & _ & _ & Hk); [by rewrite app_nil_r|done|left; constructor|].
  exists s', l'. split; [|split_and!; [done|done|by apply (inv_lent_ring s' C)|]].
  - unfold free_empty_blocks, get. erewrite bind_ok by reflexivity. by rewrite Hn, Nat2Z.id.
  - destruct Hk as [Hk|Hk]; [right|left; destruct l' as [|b [|]]; by try exists b]. intros b Hb Hbi. rewrite Forall_forall in Hk. destruct (Hk b Hb) as [?|Hav]; [done|].
    destruct (holds_in c s' l' _ Hh' b Hb) as (x & Hx & _ & Hlen & Hfr). exists x. unfold avail_at in Hav. rewrite Hx in Hav. cbn in Hav.
    destruct (first_state USED (states x) 0) as [i|] eqn:Ei; [apply first_state_some in Ei as (n & _ & Hu); by exists n|].
    exfalso. apply first_state_none in Ei. apply Hav. rewrite Hfr, <- Hlen. unfold free_in. f_equal. f_equal. apply filter_all, Forall_forall. intros v Hv. destruct v; [|done]. by destruct Ei.
Qed.

(** ** Destruction *)

Lemma destroy_loop_run alloc free fuel : ∀ s,
  quiet → inv c s ∅ → owned (backing s) = ∅ → _backing_store s = true → _num_blocks s < Z.of_nat fuel →
  ∃ s' b, destroy_loop c alloc free fuel s = (Ok tt, s') ∧ inv c s' ∅ ∧ holds c s' [b] (∅ ∪ owned (backing s')) ∧ owned (backing s') = ∅ ∧ _backing_store s' = true.
Proof.
  induction fuel as [|fuel IH]; intros s Hq Hi Ho Hbs Hfu; pose proof Hi as ((Hd & l & Hh) & Hok & Hle); pose proof (holds_bounds c Hg s l _ Hh) as (Hn & _); [lia|].
  cbn [destroy_loop]. unfold get_state. erewrite bind_ok by reflexivity. pose proof (h_num _ _ _ _ Hh) as Hnum. destruct (h_curr _ _ _ _ Hh) as [k El].
  destruct (Z.ltb_spec 1 (_num_blocks s)) as [Hn1|Hn1]; cbn [negb].
  2: { exists s, (_curr_sb s). split_and!; [done|done| |done|done]. replace [_curr_sb s] with l; [done|]. rewrite El in *. destruct k; [done|]. cbn in Hnum. lia. }
  assert (∃ s1 b k', (if _curr_sb s =? _initial_sb c then x ← block (_curr_sb s); modify (with_curr (next x)) else mret tt) s = (Ok tt, s1) ∧ holds c s1 (b :: k') (∅ ∪ owned (backing s)) ∧
    k' ≠ [] ∧ s1 = with_curr b s) as (s1 & b & k' & Hrot & Hh1 & Hk' & ->).
  { rewrite El in Hh, Hnum. destruct (Z.eqb_spec (_curr_sb s) (_initial_sb c)) as [_|_].
    - destruct (ring_curr _ _ _ (h_ring _ _ _ _ Hh)) as (x & Hx & Hnx & _). pose proof (holds_rotate c s k _ _ Hh) as Hh'. destruct k as [|b k]; [cbn in Hnum; lia|]. cbn [hd_z app] in Hh', Hnx.
      exists (with_curr b s), b, (k ++ [_curr_sb s]). split; [mrun (block_get_run s _ x Hx); by rewrite Hnx|]. split; [done|]. split; [by destruct k|done].
    - exists s, (_curr_sb s), k. split; [done|]. split; [done|]. split; [intros ->; cbn in Hnum; lia|by destruct s]. }
  mrun Hrot. assert (inv c (with_curr b s) ∅) as Hi1 by (split; [split; [done|by eexists]|done]).
  destruct (free_curr_quiet alloc free (with_curr b s) ∅ b k' Hq Hi1 Hh1 Hk') as (s2 & Hrun & Hi2 & _ & Ho2 & _ & Hbs2 & Hn2 & _); [|done|].
  - rewrite Ho, union_empty_r_L in Hh1. apply (unused_full c _ _ Hh1). constructor.
  - mrun Hrun. apply IH; [done|done|by rewrite Ho2|done|cbn in Hn2; lia].
Qed.

(** The destructor of a slab without used elements gives every block back that it got
    from the backing store, and never the initial one. *)
Theorem slab_destructor_releases s alloc free :
  quiet → inv c s ∅ → owned (backing s) = ∅ → _backing_store s = true →
  ∃ s', destroy c alloc free s = (Ok tt, s') ∧ lent (backing s') = ∅.
Proof.
  intros Hq Hi Ho Hbs. pose proof Hi as ((_ & l & Hh) & _). pose proof (holds_bounds c Hg s l _ Hh) as (Hn & _).
  destruct (destroy_loop_run alloc free (1 + Z.to_nat (_num_blocks s)) s Hq Hi Ho Hbs ltac:(lia)) as (s1 & b & Hrun & Hi1 & Hh1 & Ho1 & Hbs1).
  unfold destroy, get_state. erewrite bind_ok by reflexivity. rewrite Hbs. cbn [negb]. mrun Hrun. unfold get. erewrite bind_ok by reflexivity.
  destruct (h_curr _ _ _ _ Hh1) as [k [= <- _]]. destruct (holds_in c s1 _ _ Hh1 b ltac:(constructor)) as (x & Hx & _).
  pose proof (inv_lent_ring s1 ∅ [b] Hi1 Hh1) as Hl. unfold lent_ring in Hl. cbn [list_to_set] in Hl.
  unfold _release_backing_store. mrun (block_get_run s1 b x Hx). unfold modify. erewrite bind_ok by reflexivity. unfold get. erewrite bind_ok by reflexivity. cbn [_backing_store with_counts]. rewrite Hbs1.
  destruct (Z.eqb_spec b (_initial_sb c)) as [->|Hne]; cbn [negb andb].
  - eexists. split; [reflexivity|]. cbn. rewrite Hl. set_solver.
  - assert (b ∈ lent (backing s1)) as Hb by (rewrite Hl; set_solver). destruct (quiet_free _ b Hq (proj1 (proj2 Hi1)) Hb) as (st' & Hret & _ & _ & Hl').
    unfold hand_over, modify. do 2 erewrite bind_ok by reflexivity. cbn [backing with_headers with_blocks with_counts]. rewrite Hret. eexists. split; [reflexivity|]. cbn. rewrite Hl', Hl. set_solver.
Qed.

End Life.
