(* ===== verification/Slab_demo.v ===== *)
(** * Slab_demo: two backing stores and example runs of the slab allocator

    [nursery] is a backing store that keeps one record per block that it lends, and allocates
    the record from the very slab that asks for the block; [supply] only lends blocks.  Both
    have the contract of [Slab_spec]; they instantiate the theorems on
    [src/repos/base/src/lib/base/slab.cc] at concrete states. *)

From S2P Require Import Prelude Avl_nodes Avl_trees Allocator_avl Slab Slab_ring Slab_ops Slab_spec Slab_props Slab_life.

(** Elements of 16 bytes in blocks of eight, with an initial block at 4096 *)
Definition demo_config : config := Config 16 264 4096.

Lemma demo_good : good demo_config.
Proof. split; cbn; lia. Qed.

Abbreviation cfg := demo_config.

(** The place of the [i]-th block of a store *)
Definition place (i : nat) : Z := 8192 + 4096 * Z.of_nat i.

Lemma place_fits i : (i < 1000)%nat → block_fits cfg (place i).
Proof. unfold block_fits, place. cbn. lia. Qed.

Lemma place_apart i j : place i = place j ∨ apart cfg (place i) (place j).
Proof. unfold apart, place. cbn. lia. Qed.

Lemma place_initial i : place i ≠ _initial_sb cfg ∧ (_initial_sb cfg ≠ 0 → apart cfg (place i) (_initial_sb cfg)).
Proof. unfold apart, place. cbn. lia. Qed.

(** ** A store that calls back *)

(** The number of blocks lent so far, a bound for it, and the record of each block that is lent *)
Record nursery := Nursery { count : nat; bound : nat; books : gmap Z Z }.

Definition nursery_alloc (st : nursery) : Script nursery (result Alloc_error Z) :=
  if (count st <? bound st)%nat then
    Take st 16 (λ st r,
      match r with
      | Ok p => Return (Nursery (S (count st)) (bound st) (<[place (count st) := p]> (books st))) (Ok (place (count st)))
      | Err e => Return st (Err e)
      end)
  else Return st (Err OUT_OF_RAM).

Definition nursery_free (b : Z) (st : nursery) : Script nursery unit :=
  match books st !! b with
  | Some p => Give (Nursery (count st) (bound st) (base.delete b (books st))) p (λ st, Return st tt)
  | None => Return st tt
  end.

#[export] Instance nursery_backing : Backing nursery := {| bs_try_alloc _ := nursery_alloc; bs_free b _ := nursery_free b |}.

Definition nursery_owned (st : nursery) : gset Z := map_img (books st).
Definition nursery_lent (st : nursery) : gset Z := dom (books st).

Record nursery_ok (st : nursery) : Prop := NurseryOk {
  nursery_bound : (bound st ≤ 1000)%nat;
  nursery_places b : b ∈ dom (books st) → ∃ i, b = place i ∧ (i < count st)%nat ∧ (i < bound st)%nat;
  nursery_inj b b' p : books st !! b = Some p → books st !! b' = Some p → b = b' }.

Lemma nursery_alloc_follows st : nursery_ok st →
  follows nursery_ok nursery_owned nursery_lent cfg (allocated_from nursery_ok nursery_owned nursery_lent (nursery_owned st)) 3 (nursery_owned st) (nursery_lent st) (nursery_alloc st).
Proof.
  intros Hok. unfold nursery_alloc. destruct (Nat.ltb_spec (count st) (bound st)) as [Hlt|_]; [|by constructor].
  apply follows_take; [done..|cbn; lia|]. intros p Hp _. constructor. destruct Hok as [Hb Hpl Hinj].
  assert (place (count st) ∉ dom (books st)) as Hnew by (intros (i & He & Hi & _)%Hpl; unfold place in He; lia).
  assert (∀ b, books st !! b ≠ Some p) as Hnp by (intros b Hbp; apply Hp; by apply elem_of_map_img_2 with b).
  apply not_elem_of_dom in Hnew as Hnone. split; [split; cbn; [done| |]|split; [|split]].
  - intros b. rewrite dom_insert_L, elem_of_union, elem_of_singleton. intros [->|Hb']; [exists (count st); lia|]. destruct (Hpl b Hb') as (i & ? & ? & ?). exists i. lia.
  - intros b b' q [[<- <-]|[Hn Hq]]%lookup_insert_Some [[<- Hq']|[Hn' Hq']]%lookup_insert_Some; [done|by destruct (Hnp b')|subst q; by destruct (Hnp b)|by eapply Hinj].
  - unfold nursery_owned. cbn. by apply map_img_insert_notin_L.
  - done.
  - unfold nursery_lent. cbn. apply dom_insert_L.
Qed.

Lemma nursery_free_follows st b : nursery_ok st → b ∈ nursery_lent st →
  follows nursery_ok nursery_owned nursery_lent cfg (freed_to nursery_ok nursery_owned nursery_lent) 0 (nursery_owned st) (nursery_lent st ∖ {[b]}) (nursery_free b st).
Proof.
  intros [Hb Hpl Hinj] Hin. unfold nursery_free. unfold nursery_lent in Hin. apply elem_of_dom in Hin as [p Hp]. rewrite Hp. apply follows_give.
  - by apply elem_of_map_img_2 with b.
  - split; cbn; [done| |].
    + intros b' Hb'. apply Hpl. rewrite dom_delete_L in Hb'. set_solver.
    + intros b1 b2 q [_ H1]%lookup_delete_Some [_ H2]%lookup_delete_Some. by eapply Hinj.
  - apply set_eq. intros q. unfold nursery_owned. rewrite elem_of_difference, elem_of_singleton, !elem_of_map_img. cbn. split.
    + intros (b' & [Hne Hq]%lookup_delete_Some). split; [by exists b'|]. intros ->. apply Hne. by eapply Hinj.
    + intros [[b' Hq] Hne]. exists b'. apply lookup_delete_Some. split; [intros <-; congruence|done].
  - apply dom_delete_L.
  - intros st' Hok' _ _. by constructor.
Qed.

#[export] Program Instance nursery_laws : Backing_laws cfg nursery := {| ok := nursery_ok; owned := nursery_owned; lent := nursery_lent; takes := 3 |}.
Next Obligation. lia. Qed.
Next Obligation. intros st b Hok (i & -> & _ & Hi)%(nursery_places _ Hok). apply place_fits. pose proof (nursery_bound _ Hok). lia. Qed.
Next Obligation. intros st b b' Hok (i & -> & _)%(nursery_places _ Hok) (j & -> & _)%(nursery_places _ Hok). apply place_apart. Qed.
Next Obligation. intros st b Hok (i & -> & _)%(nursery_places _ Hok). apply place_initial. Qed.
Next Obligation. intros st. apply nursery_alloc_follows. Qed.
Next Obligation. intros st b. apply nursery_free_follows. Qed.

Lemma new_nursery_ok n : (n ≤ 1000)%nat → nursery_ok (Nursery 0 n ∅).
Proof. intros Hn. split; cbn; [done|set_solver|set_solver]. Qed.

(** ** A store that only lends blocks *)

Record supply := Supply { given : nat; limit : nat; out : gset Z }.

#[export] Instance supply_backing : Backing supply := {|
  bs_try_alloc _ st :=
    if (given st <? limit st)%nat then Return (Supply (S (given st)) (limit st) ({[place (given st)]} ∪ out st)) (Ok (place (given st)))
    else Return st (Err OUT_OF_RAM);
  bs_free b _ st := Return (Supply (given st) (limit st) (out st ∖ {[b]})) tt |}.

Definition supply_ok (st : supply) : Prop := (limit st ≤ 1000)%nat ∧ ∀ b, b ∈ out st → ∃ i, b = place i ∧ (i < given st)%nat ∧ (i < limit st)%nat.

#[export] Program Instance supply_laws : Backing_laws cfg supply := {| ok := supply_ok; owned _ := ∅; lent := out; takes := 0 |}.
Next Obligation. lia. Qed.
Next Obligation. intros st b [Hl Hok] (i & -> & _ & Hi)%Hok. apply place_fits. lia. Qed.
Next Obligation. intros st b b' [Hl Hok] (i & -> & _)%Hok (j & -> & _)%Hok. apply place_apart. Qed.
Next Obligation. intros st b [Hl Hok] (i & -> & _)%Hok. apply place_initial. Qed.
Next Obligation.
  intros st [Hl Hok]. cbn [bs_try_alloc supply_backing]. destruct (Nat.ltb_spec (given st) (limit st)) as [Hlt|_]; [|by constructor]. constructor. split; [split; [done|]|split; [done|split; [|done]]].
  - intros b [->%elem_of_singleton|Hb]%elem_of_union; [exists (given st); cbn; lia|]. destruct (Hok b Hb) as (i & ? & ? & ?). exists i. cbn. lia.
  - intros (i & He & Hi & _)%Hok. unfold place in He. lia.
Qed.
Next Obligation. intros st b [Hl Hok] Hb. constructor. split; [split; [done|]|done]. intros b' Hb'. apply Hok. cbn in Hb'. set_solver. Qed.

Lemma supply_quiet : quiet (B := supply) cfg.
Proof. intros st b _ _. by eexists. Qed.

Lemma new_supply_ok n : (n ≤ 1000)%nat → supply_ok (Supply 0 n ∅).
Proof. intros Hn. split; [done|set_solver]. Qed.

(** ** Example runs *)

Definition result_of {B} (p : result fault (list answer) * slab B) : list answer := match p.1 with Ok l => l | Err _ => [] end.

(** A new slab, and its state after some calls *)
Definition new_slab {B} `{Backing B} (st : B) : slab B := (at_depth cfg (init cfg) (blank true st)).2.
Definition after {B} `{Backing B} (st : B) (ks : list call) : slab B := (history cfg ks (new_slab st)).2.
Definition users {B} `{Backing B} (st : B) (ks : list call) : gset Z := held_after ∅ ks (result_of (history cfg ks (new_slab st))).

Lemma after_ready {B} `{Backing_laws cfg B} (st : B) ks answers :
  ok st → owned st = ∅ → lent st = ∅ → (history cfg ks (new_slab st)).1 = Ok answers → valid_history cfg ∅ ks (new_slab st) = true →
  ready cfg (after st ks) (users st ks).
Proof.
  intros Hok Ho Hl Hrun Hv. destruct (init_given cfg demo_good true st) as (s & Hi & Hr & _); [unfold block_fits; cbn; lia|done..|].
  unfold users, after, new_slab in *. rewrite Hi in *. cbn [snd] in *. unfold result_of. destruct (history cfg ks s) as [r s'] eqn:R. cbn [fst snd] in *. subst r. by apply (history_ready cfg demo_good ks s).
Qed.

(** For calls that must not reach the backing store *)
Definition no_alloc {B} : Z → exc (slab B) fault (result Alloc_error Z) := λ _, throw Diverges.
Definition no_free {B} : Z → exc (slab B) fault unit := λ _, throw Diverges.

Definition allocs (n : nat) : list call := replicate n (Try_alloc 16).

(** The sixth allocation makes the slab ask for a block, and the store takes the element at 4264 for its record. *)
Example nursery_answers : result_of (history cfg (allocs 10 ++ [Free 4168; Any_used_elem; Avail_entries]) (new_slab (Nursery 0 10 ∅))) =
  [Got (Ok 4144); Got (Ok 4168); Got (Ok 4192); Got (Ok 4216); Got (Ok 4240); Got (Ok 4288); Got (Ok 4312); Got (Ok 8240); Got (Ok 8264); Got (Ok 8288);
   Nothing; Elem 4144; Entries 6].
Proof. by vm_compute. Qed.

Definition busy : slab nursery := after (Nursery 0 10 ∅) (allocs 10).
Definition busy_users : gset Z := users (Nursery 0 10 ∅) (allocs 10).

Lemma busy_ready : ready cfg busy busy_users.
Proof.
  eapply after_ready; [by apply new_nursery_ok; lia|done|done| |].
  - by vm_compute.
  - by vm_compute.
Qed.

Lemma slab_refines_witness :
  ready cfg busy busy_users ∧ valid cfg busy busy_users (Free 8264) = true ∧
  ∃ a s' C', perform cfg (Free 8264) busy = (Ok a, s') ∧ ready cfg s' C' ∧ spec cfg (owned (backing s')) busy_users (Free 8264) a C'.
Proof.
  assert (valid cfg busy busy_users (Free 8264) = true) as Hv by (by vm_compute).
  split; [exact busy_ready|]. split; [exact Hv|]. exact (slab_refines cfg demo_good busy busy_users (Free 8264) busy_ready Hv).
Defined.

Lemma slab_elements_apart_witness :
  ready cfg busy busy_users ∧ 4264 ∈ busy_users ∪ owned (backing busy) ∧
  (∃ b, (b ∈ lent (backing busy) ∨ b = _initial_sb cfg) ∧ b + sizeof_Block + _entries_per_block cfg ≤ 4264 - sizeof_Entry ∧ 4264 + _slab_size cfg < b + _block_size cfg ∧
    ((8 | b) → (8 | _slab_size cfg) → (8 | 4264))) ∧
  ∀ a', a' ∈ busy_users ∪ owned (backing busy) → a' ≠ 4264 → 4264 + _slab_size cfg ≤ a' - sizeof_Entry ∨ a' + _slab_size cfg ≤ 4264 - sizeof_Entry.
Proof.
  assert (4264 ∈ busy_users ∪ owned (backing busy)) as Ha.
  { apply elem_of_union. right. apply (elem_of_map_img_2 _ (place 0)). by vm_compute. }
  split; [exact busy_ready|]. split; [exact Ha|]. exact (slab_elements_apart cfg demo_good busy busy_users 4264 busy_ready Ha).
Defined.

(** Ten allocations, and the store detached and attached in between *)
Definition busy_calls : list call := allocs 6 ++ [Set_backing_store false; Set_backing_store true] ++ allocs 4.

Lemma slab_nested_reserve_witness :
  let st := Nursery 0 10 ∅ in
  let answers := result_of (history cfg busy_calls (new_slab st)) in
  let s := after st busy_calls in
  takes (c := cfg) (B := nursery) = 3%nat ∧ nursery_ok st ∧ history cfg busy_calls (new_slab st) = (Ok answers, s) ∧
  valid_history cfg ∅ busy_calls (new_slab st) = true ∧ _backing_store s = true ∧ 16 ≤ _slab_size cfg ∧
  ∃ p1 p2 p3 s', (r1 ← try_alloc cfg no_alloc no_free 16; r2 ← try_alloc cfg no_alloc no_free 16;
      r3 ← try_alloc cfg no_alloc no_free 16; mret (r1, r2, r3)) (with_nested true s) = (Ok (Ok p1, Ok p2, Ok p3), s') ∧
    NoDup [p1; p2; p3] ∧ {[p1; p2; p3]} ## held_after ∅ busy_calls answers ∪ owned (backing s) ∧ lent_blocks cfg s' = lent_blocks cfg s.
Proof.
  intros st answers s. assert (ok (c := cfg) st) as Hok by (apply new_nursery_ok; lia).
  assert (history cfg busy_calls (new_slab st) = (Ok answers, s)) as Hrun.
  { unfold answers, s, after, result_of. destruct (history cfg busy_calls (new_slab st)) as [[l|] s'] eqn:R; [done|]. exfalso. revert R. vm_compute. discriminate. }
  assert (valid_history cfg ∅ busy_calls (new_slab st) = true) as Hv by (by vm_compute).
  assert (_backing_store s = true) as Hb by (by vm_compute). assert (16 ≤ _slab_size cfg) as Hs by (cbn; lia).
  split; [reflexivity|]. split; [exact Hok|]. split; [exact Hrun|]. split; [exact Hv|]. split; [exact Hb|]. split; [exact Hs|].
  assert (block_fits cfg (_initial_sb cfg)) as Hf by (unfold block_fits; cbn; lia).
  assert (at_depth cfg (init cfg) (blank true st) = (Ok (Ok tt), new_slab st)) as Hi.
  { destruct (init_given cfg demo_good true st Hf Hok eq_refl eq_refl) as (s0 & Hi & _). unfold new_slab. by rewrite Hi. }
  exact (slab_nested_reserve cfg demo_good st (new_slab st) busy_calls answers s 16 no_alloc no_free eq_refl Hf Hok eq_refl eq_refl Hi Hrun Hv Hb Hs).
Defined.

(** Two blocks, of which the users have given one back entirely *)
Definition idle_calls : list call := allocs 11 ++ [Free 8240; Free 8264; Free 8288].
Definition idle : slab supply := after (Supply 0 10 ∅) idle_calls.
Definition idle_users : gset Z := users (Supply 0 10 ∅) idle_calls.

Lemma idle_ready : ready cfg idle idle_users.
Proof.
  unfold idle, idle_users. apply (after_ready (Supply 0 10 ∅) idle_calls (result_of (history cfg idle_calls (new_slab (Supply 0 10 ∅))))); [apply new_supply_ok; lia|done|done| |].
  - by vm_compute.
  - by vm_compute.
Qed.

Lemma free_empty_blocks_releases_witness :
  quiet (B := supply) cfg ∧ inv cfg idle idle_users ∧ _backing_store idle = true ∧
  ∃ s' l, free_empty_blocks cfg no_alloc no_free idle = (Ok tt, s') ∧ inv cfg s' idle_users ∧ owned (backing s') = owned (backing idle) ∧
    lent (backing s') = list_to_set l ∖ {[_initial_sb cfg]} ∧
    ((∃ b, l = [b]) ∨ ∀ b, b ∈ l → b ≠ _initial_sb cfg → ∃ x n, blocks s' !! b = Some x ∧ states x !! n = Some USED).
Proof.
  assert (_backing_store idle = true) as Hb by (by vm_compute). pose proof (proj1 idle_ready) as Hi.
  split; [exact supply_quiet|]. split; [exact Hi|]. split; [exact Hb|].
  exact (free_empty_blocks_releases cfg demo_good idle idle_users no_alloc no_free supply_quiet Hi Hb).
Defined.

Definition unused_calls : list call := allocs 3 ++ [Free 4144; Free 4168; Free 4192].
Definition unused : slab supply := after (Supply 0 10 ∅) unused_calls.

Lemma slab_destructor_releases_witness :
  quiet (B := supply) cfg ∧ inv cfg unused ∅ ∧ owned (backing unused) = ∅ ∧ _backing_store unused = true ∧
  ∃ s', destroy cfg no_alloc no_free unused = (Ok tt, s') ∧ lent (backing s') = ∅.
Proof.
  assert (ready cfg unused ∅) as [Hi _].
  { assert (users (Supply 0 10 ∅) unused_calls = ∅) as <- by (by vm_compute). unfold unused.
    apply (after_ready (Supply 0 10 ∅) unused_calls (result_of (history cfg unused_calls (new_slab (Supply 0 10 ∅))))); [apply new_supply_ok; lia|done|done|by vm_compute|by vm_compute]. }
  assert (_backing_store unused = true) as Hb by (by vm_compute).
  split; [exact supply_quiet|]. split; [exact Hi|]. split; [reflexivity|]. split; [exact Hb|].
  exact (slab_destructor_releases cfg demo_good unused no_alloc no_free supply_quiet Hi eq_refl Hb).
Defined.

(** ** What the model shows about the code *)

(** The release loop of [_free] takes the initial block out of the ring when it is the one that has become free: the two
    blocks that are left are linked with each other only. *)
Example initial_block_dropped :
  let s := after (Supply 0 10 ∅) (allocs 17 ++ ((λ i, Free (8240 + 24 * i)) <$> seqZ 0 7) ++ ((λ i, Free (4144 + 24 * i)) <$> seqZ 0 8)) in
  (_num_blocks s, _initial_sb cfg, next <$> blocks s !! 8192, next <$> blocks s !! 12288) = (2, 4096, Some 12288, Some 8192).
Proof. by vm_compute. Qed.

(** Without a backing store the last three elements are given out as well; with one that has no memory they are kept. *)
Example last_elements :
  let detached := (history cfg (allocs 9) (at_depth cfg (init cfg) (blank false (Supply 0 0 ∅))).2) in
  (last (result_of detached), last (result_of (history cfg (allocs 6) (new_slab (Supply 0 0 ∅))))) =
  (Some (Got (Err DENIED)), Some (Got (Err OUT_OF_RAM))).
Proof. by vm_compute. Qed.
