(* ===== verification/Slab_meta.v ===== *)
(** * Slab_meta: the range allocator with its slab of meta data

    [Allocator_avl_tpl] of [src/repos/base/include/base/allocator_avl.h] gives the range
    allocator a slab for the nodes of its tree, which [add_range] detaches from its backing
    store for a while.  This file discharges the interface [Metadata] of [Allocator_avl] with
    the slab allocator, so that the theorems on the range allocator hold of the pair: for a
    backing store that neither holds nor takes an element of the slab, and blocks of at least
    eight elements.  So an allocator that is its own backing store is left out, and a store
    that takes elements as well: while it is detached, the reserve for it may be used up. *)

From S2P Require Import Prelude Avl_nodes Avl_trees Allocator_avl Slab Slab_ring Slab_ops Slab_spec Slab_props Slab_life Slab_demo.
From S2P Require Import Allocator_avl_blocks Allocator_avl_spec Allocator_avl_ops Allocator_avl_props.

Section Metadata.
Context {B : Type} (c : config) `{Backing_laws c B} (Hg : good c) (Hown : ∀ st : B, ok st → owned st = ∅) (Htakes : takes (c := c) (B := B) = 0%nat)
  (Hbig : 8 ≤ _entries_per_block c).

(** A slab between two calls, and the elements that it has given out *)
Record metadata := Meta { slab_of : slab B; used_of : gset Z; meta_ready : ready c slab_of used_of }.

(** [try_alloc] and [free] of the slab for entries of the size that it is made for *)
Definition slab_alloc (s : slab B) : result fault (result Alloc_error Z) * slab B := at_depth c (λ a f, Slab.try_alloc c a f (_slab_size c)) s.
Definition slab_free (a : Z) (s : slab B) : result fault unit * slab B := at_depth c (λ al f, _free c al f a) s.

Lemma slab_alloc_run m : ∃ r s', slab_alloc (slab_of m) = (Ok r, s').
Proof. destruct (top_alloc c Hg _ _ (_slab_size c) (meta_ready m) ltac:(lia)) as (r & s' & Hrun & _). by exists r, s'. Qed.

Lemma slab_alloc_ready m r s' :
  slab_alloc (slab_of m) = (Ok r, s') → ready c s' (match r with Ok p => {[p]} ∪ used_of m | Err _ => used_of m end).
Proof.
  intros R. destruct (top_alloc c Hg _ _ (_slab_size c) (meta_ready m) ltac:(lia)) as (r1 & s1 & R1 & _ & Hpost). unfold slab_alloc in R. rewrite R in R1. injection R1 as <- <-.
  destruct r; tauto.
Qed.

Lemma slab_free_ready m a r s' : a ∈ used_of m → slab_free a (slab_of m) = (r, s') → ready c s' (used_of m ∖ {[a]}).
Proof.
  intros Ha R. assert (ready c (slab_of m) ({[a]} ∪ used_of m ∖ {[a]})) as Hr by (rewrite <- union_difference_L by set_solver; apply meta_ready).
  destruct (top_free c Hg _ _ a Hr) as (s1 & R1 & Hr1 & _); [set_solver|]. unfold slab_free in R. rewrite R in R1. by injection R1 as -> <-.
Qed.

Definition meta_alloc (m : metadata) : result Alloc_error id * metadata :=
  match slab_alloc (slab_of m) as z return slab_alloc (slab_of m) = z → result Alloc_error id * metadata with
  | (Ok r, s') => λ R, (r, Meta s' _ (slab_alloc_ready m r s' R))
  | (Err _, _) => λ _, (Err DENIED, m)
  end eq_refl.

(** The allocator frees only what it has got. *)
Definition meta_free (a : id) (m : metadata) : metadata :=
  match decide (a ∈ used_of m) with
  | left Ha =>
      match slab_free a (slab_of m) as z return slab_free a (slab_of m) = z → metadata with
      | (r, s') => λ R, Meta s' _ (slab_free_ready m a r s' Ha R)
      end eq_refl
  | right _ => m
  end.

(** The setter [backing_store] of the slab *)
Lemma slab_set_ready m v : ready c (with_attached v (slab_of m)) (used_of m).
Proof.
  apply (set_backing_store_ready c _ _ v (meta_ready m)). intros _. rewrite Htakes.
  destruct (meta_ready m) as ((Hm & _) & _). pose proof (mid_bounds c Hg _ _ _ Hm). lia.
Qed.

Definition meta_set_backing_store (v : bool) (m : metadata) : metadata := Meta (with_attached v (slab_of m)) _ (slab_set_ready m v).

#[local] Instance slab_metadata : Metadata metadata := {|
  md_alloc := meta_alloc;
  md_free := meta_free;
  md_backing_store m := _backing_store (slab_of m);
  md_set_backing_store := meta_set_backing_store |}.

Lemma meta_alloc_run m : ∃ r s' Hr, slab_alloc (slab_of m) = (Ok r, s') ∧ meta_alloc m = (r, Meta s' (match r with Ok p => {[p]} ∪ used_of m | Err _ => used_of m end) Hr).
Proof.
  destruct (slab_alloc_run m) as (r & s' & R). unfold meta_alloc. generalize (slab_alloc_ready m). rewrite R. intros Hr. by exists r, s', (Hr r s' eq_refl).
Qed.

Lemma meta_free_run m a : a ∈ used_of m → ∃ r s' Hr, slab_free a (slab_of m) = (r, s') ∧ meta_free a m = Meta s' (used_of m ∖ {[a]}) Hr.
Proof.
  intros Ha. unfold meta_free. match goal with |- context [decide ?P] => destruct (decide P) as [Ha'|Hn]; [|by destruct Hn] end. generalize (slab_free_ready m a).
  destruct (slab_free a (slab_of m)) as [r s']. intros Hr. by exists r, s', (Hr r s' Ha' eq_refl).
Qed.

(** The elements that can be had before the slab needs a further block *)
Definition spare (m : metadata) : Z := _total_avail (slab_of m) - (if _backing_store (slab_of m) then 3 else 0).

Lemma used_elem_pos (s : slab B) l X a : holds c s l X → a ∈ X → 0 < a.
Proof.
  intros Hh (b & x & n & Hx & Hn & ->)%(h_used _ _ _ _ Hh). pose proof (elem_bounds c Hg b _ (holds_slot c s l _ Hh b x n _ Hx Hn)).
  destruct (h_block _ _ _ _ Hh b x Hx) as ([? _] & _). pose proof (epb_bounds c Hg). unfold sizeof_Block in *. lia.
Qed.

(** The elements that are used are those of the users. *)
Lemma ready_holds (s : slab B) C : ready c s C → ∃ l, holds c s l C.
Proof. intros (((_ & l & Hh) & Hok & _) & _). exists l. by rewrite (Hown _ Hok), union_empty_r_L in Hh. Qed.

#[local] Program Instance slab_metadata_laws : Metadata_laws metadata := {| live := used_of; reserve := spare; margin := 3 |}.
Next Obligation. done. Qed.
Next Obligation.
  intros m Hr. destruct (ready_holds _ _ (meta_ready m)) as [l Hh]. pose proof (used_elem_pos _ l _ _ Hh Hr). unfold root in *. lia.
Qed.
Next Obligation.
  intros m i m' R. destruct (meta_alloc_run m) as (r & s' & Hr & Rs & Rm). cbn in R. rewrite Rm in R. injection R as -> <-. cbn [used_of].
  destruct (top_alloc c Hg _ _ (_slab_size c) (meta_ready m) ltac:(lia)) as (r1 & s1 & R1 & Hbs & Hpost). unfold slab_alloc in Rs. rewrite Rs in R1. injection R1 as <- <-.
  destruct Hpost as (_ & Hi & _ & Ht). split_and!; [set_solver|done|]. unfold spare. cbn [slab_of]. rewrite Hbs. destruct (_backing_store _); lia.
Qed.
Next Obligation.
  intros m e m' R. destruct (meta_alloc_run m) as (r & s' & Hr & Rs & Rm). cbn in R. rewrite Rm in R. injection R as -> <-. cbn [used_of].
  destruct (top_alloc c Hg _ _ (_slab_size c) (meta_ready m) ltac:(lia)) as (r1 & s1 & R1 & Hbs & Hpost). unfold slab_alloc in Rs. rewrite Rs in R1. injection R1 as <- <-.
  destruct Hpost as [_ Ht]. split; [done|]. unfold spare. revert Ht. destruct (_backing_store (slab_of m)); lia.
Qed.
Next Obligation.
  intros m i Hi. destruct (meta_free_run m i Hi) as (r & s' & Hr & Rs & Rm). cbn. rewrite Rm. cbn [used_of]. split; [done|].
  assert (ready c (slab_of m) ({[i]} ∪ used_of m ∖ {[i]})) as Hr0 by (rewrite <- union_difference_L by set_solver; apply meta_ready).
  destruct (top_free c Hg _ _ i Hr0) as (s1 & R1 & _ & Hbs & Ht); [set_solver|]. unfold slab_free in Rs. rewrite Rs in R1. injection R1 as -> <-.
  pose proof (epb_bounds c Hg) as (? & _). unfold spare. cbn [slab_of]. rewrite Hbs. destruct (_backing_store (slab_of m)), Ht as [Ht|Ht]; rewrite ?Ht; apply Z.min_le_iff; lia.
Qed.
Next Obligation. done. Qed.
Next Obligation. intros m. unfold spare. cbn. destruct (_backing_store (slab_of m)); lia. Qed.
Next Obligation. intros m. unfold spare. cbn. destruct (_backing_store (slab_of m)); lia. Qed.

Lemma meta_live m a : a ∈ used_of m ↔ used_elem c (Slab.blocks (slab_of m)) a.
Proof. destruct (ready_holds _ _ (meta_ready m)) as [l Hh]. exact (h_used _ _ _ _ Hh a). Qed.

(** C31: A range allocator with a slab for its meta data, which [add_range] detaches from its
    backing store for the time of the call, after any history of valid calls: no call
    fails to return or touches memory that is not there, the nodes of the tree are exactly the
    used elements of the slab and do not overlap, and neither do the allocated ranges.  The
    backing store holds and takes no element of the slab, so it is not the allocator
    itself, and the blocks of the slab have at least eight elements. *)
Theorem allocator_on_slab (m : metadata) cs :
  used_of m = ∅ → Forall valid cs →
  ∃ answers st L T, history cs (Allocator_avl.init m) = (Ok answers, st) ∧ inv st L ∧ tree (bare (heap st)) root T ∧
    (∀ a, a ∈ nodes T ↔ used_elem c (Slab.blocks (slab_of (md st))) a) ∧
    (∀ a a', a ∈ nodes T → a' ∈ nodes T → a' ≠ a → a + _slab_size c ≤ a' - sizeof_Entry ∨ a' + _slab_size c ≤ a - sizeof_Entry) ∧
    (∀ a n a' n', allocated (view_of L) !! a = Some n → allocated (view_of L) !! a' = Some n' → a' ≠ a → range_set a n ## range_set a' n').
Proof.
  intros Hu Hv. assert (live m = ∅) as Hlive by exact Hu. destruct (history_runs cs (Allocator_avl.init m) [] (new_allocator_inv m Hlive) Hv) as (answers & st & L & R & Hi).
  pose proof Hi as [[T Ho] _]. exists answers, st, L, T. split; [done|]. split; [done|]. split; [exact (owns_tree _ _ _ _ Ho)|].
  assert (∀ a, a ∈ nodes T ↔ a ∈ used_of (md st)) as Hn.
  { intros a. pose proof (owns_live _ _ _ _ Ho) as Hl. rewrite app_nil_r in Hl. change (live (md st)) with (used_of (md st)) in Hl. rewrite Hl. by rewrite elem_of_list_to_set. }
  split; [intros a; by rewrite Hn, meta_live|]. split.
  - intros a a' Ha%Hn Ha'%Hn Hne. destruct (ready_holds _ _ (meta_ready (md st))) as [l Hh]. by apply (used_apart c Hg _ l _ a a' Hh).
  - intros a n a' n' Ha Ha' Hne. by apply (allocs_apart L a n a' n' (owns_wf _ _ _ _ Ho)).
Qed.

End Metadata.

(** ** A run *)

Lemma supply_unowned (st : supply) : ok (c := cfg) st → owned (c := cfg) st = ∅.
Proof. done. Qed.

Lemma demo_big : 8 ≤ _entries_per_block cfg.
Proof. by vm_compute. Qed.

Lemma new_supply_ready : ready cfg (new_slab (Supply 0 10 ∅)) ∅.
Proof.
  destruct (init_given cfg demo_good true (Supply 0 10 ∅)) as (s & Hi & Hr & _); [unfold block_fits; cbn; lia|apply new_supply_ok; lia|done|done|].
  unfold new_slab. by rewrite Hi.
Qed.

#[local] Instance demo_metadata : Metadata (metadata cfg) := slab_metadata cfg demo_good supply_unowned eq_refl demo_big.
#[local] Instance demo_metadata_laws : Metadata_laws (metadata cfg) := slab_metadata_laws cfg demo_good supply_unowned eq_refl demo_big.

Definition demo_meta : metadata cfg := Meta cfg _ _ new_supply_ready.

Lemma allocator_on_slab_witness :
  used_of cfg demo_meta = ∅ ∧ Forall valid demo ∧
  ∃ answers st L T, history demo (Allocator_avl.init demo_meta) = (Ok answers, st) ∧ inv st L ∧ tree (bare (heap st)) root T ∧
    (∀ a, a ∈ nodes T ↔ used_elem cfg (Slab.blocks (slab_of cfg (md st))) a) ∧
    (∀ a a', a ∈ nodes T → a' ∈ nodes T → a' ≠ a → a + _slab_size cfg ≤ a' - sizeof_Entry ∨ a' + _slab_size cfg ≤ a - sizeof_Entry) ∧
    (∀ a n a' n', allocated (view_of L) !! a = Some n → allocated (view_of L) !! a' = Some n' → a' ≠ a → range_set a n ## range_set a' n').
Proof.
  split; [reflexivity|]. split; [exact demo_valid|]. exact (allocator_on_slab cfg demo_good supply_unowned eq_refl demo_big demo_meta demo eq_refl demo_valid).
Defined.

(** The tree of the allocator after some calls: three elements were left, so that the slab has asked for a second block. *)
Example demo_nodes :
  let st := (history (demo ++ [Alloc_aligned 8 0 anywhere]) (Allocator_avl.init demo_meta)).2 in
  (_num_blocks (slab_of cfg (md st)), elements (dom (heap st))) = (2, [4216; 4144; 4240; 4192; 0]).
Proof. by vm_compute. Qed.
