(* ===== verification/Linked_list.v ===== *)
(** * Linked_list: the single-connected list of the framework

    Model of [src/repos/base/include/util/list.h].  The elements live in a store from their
    addresses to their [_next] pointers, zero being the null pointer; an access to an element
    that is not there has no result.  The operations refine those on a sequence. *)

From S2P Require Import Prelude.

(** [List::Element] by address, and [List] *)
Abbreviation elements := (gmap Z Z).
Record t := Mk { store : elements; _first : Z }.

Definition next (le : Z) (s : t) : option Z := store s !! le.
Definition set_next (le v : Z) (s : t) : option t := _ ← next le s; Some (Mk (<[le := v]> (store s)) (_first s)).

(** [insert]; [at_] zero inserts at the beginning. *)
Definition insert (le at_ : Z) (s : t) : option t :=
  if at_ =? 0 then s ← set_next le (_first s) s; Some (Mk (store s) le)
  else n ← next at_ s; s ← set_next le n s; set_next at_ le s.

(** The search of [remove] for the element in front of [le] *)
Fixpoint find_before (fuel : nat) (e le : Z) (s : t) : option Z :=
  match fuel with
  | O => None
  | S fuel => n ← next e s; if (n =? 0) || (n =? le) then Some e else find_before fuel n le s
  end.

Definition remove (le : Z) (s : t) : option t :=
  if _first s =? 0 then Some s
  else if le =? _first s then n ← next le s; set_next le 0 (Mk (store s) n)
  else
    e ← find_before (1 + size (store s)) (_first s) le s;
    n ← next e s;
    if n =? 0 then Some s
    else m ← next n s; s ← set_next e m s; set_next le 0 s.

(** The elements from [p] on, in order *)
Fixpoint walk (fuel : nat) (p : Z) (s : t) : option (list Z) :=
  if p =? 0 then Some []
  else match fuel with
       | O => None
       | S fuel => n ← next p s; l ← walk fuel n s; Some (p :: l)
       end.

(** ** Representation of a sequence *)

Definition hd_z (l : list Z) : Z := match l with [] => 0 | x :: _ => x end.

(** The elements [l] lead to [q]. *)
Fixpoint lseg (h : elements) (l : list Z) (q : Z) : Prop :=
  match l with [] => True | x :: l => x ≠ 0 ∧ h !! x = Some (match l with [] => q | y :: _ => y end) ∧ lseg h l q end.

Record rep (s : t) (l : list Z) : Prop := Rep { rep_nodup : NoDup l; rep_first : _first s = hd_z l; rep_seg : lseg (store s) l 0 }.

Lemma lseg_app h l k q : lseg h (l ++ k) q ↔ lseg h l (match k with [] => q | y :: _ => y end) ∧ lseg h k q.
Proof. induction l as [|x l IH]; cbn; [tauto|]. rewrite IH. destruct l; cbn; tauto. Qed.

Lemma lseg_insert h l q x v : x ∉ l → lseg (<[x := v]> h) l q ↔ lseg h l q.
Proof.
  induction l as [|y l IH]; intros Hx; [done|]. apply not_elem_of_cons in Hx as [Hxy Hx]. cbn. rewrite IH, lookup_insert_ne by done. done.
Qed.

Lemma lseg_delete h l q x : x ∉ l → lseg h l q → lseg (delete x h) l q.
Proof.
  induction l as [|y l IH]; intros Hx; [done|]. apply not_elem_of_cons in Hx as [Hxy Hx]. cbn. rewrite lookup_delete_ne by done. intros (? & ? & ?). auto.
Qed.

Lemma lseg_nonzero h l q x : lseg h l q → x ∈ l → x ≠ 0 ∧ is_Some (h !! x).
Proof. induction l as [|y l IH]; [by intros _ ?%elem_of_nil|]. intros (Hy & Hh & Hl) [->|Hx]%elem_of_cons; [by split; [|eexists]|by apply IH]. Qed.

Section Refinement.
Implicit Types (s : t) (l : list Z) (x : Z).

Lemma list_rep_empty h : rep (Mk h 0) [].
Proof. split; [constructor|done..]. Qed.

Lemma rep_fuel s l : rep s l → (length l ≤ size (store s))%nat.
Proof.
  intros [Hd _ Hl]. rewrite <- size_dom, <- (size_list_to_set (C := gset Z) l) by done. apply subseteq_size. intros x Hx.
  apply elem_of_list_to_set in Hx. apply elem_of_dom. by eapply lseg_nonzero.
Qed.

Lemma insert_first_rep s l x : rep s l → x ∉ l → x ≠ 0 → is_Some (store s !! x) →
  insert x 0 s = Some (Mk (<[x := hd_z l]> (store s)) x) ∧ rep (Mk (<[x := hd_z l]> (store s)) x) (x :: l).
Proof.
  intros [Hd Hf Hl] Hx Hx0 [n Hn]. unfold insert, set_next, next. cbn. rewrite Hn. cbn. rewrite Hf. split; [done|]. split; cbn; [by apply NoDup_cons|done|].
  rewrite lookup_insert_eq, lseg_insert by done. by destruct l.
Qed.

Lemma insert_after_rep s l k x y : rep s (l ++ y :: k) → x ∉ l ++ y :: k → x ≠ 0 → is_Some (store s !! x) →
  ∃ s', insert x y s = Some s' ∧ rep s' (l ++ y :: x :: k).
Proof.
  intros [Hd Hf Hl] Hx Hx0 [n Hn]. apply lseg_app in Hl as [H1 (Hy0 & Hy & H2)]. apply not_elem_of_app in Hx as [Hxl [Hxy Hxk]%not_elem_of_cons].
  apply NoDup_app in Hd as (Hdl & Hdy & [Hyk Hdk]%NoDup_cons). assert (y ∉ l) as Hyl by (intros Hin; apply (Hdy y Hin); constructor).
  unfold insert, set_next, next. destruct (Z.eqb_spec y 0); [done|]. rewrite Hy. cbn. rewrite Hn. cbn. rewrite lookup_insert_ne, Hy by done. cbn.
  eexists. split; [done|]. split; cbn.
  - apply NoDup_app. split; [done|]. split; [|rewrite !NoDup_cons; set_solver]. intros z Hz. specialize (Hdy z Hz). set_solver.
  - by destruct l.
  - apply lseg_app. rewrite !lseg_insert by done. split; [done|]. cbn. rewrite lookup_insert_eq, lookup_insert_ne, lookup_insert_eq, !lseg_insert by done.
    split; [done|]. split; [done|]. split; [done|]. split; [by destruct k|done].
Qed.

Lemma find_before_run s l k x e fuel : lseg (store s) (e :: l ++ x :: k) 0 → x ∉ e :: l → (length l < fuel)%nat →
  find_before fuel e x s = Some (default e (last l)).
Proof.
  revert e fuel. induction l as [|y l IH]; intros e fuel Hl Hx Hf; destruct fuel as [|fuel]; cbn in Hf; try lia; cbn [find_before]; unfold next.
  - destruct Hl as (_ & -> & _). cbn. by rewrite Z.eqb_refl, orb_true_r.
  - cbn [app] in Hl. destruct Hl as (_ & -> & Hl). cbn. apply not_elem_of_cons in Hx as [_ Hx]. pose proof Hx as Hx'. apply not_elem_of_cons in Hx' as [Hxy _].
    pose proof Hl as (Hy0 & _). destruct (Z.eqb_spec y 0); [done|]. destruct (Z.eqb_spec y x); [congruence|]. cbn [orb]. rewrite (IH y fuel) by (done || lia). rewrite last_cons. by destruct (last l).
Qed.

(** Elements outside of the list keep their pointers. *)
Lemma list_remove_rep s l k x : rep s (l ++ x :: k) →
  ∃ s', remove x s = Some s' ∧ rep s' (l ++ k) ∧ dom (store s') =@{gset Z} dom (store s) ∧ (∀ y, y ∉ l ++ x :: k → store s' !! y = store s !! y).
Proof.
  intros Hr. pose proof (rep_fuel _ _ Hr) as Hfu. destruct Hr as [Hd Hf Hl]. pose proof Hd as (Hdl & Hdx & [Hxk Hdk]%NoDup_cons)%NoDup_app.
  assert (x ∉ l) as Hxl by (intros Hin; apply (Hdx x Hin); constructor). pose proof Hl as [H1 (Hx0 & Hx & H2)]%lseg_app.
  unfold remove. rewrite Hf. destruct l as [|e l]; cbn [hd_z app].
  - destruct (Z.eqb_spec x 0); [done|]. rewrite Z.eqb_refl. unfold set_next, next. rewrite Hx. cbn. rewrite Hx. cbn. eexists. split; [done|]. split; [|split].
    + split; cbn; [done|by destruct k|by rewrite lseg_insert].
    + cbn. apply dom_insert_lookup_L. by eexists.
    + intros y Hy. cbn. rewrite lookup_insert_ne; [done|]. intros <-. apply Hy. constructor.
  - pose proof (lseg_nonzero _ _ _ e Hl ltac:(constructor)) as [He0 _]. destruct (Z.eqb_spec e 0); [done|].
    destruct (Z.eqb_spec x e) as [->|Hxe]; [by destruct Hxl; constructor|].
    rewrite (find_before_run s l k) by (done || (rewrite length_app in Hfu; cbn in Hfu; lia)). cbn. set (b := default e (last l)).
    assert (∃ m, e :: l = m ++ [b]) as [m Hm].
    { unfold b. destruct l as [|z l _] using rev_ind; [by exists []|]. rewrite last_snoc. by exists (e :: l). }
    rewrite Hm in *. apply lseg_app in H1 as [H1 (Hb0 & Hb & _)]. apply NoDup_snoc in Hdl as [Hdm Hbm]. assert (b ≠ x) as Hbx by (intros ->; apply Hxl; set_solver).
    assert (b ∉ k) as Hbk by (intros Hin; apply (Hdx b); [set_solver|by apply elem_of_cons; right]).
    unfold next, set_next. rewrite Hb. cbn. destruct (Z.eqb_spec x 0); [done|]. unfold next. rewrite Hx. cbn. rewrite Hb. cbn. rewrite lookup_insert_ne, Hx by done. cbn.
    change (e :: l ++ k) with ((e :: l) ++ k). change (e :: l ++ x :: k) with ((e :: l) ++ x :: k). rewrite Hm. eexists. split; [done|]. split; [|split].
    + split; cbn.
      * apply NoDup_app. rewrite NoDup_snoc. split; [done|]. split; [|done]. intros z Hz Hzk. apply (Hdx z Hz). by apply elem_of_cons; right.
      * rewrite Hf. by destruct m.
      * rewrite lseg_insert by set_solver. rewrite <- app_assoc. apply lseg_app. rewrite !lseg_insert by done. split; [done|]. cbn.
        rewrite lookup_insert_eq, lseg_insert by done. split; [done|]. split; [by destruct k|done].
    + cbn. rewrite dom_insert_lookup_L, dom_insert_lookup_L; [done|by eexists|rewrite lookup_insert_ne by done; by eexists].
    + intros y Hy. cbn. rewrite !lookup_insert_ne; [done|..]; intros <-; apply Hy; set_solver.
Qed.

Lemma walk_rep s l q fuel : lseg (store s) l 0 → hd_z l = q → (length l ≤ fuel)%nat → walk fuel q s = Some l.
Proof.
  intros Hl Hq. subst q. revert fuel. induction l as [|x l IH]; intros fuel Hf; [by destruct fuel|]. destruct fuel as [|fuel]; cbn in Hf; [lia|].
  destruct Hl as (Hx0 & Hx & Hl). cbn. destruct (Z.eqb_spec x 0); [done|]. unfold next. rewrite Hx. cbn.
  assert (match l with [] => 0 | y :: _ => y end = hd_z l) as -> by (by destruct l). rewrite IH by (done || lia). done.
Qed.

End Refinement.
