(* ===== verification/Heap.v ===== *)
(** * Heap: the heap of a component

    Model of [src/repos/base/src/lib/base/heap.cc] and the class [Heap] of
    [src/repos/base/include/base/heap.h].  The heap gets dataspaces from a RAM allocator,
    attaches them to the region map, and hands their memory to the range allocator of
    [Allocator_avl]; allocations of 64 KiB and more get a dataspace of their own.  The
    [Dataspace] objects live in memory of the heap itself: they form the list of
    [Linked_list], and detaching a region takes the objects in it away, so that a later
    access has the result [Err Fault].

    The RAM allocator and the region map are an interface ([Memory]); the meta data of the
    range allocator comes from the interface [Metadata].  So the model has the meta data in
    memory of its own, while the code has the slab of the range allocator take its blocks
    from that allocator itself. *)

From S2P Require Import Prelude Avl_nodes Avl_trees Allocator_avl.
From S2P Require Linked_list.

(** The exceptions of [Region_map::attach] *)
Inductive Attach_error := Out_of_ram | Out_of_caps | Invalid_dataspace | Region_conflict.

(** [Ram_allocator] and [Region_map] as far as the heap uses them *)
Class Memory (R : Type) := {
  ram_try_alloc : Z → R → result Alloc_error Z * R;
  ram_free : Z → R → R;
  rm_attach : Z → R → result Attach_error Z * R;
  rm_detach : Z → R → R }.

Definition MIN_CHUNK_SIZE : Z := 4 * 1024.
Definition MAX_CHUNK_SIZE : Z := 256 * 1024.
Definition BIG_ALLOCATION_THRESHOLD : Z := 64 * 1024.

(** [sizeof(Heap::Dataspace)], [sizeof(umword_t)], [Allocator_avl::slab_block_size()], [log2(16U)] *)
Definition sizeof_Dataspace : Z := 32.
Definition sizeof_umword : Z := 8.
Definition slab_block_size : Z := (1024 - 8) * 8.
Definition ALIGN : Z := 4.

(** [Heap::Dataspace] without its place in the list *)
Record Dataspace := Ds { cap : Z; local_addr : Z; ds_size : Z }.

Section Heap.
Context {S R : Type} `{Metadata S} `{Memory R}.

(** [Heap]; [ds_objs] are the [Dataspace] objects by address. *)
Record heap := Heap {
  _alloc : @state S; ds_objs : gmap Z Dataspace; _ds_pool : Linked_list.t; mem : R;
  _quota_limit : Z; _quota_used : Z; _chunk_size : Z }.

Abbreviation prog := (exc heap fault).

Definition with_alloc a (h : heap) : heap := Heap a (ds_objs h) (_ds_pool h) (mem h) (_quota_limit h) (_quota_used h) (_chunk_size h).
Definition with_objs f (h : heap) : heap := Heap (_alloc h) (f (ds_objs h)) (_ds_pool h) (mem h) (_quota_limit h) (_quota_used h) (_chunk_size h).
Definition with_pool p (h : heap) : heap := Heap (_alloc h) (ds_objs h) p (mem h) (_quota_limit h) (_quota_used h) (_chunk_size h).
Definition with_mem m (h : heap) : heap := Heap (_alloc h) (ds_objs h) (_ds_pool h) m (_quota_limit h) (_quota_used h) (_chunk_size h).
Definition with_quota q (h : heap) : heap := Heap (_alloc h) (ds_objs h) (_ds_pool h) (mem h) (_quota_limit h) q (_chunk_size h).
Definition with_chunk n (h : heap) : heap := Heap (_alloc h) (ds_objs h) (_ds_pool h) (mem h) (_quota_limit h) (_quota_used h) n.

Definition get {A} (f : heap → A) : prog A := λ h, (Ok (f h), h).

(** A call of the local allocator, of the RAM allocator or region map, and an operation of the list *)
Definition local {A} (m : exc (@state S) fault A) : prog A := λ h, let '(r, a) := m (_alloc h) in (r, with_alloc a h).
Definition call_mem {A} (f : R → A * R) : prog A := λ h, let '(r, m) := f (mem h) in (Ok r, with_mem m h).
Definition on_pool (f : Linked_list.t → option Linked_list.t) : prog unit := λ h,
  match f (_ds_pool h) with Some p => (Ok tt, with_pool p h) | None => (Err Fault, h) end.

(** [*ds] and [ds->next()] *)
Definition deref (ds : Z) : prog Dataspace := λ h, match ds_objs h !! ds with Some d => (Ok d, h) | None => (Err Fault, h) end.
Definition next (ds : Z) : prog Z := λ h, match Linked_list.next ds (_ds_pool h) with Some n => (Ok n, h) | None => (Err Fault, h) end.

Definition construct (at_ : Z) (d : Dataspace) : prog unit :=
  modify (λ h, with_pool (Linked_list.Mk (<[at_ := 0]> (Linked_list.store (_ds_pool h))) (Linked_list._first (_ds_pool h))) (with_objs <[at_ := d]> h)).

(** [rm.detach] with the loss of the objects that have a byte in the region *)
Definition outside (a n : Z) {A} (o : Z * A) : Prop := o.1 + sizeof_Dataspace ≤ a ∨ a + n ≤ o.1.
#[export] Instance outside_dec a n {A} (o : Z * A) : Decision (outside a n o).
Proof. unfold outside. solve_decision. Defined.

Definition detach (a n : Z) : prog unit :=
  modify (λ h, with_mem (rm_detach a (mem h)) (with_objs (filter (outside a n))
    (with_pool (Linked_list.Mk (filter (outside a n) (Linked_list.store (_ds_pool h))) (Linked_list._first (_ds_pool h))) h))).
Definition free_ram (c : Z) : prog unit := modify (λ h, with_mem (ram_free c (mem h)) h).

(** ** Dataspaces *)

Definition remove_and_free (ds : Z) : prog unit :=
  d ← deref ds;
  on_pool (Linked_list.remove ds);;
  detach (local_addr d) (ds_size d);;
  free_ram (cap d).

(** [~Dataspace_pool] *)
Fixpoint free_all (fuel : nat) : prog unit :=
  match fuel with
  | O => throw Fault
  | Datatypes.S fuel =>
      ds ← get (λ h, Linked_list._first (_ds_pool h));
      if ds =? 0 then mret tt else remove_and_free ds;; free_all fuel
  end.

Definition alloc_at (size : Z) : prog (result Alloc_error Z) := local (alloc_aligned size ALIGN (Rng 0 (2 ^ 64 - 1))).

(** The meta data of a dataspace: the memory for its object *)
Definition dataspace_metadata (unsynchronized_alloc : Z → prog (result Alloc_error Z)) (ptr size : Z) (enforce_separate_metadata : bool) : prog (result Alloc_error Z) :=
  if enforce_separate_metadata then unsynchronized_alloc sizeof_Dataspace
  else
    r ← local (add_range ptr size);
    match r with Ok _ => alloc_at sizeof_Dataspace | Err error => mret (Err error) end.

Definition _allocate_dataspace (unsynchronized_alloc : Z → prog (result Alloc_error Z)) (size : Z) (enforce_separate_metadata : bool) : prog (result Alloc_error Z) :=
  r ← call_mem (ram_try_alloc size);
  match r with
  | Err error => mret (Err error)
  | Ok ds_cap =>
      a ← call_mem (rm_attach ds_cap);
      match a with
      | Err e => free_ram ds_cap;; mret (Err (match e with Out_of_ram => OUT_OF_RAM | Out_of_caps => OUT_OF_CAPS | Invalid_dataspace => DENIED | Region_conflict => DENIED end))
      | Ok ptr =>
          metadata ← dataspace_metadata unsynchronized_alloc ptr size enforce_separate_metadata;
          match metadata with
          | Ok md_ptr => construct md_ptr (Ds ds_cap ptr size);; on_pool (Linked_list.insert md_ptr 0);; mret (Ok md_ptr)
          | Err error => detach ptr size;; free_ram ds_cap;; mret (Err error)
          end
      end
  end.

(** ** Allocation *)

Definition _try_local_alloc (size : Z) : prog (result Alloc_error Z) :=
  r ← alloc_at size;
  match r with
  | Ok ptr => modify (λ h, with_quota (u64 (_quota_used h + size)) h);; mret (Ok ptr)
  | Err error => mret (Err error)
  end.

(** The allocation of the [Dataspace] object of a big allocation is a nested one. *)
Fixpoint _unsynchronized_alloc (depth : nat) (size : Z) : prog (result Alloc_error Z) :=
  match depth with
  | O => throw Fault
  | Datatypes.S depth =>
      if BIG_ALLOCATION_THRESHOLD <=? size then
        r ← _allocate_dataspace (_unsynchronized_alloc depth) (align_addr size 12) true;
        match r with
        | Ok ds => d ← deref ds; modify (λ h, with_quota (u64 (_quota_used h + ds_size d)) h);; mret (Ok (local_addr d))
        | Err error => mret (Err error)
        end
      else
        result ← _try_local_alloc size;
        match result with
        | Ok ptr => mret (Ok ptr)
        | Err _ =>
            let dataspace_size := align_addr (u64 (u64 (size + slab_block_size) + sizeof_Dataspace)) 12 in
            chunk_size ← get _chunk_size;
            let request_size := u64 (chunk_size * sizeof_umword) in
            result ← (if dataspace_size <? request_size then
                        r ← _allocate_dataspace (_unsynchronized_alloc depth) request_size false;
                        (if is_ok r then modify (with_chunk (Z.min (u64 (2 * chunk_size)) MAX_CHUNK_SIZE)) else mret tt);;
                        mret r
                      else _allocate_dataspace (_unsynchronized_alloc depth) dataspace_size false);
            match result with
            | Err error => mret (Err error)
            | Ok _ => _try_local_alloc size
            end
        end
  end.

Definition try_alloc (size : Z) : prog (result Alloc_error Z) :=
  used ← get _quota_used;
  limit ← get _quota_limit;
  if limit <? u64 (size + used) then mret (Err DENIED) else _unsynchronized_alloc 2 size.

(** ** Release *)

(** The dataspace with an address *)
Fixpoint find_dataspace (fuel : nat) (ds addr : Z) : prog Z :=
  if ds =? 0 then mret 0
  else
    match fuel with
    | O => throw Fault
    | Datatypes.S fuel =>
        d ← deref ds;
        if (local_addr d <=? addr) && (addr <=? u64 (u64 (local_addr d + ds_size d) - 1)) then mret ds
        else n ← next ds; find_dataspace fuel n addr
    end.

Definition free (addr : Z) : prog unit :=
  size_at_result ← local (size_at addr);
  match size_at_result with
  | Ok size => local (Allocator_avl.free addr);; modify (λ h, with_quota (u64 (_quota_used h - size)) h)
  | Err MISMATCHING_ADDR => mret tt
  | Err UNKNOWN_ADDR =>
      first ← get (λ h, Linked_list._first (_ds_pool h));
      n ← get (λ h, base.size (Linked_list.store (_ds_pool h)));
      ds ← find_dataspace (1 + n) first addr;
      if ds =? 0 then mret tt
      else
        d ← deref ds;
        modify (λ h, with_quota (u64 (_quota_used h - ds_size d)) h);;
        remove_and_free ds;;
        local (Allocator_avl.free ds)
  end.

(** ** Construction, destruction, quota *)

(** The heap without the range that the constructor may add *)
Definition blank (s : S) (m : R) (quota_limit : Z) : heap :=
  Heap (Allocator_avl.init s) ∅ (Linked_list.Mk ∅ 0) m quota_limit 0 MIN_CHUNK_SIZE.

Definition construct_heap (static_addr static_size : Z) : prog unit :=
  if static_addr =? 0 then mret tt else local (add_range static_addr static_size);; mret tt.

(** The loop of [~Heap] that releases the [Dataspace] objects *)
Fixpoint free_objects (fuel : nat) (ds : Z) : prog unit :=
  if ds =? 0 then mret tt
  else
    match fuel with
    | O => throw Fault
    | Datatypes.S fuel => local (Allocator_avl.free ds);; n ← next ds; free_objects fuel n
    end.

(** [~Heap], the destructor of the local allocator, and [~Dataspace_pool] *)
Definition destroy `{Empty_blocks S} : prog unit :=
  first ← get (λ h, Linked_list._first (_ds_pool h));
  n ← get (λ h, base.size (Linked_list.store (_ds_pool h)));
  free_objects (1 + n) first;;
  local Allocator_avl.destroy;;
  free_all (1 + n).

Definition quota_limit (new_quota_limit : Z) : prog Z :=
  used ← get _quota_used;
  if new_quota_limit <? used then mret (-1)
  else modify (λ h, Heap (_alloc h) (ds_objs h) (_ds_pool h) (mem h) new_quota_limit (_quota_used h) (_chunk_size h));; mret 0.

Definition consumed : prog Z := get _quota_used.

(** [for_each_region] *)
Fixpoint for_each_region {A} (fuel : nat) (fn : Z → Z → A → A) (ds : Z) (acc : A) : prog A :=
  if ds =? 0 then mret acc
  else
    match fuel with
    | O => throw Fault
    | Datatypes.S fuel => d ← deref ds; n ← next ds; for_each_region fuel fn n (fn (local_addr d) (ds_size d) acc)
    end.

End Heap.
