(* ===== verification/Heap_inv.v ===== *)
(** * Heap_inv: the invariant of the heap

    What the heap of [src/repos/base/src/lib/base/heap.cc] relies on from the RAM allocator
    and the region map ([Memory_laws]), what the local allocator does to the bytes it manages
    and to its allocations, and the invariant [holds] that ties the dataspaces, the list of
    [Dataspace] objects and the local allocator together. *)

From S2P Require Import Prelude Avl_nodes Avl_trees Allocator_avl Allocator_avl_blocks Allocator_avl_spec Allocator_avl_ops Allocator_avl_props Heap.
From S2P Require Linked_list.

(** ** The RAM allocator and the region map *)

(** A dataspace is given out once with the size of the request, a whole number of pages, and a
    dataspace is attached where nothing else is; [occupied] are the bytes of the address space
    that are in use otherwise. *)
Class Memory_laws (R : Type) `{Memory R} := {
  dataspaces : R → gmap Z Z;
  regions : R → gmap Z Z;
  occupied : Z → Prop;
  ram_try_alloc_ok n m c m' : 0 < n → (4096 | n) → ram_try_alloc n m = (Ok c, m') →
    dataspaces m !! c = None ∧ dataspaces m' = <[c := n]> (dataspaces m) ∧ regions m' = regions m;
  ram_try_alloc_err n m e m' : ram_try_alloc n m = (Err e, m') → dataspaces m' = dataspaces m ∧ regions m' = regions m;
  ram_free_ok c m : is_Some (dataspaces m !! c) → (∀ a, regions m !! a ≠ Some c) →
    dataspaces (ram_free c m) = delete c (dataspaces m) ∧ regions (ram_free c m) = regions m;
  rm_attach_ok c m n a m' : dataspaces m !! c = Some n → rm_attach c m = (Ok a, m') →
    dataspaces m' = dataspaces m ∧ regions m' = <[a := c]> (regions m) ∧ 0 < a ∧ a + n < 2 ^ 64 ∧ (∀ x, a ≤ x < a + n → ¬ occupied x) ∧
    (∀ a' c' n', regions m !! a' = Some c' → dataspaces m !! c' = Some n' → a + n ≤ a' ∨ a' + n' ≤ a);
  rm_attach_err c m e m' : rm_attach c m = (Err e, m') → dataspaces m' = dataspaces m ∧ regions m' = regions m;
  rm_detach_ok a m : is_Some (regions m !! a) → dataspaces (rm_detach a m) = dataspaces m ∧ regions (rm_detach a m) = delete a (regions m) }.

(** A byte of an attached dataspace *)
Definition region (d : Dataspace) (x : Z) : Prop := local_addr d ≤ x < local_addr d + ds_size d.

Section Attached.
Context {R : Type} `{Memory_laws R}.
Implicit Types (m : R) (D : list Dataspace).

(** The dataspaces [D] are allocated and attached, and there are no others. *)
Record attached D m : Prop := Attached {
  at_nodup : NoDup D;
  at_regions a c : regions m !! a = Some c ↔ ∃ d, d ∈ D ∧ local_addr d = a ∧ cap d = c;
  at_dataspaces c n : dataspaces m !! c = Some n ↔ ∃ d, d ∈ D ∧ cap d = c ∧ ds_size d = n;
  at_ok d : d ∈ D → 0 < local_addr d ∧ 0 < ds_size d ∧ local_addr d + ds_size d < 2 ^ 64 ∧ ∀ x, region d x → ¬ occupied x;
  at_apart d d' : d ∈ D → d' ∈ D → d = d' ∨ cap d ≠ cap d' ∧ ∀ x, region d x → ¬ region d' x }.

Lemma attached_perm D D' m : D ≡ₚ D' → attached D m → attached D' m.
Proof.
  intros HD [H1 H2 H3 H4 H5]. split.
  - by rewrite <- HD.
  - intros a c. rewrite H2. by setoid_rewrite HD.
  - intros c n. rewrite H3. by setoid_rewrite HD.
  - intros d. rewrite <- HD. apply H4.
  - intros d d'. rewrite <- !HD. apply H5.
Qed.

Lemma attached_region D m d : attached D m → d ∈ D → regions m !! local_addr d = Some (cap d) ∧ dataspaces m !! cap d = Some (ds_size d).
Proof. intros Ha Hd. split; [apply (at_regions D m Ha); by exists d|apply (at_dataspaces D m Ha); by exists d]. Qed.

(** A new dataspace *)
Lemma attached_new D m n c m1 a m2 :
  attached D m → 0 < n → (4096 | n) → ram_try_alloc n m = (Ok c, m1) → rm_attach c m1 = (Ok a, m2) → attached (Ds c a n :: D) m2.
Proof.
  intros Ha Hn Hp Hr Hat. destruct (ram_try_alloc_ok n m c m1 Hn Hp Hr) as (Hc & Hd1 & Hr1).
  destruct (rm_attach_ok c m1 n a m2) as (Hd2 & Hr2 & Ha0 & Han & Hocc & Hap); [rewrite Hd1; apply lookup_insert_eq|done|]. rewrite Hd1, Hr1 in *.
  assert (∀ d, d ∈ D → cap d ≠ c) as Hcap by (intros d Hd Hx; destruct (attached_region D m d Ha Hd) as [_ Hs]; congruence).
  assert (∀ d x, d ∈ D → region d x → ¬ a ≤ x < a + n) as Hapart.
  { intros d x Hd Hx. destruct (attached_region D m d Ha Hd) as [H1 H2]. unfold region in Hx.
    destruct (Hap _ _ (ds_size d) H1); [|lia|lia]. rewrite lookup_insert_ne; [done|]. intros Hx'. by apply (Hcap d Hd). }
  split.
  - apply NoDup_cons. split; [|exact (at_nodup D m Ha)]. intros Hd. by apply (Hcap _ Hd).
  - intros a' c'. rewrite Hr2, lookup_insert_Some, (at_regions D m Ha). split.
    + intros [[<- <-]|[Hne (d & Hd & ? & ?)]]; [exists (Ds c a n); split; [constructor|done]|exists d; split; [by constructor|done]].
    + intros (d & [->|Hd]%elem_of_cons & <- & <-); [by left|]. right. split; [|by exists d].
      intros Hx. destruct (at_ok D m Ha d Hd) as (? & ? & _). apply (Hapart d (local_addr d) Hd); [unfold region; lia|lia].
  - intros c' n'. rewrite Hd2, lookup_insert_Some, (at_dataspaces D m Ha). split.
    + intros [[<- <-]|[Hne (d & Hd & ? & ?)]]; [exists (Ds c a n); split; [constructor|done]|exists d; split; [by constructor|done]].
    + intros (d & [->|Hd]%elem_of_cons & <- & <-); [by left|]. right. split; [|by exists d]. intros Hx. by apply (Hcap d Hd).
  - intros d [->|Hd]%elem_of_cons; [cbn; split_and!; done|by apply (at_ok D m Ha)].
  - intros d d' [->|Hd]%elem_of_cons [->|Hd']%elem_of_cons; [by left|right|right|by apply (at_apart D m Ha)].
    + split; [intros Hx; by apply (Hcap d')|]. intros x Hx Hx'. by apply (Hapart d' x Hd' Hx').
    + split; [by apply Hcap|]. intros x Hx Hx'. by apply (Hapart d x Hd Hx).
Qed.

(** A dataspace that cannot be attached is given back. *)
Lemma attached_undo D m n c m1 e m2 :
  attached D m → 0 < n → (4096 | n) → ram_try_alloc n m = (Ok c, m1) → rm_attach c m1 = (Err e, m2) → attached D (ram_free c m2).
Proof.
  intros Ha Hn Hp Hr Hat. destruct (ram_try_alloc_ok n m c m1 Hn Hp Hr) as (Hc & Hd1 & Hr1). destruct (rm_attach_err c m1 e m2 Hat) as [Hd2 Hr2].
  rewrite Hd1 in Hd2. rewrite Hr1 in Hr2. destruct (ram_free_ok c m2) as [Hd3 Hr3].
  - rewrite Hd2, lookup_insert_eq. by eexists.
  - intros a Hx. rewrite Hr2, (at_regions D m Ha) in Hx. destruct Hx as (d & Hd & _ & <-). destruct (attached_region D m d Ha Hd) as [_ Hs]. congruence.
  - rewrite Hd2, delete_insert_id in Hd3 by done. rewrite Hr2 in Hr3. destruct Ha as [H1 H2 H3 H4 H5]. split; [done|by rewrite Hr3|by rewrite Hd3|done..].
Qed.

Lemma attached_same D m m' : attached D m → dataspaces m' = dataspaces m → regions m' = regions m → attached D m'.
Proof. intros [H1 H2 H3 H4 H5] Hd Hr. split; [done|by rewrite Hr|by rewrite Hd|done..]. Qed.

(** Detaching and freeing a dataspace *)
Lemma attached_release D m d : attached (d :: D) m → attached D (ram_free (cap d) (rm_detach (local_addr d) m)).
Proof.
  intros Ha. destruct (attached_region _ m d Ha ltac:(constructor)) as [Hr Hs]. destruct (rm_detach_ok (local_addr d) m) as [Hd1 Hr1]; [by eexists|].
  pose proof (at_nodup _ m Ha) as [HdD HD]%NoDup_cons.
  assert (∀ d', d' ∈ D → cap d' ≠ cap d ∧ local_addr d' ≠ local_addr d) as Hne.
  { intros d' Hd'. destruct (at_apart _ m Ha d d') as [->|[? Hx]]; [constructor|by constructor|done|]. split; [done|]. intros He.
    destruct (at_ok _ m Ha d') as (? & ? & _); [by constructor|]. destruct (at_ok _ m Ha d) as (? & ? & _); [by constructor|]. apply (Hx (local_addr d)); unfold region; lia. }
  assert (∀ a c, delete (local_addr d) (regions m) !! a = Some c ↔ ∃ d', d' ∈ D ∧ local_addr d' = a ∧ cap d' = c) as Hreg.
  { intros a c. rewrite lookup_delete_Some, (at_regions _ m Ha). split.
    - intros [Hx (d' & [->|Hd']%elem_of_cons & ? & ?)]; [congruence|by exists d'].
    - intros (d' & Hd' & <- & <-). split; [intros He; by destruct (Hne d' Hd')|]. exists d'. split; [by constructor|done]. }
  destruct (ram_free_ok (cap d) (rm_detach (local_addr d) m)) as [Hd2 Hr2].
  - rewrite Hd1, Hs. by eexists.
  - intros a. rewrite Hr1, Hreg. intros (d' & Hd' & _ & Hx). by destruct (Hne d' Hd').
  - rewrite Hd1 in Hd2. rewrite Hr1 in Hr2. split.
    + done.
    + intros a c. by rewrite Hr2, Hreg.
    + intros c n. rewrite Hd2, lookup_delete_Some, (at_dataspaces _ m Ha). split.
      * intros [Hx (d' & [->|Hd']%elem_of_cons & ? & ?)]; [congruence|by exists d'].
      * intros (d' & Hd' & <- & <-). split; [intros He; by destruct (Hne d' Hd')|]. exists d'. split; [by constructor|done].
    + intros d' Hd'. apply (at_ok _ m Ha). by constructor.
    + intros d' d'' Hd' Hd''. apply (at_apart _ m Ha); by constructor.
Qed.
End Attached.

(** ** The local allocator *)

(** The byte is in a range of the local allocator, and its allocations *)
Abbreviation managed_by L := (managed (view_of L)).
Abbreviation allocs_of L := (allocated (view_of L)).

(** The specification by call *)
Lemma spec_aligned_inv (scarce : Prop) σ n align range r σ' :
  spec scarce σ (Alloc_aligned n align range) (Got r) σ' →
  match r with
  | Ok p => (2 ^ align | p) ∧ range_set p n ⊆ free_set σ ∧ σ' = View (free_set σ ∖ range_set p n) (<[p := n]> (allocated σ))
  | Err _ => σ' = σ ∨ ∃ a, σ' = View (free_set σ ∖ range_set a n) (allocated σ)
  end.
Proof. inversion 1; subst; eauto. Qed.

Lemma spec_add_inv (scarce : Prop) σ a n r σ' :
  spec scarce σ (Add_range a n) (Done r) σ' →
  match r with
  | Ok _ => (∀ x, a ≤ x < a + n → ¬ managed σ x) ∧ σ' = View (free_set σ ∪ range_set a n) (allocated σ)
  | Err _ => σ' = σ
  end.
Proof. inversion 1; subst; eauto. Qed.

Lemma spec_free_inv (scarce : Prop) σ a σ' :
  spec scarce σ (Free a) Nothing σ' →
  (∃ b n, allocated σ !! b = Some n ∧ b ≤ a < b + n ∧ allocated σ' = delete b (allocated σ) ∧ (free_set σ' = free_set σ ∪ range_set b n ∨ free_set σ' = free_set σ)) ∨ ¬ used_byte σ a.
Proof. inversion 1; subst; [left; eauto 10|left; eauto 10|by right]. Qed.

Lemma spec_size_inv (scarce : Prop) σ a r σ' :
  spec scarce σ (Size_at a) (Size r) σ' → σ' = σ ∧ match r with
    | Ok n => allocated σ !! a = Some n
    | Err MISMATCHING_ADDR => managed σ a ∧ allocated σ !! a = None ∨ a ∈ free_set σ
    | Err UNKNOWN_ADDR => ¬ managed σ a ∨ a ∈ free_set σ
    end.
Proof. inversion 1; subst; split; try done; unfold managed in *; tauto. Qed.

Section Local.
Context {S : Type} `{Metadata_laws S}.
Implicit Types (st : @state S) (L : list Block).

Lemma allocs_bytes st L a n : inv st L → allocs_of L !! a = Some n → 0 ≤ a ∧ 0 < n ∧ a + n < 2 ^ 64 ∧ ∀ x, a ≤ x < a + n → managed_by L x.
Proof.
  intros [[T Ho] _] Ha. pose proof (owns_wf _ _ _ _ Ho) as Hw. pose proof Ha as Hin. cbn in Hin. apply allocs_in in Hin; [|done].
  destruct (wf_ok _ _ Hw Hin) as (?&?&?). cbn in *. split_and!; [done..|]. intros x Hx. right. by exists a, n.
Qed.

Lemma allocs_disjoint st L a n a' n' x :
  inv st L → allocs_of L !! a = Some n → allocs_of L !! a' = Some n' → a ≤ x < a + n → a' ≤ x < a' + n' → a = a'.
Proof.
  intros [[T Ho] _] Ha Ha' Hx Hx'. destruct (decide (a' = a)) as [->|Hne]; [done|]. exfalso.
  apply (allocs_apart L a n a' n' (owns_wf _ _ _ _ Ho) Ha Ha' Hne x); apply elem_of_range; lia.
Qed.

Lemma free_not_allocated st L a n x : inv st L → x ∈ free_set (view_of L) → allocs_of L !! a = Some n → ¬ a ≤ x < a + n.
Proof.
  intros [[T Ho] _] Hf Ha Hx. pose proof (owns_wf _ _ _ _ Ho) as Hw. cbn in *. apply allocs_in in Ha; [|done]. apply elem_of_free in Hf as (b & Hb & Hu & Hc).
  assert (Blk a n USED = b) as <-; [|done]. by apply (wf_unique L _ _ x).
Qed.

(** The state of an allocator determines its blocks. *)
Lemma shape_unique (g : gmap id (node Block unit)) T : ∀ T' p, rep g p T → rep g p T' → root_of T = root_of T' → T = T'.
Proof.
  induction T as [|l IHl n r IHr]; intros [|l' n' r'] p; [done|done|done|]. intros (x & Hx & E0 & E1 & _ & Hl & Hr) (x' & Hx' & E0' & E1' & _ & Hl' & Hr') [= <-].
  assert (x = x') as <- by congruence. f_equal; [apply (IHl l' (Some n)); [done|done|congruence]|apply (IHr r' (Some n)); [done|done|congruence]].
Qed.

Lemma inv_unique st L L' : inv st L → inv st L' → L = L'.
Proof.
  intros [[T Ho] _] [[T' Ho'] _]. rewrite <- (owns_blocks _ _ _ _ Ho), <- (owns_blocks _ _ _ _ Ho'). f_equal. f_equal.
  apply (shape_unique (bare (Allocator_avl.heap st)) T T' (Some root)); [apply (owns_rep _ _ _ _ Ho)|apply (owns_rep _ _ _ _ Ho')|].
  pose proof (owns_first _ _ _ _ Ho) as E1. pose proof (owns_first _ _ _ _ Ho') as E2. congruence.
Qed.

(** The end of an allocation: what it has taken, or how much it may have lost *)
Lemma alloc_at_run st L n :
  inv st L → 0 < n < 2 ^ 63 →
  ∃ r st' L', alloc_aligned n ALIGN (Rng 0 (2 ^ 64 - 1)) st = (Ok r, st') ∧ inv st' L' ∧
    match r with
    | Ok p => (16 | p) ∧ allocs_of L' = <[p := n]> (allocs_of L) ∧ (∀ x, managed_by L' x ↔ managed_by L x) ∧ (∀ x, p ≤ x < p + n → x ∈ free_set (view_of L))
    | Err _ => allocs_of L' = allocs_of L ∧ (∀ x, managed_by L' x → managed_by L x) ∧
        ∃ a, ∀ x, x ∈ free_set (view_of L) → ¬ a ≤ x < a + n → x ∈ free_set (view_of L')
    end.
Proof.
  intros Hi Hn. destruct (perform_refines st L (Alloc_aligned n ALIGN (Rng 0 (2 ^ 64 - 1))) Hi) as (ans & st' & L' & R & Hi' & Hs).
  { cbn. unfold request_ok, in_range, ALIGN. cbn. lia. }
  unfold perform in R. unfold mbind, exc_bind, mret, exc_ret in R. destruct (alloc_aligned n ALIGN (Rng 0 (2 ^ 64 - 1)) st) as [[r|] s1] eqn:E; [|done]. injection R as <- <-.
  exists r, s1, L'. split; [done|]. split; [done|]. apply spec_aligned_inv in Hs. destruct r as [p|e].
  - destruct Hs as (Hal & Hsub & ->). cbn [allocated free_set]. split; [done|]. split; [done|]. split; [|intros x Hx; apply Hsub, elem_of_range; lia]. intros x. unfold managed, used_byte. cbn [allocated free_set]. split.
    + intros [[Hx _]%elem_of_difference|(a & m & [[<- <-]|[Hne Ha]]%lookup_insert_Some & Hx)]; [by left|left; apply Hsub, elem_of_range; lia|right; by exists a, m].
    + destruct (decide (p ≤ x < p + n)) as [Hx|Hx]; [intros _; right; exists p, n; by rewrite lookup_insert_eq|].
      intros [Hf|(a & m & Ha & Hax)]; [left; rewrite elem_of_difference, elem_of_range; done|right; exists a, m].
      rewrite lookup_insert_ne; [done|]. intros <-. apply (free_not_allocated st L p m p Hi); [apply Hsub, elem_of_range; lia|done|lia].
  - destruct Hs as [->|[a ->]].
    + split; [done|]. split; [done|]. exists 0. done.
    + cbn [allocated free_set]. split; [done|]. split.
      * intros x [[Hx _]%elem_of_difference|?]; [by left|by right].
      * exists a. intros x Hx Hxa. rewrite elem_of_difference, elem_of_range. done.
Qed.

Lemma local_add_range_run st L a n :
  inv st L → 0 ≤ a → 0 < n → a + n < 2 ^ 64 →
  ∃ r st' L', add_range a n st = (Ok r, st') ∧ inv st' L' ∧ allocs_of L' = allocs_of L ∧
    match r with
    | Ok _ => (∀ x, managed_by L' x ↔ managed_by L x ∨ a ≤ x < a + n) ∧ (∀ x, a ≤ x < a + n → x ∈ free_set (view_of L') ∧ ¬ managed_by L x)
    | Err _ => ∀ x, managed_by L' x ↔ managed_by L x
    end.
Proof.
  intros Hi Ha Hn Han. destruct (perform_refines st L (Add_range a n) Hi) as (ans & st' & L' & R & Hi' & Hs); [cbn; lia|].
  unfold perform in R. unfold mbind, exc_bind, mret, exc_ret in R. destruct (add_range a n st) as [[r|] s1] eqn:E; [|done]. injection R as <- <-.
  exists r, s1, L'. split; [done|]. split; [done|]. apply spec_add_inv in Hs. destruct r as [[]|e]; [destruct Hs as [Hno ->]|by rewrite Hs].
  cbn [allocated free_set]. split; [done|]. split.
  - intros x. unfold managed. cbn [free_set]. rewrite elem_of_union, elem_of_range. unfold used_byte. cbn [allocated]. tauto.
  - intros x Hx. split; [apply elem_of_union; right; by apply elem_of_range|by apply Hno].
Qed.

Lemma free_local_run st L a n :
  inv st L → allocs_of L !! a = Some n →
  ∃ st' L', Allocator_avl.free a st = (Ok tt, st') ∧ inv st' L' ∧ allocs_of L' = delete a (allocs_of L) ∧ (∀ x, managed_by L' x → managed_by L x) ∧
    (2 ≤ reserve (md st) → 2 ≤ reserve (md st')).
Proof.
  intros Hi Ha. destruct (allocs_bytes st L a n Hi Ha) as (Ha0 & Hn & Han & Hman).
  destruct (perform_refines st L (Free a) Hi) as (ans & st' & L' & R & Hi' & Hs); [cbn; lia|].
  unfold perform in R. unfold mbind, exc_bind, mret, exc_ret in R. destruct (Allocator_avl.free a st) as [[[]|] s1] eqn:E; [|done]. injection R as <- <-.
  exists s1, L'. split; [done|]. split; [done|].
  assert (∀ a' n', allocs_of L !! a' = Some n' → a' ≤ a < a' + n' → a' = a ∧ n' = n) as Hsame.
  { intros a' n' Ha' Hx. assert (a' = a) as -> by (apply (allocs_disjoint st L a' n' a n a Hi); [done..|lia]). split; [done|congruence]. }
  apply spec_free_inv in Hs as [(b & m & Hb & Hx & Hal & Hfr)|Hno]; [|exfalso; apply Hno; exists a, n; split; [done|lia]].
  destruct (Hsame _ _ Hb Hx) as [-> ->]. split; [done|]. split.
  2: { destruct Hi as [[T Ho] Hmg]. destruct (free_run st T L a Ho Hmg) as (st2 & _ & _ & E2 & _ & _ & Hres & _); [lia|]. rewrite E in E2. by injection E2 as <-. }
  intros x [Hf|(b & k & Hbk & Hbx)].
  - destruct Hfr as [Hfr|Hfr]; rewrite Hfr in Hf; [apply elem_of_union in Hf as [Hf|Hr%elem_of_range]; [by left|by apply Hman]|by left].
  - rewrite Hal in Hbk. apply lookup_delete_Some in Hbk as [_ Hbk]. right. by exists b, k.
Qed.

Lemma size_at_run st L a :
  inv st L → 0 ≤ a < 2 ^ 64 →
  ∃ r st' L', size_at a st = (Ok r, st') ∧ inv st' L' ∧ view_of L' = view_of L ∧ (∀ n, allocs_of L !! a = Some n → r = Ok n) ∧
    (¬ managed_by L a → r = Err UNKNOWN_ADDR) ∧ (∀ b n, allocs_of L !! b = Some n → b < a < b + n → r = Err MISMATCHING_ADDR).
Proof.
  intros Hi Ha. destruct (perform_refines st L (Size_at a) Hi) as (ans & st' & L' & R & Hi' & Hs); [cbn; lia|].
  unfold perform in R. unfold mbind, exc_bind, mret, exc_ret in R. destruct (size_at a st) as [[r|] s1] eqn:E; [|done]. injection R as <- <-.
  exists r, s1, L'. apply spec_size_inv in Hs as [Hv Hr]. split; [done|]. split; [done|]. split; [done|]. split.
  - intros n Hn. destruct (allocs_bytes st L a n Hi Hn) as (_ & Hn0 & _ & Hman). assert (a ∉ free_set (view_of L)) as Hnf by (intros Hf; apply (free_not_allocated st L a n a Hi Hf Hn); lia).
    assert (managed_by L a) by (apply Hman; lia). destruct r as [m|[]]; [congruence|tauto|destruct Hr as [[_ ?]|?]; [congruence|done]].
  - split; [|intros b n Hb Hab].
    2: { assert (a ∉ free_set (view_of L)) as Hnf by (intros Hf; apply (free_not_allocated st L b n a Hi Hf Hb); lia).
         destruct (allocs_bytes st L b n Hi Hb) as (_ & _ & _ & Hman). assert (managed_by L a) by (apply Hman; lia). destruct r as [m|[]]; [|tauto|done].
         destruct (allocs_bytes st L a m Hi Hr) as (_ & ? & _). assert (a = b); [|lia]. apply (allocs_disjoint st L a m b n a Hi); [done..|lia|lia]. }
    intros Hno. destruct r as [m|[]]; [|done|].
    + destruct Hno. destruct (allocs_bytes st L a m Hi Hr) as (_ & ? & _ & Hman). apply Hman. lia.
    + destruct Hr as [[? _]|?]; [done|]. destruct Hno. by left.
Qed.
End Local.

(** ** The invariant *)

(** The object at [o] does not share a byte with the dataspace. *)
Definition apart_from (d : Dataspace) (o : Z) : Prop := ∀ x, o ≤ x < o + sizeof_Dataspace → ¬ region d x.

(** The objects behind the one of a dataspace have been created before the dataspace. *)
Fixpoint lifo (P : list (Z * Dataspace)) : Prop :=
  match P with [] => True | (_, d) :: P => (∀ o, o ∈ P.*1 → apart_from d o) ∧ lifo P end.

Lemma lifo_remove P1 o d P2 : lifo (P1 ++ (o, d) :: P2) → lifo (P1 ++ P2).
Proof.
  induction P1 as [|[o1 d1] P1 IH]; cbn; [by intros [_ ?]|]. intros [Hd Hl]. split; [|by apply IH]. intros o' Ho'. apply Hd.
  rewrite fmap_app in Ho' |- *. cbn in *. apply elem_of_app. apply elem_of_app in Ho' as [?|?]; [by left|by right; apply elem_of_cons; right].
Qed.

Lemma lifo_tail P1 o d P2 : lifo (P1 ++ (o, d) :: P2) → ∀ o', o' ∈ P2.*1 → apart_from d o'.
Proof. induction P1 as [|[o1 d1] P1 IH]; cbn; [intros [? _]; assumption|]. intros [_ ?]. by apply IH. Qed.

(** [P] are the objects and their dataspaces in the order of the list, [G] the addresses of
    the big allocations, [N] and [X] the dataspaces without an object that the local allocator
    manages and does not manage, [U] the other allocations at the local allocator. *)
Record holds {S R} `{Metadata_laws S, Memory_laws R} (h : @heap S R) (P : list (Z * Dataspace)) (G : gset Z) (N X : list Dataspace) (U : gmap Z Z) (L : list Block) : Prop := Holds {
  hd_attached : attached (P.*2 ++ N ++ X) (mem h);
  hd_local : inv (_alloc h) L;
  hd_list : Linked_list.rep (_ds_pool h) (P.*1);
  hd_objs o d : (o, d) ∈ P → ds_objs h !! o = Some d;
  hd_lifo : lifo P;
  hd_pending d o : d ∈ N → o ∈ P.*1 → apart_from d o;
  hd_managed x : managed_by L x → 0 < x ∧ (occupied x ∨ ∃ d, (d ∈ N ∨ d ∈ P.*2 ∧ local_addr d ∉ G) ∧ region d x);
  hd_allocs a n : allocs_of L !! a = Some n ↔ a ∈ P.*1 ∧ n = sizeof_Dataspace ∨ U !! a = Some n;
  hd_apart a : a ∈ P.*1 → U !! a = None;
  hd_big a : a ∈ G → ∃ d, d ∈ P.*2 ∧ local_addr d = a;
  hd_chunk : MIN_CHUNK_SIZE ≤ _chunk_size h ≤ MAX_CHUNK_SIZE ∧ (4096 | _chunk_size h) }.
