(* ===== verification/Heap_ops.v ===== *)
(** * Heap_ops: what the parts of the heap do to its invariant

    Lemmas on the steps of [_allocate_dataspace], [_try_local_alloc], [remove_and_free] and
    [free] in [src/repos/base/src/lib/base/heap.cc]: an allocation at the local allocator,
    the acquisition and release of a dataspace, and the creation and removal of a
    [Dataspace] object. *)

From S2P Require Import Prelude Avl_nodes Avl_trees Allocator_avl Allocator_avl_blocks Allocator_avl_spec Allocator_avl_ops Allocator_avl_props Heap Heap_inv.
From S2P Require Linked_list.

Section Ops.
Context {S R : Type} `{Metadata_laws S, Memory_laws R}.
Abbreviation heap := (@heap S R).
Implicit Types (h : heap) (P : list (Z * Dataspace)) (G : gset Z) (N X : list Dataspace) (U : gmap Z Z) (L : list Block) (d : Dataspace).

(** ** Consequences of the invariant *)

Lemma object_allocated h P G N X U L o : holds h P G N X U L → o ∈ P.*1 → allocs_of L !! o = Some sizeof_Dataspace.
Proof. intros Hh Ho. apply (hd_allocs _ _ _ _ _ _ _ Hh). by left. Qed.

Lemma object_bytes h P G N X U L o x : holds h P G N X U L → o ∈ P.*1 → o ≤ x < o + sizeof_Dataspace → managed_by L x.
Proof.
  intros Hh Ho Hx. destruct (allocs_bytes _ _ _ _ (hd_local _ _ _ _ _ _ _ Hh) (object_allocated _ _ _ _ _ _ _ _ Hh Ho)) as (_ & _ & _ & Hm). by apply Hm.
Qed.

(** Dataspaces that the local allocator does not know *)
Definition foreign P G X d : Prop := d ∈ X ∨ d ∈ P.*2 ∧ local_addr d ∈ G.

Lemma foreign_bytes h P G N X U L d x : holds h P G N X U L → foreign P G X d → managed_by L x → ¬ region d x.
Proof.
  intros Hh Hf Hm Hx. pose proof (hd_attached _ _ _ _ _ _ _ Hh) as Ha. assert (d ∈ P.*2 ++ N ++ X) as Hd by (destruct Hf; set_solver).
  destruct (hd_managed _ _ _ _ _ _ _ Hh x Hm) as (_ & [Ho|(d' & Hd' & Hx')]); [by apply (at_ok _ _ Ha d Hd) in Hx|].
  destruct (at_apart _ _ Ha d d' Hd ltac:(set_solver)) as [<-|[_ Hap]]; [|by apply (Hap x)].
  pose proof (at_nodup _ _ Ha) as (_ & Hn1 & (_ & Hn2 & _)%NoDup_app)%NoDup_app. destruct Hf as [Hf|[Hf HG]], Hd' as [Hd'|[Hd' HG']]; [by apply (Hn2 d)| |..|done].
  - apply (Hn1 d Hd'). set_solver.
  - apply (Hn1 d Hf). set_solver.
Qed.

Lemma foreign_object h P G N X U L d o : holds h P G N X U L → foreign P G X d → o ∈ P.*1 → apart_from d o.
Proof. intros Hh Hf Ho x Hx. apply (foreign_bytes h P G N X U L); [done|done|]. by apply (object_bytes h P G N X U L o). Qed.

Lemma apart_outside {A} d o (a : A) : 0 < ds_size d → apart_from d o → outside (local_addr d) (ds_size d) (o, a).
Proof.
  intros Hs Ha. unfold outside. cbn. destruct (decide (o + sizeof_Dataspace ≤ local_addr d)); [by left|]. destruct (decide (local_addr d + ds_size d ≤ o)); [by right|].
  exfalso. apply (Ha (Z.max o (local_addr d))); unfold region, sizeof_Dataspace in *; lia.
Qed.

(** ** The local allocator *)

Lemma holds_local h P G N N' X X' U U' L s L' :
  holds h P G N X U L → inv s L' → N' ++ X' = N ++ X →
  (∀ d o, d ∈ N' → o ∈ P.*1 → apart_from d o) →
  (∀ x, managed_by L' x → 0 < x ∧ (occupied x ∨ ∃ d, (d ∈ N' ∨ d ∈ P.*2 ∧ local_addr d ∉ G) ∧ region d x)) →
  (∀ a n, allocs_of L' !! a = Some n ↔ a ∈ P.*1 ∧ n = sizeof_Dataspace ∨ U' !! a = Some n) →
  (∀ a, a ∈ P.*1 → U' !! a = None) →
  holds (with_alloc s h) P G N' X' U' L'.
Proof. intros [] Hi HN Hp Hm Ha Hap. split; cbn; try done. by rewrite HN. Qed.

Lemma alloc_at_holds h P G N X U L n :
  holds h P G N X U L → 0 < n < 2 ^ 63 →
  ∃ r s L', alloc_at n h = (Ok r, with_alloc s h) ∧ match r with
    | Ok p => (16 | p) ∧ 0 < p ∧ p + n < 2 ^ 64 ∧ U !! p = None ∧ p ∉ P.*1 ∧ holds (with_alloc s h) P G N X (<[p := n]> U) L'
    | Err _ => holds (with_alloc s h) P G N X U L' ∧ ∃ a, ∀ x, x ∈ free_set (view_of L) → ¬ a ≤ x < a + n → x ∈ free_set (view_of L')
    end.
Proof.
  intros Hh Hn. pose proof (hd_local _ _ _ _ _ _ _ Hh) as Hi. destruct (alloc_at_run (_alloc h) L n Hi Hn) as (r & s & L' & R0 & Hi' & Hr).
  exists r, s, L'. split; [by unfold alloc_at, local; rewrite R0|]. destruct r as [p|e].
  - destruct Hr as (Hal & Ha & Hm & Hfree). assert (allocs_of L !! p = None) as Hp.
    { destruct (allocs_of L !! p) as [k|] eqn:E; [|done]. exfalso. destruct (allocs_bytes _ _ _ _ Hi E) as (_ & ? & _). apply (free_not_allocated _ L p k p Hi); [apply Hfree; lia|done|lia]. }
    assert (allocs_of L' !! p = Some n) as Hp' by (rewrite Ha; apply lookup_insert_eq).
    destruct (allocs_bytes _ _ _ _ Hi' Hp') as (_ & _ & ? & Hman). destruct (hd_managed _ _ _ _ _ _ _ Hh p) as [? _]; [apply Hm, Hman; lia|].
    assert (p ∉ P.*1) as HpP by (intros Hx; rewrite (object_allocated _ _ _ _ _ _ _ _ Hh Hx) in Hp; done).
    assert (U !! p = None) as HpU by (destruct (U !! p) as [z|] eqn:E; [|done]; assert (allocs_of L !! p = Some z) by (apply (hd_allocs _ _ _ _ _ _ _ Hh); by right); congruence).
    split_and!; try done. apply (holds_local h P G N N X X U _ L); [done|done|done|by apply (hd_pending _ _ _ _ _ _ _ Hh)|intros x Hx; by apply (hd_managed _ _ _ _ _ _ _ Hh), Hm|..].
    + intros a k. rewrite Ha, !lookup_insert_Some, (hd_allocs _ _ _ _ _ _ _ Hh). split; [|intros [[HaP ?]|?]; [|tauto]].
      * tauto.
      * right. split; [by intros <-|tauto].
    + intros a HaP. rewrite lookup_insert_ne by (by intros <-). by apply (hd_apart _ _ _ _ _ _ _ Hh).
  - destruct Hr as (Ha & Hm & Hlost). split; [|done]. apply (holds_local h P G N N X X U _ L); [done|done|done|by apply (hd_pending _ _ _ _ _ _ _ Hh)|intros x Hx; by apply (hd_managed _ _ _ _ _ _ _ Hh), Hm|..].
    + intros a k. rewrite Ha. apply (hd_allocs _ _ _ _ _ _ _ Hh).
    + apply (hd_apart _ _ _ _ _ _ _ Hh).
Qed.

Lemma free_holds h P G N X U L a n :
  holds h P G N X U L → U !! a = Some n →
  ∃ s L', local (Allocator_avl.free a) h = (Ok tt, with_alloc s h) ∧ holds (with_alloc s h) P G N X (delete a U) L'.
Proof.
  intros Hh Ha. pose proof (hd_local _ _ _ _ _ _ _ Hh) as Hi. assert (allocs_of L !! a = Some n) as Hl by (apply (hd_allocs _ _ _ _ _ _ _ Hh); by right).
  destruct (free_local_run (_alloc h) L a n Hi Hl) as (s & L' & R0 & Hi' & Hal & Hm & _). exists s, L'. split; [by unfold local; rewrite R0|].
  assert (a ∉ P.*1) as HaP by (intros Hx; apply (hd_apart _ _ _ _ _ _ _ Hh) in Hx; congruence).
  apply (holds_local h P G N N X X U _ L); [done|done|done|by apply (hd_pending _ _ _ _ _ _ _ Hh)|intros x Hx; by apply (hd_managed _ _ _ _ _ _ _ Hh), Hm|..].
  - intros b k. rewrite Hal, !lookup_delete_Some, (hd_allocs _ _ _ _ _ _ _ Hh). split; [tauto|]. intros [[HbP ?]|?]; [|tauto]. split; [by intros ->|tauto].
  - intros b Hb. rewrite lookup_delete_ne by (by intros ->). by apply (hd_apart _ _ _ _ _ _ _ Hh).
Qed.

Lemma add_range_holds h P G X U L d :
  holds h P G [] (d :: X) U L →
  ∃ r s L', local (add_range (local_addr d) (ds_size d)) h = (Ok r, with_alloc s h) ∧
    match r with Ok _ => holds (with_alloc s h) P G [d] X U L' ∧ (∀ x, region d x → x ∈ free_set (view_of L')) | Err _ => holds (with_alloc s h) P G [] (d :: X) U L' end.
Proof.
  intros Hh. pose proof (hd_local _ _ _ _ _ _ _ Hh) as Hi. pose proof (hd_attached _ _ _ _ _ _ _ Hh) as Hat.
  destruct (at_ok _ _ Hat d ltac:(set_solver)) as (Hd1 & Hd2 & Hd3 & _). destruct (local_add_range_run (_alloc h) L (local_addr d) (ds_size d) Hi) as (r & s & L' & R0 & Hi' & Hal & Hr); [lia..|].
  exists r, s, L'. split; [by unfold local; rewrite R0|]. assert (∀ a k, allocs_of L' !! a = Some k ↔ a ∈ P.*1 ∧ k = sizeof_Dataspace ∨ U !! a = Some k) as Ha by (intros a k; rewrite Hal; apply (hd_allocs _ _ _ _ _ _ _ Hh)).
  destruct r as [[]|e].
  - destruct Hr as [Hm Hnew]. split; [|intros x Hx; by apply Hnew]. apply (holds_local h P G [] [d] (d :: X) X U U L); [done|done|done| | |done|by apply (hd_apart _ _ _ _ _ _ _ Hh)].
    + intros d' o ->%list_elem_of_singleton. apply (foreign_object h P G [] (d :: X) U L); [done|]. left. constructor.
    + intros x [Hx|Hx]%Hm.
      * destruct (hd_managed _ _ _ _ _ _ _ Hh x Hx) as (? & [?|(d' & [?%elem_of_nil|?] & ?)]); [by split; [|left]|done|]. split; [done|]. right. exists d'. split; [by right|done].
      * split; [lia|]. right. exists d. split; [left; constructor|done].
  - apply (holds_local h P G [] [] (d :: X) (d :: X) U U L); [done|done|done|by intros ? ? ?%elem_of_nil|intros x Hx; by apply (hd_managed _ _ _ _ _ _ _ Hh), Hr|done|by apply (hd_apart _ _ _ _ _ _ _ Hh)].
Qed.

(** ** Dataspaces *)

Lemma holds_mem h P G N X X' U L m :
  holds h P G N X U L → attached (P.*2 ++ N ++ X') m → holds (with_mem m h) P G N X' U L.
Proof. intros [] Hm. by split. Qed.

Lemma attach_holds h P G X U L n c m1 a m2 :
  holds h P G [] X U L → 0 < n → (4096 | n) → ram_try_alloc n (mem h) = (Ok c, m1) → rm_attach c m1 = (Ok a, m2) →
  holds (with_mem m2 h) P G [] (Ds c a n :: X) U L.
Proof.
  intros Hh Hn Hp Hr Ha. apply (holds_mem h P G [] X); [done|]. apply (attached_perm (Ds c a n :: P.*2 ++ [] ++ X)); [cbn; apply Permutation_middle|].
  apply (attached_new _ (mem h) n c m1 a m2); try done. apply (hd_attached _ _ _ _ _ _ _ Hh).
Qed.

Lemma same_address D m d d' : attached D m → d ∈ D → d' ∈ D → local_addr d = local_addr d' → d = d'.
Proof.
  intros Ha Hd Hd' He. destruct (at_apart D m Ha d d' Hd Hd') as [?|[_ Hx]]; [done|]. exfalso.
  destruct (at_ok D m Ha d Hd) as (_ & ? & _). destruct (at_ok D m Ha d' Hd') as (_ & ? & _). apply (Hx (local_addr d)); unfold region; lia.
Qed.

(** The heap after a region is detached and its dataspace freed *)
Definition gone d h : heap :=
  with_mem (ram_free (cap d) (rm_detach (local_addr d) (mem h))) (with_objs (filter (outside (local_addr d) (ds_size d)))
    (with_pool (Linked_list.Mk (filter (outside (local_addr d) (ds_size d)) (Linked_list.store (_ds_pool h))) (Linked_list._first (_ds_pool h))) h)).

Lemma detach_free_run {A} d h (k : exc heap fault A) : (detach (local_addr d) (ds_size d);; free_ram (cap d);; k) h = k (gone d h).
Proof. done. Qed.

Lemma lseg_filter (s : gmap Z Z) l q a n : (∀ o, o ∈ l → outside a n (o, 0)) → Linked_list.lseg s l q → Linked_list.lseg (filter (outside a n) s) l q.
Proof.
  induction l as [|x l IH]; [done|]. intros Ho (Hx0 & Hx & Hl). split; [done|]. split; [|apply IH; [intros o Hin; apply Ho; by constructor|done]].
  apply map_lookup_filter_Some. split; [done|]. apply (Ho x). constructor.
Qed.

Lemma gone_run d h (Q : list (Z * Dataspace)) :
  0 < ds_size d → (∀ o, o ∈ Q.*1 → apart_from d o) → Linked_list.rep (_ds_pool h) (Q.*1) → (∀ o e, (o, e) ∈ Q → ds_objs h !! o = Some e) →
  Linked_list.rep (_ds_pool (gone d h)) (Q.*1) ∧ (∀ o e, (o, e) ∈ Q → ds_objs (gone d h) !! o = Some e).
Proof.
  intros Hs Hq [Hnd Hf Hl] Ho. split.
  - split; [done|done|]. cbn. apply lseg_filter; [|done]. intros o Hin. apply apart_outside; [done|by apply Hq].
  - intros o e Hin. cbn. apply map_lookup_filter_Some. split; [by apply Ho|]. apply apart_outside; [done|]. apply Hq. by apply (list_elem_of_fmap_2 fst) in Hin.
Qed.

Lemma release_holds h P G X U L d :
  holds h P G [] (d :: X) U L → holds (gone d h) P G [] X U L.
Proof.
  intros Hh. pose proof (hd_attached _ _ _ _ _ _ _ Hh) as Ha. destruct (at_ok _ _ Ha d ltac:(set_solver)) as (_ & Hs & _).
  destruct (gone_run d h P) as [Hr Ho]; [done| |by apply (hd_list _ _ _ _ _ _ _ Hh)|by apply (hd_objs _ _ _ _ _ _ _ Hh)|].
  - intros o. apply (foreign_object h P G [] (d :: X) U L); [done|]. left. constructor.
  - destruct Hh. split; try done. cbn. apply attached_release. apply (attached_perm (P.*2 ++ d :: X)); [by rewrite <- Permutation_middle|done].
Qed.

(** ** Objects *)

(** The parts of the heap besides the objects, the list and the dataspaces are the same. *)
Definition same_rest h h' : Prop :=
  _alloc h' = _alloc h ∧ _quota_limit h' = _quota_limit h ∧ _quota_used h' = _quota_used h ∧ _chunk_size h' = _chunk_size h.

Lemma adopt_object_run h l o d :
  Linked_list.rep (_ds_pool h) l → o ∉ l → o ≠ 0 →
  ∃ h', (∀ A (k : exc heap fault A), (construct o d;; on_pool (Linked_list.insert o 0);; k) h = k h') ∧
    Linked_list.rep (_ds_pool h') (o :: l) ∧ ds_objs h' = <[o := d]> (ds_objs h) ∧ mem h' = mem h ∧ same_rest h h'.
Proof.
  intros [Hd Hf Hl] Ho Ho0. set (p := Linked_list.Mk (<[o := 0]> (Linked_list.store (_ds_pool h))) (Linked_list._first (_ds_pool h))).
  assert (Linked_list.rep p l) as Hp by (split; [done|done|by apply Linked_list.lseg_insert]).
  destruct (Linked_list.insert_first_rep p l o Hp Ho Ho0) as [E Hr]; [cbn; rewrite lookup_insert_eq; by eexists|].
  exists (with_pool (Linked_list.Mk (<[o := Linked_list.hd_z l]> (Linked_list.store p)) o) (with_objs <[o := d]> h)). split; [|split; [exact Hr|]].
  - intros A k. unfold construct, on_pool, modify, mbind, exc_bind. cbn [_ds_pool with_pool with_objs]. fold p. rewrite E. reflexivity.
  - done.
Qed.

Lemma remove_and_free_run h P1 o d P2 :
  Linked_list.rep (_ds_pool h) ((P1 ++ (o, d) :: P2).*1) → (∀ o' e, (o', e) ∈ P1 ++ (o, d) :: P2 → ds_objs h !! o' = Some e) →
  0 < ds_size d → (∀ o', o' ∈ (P1 ++ P2).*1 → apart_from d o') →
  ∃ h', remove_and_free o h = (Ok tt, h') ∧ Linked_list.rep (_ds_pool h') ((P1 ++ P2).*1) ∧ (∀ o' e, (o', e) ∈ P1 ++ P2 → ds_objs h' !! o' = Some e) ∧
    mem h' = ram_free (cap d) (rm_detach (local_addr d) (mem h)) ∧ same_rest h h'.
Proof.
  intros Hr Ho Hs Hap. rewrite fmap_app in Hr. cbn in Hr. destruct (Linked_list.list_remove_rep _ _ _ _ Hr) as (p & E & Hr' & _).
  rewrite <- fmap_app in Hr'. destruct (gone_run d (with_pool p h) (P1 ++ P2)) as [Hg Hgo]; [done..|intros o' e Hin; apply Ho; set_solver|].
  exists (gone d (with_pool p h)). split; [|by split_and!]. unfold remove_and_free, deref. rewrite (bind_ok _ _ h d h) by (by rewrite (Ho o d) by set_solver).
  rewrite (bind_ok _ _ h tt (with_pool p h)) by (unfold on_pool; by rewrite E). done.
Qed.

(** A new object: an allocation becomes the object of the pending dataspace, which is the
    memory of the local allocator ([N = [d]]) or a big allocation. *)
Lemma adopt_holds h P G G' N X X' U L o d :
  holds h P G N X (<[o := sizeof_Dataspace]> U) L → U !! o = None →
  (N = [d] ∧ X = X' ∧ G' = G ∨ N = [] ∧ X = d :: X' ∧ G' = {[local_addr d]} ∪ G) →
  ∃ h', (∀ A (k : exc heap fault A), (construct o d;; on_pool (Linked_list.insert o 0);; k) h = k h') ∧
    holds h' ((o, d) :: P) G' [] X' U L ∧ ds_objs h' !! o = Some d ∧ local_addr d ∉ G ∧ same_rest h h'.
Proof.
  intros Hh Ho Hcase. pose proof (hd_attached _ _ _ _ _ _ _ Hh) as Ha. pose proof (hd_allocs _ _ _ _ _ _ _ Hh) as Hal.
  assert (allocs_of L !! o = Some sizeof_Dataspace) as Hoa by (apply Hal; right; apply lookup_insert_eq).
  assert (o ∉ P.*1) as HoP by (intros Hx; apply (hd_apart _ _ _ _ _ _ _ Hh) in Hx; by rewrite lookup_insert_eq in Hx).
  destruct (allocs_bytes _ _ _ _ (hd_local _ _ _ _ _ _ _ Hh) Hoa) as (_ & Hsz & _ & Hob). destruct (hd_managed _ _ _ _ _ _ _ Hh o) as [Ho0 _]; [apply Hob; lia|].
  assert (d ∈ P.*2 ++ N ++ X ∧ P.*2 ++ N ++ X ≡ₚ d :: P.*2 ++ [] ++ X') as [HdD HD].
  { destruct Hcase as [(-> & -> & _)|(-> & -> & _)]; (split; [set_solver|]); cbn; symmetry; apply Permutation_middle. }
  assert (∀ d', d' ∈ P.*2 → local_addr d' ≠ local_addr d) as Hne.
  { intros d' Hd' He. assert (d' = d) as -> by (apply (same_address _ _ d' d Ha); [set_solver|done|done]).
    pose proof (at_nodup _ _ Ha) as Hnd. rewrite HD in Hnd. apply NoDup_cons in Hnd as [Hnd _]. apply Hnd. set_solver. }
  assert (local_addr d ∉ G) as HdG by (intros Hx; destruct (hd_big _ _ _ _ _ _ _ Hh _ Hx) as (d' & Hd' & He); by apply (Hne d')).
  assert (∀ o', o' ∈ P.*1 → apart_from d o') as Hap.
  { intros o' Ho'. destruct Hcase as [(-> & _)|(-> & -> & _)]; [apply (hd_pending _ _ _ _ _ _ _ Hh); [constructor|done]|].
    apply (foreign_object h P G [] (d :: X') (<[o := sizeof_Dataspace]> U) L); [done|left; constructor|done]. }
  destruct (adopt_object_run h (P.*1) o d (hd_list _ _ _ _ _ _ _ Hh) HoP) as (h' & R0 & Hr' & Ho' & Hm' & Hs'); [lia|].
  exists h'. split; [exact R0|]. split; [|split; [by rewrite Ho', lookup_insert_eq|done]]. destruct Hs' as (Es & El & Eu & Ec). split.
  - rewrite Hm'. cbn. by apply (attached_perm (P.*2 ++ N ++ X)).
  - rewrite Es. apply (hd_local _ _ _ _ _ _ _ Hh).
  - done.
  - intros o' e. rewrite Ho'. intros [[= -> ->]|Hin]%elem_of_cons; [apply lookup_insert_eq|]. rewrite lookup_insert_ne; [by apply (hd_objs _ _ _ _ _ _ _ Hh)|].
    intros <-. apply HoP. by apply (list_elem_of_fmap_2 fst) in Hin.
  - split; [done|apply (hd_lifo _ _ _ _ _ _ _ Hh)].
  - by intros ? ? ?%elem_of_nil.
  - intros x Hx. destruct (hd_managed _ _ _ _ _ _ _ Hh x Hx) as (? & [?|(d' & Hd' & Hdx)]); [by split; [|left]|]. split; [done|]. right. exists d'. split; [right|done].
    destruct Hcase as [(-> & -> & ->)|(-> & -> & ->)], Hd' as [Hd'|[Hd' HG]].
    + apply list_elem_of_singleton in Hd' as ->. split; [constructor|done].
    + split; [by constructor|done].
    + by apply elem_of_nil in Hd'.
    + split; [by constructor|]. specialize (Hne d' Hd'). set_solver.
  - intros a n. cbn. rewrite Hal, elem_of_cons, lookup_insert_Some. split; [intros [?|[[<- <-]|[_ ?]]]; tauto|].
    intros [[[->|?] ->]|Ha']; [tauto|tauto|]. right. right. split; [intros ->; congruence|done].
  - intros a [->|Hin]%elem_of_cons; [done|]. pose proof (hd_apart _ _ _ _ _ _ _ Hh a Hin) as Hx. by apply lookup_insert_None in Hx as [? _].
  - intros a Ha'. destruct Hcase as [(_ & _ & ->)|(_ & _ & ->)].
    + destruct (hd_big _ _ _ _ _ _ _ Hh a Ha') as (d' & ? & ?). exists d'. split; [by constructor|done].
    + apply elem_of_union in Ha' as [->%elem_of_singleton|Ha']; [exists d; split; [constructor|done]|].
      destruct (hd_big _ _ _ _ _ _ _ Hh a Ha') as (d' & ? & ?). exists d'. split; [by constructor|done].
  - rewrite Ec. apply (hd_chunk _ _ _ _ _ _ _ Hh).
Qed.

(** A big allocation is removed; the memory of its object is an allocation again. *)
Lemma remove_holds h P1 o d P2 G U L :
  holds h (P1 ++ (o, d) :: P2) G [] [] U L → local_addr d ∈ G →
  ∃ h', remove_and_free o h = (Ok tt, h') ∧ holds h' (P1 ++ P2) (G ∖ {[local_addr d]}) [] [] (<[o := sizeof_Dataspace]> U) L ∧ same_rest h h'.
Proof.
  intros Hh HdG. set (P := P1 ++ (o, d) :: P2) in *. pose proof (hd_attached _ _ _ _ _ _ _ Hh) as Ha. cbn in Ha. rewrite app_nil_r in Ha.
  assert ((o, d) ∈ P) as Hin by set_solver. assert (d ∈ P.*2) as Hd by (by apply (list_elem_of_fmap_2 snd) in Hin). assert (o ∈ P.*1) as HoP by (by apply (list_elem_of_fmap_2 fst) in Hin).
  assert (P.*2 ≡ₚ d :: (P1 ++ P2).*2) as HD by (unfold P; rewrite !fmap_app; symmetry; apply Permutation_middle).
  assert (P.*1 ≡ₚ o :: (P1 ++ P2).*1) as HO by (unfold P; rewrite !fmap_app; symmetry; apply Permutation_middle).
  pose proof (Linked_list.rep_nodup _ _ (hd_list _ _ _ _ _ _ _ Hh)) as HnO. rewrite HO in HnO. apply NoDup_cons in HnO as [HoPP _].
  pose proof (at_nodup _ _ Ha) as HnD. rewrite HD in HnD. apply NoDup_cons in HnD as [HdPP _].
  assert (∀ d', d' ∈ (P1 ++ P2).*2 → local_addr d' ≠ local_addr d) as Hne.
  { intros d' Hd' He. assert (d' = d) as ->; [|done]. apply (same_address _ _ d' d Ha); [rewrite HD; by constructor|done|done]. }
  destruct (at_ok _ _ Ha d Hd) as (_ & Hs & _).
  destruct (remove_and_free_run h P1 o d P2) as (h' & R0 & Hr' & Ho' & Hm' & Es & El & Eu & Ec); [apply (hd_list _ _ _ _ _ _ _ Hh)|apply (hd_objs _ _ _ _ _ _ _ Hh)|done| |].
  { intros o' Hin'. apply (foreign_object h P G [] [] U L); [done|by right|]. rewrite HO. by constructor. }
  exists h'. split; [done|]. split; [|done]. split.
  - rewrite Hm'. cbn. rewrite app_nil_r. apply attached_release. by apply (attached_perm (P.*2)).
  - rewrite Es. apply (hd_local _ _ _ _ _ _ _ Hh).
  - done.
  - done.
  - apply (lifo_remove _ o d), (hd_lifo _ _ _ _ _ _ _ Hh).
  - by intros ? ? ?%elem_of_nil.
  - intros x Hx. destruct (hd_managed _ _ _ _ _ _ _ Hh x Hx) as (? & [?|(d' & [?%elem_of_nil|[Hd' HG]] & Hdx)]); [by split; [|left]|done|].
    split; [done|]. right. exists d'. split; [right|done]. rewrite HD in Hd'. apply elem_of_cons in Hd' as [->|?]; [done|]. split; [done|]. set_solver.
  - intros a n. rewrite (hd_allocs _ _ _ _ _ _ _ Hh), HO, elem_of_cons, lookup_insert_Some. split.
    + intros [[[->|?] ->]|Hu]; [by right; left|by left|]. right. right. split; [|done]. intros <-. apply (hd_apart _ _ _ _ _ _ _ Hh) in HoP. congruence.
    + intros [[? ?]|[[<- <-]|[_ ?]]]; [left; by split; [right|]|left; by split; [left|]|by right].
  - intros a Ha'. rewrite lookup_insert_ne by (by intros <-). apply (hd_apart _ _ _ _ _ _ _ Hh). rewrite HO. by constructor.
  - intros a [HaG Hx]%elem_of_difference. destruct (hd_big _ _ _ _ _ _ _ Hh a HaG) as (d' & Hd' & He). exists d'. split; [|done].
    rewrite HD in Hd'. apply elem_of_cons in Hd' as [->|?]; [set_solver|done].
  - rewrite Ec. apply (hd_chunk _ _ _ _ _ _ _ Hh).
Qed.

End Ops.
