(* ===== verification/Heap_spec.v ===== *)
(** * Heap_spec: allocation and release in the heap

    What [_allocate_dataspace], [_unsynchronized_alloc], [free] and the destructor of
    [src/repos/base/src/lib/base/heap.cc] do to the invariant of [Heap_inv], composed of the
    steps of [Heap_ops]. *)

From S2P Require Import Prelude Avl_nodes Avl_trees Allocator_avl Allocator_avl_blocks Allocator_avl_spec Allocator_avl_ops Allocator_avl_props Heap Heap_inv Heap_ops.
From S2P Require Linked_list.

Section Spec.
Context {S R : Type} `{Metadata_laws S, Memory_laws R}.
Abbreviation heap := (@heap S R).
Implicit Types (h : heap) (P Q : list (Z * Dataspace)) (G : gset Z) (N X D : list Dataspace) (U : gmap Z Z) (L : list Block) (d : Dataspace).

(** The local allocator would hand out a byte at which nothing is attached; [D] are the
    dataspaces. *)
Definition stale h D : Prop :=
  ∃ L x, inv (_alloc h) L ∧ x ∈ free_set (view_of L) ∧ ¬ occupied x ∧ attached D (mem h) ∧ ∀ d, d ∈ D → ¬ region d x.

Definition same_quota h h' : Prop := _quota_limit h' = _quota_limit h ∧ _quota_used h' = _quota_used h.

Lemma heap_get_run {A} (f : heap → A) h : get f h = (Ok (f h), h).
Proof. done. Qed.

(** ** Chunks *)

(** The memory for the object is missing although the range has been added. *)
Lemma gone_stale h P G X U L L' d s a :
  holds h P G [d] X U L → 4096 ≤ ds_size d → (∀ x, region d x → x ∈ free_set (view_of L)) → inv s L' →
  (∀ x, x ∈ free_set (view_of L) → ¬ a ≤ x < a + sizeof_Dataspace → x ∈ free_set (view_of L')) →
  stale (gone d (with_alloc s h)) (P.*2 ++ X).
Proof.
  intros Hh Hs Hf Hi Hlost. assert (attached (d :: P.*2 ++ X) (mem h)) as Ha.
  { apply (attached_perm (P.*2 ++ [d] ++ X)); [symmetry; apply Permutation_middle|apply (hd_attached _ _ _ _ _ _ _ Hh)]. }
  set (x := if decide (a ≤ local_addr d < a + sizeof_Dataspace) then a + sizeof_Dataspace else local_addr d).
  assert (region d x ∧ ¬ a ≤ x < a + sizeof_Dataspace) as [Hx Hxa] by (unfold x, region, sizeof_Dataspace in *; destruct (decide _); lia).
  exists L', x. split; [done|]. split; [by apply Hlost; [apply Hf|]|]. split; [by apply (at_ok _ _ Ha d); [constructor|]|]. split; [by apply attached_release|].
  intros d' Hd' Hx'. destruct (at_apart _ _ Ha d d') as [<-|[_ Hap]]; [constructor|by constructor| |by apply (Hap x)].
  pose proof (at_nodup _ _ Ha) as [Hno _]%NoDup_cons. done.
Qed.

Lemma chunk_run alloc h P G X U L n :
  holds h P G [] X U L → 4096 ≤ n < 2 ^ 63 → (4096 | n) →
  ∃ r h', _allocate_dataspace alloc n false h = (Ok r, h') ∧ same_quota h h' ∧ match r with
    | Ok o => ∃ d L', ds_size d = n ∧ local_addr d ∉ G ∧ holds h' ((o, d) :: P) G [] X U L'
    | Err _ => (∃ L', holds h' P G [] X U L') ∨ stale h' (P.*2 ++ X)
    end.
Proof.
  intros Hh Hn Hp. pose proof (hd_attached _ _ _ _ _ _ _ Hh) as Ha. unfold _allocate_dataspace. destruct (ram_try_alloc n (mem h)) as [r1 m1] eqn:E1.
  rewrite (bind_ok _ _ h r1 (with_mem m1 h)) by (unfold call_mem; by rewrite E1). destruct r1 as [c|e].
  2: { exists (Err e), (with_mem m1 h). split; [done|]. split; [done|]. left. exists L. apply (holds_mem h P G [] X); [done|].
       destruct (ram_try_alloc_err n (mem h) e m1 E1) as [Hd1 Hr1]. by apply (attached_same _ (mem h)). }
  destruct (rm_attach c m1) as [r2 m2] eqn:E2. rewrite (bind_ok _ _ (with_mem m1 h) r2 (with_mem m2 h)) by (unfold call_mem; cbn; by rewrite E2). destruct r2 as [a|e].
  2: { eexists _, (with_mem (ram_free c m2) h). split; [done|]. split; [done|]. left. exists L. apply (holds_mem h P G [] X); [done|].
       apply (attached_undo _ (mem h) n c m1 e m2); [done|lia|done..]. }
  pose proof (attach_holds h P G X U L n c m1 a m2 Hh ltac:(lia) Hp E1 E2) as Hh2. set (d := Ds c a n) in *. set (h2 := with_mem m2 h) in *.
  change a with (local_addr d). change n with (ds_size d) at 1 2. change c with (cap d). unfold dataspace_metadata.
  destruct (add_range_holds h2 P G X U L d Hh2) as (r3 & s3 & L3 & R3 & Hr3). destruct r3 as [u|e].
  - destruct Hr3 as [Hh3 Hf3]. set (h3 := with_alloc s3 h2) in *. destruct (alloc_at_holds h3 P G [d] X U L3 sizeof_Dataspace Hh3 ltac:(unfold sizeof_Dataspace; lia)) as (r4 & s4 & L4 & R4 & Hr4).
    rewrite (bind_ok _ _ h2 r4 (with_alloc s4 h3)) by (rewrite (bind_ok _ _ _ _ _ R3); exact R4). destruct r4 as [o|e].
    + destruct Hr4 as (_ & _ & _ & Ho & _ & Hh4). destruct (adopt_holds _ P G G [d] X X U L4 o d Hh4 Ho) as (h5 & R5 & Hh5 & _ & HdG & (_ & ? & ? & _)); [by left|].
      exists (Ok o), h5. split; [exact (R5 _ _)|]. split; [done|]. by exists d, L4.
    + destruct Hr4 as [Hh4 [b Hb]]. exists (Err e), (gone d (with_alloc s4 h3)). split; [done|]. split; [done|]. right.
      apply (gone_stale h3 P G X U L3 L4 d s4 b); [done|cbn; lia|done|apply (hd_local _ _ _ _ _ _ _ Hh4)|done].
  - rewrite (bind_ok _ _ h2 (Err e) (with_alloc s3 h2)) by (by rewrite (bind_ok _ _ _ _ _ R3)).
    exists (Err e), (gone d (with_alloc s3 h2)). split; [done|]. split; [done|]. left. exists L3. by apply release_holds.
Qed.

(** ** Small allocations *)

Lemma holds_quota h P G N X U L q : holds h P G N X U L → holds (with_quota q h) P G N X U L.
Proof. intros []. by split. Qed.

Lemma holds_chunk h P G N X U L c :
  holds h P G N X U L → MIN_CHUNK_SIZE ≤ c ≤ MAX_CHUNK_SIZE → (4096 | c) → holds (with_chunk (Z.min (u64 (2 * c)) MAX_CHUNK_SIZE) h) P G N X U L.
Proof.
  intros Hh Hc Hd. destruct Hh. split; try done. cbn [_chunk_size with_chunk].
  unfold MIN_CHUNK_SIZE, MAX_CHUNK_SIZE in *. rewrite wrap_small by word_lia. split; [lia|]. destruct (Z.min_spec (2 * c) (256 * 1024)) as [[_ ->]|[_ ->]].
  - by apply Z.divide_mul_r.
  - by exists 64.
Qed.

Lemma try_local_run h P G X U L n :
  holds h P G [] X U L → 0 < n < 2 ^ 63 → 0 ≤ _quota_used h → _quota_used h + n < 2 ^ 64 →
  ∃ r h' L', _try_local_alloc n h = (Ok r, h') ∧ _quota_limit h' = _quota_limit h ∧ _chunk_size h' = _chunk_size h ∧ match r with
    | Ok p => (16 | p) ∧ U !! p = None ∧ _quota_used h' = _quota_used h + n ∧ holds h' P G [] X (<[p := n]> U) L'
    | Err _ => _quota_used h' = _quota_used h ∧ holds h' P G [] X U L'
    end.
Proof.
  intros Hh Hn Hq Hqn. destruct (alloc_at_holds h P G [] X U L n Hh Hn) as (r & s & L' & R0 & Hr). unfold _try_local_alloc. mrun R0. destruct r as [p|e].
  - destruct Hr as (Hal & _ & _ & Hp & _ & Hh'). eexists _, (with_quota (u64 (_quota_used h + n)) (with_alloc s h)), L'. split; [done|]. split; [done|]. split; [done|].
    split_and!; [done|done|apply wrap_small; word_lia|by apply holds_quota].
  - destruct Hr as [Hh' _]. by exists (Err e), (with_alloc s h), L'.
Qed.

(** The chunks that an allocation has added *)
Definition chunks G Q : Prop := ∀ e, e ∈ Q → local_addr e.2 ∉ G.

Definition small_outcome h P G X U n (r : result Alloc_error Z) h' : Prop :=
  _quota_limit h' = _quota_limit h ∧ match r with
  | Ok p => ∃ Q L', chunks G Q ∧ (16 | p) ∧ U !! p = None ∧ _quota_used h' = _quota_used h + n ∧ holds h' (Q ++ P) G [] X (<[p := n]> U) L'
  | Err _ => _quota_used h' = _quota_used h ∧ ((∃ Q L', chunks G Q ∧ holds h' (Q ++ P) G [] X U L') ∨ stale h' (P.*2 ++ X))
  end.

Lemma chunk_sizes n c :
  0 < n < BIG_ALLOCATION_THRESHOLD → MIN_CHUNK_SIZE ≤ c ≤ MAX_CHUNK_SIZE → (4096 | c) →
  let m := align_addr (u64 (u64 (n + slab_block_size) + sizeof_Dataspace)) 12 in
  4096 ≤ m < 2 ^ 63 ∧ (4096 | m) ∧ u64 (c * sizeof_umword) = c * 8 ∧ 4096 ≤ c * 8 < 2 ^ 63 ∧ (4096 | c * 8).
Proof.
  intros Hn Hc Hd m. unfold BIG_ALLOCATION_THRESHOLD, slab_block_size, sizeof_Dataspace, sizeof_umword, MIN_CHUNK_SIZE, MAX_CHUNK_SIZE in *.
  assert (m = align_addr (n + 8160) 12) as Hm' by (unfold m; f_equal; rewrite (wrap_small 64 (n + _)) by word_lia; rewrite wrap_small by word_lia; lia).
  destruct (align_addr_spec (n + 8160) 12) as (_ & Hm & Hlow & _); [word_lia|lia|]. rewrite <- Hm' in Hm, Hlow. specialize (Hlow ltac:(lia)).
  split; [lia|]. split; [done|]. split; [apply wrap_small; word_lia|]. split; [lia|by apply Z.divide_mul_l].
Qed.

(** A chunk for an allocation that did not fit, and the next attempt *)
Lemma refill_run depth h P G X U L n :
  holds h P G [] X U L → 0 < n < BIG_ALLOCATION_THRESHOLD →
  let chunk_size := _chunk_size h in
  let dataspace_size := align_addr (u64 (u64 (n + slab_block_size) + sizeof_Dataspace)) 12 in
  let request_size := u64 (chunk_size * sizeof_umword) in
  ∃ r h', (if dataspace_size <? request_size then
             r ← _allocate_dataspace (_unsynchronized_alloc depth) request_size false;
             (if is_ok r then modify (with_chunk (Z.min (u64 (2 * chunk_size)) MAX_CHUNK_SIZE)) else mret tt);;
             mret r
           else _allocate_dataspace (_unsynchronized_alloc depth) dataspace_size false) h = (Ok r, h') ∧ same_quota h h' ∧
    match r with Ok _ => ∃ e L', local_addr e.2 ∉ G ∧ holds h' (e :: P) G [] X U L' | Err _ => (∃ L', holds h' P G [] X U L') ∨ stale h' (P.*2 ++ X) end.
Proof.
  intros Hh Hn c m q. destruct (hd_chunk _ _ _ _ _ _ _ Hh) as [Hc Hd]. destruct (chunk_sizes n c Hn Hc Hd) as (Hm & Hpm & Hq & Hqb & Hpq). fold m q in Hm, Hpm, Hq.
  destruct (Z.ltb_spec m q).
  - destruct (chunk_run (_unsynchronized_alloc depth) h P G X U L q Hh) as (r & h1 & R0 & Hs & Hr); [lia|by rewrite Hq|]. mrun R0. destruct r as [o|e].
    + destruct Hr as (d & L' & Hsz & HdG & Hh1). eexists _, _. split; [done|]. split; [done|]. exists (o, d), L'. split; [done|].
      by apply holds_chunk.
    + by exists (Err e), h1.
  - destruct (chunk_run (_unsynchronized_alloc depth) h P G X U L m Hh) as (r & h1 & R0 & Hs & Hr); [lia|done|]. exists r, h1. split; [done|]. split; [done|].
    destruct r as [o|e]; [|done]. destruct Hr as (d & L' & Hsz & HdG & Hh1). by exists (o, d), L'.
Qed.

Lemma small_run depth h P G X U L n :
  holds h P G [] X U L → 0 < n < BIG_ALLOCATION_THRESHOLD → 0 ≤ _quota_used h → _quota_used h + n < 2 ^ 64 →
  ∃ r h', _unsynchronized_alloc (Datatypes.S depth) n h = (Ok r, h') ∧ small_outcome h P G X U n r h'.
Proof.
  intros Hh Hn Hq Hqn. cbn [_unsynchronized_alloc]. destruct (Z.leb_spec BIG_ALLOCATION_THRESHOLD n); [lia|]. assert (0 < n < 2 ^ 63) as Hn' by (unfold BIG_ALLOCATION_THRESHOLD in *; lia).
  destruct (try_local_run h P G X U L n Hh Hn' Hq Hqn) as (r & h1 & L1 & R1 & El & Ec & Hr). mrun R1. destruct r as [p|e].
  { exists (Ok p), h1. split; [done|]. split; [done|]. destruct Hr as (? & ? & ? & ?). exists [], L1. split; [by intros ? ?%elem_of_nil|done]. }
  destruct Hr as [Eu Hh1]. rewrite (bind_ok _ _ h1 (_chunk_size h1) h1) by done.
  destruct (refill_run depth h1 P G X U L1 n Hh1 Hn) as (r & h2 & R2 & [El2 Eu2] & Hr). mrun R2. destruct r as [o|e2].
  - destruct Hr as (e' & L2 & He & Hh2). destruct (try_local_run h2 (e' :: P) G X U L2 n Hh2 Hn') as (r & h3 & L3 & R3 & El3 & Ec3 & Hr); [lia..|]. exists r, h3. split; [done|].
    assert (chunks G [e']) as Hch by (by intros ? ->%list_elem_of_singleton). split; [congruence|]. destruct r as [p|e3].
    + destruct Hr as (? & ? & ? & ?). exists [e'], L3. split_and!; [done..|lia|done].
    + destruct Hr as [? ?]. split; [lia|]. left. by exists [e'], L3.
  - exists (Err e2), h2. split; [done|]. split; [congruence|]. split; [lia|]. destruct Hr as [[L2 Hh2]|Hs]; [left|by right]. exists [], L2. split; [by intros ? ?%elem_of_nil|done].
Qed.

(** ** Big allocations *)

Lemma gone_of_stale h D d : stale h (D ++ [d]) → stale (gone d h) D.
Proof.
  intros (L & x & Hi & Hf & Ho & Ha & Hx). exists L, x. split_and!; [done..| |intros d' Hd'; apply Hx; set_solver].
  apply attached_release. apply (attached_perm (D ++ [d])); [symmetry; apply Permutation_cons_append|done].
Qed.

Lemma separate_run depth h P G U L n :
  holds h P G [] [] U L → 4096 ≤ n < 2 ^ 63 → (4096 | n) → 0 ≤ _quota_used h → _quota_used h + sizeof_Dataspace < 2 ^ 64 →
  ∃ r h', _allocate_dataspace (_unsynchronized_alloc (Datatypes.S depth)) n true h = (Ok r, h') ∧ _quota_limit h' = _quota_limit h ∧ match r with
    | Ok o => ∃ d Q L', chunks G Q ∧ ds_size d = n ∧ local_addr d ∉ G ∧ ds_objs h' !! o = Some d ∧ _quota_used h' = _quota_used h + sizeof_Dataspace ∧
        holds h' ((o, d) :: Q ++ P) ({[local_addr d]} ∪ G) [] [] U L'
    | Err _ => _quota_used h' = _quota_used h ∧ ((∃ Q L', chunks G Q ∧ holds h' (Q ++ P) G [] [] U L') ∨ stale h' (P.*2))
    end.
Proof.
  intros Hh Hn Hp Hq Hqn. pose proof (hd_attached _ _ _ _ _ _ _ Hh) as Ha. unfold _allocate_dataspace. destruct (ram_try_alloc n (mem h)) as [r1 m1] eqn:E1.
  assert (chunks G []) as Hnil by (by intros ? ?%elem_of_nil).
  rewrite (bind_ok _ _ h r1 (with_mem m1 h)) by (unfold call_mem; by rewrite E1). destruct r1 as [c|e].
  2: { exists (Err e), (with_mem m1 h). split; [done|]. split; [done|]. split; [done|]. left. exists [], L. split; [done|]. apply (holds_mem h P G [] []); [done|].
       destruct (ram_try_alloc_err n (mem h) e m1 E1) as [Hd1 Hr1]. by apply (attached_same _ (mem h)). }
  destruct (rm_attach c m1) as [r2 m2] eqn:E2. rewrite (bind_ok _ _ (with_mem m1 h) r2 (with_mem m2 h)) by (unfold call_mem; cbn; by rewrite E2). destruct r2 as [a|e].
  2: { eexists _, (with_mem (ram_free c m2) h). split; [done|]. split; [done|]. split; [done|]. left. exists [], L. split; [done|]. apply (holds_mem h P G [] []); [done|].
       apply (attached_undo _ (mem h) n c m1 e m2); [done|lia|done..]. }
  pose proof (attach_holds h P G [] U L n c m1 a m2 Hh ltac:(lia) Hp E1 E2) as Hh2. set (d := Ds c a n) in *. set (h2 := with_mem m2 h) in *. unfold dataspace_metadata.
  destruct (small_run depth h2 P G [d] U L sizeof_Dataspace Hh2) as (r3 & h3 & R3 & El3 & Hr3); [done|done|done|]. mrun R3. destruct r3 as [o|e].
  - destruct Hr3 as (Q & L3 & HQ & _ & Ho & Eu3 & Hh3). destruct (adopt_holds h3 (Q ++ P) G ({[local_addr d]} ∪ G) [] [d] [] U L3 o d Hh3 Ho) as (h4 & R4 & Hh4 & Hod & HdG & (_ & El4 & Eu4 & _)); [by right|].
    exists (Ok o), h4. split; [exact (R4 _ _)|]. split; [by rewrite El4|]. exists d, Q, L3. split_and!; [done..|by rewrite Eu4|done].
  - destruct Hr3 as [Eu3 Hr3]. exists (Err e), (gone d h3). split; [done|]. split; [done|]. split; [done|].
    destruct Hr3 as [(Q & L3 & HQ & Hh3)|Hs]; [left; exists Q, L3; split; [done|by apply release_holds]|right; by apply gone_of_stale].
Qed.

Lemma big_run h P G U L n :
  holds h P G [] [] U L → BIG_ALLOCATION_THRESHOLD ≤ n < 2 ^ 62 → 0 ≤ _quota_used h < 2 ^ 63 →
  ∃ r h', _unsynchronized_alloc 2 n h = (Ok r, h') ∧ _quota_limit h' = _quota_limit h ∧ match r with
    | Ok p => ∃ o d Q L', chunks G Q ∧ local_addr d = p ∧ p ∉ G ∧ ds_size d = align_addr n 12 ∧
        _quota_used h' = _quota_used h + sizeof_Dataspace + align_addr n 12 ∧ holds h' ((o, d) :: Q ++ P) ({[p]} ∪ G) [] [] U L'
    | Err _ => _quota_used h' = _quota_used h ∧ ((∃ Q L', chunks G Q ∧ holds h' (Q ++ P) G [] [] U L') ∨ stale h' (P.*2))
    end.
Proof.
  intros Hh Hn Hq. cbn [_unsynchronized_alloc]. destruct (Z.leb_spec BIG_ALLOCATION_THRESHOLD n); [|lia]. unfold BIG_ALLOCATION_THRESHOLD in *.
  destruct (align_addr_spec n 12) as (_ & Hp & Hlow & _); [word_lia|lia|]. specialize (Hlow ltac:(lia)). set (m := align_addr n 12) in *.
  destruct (separate_run 0 h P G U L m Hh) as (r & h1 & R1 & El & Hr); [lia|done|lia|unfold sizeof_Dataspace; lia|]. mrun R1. destruct r as [o|e]; [|by exists (Err e), h1].
  destruct Hr as (d & Q & L1 & HQ & Hsz & HdG & Hod & Eu & Hh1). rewrite (bind_ok _ _ h1 d h1) by (unfold deref; by rewrite Hod).
  exists (Ok (local_addr d)), (with_quota (u64 (_quota_used h1 + ds_size d)) h1). split; [done|]. split; [done|]. exists o, d, Q, L1. split_and!; [done..| |by apply holds_quota].
  cbn. rewrite Eu, Hsz. apply wrap_small. unfold sizeof_Dataspace, in_range in *. lia.
Qed.

(** ** Release *)

Lemma size_at_holds h P G N X U L a :
  holds h P G N X U L → 0 ≤ a < 2 ^ 64 →
  ∃ r s L', local (size_at a) h = (Ok r, with_alloc s h) ∧ holds (with_alloc s h) P G N X U L' ∧ (∀ n, allocs_of L !! a = Some n → r = Ok n) ∧
    (¬ managed_by L a → r = Err UNKNOWN_ADDR) ∧ (∀ b n, allocs_of L !! b = Some n → b < a < b + n → r = Err MISMATCHING_ADDR).
Proof.
  intros Hh Ha. destruct (size_at_run (_alloc h) L a (hd_local _ _ _ _ _ _ _ Hh) Ha) as (r & s & L' & R0 & Hi & Hv & Hr). exists r, s, L'.
  split; [by unfold local; rewrite R0|]. split; [|done]. apply (holds_local h P G N N X X U U L); [done..|by apply (hd_pending _ _ _ _ _ _ _ Hh)| | |by apply (hd_apart _ _ _ _ _ _ _ Hh)].
  - intros x. rewrite Hv. by apply (hd_managed _ _ _ _ _ _ _ Hh).
  - intros b n. rewrite Hv. by apply (hd_allocs _ _ _ _ _ _ _ Hh).
Qed.

(** The search along the list finds the dataspace that holds the address. *)
Lemma find_dataspace_run h a (Q : list (Z * Dataspace)) fuel :
  Linked_list.lseg (Linked_list.store (_ds_pool h)) (Q.*1) 0 → (∀ o d, (o, d) ∈ Q → ds_objs h !! o = Some d) →
  (∀ d, d ∈ Q.*2 → 0 < local_addr d ∧ 0 < ds_size d ∧ local_addr d + ds_size d < 2 ^ 64) → (length Q ≤ fuel)%nat →
  ∃ r, find_dataspace fuel (Linked_list.hd_z (Q.*1)) a h = (Ok r, h) ∧ ((∃ d, (r, d) ∈ Q ∧ r ≠ 0 ∧ region d a) ∨ r = 0 ∧ ∀ d, d ∈ Q.*2 → ¬ region d a).
Proof.
  revert fuel. induction Q as [|[o d] Q IH]; intros fuel Hl Ho Hb Hf.
  - exists 0. split; [by destruct fuel|]. right. split; [done|]. by intros ? ?%elem_of_nil.
  - destruct fuel as [|fuel]; cbn in Hf; [lia|]. cbn [fmap list_fmap fst snd Linked_list.lseg] in Hl. destruct Hl as (Ho0 & Hn & Hl). cbn.
    destruct (Z.eqb_spec o 0); [done|]. assert (ds_objs h !! o = Some d) as Hod by (apply Ho; constructor). rewrite (bind_ok _ _ h d h) by (unfold deref; by rewrite Hod).
    destruct (Hb d) as (Hb1 & Hb2 & Hb3); [constructor|]. rewrite (wrap_small 64 (local_addr d + ds_size d)) by word_lia. rewrite wrap_small by word_lia.
    destruct (Z.leb_spec (local_addr d) a), (Z.leb_spec a (local_addr d + ds_size d - 1)); cbn [andb].
    1: { exists o. split; [done|]. left. exists d. split; [constructor|]. split; [done|]. unfold region. lia. }
    all: rewrite (bind_ok _ _ h (Linked_list.hd_z (Q.*1)) h) by (unfold next, Linked_list.next; rewrite Hn; by destruct Q);
      destruct (IH fuel) as (r & R0 & Hr); [done|by intros o' d' Hin; apply Ho; constructor|by intros d' Hin; apply Hb; constructor|lia|];
      exists r; (split; [done|]); (destruct Hr as [(d' & Hin & ? & ?)|[-> Hno]]; [left; exists d'; split; [by constructor|done]|right; split; [done|]]);
      intros d' [->|Hin]%elem_of_cons; [unfold region; lia|by apply Hno].
Qed.

Lemma find_holds h P G U L a :
  holds h P G [] [] U L → ∃ r, find_dataspace (1 + base.size (Linked_list.store (_ds_pool h))) (Linked_list._first (_ds_pool h)) a h = (Ok r, h) ∧
    ((∃ d, (r, d) ∈ P ∧ r ≠ 0 ∧ region d a) ∨ r = 0 ∧ ∀ d, d ∈ P.*2 → ¬ region d a).
Proof.
  intros Hh. pose proof (hd_list _ _ _ _ _ _ _ Hh) as Hr. pose proof (Linked_list.rep_fuel _ _ Hr) as Hfu. rewrite length_fmap in Hfu. destruct Hr as [_ Hf Hl]. rewrite Hf.
  apply find_dataspace_run; [done|apply (hd_objs _ _ _ _ _ _ _ Hh)| |lia]. intros d Hd. destruct (at_ok _ _ (hd_attached _ _ _ _ _ _ _ Hh) d) as (? & ? & ? & _); [set_solver|done].
Qed.

Lemma free_small_run h P G U L a n :
  holds h P G [] [] U L → U !! a = Some n → n ≤ _quota_used h < 2 ^ 64 →
  ∃ h' L', free a h = (Ok tt, h') ∧ holds h' P G [] [] (delete a U) L' ∧ _quota_limit h' = _quota_limit h ∧ _quota_used h' = _quota_used h - n.
Proof.
  intros Hh Ha Hq. assert (allocs_of L !! a = Some n) as Hal by (apply (hd_allocs _ _ _ _ _ _ _ Hh); by right).
  destruct (allocs_bytes _ _ _ _ (hd_local _ _ _ _ _ _ _ Hh) Hal) as (? & ? & ? & _).
  destruct (size_at_holds h P G [] [] U L a Hh) as (r & s1 & L1 & R1 & Hh1 & Hr & _); [lia|]. rewrite (Hr n Hal) in R1. unfold free. mrun R1.
  destruct (free_holds _ P G [] [] U L1 a n Hh1 Ha) as (s2 & L2 & R2 & Hh2). mrun R2. eexists _, L2. split; [done|]. split; [by apply holds_quota|]. split; [done|]. cbn. apply wrap_small. word_lia.
Qed.

Lemma free_interior_run h P G U L a b n :
  holds h P G [] [] U L → allocs_of L !! b = Some n → b < a < b + n → ∃ s L', free a h = (Ok tt, with_alloc s h) ∧ holds (with_alloc s h) P G [] [] U L'.
Proof.
  intros Hh Hb Hab. destruct (allocs_bytes _ _ _ _ (hd_local _ _ _ _ _ _ _ Hh) Hb) as (? & ? & ? & _).
  destruct (size_at_holds h P G [] [] U L a Hh) as (r & s1 & L1 & R1 & Hh1 & _ & _ & Hr); [lia|]. rewrite (Hr b n Hb Hab) in R1. exists s1, L1. unfold free. by mrun R1.
Qed.

Lemma free_unknown_run h P G U L a :
  holds h P G [] [] U L → 0 ≤ a < 2 ^ 64 → ¬ occupied a → (∀ d, d ∈ P.*2 → ¬ region d a) →
  ∃ s L', free a h = (Ok tt, with_alloc s h) ∧ holds (with_alloc s h) P G [] [] U L'.
Proof.
  intros Hh Ha Ho Hr. destruct (size_at_holds h P G [] [] U L a Hh Ha) as (r & s1 & L1 & R1 & Hh1 & _ & Hun & _). rewrite Hun in R1.
  - exists s1, L1. unfold free. mrun R1. mrun (heap_get_run _ _). mrun (heap_get_run _ _).
    destruct (find_holds _ P G U L1 a Hh1) as (o & R2 & [(d & Hin & _ & Hx)|[-> _]]); [by apply (list_elem_of_fmap_2 snd) in Hin; destruct (Hr d)|]. by mrun R2.
  - intros Hm. destruct (hd_managed _ _ _ _ _ _ _ Hh a Hm) as (_ & [?|(d & [?%elem_of_nil|[? _]] & ?)]); [done|done|by apply (Hr d)].
Qed.

Lemma free_big_run h P G U L a d :
  holds h P G [] [] U L → d ∈ P.*2 → local_addr d ∈ G → region d a → ds_size d ≤ _quota_used h < 2 ^ 64 →
  ∃ o P1 P2 h' L', P = P1 ++ (o, d) :: P2 ∧ free a h = (Ok tt, h') ∧ holds h' (P1 ++ P2) (G ∖ {[local_addr d]}) [] [] U L' ∧
    _quota_limit h' = _quota_limit h ∧ _quota_used h' = _quota_used h - ds_size d.
Proof.
  intros Hh Hd HdG Hx Hq. pose proof (hd_attached _ _ _ _ _ _ _ Hh) as Ha. destruct (at_ok _ _ Ha d ltac:(set_solver)) as (? & ? & ? & _). pose proof Hx as Hx'. unfold region in Hx'.
  destruct (size_at_holds h P G [] [] U L a Hh) as (r & s1 & L1 & R1 & Hh1 & _ & Hun & _); [lia|]. rewrite Hun in R1.
  2: { intros Hm. apply (foreign_bytes h P G [] [] U L d a); [done|by right|done|done]. }
  unfold free. mrun R1. mrun (heap_get_run _ _). mrun (heap_get_run _ _). set (h1 := with_alloc s1 h) in *.
  destruct (find_holds h1 P G U L1 a Hh1) as (o & R2 & [(d' & Hin & Ho & Hx2)|[_ Hno]]); [|by destruct (Hno d)]. mrun R2. destruct (Z.eqb_spec o 0); [done|].
  assert (d' = d) as ->.
  { destruct (at_apart _ _ Ha d' d) as [?|[_ Hap]]; [apply (list_elem_of_fmap_2 snd) in Hin; set_solver|set_solver|done|by destruct (Hap a)]. }
  apply list_elem_of_split in Hin as (P1 & P2 & ->). exists o, P1, P2.
  rewrite (bind_ok _ _ h1 d h1) by (unfold deref; by rewrite (hd_objs _ _ _ _ _ _ _ Hh1 o d) by set_solver).
  set (h2 := with_quota (u64 (_quota_used h1 - ds_size d)) h1). rewrite (bind_ok _ _ h1 tt h2) by done.
  pose proof (holds_quota h1 _ _ _ _ _ _ (u64 (_quota_used h1 - ds_size d)) Hh1) as Hh2. fold h2 in Hh2.
  assert (U !! o = None) as HoU by (apply (hd_apart _ _ _ _ _ _ _ Hh); rewrite fmap_app; cbn; set_solver).
  destruct (remove_holds h2 P1 o d P2 G U L1 Hh2 HdG) as (h3 & R3 & Hh3 & _ & El & Eu & _). mrun R3.
  destruct (free_holds h3 _ _ [] [] _ L1 o sizeof_Dataspace Hh3) as (s4 & L4 & R4 & Hh4); [apply lookup_insert_eq|]. rewrite delete_insert_id in Hh4 by done.
  exists (with_alloc s4 h3), L4. split; [done|]. split; [exact R4|]. split; [done|]. split; [done|]. cbn. rewrite Eu. cbn. apply wrap_small. word_lia.
Qed.

(** ** Visits of the regions *)

Lemma visit_run {A} (fn : Z → Z → A → A) h (Q : list (Z * Dataspace)) : ∀ fuel acc,
  Linked_list.lseg (Linked_list.store (_ds_pool h)) (Q.*1) 0 → (∀ o d, (o, d) ∈ Q → ds_objs h !! o = Some d) → (length Q ≤ fuel)%nat →
  for_each_region fuel fn (Linked_list.hd_z (Q.*1)) acc h = (Ok (fold_left (λ a d, fn (local_addr d) (ds_size d) a) (Q.*2) acc), h).
Proof.
  induction Q as [|[o d] Q IH]; intros fuel acc Hl Ho Hf; [by destruct fuel|]. destruct fuel as [|fuel]; cbn in Hf; [lia|].
  cbn [fmap list_fmap fst snd Linked_list.lseg] in Hl. destruct Hl as (Ho0 & Hn & Hl). cbn. destruct (Z.eqb_spec o 0); [done|].
  rewrite (bind_ok _ _ h d h) by (unfold deref; by rewrite (Ho o d ltac:(constructor))).
  rewrite (bind_ok _ _ h (Linked_list.hd_z (Q.*1)) h) by (unfold next, Linked_list.next; rewrite Hn; by destruct Q).
  apply IH; [done|intros o' d' Hin; apply Ho; by constructor|lia].
Qed.

(** [for_each_region] visits the attached dataspaces once, from the newest to the oldest. *)
Lemma for_each_region_run {A} (fn : Z → Z → A → A) h P G U L acc :
  holds h P G [] [] U L →
  for_each_region (base.size (Linked_list.store (_ds_pool h))) fn (Linked_list._first (_ds_pool h)) acc h =
    (Ok (fold_left (λ a d, fn (local_addr d) (ds_size d) a) (P.*2) acc), h).
Proof.
  intros Hh. pose proof (hd_list _ _ _ _ _ _ _ Hh) as Hr. pose proof (Linked_list.rep_fuel _ _ Hr) as Hf. rewrite length_fmap in Hf.
  rewrite (Linked_list.rep_first _ _ Hr). apply visit_run; [apply (Linked_list.rep_seg _ _ Hr)|apply (hd_objs _ _ _ _ _ _ _ Hh)|done].
Qed.

(** ** Destruction *)

Lemma free_objects_run h (l : list Z) fuel : ∀ s L,
  Linked_list.lseg (Linked_list.store (_ds_pool h)) l 0 → NoDup l → (∀ o, o ∈ l → allocs_of L !! o = Some sizeof_Dataspace) →
  inv s L → 2 ≤ reserve (md s) → (length l ≤ fuel)%nat →
  ∃ s' L', free_objects fuel (Linked_list.hd_z l) (with_alloc s h) = (Ok tt, with_alloc s' h) ∧ inv s' L' ∧ 2 ≤ reserve (md s').
Proof.
  revert fuel. induction l as [|o l IH]; intros fuel s L Hl Hd Ha Hi Hr Hf; [exists s, L; split; [by destruct fuel|done]|].
  destruct fuel as [|fuel]; cbn in Hf; [lia|]. destruct Hl as (Ho0 & Hn & Hl). apply NoDup_cons in Hd as [Hol Hd]. cbn. destruct (Z.eqb_spec o 0); [done|].
  destruct (free_local_run s L o sizeof_Dataspace Hi) as (s1 & L1 & R1 & Hi1 & Hal & _ & Hr1); [apply Ha; constructor|].
  rewrite (bind_ok _ _ _ tt (with_alloc s1 h)) by (unfold local; cbn; by rewrite R1).
  rewrite (bind_ok _ _ _ (Linked_list.hd_z l) (with_alloc s1 h)) by (unfold next, Linked_list.next; cbn; rewrite Hn; by destruct l).
  apply (IH fuel s1 L1); [done|done| |done|by apply Hr1|lia]. intros o' Ho'. rewrite Hal, lookup_delete_ne by (by intros ->). apply Ha. by constructor.
Qed.

Lemma free_all_run (P : list (Z * Dataspace)) fuel : ∀ h,
  Linked_list.rep (_ds_pool h) (P.*1) → (∀ o d, (o, d) ∈ P → ds_objs h !! o = Some d) → attached (P.*2) (mem h) → lifo P → (length P < fuel)%nat →
  ∃ h', free_all fuel h = (Ok tt, h') ∧ attached [] (mem h') ∧ _alloc h' = _alloc h.
Proof.
  revert fuel. induction P as [|[o d] P IH]; intros fuel h Hr Ho Ha Hl Hf; (destruct fuel as [|fuel]; [lia|]); cbn in Hf; cbn [free_all]; mrun (heap_get_run _ _); rewrite (Linked_list.rep_first _ _ Hr); cbn [Linked_list.hd_z fmap list_fmap fst].
  - by exists h.
  - destruct Hl as [Hap Hl]. pose proof (Linked_list.rep_seg _ _ Hr) as (Ho0 & _). destruct (Z.eqb_spec o 0); [done|].
    destruct (at_ok _ _ Ha d) as (_ & Hs & _); [constructor|].
    destruct (remove_and_free_run h [] o d P) as (h1 & R1 & Hr1 & Ho1 & Hm1 & Ea & _); [done..|]. mrun R1.
    destruct (IH fuel h1) as (h2 & R2 & Ha2 & Ea2); [done|done|rewrite Hm1; by apply attached_release|done|lia|]. exists h2. split; [done|]. split; [done|congruence].
Qed.

Lemma heap_destroy_run `{Empty_blocks S} h P G U L :
  trims (S := S) → holds h P G [] [] U L → 2 ≤ reserve (md (_alloc h)) → ∃ h', destroy h = (Ok tt, h') ∧ attached [] (mem h') ∧ live (md (_alloc h')) = ∅.
Proof.
  intros Htrim Hh Hres. pose proof (hd_list _ _ _ _ _ _ _ Hh) as Hr. pose proof (Linked_list.rep_fuel _ _ Hr) as Hfu. pose proof Hfu as Hlen. rewrite length_fmap in Hlen.
  unfold destroy. mrun (heap_get_run _ _). mrun (heap_get_run _ _). rewrite (Linked_list.rep_first _ _ Hr).
  destruct (free_objects_run h (P.*1) (1 + base.size (Linked_list.store (_ds_pool h))) (_alloc h) L) as (s1 & L1 & R1 & Hi1 & Hr1);
    [apply (Linked_list.rep_seg _ _ Hr)|apply (Linked_list.rep_nodup _ _ Hr)|intros o; by apply (object_allocated h P G [] [] U)|apply (hd_local _ _ _ _ _ _ _ Hh)|done|lia|].
  replace (with_alloc (_alloc h) h) with h in R1 by (by destruct h). mrun R1. destruct (destroy_runs s1 L1 Htrim Hi1 Hr1) as (s2 & R2 & Hlive).
  rewrite (bind_ok (local Allocator_avl.destroy) _ (with_alloc s1 h) tt (with_alloc s2 h)) by (unfold local; cbn [_alloc with_alloc]; by rewrite R2).
  destruct (free_all_run P (1 + base.size (Linked_list.store (_ds_pool h))) (with_alloc s2 h)) as (h3 & R3 & Ha3 & Ea3);
    [done|apply (hd_objs _ _ _ _ _ _ _ Hh)| |apply (hd_lifo _ _ _ _ _ _ _ Hh)|lia|exists h3; by rewrite Ea3].
  pose proof (hd_attached _ _ _ _ _ _ _ Hh) as Ha. cbn in Ha. by rewrite app_nil_r in Ha.
Qed.

End Spec.
