(* ===== verification/Heap_props.v ===== *)
(** * Heap_props: the heap against a specification of blocks and quota

    The abstract state of a heap is the map from the addresses of the allocated blocks to
    their sizes, the quota in use and the quota limit.  The operations of
    [src/repos/base/src/lib/base/heap.cc] refine [heap_spec] on it; blocks are apart from each
    other and from the objects of the heap and lie in attached memory; the destructor
    releases every dataspace without an access to memory that is gone. *)

From S2P Require Import Prelude Avl_nodes Avl_trees Allocator_avl Allocator_avl_blocks Allocator_avl_spec Allocator_avl_ops Allocator_avl_props Heap Heap_inv Heap_ops Heap_spec.
From S2P Require Linked_list.

(** ** The abstract heap *)

Record account := Account { blocks : gmap Z Z; used : Z; limit : Z }.

Inductive request := Request_alloc (size : Z) | Request_free (addr : Z) | Request_limit (size : Z).
Inductive reply := Pointer (r : result Alloc_error Z) | Released | Status (code : Z).

(** A range shares no byte with a block. *)
Definition disjoint_from (M : gmap Z Z) (a n : Z) : Prop := ∀ b m, M !! b = Some m → a + n ≤ b ∨ b + m ≤ a.

(** A big allocation is charged in whole pages, together with the object that stays charged
    when the allocation is released. *)
Inductive heap_spec (σ : account) : request → reply → account → Prop :=
  | spec_denied n : limit σ < n + used σ → heap_spec σ (Request_alloc n) (Pointer (Err DENIED)) σ
  | spec_failed n e : n + used σ ≤ limit σ → heap_spec σ (Request_alloc n) (Pointer (Err e)) σ
  | spec_small n a : n + used σ ≤ limit σ → n < BIG_ALLOCATION_THRESHOLD → (16 | a) → disjoint_from (blocks σ) a n →
      heap_spec σ (Request_alloc n) (Pointer (Ok a)) (Account (<[a := n]> (blocks σ)) (used σ + n) (limit σ))
  | spec_big n k a : n + used σ ≤ limit σ → BIG_ALLOCATION_THRESHOLD ≤ n → (4096 | k) → n ≤ k < n + 4096 → disjoint_from (blocks σ) a k →
      heap_spec σ (Request_alloc n) (Pointer (Ok a)) (Account (<[a := k]> (blocks σ)) (used σ + sizeof_Dataspace + k) (limit σ))
  | spec_free_small a n : blocks σ !! a = Some n → n < BIG_ALLOCATION_THRESHOLD →
      heap_spec σ (Request_free a) Released (Account (delete a (blocks σ)) (used σ - n) (limit σ))
  | spec_free_big a b k : blocks σ !! b = Some k → BIG_ALLOCATION_THRESHOLD ≤ k → b ≤ a < b + k →
      heap_spec σ (Request_free a) Released (Account (delete b (blocks σ)) (used σ - k) (limit σ))
  | spec_ignored a : (∀ b n, blocks σ !! b = Some n → b ≤ a < b + n → n < BIG_ALLOCATION_THRESHOLD ∧ a ≠ b) →
      heap_spec σ (Request_free a) Released σ
  | spec_limit n : used σ ≤ n → heap_spec σ (Request_limit n) (Status 0) (Account (blocks σ) (used σ) n)
  | spec_limit_refused n : n < used σ → heap_spec σ (Request_limit n) (Status (-1)) σ.

(** The sum of the sizes *)
Definition total (M : gmap Z Z) : Z := map_fold (λ _ n s, n + s) 0 M.

Lemma total_insert M a n : M !! a = None → total (<[a := n]> M) = n + total M.
Proof. intros Ha. unfold total. apply map_fold_insert_L; [lia|done]. Qed.

Lemma total_delete M a n : M !! a = Some n → total M = n + total (delete a M).
Proof. intros Ha. rewrite <- (insert_delete_id M a n) at 1 by done. apply total_insert, lookup_delete_eq. Qed.

Lemma total_nonneg M : (∀ a n, M !! a = Some n → 0 ≤ n) → 0 ≤ total M.
Proof.
  induction M as [|a n M Ha IH] using map_ind; intros Hpos; [done|]. rewrite total_insert by done.
  assert (0 ≤ n) by (apply (Hpos a), lookup_insert_eq). assert (0 ≤ total M); [|lia]. apply IH. intros b m Hb. apply (Hpos b). rewrite lookup_insert_ne; [done|congruence].
Qed.

Section Props.
Context {S R : Type} `{Metadata_laws S, Memory_laws R}.
Abbreviation heap := (@heap S R).
Implicit Types (h : heap) (P Q : list (Z * Dataspace)) (G : gset Z) (U M : gmap Z Z) (L : list Block) (d : Dataspace) (σ : account).

Definition serve (c : request) : exc heap fault reply :=
  match c with
  | Request_alloc n => r ← try_alloc n; mret (Pointer r)
  | Request_free a => free a;; mret Released
  | Request_limit n => s ← quota_limit n; mret (Status s)
  end.

(** The blocks of the user are the allocations at the local allocator that are not objects,
    and the big allocations. *)
Definition content P G U M : Prop := ∀ a n, M !! a = Some n ↔ U !! a = Some n ∨ a ∈ G ∧ ∃ d, d ∈ P.*2 ∧ local_addr d = a ∧ ds_size d = n.

Definition sizes P G U : Prop :=
  (∀ a n, U !! a = Some n → n < BIG_ALLOCATION_THRESHOLD) ∧ (∀ d, d ∈ P.*2 → local_addr d ∈ G → BIG_ALLOCATION_THRESHOLD ≤ ds_size d).

Definition represents h σ : Prop := ∃ P G U L,
  holds h P G [] [] U L ∧ content P G U (blocks σ) ∧ sizes P G U ∧ used σ = _quota_used h ∧ limit σ = _quota_limit h ∧ total (blocks σ) ≤ used σ < 2 ^ 64.

(** A byte of the memory that the heap may use *)
Definition usable h (x : Z) : Prop :=
  occupied x ∨ ∃ b c k, regions (mem h) !! b = Some c ∧ dataspaces (mem h) !! c = Some k ∧ b ≤ x < b + k.

(** What a caller has to respect: sizes above zero that do not exceed the address space, and
    addresses of blocks or outside of the heap's memory *)
Definition admissible h σ (c : request) : Prop :=
  match c with
  | Request_alloc n => 0 < n < 2 ^ 62 ∧ used σ < 2 ^ 63
  | Request_free a => 0 ≤ a < 2 ^ 64 ∧ ((∃ b n, blocks σ !! b = Some n ∧ b ≤ a < b + n) ∨ ¬ usable h a)
  | Request_limit n => 0 ≤ n
  end.

(** ** The blocks *)

Lemma region_usable h P G U L d x : holds h P G [] [] U L → d ∈ P.*2 → region d x → usable h x.
Proof.
  intros Hh Hd Hx. right. destruct (attached_region _ _ d (hd_attached _ _ _ _ _ _ _ Hh)) as [? ?]; [set_solver|]. by exists (local_addr d), (cap d), (ds_size d).
Qed.

Lemma managed_usable h P G U L x : holds h P G [] [] U L → managed_by L x → 0 < x ∧ usable h x.
Proof.
  intros Hh Hx. destruct (hd_managed _ _ _ _ _ _ _ Hh x Hx) as (? & [?|(d & [?%elem_of_nil|[Hd _]] & Hdx)]); [by split; [|left]|done|]. split; [done|]. by apply (region_usable h P G U L d).
Qed.

Lemma small_not_big h P G U L a n : holds h P G [] [] U L → U !! a = Some n → a ∉ G.
Proof.
  intros Hh Ha HG. destruct (hd_big _ _ _ _ _ _ _ Hh a HG) as (d & Hd & <-). assert (allocs_of L !! local_addr d = Some n) as Hal by (apply (hd_allocs _ _ _ _ _ _ _ Hh); by right).
  destruct (allocs_bytes _ _ _ _ (hd_local _ _ _ _ _ _ _ Hh) Hal) as (_ & ? & _ & Hm). destruct (at_ok _ _ (hd_attached _ _ _ _ _ _ _ Hh) d) as (_ & ? & _); [set_solver|].
  apply (foreign_bytes h P G [] [] U L d (local_addr d)); [done|by right|apply Hm; lia|unfold region; lia].
Qed.

(** A block is an allocation at the local allocator or a dataspace that is unknown to it. *)
Lemma block_cases h P G U L M a n : holds h P G [] [] U L → content P G U M → M !! a = Some n →
  (U !! a = Some n ∧ allocs_of L !! a = Some n ∧ ∀ x, a ≤ x < a + n → managed_by L x) ∨
  ∃ d, d ∈ P.*2 ∧ local_addr d ∈ G ∧ local_addr d = a ∧ ds_size d = n.
Proof.
  intros Hh Hc [Hu|(HG & d & Hd & <- & <-)]%Hc; [left|by right; exists d]. assert (allocs_of L !! a = Some n) as Hal by (apply (hd_allocs _ _ _ _ _ _ _ Hh); by right).
  split; [done|]. split; [done|]. by destruct (allocs_bytes _ _ _ _ (hd_local _ _ _ _ _ _ _ Hh) Hal) as (_ & _ & _ & ?).
Qed.

Lemma heap_block_bounds h P G U L M a n : holds h P G [] [] U L → content P G U M → M !! a = Some n →
  0 < a ∧ 0 < n ∧ a + n < 2 ^ 64 ∧ ∀ x, a ≤ x < a + n → usable h x.
Proof.
  intros Hh Hc Ha. destruct (block_cases h P G U L M a n Hh Hc Ha) as [(Hu & Hal & Hm)|(d & Hd & HdG & <- & <-)].
  - destruct (allocs_bytes _ _ _ _ (hd_local _ _ _ _ _ _ _ Hh) Hal) as (_ & ? & ? & _). destruct (managed_usable h P G U L a Hh) as [? _]; [apply Hm; lia|].
    split_and!; [done..|]. intros x Hx. by apply (managed_usable h P G U L x Hh), Hm.
  - destruct (at_ok _ _ (hd_attached _ _ _ _ _ _ _ Hh) d) as (? & ? & ? & _); [set_solver|]. split_and!; [done..|]. intros x Hx. by apply (region_usable h P G U L d).
Qed.

Lemma blocks_disjoint h P G U L M a n a' n' x :
  holds h P G [] [] U L → content P G U M → M !! a = Some n → M !! a' = Some n' → a ≤ x < a + n → a' ≤ x < a' + n' → a = a'.
Proof.
  intros Hh Hc Ha Ha' Hx Hx'. destruct (block_cases h P G U L M a n Hh Hc Ha) as [(Hu & Hal & Hm)|(d & Hd & HdG & <- & <-)],
    (block_cases h P G U L M a' n' Hh Hc Ha') as [(Hu' & Hal' & Hm')|(d' & Hd' & HdG' & <- & <-)].
  - by apply (allocs_disjoint (_alloc h) L a n a' n' x (hd_local _ _ _ _ _ _ _ Hh)).
  - destruct (foreign_bytes h P G [] [] U L d' x Hh); [by right|by apply Hm|done].
  - destruct (foreign_bytes h P G [] [] U L d x Hh); [by right|by apply Hm'|done].
  - destruct (at_apart _ _ (hd_attached _ _ _ _ _ _ _ Hh) d d') as [->|[_ Hap]]; [set_solver|set_solver|done|by destruct (Hap x)].
Qed.

Lemma new_block_disjoint h P G U L M a n :
  holds h P G [] [] U L → content P G U (<[a := n]> M) → M !! a = None → disjoint_from M a n.
Proof.
  intros Hh Hc Ha b m Hb. assert (a ≠ b) as Hab by congruence. assert (<[a := n]> M !! a = Some n) as E1 by apply lookup_insert_eq. assert (<[a := n]> M !! b = Some m) as E2 by (by rewrite lookup_insert_ne).
  destruct (heap_block_bounds h P G U L _ a n Hh Hc E1) as (_ & ? & _). destruct (heap_block_bounds h P G U L _ b m Hh Hc E2) as (_ & ? & _).
  destruct (decide (a + n ≤ b)); [by left|]. destruct (decide (b + m ≤ a)); [by right|]. destruct Hab. apply (blocks_disjoint h P G U L _ a n b m (Z.max a b) Hh Hc E1 E2); lia.
Qed.

(** ** Refinement *)

Lemma content_grow P Q G U M : chunks G Q → content P G U M → content (Q ++ P) G U M.
Proof.
  intros HQ Hc a n. rewrite (Hc a n). rewrite fmap_app. setoid_rewrite elem_of_app. split; (intros [?|[HG (d & Hd & Ha & Hn)]]; [by left|right; split; [done|]; exists d]).
  - by split; [right|].
  - destruct Hd as [Hd|Hd]; [|done]. apply list_elem_of_fmap in Hd as (e & -> & He). subst a. by destruct (HQ e He).
Qed.

Lemma sizes_grow P Q G U : chunks G Q → sizes P G U → sizes (Q ++ P) G U.
Proof.
  intros HQ [Hu Hb]. split; [done|]. intros d. rewrite fmap_app, elem_of_app. intros [Hd|Hd]; [|by apply Hb].
  apply list_elem_of_fmap in Hd as (e & -> & He). intros HG. by destruct (HQ e He).
Qed.

Lemma represents_grow h h' σ P Q G U L :
  content P G U (blocks σ) → sizes P G U → used σ = _quota_used h → limit σ = _quota_limit h → total (blocks σ) ≤ used σ < 2 ^ 64 →
  chunks G Q → holds h' (Q ++ P) G [] [] U L → _quota_used h' = _quota_used h → _quota_limit h' = _quota_limit h → represents h' σ.
Proof.
  intros Hc Hs Hu Hl Ht HQ Hh Eu El. exists (Q ++ P), G, U, L. split; [done|]. split; [by apply content_grow|]. split; [by apply sizes_grow|]. split; [congruence|]. split; [congruence|done].
Qed.

Lemma small_represents h h' σ P Q G U L a n :
  content P G U (blocks σ) → sizes P G U → limit σ = _quota_limit h → total (blocks σ) ≤ used σ → 0 < n < BIG_ALLOCATION_THRESHOLD → used σ + n < 2 ^ 64 → U !! a = None →
  chunks G Q → holds h' (Q ++ P) G [] [] (<[a := n]> U) L → _quota_used h' = used σ + n → _quota_limit h' = _quota_limit h →
  represents h' (Account (<[a := n]> (blocks σ)) (used σ + n) (limit σ)) ∧ disjoint_from (blocks σ) a n.
Proof.
  intros Hc Hs Hl Ht Hn Hq Ha HQ Hh Eu El. assert (a ∉ G) as HaG by (apply (small_not_big h' (Q ++ P) G _ L a n Hh), lookup_insert_eq).
  assert (blocks σ !! a = None) as Hfresh by (destruct (blocks σ !! a) as [k|] eqn:E; [|done]; apply Hc in E as [?|[? _]]; [congruence|done]).
  assert (content (Q ++ P) G (<[a := n]> U) (<[a := n]> (blocks σ))) as Hc'.
  { intros b m. rewrite !lookup_insert_Some, (content_grow P Q G U _ HQ Hc b m). destruct (decide (b = a)) as [->|]; [|naive_solver]. naive_solver. }
  split; [|by apply (new_block_disjoint h' (Q ++ P) G (<[a := n]> U) L)].
  exists (Q ++ P), G, (<[a := n]> U), L. split; [done|]. split; [done|]. split; [|cbn; rewrite total_insert by done; split_and!; (congruence || lia)].
  destruct (sizes_grow P Q G U HQ Hs) as [H3 H4]. split; [|done]. intros b m [[<- <-]|[_ Hb]]%lookup_insert_Some; [lia|by apply (H3 b)].
Qed.

Lemma big_represents h h' σ P Q G U L o d :
  content P G U (blocks σ) → sizes P G U → limit σ = _quota_limit h → total (blocks σ) ≤ used σ → used σ + sizeof_Dataspace + ds_size d < 2 ^ 64 →
  BIG_ALLOCATION_THRESHOLD ≤ ds_size d → local_addr d ∉ G → chunks G Q → holds h' ((o, d) :: Q ++ P) ({[local_addr d]} ∪ G) [] [] U L →
  _quota_used h' = used σ + sizeof_Dataspace + ds_size d → _quota_limit h' = _quota_limit h →
  represents h' (Account (<[local_addr d := ds_size d]> (blocks σ)) (used σ + sizeof_Dataspace + ds_size d) (limit σ)) ∧ disjoint_from (blocks σ) (local_addr d) (ds_size d).
Proof.
  intros Hc Hs Hl Ht Hq Hd HdG HQ Hh Eu El. set (a := local_addr d) in *. set (P' := (o, d) :: Q ++ P) in *.
  assert (U !! a = None) as HaU by (destruct (U !! a) as [k|] eqn:E; [|done]; apply (small_not_big h' P' _ U L a k Hh) in E; set_solver).
  assert (blocks σ !! a = None) as Hfresh by (destruct (blocks σ !! a) as [k|] eqn:E; [|done]; apply Hc in E as [?|[? _]]; [congruence|done]).
  assert (∀ d', d' ∈ P'.*2 → local_addr d' = a → d' = d) as Huniq.
  { intros d' Hd' He. apply (same_address _ _ d' d (hd_attached _ _ _ _ _ _ _ Hh)); [set_solver| |done]. cbn. constructor. }
  assert (content P' ({[a]} ∪ G) U (<[a := ds_size d]> (blocks σ))) as Hc'.
  { intros b m. rewrite lookup_insert_Some, (content_grow P Q G U _ HQ Hc b m). split.
    - intros [[<- <-]|[_ [?|[HG (d' & Hd' & ? & ?)]]]]; [right|by left|right].
      + split; [set_solver|]. exists d. split; [constructor|done].
      + split; [set_solver|]. exists d'. split; [by constructor|done].
    - intros [Hb|[HG (d' & Hd' & Hb & Hm)]]; [right; split; [congruence|by left]|]. destruct (decide (a = b)) as [<-|Hab]; [left; by rewrite <- Hm, (Huniq d' Hd' Hb)|].
      right. split; [done|]. right. split; [set_solver|]. exists d'. cbn in Hd'. apply elem_of_cons in Hd' as [->|?]; done. }
  split; [|by apply (new_block_disjoint h' P' ({[a]} ∪ G) U L)].
  exists P', ({[a]} ∪ G), U, L. split; [done|]. split; [done|]. split; [|cbn; rewrite total_insert by done; split_and!; (congruence || (unfold sizeof_Dataspace in *; lia))].
  destruct (sizes_grow P Q G U HQ Hs) as [H3 H4]. split; [done|]. intros d' Hd' HG. destruct (decide (local_addr d' = a)) as [He|He]; [by rewrite (Huniq d' Hd' He)|].
  apply H4; [|set_solver]. cbn in Hd'. apply elem_of_cons in Hd' as [->|?]; done.
Qed.

Definition outcome h' σ (c : request) (r : reply) : Prop :=
  (∃ σ', represents h' σ' ∧ heap_spec σ c r σ') ∨ ∃ n e, c = Request_alloc n ∧ r = Pointer (Err e) ∧ ∃ D, stale h' D.

Lemma try_alloc_outcome h σ n :
  represents h σ → 0 < n < 2 ^ 62 → used σ < 2 ^ 63 → ∃ r h', try_alloc n h = (Ok r, h') ∧ outcome h' σ (Request_alloc n) (Pointer r).
Proof.
  intros (P & G & U & L & Hh & Hc & Hs & Hu & Hl & Ht) Hn Hq. assert (0 ≤ used σ) as Hu0.
  { assert (0 ≤ total (blocks σ)); [|lia]. apply total_nonneg. intros a k Ha. destruct (heap_block_bounds h P G U L _ a k Hh Hc Ha); lia. }
  unfold try_alloc. mrun (heap_get_run _ _). mrun (heap_get_run _ _). rewrite <- Hu, <- Hl. rewrite wrap_small by word_lia.
  destruct (Z.ltb_spec (limit σ) (n + used σ)).
  { exists (Err DENIED), h. split; [done|]. left. exists σ. split; [|by apply spec_denied]. by exists P, G, U, L. }
  destruct (Z.lt_ge_cases n BIG_ALLOCATION_THRESHOLD) as [Hsmall|Hbig].
  - destruct (small_run 1 h P G [] U L n Hh) as (r & h' & R0 & El & Hr); [lia..|]. exists r, h'. split; [done|]. destruct r as [a|e].
    + destruct Hr as (Q & L' & HQ & Hal & Ha & Eu & Hh'). destruct (small_represents h h' σ P Q G U L' a n) as [Hrep Hdis]; [done|done|done|lia|lia|lia|done|done|done|lia|done|].
      left. eexists. split; [exact Hrep|]. by apply spec_small.
    + destruct Hr as [Eu [(Q & L' & HQ & Hh')|Hst]]; [|right; exists n, e; split; [done|]; split; [done|]; by eexists].
      left. exists σ. split; [|by apply spec_failed]. by apply (represents_grow h h' σ P Q G U L').
  - destruct (big_run h P G U L n Hh) as (r & h' & R0 & El & Hr); [lia..|]. exists r, h'. split; [done|]. destruct (align_addr_spec n 12) as (_ & Hp & Hlow & _); [word_lia|lia|]. specialize (Hlow ltac:(lia)).
    destruct r as [a|e].
    + destruct Hr as (o & d & Q & L' & HQ & <- & HdG & Hsz & Eu & Hh'). rewrite <- Hsz in *.
      destruct (big_represents h h' σ P Q G U L' o d) as [Hrep Hdis]; [done|done|done|lia|unfold sizeof_Dataspace; lia|lia|done|done|done|lia|done|].
      left. eexists. split; [exact Hrep|]. by apply spec_big.
    + destruct Hr as [Eu [(Q & L' & HQ & Hh')|Hst]]; [|right; exists n, e; split; [done|]; split; [done|]; by eexists].
      left. exists σ. split; [|by apply spec_failed]. by apply (represents_grow h h' σ P Q G U L').
Qed.

Lemma block_paid h P G U L M a n : holds h P G [] [] U L → content P G U M → M !! a = Some n → n + total (delete a M) = total M ∧ 0 ≤ total (delete a M).
Proof.
  intros Hh Hc Ha. split; [symmetry; by apply total_delete|]. apply total_nonneg. intros b m [_ Hb]%lookup_delete_Some. destruct (heap_block_bounds h P G U L M b m Hh Hc Hb); lia.
Qed.

Lemma free_small_represents h h' σ P G U L L' a n :
  holds h P G [] [] U L → content P G U (blocks σ) → sizes P G U → limit σ = _quota_limit h → total (blocks σ) ≤ used σ < 2 ^ 64 → U !! a = Some n →
  holds h' P G [] [] (delete a U) L' → _quota_limit h' = _quota_limit h → _quota_used h' = used σ - n →
  represents h' (Account (delete a (blocks σ)) (used σ - n) (limit σ)).
Proof.
  intros Hh Hc [Hs1 Hs2] Hl Ht Ha Hh' El Eu. assert (blocks σ !! a = Some n) as HM by (apply Hc; by left). destruct (block_paid h P G U L _ a n Hh Hc HM) as [Hp1 Hp2].
  destruct (heap_block_bounds h P G U L _ a n Hh Hc HM) as (_ & Hn & _). pose proof (small_not_big h P G U L a n Hh Ha) as HaG.
  exists P, G, (delete a U), L'. split; [done|]. split; [|split; [split; [|done]|cbn; split_and!; (congruence || lia)]].
  - intros b m. cbn. rewrite !lookup_delete_Some, (Hc b m). naive_solver.
  - intros b m [_ Hb]%lookup_delete_Some. by apply (Hs1 b).
Qed.

Lemma free_big_represents h h' σ P1 o d P2 G U L L' :
  let P := P1 ++ (o, d) :: P2 in
  holds h P G [] [] U L → content P G U (blocks σ) → sizes P G U → limit σ = _quota_limit h → total (blocks σ) ≤ used σ < 2 ^ 64 → local_addr d ∈ G →
  holds h' (P1 ++ P2) (G ∖ {[local_addr d]}) [] [] U L' → _quota_limit h' = _quota_limit h → _quota_used h' = used σ - ds_size d →
  represents h' (Account (delete (local_addr d) (blocks σ)) (used σ - ds_size d) (limit σ)).
Proof.
  intros P Hh Hc [Hs1 Hs2] Hl Ht HdG Hh' El Eu. assert (P.*2 ≡ₚ d :: (P1 ++ P2).*2) as HD by (unfold P; rewrite !fmap_app; symmetry; apply Permutation_middle).
  assert (∀ d', d' ∈ P.*2 ↔ d' = d ∨ d' ∈ (P1 ++ P2).*2) as HP by (intros d'; by rewrite HD, elem_of_cons). clear HD.
  assert (blocks σ !! local_addr d = Some (ds_size d)) as HM by (apply Hc; right; split; [done|]; exists d; rewrite HP; tauto).
  destruct (block_paid h P G U L _ _ _ Hh Hc HM) as [Hp1 Hp2]. destruct (heap_block_bounds h P G U L _ _ _ Hh Hc HM) as (_ & Hn & _).
  assert (∀ d', d' ∈ P.*2 → local_addr d' = local_addr d → d' = d) as Huniq.
  { intros d' Hd' He. apply (same_address _ _ d' d (hd_attached _ _ _ _ _ _ _ Hh)); [set_solver|rewrite elem_of_app, HP; tauto|done]. }
  exists (P1 ++ P2), (G ∖ {[local_addr d]}), U, L'. split; [done|]. split; [|split; [split; [done|]|cbn; split_and!; (congruence || lia)]].
  - intros b m. cbn. rewrite lookup_delete_Some, (Hc b m). split.
    + intros [Hne [?|[HG (d' & [->|Hd']%HP & ? & ?)]]]; [by left|done|]. right. split; [set_solver|by exists d'].
    + intros [Hb|[HG (d' & Hd' & ? & ?)]]; [|split; [set_solver|]; right; split; [set_solver|]; exists d'; rewrite HP; tauto].
      split; [|by left]. intros <-. by apply (small_not_big h P G U L _ _ Hh Hb).
  - intros d' Hd' HG. apply Hs2; [rewrite HP; tauto|set_solver].
Qed.

Lemma free_outcome h σ a : represents h σ → admissible h σ (Request_free a) → ∃ h', free a h = (Ok tt, h') ∧ outcome h' σ (Request_free a) Released.
Proof.
  intros (P & G & U & L & Hh & Hc & Hs & Hu & Hl & Ht) [Ha Hcase].
  assert (∀ s L', holds (with_alloc s h) P G [] [] U L' → represents (with_alloc s h) σ) as Hsame by (intros s L' Hh'; by exists P, G, U, L').
  destruct Hcase as [(b & n & Hb & Hab)|Hun].
  - pose proof (block_paid h P G U L _ b n Hh Hc Hb) as Hpaid. pose proof Hs as [Hs1 Hs2]. destruct (block_cases h P G U L _ b n Hh Hc Hb) as [(HU & Hal & _)|(d & Hd & HdG & <- & <-)].
    + destruct (decide (a = b)) as [->|Hne].
      * destruct (free_small_run h P G U L b n Hh HU) as (h' & L' & R0 & Hh' & El & Eu); [lia|]. exists h'. split; [done|]. left. eexists. split; [|apply (spec_free_small σ b n Hb); by apply (Hs1 b)].
        apply (free_small_represents h h' σ P G U L L'); [done..|lia].
      * destruct (free_interior_run h P G U L a b n Hh Hal) as (s & L' & R0 & Hh'); [lia|]. exists (with_alloc s h). split; [done|]. left. exists σ. split; [by apply (Hsame s L')|].
        apply spec_ignored. intros b' n' Hb' Hx. assert (b = b') as <- by (by apply (blocks_disjoint h P G U L (blocks σ) b n b' n' a)). split; [|done].
        assert (n' = n) as -> by congruence. by apply (Hs1 b).
    + destruct (free_big_run h P G U L a d Hh Hd HdG) as (o & P1 & P2 & h' & L' & -> & R0 & Hh' & El & Eu); [done|lia|]. exists h'. split; [done|]. left.
      eexists. split; [|apply (spec_free_big σ a _ _ Hb); [by apply Hs2|done]]. apply (free_big_represents h h' σ P1 o d P2 G U L L'); [done..|lia].
  - destruct (free_unknown_run h P G U L a Hh Ha) as (s & L' & R0 & Hh').
    + intros Ho. apply Hun. by left.
    + intros d Hd Hx. apply Hun. by apply (region_usable h P G U L d).
    + exists (with_alloc s h). split; [done|]. left. exists σ. split; [by apply (Hsame s L')|]. apply spec_ignored. intros b n Hb Hab.
      destruct Hun. destruct (heap_block_bounds h P G U L _ b n Hh Hc Hb) as (_ & _ & _ & Hx). by apply Hx.
Qed.

Lemma limit_outcome h σ n : represents h σ → ∃ s h', quota_limit n h = (Ok s, h') ∧ outcome h' σ (Request_limit n) (Status s).
Proof.
  intros Hrep. pose proof Hrep as (P & G & U & L & Hh & Hc & Hs & Hu & Hl & Ht). unfold quota_limit. mrun (heap_get_run _ _). rewrite <- Hu. destruct (Z.ltb_spec n (used σ)).
  - exists (-1), h. split; [done|]. left. exists σ. split; [done|]. by apply spec_limit_refused.
  - eexists 0, _. split; [done|]. left. eexists. split; [|by apply spec_limit]. exists P, G, U, L. split; [|by split_and!; try done; apply Ht]. by destruct Hh.
Qed.

Lemma serve_outcome h σ c : represents h σ → admissible h σ c → ∃ r h', serve c h = (Ok r, h') ∧ outcome h' σ c r.
Proof.
  intros Hrep Hadm. destruct c as [n|a|n]; unfold serve.
  - destruct Hadm as [Hn Hq]. destruct (try_alloc_outcome h σ n Hrep Hn Hq) as (r & h' & R0 & Ho). exists (Pointer r), h'. mrun R0. done.
  - destruct (free_outcome h σ a Hrep Hadm) as (h' & R0 & Ho). exists Released, h'. mrun R0. done.
  - destruct (limit_outcome h σ n Hrep) as (s & h' & R0 & Ho). exists (Status s), h'. mrun R0. done.
Qed.



Lemma nothing_managed x : ¬ managed_by [] x.
Proof. intros [Hx|(b & k & Hb & _)]; [apply elem_of_free in Hx as (? & ?%elem_of_nil & _); done|change (allocs_of []) with (∅ : gmap Z Z) in Hb; by rewrite lookup_empty in Hb]. Qed.

(** A new heap, with or without an initial range *)
Lemma new_heap s m q a n :
  live s = ∅ → dataspaces m = ∅ → regions m = ∅ → (a = 0 ∨ 0 < a ∧ 0 < n ∧ a + n < 2 ^ 64 ∧ ∀ x, a ≤ x < a + n → occupied x) →
  ∃ h, construct_heap a n (blank s m q) = (Ok tt, h) ∧ represents h (Account ∅ 0 q).
Proof.
  intros Hs Hd Hr Hst. pose proof (new_allocator_inv s Hs) as Hi.
  assert (∀ st L, inv st L → allocs_of L = ∅ → (∀ x, managed_by L x → 0 < x ∧ occupied x) → represents (with_alloc st (blank s m q)) (Account ∅ 0 q)) as Hrep.
  { intros st L Hi' Hal Hm. exists [], ∅, ∅, L. split; [|split; [|split; [|by split_and!]]].
    - split; cbn; try done.
      + split; [constructor| | |by intros ? ?%elem_of_nil|by intros ? ? ?%elem_of_nil].
        * intros b c. rewrite Hr, lookup_empty. split; [done|]. by intros (? & ?%elem_of_nil & _).
        * intros b c. rewrite Hd, lookup_empty. split; [done|]. by intros (? & ?%elem_of_nil & _).
      + apply Linked_list.list_rep_empty.
      + by intros ? ? ?%elem_of_nil.
      + by intros ? ? ?%elem_of_nil.
      + intros x Hx. destruct (Hm x Hx). split; [done|by left].
      + intros b k. cbn in Hal. rewrite Hal, lookup_empty, elem_of_nil. naive_solver.
    - intros b k. cbn. rewrite !lookup_empty. split; [done|]. intros [?|[?%elem_of_empty _]]; done.
    - split; [intros b k; by rewrite lookup_empty|by intros ? ?%elem_of_nil]. }
  unfold construct_heap. destruct (Z.eqb_spec a 0) as [->|Ha].
  - exists (blank s m q). split; [done|]. apply (Hrep (init s) []); [done|done|]. intros x Hx. by destruct (nothing_managed x).
  - destruct Hst as [?|(H3 & H4 & H5 & H6)]; [done|]. destruct (local_add_range_run (init s) [] a n Hi) as (r & st & L & R0 & Hi' & Hal & Hm); [lia..|].
    rewrite (bind_ok _ _ (blank s m q) r (with_alloc st (blank s m q))) by (unfold local; cbn; by rewrite R0). eexists. split; [done|]. apply (Hrep st L); [done|by rewrite Hal|].
    intros x Hx. destruct r as [[]|e]; [apply (proj1 Hm) in Hx as [Hx|Hx]|apply Hm in Hx]; [by destruct (nothing_managed x)| |by destruct (nothing_managed x)]. split; [lia|by apply H6].
Qed.

(** The local allocator of a consistent heap gives out attached memory only. *)
Lemma represents_not_stale h σ D : represents h σ → ¬ stale h D.
Proof.
  intros (P & G & U & L & Hh & _) (L' & x & Hi & Hf & Ho & Ha & Hx). rewrite (inv_unique (_alloc h) L' L Hi (hd_local _ _ _ _ _ _ _ Hh)) in Hf.
  destruct (hd_managed _ _ _ _ _ _ _ Hh x) as (_ & [?|(d & [?%elem_of_nil|[Hd _]] & Hdx)]); [by left|done|done|].
  pose proof (hd_attached _ _ _ _ _ _ _ Hh) as Ha'. destruct (attached_region _ _ d Ha') as [Hr Hs]; [set_solver|].
  apply (at_regions _ _ Ha) in Hr as (d' & Hd' & El & Ec). destruct (attached_region _ _ d' Ha Hd') as [_ Hs']. rewrite Ec in Hs'.
  apply (Hx d' Hd'). unfold region in *. assert (ds_size d' = ds_size d) as -> by congruence. by rewrite El.
Qed.

(** ** Histories *)

(** What a heap has gone through: its construction, and admissible requests of which none left
    the local allocator with memory that is gone *)
Inductive reached : heap → account → Prop :=
  | reached_new s m q a n h :
      live s = ∅ → dataspaces m = ∅ → regions m = ∅ → (a = 0 ∨ 0 < a ∧ 0 < n ∧ a + n < 2 ^ 64 ∧ ∀ x, a ≤ x < a + n → occupied x) →
      construct_heap a n (blank s m q) = (Ok tt, h) → reached h (Account ∅ 0 q)
  | reached_step h σ c r h' σ' :
      reached h σ → admissible h σ c → serve c h = (Ok r, h') → (∀ D, ¬ stale h' D) → heap_spec σ c r σ' → reached h' σ'.

(** The specification is a function of the reply, as no address is in two blocks. *)
Lemma heap_spec_functional σ c r σ1 σ2 :
  (∀ a n b m x, blocks σ !! a = Some n → blocks σ !! b = Some m → a ≤ x < a + n → b ≤ x < b + m → a = b) →
  (∀ a n, blocks σ !! a = Some n → 0 < n) → heap_spec σ c r σ1 → heap_spec σ c r σ2 → σ1 = σ2.
Proof.
  intros Hd Hp H1' H2'.
  assert (∀ a n b k, blocks σ !! a = Some n → blocks σ !! b = Some k → b ≤ a < b + k → a = b ∧ n = k) as Hsame.
  { intros a n b k Ha Hb Hx. pose proof (Hp a n Ha). assert (a = b) as -> by (apply (Hd a n b k a Ha Hb); lia). split; [done|congruence]. }
  inversion H1'; subst; inversion H2'; subst; try done; try lia; try congruence.
  - match goal with Hk : (4096 | k), Hk0 : (4096 | k0) |- _ => destruct Hk as [u ->], Hk0 as [v ->] end. assert (u = v) as -> by lia. done.
  - match goal with Ha : _ !! a = Some n, Hb : _ !! b = Some k |- _ => destruct (Hsame a n b k Ha Hb) as [_ ->]; [done|lia] end.
  - match goal with Ha : _ !! a = Some n, Hi : ∀ b m, _ |- _ => destruct (Hi a n Ha) as [_ ?]; [pose proof (Hp a n Ha); lia|done] end.
  - match goal with Ha : _ !! a = Some n, Hb : _ !! b = Some k |- _ => destruct (Hsame a n b k Ha Hb) as [_ ->]; [done|lia] end.
  - match goal with Hb : _ !! b = Some k, Hb0 : _ !! b0 = Some k0 |- _ => assert (b = b0) as -> by (by apply (Hd b k b0 k0 a)); congruence end.
  - match goal with Hb : _ !! b = Some k, Hi : ∀ b m, _ |- _ => destruct (Hi b k Hb) as [? _]; [done|lia] end.
  - match goal with Ha : _ !! a = Some n, Hi : ∀ b m, _ |- _ => destruct (Hi a n Ha) as [_ ?]; [pose proof (Hp a n Ha); lia|done] end.
  - match goal with Hb : _ !! b = Some k, Hi : ∀ b m, _ |- _ => destruct (Hi b k Hb) as [? _]; [done|lia] end.
Qed.

Lemma reached_represents h σ : reached h σ → represents h σ.
Proof.
  induction 1 as [s m q a n h Hs Hd Hr Hst R0|h σ c r h' σ' _ IH Hadm R0 Hns Hsp].
  - destruct (new_heap s m q a n Hs Hd Hr Hst) as (h1 & R1 & Hrep). rewrite R0 in R1. by injection R1 as <-.
  - destruct (serve_outcome h σ c IH Hadm) as (r1 & h1 & R1 & Ho). rewrite R0 in R1. injection R1 as <- <-.
    destruct Ho as [(σ1 & Hrep & Hsp1)|(_ & _ & _ & _ & D & HD)]; [|by destruct (Hns D)].
    destruct IH as (P & G & U & L & Hh & Hc & _). assert (σ' = σ1) as ->; [|done]. apply (heap_spec_functional σ c r); [| |done|done].
    + intros b k b' k' x Hb Hb'. by apply (blocks_disjoint h P G U L (blocks σ)).
    + intros b k Hb. by destruct (heap_block_bounds h P G U L _ b k Hh Hc Hb) as (_ & ? & _).
Qed.


End Props.
