(* ===== verification/Sliced_heap.v ===== *)
(** * Sliced_heap: a heap with a dataspace per block

    Model of the class [Sliced_heap] of [src/repos/base/include/base/heap.h] and
    [src/repos/base/src/lib/base/sliced_heap.cc].  Each block begins with a header, which is an
    element of the [Linked_list]; detaching the region takes the header away.  The RAM
    allocator and the region map are the interface [Memory] of [Heap] with the laws
    [Memory_laws] of [Heap_inv]. *)

From S2P Require Import Prelude Avl_nodes Avl_trees Allocator_avl Allocator_avl_blocks Heap Heap_inv.
From S2P Require Linked_list.

Section Sliced.
Context {R : Type} `{Memory R}.

(** [Sliced_heap::Block] without its place in the list *)
Record Block := Blk { ds : Z; size : Z }.

(** [sizeof(Block)]: the list element, the capability and the size *)
Definition meta_data_size : Z := 24.

(** [Sliced_heap]; [headers] are the [Block] objects by address. *)
Record sliced_heap := Sliced { headers : gmap Z Block; _blocks : Linked_list.t; _mem : R; _consumed : Z }.

Abbreviation prog := (exc sliced_heap fault).

Definition call_mem {A} (f : R → A * R) : prog A := λ h, let '(r, m) := f (_mem h) in (Ok r, Sliced (headers h) (_blocks h) m (_consumed h)).
Definition on_blocks (f : Linked_list.t → option Linked_list.t) : prog unit := λ h,
  match f (_blocks h) with Some p => (Ok tt, Sliced (headers h) p (_mem h) (_consumed h)) | None => (Err Fault, h) end.
Definition header (b : Z) : prog Block := λ h, match headers h !! b with Some x => (Ok x, h) | None => (Err Fault, h) end.

Definition construct_at (b : Z) (x : Block) : prog unit :=
  modify (λ h, Sliced (<[b := x]> (headers h)) (Linked_list.Mk (<[b := 0]> (Linked_list.store (_blocks h))) (Linked_list._first (_blocks h))) (_mem h) (_consumed h)).
Definition consume (n : Z) : prog unit := modify (λ h, Sliced (headers h) (_blocks h) (_mem h) (u64 (_consumed h + n))).

(** [detach] with the loss of the headers that have a byte in the region *)
Definition beyond (a n : Z) {A} (o : Z * A) : Prop := o.1 + meta_data_size ≤ a ∨ a + n ≤ o.1.
#[export] Instance beyond_dec a n {A} (o : Z * A) : Decision (beyond a n o).
Proof. unfold beyond. solve_decision. Defined.

Definition detach (a n : Z) : prog unit :=
  modify (λ h, Sliced (filter (beyond a n) (headers h)) (Linked_list.Mk (filter (beyond a n) (Linked_list.store (_blocks h))) (Linked_list._first (_blocks h))) (rm_detach a (_mem h)) (_consumed h)).
Definition free_ram (c : Z) : prog unit := modify (λ h, Sliced (headers h) (_blocks h) (ram_free c (_mem h)) (_consumed h)).

Definition try_alloc (n : Z) : prog (result Alloc_error Z) :=
  let size := align_addr (u64 (n + meta_data_size)) 12 in
  r ← call_mem (ram_try_alloc size);
  match r with
  | Err error => mret (Err error)
  | Ok ds_cap =>
      a ← call_mem (rm_attach ds_cap);
      match a with
      | Err e => free_ram ds_cap;; mret (Err (match e with Out_of_ram => OUT_OF_RAM | Out_of_caps => OUT_OF_CAPS | Invalid_dataspace => DENIED | Region_conflict => DENIED end))
      | Ok block =>
          construct_at block (Blk ds_cap size);;
          consume size;;
          on_blocks (Linked_list.insert block 0);;
          mret (Ok (block + meta_data_size))
      end
  end.

Definition free (addr : Z) : prog unit :=
  let block := u64 (addr - meta_data_size) in
  on_blocks (Linked_list.remove block);;
  b ← header block;
  consume (- size b);;
  detach block (size b);;
  free_ram (ds b).

(** [~Sliced_heap] *)
Fixpoint free_first (fuel : nat) : prog unit :=
  match fuel with
  | O => throw Fault
  | S fuel =>
      b ← (λ h, (Ok (Linked_list._first (_blocks h)), h));
      if b =? 0 then mret tt else free (u64 (b + meta_data_size));; free_first fuel
  end.
Definition destroy : prog unit := λ h, free_first (1 + base.size (Linked_list.store (_blocks h))) h.

Definition consumed : prog Z := λ h, (Ok (_consumed h), h).
Definition overhead (n : Z) : Z := u64 (align_addr (u64 (n + meta_data_size)) 12 - n).

(** [Sliced_heap] without blocks *)
Definition new_sliced_heap (m : R) : sliced_heap := Sliced ∅ (Linked_list.Mk ∅ 0) m 0.

End Sliced.

(** ** Contract *)

Section Contract.
Context {R : Type} `{Memory_laws R}.
Abbreviation sliced := (@sliced_heap R).
Implicit Types (h : sliced) (D : list Dataspace) (d : Dataspace) (M : gmap Z Z).

Definition bytes_of D : Z := foldr (λ d s, ds_size d + s) 0 D.

(** [D] are the dataspaces in the order of the list; [M] maps the addresses that the callers
    have to the number of bytes behind them. *)
Record slices h D M : Prop := Slices {
  sl_attached : attached D (_mem h);
  sl_list : Linked_list.rep (_blocks h) (local_addr <$> D);
  sl_headers d : d ∈ D → headers h !! local_addr d = Some (Blk (cap d) (ds_size d)) ∧ meta_data_size ≤ ds_size d;
  sl_blocks a n : M !! a = Some n ↔ ∃ d, d ∈ D ∧ a = local_addr d + meta_data_size ∧ n = ds_size d - meta_data_size;
  sl_consumed : _consumed h = u64 (bytes_of D) }.

Definition represents_slices h M : Prop := ∃ D, slices h D M.

Lemma new_slices m : dataspaces m = ∅ → regions m = ∅ → represents_slices (new_sliced_heap m) ∅.
Proof.
  intros Hd Hr. exists []. split; [| |by intros ? ?%elem_of_nil| |done].
  - split; [constructor| | |by intros ? ?%elem_of_nil|by intros ? ? ?%elem_of_nil].
    + intros b c. cbn. rewrite Hr, lookup_empty. split; [done|]. by intros (? & ?%elem_of_nil & _).
    + intros b c. cbn. rewrite Hd, lookup_empty. split; [done|]. by intros (? & ?%elem_of_nil & _).
  - apply Linked_list.list_rep_empty.
  - intros a n. rewrite lookup_empty. split; [done|]. by intros (? & ?%elem_of_nil & _).
Qed.

(** A new block *)
Lemma grow_slices h D M c b n m p :
  slices h D M → attached (Ds c b n :: D) m → meta_data_size ≤ n → Linked_list.rep p (b :: (local_addr <$> D)) →
  slices (Sliced (<[b := Blk c n]> (headers h)) p m (u64 (_consumed h + n))) (Ds c b n :: D) (<[b + meta_data_size := n - meta_data_size]> M).
Proof.
  intros Hs Ha Hn Hp. pose proof (Linked_list.rep_nodup _ _ Hp) as [Hb _]%NoDup_cons.
  assert (∀ d, d ∈ D → local_addr d ≠ b) as Hne by (intros d Hd <-; apply Hb; by apply list_elem_of_fmap_2). split; cbn.
  - done.
  - done.
  - intros d [->|Hd]%elem_of_cons; [by rewrite lookup_insert_eq|]. rewrite lookup_insert_ne by (by apply not_eq_sym, Hne). by apply (sl_headers _ _ _ Hs).
  - intros a k. rewrite lookup_insert_Some, (sl_blocks _ _ _ Hs). split.
    + intros [[<- <-]|[_ (d & ? & ? & ?)]]; [exists (Ds c b n); split; [constructor|done]|exists d; split; [by constructor|done]].
    + intros (d & [->|Hd]%elem_of_cons & -> & ->); [by left|right]. split; [specialize (Hne d Hd); lia|by exists d].
  - rewrite (sl_consumed _ _ _ Hs). unfold wrap. rewrite Z.add_mod_idemp_l by lia. f_equal. unfold bytes_of. cbn. lia.
Qed.

Lemma bytes_of_app D1 D2 : bytes_of (D1 ++ D2) = bytes_of D1 + bytes_of D2.
Proof. unfold bytes_of. induction D1 as [|d D1 IH]; cbn; lia. Qed.

Lemma slice_bounds h D M d : slices h D M → d ∈ D → 0 < local_addr d ∧ local_addr d + ds_size d < 2 ^ 64 ∧ meta_data_size ≤ ds_size d.
Proof. intros Hs Hd. destruct (at_ok _ _ (sl_attached _ _ _ Hs) d Hd) as (? & ? & ? & _). by destruct (sl_headers _ _ _ Hs d Hd). Qed.

(** The headers of the other blocks stay when a region is detached. *)
Lemma other_beyond h D M d d' {A} (x : A) : slices h D M → d ∈ D → d' ∈ D → d' ≠ d → beyond (local_addr d) (ds_size d) (local_addr d', x).
Proof.
  intros Hs Hd Hd' Hne. destruct (slice_bounds h D M d Hs Hd) as (? & ? & ?). destruct (slice_bounds h D M d' Hs Hd') as (? & ? & ?).
  destruct (at_apart _ _ (sl_attached _ _ _ Hs) d' d Hd' Hd) as [?|[_ Hap]]; [done|]. unfold beyond, meta_data_size in *. cbn.
  destruct (decide (local_addr d' + 24 ≤ local_addr d)); [by left|]. destruct (decide (local_addr d + ds_size d ≤ local_addr d')); [by right|].
  exfalso. apply (Hap (Z.max (local_addr d) (local_addr d'))); unfold region; lia.
Qed.

Lemma lseg_beyond (s : gmap Z Z) l q a n : (∀ o, o ∈ l → beyond a n (o, 0)) → Linked_list.lseg s l q → Linked_list.lseg (filter (beyond a n) s) l q.
Proof.
  induction l as [|x l IH]; [done|]. intros Ho (Hx0 & Hx & Hl). split; [done|]. split; [|apply IH; [intros o Hin; apply Ho; by constructor|done]].
  apply map_lookup_filter_Some. split; [done|]. apply (Ho x). constructor.
Qed.

(** [free] of the block of a dataspace *)
Lemma slice_free_run h D1 d D2 M :
  slices h (D1 ++ d :: D2) M →
  ∃ h', free (local_addr d + meta_data_size) h = (Ok tt, h') ∧ slices h' (D1 ++ D2) (delete (local_addr d + meta_data_size) M).
Proof.
  intros Hs. assert (d ∈ D1 ++ d :: D2) as Hd by set_solver. destruct (slice_bounds h _ M d Hs Hd) as (Hb1 & Hb2 & Hb3). pose proof (sl_attached _ _ _ Hs) as Ha.
  assert (D1 ++ d :: D2 ≡ₚ d :: D1 ++ D2) as HD by (symmetry; apply Permutation_middle). pose proof (at_nodup _ _ Ha) as Hnd. rewrite HD in Hnd. apply NoDup_cons in Hnd as [Hnd _].
  assert (∀ d', d' ∈ D1 ++ D2 → d' ∈ D1 ++ d :: D2 ∧ d' ≠ d) as Hrest by (intros d' Hd'; split; [set_solver|by intros ->]).
  pose proof (sl_list _ _ _ Hs) as Hl. rewrite fmap_app in Hl. cbn in Hl. destruct (Linked_list.list_remove_rep _ _ _ _ Hl) as (p & Ep & Hp & _). rewrite <- fmap_app in Hp.
  unfold free. replace (local_addr d + meta_data_size - meta_data_size) with (local_addr d) by lia. rewrite wrap_small by (unfold meta_data_size, in_range in *; lia).
  set (h1 := Sliced (headers h) p (_mem h) (_consumed h)). rewrite (bind_ok _ _ h tt h1) by (unfold on_blocks; by rewrite Ep).
  rewrite (bind_ok _ _ h1 (Blk (cap d) (ds_size d)) h1) by (unfold header; cbn; by rewrite (proj1 (sl_headers _ _ _ Hs d Hd))).
  eexists. split; [reflexivity|]. split; cbn.
  - apply attached_release. by apply (attached_perm (D1 ++ d :: D2)).
  - destruct Hp as [Hp1 Hp2 Hp3]. split; [done|done|]. cbn. apply lseg_beyond; [|done]. intros o (d' & -> & [Hd' Hne]%Hrest)%list_elem_of_fmap. by apply (other_beyond h (D1 ++ d :: D2) M).
  - intros d' [Hd' Hne]%Hrest. destruct (sl_headers _ _ _ Hs d' Hd') as [Hh ?]. split; [|done]. apply map_lookup_filter_Some. split; [done|]. by apply (other_beyond h (D1 ++ d :: D2) M).
  - intros a n. rewrite lookup_delete_Some, (sl_blocks _ _ _ Hs). split.
    + intros [Hne (d' & Hd' & -> & ->)]. exists d'. split; [|done]. rewrite HD in Hd'. apply elem_of_cons in Hd' as [->|?]; done.
    + intros (d' & [Hd' Hne]%Hrest & -> & ->). split; [|by exists d']. intros He.
      pose proof (other_beyond h (D1 ++ d :: D2) M d d' tt Hs Hd Hd' Hne) as Hx. unfold beyond, meta_data_size in *. cbn in Hx. destruct (slice_bounds h _ M d' Hs Hd'). lia.
  - rewrite (sl_consumed _ _ _ Hs), bytes_of_app. unfold wrap. rewrite Z.add_mod_idemp_l by lia. f_equal. rewrite bytes_of_app. unfold bytes_of. cbn. lia.
Qed.

Lemma slice_alloc_run h D M n :
  slices h D M → 0 ≤ n < 2 ^ 63 →
  ∃ r h', try_alloc n h = (Ok r, h') ∧ match r with
    | Ok a => ∃ d, a = local_addr d + meta_data_size ∧ n ≤ ds_size d - meta_data_size ∧ slices h' (d :: D) (<[a := ds_size d - meta_data_size]> M)
    | Err _ => slices h' D M
    end.
Proof.
  intros Hs Hn. pose proof (sl_attached _ _ _ Hs) as Ha. unfold try_alloc. rewrite (wrap_small 64 (n + meta_data_size)) by (unfold meta_data_size, in_range; lia).
  destruct (align_addr_spec (n + meta_data_size) 12) as (_ & Hp & Hlow & _); [unfold meta_data_size, in_range; lia|lia|]. specialize (Hlow ltac:(unfold meta_data_size; lia)). set (k := align_addr (n + meta_data_size) 12) in *.
  assert (0 < k) as Hk by (unfold meta_data_size in *; lia). assert (∀ m, attached D m → slices (Sliced (headers h) (_blocks h) m (_consumed h)) D M) as Hsame by (intros m Hm; destruct Hs; by split).
  destruct (ram_try_alloc k (_mem h)) as [r1 m1] eqn:E1. set (h1 := Sliced (headers h) (_blocks h) m1 (_consumed h)). rewrite (bind_ok _ _ h r1 h1) by (unfold call_mem; by rewrite E1).
  destruct r1 as [c|e]; [|exists (Err e), h1; split; [done|]; apply Hsame; destruct (ram_try_alloc_err k (_mem h) e m1 E1) as [Hd1 Hr1]; by apply (attached_same _ (_mem h))].
  destruct (rm_attach c m1) as [r2 m2] eqn:E2. set (h2 := Sliced (headers h) (_blocks h) m2 (_consumed h)). rewrite (bind_ok _ _ h1 r2 h2) by (unfold call_mem; cbn; by rewrite E2).
  destruct r2 as [b|e]; [|eexists _, (Sliced (headers h) (_blocks h) (ram_free c m2) (_consumed h)); split; [done|]; apply Hsame; by apply (attached_undo _ (_mem h) k c m1 e m2)].
  pose proof (attached_new D (_mem h) k c m1 b m2 Ha Hk Hp E1 E2) as Ha2. destruct (at_ok _ _ Ha2 (Ds c b k)) as (Hb0 & _); [constructor|]. cbn in Hb0.
  assert (b ∉ local_addr <$> D) as HbD.
  { intros (d & He & Hd)%list_elem_of_fmap. destruct (at_apart _ _ Ha2 (Ds c b k) d) as [<-|[_ Hap]]; [constructor|by constructor| |].
    - pose proof (at_nodup _ _ Ha2) as [? _]%NoDup_cons. done.
    - destruct (slice_bounds h D M d Hs Hd) as (? & ? & ?). apply (Hap b); unfold region, meta_data_size in *; cbn; lia. }
  set (p := Linked_list.Mk (<[b := 0]> (Linked_list.store (_blocks h))) (Linked_list._first (_blocks h))).
  assert (Linked_list.rep p (local_addr <$> D)) as Hp1 by (destruct (sl_list _ _ _ Hs); split; [done|done|by apply Linked_list.lseg_insert]).
  destruct (Linked_list.insert_first_rep p _ b Hp1 HbD) as [Ei Hi]; [lia|cbn; rewrite lookup_insert_eq; by eexists|].
  eexists (Ok (b + meta_data_size)), (Sliced (<[b := Blk c k]> (headers h)) _ m2 (u64 (_consumed h + k))). split.
  - unfold construct_at, consume, on_blocks, modify, mbind, exc_bind. cbn [headers _blocks _mem _consumed h2]. fold p. rewrite Ei. reflexivity.
  - exists (Ds c b k). split; [done|]. split; [cbn; lia|]. apply (grow_slices h D M c b k); [done|done|lia|exact Hi].
Qed.

Lemma slices_disjoint h D M a n b m : slices h D M → M !! a = Some n → M !! b = Some m → a ≠ b → a + n ≤ b ∨ b + m ≤ a.
Proof.
  intros Hs (d & Hd & -> & ->)%(sl_blocks _ _ _ Hs) (d' & Hd' & -> & ->)%(sl_blocks _ _ _ Hs) Hne.
  destruct (slice_bounds h D M d Hs Hd) as (? & ? & ?). destruct (slice_bounds h D M d' Hs Hd') as (? & ? & ?).
  destruct (at_apart _ _ (sl_attached _ _ _ Hs) d d' Hd Hd') as [->|[_ Hap]]; [done|]. unfold meta_data_size in *.
  destruct (decide (local_addr d + 24 + (ds_size d - 24) ≤ local_addr d' + 24)); [by left|]. destruct (decide (local_addr d' + 24 + (ds_size d' - 24) ≤ local_addr d + 24)); [by right|].
  exfalso. apply (Hap (Z.max (local_addr d) (local_addr d'))); unfold region; lia.
Qed.

(** A block of the sliced heap has at least the requested size and shares no byte with
    another one; a failed request and the release of a block change nothing else, and the
    release finds its header. *)
Theorem sliced_heap_refines h M :
  represents_slices h M →
  (∀ n, 0 ≤ n < 2 ^ 63 → ∃ r h', try_alloc n h = (Ok r, h') ∧ match r with
     | Ok a => ∃ k, n ≤ k ∧ M !! a = None ∧ (∀ b m, M !! b = Some m → a + k ≤ b ∨ b + m ≤ a) ∧ represents_slices h' (<[a := k]> M)
     | Err _ => represents_slices h' M end) ∧
  (∀ a k, M !! a = Some k → ∃ h', free a h = (Ok tt, h') ∧ represents_slices h' (delete a M)).
Proof.
  intros [D Hs]. split.
  - intros n Hn. destruct (slice_alloc_run h D M n Hs Hn) as (r & h' & E & Hr). exists r, h'. split; [done|]. destruct r as [a|e]; [|by exists D].
    destruct Hr as (d & -> & Hk & Hs'). exists (ds_size d - meta_data_size). split; [done|]. set (a := local_addr d + meta_data_size) in *.
    assert (M !! a = None) as Hfresh.
    { destruct (M !! a) as [m|] eqn:Ea; [|done]. apply (sl_blocks _ _ _ Hs) in Ea as (d' & Hd' & He & _). exfalso.
      pose proof (sl_attached _ _ _ Hs') as Ha. assert (NoDup (local_addr <$> d :: D)) as Hnd by apply (Linked_list.rep_nodup _ _ (sl_list _ _ _ Hs')). cbn in Hnd.
      apply NoDup_cons in Hnd as [Hnd _]. apply Hnd. replace (local_addr d) with (local_addr d') by (unfold a in He; lia). by apply list_elem_of_fmap_2. }
    split; [done|]. split; [|by exists (d :: D)]. intros b m Hb.
    apply (slices_disjoint h' (d :: D) (<[a := ds_size d - meta_data_size]> M)); [done|apply lookup_insert_eq|rewrite lookup_insert_ne; [done|]|]; intros <-; congruence.
  - intros a k (d & Hd & -> & ->)%(sl_blocks _ _ _ Hs). apply list_elem_of_split in Hd as (D1 & D2 & ->). destruct (slice_free_run h D1 d D2 M Hs) as (h' & E & Hs').
    exists h'. split; [done|]. by exists (D1 ++ D2).
Qed.

(** The destructor releases every dataspace. *)
Theorem sliced_heap_destructor h M : represents_slices h M → ∃ h', destroy h = (Ok tt, h') ∧ dataspaces (_mem h') = ∅ ∧ regions (_mem h') = ∅ ∧ _consumed h' = 0.
Proof.
  intros [D Hs]. unfold destroy. pose proof (Linked_list.rep_fuel _ _ (sl_list _ _ _ Hs)) as Hf. rewrite length_fmap in Hf.
  assert (length D < 1 + base.size (Linked_list.store (_blocks h)))%nat as Hfu by lia. clear Hf. revert Hfu Hs. generalize (1 + base.size (Linked_list.store (_blocks h)))%nat as fuel. revert h M.
  induction D as [|d D IH]; intros h M fuel Hfu Hs; (destruct fuel as [|fuel]; [lia|]); cbn in Hfu; cbn [free_first]; rewrite (bind_ok _ _ h (Linked_list._first (_blocks h)) h) by done; rewrite (Linked_list.rep_first _ _ (sl_list _ _ _ Hs)); cbn [Linked_list.hd_z fmap list_fmap].
  - exists h. split; [done|]. pose proof (sl_attached _ _ _ Hs) as Ha. split_and!; [..|by rewrite (sl_consumed _ _ _ Hs)]; apply map_empty; intros a; apply eq_None_not_Some; intros [c Hx].
    + apply (at_dataspaces _ _ Ha) in Hx as (d & ?%elem_of_nil & _). done.
    + apply (at_regions _ _ Ha) in Hx as (d & ?%elem_of_nil & _). done.
  - destruct (slice_bounds h _ M d Hs) as (? & ? & ?); [constructor|]. destruct (Z.eqb_spec (local_addr d) 0); [lia|]. rewrite wrap_small by (unfold meta_data_size, in_range in *; lia).
    destruct (slice_free_run h [] d D M Hs) as (h' & E & Hs'). mrun E. apply (IH h' (delete (local_addr d + meta_data_size) M) fuel); [lia|done].
Qed.

End Contract.
