(* ===== verification/Heap_demo.v ===== *)
(** * Heap_demo: a RAM allocator with a region map, and runs of the heap

    A concrete [Memory] that satisfies the laws, the witnesses of the theorems of
    [Heap_props], and runs that show where [src/repos/base/src/lib/base/heap.cc] does not do
    what it means to. *)

From S2P Require Import Prelude Avl_nodes Avl_trees Allocator_avl Allocator_avl_blocks Allocator_avl_spec Allocator_avl_ops Allocator_avl_props Heap Heap_inv Heap_ops Heap_spec Heap_props.
From S2P Require Linked_list Sliced_heap.

(** ** A RAM allocator and a region map *)

(** Dataspaces with their sizes, regions with their dataspaces, and the free RAM *)
Record ram := Ram { spaces : gmap Z Z; attachments : gmap Z Z; room : Z }.

Definition BASE : Z := 0x100000.

Definition largest (l : list Z) : Z := foldr Z.max 0 l.

Definition demo_try_alloc (n : Z) (m : ram) : result Alloc_error Z * ram :=
  if (n <=? 0) || (room m <? n) then (Err DENIED, m)
  else let c := 1 + largest ((map_to_list (spaces m)).*1) in (Ok c, Ram (<[c := n]> (spaces m)) (attachments m) (room m - n)).

Definition demo_free (c : Z) (m : ram) : ram := Ram (delete c (spaces m)) (attachments m) (room m + default 0 (spaces m !! c)).

(** The end of all regions *)
Definition top (m : ram) : Z := Z.max BASE (largest ((λ e, e.1 + default 0 (spaces m !! e.2)) <$> map_to_list (attachments m))).

Definition demo_attach (c : Z) (m : ram) : result Attach_error Z * ram :=
  match spaces m !! c with
  | Some n => if top m + n <? 2 ^ 64 then (Ok (top m), Ram (spaces m) (<[top m := c]> (attachments m)) (room m)) else (Err Region_conflict, m)
  | None => (Err Invalid_dataspace, m)
  end.

#[export] Instance ram_memory : Memory ram := {|
  ram_try_alloc := demo_try_alloc;
  ram_free := demo_free;
  rm_attach := demo_attach;
  rm_detach a m := Ram (spaces m) (delete a (attachments m)) (room m) |}.

Lemma largest_fresh (m : gmap Z Z) : m !! (1 + largest ((map_to_list m).*1)) = None.
Proof.
  apply eq_None_not_Some. intros [n Hn]. apply elem_of_map_to_list in Hn. apply (list_elem_of_fmap_2 fst), below_max in Hn. unfold largest in Hn. cbn in Hn. lia.
Qed.

Lemma below_top m a c n : attachments m !! a = Some c → spaces m !! c = Some n → a + n ≤ top m.
Proof.
  intros Ha Hc. unfold top. assert (a + n ≤ largest ((λ e, e.1 + default 0 (spaces m !! e.2)) <$> map_to_list (attachments m))); [|lia].
  apply below_max, list_elem_of_fmap. exists (a, c). split; [by cbn; rewrite Hc|by apply elem_of_map_to_list].
Qed.

(** The range [4096, 8192) is in use by the program. *)
#[export] Program Instance ram_laws : Memory_laws ram := {|
  dataspaces := spaces; regions := attachments; occupied x := 4096 ≤ x < 8192 |}.
Next Obligation.
  intros n m c m' Hn _. cbn. unfold demo_try_alloc. destruct (_ || _); [done|]. intros [= <- <-]. split; [apply largest_fresh|done].
Qed.
Next Obligation. intros n m e m'. cbn. unfold demo_try_alloc. destruct (_ || _); [|done]. by intros [= _ <-]. Qed.
Next Obligation. done. Qed.
Next Obligation.
  intros c m n a m' Hc. cbn in *. unfold demo_attach. rewrite Hc. destruct (Z.ltb_spec (top m + n) (2 ^ 64)); [|done]. intros [= <- <-]. cbn [spaces attachments].
  assert (BASE ≤ top m) as Hb by (unfold top; lia). unfold BASE in Hb. split_and!; [done|done|lia|done|lia|]. intros a' c' n' Ha' Hc'. right. by apply (below_top m a' c').
Qed.
Next Obligation. intros c m e m'. cbn. unfold demo_attach. destruct (spaces m !! c); [destruct (_ <? _)|]; try done; by intros [= _ <-]. Qed.
Next Obligation. done. Qed.

(** ** Runs *)

Definition demo_ram : ram := Ram ∅ ∅ 0x1000000.
Definition demo_heap : @heap pool ram := (construct_heap 4096 4096 (blank demo_pool demo_ram 200000)).2.

Lemma demo_reached : reached demo_heap (Account ∅ 0 200000).
Proof.
  destruct (new_heap demo_pool demo_ram 200000 4096 4096) as (h & R0 & _); [done|done|done|right; split_and!; [lia..|]; intros x Hx; cbn; lia|].
  apply (reached_new demo_pool demo_ram 200000 4096 4096); [done|done|done|right; split_and!; [lia..|]; intros x Hx; cbn; lia|]. unfold demo_heap. by rewrite R0.
Qed.

Lemma demo_represents : represents demo_heap (Account ∅ 0 200000).
Proof. apply reached_represents, demo_reached. Qed.

(** The replies to some requests, and the heap after them *)
Fixpoint history (cs : list request) (h : @heap pool ram) : list (result fault reply) * @heap pool ram :=
  match cs with [] => ([], h) | c :: cs => let '(r, h) := serve c h in let '(l, h) := history cs h in (r :: l, h) end.
Definition replies cs : list (result fault reply) := (history cs demo_heap).1.
Definition after cs : @heap pool ram := (history cs demo_heap).2.


(** A small block and a big one with its object in the initial range, a block in a new chunk,
    a request beyond the quota, the release of the big block, a limit that is refused, and an
    address within a block *)
Example demo_replies :
  replies [Request_alloc 100; Request_alloc 70000; Request_alloc 5000; Request_alloc 150000; Request_free 0x100000; Request_limit 100; Request_free 4104] =
  [Ok (Pointer (Ok 4096)); Ok (Pointer (Ok 0x100000)); Ok (Pointer (Ok 0x112000)); Ok (Pointer (Err DENIED)); Ok Released; Ok (Status (-1)); Ok Released].
Proof. by vm_compute. Qed.


(** The heap with a block of 70000 bytes *)
Definition full_heap : @heap pool ram := (try_alloc 70000 demo_heap).2.

Lemma full_reached : ∃ σ k, reached full_heap σ ∧ blocks σ !! 0x100000 = Some k ∧ 70000 ≤ k.
Proof.
  destruct (try_alloc_outcome demo_heap (Account ∅ 0 200000) 70000 demo_represents) as (r & h' & R0 & Ho); [lia|cbn; lia|].
  assert (r = Ok 0x100000) as ->.
  { assert ((try_alloc 70000 demo_heap).1 = Ok (Ok 0x100000)) as E by (by vm_compute). rewrite R0 in E. by injection E. }
  assert (full_heap = h') as -> by (unfold full_heap; rewrite R0; reflexivity).
  destruct Ho as [(σ & Hrep & Hs)|(n & e & _ & Hpe & _)]; [|discriminate Hpe]. exists σ. pose proof Hs as Hs'. inversion Hs'; subst.
  - unfold BIG_ALLOCATION_THRESHOLD in *. lia.
  - exists k. split; [|cbn [blocks]; rewrite lookup_insert_eq; split; [done|lia]].
    apply (reached_step demo_heap (Account ∅ 0 200000) (Request_alloc 70000) (Pointer (Ok 0x100000))); [exact demo_reached|cbn; lia| | |exact Hs].
    + unfold serve. by mrun R0.
    + intros D. by apply (represents_not_stale _ _ D Hrep).
Qed.



(** The destructor of the heap of [demo_replies] gives the RAM back. *)
Example demo_destroyed : let h := (destroy (after [Request_alloc 100; Request_alloc 70000; Request_alloc 5000; Request_alloc 6000])).2 in
  room (mem h) = room demo_ram ∧ taken_ids (md (_alloc h)) = [].
Proof. by vm_compute. Qed.

(** ** The sliced heap *)

(** Two blocks, the release of the first one, and the destructor *)
Example sliced_run :
  let '(a, h) := Sliced_heap.try_alloc 100 (Sliced_heap.new_sliced_heap demo_ram) in
  let '(b, h) := Sliced_heap.try_alloc 5000 h in
  let '(f, h) := Sliced_heap.free 0x100018 h in
  a = Ok (Ok 0x100018) ∧ b = Ok (Ok 0x101018) ∧ f = Ok tt ∧ Sliced_heap._consumed h = 8192 ∧ room (Sliced_heap._mem (Sliced_heap.destroy h).2) = room demo_ram.
Proof. by vm_compute. Qed.

(** ** Where the code differs from its intention *)

(** The 32 bytes of the [Dataspace] object of a big allocation are charged to the quota but not
    credited when the allocation is released: the quota of an empty heap decreases with each
    such pair of calls. *)
Example big_release_leaks :
  consumed (after [Request_alloc 70000; Request_free 0x100000]) = (Ok 32, after [Request_alloc 70000; Request_free 0x100000]).
Proof. by vm_compute. Qed.

Definition chunk_heap (n : nat) : @heap pool ram := blank (Pool n []) demo_ram 200000.

(** A second release of a small block whose memory starts a free block is taken for the
    release of a big allocation: the chunk with the other blocks is detached, and the quota
    underflows. *)
Example double_free_detaches :
  let '(l, h) := history [Request_alloc 100; Request_alloc 100; Request_free 0x100020; Request_free 0x100020] (chunk_heap 100) in
  l = [Ok (Pointer (Ok 0x100020)); Ok (Pointer (Ok 0x100090)); Ok Released; Ok Released] ∧ attachments (mem h) = ∅ ∧ _quota_used h = 2 ^ 64 - 32668.
Proof. by vm_compute. Qed.

(** If there is no memory for the object of a new chunk, the chunk is detached, but the local
    allocator keeps its range. *)
Example failed_chunk_stays :
  let '(l, h) := history [Request_alloc 100] (chunk_heap 1) in
  l = [Ok (Pointer (Err OUT_OF_RAM))] ∧ attachments (mem h) = ∅ ∧ (avail (_alloc h)).1 = Ok 0x8000.
Proof. by vm_compute. Qed.

(** The sum that is compared with the quota limit wraps around. *)
Example quota_check_wraps : let h := chunk_heap 100 in
  200000 < 2 ^ 64 - 4 + 4 ∧ (try_alloc (2 ^ 64 - 4) (with_quota 4 h)).2 = (_unsynchronized_alloc 2 (2 ^ 64 - 4) (with_quota 4 h)).2.
Proof. by vm_compute. Qed.

(** The size of a request for the sliced heap wraps around when the header is added: a block of
    one page is the answer to a request for nearly the whole address space. *)
Example sliced_size_wraps :
  let '(r, h) := Sliced_heap.try_alloc (2 ^ 64 - 20) (Sliced_heap.new_sliced_heap demo_ram) in
  r = Ok (Ok 0x100018) ∧ map_to_list (spaces (Sliced_heap._mem h)) = [(1, 4096)].
Proof. by vm_compute. Qed.
