(* ===== verification/Cstring.v ===== *)
(** * Cstring: memory blocks, C strings, and numbers as text

    Model of [src/repos/base/include/util/string.h].  A [char] is an integer; a pointer to
    a null-terminated string is the list of the characters from that position on, and
    reading at its end gives the terminating zero, so that a list that contains a zero is
    a buffer with something behind its string.  Memory blocks that may overlap
    ([memmove], [memcpy], [memset]) live in one memory, a function from addresses to
    bytes.  The conversions to text ([print]) are in [Output].  The floating-point
    conversion is not modelled. *)

From S2P Require Import Prelude.

Open Scope Z_scope.
Open Scope word_scope.

(** [*s] and [s[i]] *)
Definition deref (s : list Z) : Z := default 0 (head s).
Definition at_index (s : list Z) (i : nat) : Z := deref (drop i s).

(** The characters in front of the terminating zero. *)
Fixpoint cstr (s : list Z) : list Z :=
  match s with
  | [] => []
  | c :: s => if c =? 0 then [] else c :: cstr s
  end.

(** ** Strings *)

Fixpoint strlen (s : list Z) : Z :=
  match s with
  | [] => 0
  | c :: s => if c =? 0 then 0 else 1 + strlen s
  end.

(** The default limit of [strcmp]. *)
Definition NO_LIMIT : Z := ~64 0.

Fixpoint strcmp (s1 s2 : list Z) (len : Z) : Z :=
  match s1 with
  | c1 :: s1' =>
      if negb (c1 =? 0) && (c1 =? deref s2) && negb (len =? 0)
      then strcmp s1' (tail s2) (len -64 1)
      else if len =? 0 then 0 else c1 - deref s2
  | [] => if len =? 0 then 0 else 0 - deref s2
  end.

(** The characters [copy_cstring] copies when [size] are left. *)
Fixpoint copy_chars (src : list Z) (size : Z) : list Z :=
  match src with
  | c :: src => if (1 <? size) && negb (c =? 0) then c :: copy_chars src (size - 1) else []
  | [] => []
  end.

Definition copy_cstring (dst src : list Z) (size : Z) : list Z :=
  if size =? 0 then dst else list_inserts 0 (copy_chars src size ++ [0]) dst.

(** ** Memory blocks *)

Abbreviation memory := (Z → Z).

Definition store (a v : Z) (m : memory) : memory := λ x, if x =? a then v else m x.

Fixpoint copy_up (n : nat) (d s : Z) (m : memory) : memory :=
  match n with O => m | S n => copy_up n (d + 1) (s + 1) (store d (m s) m) end.

Fixpoint copy_down (n : nat) (d s : Z) (m : memory) : memory :=
  match n with O => m | S n => copy_down n (d - 1) (s - 1) (store d (m s) m) end.

Definition memmove (dst src size : Z) (m : memory) : memory :=
  if dst <? src then copy_up (Z.to_nat size) dst src m
  else copy_down (Z.to_nat size) (dst + (size - 1)) (src + (size - 1)) m.

Section Memcpy.
(** The copy routine of the processor: the number of bytes it left uncopied. *)
Variable memcpy_cpu : Z → Z → Z → memory → Z * memory.

(** A block of eight bytes per iteration. *)
Fixpoint copy_chunks (n : nat) (d s : Z) (m : memory) : Z * Z * memory :=
  match n with O => (d, s, m) | S n => copy_chunks n (d + 8) (s + 8) (copy_up 8 d s m) end.

Definition memcpy (dst src size : Z) (m : memory) : memory :=
  if (src <? dst + size) && (dst <? src + size) then memmove dst src size m
  else
    let '(rest, m) := memcpy_cpu dst src size m in
    let i := size - rest in
    if i =? size then m
    else
      let d := dst + i in
      let s := src + i in
      let size := size - i in
      let '(d, s, m) := copy_chunks (Z.to_nat (Z.shiftr size 3)) d s m in
      copy_up (Z.to_nat (Z.land size 7)) d s m.
End Memcpy.

Fixpoint memcmp (p0 p1 : list Z) (size : nat) : Z :=
  match size with
  | O => 0
  | S size =>
      if negb (deref p0 =? deref p1) then deref p0 - deref p1 else memcmp (tail p0) (tail p1) size
  end.

(** A word of the little-endian machine. *)
Definition store_word (a w : Z) (m : memory) : memory :=
  fold_left (λ m k, store (a + k) (Z.land (Z.shiftr w (8 * k)) 255) m) (seqZ 0 8) m.

(** Byte by byte up to a word boundary. *)
Fixpoint set_align (fuel : nat) (d_align size d i : Z) (m : memory) : Z * Z * memory :=
  match fuel with
  | O => (size, d, m)
  | S fuel =>
      if negb (d_align =? 0) && (d_align <? 8) && negb (size =? 0)
      then set_align fuel (d_align + 1) (size - 1) (d + 1) i (store d i m)
      else (size, d, m)
  end.

(** Blocks of [n] words. *)
Fixpoint set_words (fuel : nat) (n : Z) (size d w : Z) (m : memory) : Z * Z * memory :=
  match fuel with
  | O => (size, d, m)
  | S fuel =>
      if 8 * n <=? size
      then set_words fuel n (size - 8 * n) (d + 8 * n) w
             (fold_left (λ m k, store_word (d + 8 * k) w m) (seqZ 0 n) m)
      else (size, d, m)
  end.

Fixpoint set_bytes (n : nat) (d i : Z) (m : memory) : memory :=
  match n with O => m | S n => set_bytes n (d + 1) i (store d i m) end.

Definition word_of (i : Z) : Z :=
  let word := i in
  let word := Z.lor word (u64 (Z.shiftl word 8)) in
  let word := Z.lor word (u64 (Z.shiftl word 16)) in
  Z.lor word (u64 (Z.shiftl (u64 (Z.shiftl word 16)) 16)).

Definition memset (dst i size : Z) (m : memory) : memory :=
  let d_align := Z.land dst 7 in
  let '(size, d, m) := set_align 8 d_align size dst i m in
  let word := word_of i in
  let '(size, d, m) := set_words (S (Z.to_nat size)) 8 size d word m in
  let '(size, d, m) := set_words 8 1 size d word m in
  set_bytes (Z.to_nat size) d i m.

(** ** Numbers *)

(** The characters the functions test for. *)
Definition ch_0 : Z := 48.
Definition ch_9 : Z := 57.
Definition ch_a : Z := 97.
Definition ch_f : Z := 102.
Definition ch_z : Z := 122.
Definition ch_A : Z := 65.
Definition ch_F : Z := 70.
Definition ch_Z : Z := 90.
Definition ch_x : Z := 120.
Definition ch_X : Z := 88.
Definition ch_minus : Z := 45.
Definition ch_plus : Z := 43.
Definition ch_quote : Z := 34.
Definition ch_backslash : Z := 92.

Definition between (lo c hi : Z) : bool := (lo <=? c) && (c <=? hi).

Definition digit (c : Z) (hex : bool) : Z :=
  if between ch_0 c ch_9 then c - ch_0
  else if hex && between ch_a c ch_f then c - ch_a + 10
  else if hex && between ch_A c ch_F then c - ch_A + 10
  else -1.

Definition is_letter (c : Z) : bool := between ch_a c ch_z || between ch_A c ch_Z.

Definition is_digit (c : Z) (hex : bool) : bool := 0 <=? digit c hex.

Definition is_whitespace (c : Z) : bool := (c =? 9) || (c =? 32) || (c =? 10).

(** The loop of [ascii_to_unsigned] for a type of [w] bits: value and number of
    characters. *)
Fixpoint read_number (w base : Z) (s : list Z) (value i : Z) : Z * Z :=
  match s with
  | [] => (value, i)
  | c :: s =>
      let d := digit c (base =? 16) in
      if d <? 0 then (value, i) else read_number w base s (wrap w (value * base + d)) (i + 1)
  end.

(** The converted value, if one was stored, and the number of consumed characters. *)
Definition ascii_to_unsigned (w : Z) (s : list Z) (base : Z) : option Z * Z :=
  if deref s =? 0 then (None, 0)
  else
    let '(s, i, base) :=
      if base =? 0 then
        if (deref s =? ch_0) && ((at_index s 1 =? ch_x) || (at_index s 1 =? ch_X))
        then (drop 2 s, 2, 16) else (s, 0, 10)
      else (s, 0, base) in
    let '(value, i) := read_number w base s 0 i in
    (Some value, i).

(** The literals of [ascii_to] for [bool]. *)
Definition yes_literals : list (list Z * bool * Z) :=
  [([121; 101; 115], true, 3); ([116; 114; 117; 101], true, 4); ([111; 110], true, 2);
   ([110; 111], false, 2); ([102; 97; 108; 115; 101], false, 5); ([111; 102; 102], false, 3)].

Definition ascii_to_bool (s : list Z) : option bool * Z :=
  match list_find (λ p : list Z * bool * Z, strcmp s p.1.1 p.2 = 0) yes_literals with
  | Some (_, (_, b, n)) => (Some b, n)
  | None => (None, 0)
  end.

(** A value as signed integer of [w] bits. *)
Definition to_signed (w z : Z) : Z := let v := wrap w z in if 2 ^ (w - 1) <=? v then v - 2 ^ w else v.

(** The [value] of [ascii_to_unsigned] is of the signed type here: a [T] of [w] bits. *)
Definition ascii_to_signed (w : Z) (s : list Z) : option Z * Z :=
  let sign := if deref s =? ch_minus then -1 else 1 in
  let '(s, i) := if (deref s =? ch_minus) || (deref s =? ch_plus) then (tail s, 1) else (s, 0) in
  let '(value, j) := ascii_to_unsigned w s 0 in
  if j =? 0 then (None, i)
  else (Some (to_signed w (sign * to_signed w (default 0 value))), i + j).

Definition KB : Z := 1024.
Definition MB : Z := KB * 1024.
Definition GB : Z := MB * 1024.

Definition ch_G : Z := 71.
Definition ch_M : Z := 77.
Definition ch_K : Z := 75.

(** [ascii_to] for [Number_of_bytes] *)
Definition ascii_to_bytes (s : list Z) : Z * Z :=
  let '(value, i) := ascii_to_unsigned 64 s 0 in
  let res := default 0 value in
  if 0 <? i then
    let c := at_index s (Z.to_nat i) in
    if c =? ch_G then (res *64 (1024 * 1024 * 1024), i + 1)
    else if c =? ch_M then (res *64 (1024 * 1024), i + 1)
    else if c =? ch_K then (res *64 1024, i + 1)
    else (res, i)
  else (res, i).

(** ** Quoted strings *)

(** The loop of [unpack_string]: [prev] is the character in front of [src]. *)
Fixpoint unpack_loop (fuel : nat) (prev : Z) (src : list Z) (i dst_len : Z) : list Z :=
  match fuel with
  | O => []
  | S fuel =>
      let end_of_quote := negb (prev =? ch_backslash) && (deref src =? ch_quote) in
      if negb (deref src =? 0) && negb end_of_quote && (i <? dst_len - 1) then
        if (deref src =? ch_backslash) && (at_index src 1 =? ch_quote)
        then ch_quote :: unpack_loop fuel (at_index src 1) (drop 2 src) (i + 1) dst_len
        else deref src :: unpack_loop fuel (deref src) (tail src) (i + 1) dst_len
      else []
  end.

(** The number of characters, or [~0UL], and the destination buffer. *)
Definition unpack_string (src dst : list Z) (dst_len : Z) : Z * list Z :=
  if negb (deref src =? ch_quote) || (dst_len <? 1) then (~64 0, dst)
  else
    let out := unpack_loop (length src) ch_quote (tail src) 0 dst_len in
    (Z.of_nat (length out), list_inserts 0 (out ++ [0]) dst).

(** ** [Cstring] *)

Fixpoint _init_len (str : list Z) (max_len : Z) : Z :=
  match str with
  | c :: str => if (0 <? max_len) && negb (c =? 0) then 1 + _init_len str (max_len - 1) else 0
  | [] => 0
  end.

(** ** Strings: lemmas *)

Lemma strlen_cstr s : strlen s = Z.of_nat (length (cstr s)).
Proof. induction s as [|c s IH]; [done|]. simpl. case_match; simpl; lia. Qed.

Lemma cstr_nonzero s : Forall (.≠ 0) (cstr s).
Proof. induction s as [|c s IH]; [constructor|]. simpl. destruct (Z.eqb_spec c 0); by constructor. Qed.

Lemma cstr_id s : Forall (.≠ 0) s → cstr s = s.
Proof. induction 1 as [|c s Hc _ IH]; [done|]. simpl. destruct (Z.eqb_spec c 0); [done|]. by rewrite IH. Qed.

Lemma cstr_app s t : Forall (.≠ 0) s → cstr (s ++ 0 :: t) = s.
Proof. induction 1 as [|c s Hc _ IH]; [done|]. simpl. destruct (Z.eqb_spec c 0); [done|]. by rewrite IH. Qed.

Lemma copy_chars_spec src size : copy_chars src size = take (Z.to_nat (size - 1)) (cstr src).
Proof.
  revert size. induction src as [|c src IH]; intros size; simpl; [by rewrite take_nil|].
  destruct (Z.ltb_spec 1 size) as [Hs|Hs]; simpl.
  - destruct (Z.eqb_spec c 0); simpl; [by rewrite take_nil|]. rewrite IH.
    by replace (Z.to_nat (size - 1)) with (S (Z.to_nat (size - 1 - 1))) by lia.
  - by replace (Z.to_nat (size - 1)) with 0%nat by lia.
Qed.

(** C39: [copy_cstring] fills a buffer of [size] characters with the longest prefix of the
    string that leaves room for the terminating zero, terminates it, and touches nothing
    behind; with a size of 0 it touches nothing at all. *)
Theorem copy_cstring_spec dst src size :
  0 ≤ size ≤ Z.of_nat (length dst) →
  let s := take (Z.to_nat (size - 1)) (cstr src) in
  copy_cstring dst src size = (if size =? 0 then dst else s ++ 0 :: drop (S (length s)) dst) ∧
  (0 < size → cstr (copy_cstring dst src size) = s ∧ strlen (copy_cstring dst src size) < size).
Proof.
  intros Hsize s. unfold copy_cstring. rewrite copy_chars_spec. fold s.
  assert (Forall (.≠ 0) s) as Hs by apply Forall_take, cstr_nonzero.
  assert (Z.of_nat (length s) ≤ Z.max 0 (size - 1)) as Hlen by (unfold s; rewrite length_take; lia).
  destruct (Z.eqb_spec size 0); [split; [done|lia]|].
  assert (list_inserts 0 (s ++ [0]) dst = s ++ 0 :: drop (S (length s)) dst) as ->.
  { assert (list_inserts 0 (s ++ [0]) dst = (s ++ [0]) ++ drop (length (s ++ [0])) dst) as Hins.
    { assert (length (s ++ [0%Z]) ≤ length dst)%nat as Hle by (rewrite length_app; simpl; lia).
      revert Hle. generalize (s ++ [0]) as k. intros k Hk. apply list_eq. intros i.
      destruct (decide (i < length k)%nat).
      - rewrite list_lookup_inserts, lookup_app_l by lia. f_equal. lia.
      - rewrite list_lookup_inserts_ge, lookup_app_r, lookup_drop by lia. f_equal. lia. }
    rewrite Hins, length_app. simpl. rewrite <- app_assoc. simpl. do 3 f_equal. lia. }
  split; [done|]. intros _. rewrite strlen_cstr, cstr_app by done. split; [done|lia].
Qed.

Theorem copy_cstring_spec_witness :
  0 ≤ 4 ≤ Z.of_nat (length [9; 9; 9; 9; 9]) ∧
  copy_cstring [9; 9; 9; 9; 9] [1; 2; 3; 4; 5] 4 = [1; 2; 3; 0; 9].
Proof.
  assert (0 ≤ 4 ≤ Z.of_nat (length [9; 9; 9; 9; 9])) as H by (simpl; lia).
  split; [exact H|]. destruct (copy_cstring_spec [9; 9; 9; 9; 9] [1; 2; 3; 4; 5] 4 H) as [He _].
  rewrite He. reflexivity.
Defined.

(** The difference at the first position where the strings differ. *)
Fixpoint diff (l1 l2 : list Z) : Z :=
  match l1, l2 with
  | c1 :: l1', c2 :: l2' => if c1 =? c2 then diff l1' l2' else c1 - c2
  | c1 :: _, [] => c1
  | [], c2 :: _ => - c2
  | [], [] => 0
  end.

Lemma strcmp_diff s1 s2 len : 0 ≤ len < 2 ^ 64 →
  strcmp s1 s2 len = diff (take (Z.to_nat len) (cstr s1)) (take (Z.to_nat len) (cstr s2)).
Proof.
  revert s2 len. induction s1 as [|c1 s1 IH]; intros s2 len Hlen; cbn [strcmp].
  - destruct (Z.eqb_spec len 0) as [->|]; [done|].
    replace (Z.to_nat len) with (S (Z.to_nat (len - 1))) by lia.
    destruct s2 as [|c2 s2]; [done|]. simpl. destruct (Z.eqb_spec c2 0) as [->|]; [done|]. unfold deref; simpl. lia.
  - destruct (Z.eqb_spec len 0) as [->|]; [by rewrite andb_false_r|].
    rewrite andb_true_r. replace (Z.to_nat len) with (S (Z.to_nat (len - 1))) by lia.
    destruct s2 as [|c2 s2]; unfold deref; simpl.
    + destruct (Z.eqb_spec c1 0) as [->|]; simpl; [done|]. lia.
    + destruct (Z.eqb_spec c1 0) as [->|]; simpl.
      * destruct (Z.eqb_spec c2 0); simpl; subst; done || lia.
      * destruct (Z.eqb_spec c1 c2) as [->|].
        -- destruct (Z.eqb_spec c2 0); [done|]. simpl. rewrite Z.eqb_refl.
           rewrite wrap_small by word_lia. rewrite IH by lia. done.
        -- destruct (Z.eqb_spec c2 0) as [->|]; simpl; [lia|]. destruct (Z.eqb_spec c1 c2); [done|done].
Qed.

Lemma diff_zero l1 l2 : Forall (.≠ 0) l1 → Forall (.≠ 0) l2 → diff l1 l2 = 0 ↔ l1 = l2.
Proof.
  intros H1. revert l2. induction H1 as [|c1 l1 Hc1 _ IH]; intros l2 H2; destruct H2 as [|c2 l2 Hc2 H2]; simpl; try done.
  - split; [lia|done].
  - destruct (Z.eqb_spec c1 c2) as [->|].
    + rewrite IH by done. split; [by intros ->|by intros [= ->]].
    + split; [lia|congruence].
Qed.

Lemma diff_antisym l1 l2 : diff l2 l1 = - diff l1 l2.
Proof.
  revert l2. induction l1 as [|c1 l1 IH]; intros [|c2 l2]; simpl; try lia.
  destruct (Z.eqb_spec c1 c2), (Z.eqb_spec c2 c1); try done; lia.
Qed.

Lemma diff_nil l : Forall (.≠ 0) l → diff l [] = default 0 (head l).
Proof. by destruct 1. Qed.

Lemma diff_trans l1 l2 l3 : Forall (.≠ 0) l1 → Forall (.≠ 0) l2 → Forall (.≠ 0) l3 →
  0 < diff l1 l2 → 0 < diff l2 l3 → 0 < diff l1 l3.
Proof.
  intros H1. revert l2 l3. induction H1 as [|c1 l1 Hc1 H1 IH]; intros l2 l3 H2 H3;
    destruct H2 as [|c2 l2 Hc2 H2], H3 as [|c3 l3 Hc3 H3]; simpl; try lia.
  - destruct (Z.eqb_spec c2 c3); lia.
  - destruct (Z.eqb_spec c1 c3); lia.
  - destruct (Z.eqb_spec c1 c2); lia.
  - destruct (Z.eqb_spec c1 c2), (Z.eqb_spec c2 c3), (Z.eqb_spec c1 c3); try lia.
    by apply IH.
Qed.

(** [strcmp] compares as [diff] does, up to the limit: it answers 0 exactly for equal
    prefixes, exchanging the strings changes the sign, and "higher" is transitive, so
    that it is a total order of strings. *)
Theorem strcmp_order s1 s2 len :
  0 ≤ len < 2 ^ 64 →
  let l s := take (Z.to_nat len) (cstr s) in
  (strcmp s1 s2 len = 0 ↔ l s1 = l s2) ∧ strcmp s2 s1 len = - strcmp s1 s2 len ∧
  (∀ s3, 0 < strcmp s1 s2 len → 0 < strcmp s2 s3 len → 0 < strcmp s1 s3 len).
Proof.
  intros Hlen l. rewrite !strcmp_diff by done. fold (l s1) (l s2).
  assert (∀ s, Forall (.≠ 0) (l s)) as Hl by (intros s; apply Forall_take, cstr_nonzero).
  split_and!; [by apply diff_zero|apply diff_antisym|].
  intros s3. rewrite !strcmp_diff by done. apply diff_trans; apply Hl.
Qed.

Theorem strcmp_order_witness : 0 ≤ 10 < 2 ^ 64 ∧ strcmp [1; 2; 0; 7] [1; 2; 0; 8] 10 = 0.
Proof.
  assert (0 ≤ 10 < 2 ^ 64) as H by lia. split; [exact H|].
  destruct (strcmp_order [1; 2; 0; 7] [1; 2; 0; 8] 10 H) as [Hz _].
  apply Hz. vm_compute. reflexivity.
Defined.

(** ** Memory blocks: lemmas *)

(** The memory after [n] bytes from [s] were moved to [d]. *)
Definition moved (d s n : Z) (m : memory) : memory :=
  λ x, if (d <=? x) && (x <? d + n) then m (s + (x - d)) else m x.

Definition filled (d n i : Z) (m : memory) : memory :=
  λ x, if (d <=? x) && (x <? d + n) then i else m x.

Ltac addr_cases :=
  unfold moved, filled, store in *;
  repeat match goal with
  | |- context [?a <=? ?b] => destruct (Z.leb_spec a b)
  | |- context [?a <? ?b] => destruct (Z.ltb_spec a b)
  | |- context [?a =? ?b] => destruct (Z.eqb_spec a b)
  end; simpl; try lia; try done; try (f_equal; lia).

Lemma copy_up_spec n d s m x : d ≤ s ∨ s + Z.of_nat n ≤ d → copy_up n d s m x = moved d s (Z.of_nat n) m x.
Proof.
  revert d s m. induction n as [|n IH]; intros d s m Hds; cbn [copy_up]; [addr_cases|].
  rewrite IH by lia. addr_cases.
Qed.

Lemma copy_down_spec n d s m x :
  s ≤ d → copy_down n d s m x = moved (d + 1 - Z.of_nat n) (s + 1 - Z.of_nat n) (Z.of_nat n) m x.
Proof.
  revert d s m. induction n as [|n IH]; intros d s m Hds; cbn [copy_down]; [addr_cases|].
  rewrite IH by lia. addr_cases.
Qed.

Lemma copy_up_add a b d s m :
  copy_up (a + b) d s m = copy_up b (d + Z.of_nat a) (s + Z.of_nat a) (copy_up a d s m).
Proof.
  revert d s m. induction a as [|a IH]; intros d s m; simpl.
  - by rewrite !Z.add_0_r.
  - rewrite IH. f_equal; lia.
Qed.

Lemma copy_chunks_spec n d s m :
  copy_chunks n d s m = (d + 8 * Z.of_nat n, s + 8 * Z.of_nat n, copy_up (8 * n) d s m).
Proof.
  revert d s m. induction n as [|n IH]; intros d s m; cbn [copy_chunks].
  - f_equal. f_equal; lia.
  - rewrite IH. replace (8 * S n)%nat with (8 + 8 * n)%nat by lia. rewrite copy_up_add. change (Z.of_nat 8) with 8.
    by replace (d + 8 + 8 * Z.of_nat n) with (d + 8 * Z.of_nat (S n)) by lia;
      replace (s + 8 + 8 * Z.of_nat n) with (s + 8 * Z.of_nat (S n)) by lia.
Qed.

Lemma word_of_byte i k : 0 ≤ i < 256 → 0 ≤ k < 8 → Z.land (Z.shiftr (word_of i) (8 * k)) 255 = i.
Proof.
  intros Hi Hk.
  assert (forallb (λ i, forallb (λ k, Z.land (Z.shiftr (word_of i) (8 * k)) 255 =? i) (seqZ 0 8)) (seqZ 0 256) = true)
    as Hall by (vm_compute; reflexivity).
  rewrite forallb_forall in Hall. specialize (Hall i ltac:(apply list_elem_of_In, elem_of_seqZ; lia)).
  rewrite forallb_forall in Hall. specialize (Hall k ltac:(apply list_elem_of_In, elem_of_seqZ; lia)).
  by apply Z.eqb_eq.
Qed.

Lemma store_word_fill a i m x : 0 ≤ i < 256 → store_word a (word_of i) m x = filled a 8 i m x.
Proof.
  intros Hi. unfold store_word. change (seqZ 0 8) with [0; 1; 2; 3; 4; 5; 6; 7]. cbn [fold_left].
  rewrite !word_of_byte by lia. addr_cases.
Qed.

Lemma store_words_fill n d i m x :
  0 ≤ i < 256 → 0 ≤ n →
  fold_left (λ m k, store_word (d + 8 * k) (word_of i) m) (seqZ 0 n) m x = filled d (8 * n) i m x.
Proof.
  intros Hi Hn. revert x. pattern n. apply natlike_ind; [|clear n Hn; intros n Hn IH|done]; intros x.
  - simpl. addr_cases.
  - rewrite <- Z.add_1_r, seqZ_app, fold_left_app by lia.
    assert (seqZ (0 + n) 1 = [n]) as -> by (rewrite seqZ_cons by lia; done). cbn [fold_left]. rewrite store_word_fill by done. unfold filled at 1. rewrite IH. addr_cases.
Qed.

Lemma set_words_spec fuel n size d i m :
  0 ≤ i < 256 → 0 < n → 0 ≤ size →
  let '(size', d', m') := set_words fuel n size d (word_of i) m in
  0 ≤ size' ≤ size ∧ d' = d + (size - size') ∧ (∀ x, m' x = filled d (size - size') i m x) ∧
  (size < Z.of_nat fuel * (8 * n) → size' < 8 * n).
Proof.
  intros Hi Hn. revert size d m. induction fuel as [|fuel IH]; intros size d m Hs; cbn [set_words].
  - split_and!; try lia. intros x. addr_cases.
  - destruct (Z.leb_spec (8 * n) size).
    + set (m1 := fold_left _ _ _). specialize (IH (size - 8 * n) (d + 8 * n) m1 ltac:(lia)).
      destruct (set_words _ _ _ _ _ _) as [[size' d'] m']. destruct IH as (H1 & H2 & H3 & H4).
      split_and!; [lia|lia|lia| |lia]. intros x. rewrite H3. unfold filled at 1. unfold m1.
      rewrite store_words_fill by lia. addr_cases.
    + split_and!; try lia. intros x. addr_cases.
Qed.

Lemma set_align_spec fuel a size d i m :
  0 ≤ size →
  let '(size', d', m') := set_align fuel a size d i m in
  0 ≤ size' ≤ size ∧ d' = d + (size - size') ∧ (∀ x, m' x = filled d (size - size') i m x) ∧
  (0 ≤ a < 8 → 8 - a ≤ Z.of_nat fuel → size' = 0 ∨ (a = 0 ∧ d' = d) ∨ d' = d + (8 - a)).
Proof.
  revert a size d m. induction fuel as [|fuel IH]; intros a size d m Hs; cbn [set_align].
  - split_and!; try lia. intros x. addr_cases.
  - destruct (negb (a =? 0) && (a <? 8) && negb (size =? 0)) eqn:Hc.
    + specialize (IH (a + 1) (size - 1) (d + 1) (store d i m)).
      destruct (Z.eqb_spec a 0), (Z.ltb_spec a 8), (Z.eqb_spec size 0); simpl in Hc; try done.
      destruct (set_align _ _ _ _ _ _) as [[size' d'] m'] eqn:Hsa. destruct IH as (H1 & H2 & H3 & H4); [lia|].
      split_and!; try lia; [intros x; rewrite H3; addr_cases|].
      intros Ha Hf. destruct (decide (a = 7)) as [->|].
      * assert (set_align fuel (7 + 1) (size - 1) (d + 1) i (store d i m) = (size - 1, d + 1, store d i m)) as E1
          by (by destruct fuel). rewrite E1 in Hsa. simplify_eq. right. right. lia.
      * destruct H4 as [?|[[? ?]|?]]; lia.
    + split_and!; try lia. intros x. addr_cases.
Qed.

Lemma set_bytes_spec n d i m x : set_bytes n d i m x = filled d (Z.of_nat n) i m x.
Proof.
  revert d m. induction n as [|n IH]; intros d m; cbn [set_bytes]; [addr_cases|]. rewrite IH. addr_cases.
Qed.

(** the block functions do what their names promise, for every overlap.  [memmove]
    moves the bytes the source range held at the call, even if the ranges overlap in
    either direction; [memcpy], whatever part of a non-overlapping copy the routine of
    the processor takes over, has the same effect; [memset] with its words and unrolled
    chunks fills exactly the range, and writes words at word boundaries only. *)
Theorem block_functions_exact (memcpy_cpu : Z → Z → Z → memory → Z * memory)
  (Hcpu : ∀ d s n m, 0 ≤ n → (d + n ≤ s ∨ s + n ≤ d ∨ n = 0) →
    let '(rest, m') := memcpy_cpu d s n m in 0 ≤ rest ≤ n ∧ ∀ x, m' x = moved d s (n - rest) m x)
  dst src size i m x :
  0 ≤ size → 0 ≤ i < 256 →
  memmove dst src size m x = moved dst src size m x ∧
  memcpy memcpy_cpu dst src size m x = moved dst src size m x ∧
  memset dst i size m x = filled dst size i m x ∧
  (let '(size', d', _) := set_align 8 (Z.land dst 7) size dst i m in size' = 0 ∨ d' mod 8 = 0).
Proof.
  intros Hsize Hi.
  assert (∀ m x, memmove dst src size m x = moved dst src size m x) as Hmove.
  { intros m' x'. unfold memmove. destruct (Z.ltb_spec dst src).
    - rewrite copy_up_spec by lia. by rewrite Z2Nat.id by lia.
    - rewrite copy_down_spec, Z2Nat.id by lia. unfold moved.
      replace (dst + (size - 1) + 1 - size) with dst by lia. by replace (src + (size - 1) + 1 - size) with src by lia. }
  split; [apply Hmove|].
  assert (0 ≤ Z.land dst 7 < 8 ∧ (8 - Z.land dst 7 + dst) mod 8 = 0 ∧ (Z.land dst 7 = 0 → dst mod 8 = 0)) as (Ha & Hal & Ha0).
  { change 7 with (Z.ones 3). rewrite Z.land_ones by lia. change (2 ^ 3) with 8.
    pose proof (Z.mod_pos_bound dst 8 ltac:(lia)). split_and!; [lia|lia| |done].
    pose proof (Z.div_mod dst 8). symmetry. apply (Z.mod_unique _ _ (dst / 8 + 1)); lia. }
  pose proof (set_align_spec 8 (Z.land dst 7) size dst i m Hsize) as Hsa. unfold memset.
  destruct (set_align _ _ _ _ _ _) as [[size1 d1] m1]. destruct Hsa as (? & Hd1 & Hm1 & Hend).
  split_and!.
  - unfold memcpy. destruct ((src <? dst + size) && (dst <? src + size)) eqn:Hov; [apply Hmove|].
    pose proof (Hcpu dst src size m Hsize ltac:(lia)) as Hc.
    destruct (memcpy_cpu dst src size m) as [rest m']. destruct Hc as [Hrest Hm'].
    destruct (Z.eqb_spec (size - rest) size) as [He|]; [rewrite Hm'; by rewrite He|].
    rewrite copy_chunks_spec. replace (size - (size - rest)) with rest by lia.
    rewrite Z2Nat.id by (apply Z.shiftr_nonneg; lia).
    set (d := dst + (size - rest)). set (s := src + (size - rest)).
    assert (rest = 8 * Z.shiftr rest 3 + Z.land rest 7) as Hsplit.
    { change 7 with (Z.ones 3). rewrite Z.land_ones, Z.shiftr_div_pow2 by lia. change (2 ^ 3) with 8.
      apply Z.div_mod. lia. }
    assert (0 ≤ Z.shiftr rest 3) by (apply Z.shiftr_nonneg; lia).
    assert (0 ≤ Z.land rest 7) by (apply Z.land_nonneg; lia).
    replace (8 * Z.shiftr rest 3) with (Z.of_nat (8 * Z.to_nat (Z.shiftr rest 3))) by lia.
    rewrite <- copy_up_add, copy_up_spec by lia.
    replace (Z.of_nat (8 * Z.to_nat (Z.shiftr rest 3) + Z.to_nat (Z.land rest 7))) with rest by lia.
    unfold moved at 1. rewrite !Hm'. subst d s. addr_cases.
  - pose proof (set_words_spec (S (Z.to_nat size1)) 8 size1 d1 i m1 Hi ltac:(lia) ltac:(lia)) as H8.
    destruct (set_words _ 8 _ _ _ _) as [[size2 d2] m2]. destruct H8 as (? & Hd2 & Hm2 & Hless).
    pose proof (set_words_spec 8 1 size2 d2 i m2 Hi ltac:(lia) ltac:(lia)) as H1.
    destruct (set_words _ 1 _ _ _ _) as [[size3 d3] m3]. destruct H1 as (? & Hd3 & Hm3 & _).
    rewrite set_bytes_spec. unfold filled at 1. rewrite Hm3. unfold filled at 1. rewrite Hm2. unfold filled at 1.
    rewrite Hm1. addr_cases.
  - destruct Hend as [?|[[Hz ->]| ->]]; [done|lia|by left|right; by apply Ha0|right].
    rewrite <- Hal. f_equal. lia.
Qed.

Theorem block_functions_exact_witness :
  let m x := Z.land (x * 5) 255 in
  let cpu (d s n : Z) (m : memory) := (n, m) in
  memmove 101 100 5 m 104 = m 103 ∧ memcpy cpu 200 3 20 m 219 = m 22 ∧ memset 5 170 100 m 104 = 170.
Proof.
  set (m x := Z.land (x * 5) 255). set (cpu (d s n : Z) (m : memory) := (n, m)).
  assert (∀ d s n m, 0 ≤ n → (d + n ≤ s ∨ s + n ≤ d ∨ n = 0) →
    let '(rest, m') := cpu d s n m in 0 ≤ rest ≤ n ∧ ∀ x, m' x = moved d s (n - rest) m x) as Hcpu.
  { intros d s n m0 Hn _. split; [lia|]. intros x. addr_cases. }
  destruct (block_functions_exact cpu Hcpu 101 100 5 170 m 104) as (H1 & _); [lia|lia|].
  destruct (block_functions_exact cpu Hcpu 200 3 20 170 m 219) as (_ & H2 & _); [lia|lia|].
  destruct (block_functions_exact cpu Hcpu 5 3 100 170 m 104) as (_ & _ & H3 & _); [lia|lia|].
  split; [rewrite H1; reflexivity|]. split; [rewrite H2; reflexivity|rewrite H3; reflexivity].
Defined.
