(* ===== verification/Output.v ===== *)
(** * Output: values as text

    Model of the conversions of [src/repos/base/src/include/base/internal/output.h], the
    [print] functions of [src/repos/base/src/lib/base/output.cc] and
    [src/repos/base/include/base/output.h], and the class [String] of
    [src/repos/base/include/util/string.h], which collects the text.  An [Output] is the
    sequence of the characters it was given.  Floating-point output is not modelled. *)

From S2P Require Import Prelude Cstring.

Open Scope Z_scope.
Open Scope word_scope.

(** ** Conversions *)

Definition ascii (digit uppercase : Z) : Z :=
  if 9 <? digit then digit + (if uppercase =? 0 then ch_a else ch_A) - 10 else digit + ch_0.

(** The number of iterations of the digit loop that suffice for 64 bits. *)
Definition MAX_DIGITS : nat := 64.

(** The loop that fills the buffer, starting with the least significant digit. *)
Fixpoint fill_buffer (fuel : nat) (value base : Z) : list Z :=
  match fuel with
  | O => []
  | S fuel => if 0 <? value then ascii (value mod base) 0 :: fill_buffer fuel (value / base) base else []
  end.

Definition out_unsigned (value base pad : Z) : list Z :=
  let '(buf, pad) := if value =? 0 then ([ascii 0 0], pad - 1) else ([], pad) in
  let digits := fill_buffer MAX_DIGITS value base in
  let pad := pad - Z.of_nat (length digits) in
  replicate (Z.to_nat pad) (ascii 0 0) ++ rev (buf ++ digits).

(** A [value] of a signed type of [w] bits. *)
Definition out_signed (w value base : Z) : list Z :=
  let neg := value <? 0 in
  let value := if value <? 0 then to_signed w (- value) else value in
  let buf := if value =? 0 then [ascii 0 0] else fill_buffer MAX_DIGITS value base in
  (if neg then [ch_minus] else []) ++ rev buf.

(** ** Print *)

Definition out_string (str : list Z) (n : Z) : list Z := take (Z.to_nat n) (cstr str).

Definition print_cstring (str : list Z) : list Z := cstr str.

Definition print_unsigned (value : Z) : list Z := out_unsigned value 10 0.

Definition print_signed (value : Z) : list Z := out_signed 64 value 10.

Inductive Prefix := PREFIX | OMIT_PREFIX.
Inductive Pad := PAD | NO_PAD.

Record Hex := { _value : Z; _digits : Z; _prefix : Prefix; _pad : Pad }.

(** The constructor for a [value] of [sizeof_T] bytes. *)
Definition hex (sizeof_T value : Z) (prefix : Prefix) (pad : Pad) : Hex :=
  {| _value := u64 value; _digits := 2 * sizeof_T; _prefix := prefix; _pad := pad |}.

Fixpoint hex_mask (digits : nat) (mask : Z) : Z :=
  match digits with O => mask | S n => hex_mask n (Z.lor (u64 (Z.shiftl mask 4)) 15) end.

Definition print_hex (h : Hex) : list Z :=
  let pad_len := match _pad h with PAD => _digits h | NO_PAD => 0 end in
  let mask := hex_mask (Z.to_nat (_digits h)) 0 in
  (match _prefix h with PREFIX => [ch_0; ch_x] | OMIT_PREFIX => [] end) ++
  out_unsigned (Z.land (_value h) mask) 16 pad_len.

Definition print_pointer (ptr : Z) : list Z := print_hex (hex 8 ptr PREFIX NO_PAD).

Definition ch_open : Z := 91.
Definition ch_close : Z := 93.
Definition ch_paren : Z := 41.
Definition ch_comma : Z := 44.
Definition text_overflow : list Z := [32; 40; 111; 118; 101; 114; 102; 108; 111; 119; 33; 41].
Definition text_empty : list Z := [32; 40; 101; 109; 112; 116; 121; 33; 41].

(** [Hex_range::print] for an unsigned type of [sizeof_T] bytes. *)
Definition print_hex_range (sizeof_T base len : Z) : list Z :=
  let from := print_hex (hex sizeof_T base OMIT_PREFIX PAD) in
  let end_ := wrap (8 * sizeof_T) (base + len) in
  if negb (base =? 0) && (end_ =? 0) then
    [ch_open] ++ from ++ [ch_comma] ++
    print_hex (hex sizeof_T (wrap (8 * sizeof_T) (end_ - 1)) OMIT_PREFIX PAD) ++ [ch_close]
  else
    [ch_open] ++ from ++ [ch_comma] ++ print_hex (hex sizeof_T end_ OMIT_PREFIX PAD) ++ [ch_paren] ++
    (if negb (base =? 0) && (end_ <? base) then text_overflow else []) ++
    (if len =? 0 then text_empty else []).

(** [Number_of_bytes::print] *)
Definition print_bytes (n : Z) : list Z :=
  if n =? 0 then print_signed 0
  else if n mod GB =? 0 then print_unsigned (n / GB) ++ [ch_G]
  else if n mod MB =? 0 then print_unsigned (n / MB) ++ [ch_M]
  else if n mod KB =? 0 then print_unsigned (n / KB) ++ [ch_K]
  else print_unsigned n.

(** ** [String] *)

Module String.

(** Buffer and number of characters including the terminating zero. *)
Record t := Mk { _buf : list Z; _len : Z }.

Section Operations.
Variable CAPACITY : Z.

(** [Local_output]: the characters in the buffer so far. *)
Definition _capacity_left (out : list Z) : bool := negb (CAPACITY - Z.of_nat (length out) - 1 =? 0).

Definition out_char (out : list Z) (c : Z) : list Z := if _capacity_left out then out ++ [c] else out.

Fixpoint out_string_loop (out str : list Z) (n : Z) : list Z :=
  match str with
  | [] => out
  | c :: str =>
      if (0 <? n) && _capacity_left out && negb (c =? 0)
      then out_string_loop (out ++ [c]) str (n - 1) else out
  end.

(** The constructor from the text of the arguments. *)
Definition from_text (text : list Z) : t :=
  let out := fold_left out_char text [] in
  Mk (out ++ 0 :: replicate (Z.to_nat CAPACITY - S (length out)) 0) (Z.of_nat (length out) + 1).

(** The constructor from a string literal, over the contents the buffer had. *)
Definition from_cstring (buf cstr : list Z) : t :=
  let len := Z.min (strlen cstr + 1) CAPACITY in
  Mk (copy_cstring buf cstr len) len.

Definition length (s : t) : Z := _len s.

Definition valid (s : t) : bool :=
  (_len s <=? CAPACITY) && negb (_len s =? 0) && (at_index (_buf s) (Z.to_nat (_len s - 1)) =? 0).

Definition string (s : t) : list Z := if valid s then _buf s else [].

Definition equals (s : t) (other : list Z) : bool := strcmp (string s) other NO_LIMIT =? 0.

Definition higher (s other : t) : bool := 0 <? strcmp (string s) (string other) NO_LIMIT.

Definition print (s : t) : list Z := print_cstring (string s).

End Operations.
End String.

(** ** Digits *)

(** The number some digits denote, continuing from [v]. *)
Definition number (base : Z) (digits : list Z) (v : Z) : Z :=
  fold_left (λ v c, v * base + digit c (base =? 16)) digits v.

Lemma digit_ascii base d : base = 10 ∨ base = 16 → 0 ≤ d < base → digit (ascii d 0) (base =? 16) = d.
Proof.
  intros Hb Hd.
  assert (forallb (λ d, digit (ascii d 0) false =? d) (seqZ 0 10) &&
    forallb (λ d, digit (ascii d 0) true =? d) (seqZ 0 16) = true) as Hall by reflexivity.
  apply andb_true_iff in Hall as [H10 H16]. rewrite forallb_forall in H10, H16. apply Z.eqb_eq.
  destruct Hb as [-> | ->]; [apply H10|apply H16]; rewrite <- list_elem_of_In, elem_of_seqZ; lia.
Qed.

Lemma fill_buffer_digits fuel value base : base = 10 ∨ base = 16 → 0 ≤ value →
  Forall (λ c, 0 ≤ digit c (base =? 16) < base) (fill_buffer fuel value base).
Proof.
  intros Hb. revert value. induction fuel as [|fuel IH]; intros value Hv; [constructor|]. cbn [fill_buffer].
  destruct (Z.ltb_spec 0 value); [|constructor].
  pose proof (Z.mod_pos_bound value base ltac:(lia)). constructor; [by rewrite digit_ascii|].
  apply IH. apply Z.div_pos; lia.
Qed.

Lemma fill_buffer_number fuel value base : base = 10 ∨ base = 16 → 0 ≤ value < 2 ^ Z.of_nat fuel →
  number base (rev (fill_buffer fuel value base)) 0 = value.
Proof.
  intros Hb. revert value. induction fuel as [|fuel IH]; intros value Hv; cbn [fill_buffer].
  - simpl in *. lia.
  - destruct (Z.ltb_spec 0 value); [|simpl; lia]. unfold number. cbn [rev].
    rewrite fold_left_app. fold (number base (rev (fill_buffer fuel (value / base) base)) 0). cbn [fold_left].
    pose proof (Z.mod_pos_bound value base ltac:(lia)). pose proof (Z.div_mod value base ltac:(lia)).
    rewrite IH, digit_ascii by (done || (split; [apply Z.div_pos; lia|];
      apply Z.div_lt_upper_bound; [lia|]; rewrite Nat2Z.inj_succ, Z.pow_succ_r in Hv by lia; nia)).
    lia.
Qed.

(** The text of an unsigned value: digits that denote it, and at least one. *)
Lemma out_unsigned_digits value base pad : base = 10 ∨ base = 16 → is_u64 value →
  Forall (λ c, 0 ≤ digit c (base =? 16) < base) (out_unsigned value base pad) ∧
  number base (out_unsigned value base pad) 0 = value ∧ out_unsigned value base pad ≠ [].
Proof.
  intros Hb Hv. unfold out_unsigned. destruct (Z.eqb_spec value 0) as [->|Hnz].
  - cbn [fill_buffer MAX_DIGITS Z.ltb Z.compare length app rev].
    generalize (Z.to_nat (pad - 1 - Z.of_nat 0)) as k. intros k.
    assert (0 ≤ digit (ascii 0 0) (base =? 16) < base ∧ digit (ascii 0 0) (base =? 16) = 0) as [Hd Hd0]
      by (rewrite digit_ascii by lia; lia).
    split_and!.
    + apply Forall_app. split; [by apply Forall_replicate|by constructor].
    + unfold number. rewrite fold_left_app. induction k as [|k IH]; simpl; [by rewrite Hd0|].
      rewrite Hd0. apply IH.
    + by destruct k.
  - set (ds := fill_buffer MAX_DIGITS value base).
    pose proof (fill_buffer_digits MAX_DIGITS value base Hb ltac:(word_lia)) as Hds. fold ds in Hds.
    pose proof (fill_buffer_number MAX_DIGITS value base Hb Hv) as Hnum. fold ds in Hnum.
    cbn [app]. generalize (Z.to_nat (pad - Z.of_nat (length ds))) as k. intros k. split_and!.
    + apply Forall_app. split; [|by apply Forall_rev].
      apply Forall_replicate. rewrite digit_ascii by lia. lia.
    + unfold number in *. rewrite fold_left_app. induction k as [|k IH]; simpl; [done|].
      rewrite digit_ascii by lia. apply IH.
    + intros Hnil. apply app_eq_nil in Hnil as [_ Hnil]. rewrite Hnil in Hnum. simpl in Hnum. lia.
Qed.

Lemma wrap_mul_add w v b d : wrap w (wrap w v * b + d) = wrap w (v * b + d).
Proof.
  unfold wrap. by rewrite <- Zplus_mod_idemp_l, Zmult_mod_idemp_l, Zplus_mod_idemp_l.
Qed.

Lemma number_wrap w base ds v : 0 ≤ w → wrap w (number base ds (wrap w v)) = wrap w (number base ds v).
Proof.
  intros Hw. revert v. unfold number. induction ds as [|c ds IH]; intros v; simpl; [by apply wrap_wrap|].
  by rewrite <- IH, wrap_mul_add, IH.
Qed.

Lemma read_number_spec w base ds rest v i :
  0 ≤ w → in_range w v → Forall (λ c, 0 ≤ digit c (base =? 16)) ds → digit (deref rest) (base =? 16) < 0 →
  read_number w base (ds ++ rest) v i = (wrap w (number base ds v), i + Z.of_nat (length ds)).
Proof.
  intros Hw Hv Hds Hrest. revert v i Hv.
  assert (∀ v i, in_range w v → read_number w base rest v i = (v, i)) as Hstop.
  { intros v i _. destruct rest as [|c rest]; [done|]. cbn [read_number]. unfold deref in Hrest; simpl in Hrest.
    destruct (Z.ltb_spec (digit c (base =? 16)) 0); [done|lia]. }
  induction Hds as [|c ds Hc _ IH]; intros v i Hv; cbn [app read_number].
  - rewrite Hstop by done. simpl. by rewrite wrap_small, Z.add_0_r.
  - destruct (Z.ltb_spec (digit c (base =? 16)) 0); [lia|]. rewrite IH by (by apply wrap_range).
    rewrite number_wrap by done. f_equal. simpl. lia.
Qed.

(** Characters that are digits are neither an [x] nor the end of a string. *)
Lemma digit_not_x c : 0 ≤ digit c false → c ≠ 0 ∧ (c =? ch_x) = false ∧ (c =? ch_X) = false.
Proof.
  unfold digit, between, ch_0, ch_9, ch_x, ch_X. intros H. cbn [andb] in H.
  destruct (Z.leb_spec 48 c), (Z.leb_spec c 57); simpl in H; try lia.
Qed.

(** The text behind a number does not continue it. *)
Definition number_ends (rest : list Z) : Prop :=
  digit (deref rest) false < 0 ∧ deref rest ≠ ch_x ∧ deref rest ≠ ch_X.

Lemma ascii_to_unsigned_decimal w ds rest :
  0 ≤ w → ds ≠ [] → Forall (λ c, 0 ≤ digit c false) ds → number_ends rest →
  ascii_to_unsigned w (ds ++ rest) 0 = (Some (wrap w (number 10 ds 0)), Z.of_nat (length ds)).
Proof.
  intros Hw Hne Hds (Hr & Hx & HX). unfold ascii_to_unsigned.
  assert (read_number w 10 (ds ++ rest) 0 0 = (wrap w (number 10 ds 0), Z.of_nat (length ds))) as Hrd.
  { apply read_number_spec; [done| |done|done]. split; [lia|]. apply Z.pow_pos_nonneg; lia. }
  destruct Hds as [|c ds Hc Hds]; [done|]. destruct (digit_not_x c Hc) as (Hc0 & _ & _).
  unfold at_index, deref in *. cbn [app head default] in *.
  assert ((default 0 (head (drop 1 (c :: ds ++ rest))) =? ch_x) = false ∧
    (default 0 (head (drop 1 (c :: ds ++ rest))) =? ch_X) = false) as [Ex EX].
  { destruct Hds as [|c2 ds Hc2 Hds]; [|apply (digit_not_x c2 Hc2)].
    split; apply Z.eqb_neq; [exact Hx|exact HX]. }
  rewrite Ex, EX, andb_false_r.
  change (id c) with c. destruct (Z.eqb_spec c 0); [done|]. cbn [Z.eqb]. by rewrite Hrd.
Qed.

Lemma ascii_to_unsigned_hex w ds rest :
  0 ≤ w → Forall (λ c, 0 ≤ digit c true) ds → digit (deref rest) true < 0 →
  ascii_to_unsigned w ([ch_0; ch_x] ++ ds ++ rest) 0 = (Some (wrap w (number 16 ds 0)), 2 + Z.of_nat (length ds)).
Proof.
  intros Hw Hds Hr. unfold ascii_to_unsigned.
  change (read_number w 16 (ds ++ rest) 0 2) with (read_number w 16 (ds ++ rest) 0 2).
  assert (read_number w 16 (ds ++ rest) 0 2 = (wrap w (number 16 ds 0), 2 + Z.of_nat (length ds))) as Hrd.
  { apply read_number_spec; [done| |done|done]. split; [lia|]. apply Z.pow_pos_nonneg; lia. }
  change (deref ([ch_0; ch_x] ++ ds ++ rest) =? 0) with false. cbv iota.
  change (deref ([ch_0; ch_x] ++ ds ++ rest) =? ch_0) with true.
  change (at_index ([ch_0; ch_x] ++ ds ++ rest) 1 =? ch_x) with true.
  cbn [Z.eqb andb orb]. change (drop 2 ([ch_0; ch_x] ++ ds ++ rest)) with (ds ++ rest). by rewrite Hrd.
Qed.

(** The digits of [print]. *)
Lemma print_unsigned_digits n : is_u64 n →
  Forall (λ c, 0 ≤ digit c false) (print_unsigned n) ∧ number 10 (print_unsigned n) 0 = n ∧ print_unsigned n ≠ [].
Proof.
  intros Hn. destruct (out_unsigned_digits n 10 0) as (H1 & H2 & H3); [lia|done|].
  split_and!; [|done|done]. eapply Forall_impl; [exact H1|]. simpl. lia.
Qed.

Lemma parse_unsigned n rest : is_u64 n → number_ends rest →
  ascii_to_unsigned 64 (print_unsigned n ++ rest) 0 = (Some n, Z.of_nat (length (print_unsigned n))).
Proof.
  intros Hn Hr. destruct (print_unsigned_digits n Hn) as (H1 & H2 & H3).
  by rewrite ascii_to_unsigned_decimal, H2, wrap_small.
Qed.

Lemma parse_hex n pad rest : is_u64 n → digit (deref rest) true < 0 →
  ascii_to_unsigned 64 (print_hex (hex 8 n PREFIX pad) ++ rest) 0 =
    (Some n, Z.of_nat (length (print_hex (hex 8 n PREFIX pad)))).
Proof.
  intros Hn Hr. unfold print_hex. cbn [_prefix hex _value _digits _pad].
  set (k := match pad with PAD => 2 * 8 | NO_PAD => 0 end).
  change (hex_mask (Z.to_nat (2 * 8)) 0) with (Z.ones 64).
  rewrite (wrap_small 64 n), Z.land_ones, Z.mod_small by (done || lia).
  destruct (out_unsigned_digits n 16 k) as (H1 & H2 & H3); [lia|done|].
  rewrite <- app_assoc, ascii_to_unsigned_hex, H2, wrap_small; [|done|lia| |done].
  - rewrite length_app. f_equal. simpl. lia.
  - eapply Forall_impl; [exact H1|]. simpl. lia.
Qed.

Lemma out_signed_positive v : 0 ≤ v < 2 ^ 63 → out_signed 64 v 10 = print_unsigned v.
Proof.
  intros Hv. unfold out_signed, print_unsigned, out_unsigned. destruct (Z.ltb_spec v 0); [lia|].
  destruct (Z.eqb_spec v 0) as [->|]; [done|].
  assert (∀ k, Z.to_nat (0 - Z.of_nat k) = 0%nat) as E by lia. by rewrite E.
Qed.

Lemma to_signed_id v : - 2 ^ 63 ≤ v < 2 ^ 63 → to_signed 64 v = v.
Proof.
  intros Hv. unfold to_signed. change (2 ^ (64 - 1)) with (2 ^ 63). unfold wrap.
  destruct (decide (0 ≤ v)).
  - rewrite Z.mod_small by lia. destruct (Z.leb_spec (2 ^ 63) v); lia.
  - replace (v mod 2 ^ 64) with (v + 2 ^ 64) by (apply (Z.mod_unique _ _ (-1)); lia).
    destruct (Z.leb_spec (2 ^ 63) (v + 2 ^ 64)); lia.
Qed.

Lemma parse_signed v rest : - 2 ^ 63 < v < 2 ^ 63 → number_ends rest →
  ascii_to_signed 64 (print_signed v ++ rest) = (Some v, Z.of_nat (length (print_signed v))).
Proof.
  intros Hv Hr. unfold print_signed.
  assert (∀ n, 0 ≤ n < 2 ^ 63 → ∃ c ds, print_unsigned n = c :: ds ∧ (c =? ch_minus) = false ∧ (c =? ch_plus) = false) as Hsign.
  { intros n Hn. destruct (print_unsigned_digits n) as (H1 & _ & H3); [word_lia|].
    destruct H1 as [|c ds Hc]; [done|]. exists c, ds. split; [done|]. revert Hc. unfold digit, between, ch_0, ch_9, ch_minus, ch_plus.
    cbn [andb]. destruct (Z.leb_spec 48 c), (Z.leb_spec c 57); simpl; intros; lia. }
  destruct (decide (0 ≤ v)).
  - rewrite out_signed_positive by lia. pose proof (parse_unsigned v rest ltac:(word_lia) Hr) as Hp.
    destruct (Hsign v) as (c & ds & Hc & Hm & Hpl); [lia|]. unfold ascii_to_signed. rewrite Hc in *.
    unfold deref in *. cbn [app head from_option] in *. change (id c) with c in *. rewrite Hm, Hpl. cbn [orb].
    rewrite Hp. destruct (Z.eqb_spec (Z.of_nat (length (c :: ds))) 0) as [Hz|]; [simpl in Hz; lia|].
    f_equal. f_equal. rewrite Z.mul_1_l. cbn [from_option]. change (id v) with v. by rewrite !to_signed_id by (rewrite ?to_signed_id; lia).
  - assert (out_signed 64 v 10 = ch_minus :: print_unsigned (- v)) as ->.
    { rewrite <- out_signed_positive by lia. unfold out_signed. destruct (Z.ltb_spec v 0); [|lia].
      rewrite to_signed_id by lia. destruct (Z.ltb_spec (- v) 0); [lia|]. done. }
    pose proof (parse_unsigned (- v) rest ltac:(word_lia) Hr) as Hp.
    destruct (Hsign (- v)) as (c & ds & Hc & _ & _); [lia|]. unfold ascii_to_signed, deref.
    cbn [app head from_option tail]. change (id ch_minus =? ch_minus) with true. cbn [orb]. rewrite Hp, Hc.
    destruct (Z.eqb_spec (Z.of_nat (length (c :: ds))) 0) as [Hz|]; [simpl in Hz; lia|].
    f_equal; [|simpl; lia]. f_equal. cbn [from_option]. change (id (- v)) with (- v).
    rewrite !to_signed_id by (rewrite ?to_signed_id; lia). lia.
Qed.

(** No suffix follows a number of bytes. *)
Definition bytes_end (rest : list Z) : Prop :=
  number_ends rest ∧ deref rest ≠ ch_G ∧ deref rest ≠ ch_M ∧ deref rest ≠ ch_K.

Lemma at_index_app ds rest : at_index (ds ++ rest) (Z.to_nat (Z.of_nat (length ds))) = deref rest.
Proof. unfold at_index. by rewrite Nat2Z.id, drop_app_length. Qed.

Lemma parse_suffix n k c rest : is_u64 n → 0 < k → n mod k = 0 → n ≠ 0 →
  (c = ch_G ∧ k = GB ∨ c = ch_M ∧ k = MB ∨ c = ch_K ∧ k = KB) →
  ascii_to_bytes ((print_unsigned (n / k) ++ [c]) ++ rest) = (n, Z.of_nat (length (print_unsigned (n / k) ++ [c]))).
Proof.
  intros Hn Hk Hmod Hnz Hc. pose proof (Z.div_mod n k ltac:(lia)).
  assert (is_u64 (n / k)) as Hq by (unfold in_range in *; split; [apply Z.div_pos; lia|apply Z.div_lt_upper_bound; nia]).
  unfold ascii_to_bytes. rewrite <- app_assoc, parse_unsigned;
    [|done|destruct Hc as [[-> _]|[[-> _]|[-> _]]]; by vm_compute].
  destruct (print_unsigned_digits _ Hq) as (_ & _ & Hne).
  destruct (Z.ltb_spec 0 (Z.of_nat (length (print_unsigned (n / k))))) as [_|Hz];
    [|destruct (print_unsigned (n / k)); [done|simpl in Hz; lia]].
  rewrite at_index_app, length_app. change (deref ([c] ++ rest)) with c. cbn [from_option].
  change (id (n / k)) with (n / k).
  assert (∀ k', k' = k → n / k *64 k' = n) as Hmul by (intros k' ->; rewrite wrap_small; word_lia).
  destruct Hc as [[-> Ek]|[[-> Ek]|[-> Ek]]]; cbn; rewrite Hmul by (subst k; reflexivity); f_equal; lia.
Qed.

Lemma parse_bytes n rest : is_u64 n → bytes_end rest →
  ascii_to_bytes (print_bytes n ++ rest) = (n, Z.of_nat (length (print_bytes n))).
Proof.
  intros Hn (Hr & HG & HM & HK). unfold print_bytes.
  assert (ascii_to_bytes (print_unsigned n ++ rest) = (n, Z.of_nat (length (print_unsigned n)))) as Hplain.
  { unfold ascii_to_bytes. rewrite parse_unsigned by done.
    destruct (print_unsigned_digits _ Hn) as (_ & _ & Hne). rewrite at_index_app.
    apply Z.eqb_neq in HG, HM, HK. rewrite HG, HM, HK.
    destruct (Z.ltb_spec 0 (Z.of_nat (length (print_unsigned n)))); done. }
  destruct (Z.eqb_spec n 0) as [->|Hnz]; [exact Hplain|].
  destruct (Z.eqb_spec (n mod GB) 0); [apply parse_suffix; try done; auto|].
  destruct (Z.eqb_spec (n mod MB) 0); [apply parse_suffix; try done; auto|].
  destruct (Z.eqb_spec (n mod KB) 0); [apply parse_suffix; try done; auto|exact Hplain].
Qed.

(** C40: parsing gives back the printed value and consumes exactly the printed text,
    whatever follows that does not continue the number: for decimal numbers, for
    hexadecimal numbers with prefix, padded or not, for signed numbers other than the
    most negative one, and for byte amounts with the suffixes G, M and K. *)
Theorem print_parse_roundtrip rest :
  bytes_end rest → digit (deref rest) true < 0 →
  (∀ n, is_u64 n → ascii_to_unsigned 64 (print_unsigned n ++ rest) 0 = (Some n, Z.of_nat (length (print_unsigned n)))) ∧
  (∀ n pad, is_u64 n → ascii_to_unsigned 64 (print_hex (hex 8 n PREFIX pad) ++ rest) 0 =
    (Some n, Z.of_nat (length (print_hex (hex 8 n PREFIX pad))))) ∧
  (∀ v, - 2 ^ 63 < v < 2 ^ 63 → ascii_to_signed 64 (print_signed v ++ rest) =
    (Some v, Z.of_nat (length (print_signed v)))) ∧
  (∀ n, is_u64 n → ascii_to_bytes (print_bytes n ++ rest) = (n, Z.of_nat (length (print_bytes n)))).
Proof.
  intros Hb Hx. pose proof Hb as [Hr _].
  split_and!; intros; [by apply parse_unsigned|by apply parse_hex|by apply parse_signed|by apply parse_bytes].
Qed.

Theorem print_parse_roundtrip_witness :
  bytes_end [32] ∧ digit (deref [32]) true < 0 ∧
  ascii_to_bytes ([51; ch_M] ++ [32]) = (3 * 2 ^ 20, 2).
Proof.
  assert (bytes_end [32]) as H1 by (vm_compute; repeat split; congruence).
  assert (digit (deref [32]) true < 0) as H2 by reflexivity.
  split; [exact H1|]. split; [exact H2|].
  destruct (print_parse_roundtrip [32] H1 H2) as (_ & _ & _ & Hp).
  assert (is_u64 (3 * 2 ^ 20)) as Hn by (vm_compute; split; congruence).
  apply (Hp (3 * 2 ^ 20) Hn).
Defined.

(** [ascii_to_unsigned] reports no overflow: for a type of [w] bits it stores the
    number the digits denote modulo 2^w and consumes all digits. *)
Theorem ascii_to_unsigned_wraps w ds rest :
  0 ≤ w → ds ≠ [] → Forall (λ c, 0 ≤ digit c false) ds → number_ends rest →
  ascii_to_unsigned w (ds ++ rest) 0 = (Some (number 10 ds 0 mod 2 ^ w), Z.of_nat (length ds)).
Proof. apply ascii_to_unsigned_decimal. Qed.

Theorem ascii_to_unsigned_wraps_witness : ascii_to_unsigned 8 [50; 53; 55] 0 = (Some 1, 3).
Proof.
  assert (Forall (λ c, 0 ≤ digit c false) [50; 53; 55]) as Hd by (repeat constructor; by vm_compute).
  assert (number_ends []) as Hr by (vm_compute; repeat split; congruence).
  apply (ascii_to_unsigned_wraps 8 [50; 53; 55] []); [lia|discriminate|exact Hd|exact Hr].
Defined.

(** The most negative number is its own absolute value: only the sign is printed. *)
Lemma print_most_negative : print_signed (- 2 ^ 63) = [ch_minus].
Proof. vm_compute. done. Qed.

(** ** Strings: lemmas *)

Section String_facts.
Variable CAPACITY : Z.
Hypothesis Hcap : 0 < CAPACITY.

Abbreviation limit text := (take (Z.to_nat (CAPACITY - 1)) text).

Lemma out_chars_limit text out :
  Z.of_nat (length out) ≤ CAPACITY - 1 →
  fold_left (String.out_char CAPACITY) text out = limit (out ++ text).
Proof.
  revert out. induction text as [|c text IH]; intros out Hout; simpl.
  - rewrite app_nil_r. symmetry. apply take_ge. lia.
  - unfold String.out_char at 2, String._capacity_left.
    destruct (Z.eqb_spec (CAPACITY - Z.of_nat (length out) - 1) 0) as [Hfull|]; simpl.
    + rewrite IH by done. assert (length out = Z.to_nat (CAPACITY - 1)) as Hl by lia.
      by rewrite <- Hl, !take_app_length.
    + rewrite IH by (rewrite length_app; simpl; lia). by rewrite <- app_assoc.
Qed.

(** [out_string] of the buffer is [out_char] of its characters. *)
Lemma out_string_chars str out n :
  String.out_string_loop CAPACITY out str n =
    fold_left (String.out_char CAPACITY) (take (Z.to_nat n) (cstr str)) out.
Proof.
  assert (∀ text out, String._capacity_left CAPACITY out = false → fold_left (String.out_char CAPACITY) text out = out) as Hfull.
  { intros text. induction text as [|c text IH]; intros o Ho; [done|]. simpl. unfold String.out_char at 2. rewrite Ho. by apply IH. }
  revert out n. induction str as [|c str IH]; intros out n; simpl; [by rewrite take_nil|].
  destruct (Z.ltb_spec 0 n) as [Hn|Hn]; simpl.
  - destruct (String._capacity_left CAPACITY out) eqn:Hc; simpl.
    + destruct (Z.eqb_spec c 0); simpl; [by rewrite take_nil|].
      replace (Z.to_nat n) with (S (Z.to_nat (n - 1))) by lia. simpl.
      rewrite IH. unfold String.out_char at 3. by rewrite Hc.
    + symmetry. by apply Hfull.
  - by replace (Z.to_nat n) with 0%nat by lia.
Qed.

(** a [String] holds its text up to the capacity.  Both constructors give a valid,
    terminated string whose text is the longest prefix that fits into the buffer, and
    whose length counts the terminating zero; the length reaches the capacity whenever
    something was cut off. *)
Theorem string_constructors text buf :
  Forall (.≠ 0) text → Z.of_nat (length buf) = CAPACITY →
  ∀ s, s = String.from_text CAPACITY text ∨ s = String.from_cstring CAPACITY buf text →
  String.valid CAPACITY s = true ∧ Z.of_nat (length (String._buf s)) = CAPACITY ∧
  String.print CAPACITY s = limit text ∧
  String.length s = Z.min (strlen text + 1) CAPACITY.
Proof.
  intros Htext Hbuf s Hs.
  assert (Forall (.≠ 0) (limit text)) as Hlim by by apply Forall_take.
  assert (Z.of_nat (length (limit text)) = Z.min (Z.of_nat (length text)) (CAPACITY - 1)) as Hlen
    by (rewrite length_take; lia).
  assert (∃ rest, String._buf s = limit text ++ 0 :: rest ∧ Z.of_nat (length (String._buf s)) = CAPACITY ∧
    String._len s = Z.of_nat (length (limit text)) + 1) as (rest & Hb & Hbl & Hl).
  { destruct Hs as [-> | ->].
    - unfold String.from_text. rewrite out_chars_limit by (simpl; lia). cbn [app String._buf String._len].
      eexists. split_and!; [done| |done]. rewrite length_app. simpl. rewrite length_replicate. lia.
    - unfold String.from_cstring. cbn [String._buf String._len]. rewrite strlen_cstr, cstr_id by done.
      set (n := Z.min _ _).
      destruct (copy_cstring_spec buf text n) as [Hc _]; [subst n; lia|].
      rewrite (cstr_id text Htext) in Hc.
      assert (take (Z.to_nat (n - 1)) text = limit text) as Ht.
      { subst n. destruct (decide (Z.of_nat (length text) ≤ CAPACITY - 1)); [rewrite !take_ge by lia; done|].
        f_equal. lia. }
      rewrite Ht in Hc. destruct (Z.eqb_spec n 0) as [Hz|_]; [subst n; lia|]. rewrite Hc.
      eexists. split_and!; [done| |subst n; lia]. rewrite length_app. simpl. rewrite length_drop. lia. }
  assert (String.valid CAPACITY s = true) as Hv.
  { unfold String.valid. rewrite Hl, Hb. destruct (Z.leb_spec (Z.of_nat (length (limit text)) + 1) CAPACITY); [|lia].
    destruct (Z.eqb_spec (Z.of_nat (length (limit text)) + 1) 0); [lia|]. simpl.
    replace (Z.to_nat (Z.of_nat (length (limit text)) + 1 - 1)) with (Z.to_nat (Z.of_nat (length (limit text)))) by lia.
    by rewrite at_index_app. }
  split_and!; [done|done| |].
  - unfold String.print, String.string, print_cstring. rewrite Hv, Hb. by apply cstr_app.
  - unfold String.length. rewrite Hl, strlen_cstr, cstr_id by done. lia.
Qed.

End String_facts.

Theorem string_constructors_witness :
  String.print 4 (String.from_text 4 [104; 101; 108; 108; 111]) = [104; 101; 108].
Proof.
  assert (Forall (.≠ 0) [104; 101; 108; 108; 111]) as Ht by (repeat constructor; discriminate).
  assert (Z.of_nat (length [0; 0; 0; 0]) = 4) as Hb by reflexivity.
  destruct (string_constructors 4 ltac:(lia) _ _ Ht Hb (String.from_text 4 [104; 101; 108; 108; 111]) (or_introl eq_refl))
    as (_ & _ & Hp & _).
  rewrite Hp. reflexivity.
Defined.
