(* ===== verification/Ram_file.v ===== *)
(** * Ram_file: the files and symbolic links of the RAM file system

    Model of [Vfs_ram::File] and [Vfs_ram::Symlink] of
    [src/repos/os/src/lib/vfs/ram_file_system.h], with the dimensions of
    [src/repos/os/include/ram_fs/param.h].  A file is a length and a chunk; what it needs
    of the chunk is the interface of [Chunk], and the three levels of tables over blocks
    that the code uses are an instance of it. *)

From S2P Require Import Prelude Chunk.

Open Scope Z_scope.
Open Scope word_scope.

(** ** Dimensions, on a 64-bit machine *)

Definition num_level_0_entries : Z := 128.
Definition num_level_1_entries : Z := num_level_0_entries.
Definition num_level_2_entries : Z := 128.
Definition num_level_3_entries : Z := 4096.

Section Levels.
Context {A : Type} `{Allocator A}.

Abbreviation Chunk_level_3 := Chunk.t.
Abbreviation Chunk_level_2 := (Chunk_index.t Chunk_level_3).
Abbreviation Chunk_level_1 := (Chunk_index.t Chunk_level_2).
Abbreviation Chunk_level_0 := (Chunk_index.t Chunk_level_1).

Definition level_3_entry : Chunk_entry A Chunk_level_3 := Chunk.chunk_entry num_level_3_entries.
Definition level_2_entry : Chunk_entry A Chunk_level_2 :=
  Chunk_index.index_entry (H0 := level_3_entry) num_level_2_entries.
Definition level_1_entry : Chunk_entry A Chunk_level_1 :=
  Chunk_index.index_entry (H0 := level_2_entry) num_level_1_entries.
Definition level_0_entry : Chunk_entry A Chunk_level_0 :=
  Chunk_index.index_entry (H0 := level_1_entry) num_level_0_entries.

Definition level_3_laws : Chunk_laws A Chunk_level_3 (H0 := level_3_entry) :=
  leaf_laws num_level_3_entries ltac:(by vm_compute).
Definition level_2_laws : Chunk_laws A Chunk_level_2 (H0 := level_2_entry) :=
  table_laws (CL := level_3_laws) num_level_2_entries ltac:(by vm_compute) ltac:(by vm_compute).
Definition level_1_laws : Chunk_laws A Chunk_level_1 (H0 := level_1_entry) :=
  table_laws (CL := level_2_laws) num_level_1_entries ltac:(by vm_compute) ltac:(by vm_compute).
Definition level_0_laws : Chunk_laws A Chunk_level_0 (H0 := level_0_entry) :=
  table_laws (CL := level_1_laws) num_level_0_entries ltac:(by vm_compute) ltac:(by vm_compute).
End Levels.

(** ** [File] *)

Module File.

Record t (E : Type) := Mk { _chunk : E; _length : Z }.
Arguments Mk {E} _ _.
Arguments _chunk {E} _.
Arguments _length {E} _.

Section Operations.
Context {A E : Type} `{Chunk_entry A E}.

(** The seek offset that stands for the end of the file. *)
Definition SEEK_END : Z := ~64 0.

Definition new : t E := Mk (construct 0) 0.

(** The number of bytes and the bytes themselves; a byte range of the chunk that is out
    of range throws. *)
Definition read_file (num_bytes seek : Z) (f : t E) : result error (Z * list Z) :=
  let chunk_used_size := used_size (_chunk f) in
  if _length f <=? seek then Ok (0, [])
  else
    let len := if _length f <=? seek +64 num_bytes
               then _length f -64 Z.min (_length f) seek else num_bytes in
    let read_len :=
      if chunk_used_size <? seek +64 len then
        if seek <=? chunk_used_size then chunk_used_size -64 seek else 0
      else len in
    data ← read read_len seek (_chunk f);
    Ok (len, data ++ if read_len <? num_bytes then replicate (Z.to_nat (len -64 read_len)) 0 else []).

Definition on_chunk {R} (m : exc (E * A) error R) : exc (t E * A) error R := fun s =>
  let '(r, (e, a)) := m (_chunk s.1, s.2) in (r, (Mk e (_length s.1), a)).

Definition write_file (src : list Z) (seek : Z) : exc (t E * A) error Z :=
  '(f, _) ← get_state;
  let num_bytes := Z.of_nat (length src) in
  let at_ := if seek =? SEEK_END then used_size (_chunk f) else seek in
  let len := if SIZE (E := E) <=? at_ +64 num_bytes then SIZE (E := E) -64 at_ +64 num_bytes else num_bytes in
  catch
    (_ ← on_chunk (write src at_);
     _ ← modify (fun s => (Mk (_chunk s.1) (Z.max (_length s.1) (at_ +64 len)), s.2));
     mret len)
    (fun e => match e with Out_of_memory => mret 0 | _ => throw e end).

Definition truncate_file (size : Z) : exc (t E * A) error unit :=
  '(f, _) ← get_state;
  _ ← (if size <? used_size (_chunk f) then on_chunk (truncate size) else mret tt);
  modify (fun s => (Mk (_chunk s.1) size, s.2)).

End Operations.
End File.

(** ** [Symlink] *)

Definition MAX_PATH_LEN : Z := 512.

Module Symlink.

Record t := Mk { _target : list Z; _len : Z }.

Definition new : t := Mk (replicate (Z.to_nat MAX_PATH_LEN) 0) 0.

Definition read_link (num_bytes : Z) (l : t) : Z * list Z :=
  let out_count := Z.min num_bytes (_len l) in
  (out_count, take (Z.to_nat out_count) (_target l)).

(** The number of characters with the first terminating zero, or all. *)
Fixpoint used_len (src : list Z) : Z :=
  match src with
  | [] => 0
  | c :: src => if c =? 0 then 1 else 1 + used_len src
  end.

Definition write_link (src : list Z) (l : t) : Z * t :=
  if MAX_PATH_LEN <? Z.of_nat (length src) then (0, l)
  else
    let len := used_len src in
    (len, Mk (list_inserts 0 (take (Z.to_nat len) src) (_target l)) len).

End Symlink.

(** ** The contents of a file *)

Section Contents.
Context {A E : Type} `{CL : Chunk_laws A E}.

Abbreviation t := (File.t E).
Abbreviation chunk f := (File._chunk f).
Abbreviation len f := (File._length f).
Abbreviation CAP := (SIZE (E := E)).

(** The byte at [i]: beyond the used part of the chunk, and beyond the end, there are
    zeros. *)
Definition byte_at (f : t) (i : Z) : Z := get (chunk f) i.

(** The chunk of a file, and its length. *)
Record file_wf (f : t) : Prop := {
  file_chunk : ok (chunk f) ∧ base_offset (chunk f) = 0;
  file_len : is_u64 (len f) }.

(** A file no write of which has failed since its last truncation: everything behind the
    end is zero. *)
Definition file_ok (f : t) : Prop := file_wf f ∧ used_size (chunk f) ≤ len f.

Lemma new_file_ok : file_ok File.new ∧ (∀ i, byte_at File.new i = 0) ∧ len (File.new : t) = 0.
Proof.
  pose proof size_pos as [? ?]. destruct (construct_law 0) as (Hok & Hb & Hu & Hg); [lia|lia|].
  split_and!; [|done|done]. split; [constructor|]; simpl; [done|word_lia|lia].
Qed.

Lemma file_read f n seek :
  file_wf f → len f ≤ CAP → is_u64 seek → 0 ≤ n → seek + n < 2 ^ 64 →
  File.read_file n seek f =
    let m := Z.max 0 (Z.min n (len f - seek)) in Ok (m, bytes (byte_at f) seek m).
Proof.
  intros [[Hok Hb] Hlen] Hcap Hseek Hn Hsum. pose proof size_pos as [Hs1 Hs2].
  destruct (used_law _ Hok) as [Hub Hzero]. unfold File.read_file.
  destruct (Z.leb_spec (len f) seek) as [Hend|Hin]; [by rewrite Z.max_l by lia|].
  rewrite Z.max_r by lia. cbn zeta. rewrite (wrap_small 64 (seek + n)) by word_lia.
  assert ((if len f <=? seek + n then len f -64 Z.min (len f) seek else n) = Z.min n (len f - seek)) as ->.
  { destruct (Z.leb_spec (len f) (seek + n)); [|lia]. rewrite wrap_small by word_lia. lia. }
  set (m := Z.min n (len f - seek)). assert (0 ≤ m ∧ seek + m ≤ len f ∧ m ≤ n) by lia.
  rewrite (wrap_small 64 (seek + m)) by word_lia.
  set (u := used_size (chunk f)) in *.
  assert (∃ k, (if u <? seek + m then if seek <=? u then u -64 seek else 0 else m) = k ∧
    0 ≤ k ≤ m ∧ (k < m → u ≤ seek + k)) as (k & -> & Hk & Hku).
  { eexists. split; [done|]. destruct (Z.ltb_spec u (seek + m)), (Z.leb_spec seek u); rewrite ?wrap_small by word_lia; lia. }
  assert (read k seek (chunk f) = Ok (bytes (byte_at f) seek k)) as ->.
  { rewrite read_law by (done || (unfold inside; rewrite Hb; word_lia)). by rewrite Hb, Z.sub_0_r. }
  cbn [mbind result_bind]. f_equal. f_equal. rewrite wrap_small by word_lia.
  replace m with (k + (m - k)) at 2 by lia. rewrite bytes_app by lia. f_equal.
  rewrite bytes_zero by (intros j Hj; apply Hzero; lia).
  destruct (Z.ltb_spec k n); [done|]. by replace (Z.to_nat (m - k)) with 0%nat by lia.
Qed.

(** A write: all bytes, or an allocation failed and every byte is as before or as it was
    to be.  Only the exhaustion of memory is caught. *)
Lemma file_write f a src seek :
  file_wf f → is_u64 seek → seek ≠ File.SEEK_END → seek + Z.of_nat (length src) < CAP →
  let '(r, (f', a')) := File.write_file src seek (f, a) in
  file_wf f' ∧
  ((r = Ok (Z.of_nat (length src)) ∧ (file_ok f → file_ok f') ∧
      (∀ i, 0 ≤ i → byte_at f' i = overlay seek src (byte_at f) i) ∧
      len f' = Z.max (len f) (seek + Z.of_nat (length src))) ∨
   ((r = Ok 0 ∨ r = Err Out_of_caps ∨ r = Err Denied) ∧ len f' = len f ∧
      ∀ i, 0 ≤ i → byte_at f' i = byte_at f i ∨ byte_at f' i = overlay seek src (byte_at f) i)).
Proof.
  intros [[Hok Hb] Hlen] Hseek Hend Hfit. pose proof size_pos as [Hs1 Hs2].
  destruct (used_law _ Hok) as [Hub _].
  unfold File.write_file, get_state, mbind, exc_bind, catch, File.on_chunk. cbn [fst snd].
  apply Z.eqb_neq in Hend. rewrite Hend. rewrite (wrap_small 64 (seek + Z.of_nat (length src))) by word_lia.
  destruct (Z.leb_spec CAP (seek + Z.of_nat (length src))); [lia|].
  pose proof (write_law (chunk f) a src seek Hok) as Hw.
  ospecialize* Hw; [unfold inside; rewrite Hb; word_lia|].
  destruct (write src seek (chunk f, a)) as [r [e' a']]. destruct Hw as (Hok' & Hb' & Hr).
  rewrite Hb, Z.sub_0_r in Hr. rewrite Hb in Hb'. destruct r as [[]|er].
  - destruct Hr as (Hg & Hu & _). cbn. rewrite wrap_small by word_lia.
    split; [constructor; cbn; [done|word_lia]|]. left.
    split_and!; [done| |done|done]. intros [_ ?]. split; [constructor|]; cbn; [done|word_lia|lia].
  - destruct Hr as [[x ->] Hg]. destruct x; cbn; (split; [by constructor|]); right; auto.
Qed.

(** A truncation; it restores the zeros behind the end. *)
Lemma file_truncate f a size :
  file_wf f → is_u64 size →
  ∃ f' a', File.truncate_file size (f, a) = (Ok tt, (f', a')) ∧ file_ok f' ∧ len f' = size ∧
    ∀ i, 0 ≤ i → byte_at f' i = if i <? size then byte_at f i else 0.
Proof.
  intros [[Hok Hb] Hlen] Hsize. destruct (used_law _ Hok) as [Hub Hzero].
  unfold File.truncate_file, get_state, mbind, exc_bind, File.on_chunk. cbn [fst snd].
  destruct (Z.ltb_spec size (used_size (chunk f))).
  - destruct (truncate_law (chunk f) a size Hok) as (e' & a' & Ht & Hok' & Hb' & Hg & Hu & Hu'); [rewrite Hb; word_lia|].
    cbn [fst snd]. rewrite Ht. eexists _, _. split; [done|]. cbn. rewrite Hb, Z.sub_0_r in Hg, Hu'.
    split_and!; [|done|done]. split; [constructor|]; cbn; [by rewrite Hb', Hb|done|lia].
  - eexists _, _. split; [done|]. cbn. split_and!; [split; [by constructor|done]|done|].
    intros i Hi. unfold byte_at. cbn. destruct (Z.ltb_spec i size); [done|]. apply Hzero. lia.
Qed.

(** *** Files as lists of bytes *)

Definition abs (f : t) : list Z := bytes (byte_at f) 0 (len f).

Definition spec_read (n seek : Z) (l : list Z) : list Z := take (Z.to_nat n) (drop (Z.to_nat seek) l).

Definition spec_write (src : list Z) (seek : Z) (l : list Z) : list Z :=
  list_inserts (Z.to_nat seek) src (resize (Nat.max (length l) (Z.to_nat seek + length src)) 0 l).

Definition spec_truncate (n : Z) (l : list Z) : list Z := resize (Z.to_nat n) 0 l.

Lemma bytes_lookup g off n k : 0 ≤ n →
  bytes g off n !! k = if decide (Z.of_nat k < n) then Some (g (off + Z.of_nat k)) else None.
Proof.
  intros Hn. unfold bytes. rewrite list_lookup_fmap. case_decide.
  - rewrite lookup_seqZ_lt by lia. by rewrite Z.add_0_l.
  - by rewrite lookup_seqZ_ge by lia.
Qed.

Lemma abs_lookup f k : file_wf f →
  abs f !! k = if decide (Z.of_nat k < len f) then Some (byte_at f (Z.of_nat k)) else None.
Proof. intros [_ Hlen]. unfold abs. rewrite bytes_lookup by word_lia. done. Qed.

Lemma abs_length f : file_wf f → Z.of_nat (length (abs f)) = len f.
Proof. intros [_ Hlen]. unfold abs. apply length_bytes. word_lia. Qed.

Lemma byte_at_end f i : file_ok f → len f ≤ i → byte_at f i = 0.
Proof. intros [[[Hok _] _] Hu] Hi. apply used_law; [done|lia]. Qed.

(** Up to [n], the bytes that the list padded with zeros has are those of the file. *)
Definition padded (f : t) (n : Z) : Prop := n ≤ len f ∨ file_ok f.

Lemma abs_resize f n k : file_wf f → padded f (Z.of_nat k + 1) → (k < n)%nat →
  resize n 0 (abs f) !! k = Some (byte_at f (Z.of_nat k)).
Proof.
  intros Hf Hp Hk. pose proof (abs_length f Hf) as Hl. destruct (decide (k < length (abs f))%nat).
  - rewrite lookup_resize, abs_lookup, decide_True by (done || lia). done.
  - destruct Hp as [?|Hp]; [lia|]. rewrite lookup_resize_new by lia. by rewrite byte_at_end by (done || lia).
Qed.

Lemma abs_read f n seek : file_wf f → 0 ≤ n → 0 ≤ seek →
  spec_read n seek (abs f) = bytes (byte_at f) seek (Z.max 0 (Z.min n (len f - seek))).
Proof.
  intros Hf Hn Hs. pose proof (file_len f Hf). apply list_eq. intros k. unfold spec_read.
  rewrite bytes_lookup by lia. case_decide.
  - rewrite lookup_take_lt, lookup_drop, abs_lookup by (done || lia). rewrite decide_True by lia. do 2 f_equal. lia.
  - destruct (decide (k < Z.to_nat n)%nat).
    + rewrite lookup_take_lt, lookup_drop, abs_lookup by (done || lia). by rewrite decide_False by lia.
    + by rewrite lookup_take_ge by lia.
Qed.

(** The bytes of the list after a write, one by one. *)
Lemma spec_write_lookup f src seek k : file_wf f → padded f seek → 0 ≤ seek →
  spec_write src seek (abs f) !! k =
    if decide (Z.of_nat k < Z.max (len f) (seek + Z.of_nat (length src)))
    then Some (overlay seek src (byte_at f) (Z.of_nat k)) else None.
Proof.
  intros Hf Hp Hs. pose proof (abs_length f Hf). unfold spec_write. set (n := Nat.max _ _).
  assert (∀ j, Z.of_nat j < seek ∨ seek + Z.of_nat (length src) ≤ Z.of_nat j → (j < n)%nat →
    padded f (Z.of_nat j + 1)) as Hpad.
  { intros j Hj Hn. destruct Hp as [Hp|?]; [|by right]. left. lia. }
  case_decide as Hk.
  - unfold overlay. destruct (Z.leb_spec seek (Z.of_nat k)); simpl.
    + destruct (Z.ltb_spec (Z.of_nat k) (seek + Z.of_nat (length src))).
      * rewrite list_lookup_inserts by (rewrite ?length_resize; lia).
        replace (Z.to_nat (Z.of_nat k - seek)) with (k - Z.to_nat seek)%nat by lia.
        destruct (lookup_lt_is_Some_2 src (k - Z.to_nat seek)) as [x ->]; [lia|done].
      * rewrite list_lookup_inserts_ge by lia. apply abs_resize; [done|apply Hpad|]; lia.
    + rewrite list_lookup_inserts_lt by lia. apply abs_resize; [done|apply Hpad|]; lia.
  - apply lookup_ge_None. rewrite length_inserts, length_resize. lia.
Qed.

Lemma abs_write f f' src seek : file_wf f → file_wf f' → padded f seek → 0 ≤ seek →
  (∀ i, 0 ≤ i → byte_at f' i = overlay seek src (byte_at f) i) →
  len f' = Z.max (len f) (seek + Z.of_nat (length src)) →
  abs f' = spec_write src seek (abs f).
Proof.
  intros Hf Hf' Hp Hs Hg Hl. apply list_eq. intros k.
  rewrite abs_lookup, spec_write_lookup, Hl by done. case_decide; [|done]. by rewrite Hg by lia.
Qed.

(** After a write that failed, each byte of the list is the old one or the new one. *)
Definition torn (src : list Z) (seek : Z) (l l' : list Z) : Prop :=
  length l' = length l ∧
  ∀ k, (k < length l)%nat → l' !! k = l !! k ∨ l' !! k = spec_write src seek l !! k.

Lemma abs_torn f f' src seek : file_wf f → file_wf f' → 0 ≤ seek → len f' = len f →
  (∀ i, 0 ≤ i → byte_at f' i = byte_at f i ∨ byte_at f' i = overlay seek src (byte_at f) i) →
  torn src seek (abs f) (abs f').
Proof.
  intros Hf Hf' Hs Hl Hg. pose proof (abs_length f Hf). pose proof (abs_length f' Hf').
  split; [lia|]. intros k Hk. rewrite !abs_lookup, !decide_True by (done || lia).
  destruct (Hg (Z.of_nat k)) as [->|Eb]; [lia|by left|].
  destruct (decide (seek ≤ len f)) as [Hle|Hgt].
  - right. rewrite spec_write_lookup, decide_True by (done || lia || by left). by rewrite Eb.
  - left. rewrite Eb. unfold overlay. destruct (Z.leb_spec seek (Z.of_nat k)); [lia|done].
Qed.

Lemma abs_truncate f f' size : file_wf f → file_wf f' → padded f size → 0 ≤ size →
  (∀ i, 0 ≤ i → byte_at f' i = if i <? size then byte_at f i else 0) → len f' = size →
  abs f' = spec_truncate size (abs f).
Proof.
  intros Hf Hf' Hp Hs Hg Hl. apply list_eq. intros k. rewrite abs_lookup by done. unfold spec_truncate. case_decide.
  - rewrite Hg by lia. destruct (Z.ltb_spec (Z.of_nat k) size); [|lia]. symmetry. apply abs_resize; [done| |lia].
    destruct Hp; [left; lia|by right].
  - symmetry. apply lookup_ge_None. rewrite length_resize. lia.
Qed.

(** C24: a file of at most the capacity refines a list of bytes.  Reading returns the
    bytes of the list from the seek offset on, cut at its end, with holes as zeros, also
    after a write has failed.  A write below the capacity, of no byte too, at a given
    offset replaces the bytes in place and extends the list, a gap filled with zeros; or
    it reports 0 bytes as memory ran out, or lets the exception for missing capabilities
    or a denied allocation escape, and then the length is the same and each byte is the
    old one or the one that was to be written.  Truncating never fails and cuts the list
    or extends it by zeros.  Writing into a gap and extending presume that nothing is
    left behind the end: that holds for a new file and after every truncation, and only a
    failed write ends it; all else holds for any file. *)
Theorem file_refines_bytes f a :
  file_wf f → len f ≤ CAP →
  (∀ n seek, is_u64 seek → 0 ≤ n → seek + n < 2 ^ 64 →
    File.read_file n seek f =
      Ok (Z.of_nat (length (spec_read n seek (abs f))), spec_read n seek (abs f))) ∧
  (∀ src seek, 0 ≤ seek → seek + Z.of_nat (length src) < CAP →
    ∃ r f' a', File.write_file src seek (f, a) = (r, (f', a')) ∧ file_wf f' ∧ len f' ≤ CAP ∧
      (r = Ok (Z.of_nat (length src)) ∧ (file_ok f → file_ok f') ∧
         (padded f seek → abs f' = spec_write src seek (abs f)) ∨
       (r = Ok 0 ∨ r = Err Out_of_caps ∨ r = Err Denied) ∧ torn src seek (abs f) (abs f'))) ∧
  (∀ size, 0 ≤ size ≤ CAP →
    ∃ f' a', File.truncate_file size (f, a) = (Ok tt, (f', a')) ∧
      file_ok f' ∧ len f' ≤ CAP ∧ (padded f size → abs f' = spec_truncate size (abs f))).
Proof.
  intros Hf Hcap. pose proof size_pos as [Hs1 Hs2]. pose proof (file_len f Hf). split_and!.
  - intros n seek Hseek Hn Hsum. rewrite file_read by done.
    rewrite abs_read by (done || word_lia). by rewrite length_bytes by lia.
  - intros src seek Hseek Hfit.
    assert (seek ≠ File.SEEK_END) as Hend by (change File.SEEK_END with (2 ^ 64 - 1); lia).
    pose proof (file_write f a src seek Hf ltac:(word_lia) Hend Hfit) as Hw.
    destruct (File.write_file src seek (f, a)) as [r [f' a']].
    destruct Hw as (Hf' & [(-> & Hk & Hg & Hl)|(Hr & Hl & Hg)]).
    + exists (Ok (Z.of_nat (length src))), f', a'. split_and!; [done|done|lia|left].
      split_and!; [done|done|]. intros Hp. by apply abs_write.
    + exists r, f', a'. split_and!; [done|done|lia|right]. split; [done|by apply abs_torn].
  - intros size Hsize. destruct (file_truncate f a size Hf) as (f' & a' & Ht & [Hf' Hu] & Hl & Hg); [word_lia|].
    exists f', a'. split_and!; [done|done|lia|]. intros Hp. apply abs_truncate; done || lia.
Qed.

End Contents.

(** ** The files of the file system *)

#[local] Instance counter_allocator : Allocator nat := {
  alloc n := match n with O => Err OUT_OF_RAM | S n => Ok n end;
  free := S }.

#[local] Instance file_entry : Chunk_entry nat _ := level_0_entry.
#[local] Instance file_laws : Chunk_laws nat _ := level_0_laws.

Abbreviation file := (File.t (Chunk_index.t (Chunk_index.t (Chunk_index.t Chunk.t)))).

Theorem file_refines_bytes_witness :
  file_wf (File.new : file) ∧ File._length (File.new : file) ≤ SIZE (E := Chunk_index.t (Chunk_index.t (Chunk_index.t Chunk.t))) ∧
  ∃ r f' a', File.write_file [1; 2; 3] 5 (File.new : file, 100%nat) = (r, (f', a')).
Proof.
  destruct (new_file_ok (CL := file_laws)) as [[Hok _] _].
  assert (File._length (File.new : file) ≤ SIZE (E := Chunk_index.t (Chunk_index.t (Chunk_index.t Chunk.t)))) as Hlen
    by (by vm_compute).
  split; [exact Hok|]. split; [exact Hlen|].
  destruct (file_refines_bytes (CL := file_laws) File.new 100%nat Hok Hlen) as (_ & Hw & _).
  destruct (Hw [1; 2; 3] 5) as (r & f' & a' & Hr & _); [lia|by vm_compute|].
  exists r, f', a'. exact Hr.
Defined.

(** The capacity of a file is 8 GiB. *)
Example file_capacity : SIZE (E := Chunk_index.t (Chunk_index.t (Chunk_index.t Chunk.t))) = 2 ^ 33.
Proof. reflexivity. Qed.

(** *** What goes wrong at the borders *)

(** The result and the length after a write. *)
Definition after_write (r : result error Z * (file * nat)) : result error Z * Z :=
  (r.1, File._length r.2.1).

(** A write of one byte that ends at the capacity reports two bytes and makes the file
    longer than it can be. *)
Lemma write_at_capacity :
  after_write (File.write_file [7] (2 ^ 33 - 1) (File.new, 10%nat)) = (Ok 2, 2 ^ 33 + 1).
Proof. vm_compute. done. Qed.

(** A write beyond the capacity is not shortened but throws. *)
Lemma write_beyond_capacity :
  (File.write_file [7; 8] (2 ^ 33 - 1) (File.new : file, 10%nat)).1 = Err Index_out_of_range.
Proof. vm_compute. done. Qed.

(** A file that was extended by truncation is appended to behind its last written byte
    instead of its end. *)
Lemma append_after_extension :
  let '(_, s) := File.truncate_file 100 (File.new : file, 10%nat) in
  let '(r, (f, _)) := File.write_file [7] File.SEEK_END s in
  r = Ok 1 ∧ File._length f = 100 ∧ File.read_file 1 0 f = Ok (1, [7]) ∧ File.read_file 1 99 f = Ok (1, [0]).
Proof. vm_compute. done. Qed.

(** A file can be truncated to more than the capacity; reading there throws. *)
Lemma read_beyond_capacity :
  let '(_, (f, _)) := File.truncate_file (2 ^ 34) (File.new : file, 10%nat) in
  File.read_file 1 (2 ^ 33 + 1) f = Err Index_out_of_range.
Proof. vm_compute. done. Qed.

(** A write that runs out of memory reports no byte written, yet its first bytes appear
    in the file as soon as it is extended. *)
Lemma failed_write_leaves_bytes :
  let '(r, s) := File.write_file (replicate 4097 7) 0 (File.new : file, 3%nat) in
  let '(_, (f, _)) := File.truncate_file 4 s in
  r = Ok 0 ∧ File._length s.1 = 0 ∧ File.read_file 4 0 f = Ok (4, [7; 7; 7; 7]).
Proof. vm_compute. done. Qed.

(** Only the lack of memory is caught: with no capabilities left, a write throws. *)
Definition exhausted_allocator : Allocator unit := {| alloc _ := Err OUT_OF_CAPS; free a := a |}.

Lemma write_throws_out_of_caps :
  (File.write_file (H := level_0_entry (H := exhausted_allocator)) [7] 0
    (File.new (H := level_0_entry (H := exhausted_allocator)), tt)).1 = Err Out_of_caps.
Proof. vm_compute. done. Qed.

(** ** Symbolic links *)

Lemma used_len_bounds src : 0 ≤ Symlink.used_len src ≤ Z.of_nat (length src).
Proof. induction src as [|c src IH]; simpl; [lia|]. case_match; lia. Qed.

(** Reading a link gives back what was written: the target up to and including its
    first zero, or all of it, cut at the size of the reader's buffer; a target that is
    longer than the buffer of the link is refused and leaves the link as it was. *)
Theorem symlink_roundtrip src l num_bytes :
  Z.of_nat (length (Symlink._target l)) = MAX_PATH_LEN → 0 ≤ num_bytes →
  let '(n, l') := Symlink.write_link src l in
  if MAX_PATH_LEN <? Z.of_nat (length src) then n = 0 ∧ l' = l
  else
    n = Symlink.used_len src ∧ Z.of_nat (length (Symlink._target l')) = MAX_PATH_LEN ∧
    Symlink.read_link num_bytes l' = (Z.min num_bytes n, take (Z.to_nat (Z.min num_bytes n)) src).
Proof.
  intros Hl Hn. unfold Symlink.write_link. destruct (Z.ltb_spec MAX_PATH_LEN (Z.of_nat (length src))); [done|].
  pose proof (used_len_bounds src). split_and!; [done|cbn; by rewrite length_inserts|].
  unfold Symlink.read_link. cbn [Symlink._len Symlink._target]. f_equal.
  set (m := Symlink.used_len src) in *. apply list_eq. intros k.
  destruct (decide (k < Z.to_nat (Z.min num_bytes m))%nat).
  - rewrite !lookup_take_lt by done. rewrite list_lookup_inserts by (rewrite ?length_take; lia).
    rewrite Nat.sub_0_r. by rewrite lookup_take_lt by lia.
  - by rewrite !lookup_take_ge by lia.
Qed.

Theorem symlink_roundtrip_witness :
  Z.of_nat (length (Symlink._target Symlink.new)) = MAX_PATH_LEN ∧
  let '(n, l') := Symlink.write_link [97; 98; 0; 99] Symlink.new in
  n = 3 ∧ Z.of_nat (length (Symlink._target l')) = MAX_PATH_LEN ∧ Symlink.read_link 2 l' = (2, [97; 98]).
Proof.
  assert (Z.of_nat (length (Symlink._target Symlink.new)) = MAX_PATH_LEN) as Hl by reflexivity.
  split; [exact Hl|]. apply (symlink_roundtrip [97; 98; 0; 99] Symlink.new 2 Hl). lia.
Defined.
