(* ===== verification/Ram_fs.v ===== *)
(** * Ram_fs: the RAM file system

    Model of [Vfs_ram::Node], [Vfs_ram::Directory] and [Vfs::Ram_file_system] of
    [src/repos/os/src/lib/vfs/ram_file_system.h].  Nodes and handles are objects in
    stores, addressed by integers; a directory holds its entries in an [Avl_tree], ordered
    by name.  Accessing an object that was destroyed gives [Wild_access].  Whether the
    allocation of a handle succeeds is an argument of the operations that create one.
    The responses of watch handles are collected in a list.  [dataspace] and [release],
    which hand out RAM dataspaces, are not modelled. *)

From S2P Require Import Prelude Avl_tree Cstring Chunk Ram_file.

Open Scope Z_scope.
Open Scope word_scope.

Definition MAX_NAME_LEN : Z := 128.
Definition ch_slash : Z := 47.

(** The base name of a path: what follows the last slash. *)
Fixpoint basename_loop (path start : list Z) : list Z :=
  match path with
  | [] => start
  | c :: path => if c =? 0 then start else basename_loop path (if c =? ch_slash then path else start)
  end.

Definition basename (path : list Z) : list Z := basename_loop path path.

(** ** Nodes and handles *)

Inductive content (E : Type) :=
  | CONTINUOUS_FILE (f : File.t E)
  | DIRECTORY (_entries : tree Z) (_count : Z)
  | SYMLINK (l : Symlink.t).
Arguments CONTINUOUS_FILE {E} f.
Arguments DIRECTORY {E} _entries _count.
Arguments SYMLINK {E} l.

(** [_avl_depth] is the depth stored in the AVL node while it is in no tree. *)
Record node (E : Type) := Node_ {
  _name : list Z; inode : Z; _io_handles : list Z; _watch_handles : list Z;
  _modification_time : Z; _avl_depth : Z; _content : content E }.
Arguments Node_ {E} _ _ _ _ _ _ _.
Arguments _name {E} _.
Arguments inode {E} _.
Arguments _io_handles {E} _.
Arguments _watch_handles {E} _.
Arguments _modification_time {E} _.
Arguments _avl_depth {E} _.
Arguments _content {E} _.

Record io_handle := Io_handle { h_node : Z; modifying : bool; status_flags : Z; seek : Z }.

Record state (A E : Type) := State {
  nodes : gmap Z (node E); next_node : Z; inode_count : Z;
  handles : gmap Z io_handle; watches : gmap Z Z; next_handle : Z;
  allocator : A; responses : list Z }.
Arguments State {A E} _ _ _ _ _ _ _ _.
Arguments nodes {A E} _.
Arguments next_node {A E} _.
Arguments inode_count {A E} _.
Arguments handles {A E} _.
Arguments watches {A E} _.
Arguments next_handle {A E} _.
Arguments allocator {A E} _.
Arguments responses {A E} _.

(** [_root] is part of the file system and is never destroyed. *)
Definition ROOT : Z := 0.

(** The outcome of the allocation of a handle. *)
Inductive handle_alloc := HANDLE_OK | HANDLE_ERR (e : Alloc_error).

(** The results of the directory and file services; the ones this file system never returns included.
    A success carries what the operation stores in its output arguments. *)
Inductive Open_result := OPEN_ERR_UNACCESSIBLE | OPEN_ERR_NO_PERM | OPEN_ERR_EXISTS | OPEN_ERR_NAME_TOO_LONG
  | OPEN_ERR_NO_SPACE | OPEN_ERR_OUT_OF_RAM | OPEN_ERR_OUT_OF_CAPS | OPEN_OK (h : Z).
Inductive Opendir_result := OPENDIR_ERR_LOOKUP_FAILED | OPENDIR_ERR_NAME_TOO_LONG
  | OPENDIR_ERR_NODE_ALREADY_EXISTS | OPENDIR_ERR_NO_SPACE | OPENDIR_ERR_OUT_OF_RAM
  | OPENDIR_ERR_OUT_OF_CAPS | OPENDIR_ERR_PERMISSION_DENIED | OPENDIR_OK (h : Z).
Inductive Openlink_result := OPENLINK_ERR_LOOKUP_FAILED | OPENLINK_ERR_NAME_TOO_LONG
  | OPENLINK_ERR_NODE_ALREADY_EXISTS | OPENLINK_ERR_NO_SPACE | OPENLINK_ERR_OUT_OF_RAM
  | OPENLINK_ERR_OUT_OF_CAPS | OPENLINK_ERR_PERMISSION_DENIED | OPENLINK_OK (h : Z).
Inductive Watch_result := WATCH_ERR_UNACCESSIBLE | WATCH_ERR_STATIC | WATCH_ERR_OUT_OF_RAM
  | WATCH_ERR_OUT_OF_CAPS | WATCH_OK (h : Z).
Inductive Rename_result := RENAME_ERR_NO_ENTRY | RENAME_ERR_CROSS_FS | RENAME_ERR_NO_PERM | RENAME_OK.
Inductive Unlink_result := UNLINK_ERR_NO_ENTRY | UNLINK_ERR_NO_PERM | UNLINK_ERR_NOT_EMPTY | UNLINK_OK.
Inductive Write_result := WRITE_ERR_WOULD_BLOCK | WRITE_ERR_INVALID | WRITE_ERR_IO | WRITE_OK (out : Z).
Inductive Ftruncate_result := FTRUNCATE_ERR_NO_PERM | FTRUNCATE_ERR_INTERRUPT | FTRUNCATE_ERR_NO_SPACE | FTRUNCATE_OK.
Inductive Sync_result := SYNC_QUEUED | SYNC_ERR_INVALID | SYNC_OK.
Inductive Dirent_type := DIRENT_END | DIRENT_DIRECTORY | DIRENT_SYMLINK | DIRENT_CONTINUOUS_FILE
  | DIRENT_TRANSACTIONAL_FILE.
Record Dirent := { fileno : Z; dirent_type : Dirent_type; dirent_name : list Z }.
Inductive Read_result := READ_ERR_WOULD_BLOCK | READ_ERR_INVALID | READ_ERR_IO | READ_QUEUED
  | READ_OK (out : Z) (dst : list Z) | READ_DIRENT (d : Dirent).
Inductive Node_type := TYPE_DIRECTORY | TYPE_SYMLINK | TYPE_CONTINUOUS_FILE | TYPE_TRANSACTIONAL_FILE.
(** Without the access rights, which are always granted, and the address of the file system. *)
Record Stat := { size : Z; type : Node_type; st_inode : Z; modification_time : Z }.

(** The bits of the open mode. *)
Definition OPEN_MODE_RDONLY : Z := 0.
Definition OPEN_MODE_ACCMODE : Z := 3.
Definition OPEN_MODE_CREATE : Z := 2048.
Definition STATUS_RDONLY : Z := 0.
Definition STATUS_RDWR : Z := 2.

(** The size of a [Dirent]: a number, a type, three flags, and the name, aligned. *)
Definition SIZEOF_DIRENT : Z := 144.

Section Operations.
Context {A E : Type} `{Allocator A} `{Chunk_entry A E}.

Abbreviation M := (exc (state A E) error).

(** *** Access to the stores *)

Definition with_nodes (f : gmap Z (node E) → gmap Z (node E)) (s : state A E) : state A E :=
  State (f (nodes s)) (next_node s) (inode_count s) (handles s) (watches s) (next_handle s) (allocator s) (responses s).

Definition with_handles (f : gmap Z io_handle → gmap Z io_handle) (s : state A E) : state A E :=
  State (nodes s) (next_node s) (inode_count s) (f (handles s)) (watches s) (next_handle s) (allocator s) (responses s).

Definition with_watches (f : gmap Z Z → gmap Z Z) (s : state A E) : state A E :=
  State (nodes s) (next_node s) (inode_count s) (handles s) (f (watches s)) (next_handle s) (allocator s) (responses s).

Definition with_allocator (a : A) (s : state A E) : state A E :=
  State (nodes s) (next_node s) (inode_count s) (handles s) (watches s) (next_handle s) a (responses s).

Definition get_node (n : Z) : M (node E) := fun s =>
  match nodes s !! n with Some x => (Ok x, s) | None => (Err Wild_access, s) end.

Definition set_node (n : Z) (x : node E) : M unit := modify (with_nodes <[n := x]>).

Definition set_content (c : content E) (x : node E) : node E :=
  Node_ (_name x) (inode x) (_io_handles x) (_watch_handles x) (_modification_time x) (_avl_depth x) c.
Definition set_name (name : list Z) (x : node E) : node E :=
  Node_ name (inode x) (_io_handles x) (_watch_handles x) (_modification_time x) (_avl_depth x) (_content x).
Definition set_inode (i : Z) (x : node E) : node E :=
  Node_ (_name x) i (_io_handles x) (_watch_handles x) (_modification_time x) (_avl_depth x) (_content x).
Definition set_io_handles (l : list Z) (x : node E) : node E :=
  Node_ (_name x) (inode x) l (_watch_handles x) (_modification_time x) (_avl_depth x) (_content x).
Definition set_watch_handles (l : list Z) (x : node E) : node E :=
  Node_ (_name x) (inode x) (_io_handles x) l (_modification_time x) (_avl_depth x) (_content x).
Definition set_time (t : Z) (x : node E) : node E :=
  Node_ (_name x) (inode x) (_io_handles x) (_watch_handles x) t (_avl_depth x) (_content x).
Definition set_avl_depth (d : Z) (x : node E) : node E :=
  Node_ (_name x) (inode x) (_io_handles x) (_watch_handles x) (_modification_time x) d (_content x).

(** *** [Node] *)

(** [name]: the prefix that fits into the buffer. *)
Definition name_buffer (name : list Z) : list Z := take (Z.to_nat (MAX_NAME_LEN - 1)) (cstr name).

Definition name_of (ns : gmap Z (node E)) (n : Z) : list Z :=
  match ns !! n with Some x => _name x | None => [] end.

(** [n]->higher([c]) *)
Definition higher (ns : gmap Z (node E)) (n c : Z) : bool := 0 <? strcmp (name_of ns c) (name_of ns n) NO_LIMIT.

Definition opened (x : node E) : bool := negb (bool_decide (_io_handles x = [])).

Definition unlinked (x : node E) : bool := inode x =? 0.

Definition open_io (n h : Z) : M unit := x ← get_node n; set_node n (set_io_handles (h :: _io_handles x) x).
Definition close_io (n h : Z) : M unit := x ← get_node n; set_node n (set_io_handles (filter (.≠ h) (_io_handles x)) x).
Definition open_watch (n h : Z) : M unit := x ← get_node n; set_node n (set_watch_handles (h :: _watch_handles x) x).
Definition close_watch (n h : Z) : M unit := x ← get_node n; set_node n (set_watch_handles (filter (.≠ h) (_watch_handles x)) x).

(** Each watch handle of the node responds. *)
Definition notify (n : Z) : M unit :=
  x ← get_node n;
  modify (fun s => State (nodes s) (next_node s) (inode_count s) (handles s) (watches s)
                     (next_handle s) (allocator s) (responses s ++ _watch_handles x)).

(** [index]: the node found by walking the tree [i] times, or what is left of [i]. *)
Fixpoint index (t : tree Z) (i : nat) : option Z * nat :=
  match t with
  | Null => (None, i)
  | Node l x _ r =>
      match i with
      | O => (Some x, O)
      | S i =>
          match index l i with
          | (Some n, i) => (Some n, i)
          | (None, i) => index r i
          end
      end
  end.

Fixpoint sibling (ns : gmap Z (node E)) (name : list Z) (t : tree Z) : result error (option Z) :=
  match t with
  | Null => Ok None
  | Node l n _ r =>
      match ns !! n with
      | None => Err Wild_access
      | Some x =>
          if strcmp name (_name x) NO_LIMIT =? 0 then Ok (Some n)
          else if 0 <? strcmp name (_name x) NO_LIMIT then sibling ns name r else sibling ns name l
      end
  end.

(** *** [Directory] *)

Definition as_directory (x : node E) : option (tree Z * Z) :=
  match _content x with DIRECTORY t c => Some (t, c) | _ => None end.

(** The directory at an address that is known to be one. *)
Definition get_dir (n : Z) : M (tree Z * Z) :=
  x ← get_node n; match as_directory x with Some d => mret d | None => throw Wild_access end.

Definition child (dir : Z) (name : list Z) : M (option Z) :=
  '(t, _) ← get_dir dir;
  s ← get_state;
  check (sibling (nodes s) name t).

Definition adopt (dir n : Z) : M unit :=
  x ← get_node n;
  '(t, c) ← get_dir dir;
  s ← get_state;
  d ← get_node dir;
  set_node dir (set_content (DIRECTORY (insert (higher (nodes s)) n (_avl_depth x) t) (c +64 1)) d).

(** Detaching a node from the tree it is in. *)
Definition detach (dir n : Z) : M unit :=
  x ← get_node n;
  '(t, c) ← get_dir dir;
  match remove n t with
  | None => throw Wild_access
  | Some (t', d) =>
      y ← get_node dir;
      _ ← set_node dir (set_content (DIRECTORY t' c) y);
      x ← get_node n;
      set_node n (set_avl_depth d x)
  end.

Definition release_entry (dir n : Z) : M unit :=
  _ ← detach dir n;
  '(t, c) ← get_dir dir;
  y ← get_node dir;
  set_node dir (set_content (DIRECTORY t (c -64 1)) y).

Definition destroy_node (n : Z) : M unit :=
  x ← get_node n;
  modify (fun s =>
    let a := match _content x with CONTINUOUS_FILE f => destruct_entry (File._chunk f) (allocator s) | _ => allocator s end in
    with_nodes (base.delete n) (with_allocator (free a) s)).

(** [Directory::empty]; one unit of fuel per entry is enough. *)
Fixpoint empty_dir (fuel : nat) (dir : Z) : M unit :=
  match fuel with
  | O => throw Out_of_fuel
  | S fuel =>
      '(t, _) ← get_dir dir;
      match first t with
      | None => mret tt
      | Some n =>
          _ ← detach dir n;
          x ← get_node n;
          match _content x with
          | CONTINUOUS_FILE _ =>
              if opened x then empty_dir fuel dir
              else _ ← destroy_node n; empty_dir fuel dir
          | DIRECTORY _ _ => _ ← empty_dir fuel n; _ ← destroy_node n; empty_dir fuel dir
          | SYMLINK _ => _ ← destroy_node n; empty_dir fuel dir
          end
      end
  end.

(** *** [Ram_file_system]: looking up *)

(** The loop of [lookup]: the characters left in the buffer and the name so far. *)
Fixpoint lookup_loop (return_parent : bool) (buf name : list Z) (dir : Z) : M (option Z) :=
  match buf with
  | [] => if return_parent then mret (Some dir) else child dir name
  | c :: buf =>
      if c =? ch_slash then
        o ← child dir name;
        match o with
        | None => mret None
        | Some n =>
            x ← get_node n;
            match as_directory x with
            | None => mret None
            | Some _ => lookup_loop return_parent buf [] n
            end
        end
      else lookup_loop return_parent buf (name ++ [c]) dir
  end.

Definition lookup (path : list Z) (return_parent : bool) : M (option Z) :=
  let path := if deref path =? ch_slash then tail path else path in
  if deref path =? 0 then mret (Some ROOT)
  else lookup_loop return_parent (take (Z.to_nat (MAX_PATH_LEN - 1)) (cstr path)) [] ROOT.

Definition lookup_parent (path : list Z) : M (option Z) :=
  o ← lookup path true;
  match o with
  | None => mret None
  | Some n => x ← get_node n; mret (match as_directory x with Some _ => Some n | None => None end)
  end.

(** [remove] *)
Definition remove_node (n : Z) : M unit :=
  x ← get_node n;
  match _content x with
  | CONTINUOUS_FILE _ => if opened x then set_node n (set_inode 0 x) else destroy_node n
  | DIRECTORY _ _ =>
      s ← get_state;
      _ ← empty_dir (S (base.size (nodes s))) n;
      destroy_node n
  | SYMLINK _ => destroy_node n
  end.

(** [new (_env.alloc())] of a node: its address, or the exception of the allocator. *)
Definition new_node (name : list Z) (c : content E) : M Z := fun s =>
  match alloc_throw (allocator s) with
  | Err e => (Err e, s)
  | Ok a =>
      let n := next_node s in
      let i := inode_count s +64 1 in
      (Ok n, State (<[n := Node_ (name_buffer name) i [] [] 0 1 c]> (nodes s)) (n + 1) i
               (handles s) (watches s) (next_handle s) a (responses s))
  end.

(** Creating a node where only the lack of memory is caught. *)
Definition try_new_node (name : list Z) (c : content E) : M (option Z) :=
  catch (n ← new_node name c; mret (Some n))
    (fun e => match e with Out_of_memory => mret None | _ => throw e end).

Definition new_handle (n flags : Z) : M Z := fun s =>
  let h := next_handle s in
  (Ok h, State (nodes s) (next_node s) (inode_count s) (<[h := Io_handle n false flags 0]> (handles s))
           (watches s) (h + 1) (allocator s) (responses s)).

(** *** Directory service *)

Definition num_dirent (path : list Z) : M Z :=
  o ← lookup path false;
  match o with
  | None => mret 0
  | Some n => x ← get_node n; mret (match as_directory x with Some (_, c) => c | None => 0 end)
  end.

Definition directory (path : list Z) : M bool :=
  o ← lookup path false;
  match o with
  | None => mret false
  | Some n => x ← get_node n; mret (match as_directory x with Some _ => true | None => false end)
  end.

Definition leaf_path (path : list Z) : M bool :=
  o ← lookup path false; mret (match o with Some _ => true | None => false end).

(** Undoing the creation of a node when there is no handle. *)
Definition uncreate (dir n : Z) : M unit := _ ← release_entry dir n; remove_node n.

Definition open (path : list Z) (mode : Z) (ha : handle_alloc) : M Open_result :=
  let name := basename path in
  let create := negb (Z.land mode OPEN_MODE_CREATE =? 0) in
  let finish n :=
    match ha with
    | HANDLE_OK => h ← new_handle n mode; mret (OPEN_OK h)
    | HANDLE_ERR DENIED => throw Denied
    | HANDLE_ERR e =>
        _ ← (if create then
               o ← lookup_parent path;
               match o with None => throw Wild_access | Some dir => uncreate dir n end
             else mret tt);
        mret (match e with OUT_OF_RAM => OPEN_ERR_OUT_OF_RAM | _ => OPEN_ERR_OUT_OF_CAPS end)
    end in
  if create then
    o ← lookup_parent path;
    match o with
    | None => mret OPEN_ERR_UNACCESSIBLE
    | Some parent =>
        c ← child parent name;
        match c with
        | Some _ => mret OPEN_ERR_EXISTS
        | None =>
            if MAX_NAME_LEN <=? strlen name then mret OPEN_ERR_NAME_TOO_LONG
            else
              o ← try_new_node name (CONTINUOUS_FILE File.new);
              match o with
              | None => mret OPEN_ERR_NO_SPACE
              | Some file =>
                  _ ← adopt parent file;
                  _ ← notify parent;
                  finish file
              end
        end
    end
  else
    o ← lookup path false;
    match o with
    | None => mret OPEN_ERR_UNACCESSIBLE
    | Some n =>
        x ← get_node n;
        match _content x with CONTINUOUS_FILE _ => finish n | _ => mret OPEN_ERR_UNACCESSIBLE end
    end.

Definition opendir (path : list Z) (create : bool) (ha : handle_alloc) : M Opendir_result :=
  o ← lookup_parent path;
  match o with
  | None => mret OPENDIR_ERR_LOOKUP_FAILED
  | Some parent =>
      let name := basename path in
      let finish n :=
        match ha with
        | HANDLE_OK => h ← new_handle n STATUS_RDONLY; mret (OPENDIR_OK h)
        | HANDLE_ERR OUT_OF_RAM => _ ← (if create then uncreate parent n else mret tt); mret OPENDIR_ERR_OUT_OF_RAM
        | HANDLE_ERR OUT_OF_CAPS => _ ← (if create then uncreate parent n else mret tt); mret OPENDIR_ERR_OUT_OF_CAPS
        | HANDLE_ERR DENIED => throw Denied
        end in
      if create then
        if deref name =? 0 then mret OPENDIR_ERR_NODE_ALREADY_EXISTS
        else if MAX_NAME_LEN <=? strlen name then mret OPENDIR_ERR_NAME_TOO_LONG
        else
          c ← child parent name;
          match c with
          | Some _ => mret OPENDIR_ERR_NODE_ALREADY_EXISTS
          | None =>
              o ← try_new_node name (DIRECTORY Null 0);
              match o with
              | None => mret OPENDIR_ERR_NO_SPACE
              | Some dir => _ ← adopt parent dir; _ ← notify parent; finish dir
              end
          end
      else
        o ← lookup path false;
        match o with
        | None => mret OPENDIR_ERR_LOOKUP_FAILED
        | Some n =>
            x ← get_node n;
            match as_directory x with Some _ => finish n | None => mret OPENDIR_ERR_LOOKUP_FAILED end
        end
  end.

Definition openlink (path : list Z) (create : bool) (ha : handle_alloc) : M Openlink_result :=
  o ← lookup_parent path;
  match o with
  | None => mret OPENLINK_ERR_LOOKUP_FAILED
  | Some parent =>
      let name := basename path in
      let finish n :=
        match ha with
        | HANDLE_OK => h ← new_handle n STATUS_RDWR; mret (OPENLINK_OK h)
        | HANDLE_ERR OUT_OF_RAM => _ ← (if create then uncreate parent n else mret tt); mret OPENLINK_ERR_OUT_OF_RAM
        | HANDLE_ERR OUT_OF_CAPS => _ ← (if create then uncreate parent n else mret tt); mret OPENLINK_ERR_OUT_OF_CAPS
        | HANDLE_ERR DENIED => throw Denied
        end in
      c ← child parent name;
      if create then
        match c with
        | Some _ => mret OPENLINK_ERR_NODE_ALREADY_EXISTS
        | None =>
            if MAX_NAME_LEN <=? strlen name then mret OPENLINK_ERR_NAME_TOO_LONG
            else
              o ← try_new_node name (SYMLINK Symlink.new);
              match o with
              | None => mret OPENLINK_ERR_NO_SPACE
              | Some link => _ ← adopt parent link; _ ← notify parent; finish link
              end
        end
      else
        match c with
        | None => mret OPENLINK_ERR_LOOKUP_FAILED
        | Some n =>
            x ← get_node n;
            match _content x with SYMLINK _ => finish n | _ => mret OPENLINK_ERR_LOOKUP_FAILED end
        end
  end.

Definition get_handle (h : Z) : M io_handle := fun s =>
  match handles s !! h with Some x => (Ok x, s) | None => (Err Wild_access, s) end.

Definition set_modifying (h : Z) (b : bool) : M unit :=
  x ← get_handle h;
  modify (with_handles <[h := Io_handle (h_node x) b (status_flags x) (seek x)]>).

(** [Vfs_handle::seek] *)
Definition set_seek (h offset : Z) : M unit :=
  x ← get_handle h;
  modify (with_handles <[h := Io_handle (h_node x) (modifying x) (status_flags x) offset]>).

Definition close (h : Z) : M unit :=
  x ← get_handle h;
  let n := h_node x in
  _ ← close_io n h;
  _ ← modify (with_handles (base.delete h));
  y ← get_node n;
  if unlinked y && negb (opened y) then destroy_node n
  else if modifying x then notify n else mret tt.

Definition node_length (x : node E) : Z :=
  match _content x with
  | CONTINUOUS_FILE f => File._length f
  | DIRECTORY _ c => c
  | SYMLINK l => Symlink._len l
  end.

Definition stat (path : list Z) : M (option Stat) :=
  o ← lookup path false;
  match o with
  | None => mret None
  | Some n =>
      x ← get_node n;
      mret (Some {| size := node_length x;
                    type := match _content x with DIRECTORY _ _ => TYPE_DIRECTORY | SYMLINK _ => TYPE_SYMLINK | _ => TYPE_CONTINUOUS_FILE end;
                    st_inode := inode x; modification_time := _modification_time x |})
  end.

Definition rename (from to : list Z) : M Rename_result :=
  same ← (if strcmp from to NO_LIMIT =? 0 then o ← lookup from false; mret (match o with Some _ => true | None => false end)
          else mret false);
  if same : bool then mret RENAME_OK
  else
    let new_name := basename to in
    if MAX_NAME_LEN <=? strlen new_name then mret RENAME_ERR_NO_PERM
    else
      fd ← lookup_parent from;
      match fd with None => mret RENAME_ERR_NO_ENTRY | Some from_dir =>
      td ← lookup_parent to;
      match td with None => mret RENAME_ERR_NO_ENTRY | Some to_dir =>
      fn ← child from_dir (basename from);
      match fn with None => mret RENAME_ERR_NO_ENTRY | Some from_node =>
      tn ← child to_dir new_name;
      let move :=
        _ ← release_entry from_dir from_node;
        x ← get_node from_node;
        _ ← set_node from_node (set_name (name_buffer new_name) x);
        _ ← adopt to_dir from_node;
        _ ← notify from_dir;
        _ ← notify to_dir;
        mret RENAME_OK in
      match tn with
      | None => move
      | Some to_node =>
          x ← get_node to_node;
          y ← get_node from_node;
          match as_directory x with
          | Some (_, c) =>
              if negb (c =? 0) || match as_directory y with Some _ => false | None => true end
              then mret RENAME_ERR_NO_PERM
              else _ ← release_entry to_dir to_node; _ ← notify to_node; _ ← remove_node to_node; move
          | None => _ ← release_entry to_dir to_node; _ ← notify to_node; _ ← remove_node to_node; move
          end
      end
      end end end.

Definition unlink (path : list Z) : M Unlink_result :=
  o ← lookup_parent path;
  match o with
  | None => mret UNLINK_ERR_NO_ENTRY
  | Some parent =>
      c ← child parent (basename path);
      match c with
      | None => mret UNLINK_ERR_NO_ENTRY
      | Some n =>
          _ ← release_entry parent n;
          _ ← notify n;
          _ ← notify parent;
          _ ← remove_node n;
          mret UNLINK_OK
      end
  end.

Definition watch (path : list Z) (ha : handle_alloc) : M Watch_result :=
  o ← lookup path false;
  match o with
  | None => mret WATCH_ERR_UNACCESSIBLE
  | Some n =>
      match ha with
      | HANDLE_OK =>
          s ← get_state;
          let h := next_handle s in
          _ ← modify (fun s => State (nodes s) (next_node s) (inode_count s) (handles s)
                                 (<[h := n]> (watches s)) (h + 1) (allocator s) (responses s));
          _ ← open_watch n h;
          mret (WATCH_OK h)
      | HANDLE_ERR OUT_OF_RAM => mret WATCH_ERR_OUT_OF_RAM
      | HANDLE_ERR OUT_OF_CAPS => mret WATCH_ERR_OUT_OF_CAPS
      | HANDLE_ERR DENIED => throw Denied
      end
  end.

Definition close_watch_handle (h : Z) : M unit :=
  s ← get_state;
  match watches s !! h with
  | None => throw Wild_access
  | Some n => _ ← close_watch n h; modify (with_watches (base.delete h))
  end.

(** *** File I/O service *)

(** An operation on the file of a node, with the allocator of the file system. *)
Definition on_file {R} (n : Z) (f : File.t E) (m : exc (File.t E * A) error R) : M R := fun s =>
  let '(r, (f, a)) := m (f, allocator s) in
  (r, with_allocator a (with_nodes (alter (set_content (CONTINUOUS_FILE f)) n) s)).

Definition read_only (x : io_handle) : bool := Z.land (status_flags x) OPEN_MODE_ACCMODE =? OPEN_MODE_RDONLY.

Definition write_handle (h : Z) (buf : list Z) : M Write_result :=
  x ← get_handle h;
  if read_only x then mret WRITE_ERR_INVALID
  else
    y ← get_node (h_node x);
    out ← match _content y with
          | CONTINUOUS_FILE f => on_file (h_node x) f (File.write_file buf (seek x))
          | SYMLINK l =>
              let '(len, l) := Symlink.write_link buf l in
              _ ← set_node (h_node x) (set_content (SYMLINK l) y); mret len
          | DIRECTORY _ _ => mret 0
          end;
    _ ← set_modifying h true;
    mret (WRITE_OK out).

Definition read_dir (t : tree Z) (num_bytes offset : Z) : M Read_result :=
  if num_bytes <? SIZEOF_DIRENT then mret READ_ERR_INVALID
  else
    match (index t (Z.to_nat (offset / SIZEOF_DIRENT))).1 with
    | None => mret (READ_DIRENT {| fileno := 0; dirent_type := DIRENT_END; dirent_name := [] |})
    | Some n =>
        x ← get_node n;
        mret (READ_DIRENT {| fileno := inode x;
          dirent_type := match _content x with
                         | CONTINUOUS_FILE _ => DIRENT_CONTINUOUS_FILE
                         | DIRECTORY _ _ => DIRENT_DIRECTORY
                         | SYMLINK _ => DIRENT_SYMLINK
                         end;
          dirent_name := _name x |})
    end.

Definition complete_read (h num_bytes : Z) : M Read_result :=
  x ← get_handle h;
  y ← get_node (h_node x);
  match _content y with
  | CONTINUOUS_FILE f => '(n, data) ← check (File.read_file num_bytes (seek x) f); mret (READ_OK n data)
  | SYMLINK l => let '(n, data) := Symlink.read_link num_bytes l in mret (READ_OK n data)
  | DIRECTORY t _ => read_dir t num_bytes (seek x)
  end.

Definition ftruncate (h len : Z) : M Ftruncate_result :=
  x ← get_handle h;
  if read_only x then mret FTRUNCATE_ERR_NO_PERM
  else
    y ← get_node (h_node x);
    match _content y with
    | CONTINUOUS_FILE f =>
        catch (_ ← on_file (h_node x) f (File.truncate_file len); mret FTRUNCATE_OK)
          (fun e => match e with Out_of_memory => mret FTRUNCATE_ERR_NO_SPACE | _ => throw e end)
    | _ => mret FTRUNCATE_OK
    end.

Definition complete_sync (h : Z) : M Sync_result :=
  x ← get_handle h;
  _ ← (if modifying x then
         _ ← set_modifying h false;
         _ ← close_io (h_node x) h;
         _ ← notify (h_node x);
         open_io (h_node x) h
       else mret tt);
  mret SYNC_OK.

Definition update_modification_timestamp (h time : Z) : M bool :=
  x ← get_handle h;
  if read_only x then mret false
  else
    _ ← set_modifying h true;
    y ← get_node (h_node x);
    _ ← set_node (h_node x) (set_time time y);
    mret true.

(** The file system after its construction. *)
Definition initial (a : A) : state A E :=
  State {[ROOT := Node_ [] 1 [] [] 0 1 (DIRECTORY Null 0)]} 1 1 ∅ ∅ 1 a [].

End Operations.
