(* ===== verification/Ram_fs_spec.v ===== *)
(** * Ram_fs_spec: what the RAM file system guarantees

    The invariant of the node store of [Ram_fs]: directories are ordered by name and
    free of duplicates, every entry exists, has one parent, and is not the root, and the
    number of entries is the announced one.  On top of it, path resolution, the creation
    of files, unlinking with the recursive removal of directories, and what happens at
    the borders of [rename] and [unlink]. *)

From Stdlib Require Import Sorted.
From stdpp Require Import sorting.
From S2P Require Import Prelude Avl_tree Cstring Chunk Ram_file Ram_fs.

Open Scope Z_scope.
Open Scope word_scope.

(** ** Comparison of names *)

Definition valid_name (name : list Z) : Prop :=
  Forall (.≠ 0) name ∧ Z.of_nat (length name) < MAX_PATH_LEN.

Lemma strcmp_names a b : valid_name a → valid_name b → strcmp a b NO_LIMIT = diff a b.
Proof.
  intros [Ha Hla] [Hb Hlb]. unfold MAX_PATH_LEN in *. change NO_LIMIT with (2 ^ 64 - 1).
  rewrite strcmp_diff by lia. rewrite !cstr_id by done. by rewrite !take_ge by lia.
Qed.

Lemma strcmp_zero a b : valid_name a → valid_name b → strcmp a b NO_LIMIT = 0 ↔ a = b.
Proof. intros Ha Hb. rewrite strcmp_names by done. apply diff_zero; [apply Ha|apply Hb]. Qed.

Lemma strcmp_antisym a b : strcmp b a NO_LIMIT = - strcmp a b NO_LIMIT.
Proof. rewrite !strcmp_diff by (vm_compute; split; congruence). apply diff_antisym. Qed.

Lemma strcmp_trans a b c :
  0 < strcmp a b NO_LIMIT → 0 < strcmp b c NO_LIMIT → 0 < strcmp a c NO_LIMIT.
Proof.
  rewrite !strcmp_diff by (vm_compute; split; congruence).
  apply diff_trans; apply Forall_take, cstr_nonzero.
Qed.

(** Up to the limit, strings that compare equal compare alike. *)
Lemma strcmp_trans_le a b c :
  0 ≤ strcmp a b NO_LIMIT → 0 ≤ strcmp b c NO_LIMIT → 0 ≤ strcmp a c NO_LIMIT.
Proof.
  rewrite !strcmp_diff by (vm_compute; split; congruence).
  set (l s := take (Z.to_nat NO_LIMIT) (cstr s)). fold (l a) (l b) (l c).
  assert (∀ s, Forall (.≠ 0) (l s)) as Hl by (intros s; apply Forall_take, cstr_nonzero).
  intros H1 H2. destruct (decide (diff (l a) (l b) = 0)) as [E|].
  - apply diff_zero in E; [|apply Hl..]. by rewrite E.
  - destruct (decide (diff (l b) (l c) = 0)) as [E|].
    + apply diff_zero in E; [|apply Hl..]. by rewrite <- E.
    + assert (0 < diff (l a) (l c)); [|lia]. apply (diff_trans (l a) (l b) (l c)); try apply Hl; lia.
Qed.

Section Spec.
Context {A E : Type} `{Allocator A} `{Chunk_entry A E}.

Abbreviation store := (gmap Z (node E)).
Implicit Types ns : store.

(** ** The invariant *)

Definition entries_of ns (d : Z) : list Z :=
  match ns !! d with
  | Some x => match _content x with DIRECTORY t _ => elements t | _ => [] end
  | None => []
  end.

(** The count of the directories in [D] is out of date. *)
Record wf (D : Z → Prop) ns : Prop := {
  wf_root : ∃ x t c, ns !! ROOT = Some x ∧ _content x = DIRECTORY t c;
  wf_entry d n : n ∈ entries_of ns d → is_Some (ns !! n) ∧ n ≠ ROOT;
  wf_parent d1 d2 n : n ∈ entries_of ns d1 → n ∈ entries_of ns d2 → d1 = d2;
  wf_order d x t c : ns !! d = Some x → _content x = DIRECTORY t c → ordered (higher ns) t;
  wf_count d x t c : ns !! d = Some x → _content x = DIRECTORY t c → ¬ D d → c = u64 (Z.of_nat (length (elements t)));
  wf_name n x : ns !! n = Some x → Forall (.≠ 0) (_name x) ∧ Z.of_nat (length (_name x)) < MAX_NAME_LEN }.

Definition orphan ns (n : Z) : Prop := ∀ d, n ∉ entries_of ns d.

(** The entry of a directory with a name. *)
Definition entry ns (d : Z) (name : list Z) : option Z :=
  head (filter (λ n, name_of ns n = name) (entries_of ns d)).

Lemma wf_valid_name D ns n : wf D ns → valid_name (name_of ns n).
Proof.
  intros Hwf. unfold name_of. destruct (ns !! n) as [x|] eqn:Hx.
  - destruct (wf_name _ _ Hwf n x Hx). split; [done|]. unfold MAX_NAME_LEN, MAX_PATH_LEN in *. lia.
  - split; [constructor|done].
Qed.

(** *** Searching *)

Lemma higher_irrefl ns a b : higher ns a b = true → name_of ns a ≠ name_of ns b.
Proof.
  unfold higher. intros Hlt%Z.ltb_lt Eq. rewrite Eq in Hlt. pose proof (strcmp_antisym (name_of ns b) (name_of ns b)). lia.
Qed.

Lemma filter_names_none ns name l :
  (∀ n, n ∈ l → name_of ns n ≠ name) → filter (λ n, name_of ns n = name) l = [].
Proof. intros Hl. apply filter_none. apply Forall_forall. done. Qed.

Lemma sibling_entry D ns name t :
  wf D ns → valid_name name → ordered (higher ns) t → (∀ n, n ∈ elements t → is_Some (ns !! n)) →
  sibling ns name t = Ok (head (filter (λ n, name_of ns n = name) (elements t))).
Proof.
  intros Hwf Hname. unfold ordered. induction t as [|l IHl n d r IHr]; intros Hord Hex; [done|].
  cbn [sibling elements] in *. destruct (Hex n) as [x Hx]; [set_solver|]. rewrite Hx.
  apply StronglySorted_app in Hord as (Hlr & Hl & Hr). apply StronglySorted_inv in Hr as [Hr Hn].
  rewrite Forall_forall in Hn.
  assert (name_of ns n = _name x) as Hnx by (unfold name_of; by rewrite Hx). rewrite <- Hnx.
  pose proof (wf_valid_name D ns n Hwf) as Hvn. rewrite filter_app.
  destruct (Z.eqb_spec (strcmp name (name_of ns n) NO_LIMIT) 0) as [Eq|Hne].
  - apply strcmp_zero in Eq; [|done..]. rewrite (filter_names_none ns name (elements l)).
    + rewrite filter_cons_True by done. done.
    + intros m Hm Em. apply (higher_irrefl ns m n); [|congruence]. apply Hlr; [done|constructor].
  - rewrite strcmp_zero in Hne by done.
    destruct (Z.ltb_spec 0 (strcmp name (name_of ns n) NO_LIMIT)) as [Hgt|Hle].
    + rewrite (filter_names_none ns name (elements l)), filter_cons_False by (done || (intros m Hm Em;
        assert (higher ns m n = true) as Hmn by (apply Hlr; [done|constructor]); unfold higher in Hmn;
        apply Z.ltb_lt in Hmn; rewrite Em in Hmn; rewrite strcmp_antisym in Hmn; lia)).
      apply IHr; [done|set_solver].
    + rewrite (filter_names_none ns name (n :: elements r)).
      * rewrite app_nil_r. apply IHl; [done|set_solver].
      * intros m Hm Em. assert (strcmp name (name_of ns n) NO_LIMIT ≠ 0) by by rewrite strcmp_zero.
        apply elem_of_cons in Hm as [->|Hm]; [done|]. pose proof (Hn m Hm) as Hh. unfold higher in Hh.
        apply Z.ltb_lt in Hh. rewrite Em in Hh. lia.
Qed.

Lemma get_node_eq (s : state A E) n x : nodes s !! n = Some x → get_node n s = (Ok x, s).
Proof. intros Hn. unfold get_node. by rewrite Hn. Qed.

Lemma get_dir_eq (s : state A E) d x t c :
  nodes s !! d = Some x → _content x = DIRECTORY t c → get_dir d s = (Ok (t, c), s).
Proof. intros Hd Hc. unfold get_dir, get_node, mbind, exc_bind, as_directory. by rewrite Hd, Hc. Qed.

Lemma child_entry D (s : state A E) d x t c name :
  wf D (nodes s) → valid_name name → nodes s !! d = Some x → _content x = DIRECTORY t c →
  child d name s = (Ok (entry (nodes s) d name), s).
Proof.
  intros Hwf Hname Hd Hc. unfold child, mbind, exc_bind. rewrite (get_dir_eq s d x t c) by done.
  unfold get_state, check. rewrite (sibling_entry D); [|done|done|by apply (wf_order D _ Hwf d x t c)|].
  - unfold entry, entries_of. by rewrite Hd, Hc.
  - intros n Hn. apply (wf_entry D _ Hwf d). unfold entries_of. by rewrite Hd, Hc.
Qed.

(** *** Inserting *)

Definition higher_eq ns (n c : Z) : bool := 0 <=? strcmp (name_of ns c) (name_of ns n) NO_LIMIT.

#[local] Instance higher_eq_order ns : Tree_order (higher_eq ns).
Proof.
  constructor; unfold higher_eq; intros *.
  - rewrite Z.leb_gt, Z.leb_le. rewrite (strcmp_antisym (name_of ns x)). lia.
  - rewrite !Z.leb_le. intros. by apply (strcmp_trans_le _ (name_of ns y)).
Qed.

Lemma insert_ordered D ns n d t :
  wf D ns → n ∉ elements t → ordered (higher ns) t → (∀ m, m ∈ elements t → name_of ns m ≠ name_of ns n) →
  let t' := Avl_tree.insert (higher ns) n d t in
  ordered (higher ns) t' ∧ ∃ k1 k2, elements t = k1 ++ k2 ∧ elements t' = k1 ++ n :: k2.
Proof.
  intros Hwf Hn Hord Hne t'.
  assert (∀ m, m ∈ elements t → strcmp (name_of ns n) (name_of ns m) NO_LIMIT ≠ 0) as Hcmp.
  { intros m Hm Hz. apply (Hne m Hm). symmetry. by apply strcmp_zero in Hz; [|eapply wf_valid_name..]. }
  assert (t' = Avl_tree.insert (higher_eq ns) n d t) as Ht'.
  { apply insert_node_ext. intros m Hm. unfold higher, higher_eq. specialize (Hcmp m Hm).
    destruct (Z.ltb_spec 0 (strcmp (name_of ns n) (name_of ns m) NO_LIMIT)),
      (Z.leb_spec 0 (strcmp (name_of ns n) (name_of ns m) NO_LIMIT)); try done; lia. }
  destruct (insert_node_position (higher_eq ns) n d t) as (k1 & k2 & E1 & E2 & F1 & F2); [done| |].
  { unfold ordered in *. clear -Hord. induction Hord as [|m l Hl IH Hm]; constructor; [done|].
    eapply Forall_impl; [exact Hm|]. intros x. unfold higher, higher_eq. rewrite Z.ltb_lt, Z.leb_le. lia. }
  rewrite Ht'. split; [|by exists k1, k2]. unfold ordered in *. fold (Avl_tree.insert (higher_eq ns) n d t) in E2.
  rewrite E2. rewrite E1 in *. rewrite Forall_forall in F1, F2.
  apply StronglySorted_app in Hord as (S12 & S1 & S2).
  assert (∀ m, m ∈ k1 → higher ns m n = true) as G1.
  { intros m Hm. specialize (F1 m Hm). unfold higher, higher_eq in *. apply Z.leb_le in F1. apply Z.ltb_lt.
    specialize (Hcmp m ltac:(set_solver)). lia. }
  assert (∀ m, m ∈ k2 → higher ns n m = true) as G2.
  { intros m Hm. specialize (F2 m Hm). unfold higher, higher_eq in *. apply Z.leb_gt in F2. apply Z.ltb_lt.
    rewrite strcmp_antisym. lia. }
  apply StronglySorted_app. split_and!; [|done|constructor; [done|by apply Forall_forall]].
  intros a b Ha Hb. apply elem_of_cons in Hb as [->|Hb]; auto.
Qed.

(** *** Changes of the store *)

Lemma entries_insert ns m x d :
  entries_of (<[m := x]> ns) d =
    if decide (d = m) then match _content x with DIRECTORY t _ => elements t | _ => [] end else entries_of ns d.
Proof.
  unfold entries_of. case_decide as Hd; [subst; by rewrite lookup_insert_eq|by rewrite lookup_insert_ne].
Qed.

Lemma name_insert ns m x n : name_of (<[m := x]> ns) n = if decide (n = m) then _name x else name_of ns n.
Proof.
  unfold name_of. case_decide as Hn; [subst; by rewrite lookup_insert_eq|by rewrite lookup_insert_ne].
Qed.

Lemma ordered_names ns ns' t :
  (∀ n, n ∈ elements t → name_of ns n = name_of ns' n) → ordered (higher ns) t → ordered (higher ns') t.
Proof.
  unfold ordered, higher. intros Hn Hord. revert Hn. induction Hord as [|m l Hl IH Hm]; intros Hn; constructor.
  - apply IH. intros n Hn'. apply Hn. by constructor.
  - rewrite Forall_forall in *. intros n Hn'. rewrite <- (Hn m), <- (Hn n) by (set_solver). by apply Hm.
Qed.

(** A node that keeps its name and its entries. *)
Lemma wf_update D ns n x y :
  wf D ns → ns !! n = Some x → _name y = _name x → _content y = _content x → wf D (<[n := y]> ns).
Proof.
  intros Hwf Hx Hname Hcont.
  assert (∀ d, entries_of (<[n := y]> ns) d = entries_of ns d) as He.
  { intros d. rewrite entries_insert. case_decide; [|done]. subst. unfold entries_of. by rewrite Hx, Hcont. }
  assert (∀ m, name_of (<[n := y]> ns) m = name_of ns m) as Hn.
  { intros m. rewrite name_insert. case_decide; [|done]. subst. unfold name_of. by rewrite Hx, Hname. }
  assert (∀ d z, <[n := y]> ns !! d = Some z → ∃ w, ns !! d = Some w ∧ _content w = _content z ∧ _name w = _name z) as Hold.
  { intros d z. destruct (decide (d = n)) as [->|]; [rewrite lookup_insert_eq|rewrite lookup_insert_ne by done].
    - intros [= <-]. by exists x.
    - intros Hz. by exists z. }
  destruct Hwf as [(r & t & c & Hr & Hrc) Hent Hpar Hord Hcnt Hnm]. constructor.
  - destruct (decide (n = ROOT)) as [->|].
    + exists y, t, c. rewrite lookup_insert_eq, Hcont. by simplify_eq.
    + exists r, t, c. by rewrite lookup_insert_ne.
  - intros d m. rewrite He. intros Hm. destruct (Hent d m Hm) as [Hs Hr0]. split; [|done].
    destruct (decide (m = n)) as [->|]; [by rewrite lookup_insert_eq|by rewrite lookup_insert_ne].
  - intros d1 d2 m. rewrite !He. apply Hpar.
  - intros d z t' c' Hz Hc. destruct (Hold d z Hz) as (w & Hw & Hcw & _).
    apply (ordered_names ns); [intros; by rewrite Hn|]. apply (Hord d w t' c'); [done|by rewrite Hcw].
  - intros d z t' c' Hz Hc. destruct (Hold d z Hz) as (w & Hw & Hcw & _). apply (Hcnt d w); [done|by rewrite Hcw].
  - intros m z Hz. destruct (Hold m z Hz) as (w & Hw & _ & <-). by apply (Hnm m).
Qed.

(** A directory whose entries change, and the nodes it refers to. *)
Lemma wf_set_dir (D D' : Z → Prop) ns d x y t c t' c' :
  wf D ns → ns !! d = Some x → _content x = DIRECTORY t c → _name y = _name x → _content y = DIRECTORY t' c' →
  ordered (higher ns) t' →
  (∀ n, n ∈ elements t' → n ∈ elements t ∨ is_Some (ns !! n) ∧ n ≠ ROOT ∧ orphan ns n) →
  (∀ m, m ≠ d → D m → D' m) → (¬ D' d → c' = u64 (Z.of_nat (length (elements t')))) →
  wf D' (<[d := y]> ns).
Proof.
  intros Hwf Hx Hc Hname Hcont Hord' Hsub HD Hcnt'.
  assert (entries_of ns d = elements t) as Hd by (unfold entries_of; by rewrite Hx, Hc).
  assert (∀ m, name_of (<[d := y]> ns) m = name_of ns m) as Hn.
  { intros m. rewrite name_insert. case_decide; [|done]. subst. unfold name_of. by rewrite Hx, Hname. }
  assert (∀ m, is_Some (<[d := y]> ns !! m) ↔ is_Some (ns !! m)) as Hsome.
  { intros m. destruct (decide (m = d)) as [->|]; [rewrite lookup_insert_eq, Hx|by rewrite lookup_insert_ne].
    split; by eexists. }
  pose proof Hwf as [(r & tr & cr & Hr & Hrc) Hent Hpar Hord Hcnt Hnm]. constructor.
  - destruct (decide (d = ROOT)) as [->|].
    + exists y, t', c'. by rewrite lookup_insert_eq.
    + exists r, tr, cr. by rewrite lookup_insert_ne.
  - intros e n. rewrite entries_insert, Hsome. case_decide; [|apply Hent]. subst e. rewrite Hcont. intros Hin.
    destruct (Hsub n Hin) as [Hold|(? & ? & _)]; [|done]. apply (Hent d). by rewrite Hd.
  - assert (∀ e n, e ≠ d → n ∈ elements t' → n ∉ entries_of ns e) as Hex.
    { intros e n Hed Hin He. destruct (Hsub n Hin) as [Hold|(_ & _ & Ho)]; [|by apply (Ho e)].
      apply Hed. apply (Hpar e d n); [done|by rewrite Hd]. }
    intros d1 d2 n. rewrite !entries_insert, Hcont. repeat case_decide; subst; intros P1 P2; try done.
    + exfalso. by apply (Hex d2 n).
    + exfalso. by apply (Hex d1 n).
    + by apply (Hpar d1 d2 n).
  - intros e z tz cz Hz Hcz. apply (ordered_names ns); [intros; by rewrite Hn|].
    destruct (decide (e = d)) as [->|]; [rewrite lookup_insert_eq in Hz|rewrite lookup_insert_ne in Hz by done].
    + injection Hz as <-. rewrite Hcont in Hcz. by injection Hcz as <- _.
    + by apply (Hord e z tz cz).
  - intros e z tz cz Hz Hcz Hnd. destruct (decide (e = d)) as [->|];
      [rewrite lookup_insert_eq in Hz|rewrite lookup_insert_ne in Hz by done].
    + injection Hz as <-. rewrite Hcont in Hcz. injection Hcz as <- <-. by apply Hcnt'.
    + apply (Hcnt e z tz cz Hz Hcz). auto.
  - intros m z. destruct (decide (m = d)) as [->|]; [rewrite lookup_insert_eq|rewrite lookup_insert_ne by done].
    + intros [= <-]. rewrite Hname. by apply (Hnm d).
    + apply Hnm.
Qed.

(** A new node that is no directory with entries. *)
Lemma wf_new D ns n x :
  wf D ns → ns !! n = None → Forall (.≠ 0) (_name x) → Z.of_nat (length (_name x)) < MAX_NAME_LEN →
  match _content x with DIRECTORY t c => t = Null ∧ c = 0 | _ => True end → wf D (<[n := x]> ns).
Proof.
  intros Hwf Hn Hname Hlen Hc.
  assert (∀ d, entries_of (<[n := x]> ns) d = entries_of ns d) as He.
  { intros d. rewrite entries_insert. case_decide; [|done]. subst. unfold entries_of. rewrite Hn.
    destruct (_content x); [done| |done]. by destruct Hc as [-> _]. }
  assert (∀ m, is_Some (ns !! m) → m ≠ n) as Hne by (intros m [? Hm] ->; congruence).
  pose proof Hwf as [(r & tr & cr & Hr & Hrc) Hent Hpar Hord Hcnt Hnm]. constructor.
  - exists r, tr, cr. by rewrite lookup_insert_ne by (symmetry; apply Hne; by eexists).
  - intros d m. rewrite He. intros Hm. destruct (Hent d m Hm) as [Hs ?]. split; [|done].
    rewrite lookup_insert_ne; [done|]. symmetry. by apply Hne.
  - intros d1 d2 m. rewrite !He. apply Hpar.
  - intros d z t c Hz Hcz. destruct (decide (d = n)) as [->|];
      [rewrite lookup_insert_eq in Hz|rewrite lookup_insert_ne in Hz by done].
    + injection Hz as <-. rewrite Hcz in Hc. destruct Hc as [-> _]. constructor.
    + apply (ordered_names ns); [|by apply (Hord d z t c)]. intros m Hm. rewrite name_insert, decide_False; [done|].
      apply Hne. apply (Hent d). unfold entries_of. by rewrite Hz, Hcz.
  - intros d z t c Hz Hcz Hd. destruct (decide (d = n)) as [->|];
      [rewrite lookup_insert_eq in Hz|rewrite lookup_insert_ne in Hz by done].
    + injection Hz as <-. rewrite Hcz in Hc. by destruct Hc as [-> ->].
    + by apply (Hcnt d z t c).
  - intros m z. destruct (decide (m = n)) as [->|]; [rewrite lookup_insert_eq; by intros [= <-]|].
    rewrite lookup_insert_ne by done. apply Hnm.
Qed.

(** An orphan without entries that is destroyed. *)
Lemma wf_delete D ns n : wf D ns → n ≠ ROOT → orphan ns n → wf D (base.delete n ns) ∧
  ∀ d, d ≠ n → entries_of (base.delete n ns) d = entries_of ns d.
Proof.
  intros Hwf Hroot Ho.
  assert (∀ d, d ≠ n → entries_of (base.delete n ns) d = entries_of ns d) as He.
  { intros d Hd. unfold entries_of. by rewrite lookup_delete_ne. }
  assert (entries_of (base.delete n ns) n = []) as Hen by (unfold entries_of; by rewrite lookup_delete_eq).
  split; [|done]. pose proof Hwf as [(r & tr & cr & Hr & Hrc) Hent Hpar Hord Hcnt Hnm]. constructor.
  - exists r, tr, cr. by rewrite lookup_delete_ne.
  - intros d m. destruct (decide (d = n)) as [->|]; [rewrite Hen; set_solver|]. rewrite He by done. intros Hm.
    destruct (Hent d m Hm). split; [|done]. rewrite lookup_delete_ne; [done|]. intros ->. by apply (Ho d).
  - intros d1 d2 m. destruct (decide (d1 = n)) as [->|]; [rewrite Hen; set_solver|].
    destruct (decide (d2 = n)) as [->|]; [rewrite Hen; set_solver|]. rewrite !He by done. apply Hpar.
  - intros d z t c Hz Hcz. apply lookup_delete_Some in Hz as [Hdn Hz].
    apply (ordered_names ns); [|by apply (Hord d z t c)]. intros m Hm. unfold name_of. rewrite lookup_delete_ne; [done|].
    intros ->. apply (Ho d). unfold entries_of. by rewrite Hz, Hcz.
  - intros d z t c Hz. apply lookup_delete_Some in Hz as [_ Hz]. by apply (Hcnt d z t c).
  - intros m z Hz. apply lookup_delete_Some in Hz as [_ Hz]. by apply (Hnm m).
Qed.

(** *** The operations on directories *)

(** A state in which only nodes and allocator have changed. *)
Definition upd ns (a : A) (s : state A E) : state A E :=
  State ns (next_node s) (inode_count s) (handles s) (watches s) (next_handle s) a (responses s).

Definition is_dir ns (d : Z) : Prop := ∃ x t c, ns !! d = Some x ∧ _content x = DIRECTORY t c.

(** What a node keeps while the directories around it change. *)
Definition attrs (x : node E) :=
  (_name x, inode x, _io_handles x, _watch_handles x, _modification_time x,
   match _content x with CONTINUOUS_FILE f => Some (inl f) | SYMLINK l => Some (inr l) | DIRECTORY _ _ => None end).

Definition same_attrs ns ns' (m : Z) : Prop := attrs <$> ns' !! m = attrs <$> ns !! m.

Lemma same_attrs_name ns ns' m : same_attrs ns ns' m → name_of ns' m = name_of ns m.
Proof.
  unfold same_attrs, name_of. destruct (ns !! m) as [x|], (ns' !! m) as [y|]; simpl; try done.
  unfold attrs. congruence.
Qed.

Lemma same_attrs_some ns ns' m : same_attrs ns ns' m → is_Some (ns' !! m) ↔ is_Some (ns !! m).
Proof.
  unfold same_attrs. destruct (ns !! m), (ns' !! m); simpl; try done; split; intros; try by eexists; by destruct H1.
Qed.

Lemma same_attrs_dir ns ns' m : same_attrs ns ns' m → is_dir ns m → is_dir ns' m.
Proof.
  unfold same_attrs. intros Hs (x & t & c & Hx & Hc). rewrite Hx in Hs. destruct (ns' !! m) as [y|] eqn:Hy; [|done].
  simpl in Hs. unfold attrs in Hs. rewrite Hc in Hs. destruct (_content y) as [|t' c'|] eqn:Hcy; simplify_eq.
  by exists y, t', c'.
Qed.

Lemma same_attrs_insert_dir ns d x t c t' c' m :
  ns !! d = Some x → _content x = DIRECTORY t c → same_attrs ns (<[d := set_content (DIRECTORY t' c') x]> ns) m.
Proof.
  intros Hx Hc. unfold same_attrs. destruct (decide (m = d)) as [->|]; [|by rewrite lookup_insert_ne].
  rewrite lookup_insert_eq, Hx. simpl. unfold attrs. simpl. by rewrite Hc.
Qed.

Lemma same_attrs_trans ns1 ns2 ns3 m : same_attrs ns1 ns2 m → same_attrs ns2 ns3 m → same_attrs ns1 ns3 m.
Proof. unfold same_attrs. congruence. Qed.

Lemma filter_names_ext ns ns' name (l : list Z) : (∀ n, n ∈ l → name_of ns' n = name_of ns n) →
  filter (λ n, name_of ns' n = name) l = filter (λ n, name_of ns n = name) l.
Proof.
  induction l as [|n l IH]; intros Hn; [done|].
  rewrite !filter_cons, IH by (intros; apply Hn; by constructor). by rewrite (Hn n) by constructor.
Qed.

Lemma entry_ext ns ns' d name :
  entries_of ns' d = entries_of ns d → (∀ n, n ∈ entries_of ns d → name_of ns' n = name_of ns n) →
  entry ns' d name = entry ns d name.
Proof. unfold entry. intros -> Hn. f_equal. by apply filter_names_ext. Qed.

Lemma adopt_spec D (s : state A E) d n x t c y :
  wf D (nodes s) → nodes s !! d = Some x → _content x = DIRECTORY t c → nodes s !! n = Some y →
  n ≠ ROOT → orphan (nodes s) n → entry (nodes s) d (_name y) = None →
  ∃ ns', adopt d n s = (Ok tt, upd ns' (allocator s) s) ∧ wf D ns' ∧
    (∃ k1 k2, entries_of (nodes s) d = k1 ++ k2 ∧ entries_of ns' d = k1 ++ n :: k2) ∧
    (∀ e, e ≠ d → entries_of ns' e = entries_of (nodes s) e) ∧ ∀ m, same_attrs (nodes s) ns' m.
Proof.
  intros Hwf Hd Hc Hn Hroot Ho Hent.
  assert (entries_of (nodes s) d = elements t) as Hed by (unfold entries_of; by rewrite Hd, Hc).
  assert (name_of (nodes s) n = _name y) as Hny by (unfold name_of; by rewrite Hn).
  assert (n ∉ elements t) as Hnt by (rewrite <- Hed; apply Ho).
  assert (∀ m, m ∈ elements t → name_of (nodes s) m ≠ name_of (nodes s) n) as Hne.
  { intros m Hm Eq. unfold entry in Hent. rewrite Hed, <- Hny in Hent.
    assert (m ∈ filter (λ n', name_of (nodes s) n' = name_of (nodes s) n) (elements t)) as Hf
      by by apply list_elem_of_filter.
    destruct (filter _ (elements t)); [by apply elem_of_nil in Hf|done]. }
  destruct (insert_ordered D (nodes s) n (_avl_depth y) t Hwf Hnt (wf_order _ _ Hwf d x t c Hd Hc) Hne)
    as (Hord' & k1 & k2 & E1 & E2).
  set (t' := Avl_tree.insert (higher (nodes s)) n (_avl_depth y) t) in *.
  exists (<[d := set_content (DIRECTORY t' (c +64 1)) x]> (nodes s)). split_and!.
  - unfold adopt, mbind, exc_bind. unfold get_node at 1. rewrite Hn. rewrite (get_dir_eq s d x t c) by done.
    unfold get_state, get_node. rewrite Hd. done.
  - apply (wf_set_dir D D (nodes s) d x _ t c t' (c +64 1)); try done.
    + intros m Hm. rewrite E2 in Hm. rewrite E1. destruct (decide (m = n)) as [->|]; [right|left; set_solver].
      split_and!; [by eexists|done|done].
    + intros HD. rewrite (wf_count _ _ Hwf d x t c) by done. rewrite E1, E2, !length_app. simpl.
      unfold wrap. rewrite Zplus_mod_idemp_l. f_equal. lia.
  - exists k1, k2. rewrite Hed. split; [done|]. rewrite entries_insert, decide_True by done. done.
  - intros e He. by rewrite entries_insert, decide_False.
  - intros m. by apply (same_attrs_insert_dir _ _ x t c).
Qed.

Lemma detach_spec D (s : state A E) d n x t c :
  wf D (nodes s) → nodes s !! d = Some x → _content x = DIRECTORY t c → n ∈ elements t →
  ∃ ns' x' t', detach d n s = (Ok tt, upd ns' (allocator s) s) ∧ wf (λ m, D m ∨ m = d) ns' ∧
    ns' !! d = Some x' ∧ _content x' = DIRECTORY t' c ∧
    (∃ k1 k2, elements t = k1 ++ n :: k2 ∧ elements t' = k1 ++ k2) ∧ entries_of ns' d = elements t' ∧
    (∀ e, e ≠ d → entries_of ns' e = entries_of (nodes s) e) ∧ (∀ m, same_attrs (nodes s) ns' m) ∧ orphan ns' n.
Proof.
  intros Hwf Hd Hc Hin.
  assert (entries_of (nodes s) d = elements t) as Hed by (unfold entries_of; by rewrite Hd, Hc).
  destruct (wf_entry _ _ Hwf d n) as [[y Hy] Hroot]; [by rewrite Hed|].
  pose proof (remove_node_elements n t) as Hrem. pose proof (wf_order _ _ Hwf d x t c Hd Hc) as Hord.
  destruct (Avl_tree.remove_node n t) as [[[t' lp] dx]|] eqn:Hr; [|done]. destruct Hrem as (k1 & k2 & E1 & E2).
  set (ns1 := <[d := set_content (DIRECTORY t' c) x]> (nodes s)).
  assert (∃ y1, ns1 !! n = Some y1 ∧ _name y1 = _name y) as (y1 & Hy1 & Hy1n).
  { unfold ns1. destruct (decide (n = d)) as [->|]; [rewrite lookup_insert_eq|rewrite lookup_insert_ne by done].
    - eexists. split; [done|]. simpl. congruence.
    - by exists y. }
  assert (wf (λ m, D m ∨ m = d) ns1) as Hwf1.
  { apply (wf_set_dir D _ (nodes s) d x _ t c t' c); try done.
    - unfold ordered in *. rewrite E1 in Hord. rewrite E2. by apply (ordered_delete (higher (nodes s)) n).
    - intros m Hm. left. rewrite E1. rewrite E2 in Hm. set_solver.
    - auto.
    - intros Hnd. exfalso. apply Hnd. by right. }
  set (ns2 := <[n := set_avl_depth dx y1]> ns1).
  assert (∀ e, entries_of ns2 e = entries_of ns1 e) as He2.
  { intros e. unfold ns2. rewrite entries_insert. case_decide; [|done]. subst e. unfold entries_of. by rewrite Hy1. }
  assert (entries_of ns1 d = elements t') as Hed1 by (unfold ns1; by rewrite entries_insert, decide_True).
  assert (∃ x', ns2 !! d = Some x' ∧ _content x' = DIRECTORY t' c) as (x' & Hx' & Hcx').
  { unfold ns2. destruct (decide (n = d)) as [->|]; [rewrite lookup_insert_eq|rewrite lookup_insert_ne by done].
    - eexists. split; [done|]. unfold ns1 in Hy1. rewrite lookup_insert_eq in Hy1. by injection Hy1 as <-.
    - unfold ns1. rewrite lookup_insert_eq. by eexists. }
  exists ns2, x', t'. split_and!.
  - unfold detach, mbind, exc_bind. unfold get_node at 1. rewrite Hy. rewrite (get_dir_eq s d x t c) by done.
    unfold Avl_tree.remove. rewrite Hr. unfold get_node at 1. rewrite Hd. unfold set_node at 1, modify.
    fold ns1. unfold get_node. cbn [with_nodes nodes]. fold ns1. rewrite Hy1. done.
  - by apply (wf_update _ ns1 n y1).
  - done.
  - done.
  - by exists k1, k2.
  - by rewrite He2.
  - intros e Hne. rewrite He2. unfold ns1. by rewrite entries_insert, decide_False.
  - intros m. apply (same_attrs_trans _ ns1); [by apply (same_attrs_insert_dir _ _ x t c)|].
    unfold same_attrs, ns2. destruct (decide (m = n)) as [->|]; [|by rewrite lookup_insert_ne].
    rewrite lookup_insert_eq, Hy1. done.
  - intros e. rewrite He2. destruct (decide (e = d)) as [->|].
    + rewrite Hed1, E2. intros Hk.
      assert (NoDup (elements t)) as Hnd.
      { clear -Hord. unfold ordered in Hord. induction Hord as [|m l Hl IH Hm]; constructor; [|done].
        intros Hin. rewrite Forall_forall in Hm. by apply (higher_irrefl (nodes s) m m (Hm m Hin)). }
      rewrite E1, <- Permutation_middle in Hnd. by apply NoDup_cons in Hnd as [? _].
    + unfold ns1. rewrite entries_insert, decide_False by done. intros He.
      apply n0. apply (wf_parent _ _ Hwf e d n); [done|by rewrite Hed].
Qed.

Lemma same_attrs_refl ns m : same_attrs ns ns m.
Proof. done. Qed.

Lemma release_spec D (s : state A E) d n x t c :
  wf D (nodes s) → nodes s !! d = Some x → _content x = DIRECTORY t c → n ∈ elements t →
  ∃ ns', release_entry d n s = (Ok tt, upd ns' (allocator s) s) ∧ wf D ns' ∧
    (∃ k1 k2, entries_of (nodes s) d = k1 ++ n :: k2 ∧ entries_of ns' d = k1 ++ k2) ∧
    (∀ e, e ≠ d → entries_of ns' e = entries_of (nodes s) e) ∧ (∀ m, same_attrs (nodes s) ns' m) ∧ orphan ns' n.
Proof.
  intros Hwf Hd Hc Hin.
  assert (entries_of (nodes s) d = elements t) as Hed by (unfold entries_of; by rewrite Hd, Hc).
  destruct (detach_spec D s d n x t c Hwf Hd Hc Hin)
    as (ns1 & x' & t' & Hdet & Hwf1 & Hx' & Hc' & (k1 & k2 & E1 & E2) & He1 & Hoth & Hattr & Ho).
  set (ns2 := <[d := set_content (DIRECTORY t' (c -64 1)) x']> ns1).
  assert (∀ e, entries_of ns2 e = entries_of ns1 e) as He2.
  { intros e. unfold ns2. rewrite entries_insert. case_decide; [|done]. subst e. by rewrite He1. }
  exists ns2. split_and!.
  - unfold release_entry, mbind, exc_bind. rewrite Hdet. rewrite (get_dir_eq _ d x' t' c) by done.
    unfold get_node. cbn [upd nodes]. rewrite Hx'. done.
  - apply (wf_set_dir (λ m, D m ∨ m = d) D ns1 d x' _ t' c t' (c -64 1)); try done.
    + by apply (wf_order _ _ Hwf1 d x' t' c).
    + auto.
    + intros m Hmd [?|?]; done.
    + intros HD. rewrite (wf_count _ _ Hwf d x t c) by done. rewrite E1, E2, !length_app. simpl.
      unfold wrap. rewrite Zminus_mod_idemp_l. f_equal. lia.
  - exists k1, k2. rewrite Hed, He2, He1. done.
  - intros e Hne. rewrite He2. by apply Hoth.
  - intros m. apply (same_attrs_trans _ ns1); [apply Hattr|]. by apply (same_attrs_insert_dir _ _ x' t' c).
  - intros e. rewrite He2. apply Ho.
Qed.

(** *** Destroying and emptying *)

Lemma destroy_spec (s : state A E) n x : nodes s !! n = Some x →
  ∃ a, destroy_node n s = (Ok tt, upd (base.delete n (nodes s)) a s).
Proof. intros Hn. unfold destroy_node, mbind, exc_bind, get_node. rewrite Hn. by eexists. Qed.

Lemma notify_spec (s : state A E) n x : nodes s !! n = Some x →
  notify n s = (Ok tt, State (nodes s) (next_node s) (inode_count s) (handles s) (watches s)
                         (next_handle s) (allocator s) (responses s ++ _watch_handles x)).
Proof. intros Hn. unfold notify, mbind, exc_bind, get_node. by rewrite Hn. Qed.

Inductive below ns (d : Z) : Z → Prop :=
  | below_entry m : m ∈ entries_of ns d → below ns d m
  | below_step m k : below ns d m → k ∈ entries_of ns m → below ns d k.

Lemma below_mono ns ns' d m : (∀ e k, k ∈ entries_of ns' e → k ∈ entries_of ns e) → below ns' d m → below ns d m.
Proof. intros Hsub. induction 1 as [m Hm|m k _ IH Hk]; [constructor; auto|]. by apply (below_step _ _ m); [|apply Hsub]. Qed.

Lemma below_trans ns d n m : n ∈ entries_of ns d → below ns n m → below ns d m.
Proof.
  intros Hn. induction 1 as [m Hm|m k _ IH Hk]; [|by apply (below_step _ _ m)].
  by apply (below_step _ _ n); [constructor|].
Qed.

Lemma below_placed ns d m : below ns d m → ∃ e, m ∈ entries_of ns e.
Proof. destruct 1; eauto. Qed.

Lemma wf_weaken (D D' : Z → Prop) ns : (∀ d, D d → D' d ∨ ns !! d = None) → wf D ns → wf D' ns.
Proof.
  intros HD [? ? ? ? Hcnt ?]. constructor; try done. intros d x t c Hd Hc Hn.
  apply (Hcnt d x t c); [done..|]. intros Hdd. destruct (HD d Hdd) as [?|?]; [done|congruence].
Qed.

(** The nodes that are an entry of some directory. *)
Definition placed ns : gset Z := map_fold (λ d _ acc, list_to_set (entries_of ns d) ∪ acc) ∅ ns.

Lemma elem_of_placed ns n : n ∈ placed ns ↔ ∃ d, n ∈ entries_of ns d.
Proof.
  unfold placed. set (f := entries_of ns).
  assert (n ∈ map_fold (λ d (_ : node E) acc, list_to_set (f d) ∪ acc) (∅ : gset Z) ns ↔
    ∃ d, is_Some (ns !! d) ∧ n ∈ f d) as ->.
  { generalize f. clear f. intros f. apply (map_fold_weak_ind (λ r m, n ∈ r ↔ ∃ d, is_Some (m !! d) ∧ n ∈ f d)).
    - split; [set_solver|]. intros (d & [? Hd] & _). by rewrite lookup_empty in Hd.
    - intros d x m r Hm IH. rewrite elem_of_union, elem_of_list_to_set, IH. split.
      + intros [?|(e & ? & ?)]; [exists d; by rewrite lookup_insert_eq|exists e].
        destruct (decide (e = d)) as [->|]; [by rewrite lookup_insert_eq|by rewrite lookup_insert_ne].
      + intros (e & Hs & ?). destruct (decide (e = d)) as [->|]; [by left|right]. exists e.
        by rewrite lookup_insert_ne in Hs. }
  unfold f. split; [intros (d & _ & ?); by exists d|]. intros (d & Hd). exists d. split; [|done].
  unfold entries_of in Hd. destruct (ns !! d); [done|]. by apply elem_of_nil in Hd.
Qed.

Definition weight ns : nat := base.size (placed ns).

Lemma weight_bound D ns : wf D ns → (weight ns ≤ base.size ns)%nat.
Proof.
  intros Hwf. unfold weight. rewrite <- size_dom. apply subseteq_size. intros n Hn.
  apply elem_of_placed in Hn as [d Hd]. apply elem_of_dom. by apply (wf_entry _ _ Hwf d).
Qed.

Lemma weight_mono ns ns' : (∀ e k, k ∈ entries_of ns' e → k ∈ entries_of ns e) → (weight ns' ≤ weight ns)%nat.
Proof.
  intros Hsub. unfold weight. apply subseteq_size. intros n Hn. apply elem_of_placed in Hn as [d Hd].
  apply elem_of_placed. eauto.
Qed.

Lemma weight_less ns ns' d n : (∀ e k, k ∈ entries_of ns' e → k ∈ entries_of ns e) →
  n ∈ entries_of ns d → orphan ns' n → (weight ns' < weight ns)%nat.
Proof.
  intros Hsub Hn Ho. unfold weight. apply subset_size. split.
  - intros m Hm. apply elem_of_placed in Hm as [e He]. apply elem_of_placed. eauto.
  - intros Hsup. assert (n ∈ placed ns') as Hin by (apply Hsup, elem_of_placed; eauto).
    apply elem_of_placed in Hin as [e He]. by apply (Ho e).
Qed.

(** A file with a registered handle. *)
Definition held ns (m : Z) : Prop :=
  ∃ x f, ns !! m = Some x ∧ _content x = CONTINUOUS_FILE f ∧ opened x = true.

(** A file with a registered handle is as it was, and any other node is destroyed. *)
Definition disposed ns ns' (m : Z) : Prop :=
  held ns m ∧ same_attrs ns ns' m ∨ ¬ held ns m ∧ ns' !! m = None.

(** What emptying leaves of the nodes: those that are not below [d] are as they were,
    those below are disposed of, and no entry is added. *)
Definition pruned ns ns' (d : Z) : Prop :=
  (∀ e k, k ∈ entries_of ns' e → k ∈ entries_of ns e) ∧
  (∀ m, is_Some (ns' !! m) → is_Some (ns !! m)) ∧
  (∀ m, ¬ below ns d m → same_attrs ns ns' m ∧ (m ≠ d → entries_of ns' m = entries_of ns m)) ∧
  ∀ m, below ns d m → disposed ns ns' m.

(** What a step leaves that disposes of [n] and what is below it. *)
Definition shed ns ns' (n : Z) : Prop :=
  (∀ e k, k ∈ entries_of ns' e → k ∈ entries_of ns e) ∧
  (∀ m, is_Some (ns' !! m) → is_Some (ns !! m)) ∧
  (∀ m, ¬ below ns n m → m ≠ n → same_attrs ns ns' m ∧ entries_of ns' m = entries_of ns m) ∧
  ∀ m, below ns n m → disposed ns ns' m.

Lemma same_attrs_watches ns ns' m x y :
  same_attrs ns ns' m → ns !! m = Some x → ns' !! m = Some y →
  _watch_handles y = _watch_handles x ∧ opened y = opened x ∧
  (∀ f, _content y = CONTINUOUS_FILE f → _content x = CONTINUOUS_FILE f) ∧
  (∀ f, _content x = CONTINUOUS_FILE f → _content y = CONTINUOUS_FILE f).
Proof.
  unfold same_attrs. intros Hs Hx Hy. rewrite Hx, Hy in Hs. simpl in Hs. unfold attrs in Hs. injection Hs as _ _ Hio Hw _ Hc.
  unfold opened. rewrite Hio. split_and!; [done|done| |]; intros f Hf; rewrite Hf in Hc.
  - destruct (_content x); by simplify_eq.
  - destruct (_content y); by simplify_eq.
Qed.

Lemma same_attrs_held ns ns' m : same_attrs ns ns' m → held ns m ↔ held ns' m.
Proof.
  intros Ha. split; intros (x & f & Hx & Hc & Ho).
  - destruct (proj2 (same_attrs_some _ _ m Ha) ltac:(by eexists)) as [y Hy].
    destruct (same_attrs_watches _ _ m x y Ha Hx Hy) as (_ & Hop & _ & Hf). exists y, f.
    split_and!; [done|by apply Hf|by rewrite Hop].
  - destruct (proj1 (same_attrs_some _ _ m Ha) ltac:(by eexists)) as [y Hy].
    destruct (same_attrs_watches _ _ m y x Ha Hy Hx) as (_ & Hop & Hf & _). exists y, f.
    split_and!; [done|by apply Hf|by rewrite <- Hop].
Qed.

Lemma disposed_before ns ns1 ns' m : same_attrs ns ns1 m → disposed ns1 ns' m → disposed ns ns' m.
Proof.
  intros Ha [[Hh Hs]|[Hh Hn]]; [left|right]; rewrite (same_attrs_held _ _ m Ha); [|done].
  split; [done|by apply (same_attrs_trans _ ns1)].
Qed.

Lemma disposed_later ns ns1 ns' m :
  (∀ m, is_Some (ns' !! m) → is_Some (ns1 !! m)) → (held ns m → same_attrs ns1 ns' m) →
  disposed ns ns1 m → disposed ns ns' m.
Proof.
  intros Hdom Hsame [[Hh Hs]|[Hh Hn]]; [left|right]; (split; [done|]).
  - apply (same_attrs_trans _ ns1); [done|by apply Hsame].
  - destruct (ns' !! m) eqn:Hm; [|done]. destruct (Hdom m ltac:(by eexists)). congruence.
Qed.

(** A node that is destroyed. *)
Lemma disposed_deleted ns ns' n : ¬ held ns n → disposed ns (base.delete n ns') n.
Proof. intros Hn. right. by rewrite lookup_delete_eq. Qed.

Lemma not_below_empty ns n m : entries_of ns n = [] → ¬ below ns n m.
Proof. intros He. induction 1 as [m Hm|m k _ IH _]; [|done]. rewrite He in Hm. by apply elem_of_nil in Hm. Qed.

Lemma shed_refl ns n : entries_of ns n = [] → shed ns ns n.
Proof. intros He. split_and!; [done..|]. intros m Hm. by apply not_below_empty in Hm. Qed.

Lemma shed_pruned ns ns' n : pruned ns ns' n → shed ns ns' n.
Proof. intros (Hsub & Hdom & Hp & Hd). split_and!; [done|done| |done]. intros m Hm Hmn. destruct (Hp m Hm). auto. Qed.

Lemma shed_delete D ns ns' n :
  wf D ns' → n ≠ ROOT → orphan ns' n → shed ns ns' n → shed ns (base.delete n ns') n.
Proof.
  intros Hwf Hroot Ho (Hsub & Hdom & Hkeep & Hdis). destruct (wf_delete D ns' n Hwf Hroot Ho) as [_ He].
  assert (∀ m, is_Some (base.delete n ns' !! m) → is_Some (ns' !! m)) as Hdel
    by (intros m [w Hm]; apply lookup_delete_Some in Hm as [_ Hm]; by eexists).
  split_and!.
  - intros e k Hk. apply Hsub. destruct (decide (e = n)) as [->|]; [|by rewrite <- He].
    unfold entries_of in Hk at 1. rewrite lookup_delete_eq in Hk. set_solver.
  - intros m Hm. by apply Hdom, Hdel.
  - intros m Hm Hmn. destruct (Hkeep m Hm Hmn) as [Hs Hem]. rewrite He by done. split; [|done].
    unfold same_attrs. by rewrite lookup_delete_ne.
  - intros m Hm. apply (disposed_later _ ns'), Hdis; [done| |done]. intros (x & f & Hx & Hc & _).
    destruct (decide (m = n)) as [->|Hmn]; [|unfold same_attrs; by rewrite lookup_delete_ne].
    apply not_below_empty in Hm; [done|]. unfold entries_of. by rewrite Hx, Hc.
Qed.

(** Nothing is below two nodes that are no entries. *)
Lemma below_orphans D ns n d m :
  wf D ns → orphan ns n → orphan ns d → below ns n m → below ns d m → n = d.
Proof.
  intros Hwf Hn Hd. induction 1 as [m Hm|m k Hb IH Hm]; intros Hb'.
  - inversion Hb' as [? Hm'|x ? Hx Hm']; subst; [by apply (wf_parent _ _ Hwf n d m)|].
    rewrite <- (wf_parent _ _ Hwf n x m) in Hx by done. apply below_placed in Hx as [e He]. by destruct (Hn e).
  - inversion Hb' as [? Hm'|x ? Hx Hm']; subst.
    + rewrite (wf_parent _ _ Hwf m d k) in Hb by done. apply below_placed in Hb as [e He]. by destruct (Hd e).
    + apply IH. by rewrite (wf_parent _ _ Hwf m x k).
Qed.

(** Below [d] is the entry [n] that was taken out, what was below [n], and what is below
    [d] still. *)
Lemma below_split D ns ns1 ns2 d n k1 k2 m :
  wf D ns1 → entries_of ns d = k1 ++ n :: k2 → entries_of ns1 d = k1 ++ k2 →
  (∀ e, e ≠ d → entries_of ns1 e = entries_of ns e) → orphan ns1 n → orphan ns1 d → n ≠ d →
  shed ns1 ns2 n → below ns d m → m = n ∨ below ns1 n m ∨ below ns2 d m ∧ ¬ below ns1 n m.
Proof.
  intros Hwf E1 E2 Hoth Hon Hod Hnd (_ & _ & Hkeep & _).
  assert (∀ x k, ¬ below ns1 n x → x ≠ n → k ∈ entries_of ns1 x → ¬ below ns1 n k) as Hstay.
  { intros x k Hx Hxn Hk Hb. inversion Hb as [? Hk'|x' ? Hx' Hk']; subst.
    - by apply Hxn, (wf_parent _ _ Hwf x n k).
    - apply Hx. by rewrite (wf_parent _ _ Hwf x x' k). }
  assert (¬ below ns1 n d) as Hnbd by (intros Hb; apply below_placed in Hb as [e He]; by apply (Hod e)).
  assert (∀ k, k ∈ entries_of ns d → k = n ∨ below ns1 n k ∨ below ns2 d k ∧ ¬ below ns1 n k) as Hentry.
  { intros k Hk. assert (k = n ∨ k ∈ entries_of ns1 d) as [->|Hk1] by (rewrite E1 in Hk; rewrite E2; set_solver); [by left|].
    right; right. split; [|by apply (Hstay d)]. constructor. by destruct (Hkeep d Hnbd (not_eq_sym Hnd)) as [_ ->]. }
  induction 1 as [k Hk|x k Hx IH Hk]; [by apply Hentry|].
  destruct (decide (x = d)) as [->|Hxd]; [by apply Hentry|]. rewrite <- Hoth in Hk by done.
  destruct IH as [->|[Hb|[Hb Hnb]]].
  - right; left. by constructor.
  - right; left. by apply (below_step _ _ x).
  - destruct (decide (x = n)) as [->|Hxn]; [right; left; by constructor|].
    right; right. split; [|by apply (Hstay x)]. apply (below_step _ _ x); [done|].
    by destruct (Hkeep x Hnb Hxn) as [_ ->].
Qed.

(** Emptying goes on where an entry [n] of [d] was taken out and disposed of. *)
Lemma pruned_step D ns ns1 ns2 ns' d n k1 k2 :
  wf D ns1 → entries_of ns d = k1 ++ n :: k2 → entries_of ns1 d = k1 ++ k2 →
  (∀ e, e ≠ d → entries_of ns1 e = entries_of ns e) → (∀ m, same_attrs ns ns1 m) →
  orphan ns1 n → orphan ns1 d → n ≠ d →
  shed ns1 ns2 n → disposed ns1 ns2 n → pruned ns2 ns' d → pruned ns ns' d.
Proof.
  intros Hwf E1 E2 Hoth Hattr Hon Hod Hnd' Hshed Hdn (Hp1 & Hpd & Hp2 & Hp3).
  pose proof Hshed as (Hsub2 & Hdom2 & Hkeep & Hdis).
  assert (∀ e k, k ∈ entries_of ns1 e → k ∈ entries_of ns e) as Hsub1.
  { intros e k. destruct (decide (e = d)) as [->|]; [|by rewrite Hoth]. rewrite E1, E2. set_solver. }
  assert (n ∈ entries_of ns d) as Hnd by (rewrite E1; set_solver).
  split_and!.
  - intros e k Hk. apply Hsub1, Hsub2, Hp1, Hk.
  - intros m Hm. by apply (same_attrs_some _ _ m (Hattr m)), Hdom2, Hpd.
  - intros m Hm.
    assert (¬ below ns2 d m) as Hm2 by (intros Hb; apply Hm; eapply below_mono; [|exact Hb]; intros; by apply Hsub1, Hsub2).
    destruct (Hp2 m Hm2) as [Hs2 He2]. assert (m ≠ n) as Hmn by (intros ->; apply Hm; by constructor).
    assert (¬ below ns1 n m) as Hm1.
    { intros Hb. apply Hm. apply (below_trans _ _ n); [done|]. by eapply below_mono. }
    destruct (Hkeep m Hm1 Hmn) as [Hs1 He1]. split.
    + apply (same_attrs_trans _ ns1); [apply Hattr|]. by apply (same_attrs_trans ns1 ns2).
    + intros Hmd. rewrite He2, He1 by done. by apply Hoth.
  - intros m Hm. apply (disposed_before _ ns1); [apply Hattr|]. destruct (decide (m = n)) as [->|Hmn].
    { apply (disposed_later _ ns2); [done| |done]. intros _. apply Hp2. intros Hb.
      apply below_placed in Hb as [e He]. by apply (Hon e), Hsub2. }
    destruct (below_split D ns ns1 ns2 d n k1 k2 m) as [?|[Hb|[Hb Hnb]]]; [done..| |].
    + apply (disposed_later _ ns2); [done| |by apply Hdis]. intros _. apply Hp2. intros Hb2.
      apply Hnd'. eapply (below_orphans D ns1); [done..|]. by eapply below_mono.
    + apply (disposed_before _ ns2); [by apply Hkeep|]. by apply Hp3.
Qed.

Lemma no_dir_entries ns n x :
  ns !! n = Some x → match _content x with DIRECTORY _ _ => False | _ => True end → entries_of ns n = [].
Proof. intros Hx Hc. unfold entries_of. rewrite Hx. by destruct (_content x). Qed.

Lemma empty_dir_spec fuel D (s : state A E) d :
  wf D (nodes s) → D d → is_dir (nodes s) d → orphan (nodes s) d → (weight (nodes s) < fuel)%nat →
  ∃ ns' a', empty_dir fuel d s = (Ok tt, upd ns' a' s) ∧ wf D ns' ∧ entries_of ns' d = [] ∧ pruned (nodes s) ns' d.
Proof.
  revert D s d. induction fuel as [|fuel IH]; intros D s d Hwf HDd (x & t & c & Hd & Hc) Ho Hw; [lia|].
  cbn [empty_dir]. rewrite (bind_ok _ _ _ _ _ (get_dir_eq s d x t c Hd Hc)).
  assert (entries_of (nodes s) d = elements t) as Hed by (unfold entries_of; by rewrite Hd, Hc).
  destruct (first t) as [n|] eqn:Hf.
  2:{ destruct t; [|done]. exists (nodes s), (allocator s). split; [by destruct s|]. split; [done|]. split; [by rewrite Hed|].
      split_and!; [done|done|by intros m _|]. intros m Hm. by apply not_below_empty in Hm; [|rewrite Hed]. }
  assert (n ∈ elements t) as Hin by (destruct t; simplify_eq/=; set_solver).
  destruct (detach_spec D s d n x t c Hwf Hd Hc Hin)
    as (ns1 & x1 & t1 & Hdet & Hwf1 & Hx1 & Hc1 & (k1 & k2 & E1 & E2) & He1 & Hoth & Hattr & Hon).
  rewrite (bind_ok _ _ _ _ _ Hdet). rewrite E1 in Hed. rewrite E2 in He1.
  assert (wf D ns1) as Hwf1' by (eapply wf_weaken; [|exact Hwf1]; intros e [?| ->]; by left).
  assert (∀ e k, k ∈ entries_of ns1 e → k ∈ entries_of (nodes s) e) as Hsub1.
  { intros e k. destruct (decide (e = d)) as [->|]; [|by rewrite Hoth]. rewrite He1, Hed. set_solver. }
  assert (n ∈ entries_of (nodes s) d) as Hnd by (rewrite Hed; set_solver).
  assert (weight ns1 < weight (nodes s))%nat as Hw1 by by apply (weight_less _ _ d n).
  assert (orphan ns1 d) as Hod by (intros e He; by apply (Ho e), Hsub1).
  destruct (wf_entry _ _ Hwf d n Hnd) as [Hsn Hroot].
  destruct (proj2 (same_attrs_some _ _ n (Hattr n)) Hsn) as [y Hy].
  assert (n ≠ d) as Hnd' by (intros ->; by apply (Ho d)).
  assert (∀ ns2 a2, wf D ns2 → shed ns1 ns2 n → disposed ns1 ns2 n →
    ∃ ns' a', empty_dir fuel d (upd ns2 a2 s) = (Ok tt, upd ns' a' s) ∧ wf D ns' ∧ entries_of ns' d = [] ∧
      pruned (nodes s) ns' d) as Hrest.
  { intros ns2 a2 Hwf2 Hshed Hdn. pose proof Hshed as (Hsub2 & _ & Hkeep & _).
    assert (¬ below ns1 n d) as Hnbd by (intros Hb; apply below_placed in Hb as [e He]; by apply (Hod e)).
    destruct (IH D (upd ns2 a2 s) d Hwf2 HDd) as (ns' & a' & Hrun & Hwf' & Hemp & Hp).
    - apply (same_attrs_dir ns1); [by apply Hkeep|]. by exists x1, t1, c.
    - intros e He. by apply (Hod e), Hsub2.
    - cbn [upd nodes]. pose proof (weight_mono _ _ Hsub2). lia.
    - exists ns', a'. split_and!; [done..|]. by apply (pruned_step D (nodes s) ns1 ns2 ns' d n k1 k2). }
  assert (∀ D2 ns2 a2, wf D2 ns2 → (∀ e, D2 e → D e ∨ e = n) → orphan ns2 n → is_Some (ns2 !! n) → shed ns1 ns2 n →
    ¬ held ns1 n → ∃ ns' a', mbind (λ _, empty_dir fuel d) (destroy_node n) (upd ns2 a2 s) = (Ok tt, upd ns' a' s) ∧
      wf D ns' ∧ entries_of ns' d = [] ∧ pruned (nodes s) ns' d) as Hdestroy.
  { intros D2 ns2 a2 Hwf2 HD2 Ho2 [z Hz] Hshed Hnh. destruct (destroy_spec (upd ns2 a2 s) n z Hz) as [a3 Hde].
    rewrite (bind_ok _ _ _ _ _ Hde). apply (Hrest (base.delete n ns2) a3);
      [|by apply (shed_delete D2)|by apply disposed_deleted].
    eapply wf_weaken; [|by apply (wf_delete D2)]. intros e He. destruct (HD2 e He) as [?| ->]; [by left|right].
    by rewrite lookup_delete_eq. }
  rewrite (bind_ok _ _ _ _ _ (get_node_eq (upd ns1 (allocator s) s) n y Hy)).
  pose proof (λ He : entries_of ns1 n = [], Hdestroy D ns1 (allocator s) Hwf1' ltac:(auto) Hon ltac:(by eexists) (shed_refl ns1 n He)) as Hd1.
  destruct (_content y) as [f|ty cy|l] eqn:Hcy.
  - assert (entries_of ns1 n = []) as Hen by (apply (no_dir_entries _ _ y); [done|by rewrite Hcy]).
    destruct (opened y) eqn:Hop; [|apply (Hd1 Hen); intros (x' & f' & ? & _ & ?); congruence].
    apply (Hrest ns1 (allocator s)); [done|by apply shed_refl|left; split; [by exists y, f|done]].
  - destruct (IH (λ e, D e ∨ e = n) (upd ns1 (allocator s) s) n) as (nsb & ab & Hrun & Hwfb & Hempb & Hb); try done;
      [by eapply wf_weaken; [|exact Hwf1']; auto|by right|by exists y, ty, cy|cbn [upd nodes]; lia|].
    rewrite (bind_ok _ _ _ _ _ Hrun). pose proof Hb as (Hb1 & _ & Hb2 & _).
    apply (Hdestroy _ nsb ab Hwfb); [done|intros e He; by apply (Hon e), Hb1| |by apply shed_pruned
      |intros (x' & f' & ? & ? & _); congruence].
    apply (same_attrs_some ns1); [apply Hb2|by eexists]. intros Hn. apply below_placed in Hn as [e He]. by apply (Hon e).
  - apply Hd1; [apply (no_dir_entries _ _ y); [done|by rewrite Hcy]|intros (x' & f' & ? & ? & _); congruence].
Qed.

(** [remove]: an unopened node is destroyed with everything below it. *)
Lemma remove_node_spec (s : state A E) n x :
  wf (λ _, False) (nodes s) → nodes s !! n = Some x → n ≠ ROOT → orphan (nodes s) n →
  (∀ f, _content x = CONTINUOUS_FILE f → opened x = false) →
  ∃ ns' a', remove_node n s = (Ok tt, upd ns' a' s) ∧ wf (λ _, False) ns' ∧ ns' !! n = None ∧ shed (nodes s) ns' n.
Proof.
  intros Hwf Hx Hroot Ho Hfile. unfold remove_node. rewrite (bind_ok _ _ _ _ _ (get_node_eq s n x Hx)).
  assert (∀ D ns a, wf D ns → (∀ e, D e → e = n) → orphan ns n → is_Some (ns !! n) → shed (nodes s) ns n →
    ∃ ns' a', destroy_node n (upd ns a s) = (Ok tt, upd ns' a' s) ∧ wf (λ _, False) ns' ∧ ns' !! n = None ∧
      shed (nodes s) ns' n) as Hdes.
  { intros D ns a Hwf2 HD Ho2 [z Hz] Hshed. destruct (destroy_spec (upd ns a s) n z Hz) as [a3 Hde].
    exists (base.delete n ns), a3. split_and!; [by rewrite Hde| |by rewrite lookup_delete_eq|by apply (shed_delete D)].
    eapply wf_weaken; [|by apply (wf_delete D)]. intros e He. right. rewrite (HD e He). by rewrite lookup_delete_eq. }
  assert (entries_of (nodes s) n = [] → ∃ ns' a', destroy_node n s = (Ok tt, upd ns' a' s) ∧ wf (λ _, False) ns' ∧
    ns' !! n = None ∧ shed (nodes s) ns' n) as Hdes1.
  { intros He. assert (s = upd (nodes s) (allocator s) s) as Hs by by destruct s.
    destruct (Hdes (λ _, False) (nodes s) (allocator s)) as (ns' & a' & Hrun & Hrest);
      [done|done|done|by eexists|by apply shed_refl|]. rewrite <- Hs in Hrun. by exists ns', a'. }
  destruct (_content x) as [f|t c|l] eqn:Hc.
  - rewrite (Hfile f) by done. apply Hdes1, (no_dir_entries _ _ x); [done|by rewrite Hc].
  - unfold get_state. unfold mbind at 1, exc_bind at 1.
    destruct (empty_dir_spec (S (base.size (nodes s))) (λ e, e = n) s n) as (ns1 & a1 & Hrun & Hwf1 & Hemp & Hp);
      [by eapply wf_weaken; [|exact Hwf]|done|by exists x, t, c|done|pose proof (weight_bound _ _ Hwf); lia|].
    rewrite (bind_ok _ _ _ _ _ Hrun). pose proof Hp as (Hp1 & _ & Hp2 & _).
    apply (Hdes (λ e, e = n) ns1 a1); [done|done|intros e He; by apply (Ho e), Hp1| |by apply shed_pruned].
    apply (same_attrs_some (nodes s)); [apply Hp2|by eexists]. intros Hb. apply below_placed in Hb as [e He]. by apply (Ho e).
  - apply Hdes1, (no_dir_entries _ _ x); [done|by rewrite Hc].
Qed.

(** ** Path resolution *)

(** The names between the slashes. *)
Fixpoint components (buf name : list Z) : list (list Z) :=
  match buf with
  | [] => [name]
  | c :: buf => if c =? ch_slash then name :: components buf [] else components buf (name ++ [c])
  end.

Definition is_dirb ns (n : Z) : bool :=
  match ns !! n with Some x => match as_directory x with Some _ => true | None => false end | None => false end.

Fixpoint resolve ns (return_parent : bool) (names : list (list Z)) (dir : Z) : option Z :=
  match names with
  | [] => None
  | name :: names' =>
      match names' with
      | [] => if return_parent then Some dir else entry ns dir name
      | _ => match entry ns dir name with
             | Some n => if is_dirb ns n then resolve ns return_parent names' n else None
             | None => None
             end
      end
  end.

Definition strip (path : list Z) : list Z := if deref path =? ch_slash then tail path else path.

(** The node a path denotes, or the directory that contains it. *)
Definition spec_lookup ns (path : list Z) (return_parent : bool) : option Z :=
  match strip path with [] => Some ROOT | p => resolve ns return_parent (components p []) ROOT end.

Definition valid_path (path : list Z) : Prop :=
  Forall (.≠ 0) path ∧ Z.of_nat (length path) < MAX_PATH_LEN.

Abbreviation ok_wf := (wf (λ _, False)).

Lemma is_dirb_dir ns n : is_dirb ns n = true ↔ is_dir ns n.
Proof.
  unfold is_dirb, is_dir, as_directory. destruct (ns !! n) as [x|].
  - destruct (_content x) as [|t c|] eqn:Hc; (split; [|intros (x' & t' & c' & Hx & Hc'); injection Hx as <-; congruence]); try done.
    intros _. by exists x, t, c.
  - split; [done|]. by intros (x' & t' & c' & Hx & _).
Qed.

Lemma entry_in ns d name n : entry ns d name = Some n → n ∈ entries_of ns d ∧ name_of ns n = name.
Proof.
  unfold entry. intros Hh. assert (n ∈ filter (λ n, name_of ns n = name) (entries_of ns d)) as Hin.
  { destruct (filter _ _); simplify_eq/=. constructor. }
  apply list_elem_of_filter in Hin as [? ?]. done.
Qed.

Lemma components_cons buf name : ∃ x xs, components buf name = x :: xs.
Proof. revert name. induction buf as [|c buf IH]; intros name; simpl; [eauto|]. case_match; eauto. Qed.

Lemma lookup_loop_eq (s : state A E) rp buf name dir :
  ok_wf (nodes s) → is_dir (nodes s) dir → Forall (.≠ 0) (name ++ buf) →
  Z.of_nat (length (name ++ buf)) < MAX_PATH_LEN →
  lookup_loop rp buf name dir s = (Ok (resolve (nodes s) rp (components buf name) dir), s).
Proof.
  intros Hwf. revert name dir. induction buf as [|c buf IH]; intros name dir Hdir Hnz Hlen;
    pose proof Hdir as (x & t & cnt & Hx & Hc); cbn [lookup_loop components].
  - cbn [resolve]. destruct rp; [done|]. rewrite app_nil_r in *.
    by apply (child_entry (λ _, False) s dir x t cnt).
  - apply Forall_app in Hnz as [Hn Hb]. apply Forall_cons in Hb as [Hc0 Hb].
    rewrite length_app in Hlen. simpl in Hlen. destruct (Z.eqb_spec c ch_slash).
    + rewrite (bind_ok _ _ _ _ _ (child_entry (λ _, False) s dir x t cnt name Hwf ltac:(split; [done|lia]) Hx Hc)).
      destruct (components_cons buf []) as (y & ys & Hcomp). cbn [resolve]. rewrite Hcomp, <- Hcomp.
      destruct (entry (nodes s) dir name) as [n|] eqn:He; [|done].
      apply entry_in in He as [Hin _]. destruct (wf_entry _ _ Hwf dir n Hin) as [[z Hz] _].
      rewrite (bind_ok _ _ _ _ _ (get_node_eq s n z Hz)). unfold is_dirb. rewrite Hz.
      destruct (as_directory z) as [[tz cz]|] eqn:Hd; [|done]. apply IH; [|done|simpl; lia].
      unfold as_directory in Hd. destruct (_content z) as [|t' c'|] eqn:Hcz; simplify_eq. by exists z, tz, cz.
    + apply IH; [done| |].
      * rewrite <- app_assoc. apply Forall_app. split; [done|]. by constructor.
      * rewrite !length_app. simpl. lia.
Qed.

Lemma root_dir D ns : wf D ns → is_dir ns ROOT.
Proof. intros Hwf. exact (wf_root _ _ Hwf). Qed.

Lemma strip_valid path : valid_path path → valid_path (strip path).
Proof.
  intros [Hp Hl]. unfold strip. case_match; [|done]. destruct path; simpl in *; [done|].
  apply Forall_cons in Hp as [_ Hp]. split; [done|lia].
Qed.

Lemma lookup_eq (s : state A E) path rp : ok_wf (nodes s) → valid_path path →
  lookup path rp s = (Ok (spec_lookup (nodes s) path rp), s).
Proof.
  intros Hwf Hv. pose proof (strip_valid path Hv) as [Hp Hl]. unfold lookup, spec_lookup. fold (strip path).
  unfold strip in *. set (p := if deref path =? ch_slash then tail path else path) in *.
  destruct Hp as [|c p' Hc Hp']; [done|]. unfold deref. cbn [head from_option]. change (id c) with c.
  destruct (Z.eqb_spec c 0); [done|]. rewrite cstr_id by by constructor.
  unfold MAX_PATH_LEN in *. rewrite take_ge by lia.
  apply lookup_loop_eq; [done|by apply (root_dir (λ _, False))|by constructor|done].
Qed.

(** The directories on a path. *)
Inductive reach ns : Z → Prop :=
  | reach_root : reach ns ROOT
  | reach_entry d n : reach ns d → n ∈ entries_of ns d → reach ns n.

Lemma resolve_parent ns names d0 d : reach ns d0 → is_dir ns d0 → resolve ns true names d0 = Some d → reach ns d ∧ is_dir ns d.
Proof.
  revert d0. induction names as [|name names IH]; intros d0 Hr Hd; [done|]. cbn [resolve].
  destruct names as [|name' names']; [by intros [= <-]|].
  destruct (entry ns d0 name) as [n|] eqn:He; [|done]. destruct (is_dirb ns n) eqn:Hdn; [|done].
  apply IH; [|by apply is_dirb_dir]. apply entry_in in He as [? _]. by apply (reach_entry _ d0).
Qed.

Lemma spec_parent_dir ns path d : ok_wf ns → spec_lookup ns path true = Some d → reach ns d ∧ is_dir ns d.
Proof.
  intros Hwf. unfold spec_lookup. destruct (strip path).
  - intros [= <-]. split; [constructor|by apply (root_dir (λ _, False))].
  - apply resolve_parent; [constructor|by apply (root_dir (λ _, False))].
Qed.

Lemma lookup_parent_eq (s : state A E) path : ok_wf (nodes s) → valid_path path →
  lookup_parent path s = (Ok (spec_lookup (nodes s) path true), s).
Proof.
  intros Hwf Hv. unfold lookup_parent. rewrite (bind_ok _ _ _ _ _ (lookup_eq s path true Hwf Hv)).
  destruct (spec_lookup (nodes s) path true) as [d|] eqn:Hd; [|done].
  destruct (spec_parent_dir _ _ _ Hwf Hd) as [_ (x & t & c & Hx & Hc)].
  rewrite (bind_ok _ _ _ _ _ (get_node_eq s d x Hx)). unfold as_directory. by rewrite Hc.
Qed.

(** The base name is the last component. *)
Lemma basename_last buf name : Forall (.≠ 0) buf → basename_loop buf (name ++ buf) = default [] (last (components buf name)).
Proof.
  intros Hb. revert name. induction Hb as [|c buf Hc _ IH]; intros name; simpl; [by rewrite app_nil_r|].
  destruct (Z.eqb_spec c 0); [done|]. destruct (Z.eqb_spec c ch_slash).
  - destruct (components_cons buf []) as (y & ys & Hcomp). specialize (IH []). simpl in IH. by rewrite IH, Hcomp.
  - rewrite <- IH. by rewrite <- app_assoc.
Qed.

Lemma basename_valid path : valid_path path → valid_path (basename path).
Proof.
  intros [Hp Hl]. unfold basename.
  assert (∀ buf start, valid_path buf → valid_path start → valid_path (basename_loop buf start)) as Hgen; [|by apply Hgen].
  clear. intros buf. induction buf as [|c buf IH]; intros start [Hb Hl] Hs; [done|]. simpl.
  apply Forall_cons in Hb as [Hc Hb]. destruct (Z.eqb_spec c 0); [done|]. simpl in Hl.
  apply IH; [split; [done|lia]|]. case_match; [split; [done|lia]|done].
Qed.

Lemma basename_strip path : valid_path path → basename path = basename (strip path).
Proof.
  intros [Hp _]. unfold strip. destruct Hp as [|c p Hc Hp]; [done|]. unfold deref. cbn [head from_option].
  change (id c) with c. destruct (Z.eqb_spec c ch_slash) as [->|]; [|done]. done.
Qed.

(** A path denotes the entry with its base name in its parent directory. *)
Lemma resolve_entry ns names d0 d : resolve ns true names d0 = Some d →
  resolve ns false names d0 = entry ns d (default [] (last names)).
Proof.
  revert d0. induction names as [|name names IH]; intros d0; [done|]. cbn [resolve].
  destruct names as [|name' names']; [by intros [= <-]|].
  destruct (entry ns d0 name) as [n|]; [|done]. destruct (is_dirb ns n); [|done]. apply IH.
Qed.

Lemma spec_lookup_entry ns path d : valid_path path → strip path ≠ [] → spec_lookup ns path true = Some d →
  spec_lookup ns path false = entry ns d (basename path).
Proof.
  intros Hv Hne. rewrite basename_strip by done. pose proof (strip_valid path Hv) as [Hp _].
  unfold spec_lookup. destruct (strip path) as [|c p]; [done|]. intros Hr.
  rewrite (resolve_entry _ _ _ _ Hr). f_equal. symmetry. by apply (basename_last (c :: p) []).
Qed.

Lemma reach_acyclic ns d : ok_wf ns → reach ns d → ¬ below ns d d.
Proof.
  intros Hwf. induction 1 as [|d n Hd IH Hn]; intros Hb.
  - apply below_placed in Hb as [e He]. by destruct (wf_entry _ _ Hwf e ROOT He).
  - assert (n = d ∨ below ns n d) as [->|Hnd].
    { inversion Hb as [m Hm|m k Hm Hk]; subst.
      - left. by apply (wf_parent _ _ Hwf n d n).
      - right. by rewrite <- (wf_parent _ _ Hwf m d n). }
    + apply IH. by constructor.
    + apply IH. by apply (below_trans _ _ n).
Qed.

(** The names in a directory are distinct. *)
Lemma in_entry D ns d name n : wf D ns → n ∈ entries_of ns d → name_of ns n = name → entry ns d name = Some n.
Proof.
  intros Hwf Hin Hname. unfold entry, entries_of in *. destruct (ns !! d) as [x|] eqn:Hd; [|by apply elem_of_nil in Hin].
  destruct (_content x) as [|t c|] eqn:Hc; try by apply elem_of_nil in Hin.
  pose proof (wf_order _ _ Hwf d x t c Hd Hc) as Hord. unfold ordered in Hord.
  induction Hord as [|m l Hl IH Hm]; [by apply elem_of_nil in Hin|]. rewrite Forall_forall in Hm.
  apply elem_of_cons in Hin as [->|Hin]; [by rewrite filter_cons_True|].
  rewrite filter_cons_False; [by apply IH|]. rewrite <- Hname. by apply higher_irrefl, Hm.
Qed.

End Spec.
