(* ===== verification/Ram_fs_props.v ===== *)
(** * Ram_fs_props: the guarantees of the RAM file system

    The properties of the operations of [Ram_fs] on well-formed states: resolution of
    paths, creation of files with every error, unlinking, and the termination of the
    recursive removal.  The last part shows what the operations do at their borders. *)

From S2P Require Import Prelude Avl_tree Cstring Chunk Ram_file Ram_fs Ram_fs_spec.

Open Scope Z_scope.
Open Scope word_scope.

Section Props.
Context {A E : Type} `{Allocator A} `{Chunk_entry A E}.

Abbreviation store := (gmap Z (node E)).
Abbreviation st := (state A E).
Abbreviation ok_wf := (wf (λ _, False)).

(** A state between operations. *)
Record fs_ok (s : st) : Prop := {
  fs_wf : ok_wf (nodes s);
  fs_fresh n : is_Some (nodes s !! n) → n < next_node s;
  fs_next : 0 < next_node s }.

Lemma initial_ok a : fs_ok (initial a).
Proof.
  constructor; unfold initial; cbn [nodes next_node];
    [|intros n [x Hx]; by apply lookup_singleton_Some in Hx as [<- _]|done].
  assert (∀ d, entries_of ({[ROOT := Node_ [] 1 [] [] 0 1 (DIRECTORY Null 0)]} : store) d = []) as He.
  { intros d. unfold entries_of. destruct (_ !! d) as [x|] eqn:Hx; [|done]. by apply lookup_singleton_Some in Hx as [_ <-]. }
  constructor.
  - eexists _, _, _. by rewrite lookup_singleton_eq.
  - intros d n. rewrite He. set_solver.
  - intros d1 d2 n. rewrite He. set_solver.
  - intros d x t c Hx Hc. apply lookup_singleton_Some in Hx as [_ <-]. injection Hc as <- <-. constructor.
  - intros d x t c Hx Hc. apply lookup_singleton_Some in Hx as [_ <-]. by injection Hc as <- <-.
  - intros n x Hx. apply lookup_singleton_Some in Hx as [_ <-]. split; [constructor|done].
Qed.

(** C23: looking up a path changes nothing and finds exactly the node its names lead to
    from the root: the loop that cuts the names out of a buffer resolves each name to the
    one entry of the directory that has it, fails where there is none or where it is not
    a directory, and a path denotes the entry with its base name in its parent. *)
Theorem lookup_resolves (s : st) path rp :
  fs_ok s → valid_path path →
  lookup path rp s = (Ok (spec_lookup (nodes s) path rp), s) ∧
  (∀ d name n, entry (nodes s) d name = Some n ↔ n ∈ entries_of (nodes s) d ∧ name_of (nodes s) n = name) ∧
  (∀ d, strip path ≠ [] → spec_lookup (nodes s) path true = Some d →
    spec_lookup (nodes s) path false = entry (nodes s) d (basename path)).
Proof.
  intros [Hwf _ _] Hp. split_and!; [by apply lookup_eq| |intros; by apply spec_lookup_entry].
  intros d name n. split; [apply entry_in|]. intros [Hin Hn]. by apply (in_entry (λ _, False)).
Qed.

(** ** Creating *)

(** The node [n] was added to directory [d] under a name; all else is as it was. *)
Definition added (ns ns' : store) (d n : Z) (name : list Z) : Prop :=
  entry ns' d name = Some n ∧
  (∀ d' name', (d', name') ≠ (d, name) → entry ns' d' name' = entry ns d' name') ∧
  ∀ m, m ≠ n → same_attrs ns ns' m.

(** The nodes are as they were. *)
Definition unchanged (ns ns' : store) : Prop :=
  (∀ d, entries_of ns' d = entries_of ns d) ∧ ∀ m, same_attrs ns ns' m.

Lemma name_buffer_id name : Forall (.≠ 0) name → Z.of_nat (length name) < MAX_NAME_LEN → name_buffer name = name.
Proof. intros Hn Hl. unfold name_buffer. rewrite cstr_id by done. unfold MAX_NAME_LEN in *. by rewrite take_ge by lia. Qed.

(** The state after a node was created and entered into a directory. *)
Lemma create_node (s : st) d name (c : content E) a :
  fs_ok s → is_dir (nodes s) d → Forall (.≠ 0) name → Z.of_nat (length name) < MAX_NAME_LEN →
  entry (nodes s) d name = None → match c with DIRECTORY t k => t = Null ∧ k = 0 | _ => True end →
  alloc (allocator s) = Ok a →
  let n := next_node s in
  ∃ s1 s2, try_new_node name c s = (Ok (Some n), s1) ∧ adopt d n s1 = (Ok tt, s2) ∧
    fs_ok s2 ∧ next_handle s2 = next_handle s ∧ handles s2 = handles s ∧
    added (nodes s) (nodes s2) d n name ∧ n ≠ d ∧ entries_of (nodes s2) n = [] ∧
    (∃ k1 k2, entries_of (nodes s) d = k1 ++ k2 ∧ entries_of (nodes s2) d = k1 ++ n :: k2) ∧
    (∀ e, e ≠ d → entries_of (nodes s2) e = entries_of (nodes s) e) ∧ orphan (nodes s) n ∧ nodes s !! n = None ∧
    ∃ x, nodes s2 !! n = Some x ∧ attrs x = attrs (Node_ name (inode_count s +64 1) [] [] 0 1 c).
Proof.
  intros Hok Hdir Hname Hlen Hent Hc Ha n. pose proof Hok as [Hwf Hfresh Hnext].
  assert (nodes s !! n = None) as Hn.
  { destruct (nodes s !! n) as [x|] eqn:Hx; [|done]. specialize (Hfresh n ltac:(by eexists)). lia. }
  set (x := Node_ name (inode_count s +64 1) [] [] 0 1 c).
  set (s1 := State (<[n := x]> (nodes s)) (n + 1) (inode_count s +64 1) (handles s) (watches s) (next_handle s) a (responses s)).
  assert (ok_wf (nodes s1)) as Hwf1 by by apply wf_new.
  assert (∀ e, entries_of (nodes s1) e = entries_of (nodes s) e) as He1.
  { intros e. cbn [s1 nodes]. rewrite entries_insert. case_decide as Hen; [|done]. subst e. unfold entries_of. rewrite Hn.
    simpl. destruct c; [done| |done]. by destruct Hc as [-> _]. }
  assert (orphan (nodes s) n) as Ho.
  { intros e He. destruct (wf_entry _ _ Hwf e n He) as [Hs _]. specialize (Hfresh n Hs). lia. }
  destruct Hdir as (y & t & k & Hy & Hyc).
  assert (n ≠ d) as Hnd by (intros ->; congruence).
  assert (∀ e m, m ∈ entries_of (nodes s) e → name_of (nodes s1) m = name_of (nodes s) m) as Hnm.
  { intros e m Hm. cbn [s1 nodes]. rewrite name_insert, decide_False; [done|]. intros ->. by apply (Ho e). }
  destruct (adopt_spec (λ _, False) s1 d n y t k x) as (ns2 & Had & Hwf2 & (k1 & k2 & E1 & E2) & Hoth & Hattr); try done.
  { cbn [s1 nodes]. by rewrite lookup_insert_ne. }
  { cbn [s1 nodes]. by rewrite lookup_insert_eq. }
  { unfold n, ROOT. lia. }
  { intros e. rewrite He1. apply Ho. }
  { rewrite (entry_ext (nodes s)); [done|apply He1|apply Hnm]. }
  assert (∀ m, m ≠ n → same_attrs (nodes s) ns2 m) as Hsame.
  { intros m Hm. apply (same_attrs_trans _ (nodes s1)); [|apply Hattr]. unfold same_attrs. cbn [s1 nodes].
    by rewrite lookup_insert_ne. }
  exists s1, (upd ns2 (allocator s1) s1). split_and!; try done.
  - unfold try_new_node, new_node, alloc_throw, catch, mbind, exc_bind. rewrite Ha, name_buffer_id by done. done.
  - constructor; cbn [upd nodes next_node s1]; [done| |lia].
    intros m Hm. apply (same_attrs_some _ _ m (Hattr m)) in Hm. cbn [s1 nodes] in Hm.
    destruct (decide (m = n)) as [->|]; [lia|]. rewrite lookup_insert_ne in Hm by done. specialize (Hfresh m Hm). lia.
  - cbn [upd nodes]. split_and!; [| |exact Hsame].
    + apply (in_entry (λ _, False)); [done|rewrite E2; set_solver|].
      rewrite (same_attrs_name _ _ n (Hattr n)). cbn [s1 nodes]. by rewrite name_insert, decide_True.
    + intros d' name' Hne. destruct (decide (d' = d)) as [->|Hdd].
      * unfold entry. rewrite E2, <- (He1 d), E1, !filter_app, filter_cons_False.
        -- rewrite <- !filter_app. rewrite <- E1, He1. f_equal. apply filter_names_ext. intros m Hm.
           rewrite (same_attrs_name _ _ m (Hattr m)). by apply (Hnm d).
        -- rewrite (same_attrs_name _ _ n (Hattr n)). cbn [s1 nodes].
           rewrite name_insert, decide_True by done. simpl. congruence.
      * apply entry_ext; [by rewrite Hoth, He1|]. intros m Hm. rewrite (same_attrs_name _ _ m (Hattr m)). by apply (Hnm d').
  - cbn [upd nodes]. rewrite Hoth, He1 by done. unfold entries_of. by rewrite Hn.
  - exists k1, k2. rewrite <- He1. done.
  - intros e He. cbn [upd nodes]. by rewrite Hoth, He1.
  - cbn [upd nodes]. specialize (Hattr n). unfold same_attrs in Hattr. cbn [s1 nodes] in Hattr.
    rewrite lookup_insert_eq in Hattr. destruct (ns2 !! n) as [z|]; [|done]. exists z. split; [done|].
    apply (inj Some). exact Hattr.
Qed.

Lemma resolve_mono (ns ns' : store) names d0 d :
  (∀ d name n, entry ns d name = Some n → entry ns' d name = Some n) → (∀ m, is_dir ns m → is_dir ns' m) →
  resolve ns true names d0 = Some d → resolve ns' true names d0 = Some d.
Proof.
  intros Hent Hdir. revert d0. induction names as [|name names IH]; intros d0; [done|]. cbn [resolve].
  destruct names as [|name' names']; [done|].
  destruct (entry ns d0 name) as [n|] eqn:He; [|done]. rewrite (Hent _ _ _ He).
  destruct (is_dirb ns n) eqn:Hd; [|done]. apply is_dirb_dir, Hdir, is_dirb_dir in Hd. rewrite Hd. apply IH.
Qed.

Lemma added_lookup_parent (ns ns' : store) d n name path e :
  ok_wf ns → added ns ns' d n name → entry ns d name = None → ns !! n = None →
  spec_lookup ns path true = Some e → spec_lookup ns' path true = Some e.
Proof.
  intros Hwf (Hn & Hoth & Hattr) Hnone Hfresh. unfold spec_lookup. destruct (strip path); [done|].
  apply resolve_mono.
  - intros d' name' m Hm. destruct (decide ((d', name') = (d, name))) as [[= -> ->]|Hne]; [congruence|].
    by rewrite Hoth.
  - intros m Hm. destruct (decide (m = n)) as [->|]; [|by apply (same_attrs_dir ns); [apply Hattr|]].
    destruct Hm as (? & ? & ? & ? & _). congruence.
Qed.

(** Taking a created node out again. *)
Lemma undo_create (s s2 : st) d n k1 k2 x :
  fs_ok s2 → is_dir (nodes s2) d → n ≠ d → n ≠ ROOT →
  entries_of (nodes s) d = k1 ++ k2 → entries_of (nodes s2) d = k1 ++ n :: k2 →
  (∀ e, e ≠ d → entries_of (nodes s2) e = entries_of (nodes s) e) → orphan (nodes s) n → nodes s !! n = None →
  (∀ m, m ≠ n → same_attrs (nodes s) (nodes s2) m) → entries_of (nodes s2) n = [] →
  nodes s2 !! n = Some x → _io_handles x = [] →
  ∃ s3, uncreate d n s2 = (Ok tt, s3) ∧ fs_ok s3 ∧ unchanged (nodes s) (nodes s3).
Proof.
  intros [Hwf2 Hfresh2 Hnext2] (y & t & c & Hy & Hc) Hnd Hroot E1 E2 Hoth Ho Hnone Hattr Hen Hx Hio.
  assert (entries_of (nodes s2) d = elements t) as Hed by (unfold entries_of; by rewrite Hy, Hc).
  destruct (release_spec (λ _, False) s2 d n y t c Hwf2 Hy Hc) as (ns3 & Hrel & Hwf3 & (j1 & j2 & F1 & F2) & Hoth3 & Hattr3 & Ho3);
    [rewrite <- Hed, E2; set_solver|].
  pose proof (Hattr3 n) as Hxn. unfold same_attrs in Hxn. rewrite Hx in Hxn.
  destruct (ns3 !! n) as [z|] eqn:Hz; [|done].
  assert (_io_handles z = []) as Hioz by (simpl in Hxn; unfold attrs in Hxn; congruence).
  assert (entries_of ns3 n = []) as Hen3 by (rewrite Hoth3; done).
  destruct (remove_node_spec (upd ns3 (allocator s2) s2) n z) as (ns4 & a4 & Hrem & Hwf4 & Hgone & Hsub & Hdom & Hkeep & _); try done.
  { intros f _. unfold opened. by rewrite Hioz. }
  cbn [upd nodes] in *.
  assert (∀ m, ¬ below ns3 n m) as Hnb.
  { intros m. induction 1 as [m Hm|m k _ IH _]; [|done]. rewrite Hen3 in Hm. by apply elem_of_nil in Hm. }
  exists (upd ns4 a4 s2). split_and!.
  - unfold uncreate. by rewrite (bind_ok _ _ _ _ _ Hrel), Hrem.
  - constructor; cbn [upd nodes next_node]; [done| |done]. intros m Hm. apply Hfresh2.
    destruct (decide (m = n)) as [->|Hmn]; [destruct Hm; congruence|].
    apply (same_attrs_some (nodes s2) ns3); [apply Hattr3|].
    by apply (same_attrs_some ns3 ns4); [apply Hkeep|].
  - cbn [upd nodes]. split.
    + intros e. destruct (decide (e = n)) as [->|Hne].
      { unfold entries_of. by rewrite Hgone, Hnone. }
      destruct (Hkeep e (Hnb e) Hne) as [_ ->]. destruct (decide (e = d)) as [->|]; [|by rewrite Hoth3, Hoth].
      assert (∀ l1 l2, n ∉ l1 ++ l2 → filter (.≠ n) (l1 ++ n :: l2) = l1 ++ l2) as Hf.
      { intros l1 l2 Hl. rewrite filter_app, filter_cons_False by (intros Hx'; done).
        rewrite <- filter_app. apply filter_all, Forall_forall. set_solver. }
      rewrite F2, E1. rewrite <- (Hf j1 j2), <- (Hf k1 k2); [by rewrite <- F1, <- E2| |].
      * rewrite <- E1. apply Ho.
      * rewrite <- F2. apply Ho3.
    + intros m. destruct (decide (m = n)) as [->|Hmn].
      * unfold same_attrs. by rewrite Hgone, Hnone.
      * apply (same_attrs_trans _ (nodes s2)); [by apply Hattr|].
        apply (same_attrs_trans _ ns3); [apply Hattr3|]. by apply Hkeep.
Qed.


(** ** Unlinking *)

(** What is left when [n], the entry of [d] with the given name, is gone: everything
    that is not below [n]; what is below it is disposed of and no entry any more. *)
Definition gone (ns ns' : store) (d n : Z) (name : list Z) : Prop :=
  entry ns' d name = None ∧ orphan ns' n ∧ (∀ m, below ns n m → disposed ns ns' m ∧ orphan ns' m) ∧
  ∀ m, ¬ below ns n m → m ≠ n → same_attrs ns ns' m ∧
    ∀ name', (m, name') ≠ (d, name) → entry ns' m name' = entry ns m name'.

(** Whatever happens at and below a node that was released, the rest stays. *)
Lemma gone_released (ns ns1 ns' : store) d n name j1 j2 :
  ok_wf ns → entry ns d name = Some n → n ≠ d → ¬ below ns n d →
  entries_of ns d = j1 ++ n :: j2 → entries_of ns1 d = j1 ++ j2 →
  (∀ e, e ≠ d → entries_of ns1 e = entries_of ns e) → (∀ m, same_attrs ns ns1 m) → orphan ns1 n →
  shed ns1 ns' n → entries_of ns' n = [] → gone ns ns' d n name.
Proof.
  intros Hwf Hent Hnd Hnbd F1 F2 Hoth Hattr Ho (Hsub & Hdom & Hkeep & Hdis) Hempty. pose proof (entry_in _ _ _ _ Hent) as [Hin Hname].
  assert (∀ e k, k ∈ entries_of ns1 e → k ∈ entries_of ns e) as Hsub1.
  { intros e k. destruct (decide (e = d)) as [->|]; [|by rewrite Hoth]. rewrite F1, F2. set_solver. }
  assert (∀ m, ¬ below ns n m → m ≠ n → same_attrs ns ns' m ∧ entries_of ns' m = entries_of ns1 m) as Hkeep'.
  { intros m Hm Hmn. destruct (Hkeep m) as [Hs ?]; [|done|split; [by apply (same_attrs_trans _ ns1)|done]].
    intros Hb. apply Hm. by eapply below_mono. }
  assert (∀ e k, k ∈ entries_of ns' e → e ≠ n → ¬ below ns n e → name_of ns' k = name_of ns k) as Hnm.
  { intros e k Hk Hen Hbe. apply Hsub in Hk as Hk1. apply Hsub1 in Hk1 as Hk0.
    apply same_attrs_name, Hkeep'; [|intros ->; by apply (Ho e)].
    intros Hb. inversion Hb as [m Hm|m k' Hbm Hm]; subst.
    - apply Hen. by apply (wf_parent _ _ Hwf e n k).
    - apply Hbe. by rewrite (wf_parent _ _ Hwf e m k). }
  split_and!.
  - destruct (entry ns' d name) as [k|] eqn:Hk; [|done]. apply entry_in in Hk as [Hk Hkn]. exfalso.
    rewrite (Hnm d k) in Hkn by done. apply Hsub in Hk. apply (Ho d).
    apply Hsub1 in Hk as Hk0. pose proof (in_entry _ _ d name k Hwf Hk0 Hkn). congruence.
  - intros e He. by apply (Ho e), Hsub.
  - assert (∀ m, below ns n m → disposed ns ns' m) as Hgone.
    { intros m Hm. apply (disposed_before _ ns1), Hdis; [apply Hattr|].
      induction Hm as [m Hm|m k Hm IH Hk]; [constructor; by rewrite Hoth|].
      apply (below_step _ _ m); [done|]. rewrite Hoth; [done|]. by intros ->. }
    intros m Hm. split; [by apply Hgone|]. intros e He. pose proof (Hsub1 _ _ (Hsub _ _ He)) as He0.
    assert (e ≠ n) as Hen by (intros ->; rewrite Hempty in He; set_solver).
    assert (below ns n e) as Hbe.
    { inversion Hm as [? Hm'|x ? Hx Hm']; subst; [by rewrite (wf_parent _ _ Hwf e n m) in Hen|].
      by rewrite (wf_parent _ _ Hwf e x m). }
    destruct (Hgone e Hbe) as [[(x & f & Hx & Hc & _) _]|[_ Hn]].
    + unfold entries_of in He0. by rewrite Hx, Hc in He0; apply elem_of_nil in He0.
    + unfold entries_of in He. by rewrite Hn in He; apply elem_of_nil in He.
  - intros m Hm Hmn. destruct (Hkeep' m Hm Hmn) as [Hs He]. split; [done|]. intros name' Hne.
    assert (∀ k, k ∈ entries_of ns1 m → name_of ns' k = name_of ns k) as Hnm1
      by (intros k Hk; apply (Hnm m); [by rewrite He|done|done]).
    destruct (decide (m = d)) as [->|Hmd].
    + unfold entry. rewrite He, F2, F1, !filter_app, filter_cons_False by congruence.
      f_equal. rewrite <- !filter_app. apply filter_names_ext. intros k Hk. apply Hnm1. by rewrite F2.
    + rewrite Hoth in He by done. apply entry_ext; [done|]. intros k Hk. apply Hnm1. by rewrite Hoth.
Qed.

(** [remove_node] keeps a file with a registered handle, marked as unlinked. *)
Lemma keep_opened (s : st) n x f :
  fs_ok s → nodes s !! n = Some x → _content x = CONTINUOUS_FILE f → opened x = true →
  ∃ s', remove_node n s = (Ok tt, s') ∧ fs_ok s' ∧ nodes s' = <[n := set_inode 0 x]> (nodes s) ∧
    responses s' = responses s ∧ ∀ e, entries_of (nodes s') e = entries_of (nodes s) e.
Proof.
  intros [Hwf Hfresh Hnext] Hx Hc Hop. eexists. split_and!.
  - unfold remove_node, mbind, exc_bind. by rewrite (get_node_eq s n x Hx), Hc, Hop.
  - constructor; cbn [with_nodes nodes next_node]; [by apply (wf_update _ _ n x)| |done]. intros m Hm. apply Hfresh.
    destruct (decide (m = n)) as [->|]; [by eexists|]. by rewrite lookup_insert_ne in Hm.
  - done.
  - done.
  - intros e. cbn [with_nodes nodes]. rewrite entries_insert. case_decide; [|done]. subst e. unfold entries_of. by rewrite Hx.
Qed.

Lemma fs_ok_shrunk (s s' : st) :
  fs_ok s → ok_wf (nodes s') → next_node s' = next_node s → (∀ m, is_Some (nodes s' !! m) → is_Some (nodes s !! m)) → fs_ok s'.
Proof. intros [_ Hf Hn] Hwf He Hd. constructor; [done|intros m Hm; rewrite He; by apply Hf, Hd|by rewrite He]. Qed.

(** C21: unlinking answers every case, and the recursion through the subdirectories ends.
    A missing parent or entry is reported and nothing changes.  Otherwise the watchers of
    the node and then of its directory are notified, and the entry is gone.  A file with a
    registered handle, which is what [Node::open] leaves and only the synchronisation of a
    modified file calls, stays with its content and is marked as unlinked; any other node
    is destroyed.  Below a directory, every node is destroyed but the files with a
    registered handle: these stay as they were, without the mark, and are in no directory
    any more.  All other nodes and entries are as they were, and the invariant holds. *)
Theorem unlink_spec (s : st) path :
  fs_ok s → valid_path path →
  let '(r, s') := unlink path s in
  let name := basename path in
  fs_ok s' ∧
  match spec_lookup (nodes s) path true with
  | None => r = Ok UNLINK_ERR_NO_ENTRY ∧ s' = s
  | Some d =>
      match entry (nodes s) d name with
      | None => r = Ok UNLINK_ERR_NO_ENTRY ∧ s' = s
      | Some n =>
          r = Ok UNLINK_OK ∧ gone (nodes s) (nodes s') d n name ∧
          ∃ x y, nodes s !! n = Some x ∧ nodes s !! d = Some y ∧
            responses s' = responses s ++ _watch_handles x ++ _watch_handles y ∧
            (if opened x && match _content x with CONTINUOUS_FILE _ => true | _ => false end
             then ∃ x', nodes s' !! n = Some x' ∧ unlinked x' = true ∧ _content x' = _content x
             else nodes s' !! n = None)
      end
  end.
Proof.
  intros Hok Hp. pose proof Hok as [Hwf _ _].
  destruct (unlink path s) as [r s'] eqn:Hrun. cbn zeta. revert Hrun. unfold unlink. set (name := basename path).
  rewrite (bind_ok _ _ _ _ _ (lookup_parent_eq s path Hwf Hp)).
  destruct (spec_lookup (nodes s) path true) as [d|] eqn:Hd; [|by intros [= <- <-]].
  destruct (spec_parent_dir _ _ _ Hwf Hd) as [Hreach (y & t & c & Hy & Hc)].
  rewrite (bind_ok _ _ _ _ _ (child_entry (λ _, False) s d y t c name Hwf (basename_valid path Hp) Hy Hc)).
  destruct (entry (nodes s) d name) as [n|] eqn:Hent; [|by intros [= <- <-]].
  pose proof (entry_in _ _ _ _ Hent) as [Hin Hname].
  assert (entries_of (nodes s) d = elements t) as Hed by (unfold entries_of; by rewrite Hy, Hc).
  pose proof (reach_acyclic _ _ Hwf Hreach) as Hacyc.
  assert (n ≠ d) as Hnd by (intros ->; apply Hacyc; by constructor).
  assert (¬ below (nodes s) n d) as Hnbd by (intros Hb; apply Hacyc; by apply (below_trans _ _ n)).
  destruct (wf_entry _ _ Hwf d n Hin) as [[x Hx] Hroot].
  destruct (release_spec (λ _, False) s d n y t c Hwf Hy Hc) as (ns1 & Hrel & Hwf1 & (j1 & j2 & F1 & F2) & Hoth1 & Hattr1 & Ho1);
    [by rewrite <- Hed|].
  rewrite (bind_ok _ _ _ _ _ Hrel).
  destruct (proj2 (same_attrs_some _ _ n (Hattr1 n)) ltac:(by eexists)) as [x1 Hx1].
  destruct (proj2 (same_attrs_some _ _ d (Hattr1 d)) ltac:(by eexists)) as [y1 Hy1].
  destruct (same_attrs_watches _ _ n x x1 (Hattr1 n) Hx Hx1) as (Hwx & Hopen & Hfile & Hfile').
  destruct (same_attrs_watches _ _ d y y1 (Hattr1 d) Hy Hy1) as (Hwy & _ & _).
  rewrite (bind_ok _ _ _ _ _ (notify_spec (upd ns1 (allocator s) s) n x1 Hx1)). cbn [upd nodes next_node inode_count handles watches next_handle allocator responses].
  set (s2 := State ns1 _ _ _ _ _ _ _).
  rewrite (bind_ok _ _ _ _ _ (notify_spec s2 d y1 Hy1)). cbn [s2 nodes next_node inode_count handles watches next_handle allocator responses].
  rewrite Hwx, Hwy, <- app_assoc. set (s3 := State ns1 _ _ _ _ _ _ _).
  assert (fs_ok s3) as Hok3 by (apply (fs_ok_shrunk s); [done..|]; intros m Hm; by apply (same_attrs_some _ _ m (Hattr1 m))).
  pose proof (λ ns', gone_released (nodes s) ns1 ns' d n name j1 j2 Hwf Hent Hnd Hnbd F1 F2 Hoth1 Hattr1 Ho1) as Hgone.
  destruct (opened x && match _content x with CONTINUOUS_FILE _ => true | _ => false end) eqn:Hop.
  - apply andb_prop in Hop as [Hopx Hfx]. destruct (_content x) as [f|tx cx|lx] eqn:Hcx; try done.
    destruct (keep_opened s3 n x1 f) as (s4 & Hrem & Hok4 & Hns4 & Hresp & He4); [done|done|by apply Hfile'|by rewrite Hopen|].
    rewrite (bind_ok _ _ _ _ _ Hrem). intros [= <- <-]. split; [done|]. split_and!; [done| |].
    + assert (entries_of ns1 n = []) as Hen by (apply (no_dir_entries _ _ x1); [done|by rewrite (Hfile' f)]).
      apply Hgone; [|by rewrite He4]. split_and!; [intros e k; by rewrite He4| | |].
      * intros m Hm. rewrite Hns4 in Hm. destruct (decide (m = n)) as [->|]; [by eexists|]. by rewrite lookup_insert_ne in Hm.
      * intros m _ Hmn. split; [|apply He4]. unfold same_attrs. by rewrite Hns4, lookup_insert_ne.
      * intros m Hm. by apply not_below_empty in Hm.
    + exists x, y. split_and!; [done..|]. rewrite Hcx, Hopx. exists (set_inode 0 x1). rewrite Hns4, lookup_insert_eq.
      split_and!; [done..|]. by apply Hfile'.
  - destruct (remove_node_spec s3 n x1) as (ns4 & a4 & Hrem & Hwf4 & Hnone & Hshed); try done.
    { intros f Hf. rewrite Hopen. rewrite (Hfile f Hf) in Hop. by destruct (opened x). }
    rewrite (bind_ok _ _ _ _ _ Hrem). intros [= <- <-].
    split; [apply (fs_ok_shrunk s3); try done; apply Hshed|]. split_and!; [done| |].
    + apply Hgone; [done|]. unfold entries_of. cbn [upd nodes]. by rewrite Hnone.
    + exists x, y. by rewrite Hop.
Qed.

End Props.

(** ** At the borders *)

#[local] Instance counter_allocator : Allocator nat := {
  alloc n := match n with O => Err OUT_OF_RAM | S n => Ok n end;
  free := S }.

Abbreviation chunks := (Chunk_index.t (Chunk_index.t (Chunk_index.t Chunk.t))).

#[local] Instance file_entry : Chunk_entry nat chunks := level_0_entry.

Definition fs (n : nat) : state nat chunks := initial n.

(** The paths a, /a, and a/b, and the mode for creating a writeable file. *)
Definition path_a : list Z := [97].
Definition path_slash_a : list Z := [47; 97].
Definition path_a_b : list Z := [97; 47; 98].
Definition CREATE_RDWR : Z := 2050.

Lemma valid_path_a : valid_path path_a.
Proof. split; [repeat constructor; discriminate|reflexivity]. Defined.

Theorem lookup_resolves_witness :
  fs_ok (fs 9) ∧ valid_path path_a ∧ lookup path_a false (fs 9) = (Ok None, fs 9).
Proof.
  pose proof (initial_ok 9%nat : fs_ok (fs 9)) as Hok. split; [exact Hok|]. split; [exact valid_path_a|].
  destruct (lookup_resolves (fs 9) path_a false Hok valid_path_a) as [Hl _]. rewrite Hl. reflexivity.
Defined.


Theorem unlink_spec_witness :
  let s := (open path_a CREATE_RDWR HANDLE_OK (fs 9)).2 in
  fs_ok s ∧ valid_path path_a ∧ fs_ok (unlink path_a s).2.
Proof.
  set (s := (open path_a CREATE_RDWR HANDLE_OK (fs 9)).2).
  assert (Z.land CREATE_RDWR OPEN_MODE_CREATE ≠ 0) as Hmode by discriminate.
  assert (fs_ok s) as Hok.
  { destruct (create_node (fs 9) ROOT path_a (CONTINUOUS_FILE File.new) 8%nat (initial_ok 9%nat)) as
      (s1 & s2 & Hnew & Had & Hok2 & _); [eexists _, _, _; split; reflexivity|apply valid_path_a|reflexivity..|exact I|reflexivity|].
    vm_compute in Hnew. injection Hnew as <-. vm_compute in Had. injection Had as <-.
    destruct Hok2 as [Hw Hf Hn]. constructor; [exact Hw|exact Hf|exact Hn]. }
  split; [exact Hok|]. split; [exact valid_path_a|].
  pose proof (unlink_spec s path_a Hok valid_path_a) as Hs. destruct (unlink path_a s) as [r s']. exact (proj1 Hs).
Defined.

(** [open] does not register the handle at the node: unlinking an open file destroys it,
    and the handle dangles. *)
Lemma unlink_of_open_file :
  (r ← open path_a CREATE_RDWR HANDLE_OK;
   match r with OPEN_OK h => _ ← unlink path_a; write_handle h [1] | _ => mret WRITE_ERR_INVALID end) (fs 9)
  = (Err Wild_access, ((_ ← open path_a CREATE_RDWR HANDLE_OK; unlink path_a) (fs 9)).2).
Proof. vm_compute. reflexivity. Qed.

(** A file with a registered handle below an unlinked directory does not get the mark: it
    outlives the last handle, and nothing leads to it. *)
Lemma unlink_leaves_opened :
  ((_ ← opendir path_a true HANDLE_OK; r ← open path_a_b CREATE_RDWR HANDLE_OK;
    match r with
    | OPEN_OK h =>
        _ ← write_handle h [1]; _ ← complete_sync h; _ ← unlink path_a; _ ← close h;
        s ← get_state;
        mret (entries_of (nodes s) ROOT, base.size (nodes s), match nodes s !! 2 with Some x => unlinked x | None => true end)
    | _ => throw Wild_access
    end) (fs 9)).1 = Ok ([], 2%nat, false).
Proof. vm_compute. reflexivity. Qed.

(** A denied allocation of the handle throws out of [open] and leaves the new file. *)
Lemma open_denied_leaves_file :
  let '(r, s) := open path_a CREATE_RDWR (HANDLE_ERR DENIED) (fs 9) in
  r = Err Denied ∧ (leaf_path path_a s).1 = Ok true.
Proof. vm_compute. done. Qed.

(** Renaming a file to another spelling of its own path destroys it and goes on using it. *)
Lemma rename_to_itself :
  ((_ ← open path_a CREATE_RDWR HANDLE_OK; rename path_a path_slash_a) (fs 9)).1 = Err Wild_access.
Proof. vm_compute. reflexivity. Qed.

(** A directory that is renamed into itself cannot be reached any more but still exists. *)
Lemma rename_into_itself :
  ((_ ← opendir path_a true HANDLE_OK; r ← rename path_a path_a_b; x ← leaf_path path_a;
    s ← get_state; mret (r, x, base.size (nodes s), entries_of (nodes s) ROOT)) (fs 9)).1 = Ok (RENAME_OK, false, 2%nat, []).
Proof. vm_compute. reflexivity. Qed.
