(* ===== verification/Fifo.v ===== *)
(** * Fifo: the intrusive queue

    Model of [src/repos/base/include/util/fifo.h].  The elements live in a store from
    identities to their [_next] pointer and [_enqueued] flag, and the queue object holds
    [_head] and [_tail].  Every method is the sequence of pointer accesses of the code;
    dereferencing a null or foreign pointer makes it [None].  The functors of [head],
    [for_each] and [dequeue] are functions on a state that threads through the calls.
    The kernel's IPC nodes and signal receivers are modelled on the sequences this queue
    refines ([Seq]). *)

From S2P Require Import Prelude.

Definition id := Z.

Record element := Element { _next : option id; _enqueued : bool }.

Record t := Mk { heap : gmap id element; _head : option id; _tail : option id }.

Definition enqueued (i : id) (s : t) : option bool := _enqueued <$> heap s !! i.
Definition next (i : id) (s : t) : option (option id) := _next <$> heap s !! i.

Definition set_next (i : id) (v : option id) (s : t) : option t :=
  e ← heap s !! i; Some (Mk (<[i := Element v (_enqueued e)]> (heap s)) (_head s) (_tail s)).
Definition set_enqueued (i : id) (b : bool) (s : t) : option t :=
  e ← heap s !! i; Some (Mk (<[i := Element (_next e) b]> (heap s)) (_head s) (_tail s)).
Definition set_head (v : option id) (s : t) : t := Mk (heap s) v (_tail s).
Definition set_tail (v : option id) (s : t) : t := Mk (heap s) (_head s) v.

Definition empty (s : t) : bool := bool_decide (_tail s = None).

(** The queue after its construction. *)
Definition init (h : gmap id element) : t := Mk h None None.

Definition head {A} (func : id → A → A) (s : t) (a : A) : A :=
  match _head s with Some i => func i a | None => a end.

(** The search of [remove]: the element before [qe], or the last one.  [fuel] bounds the
    elements visited. *)
Fixpoint find_before (fuel : nat) (e qe : id) (s : t) : option id :=
  match fuel with
  | O => None
  | S fuel =>
      n ← next e s;
      match n with
      | None => Some e
      | Some x => if decide (x = qe) then Some e else find_before fuel x qe s
      end
  end.

(** Resetting the element that was taken out. *)
Definition reset (i : id) (s : t) : option t := s ← set_next i None s; set_enqueued i false s.

Definition remove (qe : id) (s : t) : option t :=
  if empty s then Some s
  else if decide (Some qe = _head s) then
    n ← next qe s;
    reset qe (match n with None => set_tail None (set_head n s) | Some _ => set_head n s end)
  else
    e ← _head s;
    e ← find_before (base.size (heap s)) e qe s;
    n ← next e s;
    match n with
    | None => Some s
    | Some x =>
        nn ← next x s;
        s ← set_next e nn s;
        reset qe (match nn with None => set_tail (Some e) s | Some _ => s end)
    end.

Definition enqueue (e : id) (s : t) : option t :=
  s ← set_next e None s;
  s ← set_enqueued e true s;
  if empty s then Some (set_tail (Some e) (set_head (Some e) s))
  else
    tl ← _tail s;
    s ← set_next tl (Some e) s;
    Some (set_tail (Some e) s).

Fixpoint for_each_from {A} (fuel : nat) (func : id → A → A) (elem : option id) (s : t) (a : A) : option A :=
  match elem, fuel with
  | None, _ => Some a
  | Some _, O => None
  | Some i, S fuel => n ← next i s; for_each_from fuel func n s (func i a)
  end.

Definition for_each {A} (func : id → A → A) (s : t) (a : A) : option A :=
  for_each_from (base.size (heap s)) func (_head s) s a.

Definition dequeue {A} (func : id → A → A) (s : t) (a : A) : option (t * A) :=
  let result := _head s in
  s ← (if decide (_head s = _tail s) then Some (set_tail None (set_head None s))
       else h ← _head s; n ← next h s; Some (set_head n s));
  match result with
  | None => Some (s, a)
  | Some i => s ← reset i s; Some (s, func i a)
  end.

Fixpoint dequeue_all {A} (fuel : nat) (func : id → A → A) (s : t) (a : A) : option (t * A) :=
  match _head s, fuel with
  | None, _ => Some (s, a)
  | Some _, O => None
  | Some _, S fuel => '(s, a) ← dequeue func s a; dequeue_all fuel func s a
  end.

(** ** The sequence a queue stands for *)

Module Seq.

Definition enqueue (i : id) (l : list id) : list id := l ++ [i].
Definition remove (i : id) (l : list id) : list id := filter (.≠ i) l.

End Seq.

Record rep (s : t) (l : list id) : Prop := {
  rep_nodup : NoDup l;
  rep_head : _head s = list.head l;
  rep_tail : _tail s = last l;
  rep_elem k i : l !! k = Some i → heap s !! i = Some (Element (l !! S k) true);
  rep_idle i e : i ∉ l → heap s !! i = Some e → _enqueued e = false }.

(** Only the elements of [l] and [i] are touched. *)
Definition frame (s s' : t) (l : list id) (i : id) : Prop :=
  (∀ j, j ∉ l → j ≠ i → heap s' !! j = heap s !! j) ∧ dom (heap s') = dom (heap s).

Lemma rep_in s l i : rep s l → i ∈ l → ∃ n, heap s !! i = Some (Element n true).
Proof. intros Hr [k Hk]%list_elem_of_lookup. eexists. by apply (rep_elem _ _ Hr k). Qed.

Lemma rep_size s l : rep s l → (length l ≤ base.size (heap s))%nat.
Proof.
  intros Hr. rewrite <- size_dom, <- (size_list_to_set (C := gset id) l) by apply Hr.
  apply subseteq_size. intros i Hi%elem_of_list_to_set. destruct (rep_in s l i Hr Hi) as [n Hn].
  apply elem_of_dom. by eexists.
Qed.

Lemma rep_init h : (∀ i e, h !! i = Some e → _enqueued e = false) → rep (init h) [].
Proof. intros Hh. split; [constructor|done|done| |eauto]. intros k i Hk. by rewrite lookup_nil in Hk. Qed.

Lemma dom_insert_in {A} (m : gmap id A) i x : is_Some (m !! i) → dom (<[i := x]> m) = dom m.
Proof. intros Hi. rewrite dom_insert_L. apply elem_of_dom in Hi. set_solver. Qed.

Lemma enqueue_rep s l i :
  rep s l → i ∉ l → is_Some (heap s !! i) →
  ∃ s', enqueue i s = Some s' ∧ rep s' (Seq.enqueue i l) ∧ frame s s' l i.
Proof.
  intros [Hnd Hh Ht He Hid] Hi [e Hei]. unfold enqueue, set_next, set_enqueued. rewrite Hei. cbn [mbind option_bind heap].
  rewrite lookup_insert_eq. cbn [mbind option_bind heap _next _tail _head]. rewrite insert_insert_eq. unfold empty. cbn [_tail].
  rewrite Ht. destruct (list_snoc_case l) as [->|(k & x & ->)].
  - simpl. eexists. split; [done|]. split.
    + split; [by apply NoDup_singleton|done|done| |].
      * intros k j [[Hk _]|[-> <-]]%(lookup_snoc_Some i []); [simpl in Hk; lia|]. simpl. by rewrite lookup_insert_eq.
      * intros j f Hj. cbn [heap set_head set_tail]. rewrite lookup_insert_ne by set_solver. apply Hid. set_solver.
    + split; cbn [heap set_head set_tail]; [|by apply dom_insert_in]. intros j _ Hj. by rewrite lookup_insert_ne.
  - assert (i ≠ x) as Hix by set_solver. assert (x ∉ k) as Hxk by (by apply NoDup_snoc in Hnd as [_ ?]).
    rewrite last_snoc. cbn [mbind option_bind heap _tail _head]. rewrite bool_decide_eq_false_2 by done. cbn [mbind option_bind heap].
    rewrite lookup_insert_ne by done.
    assert (heap s !! x = Some (Element None true)) as Hx.
    { rewrite (He (length k) x) by (apply lookup_snoc_Some; by right).
      by rewrite (lookup_ge_None_2 (k ++ [x])) by (rewrite length_app; simpl; lia). }
    rewrite Hx. cbn [mbind option_bind _enqueued]. eexists. split; [done|]. unfold Seq.enqueue. split.
    + split; cbn [heap set_tail _head _tail]; [by rewrite NoDup_snoc|rewrite Hh; by destruct k|by rewrite last_snoc| |].
      2:{ intros j f Hj. rewrite !lookup_insert_ne by set_solver. apply Hid. set_solver. }
      intros m j [[Hm Hj]|[-> <-]]%lookup_snoc_Some.
      * assert (j ≠ i) as Hji by (apply list_elem_of_lookup_2 in Hj; by intros ->).
        pose proof Hj as [[Hm' Hj']|[-> <-]]%lookup_snoc_Some.
        -- rewrite !lookup_insert_ne by (done || (apply list_elem_of_lookup_2 in Hj'; by intros ->)).
           rewrite (He m j Hj). f_equal. f_equal. rewrite (lookup_app_l (k ++ [x])); [done|]. rewrite length_app; simpl; lia.
        -- rewrite lookup_insert_eq. f_equal. f_equal. symmetry. apply lookup_snoc_Some. right. rewrite length_app. simpl. split; [lia|done].
      * rewrite lookup_insert_ne by done. rewrite lookup_insert_eq. f_equal. f_equal. symmetry.
        apply lookup_ge_None. rewrite !length_app. simpl. lia.
    + split; cbn [heap set_tail].
      * intros j Hj Hji. rewrite !lookup_insert_ne by set_solver. done.
      * rewrite dom_insert_in by (rewrite lookup_insert_ne by done; by eexists). by apply dom_insert_in; eexists.
Qed.

Lemma remove_cons i l : i ∉ l → Seq.remove i (i :: l) = l.
Proof. intros Hi. unfold Seq.remove. rewrite filter_cons_False by (intros Hn; done). apply filter_all, Forall_forall. set_solver. Qed.

Lemma remove_middle i k l : i ∉ k → i ∉ l → Seq.remove i (k ++ i :: l) = k ++ l.
Proof.
  intros Hk Hl. unfold Seq.remove. rewrite filter_app. fold (Seq.remove i (i :: l)). rewrite remove_cons by done.
  f_equal. apply filter_all, Forall_forall. set_solver.
Qed.

Lemma remove_absent i l : i ∉ l → Seq.remove i l = l.
Proof. intros Hi. apply filter_all, Forall_forall. set_solver. Qed.

(** [reset] after the links around an element were changed. *)
Lemma reset_eq i s e : heap s !! i = Some e →
  reset i s = Some (Mk (<[i := Element None false]> (heap s)) (_head s) (_tail s)).
Proof.
  intros Hi. unfold reset, set_next, set_enqueued. rewrite Hi. cbn [mbind option_bind heap].
  rewrite lookup_insert_eq. cbn. by rewrite insert_insert_eq.
Qed.

(** The first element leaves. *)
Lemma leave_head s i l :
  rep s (i :: l) →
  let s' := Mk (<[i := Element None false]> (heap s)) (list.head l) (last l) in rep s' l ∧ frame s s' (i :: l) i.
Proof.
  intros [Hnd _ _ He Hid] s'. apply NoDup_cons in Hnd as [Hi Hnd]. split.
  - split; [done|done|done| |].
    2:{ intros j f Hj. cbn [s' heap]. destruct (decide (j = i)) as [->|]; [rewrite lookup_insert_eq; by intros [= <-]|].
        rewrite lookup_insert_ne by done. apply Hid. set_solver. }
    intros k j Hj. cbn [s' heap].
    rewrite lookup_insert_ne by (apply list_elem_of_lookup_2 in Hj; by intros <-). by rewrite (He (S k) j).
  - split; cbn [s' heap]; [intros j _ Hj; by rewrite lookup_insert_ne|].
    apply dom_insert_in. rewrite (He 0%nat i) by done. by eexists.
Qed.

Lemma dequeue_rep {A} (func : id → A → A) s l a :
  rep s l →
  ∃ s', dequeue func s a = Some (s', match l with i :: _ => func i a | [] => a end) ∧ rep s' (tail l) ∧
    dom (heap s') = dom (heap s).
Proof.
  intros Hr. pose proof Hr as [Hnd Hh Ht He _]. unfold dequeue. destruct l as [|i l].
  { rewrite Hh, Ht. simpl. eexists. split; [done|]. split; [|done]. split; try done; apply Hr. }
  rewrite Hh, Ht. cbn [list.head mbind option_bind]. pose proof (He 0%nat i eq_refl) as Hi. simpl in Hi.
  destruct (leave_head s i l Hr) as [Hr' [_ Hd]]. destruct (list_snoc_case l) as [->|(k & x & ->)].
  - rewrite decide_True by done. cbn [mbind option_bind]. erewrite reset_eq by (cbn; exact Hi).
    eexists. split; [done|]. cbn in *. by split.
  - rewrite decide_False.
    2:{ change (i :: k ++ [x]) with ((i :: k) ++ [x]). rewrite last_snoc. intros [= ->].
        apply NoDup_cons in Hnd as [Hni _]. apply Hni. set_solver. }
    cbn [mbind option_bind]. unfold next. rewrite Hi. cbn [fmap option_fmap option_map mbind option_bind].
    erewrite reset_eq by (cbn; exact Hi). eexists. split; [done|]. cbn [tail heap _head _tail set_head _next].
    assert (_tail s = last (k ++ [x])) as -> by (rewrite Ht; change (i :: k ++ [x]) with ((i :: k) ++ [x]); by rewrite !last_snoc).
    rewrite <- head_lookup. done.
Qed.

Lemma find_before_spec fuel s l qe k e :
  rep s l → l !! k = Some e → (length l ≤ fuel + k)%nat → (∀ j, (j ≤ k)%nat → l !! j ≠ Some qe) →
  ∃ j x, find_before fuel e qe s = Some x ∧ l !! j = Some x ∧
    (l !! S j = Some qe ∨ l !! S j = None ∧ qe ∉ l).
Proof.
  intros Hr. revert k e. induction fuel as [|fuel IH]; intros k e Hk Hf Hq.
  { apply lookup_lt_Some in Hk. lia. }
  simpl. unfold next. rewrite (rep_elem _ _ Hr k e Hk). cbn. destruct (l !! S k) as [x|] eqn:Hx.
  - destruct (decide (x = qe)) as [->|Hne]; [exists k, e; auto|]. apply (IH (S k)); [done|lia|].
    intros j Hj. destruct (decide (j = S k)) as [->|]; [congruence|]. apply Hq. lia.
  - exists k, e. split_and!; [done|done|]. right. split; [done|]. intros [j Hj]%list_elem_of_lookup.
    destruct (decide (j ≤ k)%nat); [by apply (Hq j)|]. apply lookup_lt_Some in Hj. apply lookup_ge_None in Hx. lia.
Qed.

(** An inner element leaves: [e] before it gets its successor. *)
Lemma leave_inner s k e i l :
  rep s (k ++ e :: i :: l) →
  rep (Mk (<[i := Element None false]> (<[e := Element (list.head l) true]> (heap s))) (_head s)
         (match l with [] => Some e | _ => _tail s end)) (k ++ e :: l).
Proof.
  intros [Hnd Hh Ht He Hid].
  assert (i ∉ k ++ e :: l ∧ NoDup (k ++ e :: l)) as [Hi Hnd'].
  { rewrite (cons_middle e), (app_assoc k), <- Permutation_middle, <- app_assoc in Hnd. by apply NoDup_cons in Hnd. }
  split; cbn [heap _head _tail]; [done|by rewrite Hh; destruct k| | |].
  3:{ intros j f Hj. destruct (decide (j = i)) as [->|]; [rewrite lookup_insert_eq; by intros [= <-]|].
      rewrite !lookup_insert_ne by set_solver. apply Hid. set_solver. }
  - destruct (list_snoc_case l) as [->|(l' & x & ->)]; [by rewrite last_snoc|].
    rewrite Ht. replace (k ++ e :: i :: l' ++ [x]) with ((k ++ e :: i :: l') ++ [x]) by (by rewrite <- !app_assoc).
    replace (k ++ e :: l' ++ [x]) with ((k ++ e :: l') ++ [x]) by (by rewrite <- !app_assoc). rewrite !last_snoc. by destruct l'.
  - intros m j Hj. assert (j ≠ i) by (apply list_elem_of_lookup_2 in Hj; by intros ->).
    rewrite (lookup_insert_ne _ i) by done.
    destruct (decide (m = length k)) as [->|Hm].
    + rewrite list_lookup_middle in Hj by done. injection Hj as <-. rewrite lookup_insert_eq. f_equal. f_equal.
      rewrite lookup_app_r by lia. replace (S (length k) - length k)%nat with 1%nat by lia. simpl. by rewrite head_lookup.
    + assert (j ≠ e) as Hje.
      { intros ->. apply Hm, (NoDup_lookup _ _ _ e Hnd'); [done|]. by apply list_lookup_middle. }
      rewrite lookup_insert_ne by done.
      apply lookup_app_Some in Hj as [Hj|[Hge Hj]].
      * pose proof (lookup_lt_Some _ _ _ Hj). rewrite (He m j) by (by rewrite lookup_app_l). f_equal. f_equal.
        destruct (decide (S m < length k)%nat); [by rewrite !lookup_app_l|]. rewrite !lookup_app_r by lia.
        by replace (S m - length k)%nat with 0%nat by lia.
      * destruct (m - length k)%nat as [|d] eqn:Hd; [lia|]. simpl in Hj.
        rewrite (He (S m) j).
        -- f_equal. f_equal. rewrite !lookup_app_r by lia. by replace (S (S m) - length k)%nat with (S (S (S d))) by lia;
             replace (S m - length k)%nat with (S (S d)) by lia.
        -- rewrite lookup_app_r by lia. by replace (S m - length k)%nat with (S (S d)) by lia.
Qed.

(** The writes of [remove] for the element behind [e]. *)
Lemma unlink_inner s k e qe l :
  rep s (k ++ e :: qe :: l) →
  ∃ s', (nn ← next qe s; s ← set_next e nn s;
         reset qe (match nn with None => set_tail (Some e) s | Some _ => s end)) = Some s' ∧
    rep s' (Seq.remove qe (k ++ e :: qe :: l)) ∧ dom (heap s') = dom (heap s) ∧
    ∀ j, j ∉ k ++ e :: qe :: l → heap s' !! j = heap s !! j.
Proof.
  intros Hr. pose proof Hr as [Hnd _ _ He _].
  assert (heap s !! qe = Some (Element (list.head l) true)) as Hqe.
  { rewrite (He (S (length k)) qe) by (rewrite lookup_app_r by lia; by replace (S (length k) - length k)%nat with 1%nat by lia).
    f_equal. f_equal. rewrite head_lookup, lookup_app_r by lia. by replace (S (S (length k)) - length k)%nat with 2%nat by lia. }
  assert (heap s !! e = Some (Element (Some qe) true)) as Hee.
  { rewrite (He (length k) e) by (by apply list_lookup_middle).
    f_equal. f_equal. rewrite lookup_app_r by lia. by replace (S (length k) - length k)%nat with 1%nat by lia. }
  assert (qe ≠ e ∧ qe ∉ k ∧ qe ∉ l) as (Hqe1 & Hqe2 & Hqe3).
  { apply NoDup_app in Hnd as (_ & Hk2 & Hnd). apply NoDup_cons in Hnd as [Hd1 Hnd]. apply NoDup_cons in Hnd as [Hd2 _]. set_solver. }
  unfold next. rewrite Hqe. cbn [fmap option_fmap option_map mbind option_bind _next].
  unfold set_next. rewrite Hee. cbn [mbind option_bind _enqueued].
  assert (∀ st, heap st = <[e := Element (list.head l) true]> (heap s) → _head st = _head s →
    _tail st = match l with [] => Some e | _ => _tail s end →
    reset qe st = Some (Mk (<[qe := Element None false]> (<[e := Element (list.head l) true]> (heap s))) (_head s)
       match l with [] => Some e | _ => _tail s end)) as Hreset.
  { intros st Es Eh Et. erewrite reset_eq by (rewrite Es, lookup_insert_ne by done; exact Hqe). by rewrite Es, Eh, Et. }
  rewrite Hreset; [| by destruct (list.head l)| by destruct (list.head l)|by destruct l].
  eexists. split_and!; [done| | |].
  - replace (k ++ e :: qe :: l) with ((k ++ [e]) ++ qe :: l) by (by rewrite <- app_assoc).
    rewrite remove_middle, <- app_assoc by set_solver. by apply leave_inner.
  - cbn [heap]. rewrite dom_insert_in by (rewrite lookup_insert_ne by done; by eexists). by apply dom_insert_in; eexists.
  - cbn [heap]. intros m Hm. rewrite !lookup_insert_ne by set_solver. done.
Qed.

Lemma fifo_remove_rep s l qe :
  rep s l → is_Some (heap s !! qe) →
  ∃ s', remove qe s = Some s' ∧ rep s' (Seq.remove qe l) ∧ dom (heap s') = dom (heap s) ∧
    ∀ j, j ∉ l → heap s' !! j = heap s !! j.
Proof.
  intros Hr [q Hq]. pose proof Hr as [Hnd Hh Ht He _]. unfold remove, empty. destruct l as [|i l].
  { rewrite Ht. simpl. eexists. split; [done|]. by split_and!. }
  rewrite bool_decide_eq_false_2 by (rewrite Ht; destruct (list_snoc_case (i :: l)) as [|(? & ? & ->)]; [done|by rewrite last_snoc]).
  rewrite Hh. cbn [list.head]. destruct (decide (qe = i)) as [->|Hne].
  - rewrite decide_True by done. unfold next. rewrite (He 0%nat i) by done. cbn [fmap option_fmap option_map mbind option_bind _next].
    assert (i ∉ l) as Hi by by apply NoDup_cons in Hnd as [? _].
    rewrite remove_cons by done. destruct (leave_head s i l Hr) as [Hr' [Hf Hd]].
    replace ((i :: l) !! 1%nat) with (list.head l) by (by rewrite head_lookup).
    assert (∀ st, heap st = heap s → _head st = list.head l → _tail st = last l →
      reset i st = Some (Mk (<[i := Element None false]> (heap s)) (list.head l) (last l))) as Hreset.
    { intros st Es Eh Et. erewrite reset_eq by (rewrite Es; by apply (He 0%nat)). by rewrite Es, Eh, Et. }
    rewrite Hreset; [| by destruct (list.head l)| by destruct (list.head l)|].
    { eexists. split_and!; [done|done|exact Hd|]. intros j Hj. apply Hf; [done|]. intros ->. apply Hj. constructor. }
    destruct l as [|x l]; [done|]. cbn. by rewrite Ht.
  - rewrite decide_False by congruence. cbn [mbind option_bind].
    destruct (find_before_spec (base.size (heap s)) s (i :: l) qe 0 i) as (j & e & Hfb & Hj & Hn); [done|done| | |].
    { pose proof (rep_size s (i :: l) Hr). lia. }
    { intros [|m] Hm; [simpl; congruence|lia]. }
    rewrite Hfb. cbn [mbind option_bind]. unfold next. rewrite (He j e Hj). cbn [fmap option_fmap option_map mbind option_bind _next].
    destruct Hn as [Hn|[Hn Hnin]].
    + rewrite Hn. apply list_elem_of_split_length in Hj as (k & l' & El & Hk). rewrite El in *.
      replace (S j) with (length (k ++ [e]) + 0)%nat in Hn by (rewrite length_app; simpl; lia).
      replace (k ++ e :: l') with ((k ++ [e]) ++ l') in Hn by (by rewrite <- app_assoc).
      rewrite lookup_app_r in Hn by lia. replace (length (k ++ [e]) + 0 - length (k ++ [e]))%nat with 0%nat in Hn by lia.
      destruct l' as [|y l']; [done|]. injection Hn as ->.
      by apply unlink_inner.
    + rewrite Hn. eexists. split; [done|]. rewrite remove_absent by done. by split_and!.
Qed.

Lemma for_each_from_rep {A} fuel (func : id → A → A) s l k p a :
  rep s l → p = l !! k → (length l ≤ fuel + k)%nat →
  for_each_from fuel func p s a = Some (fold_left (λ a i, func i a) (drop k l) a).
Proof.
  intros Hr. revert k p a. induction fuel as [|fuel IH]; intros k p a -> Hf; destruct (l !! k) as [i|] eqn:Hk;
    try (by rewrite drop_ge by (by apply lookup_ge_None)).
  { apply lookup_lt_Some in Hk. lia. }
  simpl. unfold next. rewrite (rep_elem _ _ Hr k i Hk). cbn. rewrite (IH (S k)) by (done || lia).
  by rewrite (drop_S _ _ _ Hk).
Qed.

Lemma fifo_for_each_rep {A} (func : id → A → A) s l a :
  rep s l → for_each func s a = Some (fold_left (λ a i, func i a) l a).
Proof.
  intros Hr. unfold for_each. rewrite (for_each_from_rep _ _ s l 0); [by rewrite drop_0|done| |].
  - by rewrite (rep_head _ _ Hr), head_lookup.
  - pose proof (rep_size _ _ Hr). lia.
Qed.

Lemma dequeue_all_rep {A} fuel (func : id → A → A) s l a :
  rep s l → (length l ≤ fuel)%nat →
  ∃ s', dequeue_all fuel func s a = Some (s', fold_left (λ a i, func i a) l a) ∧ rep s' [] ∧ dom (heap s') = dom (heap s).
Proof.
  revert s l a. induction fuel as [|fuel IH]; intros s [|i l] a Hr Hf; simpl in Hf; try lia;
    pose proof (rep_head _ _ Hr) as Hh; simpl; rewrite Hh; cbn [list.head]; [by eexists|by eexists|].
  destruct (dequeue_rep func s (i :: l) a Hr) as (s1 & -> & Hr1 & Hd). cbn [mbind option_bind tail] in *.
  destruct (IH s1 l (func i a) Hr1) as (s2 & -> & Hr2 & Hd2); [lia|]. exists s2. split_and!; [done|done|congruence].
Qed.

(** ** Refinement *)

Inductive op := Enqueue (i : id) | Remove (i : id) | Dequeue | Dequeue_all.

(** The elements an operation hands to its functor are collected in order. *)
Definition run (o : op) (s : t) (out : list id) : option (t * list id) :=
  match o with
  | Enqueue i => s ← enqueue i s; Some (s, out)
  | Remove i => s ← remove i s; Some (s, out)
  | Dequeue => dequeue (λ i l, l ++ [i]) s out
  | Dequeue_all => dequeue_all (base.size (heap s)) (λ i l, l ++ [i]) s out
  end.

Definition run_seq (o : op) (l out : list id) : list id * list id :=
  match o with
  | Enqueue i => (Seq.enqueue i l, out)
  | Remove i => (Seq.remove i l, out)
  | Dequeue => (tail l, out ++ option_list (list.head l))
  | Dequeue_all => ([], out ++ l)
  end.

(** What a caller must guarantee: an element that is enqueued exists and is not in the
    queue yet, one that is removed exists; it need not be in the queue. *)
Definition admissible (h : gset id) (o : op) (l : list id) : bool :=
  match o with
  | Enqueue i => bool_decide (i ∉ l) && bool_decide (i ∈ h)
  | Remove i => bool_decide (i ∈ h)
  | _ => true
  end.

Fixpoint runs (os : list op) (s : t) (out : list id) : option (t * list id) :=
  match os with [] => Some (s, out) | o :: os => '(s, out) ← run o s out; runs os s out end.

Fixpoint runs_seq (os : list op) (l out : list id) : list id * list id :=
  match os with [] => (l, out) | o :: os => let '(l, out) := run_seq o l out in runs_seq os l out end.

Fixpoint admissible_all (h : gset id) (os : list op) (l : list id) : bool :=
  match os with [] => true | o :: os => admissible h o l && admissible_all h os (run_seq o l []).1 end.

Lemma run_rep o s l out :
  rep s l → admissible (dom (heap s)) o l = true →
  ∃ s', run o s out = Some (s', (run_seq o l out).2) ∧ rep s' (run_seq o l out).1 ∧ dom (heap s') = dom (heap s).
Proof.
  intros Hr Ha. destruct o as [i|i| |]; simpl in *; rewrite ?andb_true_iff, ?bool_decide_eq_true, ?elem_of_dom in Ha.
  - destruct Ha as [Hi Hs]. destruct (enqueue_rep s l i Hr Hi Hs) as (s' & -> & Hr' & _ & Hd). by exists s'.
  - destruct (fifo_remove_rep s l i Hr Ha) as (s' & -> & Hr' & Hd & _). by exists s'.
  - destruct (dequeue_rep (λ i l, l ++ [i]) s l out Hr) as (s' & -> & Hr' & Hd). exists s'.
    split_and!; [|done|done]. destruct l; simpl; by rewrite ?app_nil_r.
  - destruct (dequeue_all_rep (base.size (heap s)) (λ i l, l ++ [i]) s l out Hr) as (s' & -> & Hr' & Hd);
      [by apply rep_size|]. exists s'. by rewrite fold_left_snoc.
Qed.

(** C8: the queue refines the sequence.  Every sequence of operations in which an element
    is enqueued only while it is not in the queue runs without a null or foreign access,
    hands exactly the elements of the sequence to its functors, first in first out, and
    leaves a queue whose [for_each] enumerates the sequence; taking out an element that
    is not in the queue changes nothing, and an element is marked as enqueued exactly
    while it is in the queue. *)
Theorem fifo_refines (h : gmap id element) (os : list op) :
  (∀ i e, h !! i = Some e → _enqueued e = false) → admissible_all (dom h) os [] = true →
  ∃ s, runs os (init h) [] = Some (s, (runs_seq os [] []).2) ∧
    for_each (λ i l, l ++ [i]) s [] = Some (runs_seq os [] []).1 ∧
    empty s = bool_decide ((runs_seq os [] []).1 = []) ∧ NoDup (runs_seq os [] []).1 ∧
    ∀ i, i ∈ dom h → enqueued i s = Some (bool_decide (i ∈ (runs_seq os [] []).1)).
Proof.
  intros Hh Ha.
  cut (∃ s, runs os (init h) [] = Some (s, (runs_seq os [] []).2) ∧ rep s (runs_seq os [] []).1 ∧ dom (heap s) = dom h).
  { intros (s & Hs & Hr & Hd). exists s. split_and!; [done|by rewrite (fifo_for_each_rep _ _ _ _ Hr), fold_left_snoc| |apply Hr|].
    - unfold empty. apply bool_decide_ext. rewrite (rep_tail _ _ Hr). apply last_None.
    - intros i Hi. rewrite <- Hd in Hi. apply elem_of_dom in Hi as [e He]. unfold enqueued. rewrite He. simpl. f_equal.
      case_bool_decide as Hin; [|by apply (rep_idle _ _ Hr i)]. destruct (rep_in s _ i Hr Hin) as [n Hn]. rewrite He in Hn. by injection Hn as ->. }
  pose proof (rep_init h Hh) as Hr. change (dom h) with (dom (heap (init h))) in *.
  assert (∀ os l out out', (runs_seq os l out).1 = (runs_seq os l out').1) as Hout.
  { clear. induction os as [|o os IH]; intros l out out'; [done|]. destruct o; simpl; apply IH. }
  revert Ha Hr. generalize (@nil id) at 1 2 4 6 as l. generalize (init h) as s. generalize (@nil id) as out.
  induction os as [|o os IH]; intros out s l Ha Hr; cbn [runs runs_seq admissible_all] in *; [by exists s|].
  apply andb_true_iff in Ha as [Ha Has]. destruct (run_rep o s l out Hr Ha) as (s1 & -> & Hr1 & Hd). cbn [mbind option_bind].
  destruct (run_seq o l out) as [l1 out1] eqn:Hrun. cbn [fst snd] in *.
  assert ((run_seq o l []).1 = l1) as E by (destruct o; simpl in *; congruence). rewrite E, <- Hd in Has.
  destruct (IH out1 s1 l1 Has Hr1) as (s2 & ? & ? & ?). exists s2. split_and!; [done|done|congruence].
Qed.

Definition demo_heap : gmap id element := list_to_map ((λ i, (i, Element None false)) <$> [1; 2; 3; 4]).

Definition demo_ops : list op :=
  [Enqueue 1; Enqueue 2; Enqueue 3; Remove 4; Remove 2; Enqueue 2; Dequeue; Enqueue 4; Remove 4; Enqueue 1].

Theorem fifo_refines_witness :
  (∀ i e, demo_heap !! i = Some e → _enqueued e = false) ∧ admissible_all (dom demo_heap) demo_ops [] = true ∧
  ∃ s, runs demo_ops (init demo_heap) [] = Some (s, [1]) ∧ for_each (λ i l, l ++ [i]) s [] = Some [3; 2; 1].
Proof.
  assert (∀ i e, demo_heap !! i = Some e → _enqueued e = false) as H1.
  { intros i e Hi. apply (elem_of_list_to_map_2 (M := gmap id)) in Hi. by repeat (apply elem_of_cons in Hi as [[= -> ->]|Hi]; [done|]);
      apply elem_of_nil in Hi. }
  assert (admissible_all (dom demo_heap) demo_ops [] = true) as H2 by (vm_compute; reflexivity).
  split; [exact H1|]. split; [exact H2|].
  destruct (fifo_refines demo_heap demo_ops H1 H2) as (s & Hs & Hf & _). exists s. split; [exact Hs|exact Hf].
Defined.
