(* ===== verification/Kernel_thread.v ===== *)
(** * Kernel_thread: threads and synchronous IPC of the kernel

    Model of [ipc_node.h], [ipc_node.cc] and of the scheduling and IPC part of [thread.h],
    [thread.cc], [cpu_context.h], [cpu.cc] in [src/repos/base-hw/src/core/kernel].  The
    kernel is a heap of threads, each with its embedded IPC node, and the number of the
    CPU that executes the kernel at the moment.  The queue of an IPC node is the sequence
    that [Fifo] refines; an item of a queue is the thread whose node it belongs to.  A CPU
    share is represented by the flag [own_share_active]; the asserts of the scheduler on
    it, and those of the thread, are the error [Assertion].  Access to a thread that does
    not exist is the error [Wild_access].  The recursions along helping relationships
    have no bound in the code; here they carry fuel, one more than there are threads.
    The payload of a message is a list of words; the transfer of capabilities is left
    out. *)

From S2P Require Import Prelude Fifo.

Abbreviation id := Fifo.id.

(** [Thread::State] *)
Inductive State := ACTIVE | AWAITS_START | AWAITS_IPC | AWAITS_RESTART | AWAITS_SIGNAL
  | AWAITS_SIGNAL_CONTEXT_KILL | DEAD.

(** [Ipc_node::In::State] and [Ipc_node::Out::State] *)
Inductive In_state := IN_READY | WAIT | REPLY | REPLY_NO_SENDER | IN_DESTRUCT.
Inductive Out_state := OUT_READY | SEND | SEND_HELPING | OUT_DESTRUCT.

#[export] Instance State_eq_dec : EqDecision State.
Proof. solve_decision. Defined.
#[export] Instance In_state_eq_dec : EqDecision In_state.
Proof. solve_decision. Defined.
#[export] Instance Out_state_eq_dec : EqDecision Out_state.
Proof. solve_decision. Defined.

Record thread := Thread {
  in_state : In_state;
  in_queue : list id;
  out_state : Out_state;
  out_node : option id;
  _state : State;
  _paused : bool;
  own_share_active : bool;
  _cpu : option Z;
  _pd : option Z;
  _utcb : list Z;
  user_arg_0 : Z }.

Record kernel := Kernel { threads : gmap id thread; executing_id : Z }.

Inductive error := Assertion | Wild_access | Out_of_fuel.

Abbreviation M := (exc kernel error).

Definition set_in_state (v : In_state) (x : thread) : thread :=
  Thread v (in_queue x) (out_state x) (out_node x) (_state x) (_paused x) (own_share_active x) (_cpu x) (_pd x) (_utcb x) (user_arg_0 x).
Definition set_in_queue (v : list id) (x : thread) : thread :=
  Thread (in_state x) v (out_state x) (out_node x) (_state x) (_paused x) (own_share_active x) (_cpu x) (_pd x) (_utcb x) (user_arg_0 x).
Definition set_out_state (v : Out_state) (x : thread) : thread :=
  Thread (in_state x) (in_queue x) v (out_node x) (_state x) (_paused x) (own_share_active x) (_cpu x) (_pd x) (_utcb x) (user_arg_0 x).
Definition set_out_node (v : option id) (x : thread) : thread :=
  Thread (in_state x) (in_queue x) (out_state x) v (_state x) (_paused x) (own_share_active x) (_cpu x) (_pd x) (_utcb x) (user_arg_0 x).
Definition set_state (v : State) (x : thread) : thread :=
  Thread (in_state x) (in_queue x) (out_state x) (out_node x) v (_paused x) (own_share_active x) (_cpu x) (_pd x) (_utcb x) (user_arg_0 x).
Definition set_paused (v : bool) (x : thread) : thread :=
  Thread (in_state x) (in_queue x) (out_state x) (out_node x) (_state x) v (own_share_active x) (_cpu x) (_pd x) (_utcb x) (user_arg_0 x).
Definition set_active (v : bool) (x : thread) : thread :=
  Thread (in_state x) (in_queue x) (out_state x) (out_node x) (_state x) (_paused x) v (_cpu x) (_pd x) (_utcb x) (user_arg_0 x).
Definition set_cpu (v : option Z) (x : thread) : thread :=
  Thread (in_state x) (in_queue x) (out_state x) (out_node x) (_state x) (_paused x) (own_share_active x) v (_pd x) (_utcb x) (user_arg_0 x).
Definition set_pd (v : option Z) (x : thread) : thread :=
  Thread (in_state x) (in_queue x) (out_state x) (out_node x) (_state x) (_paused x) (own_share_active x) (_cpu x) v (_utcb x) (user_arg_0 x).
Definition set_utcb (v : list Z) (x : thread) : thread :=
  Thread (in_state x) (in_queue x) (out_state x) (out_node x) (_state x) (_paused x) (own_share_active x) (_cpu x) (_pd x) v (user_arg_0 x).
Definition set_user_arg_0 (v : Z) (x : thread) : thread :=
  Thread (in_state x) (in_queue x) (out_state x) (out_node x) (_state x) (_paused x) (own_share_active x) (_cpu x) (_pd x) (_utcb x) v.

Definition with_threads (f : gmap id thread → gmap id thread) (s : kernel) : kernel :=
  Kernel (f (threads s)) (executing_id s).

Definition get (t : id) : M thread := fun s =>
  match threads s !! t with Some x => (Ok x, s) | None => (Err Wild_access, s) end.

Definition update (t : id) (f : thread → thread) : M unit := fun s =>
  match threads s !! t with Some _ => (Ok tt, with_threads (alter f t) s) | None => (Err Wild_access, s) end.

Definition assert (b : bool) : M unit := if b then mret tt else throw Assertion.

Definition when (b : bool) (m : M unit) : M unit := if b then m else mret tt.

Fixpoint for_all (f : id → M unit) (l : list id) : M unit :=
  match l with [] => mret tt | i :: l => _ ← f i; for_all f l end.

(** ** The conditions of an IPC node *)

Definition waiting (x : thread) : bool := bool_decide (in_state x = WAIT).

Definition sending (x : thread) : bool :=
  bool_decide (out_state x = SEND_HELPING) || bool_decide (out_state x = SEND).

Definition _helping (x : thread) : bool :=
  bool_decide (out_state x = SEND_HELPING) && bool_decide (out_node x ≠ None).

Definition ready_to_send (x : thread) : bool := bool_decide (out_state x = OUT_READY) && negb (waiting x).

Definition ready_to_wait (x : thread) : bool := bool_decide (in_state x = IN_READY).

(** ** CPU shares *)

(** [Cpu::schedule], which makes the share ready; the scheduler asserts that it was not. *)
Definition _activate_own_share (t : id) : M unit :=
  x ← get t;
  match _cpu x with
  | None => throw Wild_access
  | Some _ => _ ← assert (negb (own_share_active x)); update t (set_active true)
  end.

Definition _deactivate_own_share (t : id) : M unit :=
  x ← get t;
  match _cpu x with
  | None => throw Wild_access
  | Some c =>
      s ← get_state;
      _ ← assert (c =? executing_id s);
      _ ← assert (own_share_active x);
      update t (set_active false)
  end.

(** The common shape of [_activate_used_shares] and [_deactivate_used_shares]. *)
Fixpoint used_shares (fuel : nat) (own_share : id → M unit) (t : id) : M unit :=
  match fuel with
  | O => throw Out_of_fuel
  | S fuel =>
      _ ← own_share t;
      x ← get t;
      (* for_each_helper *)
      for_all (λ n, y ← get n; when (_helping y) (used_shares fuel own_share n)) (in_queue x)
  end.

Definition helping_fuel (s : kernel) : nat := S (base.size (threads s)).

Definition _activate_used_shares (t : id) : M unit :=
  s ← get_state; used_shares (helping_fuel s) _activate_own_share t.

Definition _deactivate_used_shares (t : id) : M unit :=
  s ← get_state; used_shares (helping_fuel s) _deactivate_own_share t.

Fixpoint helping_destination_loop (fuel : nat) (t : id) : M id :=
  match fuel with
  | O => throw Out_of_fuel
  | S fuel =>
      x ← get t;
      if _helping x then
        match out_node x with None => throw Wild_access | Some d => helping_destination_loop fuel d end
      else mret t
  end.

Definition helping_destination (t : id) : M id :=
  s ← get_state; helping_destination_loop (helping_fuel s) t.

Definition _become_active (t : id) : M unit :=
  x ← get t;
  _ ← when (negb (bool_decide (_state x = ACTIVE)) && negb (_paused x)) (_activate_used_shares t);
  update t (set_state ACTIVE).

Definition _become_inactive (t : id) (st : State) : M unit :=
  x ← get t;
  _ ← when (bool_decide (_state x = ACTIVE) && negb (_paused x)) (_deactivate_used_shares t);
  update t (set_state st).

Definition _die (t : id) : M unit := _become_inactive t DEAD.

(** ** What an IPC node calls at its thread *)

Definition ipc_copy_msg (t sender : id) : M unit := y ← get sender; update t (set_utcb (_utcb y)).

Definition ipc_send_request_done (arg : Z) (t : id) : M unit :=
  x ← get t;
  _ ← assert (bool_decide (_state x = AWAITS_IPC));
  _ ← update t (set_user_arg_0 arg);
  _ ← update t (set_state ACTIVE);
  when (negb (own_share_active x)) (_activate_used_shares t).

Definition ipc_send_request_succeeded : id → M unit := ipc_send_request_done 0.
Definition ipc_send_request_failed : id → M unit := ipc_send_request_done (-1).

Definition ipc_await_request_done (arg : Z) (t : id) : M unit :=
  x ← get t;
  _ ← assert (bool_decide (_state x = AWAITS_IPC));
  _ ← update t (set_user_arg_0 arg);
  _become_active t.

Definition ipc_await_request_succeeded : id → M unit := ipc_await_request_done 0.
Definition ipc_await_request_failed : id → M unit := ipc_await_request_done (-1).

(** ** [Ipc_node] *)

Module Ipc_node.

Definition _receive_from (t node : id) : M unit :=
  _ ← ipc_copy_msg t node;
  update t (set_in_state REPLY).

Definition _cancel_send (t : id) : M unit :=
  x ← get t;
  _ ← match out_node x with
      | None => mret tt
      | Some d =>
          y ← get d;
          _ ← when (bool_decide (in_state y = REPLY) && bool_decide (list.head (in_queue y) = Some t))
                (update d (set_in_state REPLY_NO_SENDER));
          _ ← update d (λ y, set_in_queue (Fifo.Seq.remove t (in_queue y)) y);
          update t (set_out_node None)
      end;
  when (sending x) (_ ← ipc_send_request_failed t; update t (set_out_state OUT_READY)).

Definition send (t node : id) (help : bool) : M unit :=
  _ ← update node (λ y, set_in_queue (Fifo.Seq.enqueue t (in_queue y)) y);
  y ← get node;
  _ ← when (waiting y) (_ ← _receive_from node t; ipc_await_request_succeeded node);
  _ ← update t (set_out_node (Some node));
  update t (set_out_state (if help then SEND_HELPING else SEND)).

Definition wait (t : id) : M unit :=
  _ ← update t (set_in_state WAIT);
  x ← get t;
  match list.head (in_queue x) with None => mret tt | Some n => _receive_from t n end.

Definition reply (t : id) : M unit :=
  x ← get t;
  _ ← when (bool_decide (in_state x = REPLY))
        match in_queue x with
        | [] => mret tt
        | n :: q =>
            _ ← update t (set_in_queue q);
            _ ← ipc_copy_msg n t;
            _ ← update n (set_out_node None);
            _ ← update n (set_out_state OUT_READY);
            ipc_send_request_succeeded n
        end;
  update t (set_in_state IN_READY).

Definition cancel_waiting (t : id) : M unit :=
  x ← get t;
  _ ← when (sending x) (_cancel_send t);
  x ← get t;
  when (waiting x) (_ ← update t (set_in_state IN_READY); ipc_await_request_failed t).

(** [~Ipc_node] *)
Definition destruct_node (t : id) : M unit :=
  _ ← update t (set_in_state IN_DESTRUCT);
  _ ← update t (set_out_state OUT_DESTRUCT);
  _ ← _cancel_send t;
  x ← get t;
  for_all _cancel_send (in_queue x).

End Ipc_node.

(** ** [Thread] *)

(** [Thread::Thread] *)
Definition new_thread (t : id) : M unit :=
  modify (with_threads <[t := Thread IN_READY [] OUT_READY None AWAITS_START false false None None [] 0]>).

(** The protection domain of core; domains are known by their identities. *)
Definition core_pd : Z := 0.

(** The first thread, created and started by the kernel itself on the boot CPU. *)
Definition Core_main_thread (t : id) (primary_cpu : Z) : M unit :=
  _ ← new_thread t;
  _ ← update t (set_cpu (Some primary_cpu));
  _ ← update t (set_pd (Some core_pd));
  _become_active t.

(** [pd()] asserts that the thread has been started. *)
Definition pd (t : id) : M Z :=
  x ← get t; match _pd x with Some p => mret p | None => throw Assertion end.

(** [cpu]: what the array of CPUs yields for the id, where [Cpu_pool::cpu] asserts that
    there is a CPU.  [new_pd]: the pointer handed over, which may be null.  The starter
    hands its message buffer over to the new thread. *)
Definition _call_start_thread (starter t : id) (cpu new_pd : option Z) : M unit :=
  match cpu with
  | None => throw Assertion
  | Some cpu =>
      _ ← update starter (set_user_arg_0 0);
      x ← get t;
      _ ← assert (bool_decide (_state x = AWAITS_START));
      _ ← update t (set_cpu (Some cpu));
      _ ← update t (set_pd new_pd);
      _ ← ipc_copy_msg t starter;
      _become_active t
  end.

Definition _call_pause_thread (t : id) : M unit :=
  x ← get t;
  _ ← when (bool_decide (_state x = ACTIVE) && negb (_paused x)) (_deactivate_used_shares t);
  update t (set_paused true).

Definition _call_resume_thread (t : id) : M unit :=
  x ← get t;
  _ ← when (bool_decide (_state x = ACTIVE) && _paused x) (_activate_used_shares t);
  update t (set_paused false).

Definition _call_stop_thread (t : id) : M unit :=
  x ← get t;
  _ ← assert (bool_decide (_state x = ACTIVE));
  _become_inactive t AWAITS_RESTART.

Definition _restart (t : id) : M bool :=
  x ← get t;
  _ ← assert (bool_decide (_state x = ACTIVE) || bool_decide (_state x = AWAITS_RESTART));
  if negb (bool_decide (_state x = AWAITS_RESTART)) then mret false
  else _ ← _become_active t; mret true.

(** The destructor of a thread: [~Ipc_node], then [~Cpu_job], which takes the share away
    from the scheduler. *)
Definition destruct_thread (t : id) : M unit :=
  _ ← Ipc_node.destruct_node t;
  modify (with_threads (base.delete t)).

(** The work item by which another CPU destructs the thread it executes: its creation
    blocks the caller, its execution wakes the caller up. *)
Definition Destroy (caller t : id) : M unit := _become_inactive caller AWAITS_RESTART.

Definition Destroy_execute (caller t : id) : M unit :=
  _ ← destruct_thread t;
  _ ← _restart caller;
  mret tt.

(** [scheduled]: whether the CPU of [t] executes [t] at the moment. *)
Definition _call_delete_thread (caller t : id) (scheduled : bool) : M unit :=
  x ← get t;
  s ← get_state;
  if bool_decide (_cpu x = None) || (bool_decide (_cpu x = Some (executing_id s)) || negb scheduled)
  then destruct_thread t else Destroy caller t.

Definition _call_await_request_msg (t : id) : M unit :=
  x ← get t;
  if ready_to_wait x then
    _ ← Ipc_node.wait t;
    x ← get t;
    if waiting x then _become_inactive t AWAITS_IPC else update t (set_user_arg_0 0)
  else _become_inactive t DEAD.

(** [dst]: what the capability lookup yields. *)
Definition _call_send_request_msg (t : id) (dst : option id) : M unit :=
  _ ← pd t;
  match dst with
  | None => _become_inactive t DEAD
  | Some dst =>
      x ← get t;
      y ← get dst;
      let help := bool_decide (_cpu y = _cpu x) in
      _ ← pd dst;
      _ ← when (ready_to_send x) (Ipc_node.send t dst help);
      _ ← update t (set_state AWAITS_IPC);
      y ← get dst;
      when (negb help || negb (own_share_active y)) (_deactivate_used_shares t)
  end.

Definition _call_send_reply_msg (t : id) (await_request_msg : bool) : M unit :=
  _ ← Ipc_node.reply t;
  if await_request_msg then _call_await_request_msg t else update t (set_user_arg_0 0).

(** The handlers signal objects call. *)
Definition signal_context_kill_pending (t : id) : M unit :=
  x ← get t;
  _ ← assert (bool_decide (_state x = ACTIVE));
  _become_inactive t AWAITS_SIGNAL_CONTEXT_KILL.

Definition signal_context_kill_finished (arg : Z) (t : id) : M unit :=
  x ← get t;
  _ ← assert (bool_decide (_state x = AWAITS_SIGNAL_CONTEXT_KILL));
  _ ← update t (set_user_arg_0 arg);
  _become_active t.

Definition signal_context_kill_done : id → M unit := signal_context_kill_finished 0.
Definition signal_context_kill_failed : id → M unit := signal_context_kill_finished (-1).

(** The handler and the killer objects that a blocked thread is registered with are
    not part of the model, only what happens to the thread. *)
Definition _cancel_blocking (t : id) : M unit :=
  x ← get t;
  match _state x with
  | AWAITS_RESTART => _become_active t
  | AWAITS_IPC => Ipc_node.cancel_waiting t
  | AWAITS_SIGNAL => _ ← update t (set_user_arg_0 (-1)); _become_active t
  | AWAITS_SIGNAL_CONTEXT_KILL | ACTIVE | DEAD | AWAITS_START => mret tt
  end.

Definition signal_wait_for_signal (t : id) : M unit := _become_inactive t AWAITS_SIGNAL.

Definition signal_receive_signal (data : list Z) (t : id) : M unit :=
  x ← get t;
  _ ← assert (bool_decide (_state x = AWAITS_SIGNAL));
  _ ← update t (λ x, set_utcb (data ++ drop (length data) (_utcb x)) x);
  _become_active t.
