(* ===== verification/Kernel_inv.v ===== *)
(** * Kernel_inv: the invariant of threads, IPC nodes and CPU shares

    What holds between the kernel calls of [Kernel_thread]: the queues and the pointers to
    the receivers agree, the states of threads and of their IPC nodes fit together,
    helping relationships have no cycle, and a CPU share is active exactly if the thread
    at the end of the helping relationship is runnable.  The last part is stated edge by
    edge ([share_ok]), so that an operation has to account only for the thread it acts
    on; [used_shares_spec] shows that activation and deactivation reach exactly the
    threads that help a thread, directly or not. *)

From Stdlib Require Import Setoid Morphisms.
From stdpp Require Import relations.
From S2P Require Import Prelude Kernel_thread.

Abbreviation heap := (gmap id thread).

Lemma get_run ts e t x : ts !! t = Some x → get t (Kernel ts e) = (Ok x, Kernel ts e).
Proof. intros Hx. unfold get. cbn. by rewrite Hx. Qed.

Lemma update_run ts e t x f : ts !! t = Some x → update t f (Kernel ts e) = (Ok tt, Kernel (alter f t ts) e).
Proof. intros Hx. unfold update. cbn. by rewrite Hx. Qed.

Lemma assert_run (s : kernel) : assert true s = (Ok tt, s).
Proof. done. Qed.

(** ** Helping relationships *)

Definition helps (ts : heap) (n d : id) : Prop := ∃ x, ts !! n = Some x ∧ _helping x = true ∧ out_node x = Some d.

(** The threads that help [t], directly or not, and [t]. *)
Definition group (ts : heap) (t n : id) : Prop := rtc (helps ts) n t.

Definition acyclic (ts : heap) : Prop := ∀ n, ¬ tc (helps ts) n n.

Record links_ok (ts : heap) : Prop := {
  link_in d y n : ts !! d = Some y → n ∈ in_queue y →
    ∃ x, ts !! n = Some x ∧ (_helping x = true → out_node x = Some d);
  link_out n d : helps ts n d → ∃ y, ts !! d = Some y ∧ n ∈ in_queue y;
  link_nodup d y : ts !! d = Some y → NoDup (in_queue y) }.

Lemma helps_fun ts n d d' : helps ts n d → helps ts n d' → d = d'.
Proof. intros (x & Hx & _ & Hd) (x' & Hx' & _ & Hd'). congruence. Qed.

(** What two nodes on the way from the same node have to do with each other. *)
Lemma group_linear ts m n n' : rtc (helps ts) m n → rtc (helps ts) m n' → rtc (helps ts) n n' ∨ rtc (helps ts) n' n.
Proof.
  intros H. revert n'. induction H as [m|m k n Hmk Hkn IH]; intros n' H'; [by left|].
  inversion H' as [|? k' ? Hmk' Hk'n']; subst; [right; by eapply rtc_l|].
  rewrite (helps_fun _ _ _ _ Hmk' Hmk) in Hk'n'. by apply IH.
Qed.

Lemma group_disjoint ts t n n' m :
  acyclic ts → helps ts n t → helps ts n' t → n ≠ n' → group ts n m → ¬ group ts n' m.
Proof.
  intros Hac Hn Hn' Hne Hm Hm'.
  assert (∀ a b, helps ts a t → helps ts b t → a ≠ b → ¬ rtc (helps ts) a b) as Hno.
  { intros a b Ha Hb Hab Hr. inversion Hr as [|? k ? Hak Hkb]; subst; [done|].
    rewrite (helps_fun _ _ _ _ Hak Ha) in Hkb. apply (Hac t). by eapply tc_rtc_l; [exact Hkb|apply tc_once]. }
  destruct (group_linear ts m n n' Hm Hm') as [H|H]; [by apply (Hno n n')|by apply (Hno n' n)].
Qed.

Lemma group_not_dest ts t n : acyclic ts → helps ts n t → ¬ group ts n t.
Proof. intros Hac Hn Hg. apply (Hac t). eapply tc_rtc_l; [exact Hg|by apply tc_once]. Qed.

Lemma group_cases ts t m : group ts t m ↔ m = t ∨ ∃ n, helps ts n t ∧ group ts n m.
Proof.
  split.
  - intros Hm. apply rtc_inv_r in Hm as [->|(n & Hm & Hn)]; [by left|right; by exists n].
  - intros [->|(n & Hn & Hm)]; [apply rtc_refl|]. eapply rtc_r; [exact Hm|exact Hn].
Qed.

(** ** The flags of CPU shares *)

Definition set_flags (b : bool) (G : gset id) (ts : heap) : heap :=
  map_imap (λ n x, Some (if decide (n ∈ G) then set_active b x else x)) ts.

Lemma lookup_flags b G ts n :
  set_flags b G ts !! n = (λ x, if decide (n ∈ G) then set_active b x else x) <$> ts !! n.
Proof. unfold set_flags. rewrite map_lookup_imap. by destruct (ts !! n). Qed.

Lemma flags_single b t ts : alter (set_active b) t ts = set_flags b {[t]} ts.
Proof.
  apply map_eq. intros n. rewrite lookup_flags. destruct (decide (n = t)) as [->|Hn].
  - rewrite lookup_alter_eq. destruct (ts !! t); [|done]. simpl. by rewrite decide_True by set_solver.
  - rewrite lookup_alter_ne by done. destruct (ts !! n); [|done]. simpl. by rewrite decide_False by set_solver.
Qed.

Lemma flags_union b G G' ts : set_flags b G' (set_flags b G ts) = set_flags b (G ∪ G') ts.
Proof.
  apply map_eq. intros n. rewrite !lookup_flags. destruct (ts !! n) as [x|]; [simpl|done]. f_equal.
  destruct (decide (n ∈ G)), (decide (n ∈ G')), (decide (n ∈ G ∪ G')); try done; set_solver.
Qed.

Lemma flags_size b G ts : base.size (set_flags b G ts) = base.size ts.
Proof.
  rewrite <- !size_dom. f_equal. apply set_eq. intros n. rewrite !elem_of_dom, lookup_flags. by rewrite fmap_is_Some.
Qed.

(** Maps that agree on what the IPC nodes hold have the same relationships. *)
Definition ipc_part (x : thread) : list id * Out_state * option id := (in_queue x, out_state x, out_node x).

Definition same_ipc (ts ts' : heap) : Prop := ∀ n, ipc_part <$> ts' !! n = ipc_part <$> ts !! n.

Lemma same_ipc_some ts ts' n x : same_ipc ts ts' → ts !! n = Some x → ∃ x', ts' !! n = Some x' ∧ ipc_part x' = ipc_part x.
Proof. intros Hs Hx. specialize (Hs n). rewrite Hx in Hs. destruct (ts' !! n) as [x'|]; [|done]. exists x'. split; [done|]. by apply (inj Some). Qed.

Lemma same_ipc_sym ts ts' : same_ipc ts ts' → same_ipc ts' ts.
Proof. intros Hs n. by rewrite Hs. Qed.

Lemma same_ipc_trans ts ts1 ts2 : same_ipc ts ts1 → same_ipc ts1 ts2 → same_ipc ts ts2.
Proof. intros H H' n. by rewrite (H' n), (H n). Qed.

Lemma same_ipc_helping x x' : ipc_part x' = ipc_part x → _helping x' = _helping x ∧ sending x' = sending x.
Proof. intros [= _ Ho Hn]. unfold _helping, sending. by rewrite Ho, Hn. Qed.

Lemma same_ipc_helps ts ts' n d : same_ipc ts ts' → helps ts n d → helps ts' n d.
Proof.
  intros Hs (x & Hx & Hh & Hd). destruct (same_ipc_some _ _ n x Hs Hx) as (x' & Hx' & E). exists x'.
  destruct (same_ipc_helping x x' E) as [-> _]. injection E as _ _ E. by rewrite E.
Qed.

Lemma same_ipc_group ts ts' t n : same_ipc ts ts' → group ts t n → group ts' t n.
Proof. intros Hs. apply rtc_subrel. intros a b. by apply same_ipc_helps. Qed.

Lemma same_ipc_acyclic ts ts' : same_ipc ts ts' → acyclic ts → acyclic ts'.
Proof. intros Hs Hac n Hn. apply (Hac n). revert Hn. apply (tc_congruence (λ x, x)). intros a b. by apply same_ipc_helps, same_ipc_sym. Qed.

Lemma same_ipc_links ts ts' : same_ipc ts ts' → links_ok ts → links_ok ts'.
Proof.
  intros Hs [H1 H2 H3]. pose proof (same_ipc_sym _ _ Hs) as Hs'. split.
  - intros d y n Hy Hn. destruct (same_ipc_some _ _ d y Hs' Hy) as (y0 & Hy0 & [= E _ _]). rewrite <- E in Hn.
    destruct (H1 d y0 n Hy0 Hn) as (x & Hx & Ho). destruct (same_ipc_some _ _ n x Hs Hx) as (x' & Hx' & E').
    exists x'. split; [done|]. destruct (same_ipc_helping x x' E') as [-> _]. injection E' as _ _ ->. done.
  - intros n d Hh. destruct (H2 n d (same_ipc_helps _ _ _ _ Hs' Hh)) as (y & Hy & Hn).
    destruct (same_ipc_some _ _ d y Hs Hy) as (y' & Hy' & [= E _ _]). exists y'. by rewrite E.
  - intros d y Hy. destruct (same_ipc_some _ _ d y Hs' Hy) as (y0 & Hy0 & [= E _ _]). rewrite <- E. by apply (H3 d).
Qed.

Lemma same_ipc_flags b G ts : same_ipc ts (set_flags b G ts).
Proof. intros n. rewrite lookup_flags. destruct (ts !! n); [|done]. simpl. by destruct (decide _). Qed.

Lemma same_ipc_alter f t ts : (∀ x, ipc_part (f x) = ipc_part x) → same_ipc ts (alter f t ts).
Proof.
  intros Hf n. destruct (decide (n = t)) as [->|]; [|by rewrite lookup_alter_ne].
  rewrite lookup_alter_eq. destruct (ts !! t); [|done]. simpl. by rewrite Hf.
Qed.

(** ** Reaching the helpers *)

Section Used_shares.
Context (b : bool) (own : id → M unit) (allowed : Z → option Z → Prop).
Context (Hown : ∀ ts e n x, ts !! n = Some x → own_share_active x = negb b → allowed e (_cpu x) →
  own n (Kernel ts e) = (Ok tt, Kernel (alter (set_active b) n ts) e)).

(** All threads of the group of [t] wait to be flipped. *)
Definition flippable (ts : heap) (e : Z) (t : id) : Prop :=
  ∀ n x, group ts t n → ts !! n = Some x → own_share_active x = negb b ∧ allowed e (_cpu x).

Lemma flippable_flags ts e G t :
  flippable ts e t → (∀ n, n ∈ G → ¬ group ts t n) → flippable (set_flags b G ts) e t.
Proof.
  intros Hf HG n x Hn Hx. assert (group ts t n) as Hn' by (revert Hn; apply same_ipc_group, same_ipc_sym, same_ipc_flags).
  rewrite lookup_flags in Hx. destruct (ts !! n) as [x0|] eqn:Hx0; [|done]. simpl in Hx. injection Hx as <-.
  destruct (decide (n ∈ G)) as [Hin|]; [by destruct (HG n Hin)|]. by apply (Hf n x0).
Qed.

Lemma flippable_helper ts e t n : flippable ts e t → helps ts n t → flippable ts e n.
Proof. intros Hf Hn m x Hm. apply Hf. apply group_cases. right. by exists n. Qed.

(** The threads reached when the helpers [done] of [t] are through. *)
Definition reached (ts : heap) (t : id) (G : gset id) (l : list id) : Prop :=
  ∀ m, m ∈ G ↔ m = t ∨ ∃ n, n ∈ l ∧ helps ts n t ∧ group ts n m.

Lemma helpers_spec fuel ts e t q l G :
  (∀ ts' n, same_ipc ts ts' → base.size ts' = base.size ts → helps ts' n t → flippable ts' e n →
    ∃ G', (∀ m, m ∈ G' ↔ group ts' n m) ∧ used_shares fuel own n (Kernel ts' e) = (Ok tt, Kernel (set_flags b G' ts') e)) →
  acyclic ts → links_ok ts → flippable ts e t → (∃ y, ts !! t = Some y ∧ in_queue y = l ++ q) → reached ts t G l →
  ∃ G', reached ts t G' (l ++ q) ∧
    for_all (λ n, y ← get n; when (_helping y) (used_shares fuel own n)) q (Kernel (set_flags b G ts) e) =
      (Ok tt, Kernel (set_flags b G' ts) e).
Proof.
  intros IH Hac Hlinks Hflip Hq. revert l G Hq. induction q as [|n q IHq]; intros l G (y & Hy & Eq) HG.
  { exists G. rewrite app_nil_r. done. }
  pose proof (link_nodup _ Hlinks t y Hy) as Hnd. rewrite Eq in Hnd.
  destruct (link_in _ Hlinks t y n Hy) as (x & Hx & Hout); [rewrite Eq; set_solver|].
  set (ts0 := set_flags b G ts).
  assert (∃ x0, ts0 !! n = Some x0 ∧ ipc_part x0 = ipc_part x) as (x0 & Hx0 & E0) by (by apply (same_ipc_some ts), Hx; apply same_ipc_flags).
  destruct (same_ipc_helping x x0 E0) as [Eh _]. cbn [for_all].
  assert ((∃ y, ts !! t = Some y ∧ in_queue y = (l ++ [n]) ++ q)) as Hq' by (exists y; by rewrite <- app_assoc).
  destruct (_helping x) eqn:Hh.
  - assert (helps ts n t) as Hn by (exists x; auto).
    assert (n ∉ l) as Hnl by (apply NoDup_app in Hnd as (_ & Hd & _); intros Hin; apply (Hd n Hin); constructor).
    assert (∀ m, m ∈ G → ¬ group ts n m) as HGn.
    { intros m Hm Hg. apply HG in Hm as [->|(n' & Hn'l & Hn' & Hm)]; [by apply (group_not_dest ts t n)|].
      apply (group_disjoint ts t n n' m); [done..| |done|done]. by intros ->. }
    destruct (IH ts0 n) as (G' & HG' & Hrun).
    { apply same_ipc_flags. } { apply flags_size. } { apply (same_ipc_helps ts); [apply same_ipc_flags|done]. }
    { apply flippable_flags; [by apply (flippable_helper ts e t)|done]. }
    destruct (IHq (l ++ [n]) (G ∪ G')) as (G2 & HG2 & Hrun2); [done| |].
    { intros m. rewrite elem_of_union, (HG m), (HG' m). split.
      - intros [[->|(n' & ? & ? & ?)]|Hm]; [by left|right; exists n'; set_solver|].
        right. exists n. split_and!; [set_solver|done|]. revert Hm. apply same_ipc_group, same_ipc_sym, same_ipc_flags.
      - intros [->|(n' & [Hl|Hl]%elem_of_app & Hn' & Hm)]; [by left; left|left; right; by exists n'|].
        apply list_elem_of_singleton in Hl as ->. right. revert Hm. apply same_ipc_group, same_ipc_flags. }
    exists G2. rewrite <- app_assoc in HG2. split; [done|].
    assert ((y ← get n; when (_helping y) (used_shares fuel own n)) (Kernel ts0 e) = (Ok tt, Kernel (set_flags b G' ts0) e)) as Hstep.
    { mrun (get_run ts0 e n x0 Hx0). by rewrite Eh. }
    mrun Hstep. unfold ts0. by rewrite flags_union.
  - destruct (IHq (l ++ [n]) G) as (G2 & HG2 & Hrun2); [done| |].
    { intros m. rewrite (HG m). split; (intros [->|(n' & Hl & Hn' & Hm)]; [by left|right; exists n'; split_and!; [|done|done]]); [set_solver|].
      apply elem_of_app in Hl as [Hl|Hl]; [done|]. apply list_elem_of_singleton in Hl as ->.
      destruct Hn' as (x' & Hx' & Hh' & _). congruence. }
    exists G2. rewrite <- app_assoc in HG2. split; [done|].
    assert ((y ← get n; when (_helping y) (used_shares fuel own n)) (Kernel ts0 e) = (Ok tt, Kernel ts0 e)) as Hstep.
    { mrun (get_run ts0 e n x0 Hx0). by rewrite Eh. }
    by mrun Hstep.
Qed.

(** The threads on the way to [t] bound the depth of the recursion. *)
Lemma used_shares_path fuel path ts e t :
  links_ok ts → acyclic ts → is_Some (ts !! t) → NoDup path → (∀ p, p ∈ path → tc (helps ts) t p ∧ is_Some (ts !! p)) →
  (base.size ts < length path + fuel)%nat → flippable ts e t →
  ∃ G, (∀ m, m ∈ G ↔ group ts t m) ∧ used_shares fuel own t (Kernel ts e) = (Ok tt, Kernel (set_flags b G ts) e).
Proof.
  revert path ts t. induction fuel as [|fuel IH]; intros path ts t Hlinks Hac [x Hx] Hnd Hpath Hfuel Hflip.
  { assert (length path ≤ base.size ts)%nat; [|lia]. rewrite <- size_dom, <- (size_list_to_set (C := gset id) path) by done.
    apply subseteq_size. intros p Hp%elem_of_list_to_set. by apply elem_of_dom, Hpath. }
  assert (t ∉ path) as Htp by (intros Hin; by apply (Hac t), Hpath).
  destruct (Hflip t x (rtc_refl _ _) Hx) as [Ha Hc]. cbn [used_shares]. mrun (Hown ts e t x Hx Ha Hc). rewrite flags_single.
  assert (set_flags b {[t]} ts !! t = Some (set_active b x)) as Hx1.
  { rewrite lookup_flags, Hx. simpl. by rewrite decide_True by set_solver. }
  mrun (get_run _ e t _ Hx1). cbn [in_queue set_active].
  destruct (helpers_spec fuel ts e t (in_queue x) [] {[t]}) as (G & HG & Hrun); try done.
  - intros ts' n Hs Hsz Hn Hf. apply (IH (t :: path)); [by apply (same_ipc_links ts)|by apply (same_ipc_acyclic ts)|
      by destruct Hn as (? & ? & _); eexists|by constructor| |simpl; lia|done].
    assert (∀ p, is_Some (ts !! p) → is_Some (ts' !! p)) as Hdom.
    { intros p [xp Hp]. destruct (same_ipc_some _ _ p xp Hs Hp) as (? & ? & _). by eexists. }
    intros p [->|Hp]%elem_of_cons; [split; [by apply tc_once|by apply Hdom; eexists]|].
    destruct (Hpath p Hp) as [Htc Hsome]. split; [|by apply Hdom]. apply (tc_l _ _ t); [done|].
    revert Htc. apply (tc_congruence (λ x, x)). intros ? ?. by apply same_ipc_helps.
  - exists x. done.
  - intros m. split; [intros ->%elem_of_singleton; by left|]. intros [->|(n & Hn & _)]; [set_solver|by apply elem_of_nil in Hn].
  - exists G. split; [|done]. intros m. rewrite (HG m), group_cases. cbn [app]. split.
    + intros [->|(n & _ & ? & ?)]; [by left|right; by exists n].
    + intros [->|(n & Hn & Hm)]; [by left|right]. exists n. destruct (link_out _ Hlinks n t Hn) as (y & Hy & Hin).
      split_and!; [congruence|done|done].
Qed.

Lemma used_shares_spec ts e t :
  links_ok ts → acyclic ts → is_Some (ts !! t) → flippable ts e t →
  ∃ G, (∀ m, m ∈ G ↔ group ts t m) ∧
    used_shares (helping_fuel (Kernel ts e)) own t (Kernel ts e) = (Ok tt, Kernel (set_flags b G ts) e).
Proof.
  intros Hl Hac Ht Hf. apply (used_shares_path _ []); [done|done|done|apply NoDup_nil_2| |unfold helping_fuel; simpl; lia|done].
  intros p Hp. by apply elem_of_nil in Hp.
Qed.

End Used_shares.

Lemma activate_spec ts e t :
  links_ok ts → acyclic ts → is_Some (ts !! t) →
  (∀ n x, group ts t n → ts !! n = Some x → own_share_active x = false ∧ _cpu x ≠ None) →
  ∃ G, (∀ m, m ∈ G ↔ group ts t m) ∧ _activate_used_shares t (Kernel ts e) = (Ok tt, Kernel (set_flags true G ts) e).
Proof.
  intros Hl Hac Ht Hf.
  destruct (used_shares_spec true _activate_own_share (λ _ c, c ≠ None)) with (ts := ts) (e := e) (t := t) as (G & HG & Hrun); try done.
  - intros ts' e' n x Hx Ha Hc. unfold _activate_own_share. mrun (get_run ts' e' n x Hx). rewrite Ha.
    destruct (_cpu x) as [c|]; [|done]. cbn [negb]. mrun (assert_run (Kernel ts' e')). by apply update_run with x.
  - by exists G.
Qed.

Lemma deactivate_spec ts e t :
  links_ok ts → acyclic ts → is_Some (ts !! t) →
  (∀ n x, group ts t n → ts !! n = Some x → own_share_active x = true ∧ _cpu x = Some e) →
  ∃ G, (∀ m, m ∈ G ↔ group ts t m) ∧ _deactivate_used_shares t (Kernel ts e) = (Ok tt, Kernel (set_flags false G ts) e).
Proof.
  intros Hl Hac Ht Hf.
  destruct (used_shares_spec false _deactivate_own_share (λ e c, c = Some e)) with (ts := ts) (e := e) (t := t) as (G & HG & Hrun); try done.
  - intros ts' e' n x Hx Ha Hc. unfold _deactivate_own_share. mrun (get_run ts' e' n x Hx). rewrite Ha, Hc.
    unfold get_state. unfold mbind at 1, exc_bind at 1. cbn [executing_id]. rewrite Z.eqb_refl.
    mrun (assert_run (Kernel ts' e')). mrun (assert_run (Kernel ts' e')). by apply update_run with x.
  - by exists G.
Qed.

(** ** The invariant *)

Definition runnable (x : thread) : bool := bool_decide (_state x = ACTIVE) && negb (_paused x).

(** The edge from a helper to its destination, or the state of the thread itself, decides
    on its CPU share. *)
Definition share_ok (ts : heap) (n : id) : Prop :=
  ∀ x, ts !! n = Some x →
    if _helping x then ∃ d y, out_node x = Some d ∧ ts !! d = Some y ∧ own_share_active x = own_share_active y ∧ _cpu x = _cpu y
    else own_share_active x = runnable x.

(** The states of a thread and its IPC node fit together. *)
Record node_ok (x : thread) : Prop := {
  node_in : match in_state x with
            | WAIT => in_queue x = []
            | REPLY => in_queue x ≠ []
            | IN_DESTRUCT => False
            | _ => True
            end;
  node_out : out_state x ≠ OUT_DESTRUCT ∧ (out_node x ≠ None ↔ sending x = true);
  node_blocked : _state x = AWAITS_IPC ↔ sending x = true ∨ waiting x = true;
  node_either : sending x = true → waiting x = false ∧ _paused x = false;
  node_cpu : (_state x ≠ AWAITS_START ↔ _cpu x ≠ None) ∧ (_cpu x ≠ None → _pd x ≠ None) }.

(** A started thread stays started when its state changes. *)
Lemma still_started (st st' : State) (c p : option Z) :
  (st ≠ AWAITS_START ↔ c ≠ None) ∧ (c ≠ None → p ≠ None) → st ≠ AWAITS_START → st' ≠ AWAITS_START →
  (st' ≠ AWAITS_START ↔ c ≠ None) ∧ (c ≠ None → p ≠ None).
Proof. intros [H5 Hp] Hst Hst'. split; [|done]. split; [|done]. intros _. by apply H5. Qed.

(** A started thread has a protection domain. *)
Lemma pd_run ts e t x :
  node_ok x → ts !! t = Some x → _state x ≠ AWAITS_START → ∃ p, pd t (Kernel ts e) = (Ok p, Kernel ts e).
Proof.
  intros [_ _ _ _ [[H5 _] Hp]] Hx Hst. unfold pd. mrun (get_run ts e t x Hx).
  destruct (_pd x) as [p|]; [by exists p|]. by destruct (Hp (H5 Hst)).
Qed.

Definition threads_ok (ts : heap) : Prop := ∀ n x, ts !! n = Some x → node_ok x.

(** Each pointer to a receiver has its item in the queue of the receiver, and the other
    way around. *)
Record queues_ok (ts : heap) : Prop := {
  queue_item d y n : ts !! d = Some y → n ∈ in_queue y → ∃ x, ts !! n = Some x ∧ out_node x = Some d;
  queue_node n x d : ts !! n = Some x → out_node x = Some d → ∃ y, ts !! d = Some y ∧ n ∈ in_queue y;
  queue_nodup d y : ts !! d = Some y → NoDup (in_queue y);
  queue_self n x : ts !! n = Some x → out_node x ≠ Some n }.

Record kernel_ok (ts : heap) : Prop := {
  ok_queues : queues_ok ts;
  ok_threads : threads_ok ts;
  ok_acyclic : acyclic ts;
  ok_shares : ∀ n, share_ok ts n }.

Lemma queues_links ts : queues_ok ts → links_ok ts.
Proof.
  intros [H1 H2 H3 _]. split; [| |done].
  - intros d y n Hy Hn. destruct (H1 d y n Hy Hn) as (x & Hx & Hd). by exists x.
  - intros n d (x & Hx & _ & Hd). by apply (H2 n x).
Qed.

(** The nodes in [X] are about to be destroyed, or their edge is out of order. *)
Definition shares_except (X : id → Prop) (ts : heap) : Prop := ∀ m, ¬ X m → share_ok ts m.

(** No node of [X] is among the helpers of [t]. *)
Definition clear (X : id → Prop) (ts : heap) (t : id) : Prop := ∀ n, group ts t n → n ≠ t → ¬ X n.

(** All shares of a group agree with that of its destination, whose edge may be out of order. *)
Lemma group_share X ts t n x y :
  shares_except X ts → clear X ts t → group ts t n → ts !! n = Some x → ts !! t = Some y →
  own_share_active x = own_share_active y ∧ _cpu x = _cpu y.
Proof.
  intros Hs Hc Hg. revert x. induction Hg as [t|n m t Hnm Hmt IH]; intros x Hx Hy; [by replace y with x by congruence|].
  destruct (decide (n = t)) as [->|Hnt]; [by replace y with x by congruence|].
  assert (group ts t n) as Hn by (by eapply rtc_l).
  destruct Hnm as (x' & Hx' & Hh & Hd). assert (x' = x) as -> by congruence.
  pose proof (Hs n (Hc n Hn Hnt) x Hx) as Hx0. rewrite Hh in Hx0. destruct Hx0 as (d & z & Hd' & Hz & -> & ->).
  assert (d = m) as -> by congruence. by apply IH.
Qed.

(** Flipping the group of [t] breaks no edge but that of [t]. *)
Lemma flip_shares X ts t b G :
  shares_except X ts → (∀ m, m ∈ G ↔ group ts t m) → shares_except (λ n, X n ∨ n = t) (set_flags b G ts).
Proof.
  intros Hs HG n HX x Hx. rewrite lookup_flags in Hx. destruct (ts !! n) as [x0|] eqn:Hx0; [|done].
  simpl in Hx. injection Hx as <-. assert (n ≠ t) as Hnt by tauto. pose proof (Hs n ltac:(tauto) x0 Hx0) as Hn.
  assert (∀ x, _helping (if decide (n ∈ G) then set_active b x else x) = _helping x) as -> by (intros x; by destruct (decide _)).
  destruct (_helping x0) eqn:Hh0.
  - destruct Hn as (d & z & Hd & Hz & Ha & Hc). exists d, (if decide (d ∈ G) then set_active b z else z).
    rewrite lookup_flags, Hz. split_and!; [by destruct (decide _)|done| |by destruct (decide _), (decide _)].
    assert (n ∈ G ↔ d ∈ G) as Hiff.
    { rewrite !HG. assert (helps ts n d) as Hnd by (exists x0; auto). split.
      - intros Hg. inversion Hg as [|? k ? Hnk Hk]; subst; [done|]. by rewrite <- (helps_fun _ _ _ _ Hnk Hnd).
      - intros Hg. by eapply rtc_l. }
    destruct (decide (n ∈ G)), (decide (d ∈ G)); try tauto; done.
  - rewrite decide_False; [done|]. rewrite HG. intros Hg. inversion Hg as [|? k ? Hnk Hk]; subst; [done|].
    destruct Hnk as (x' & Hx' & Hh' & _). congruence.
Qed.

(** ** Changes of a single thread *)

Lemma alter_lookup (ts : heap) f t n x' :
  alter f t ts !! n = Some x' → ∃ x, ts !! n = Some x ∧ x' = if decide (n = t) then f x else x.
Proof.
  destruct (decide (n = t)) as [->|]; [|rewrite lookup_alter_ne by done; eauto].
  rewrite lookup_alter_eq. destruct (ts !! t); [|done]. intros [= <-]. eauto.
Qed.

Lemma same_ipc_refl ts : same_ipc ts ts.
Proof. by intros n. Qed.

(** The queues and the pointers to the receivers are all that [queues_ok] is about. *)
Definition link_part (x : thread) : list id * option id := (in_queue x, out_node x).

Lemma same_links_queues ts ts' :
  (∀ n, link_part <$> ts' !! n = link_part <$> ts !! n) → queues_ok ts → queues_ok ts'.
Proof.
  intros Hs [H1 H2 H3 H4].
  assert (∀ n x, ts !! n = Some x → ∃ x', ts' !! n = Some x' ∧ in_queue x' = in_queue x ∧ out_node x' = out_node x) as Hfwd.
  { intros n x Hx. specialize (Hs n). rewrite Hx in Hs. destruct (ts' !! n) as [x'|]; [|done]. injection Hs as E E'. eauto. }
  assert (∀ n x', ts' !! n = Some x' → ∃ x, ts !! n = Some x ∧ in_queue x' = in_queue x ∧ out_node x' = out_node x) as Hback.
  { intros n x' Hx. specialize (Hs n). rewrite Hx in Hs. destruct (ts !! n) as [x|]; [|done]. injection Hs as E E'. eauto. }
  split.
  - intros d y' n (y & Hy & -> & _)%Hback Hn. destruct (H1 d y n Hy Hn) as (x & (x' & Hx' & _ & <-)%Hfwd & Ho). eauto.
  - intros n x' d (x & Hx & _ & ->)%Hback Hd. destruct (H2 n x d Hx Hd) as (y & (y' & Hy' & <- & _)%Hfwd & Hn). eauto.
  - intros d y' (y & Hy & -> & _)%Hback. by apply (H3 d).
  - intros n x' (x & Hx & _ & ->)%Hback. by apply H4.
Qed.

Lemma same_ipc_queues ts ts' : same_ipc ts ts' → queues_ok ts → queues_ok ts'.
Proof.
  intros Hs. apply same_links_queues. intros n. specialize (Hs n).
  destruct (ts !! n), (ts' !! n); try done. unfold ipc_part in Hs. simpl in *. unfold link_part. congruence.
Qed.

Lemma node_ok_active b x : node_ok x → node_ok (set_active b x).
Proof. by intros [? ? ? ? ?]. Qed.

(** *** Heaps that agree up to the flags of CPU shares *)

Definition flagged (ts ts' : heap) : Prop := ∀ n, set_active true <$> ts !! n = set_active true <$> ts' !! n.

#[export] Instance flagged_equiv : Equivalence flagged.
Proof. split; [by intros ts n|by intros ts ts' H n|]. intros ts ts1 ts2 H H1 n. rewrite (H n). apply H1. Qed.

Lemma flagged_some ts ts' n x : flagged ts ts' → ts !! n = Some x → ∃ b, ts' !! n = Some (set_active b x).
Proof.
  intros H Hx. specialize (H n). rewrite Hx in H. destruct (ts' !! n) as [x'|]; [|done]. exists (own_share_active x'). f_equal.
  destruct x, x'. unfold set_active in *. simpl in *. congruence.
Qed.

Lemma flagged_back ts ts' n x' : flagged ts ts' → ts' !! n = Some x' → ∃ b x, ts !! n = Some x ∧ x' = set_active b x.
Proof.
  intros H Hx. symmetry in H. destruct (flagged_some _ _ n x' H Hx) as [b Hb]. exists (own_share_active x'), (set_active b x').
  split; [done|]. by destruct x'.
Qed.

Lemma flagged_set b G ts : flagged ts (set_flags b G ts).
Proof. intros n. rewrite lookup_flags. destruct (ts !! n); [|done]. simpl. by destruct (decide _). Qed.

Lemma flagged_same_ipc ts ts' : flagged ts ts' → same_ipc ts ts'.
Proof.
  intros H n. destruct (ts !! n) as [x|] eqn:Hx.
  - destruct (flagged_some _ _ n x H Hx) as [b ->]. done.
  - specialize (H n). rewrite Hx in H. by destruct (ts' !! n).
Qed.

(** A change that does not look at the share respects the equivalence. *)
Class Ignores_share (f : thread → thread) := ignores_share b x : f (set_active b x) = set_active b (f x).

#[export] Instance ignores_compose f g : Ignores_share f → Ignores_share g → Ignores_share (f ∘ g).
Proof. intros Hf Hg b x. simpl. by rewrite Hg, Hf. Qed.

#[export] Instance flagged_alter f t : Ignores_share f → Proper (flagged ==> flagged) (alter f t).
Proof.
  intros Hf ts ts' H n. rewrite !lookup_alter. case_decide; [|apply H]. subst. specialize (H n).
  destruct (ts !! n) as [x|], (ts' !! n) as [x'|]; try done. apply (inj Some) in H. simpl. f_equal. by rewrite <- !(ignores_share (f := f)), H.
Qed.

#[export] Hint Extern 0 (Ignores_share _) => (intros ? ?; reflexivity) : typeclass_instances.

#[export] Instance queues_proper : Proper (flagged ==> iff) queues_ok.
Proof. intros ts ts' H. split; apply same_ipc_queues; [|symmetry in H]; by apply flagged_same_ipc. Qed.

#[export] Instance acyclic_proper : Proper (flagged ==> iff) acyclic.
Proof. intros ts ts' H. split; apply same_ipc_acyclic; [|symmetry in H]; by apply flagged_same_ipc. Qed.

Definition threads_except (X : id → Prop) (ts : heap) : Prop := ∀ n x, ¬ X n → ts !! n = Some x → node_ok x.

#[export] Instance threads_proper X : Proper (flagged ==> iff) (threads_except X).
Proof.
  assert (∀ ts ts', flagged ts ts' → threads_except X ts → threads_except X ts') as H.
  { intros ts ts' H Ht n x Hn Hx. destruct (flagged_back _ _ n x H Hx) as (b & y & Hy & ->). by apply node_ok_active, (Ht n). }
  intros ts ts' Hf. split; by apply H.
Qed.

Lemma threads_alter X ts f t :
  threads_except X ts → (∀ x, ¬ X t → ts !! t = Some x → node_ok x → node_ok (f x)) → threads_except X (alter f t ts).
Proof.
  intros Ht Hf n x' Hn Hx. destruct (alter_lookup _ _ _ _ _ Hx) as (x & Hx0 & ->).
  destruct (decide (n = t)) as [->|]; [|by apply (Ht n)]. apply (Hf x Hn Hx0). by apply (Ht t).
Qed.

(** A change of [t] that leaves its share, its CPU and its helping relationship alone
    concerns the edge of [t] only. *)
Lemma shares_alter X ts f t :
  shares_except X ts → (∀ x, own_share_active (f x) = own_share_active x ∧ _cpu (f x) = _cpu x) →
  shares_except (λ n, X n ∨ n = t) (alter f t ts).
Proof.
  intros Hs Hf n Hn x Hx. destruct (alter_lookup _ _ _ _ _ Hx) as (x0 & Hx0 & ->).
  assert (n ≠ t) as Hnt by tauto. rewrite decide_False by done. pose proof (Hs n ltac:(tauto) x0 Hx0) as Hn0.
  destruct (_helping x0); [|done]. destruct Hn0 as (d & y & Hd & Hy & Ha & Hc).
  destruct (decide (d = t)) as [->|Hdt].
  - exists t, (f y). rewrite lookup_alter_eq, Hy. destruct (Hf y) as [-> ->]. done.
  - exists d, y. by rewrite lookup_alter_ne.
Qed.

(** ... and not even that one when the thread is as runnable as before. *)
Lemma shares_alter_same X ts f t :
  shares_except X ts →
  (∀ x, own_share_active (f x) = own_share_active x ∧ _cpu (f x) = _cpu x ∧ _helping (f x) = _helping x ∧
    out_node (f x) = out_node x) →
  (∀ x, ts !! t = Some x → ¬ X t → _helping x = false → runnable (f x) = runnable x) →
  shares_except X (alter f t ts).
Proof.
  intros Hs Hf Hr n Hn x Hx.
  assert (shares_except (λ n, X n ∨ n = t) (alter f t ts)) as Hs' by (apply shares_alter; [done|]; intros y; split; apply Hf).
  destruct (decide (n = t)) as [->|Hnt]; [|by apply (Hs' n); [tauto|]].
  destruct (alter_lookup _ _ _ _ _ Hx) as (x0 & Hx0 & ->). rewrite decide_True by done.
  pose proof (Hs t Hn x0 Hx0) as H0. destruct (Hf x0) as (Ea & Ec & Eh & Eo). rewrite Eh, Ea, Ec, Eo.
  destruct (_helping x0) eqn:Hh; [|by rewrite (Hr x0)]. destruct H0 as (d & y & Hd & Hy & Ha & Hc).
  destruct (decide (d = t)) as [->|Hdt].
  - exists t, (f y). rewrite lookup_alter_eq, Hy. destruct (Hf y) as (-> & -> & _). done.
  - exists d, y. by rewrite lookup_alter_ne.
Qed.
