(* ===== verification/Kernel_ipc.v ===== *)
(** * Kernel_ipc: what the operations of threads and IPC nodes do to the kernel

    Each operation of [Kernel_thread] is described by a pure change of the heap up to the
    flags of CPU shares ([flagged]), by the fact that the shares are in order afterwards
    ([shares_except]), and by the threads it leaves alone.  [Kernel_props] puts these
    descriptions together for the kernel calls. *)

From Stdlib Require Import Setoid Morphisms.
From stdpp Require Import relations.
From S2P Require Import Prelude Kernel_thread Kernel_inv.

(** ** Flipping the shares of a thread and its helpers *)

Definition flip (b : bool) : id → M unit := if b then _activate_used_shares else _deactivate_used_shares.

Definition may_flip (b : bool) (e : Z) (c : option Z) : Prop := if b then c ≠ None else c = Some e.

(** The threads outside the group of [t] are left alone. *)
Definition frame (ts ts' : heap) (t : id) : Prop := ∀ n, ¬ group ts t n → ts' !! n = ts !! n.

Lemma group_idle ts t n y : ts !! n = Some y → _helping y = false → group ts t n → n = t.
Proof. intros Hy Hh Hg. inversion Hg as [|? k ? (x & Hx & Hh' & _)]; subst; congruence. Qed.

Lemma frame_idle ts ts' t n y : frame ts ts' t → ts !! n = Some y → _helping y = false → n ≠ t → ts' !! n = Some y.
Proof. intros Hf Hy Hh Hn. rewrite Hf; [done|]. intros Hg. by apply Hn, (group_idle ts t n y). Qed.

Lemma frame_id ts t : frame ts ts t.
Proof. by intros n _. Qed.

Lemma frame_alter ts ts' t f : frame ts ts' t → frame ts (alter f t ts') t.
Proof.
  intros Hf n Hn. rewrite lookup_alter_ne; [by apply Hf|]. intros ->. apply Hn, rtc_refl.
Qed.

Lemma shares_settle X ts t : shares_except (λ n, X n ∨ n = t) ts → share_ok ts t → shares_except X ts.
Proof. intros Hs Ht n Hn. destruct (decide (n = t)) as [->|]; [done|]. apply Hs. tauto. Qed.

Lemma shares_weaken (X Y : id → Prop) ts : (∀ n, X n → Y n) → shares_except X ts → shares_except Y ts.
Proof. intros HXY Hs n Hn. apply Hs. intros Hx. by apply Hn, HXY. Qed.

Lemma flip_run b X ts e t x :
  links_ok ts → acyclic ts → shares_except X ts → clear X ts t →
  ts !! t = Some x → own_share_active x = negb b → may_flip b e (_cpu x) →
  ∃ ts', flip b t (Kernel ts e) = (Ok tt, Kernel ts' e) ∧ flagged ts ts' ∧
    shares_except (λ n, X n ∨ n = t) ts' ∧ ts' !! t = Some (set_active b x) ∧ frame ts ts' t.
Proof.
  intros Hl Hac Hs Hc Hx Ha Hcpu.
  assert (∃ G, (∀ m, m ∈ G ↔ group ts t m) ∧ flip b t (Kernel ts e) = (Ok tt, Kernel (set_flags b G ts) e)) as (G & HG & Hrun).
  { assert (∀ n y, group ts t n → ts !! n = Some y → own_share_active y = own_share_active x ∧ _cpu y = _cpu x) as Hg
      by (intros n y Hn Hy; by apply (group_share X ts t n)).
    destruct b; [apply activate_spec|apply deactivate_spec]; try done; (intros n y Hn Hy; destruct (Hg n y Hn Hy) as [-> ->]; done). }
  exists (set_flags b G ts). split_and!; [done|apply flagged_set|by apply flip_shares| |].
  - rewrite lookup_flags, Hx. simpl. by rewrite decide_True by (apply HG, rtc_refl).
  - intros n Hn. rewrite lookup_flags. destruct (ts !! n); [|done]. simpl. by rewrite decide_False by (by rewrite HG).
Qed.

(** A change that keeps the share, the CPU and the helping relationship of a thread. *)
Class Keeps_edge (f : thread → thread) := keeps_edge x :
  own_share_active (f x) = own_share_active x ∧ _cpu (f x) = _cpu x ∧ _helping (f x) = _helping x ∧ out_node (f x) = out_node x.

#[export] Hint Extern 0 (Keeps_edge _) => (intros ?; split_and!; reflexivity) : typeclass_instances.

Lemma when_false (m : M unit) s : when false m s = (Ok tt, s).
Proof. done. Qed.

(** A thread that is not helping changes, and its share is flipped if it becomes or
    ceases to be runnable. *)
Lemma flip_update_run (b c : bool) f X ts e t x :
  Ignores_share f → Keeps_edge f →
  links_ok ts → acyclic ts → shares_except X ts → clear X ts t → ¬ X t →
  ts !! t = Some x → _helping x = false → runnable (f x) = (if c then b else runnable x) →
  (c = true → runnable x = negb b ∧ may_flip b e (_cpu x)) →
  ∃ ts', (_ ← when c (flip b t); update t f) (Kernel ts e) = (Ok tt, Kernel ts' e) ∧
    flagged (alter f t ts) ts' ∧ shares_except X ts' ∧ frame ts ts' t.
Proof.
  intros Hf Hk Hl Hac Hs Hcl HX Hx Hh Hr Hc. destruct c.
  - destruct (Hc eq_refl) as [Hr0 Hcpu]. pose proof (Hs t HX x Hx) as Hsh. rewrite Hh in Hsh.
    destruct (flip_run b X ts e t x) as (ts1 & Hrun & Hfl & Hs1 & Ht1 & Hfr); [done..|by rewrite Hsh|done|].
    cbn [when]. mrun Hrun. rewrite (update_run ts1 e t _ f Ht1). eexists. split; [done|]. split; [by rewrite Hfl|].
    split; [|by apply frame_alter]. apply (shares_settle X _ t).
    + apply (shares_weaken (λ n, (X n ∨ n = t) ∨ n = t)); [tauto|]. apply shares_alter; [done|]. intros y. split; apply Hk.
    + intros x' Hx'. destruct (alter_lookup _ _ _ _ _ Hx') as (x1 & Hx1 & ->). rewrite decide_True by done.
      assert (x1 = set_active b x) as -> by congruence. destruct (Hk (set_active b x)) as (-> & _ & -> & _).
      change (_helping (set_active b x)) with (_helping x). rewrite Hh. rewrite (Hf b x). by rewrite <- Hr.
  - mrun (when_false (flip b t) (Kernel ts e)). rewrite (update_run ts e t x f Hx).
    eexists. split; [done|]. split; [done|]. split; [|by apply frame_alter, frame_id].
    apply shares_alter_same; [done|exact Hk|]. intros y Hy _ _. by replace y with x by congruence.
Qed.

Lemma become_active_run X ts e t x :
  links_ok ts → acyclic ts → shares_except X ts → clear X ts t → ¬ X t →
  ts !! t = Some x → _helping x = false → _cpu x ≠ None →
  ∃ ts', _become_active t (Kernel ts e) = (Ok tt, Kernel ts' e) ∧
    flagged (alter (set_state ACTIVE) t ts) ts' ∧ shares_except X ts' ∧ frame ts ts' t.
Proof.
  intros Hl Hac Hs Hcl HX Hx Hh Hcpu. unfold _become_active. mrun (get_run ts e t x Hx).
  apply (flip_update_run true _ (set_state ACTIVE) X ts e t x); try done; try apply _; unfold runnable; cbn;
    destruct (_state x), (_paused x); by cbn.
Qed.

Lemma become_inactive_run st X ts e t x :
  st ≠ ACTIVE → links_ok ts → acyclic ts → shares_except X ts → clear X ts t → ¬ X t →
  ts !! t = Some x → _helping x = false → (runnable x = true → _cpu x = Some e) →
  ∃ ts', _become_inactive t st (Kernel ts e) = (Ok tt, Kernel ts' e) ∧
    flagged (alter (set_state st) t ts) ts' ∧ shares_except X ts' ∧ frame ts ts' t.
Proof.
  intros Hst Hl Hac Hs Hcl HX Hx Hh Hcpu. unfold _become_inactive. mrun (get_run ts e t x Hx).
  apply (flip_update_run false _ (set_state st) X ts e t x); try done; try apply _.
  - unfold runnable at 1. cbn. rewrite bool_decide_eq_false_2 by done. by destruct (runnable x) eqn:E; unfold runnable in E; rewrite E.
  - intros Hc. split; [exact Hc|by apply Hcpu].
Qed.

Lemma pause_run X ts e t x :
  links_ok ts → acyclic ts → shares_except X ts → clear X ts t → ¬ X t →
  ts !! t = Some x → _helping x = false → (runnable x = true → _cpu x = Some e) →
  ∃ ts', _call_pause_thread t (Kernel ts e) = (Ok tt, Kernel ts' e) ∧
    flagged (alter (set_paused true) t ts) ts' ∧ shares_except X ts' ∧ frame ts ts' t.
Proof.
  intros Hl Hac Hs Hcl HX Hx Hh Hcpu. unfold _call_pause_thread. mrun (get_run ts e t x Hx).
  apply (flip_update_run false _ (set_paused true) X ts e t x); try done; try apply _.
  - unfold runnable at 1. cbn. rewrite andb_false_r. by destruct (runnable x) eqn:E; unfold runnable in E; rewrite E.
  - intros Hc. split; [exact Hc|by apply Hcpu].
Qed.

Lemma resume_run X ts e t x :
  links_ok ts → acyclic ts → shares_except X ts → clear X ts t → ¬ X t →
  ts !! t = Some x → _helping x = false → (_state x = ACTIVE → _cpu x ≠ None) →
  ∃ ts', _call_resume_thread t (Kernel ts e) = (Ok tt, Kernel ts' e) ∧
    flagged (alter (set_paused false) t ts) ts' ∧ shares_except X ts' ∧ frame ts ts' t.
Proof.
  intros Hl Hac Hs Hcl HX Hx Hh Hcpu. unfold _call_resume_thread. mrun (get_run ts e t x Hx).
  apply (flip_update_run true _ (set_paused false) X ts e t x); try done; try apply _;
    unfold runnable; cbn; destruct (_state x), (_paused x); cbn; try done; intros _; by split; [|apply Hcpu].
Qed.

(** The answer, or the failure, of a request reaches its sender [t], whose edge may be out
    of order because it does not help any more. *)
Lemma send_request_done_run arg X ts e t x :
  links_ok ts → acyclic ts → shares_except (λ n, X n ∨ n = t) ts → clear X ts t →
  ts !! t = Some x → _helping x = false → _state x = AWAITS_IPC → _paused x = false → _cpu x ≠ None →
  ∃ ts', ipc_send_request_done arg t (Kernel ts e) = (Ok tt, Kernel ts' e) ∧
    flagged (alter (set_state ACTIVE ∘ set_user_arg_0 arg) t ts) ts' ∧ shares_except X ts' ∧ frame ts ts' t.
Proof.
  intros Hl Hac Hs Hcl Hx Hh Hst Hp Hcpu. unfold ipc_send_request_done. mrun (get_run ts e t x Hx).
  rewrite bool_decide_eq_true_2 by done. mrun (assert_run (Kernel ts e)). mrun (update_run ts e t x (set_user_arg_0 arg) Hx).
  set (ts1 := alter (set_user_arg_0 arg) t ts).
  assert (ts1 !! t = Some (set_user_arg_0 arg x)) as Hx1 by (unfold ts1; by rewrite lookup_alter_eq, Hx).
  mrun (update_run ts1 e t _ (set_state ACTIVE) Hx1). unfold ts1. rewrite alter_alter_eq.
  set (f := set_state ACTIVE ∘ set_user_arg_0 arg). set (ts2 := alter f t ts).
  assert (ts2 !! t = Some (f x)) as Hx2 by (unfold ts2; by rewrite lookup_alter_eq, Hx).
  assert (same_ipc ts ts2) as Hsame by (by apply same_ipc_alter).
  assert (shares_except (λ n, X n ∨ n = t) ts2) as Hs2.
  { apply (shares_weaken (λ n, (X n ∨ n = t) ∨ n = t)); [tauto|]. apply shares_alter; [done|]. by intros y. }
  assert (frame ts ts2 t) as Hfr by apply frame_alter, frame_id.
  destruct (own_share_active x) eqn:Ha; cbn [negb when].
  - exists ts2. split_and!; [done|done| |done]. apply (shares_settle X _ t); [done|].
    intros x' Hx'. assert (x' = f x) as -> by congruence. change (_helping (f x)) with (_helping x). rewrite Hh.
    change (own_share_active (f x)) with (own_share_active x). rewrite Ha. unfold runnable. cbn. by rewrite Hp.
  - assert (clear (λ n, X n ∨ n = t) ts2 t) as Hcl2.
    { intros n Hn Hnt [HX|]; [|done]. apply (Hcl n); [|done|done]. revert Hn. by apply same_ipc_group, same_ipc_sym. }
    destruct (flip_run true (λ n, X n ∨ n = t) ts2 e t (f x)) as (ts' & Hrun & Hfl & Hs' & Ht' & Hfr'); try done.
    { by apply (same_ipc_links ts). } { by apply (same_ipc_acyclic ts). }
    exists ts'. split; [exact Hrun|]. split; [done|]. split.
    + apply (shares_settle X _ t); [apply (shares_weaken (λ n, (X n ∨ n = t) ∨ n = t)); [tauto|done]|].
      intros x' Hx'. assert (x' = set_active true (f x)) as -> by congruence.
      change (_helping (set_active true (f x))) with (_helping x). rewrite Hh. unfold runnable. cbn. by rewrite Hp.
    + intros n Hn. rewrite Hfr'; [by apply Hfr|]. intros Hg. apply Hn. revert Hg. by apply same_ipc_group, same_ipc_sym.
Qed.

(** ** Linking and unlinking messages *)

Lemma helps_alter f t ts n d :
  helps (alter f t ts) n d →
  n ≠ t ∧ helps ts n d ∨ n = t ∧ ∃ x, ts !! t = Some x ∧ _helping (f x) = true ∧ out_node (f x) = Some d.
Proof.
  intros (x' & Hx' & Hh & Hd). destruct (alter_lookup _ _ _ _ _ Hx') as (x & Hx & ->).
  destruct (decide (n = t)) as [->|Hn]; [right; eauto|left]. split; [done|]. by exists x.
Qed.

Lemma acyclic_sub ts ts' : (∀ n d, helps ts' n d → helps ts n d) → acyclic ts → acyclic ts'.
Proof. intros H Hac n Hn. apply (Hac n). revert Hn. apply (tc_congruence (λ x, x)). exact H. Qed.

(** A new edge from [t] to [d] closes no cycle if [t] cannot be reached from [d]. *)
Lemma acyclic_link ts ts' t d :
  acyclic ts → ¬ group ts t d → (∀ n d', helps ts' n d' → helps ts n d' ∨ n = t ∧ d' = d) → acyclic ts'.
Proof.
  intros Hac Hd H.
  assert (∀ a b, tc (helps ts') a b → tc (helps ts) a b ∨ rtc (helps ts) a t ∧ rtc (helps ts) d b) as Htc.
  { intros a b Hab. induction Hab as [a b Hab|a b c Hab Hbc IH]; destruct (H _ _ Hab) as [Hs|[-> ->]].
    - left. by apply tc_once.
    - right. split; apply rtc_refl.
    - destruct IH as [IH|[IH IH']]; [left; by eapply tc_l|right]. split; [by eapply rtc_l|done].
    - right. split; [apply rtc_refl|]. destruct IH as [IH|[_ IH]]; [by apply tc_rtc|done]. }
  intros n Hn. destruct (Htc n n Hn) as [Hc|[Hc Hc']]; [by apply (Hac n)|]. apply Hd. unfold group; by etransitivity.
Qed.

Section Links.
Context (ts ts' : heap) (t d : id) (x x' y y' : thread).
Context (Hok : queues_ok ts) (Htd : t ≠ d) (Hx : ts !! t = Some x) (Hy : ts !! d = Some y)
  (Hx' : ts' !! t = Some x') (Hy' : ts' !! d = Some y')
  (Hqx : in_queue x' = in_queue x) (Hoy : out_node y' = out_node y)
  (Hrest : ∀ n, n ≠ t → n ≠ d → ts' !! n = ts !! n).

(** The message of [t] enters the queue of [d]. *)
Lemma queues_link :
  out_node x = None → out_node x' = Some d → in_queue y' = in_queue y ++ [t] → queues_ok ts'.
Proof.
  intros Ho Ho' Hq. destruct Hok as [H1 H2 H3 H4].
  assert (∀ m z n, ts !! m = Some z → n ∈ in_queue z → n ≠ t) as Hnt.
  { intros m z n Hz Hn ->. destruct (H1 m z t Hz Hn) as (? & ? & ?). congruence. }
  assert (∀ m z' n, ts' !! m = Some z' → n ∈ in_queue z' → (∃ z, ts !! m = Some z ∧ n ∈ in_queue z) ∨ m = d ∧ n = t) as Hin.
  { intros m z' n Hz Hn. destruct (decide (m = d)) as [->|Hmd].
    - assert (z' = y') as -> by congruence. rewrite Hq in Hn. apply elem_of_app in Hn as [Hn|Hn%list_elem_of_singleton]; eauto.
    - left. destruct (decide (m = t)) as [->|Hmt]; [exists x; split; [done|]; congruence|]. rewrite Hrest in Hz by done. eauto. }
  split.
  - intros m z' n Hz Hn. destruct (Hin m z' n Hz Hn) as [(z & Hz0 & Hn0)|[-> ->]]; [|eauto].
    pose proof (Hnt m z n Hz0 Hn0) as Hne. destruct (H1 m z n Hz0 Hn0) as (v & Hv & Hm).
    destruct (decide (n = d)) as [->|]; [exists y'; split; congruence|]. rewrite Hrest by done. eauto.
  - intros n v m Hv Hm. destruct (decide (n = t)) as [->|Hnt'].
    { exists y'. assert (m = d) as -> by congruence. split; [done|]. rewrite Hq. set_solver. }
    assert (∃ v0, ts !! n = Some v0 ∧ out_node v0 = Some m) as (v0 & Hv0 & Hm0).
    { destruct (decide (n = d)) as [->|]; [exists y; split; congruence|]. rewrite Hrest in Hv by done. eauto. }
    destruct (H2 n v0 m Hv0 Hm0) as (z & Hz & Hn). destruct (decide (m = d)) as [->|Hmd].
    { exists y'. split; [done|]. rewrite Hq. replace y with z by congruence. set_solver. }
    destruct (decide (m = t)) as [->|]; [exists x'; split; congruence|]. rewrite Hrest by done. eauto.
  - intros m z' Hz. destruct (decide (m = d)) as [->|Hmd].
    { assert (z' = y') as -> by congruence. rewrite Hq, NoDup_snoc. split; [by apply (H3 d)|]. intros Hin'. by apply (Hnt d y t). }
    destruct (decide (m = t)) as [->|]; [assert (z' = x') as -> by congruence; rewrite Hqx; by apply (H3 t)|].
    rewrite Hrest in Hz by done. by apply (H3 m).
  - intros n v Hv. destruct (decide (n = t)) as [->|]; [congruence|]. destruct (decide (n = d)) as [->|].
    + assert (v = y') as -> by congruence. rewrite Hoy. by apply H4.
    + rewrite Hrest in Hv by done. by apply H4.
Qed.

(** The message of [t] leaves the queue of [d]. *)
Lemma queues_unlink :
  out_node x = Some d → out_node x' = None → in_queue y' = Fifo.Seq.remove t (in_queue y) → queues_ok ts'.
Proof.
  intros Ho Ho' Hq. destruct Hok as [H1 H2 H3 H4].
  assert (∀ n, n ∈ in_queue y' ↔ n ≠ t ∧ n ∈ in_queue y) as Hqn.
  { intros n. rewrite Hq. unfold Fifo.Seq.remove. by rewrite list_elem_of_filter. }
  assert (∀ m z', ts' !! m = Some z' → ∃ z, ts !! m = Some z ∧ ∀ n, n ∈ in_queue z' ↔ n ≠ t ∧ n ∈ in_queue z) as Hin.
  { intros m z' Hz. destruct (decide (m = d)) as [->|Hmd]; [exists y; by replace z' with y' by congruence|].
    assert (∃ z, ts !! m = Some z ∧ in_queue z' = in_queue z) as (z & Hz0 & E).
    { destruct (decide (m = t)) as [->|]; [exists x; split; congruence|]. rewrite Hrest in Hz by done. eauto. }
    exists z. split; [done|]. intros n. rewrite E. split; [|tauto]. intros Hn. split; [|done]. intros ->.
    destruct (H1 m z t Hz0 Hn) as (? & ? & ?). congruence. }
  split.
  - intros m z' n Hz Hn. destruct (Hin m z' Hz) as (z & Hz0 & E). assert (n ≠ t ∧ n ∈ in_queue z) as [Hne Hn0] by (by apply E).
    destruct (H1 m z n Hz0 Hn0) as (v & Hv & Hm).
    destruct (decide (n = d)) as [->|]; [exists y'; split; congruence|]. rewrite Hrest by done. eauto.
  - intros n v m Hv Hm. destruct (decide (n = t)) as [->|Hnt']; [congruence|].
    assert (∃ v0, ts !! n = Some v0 ∧ out_node v0 = Some m) as (v0 & Hv0 & Hm0).
    { destruct (decide (n = d)) as [->|]; [exists y; split; congruence|]. rewrite Hrest in Hv by done. eauto. }
    destruct (H2 n v0 m Hv0 Hm0) as (z & Hz & Hn).
    destruct (decide (m = d)) as [->|Hmd]; [exists y'; split; [done|]; apply Hqn; by replace y with z by congruence|].
    destruct (decide (m = t)) as [->|]; [exists x'; split; congruence|]. rewrite Hrest by done. eauto.
  - intros m z' Hz. destruct (decide (m = d)) as [->|Hmd].
    { assert (z' = y') as -> by congruence. rewrite Hq. by apply NoDup_filter, (H3 d). }
    destruct (decide (m = t)) as [->|]; [assert (z' = x') as -> by congruence; rewrite Hqx; by apply (H3 t)|].
    rewrite Hrest in Hz by done. by apply (H3 m).
  - intros n v Hv. destruct (decide (n = t)) as [->|]; [congruence|]. destruct (decide (n = d)) as [->|].
    + assert (v = y') as -> by congruence. rewrite Hoy. by apply H4.
    + rewrite Hrest in Hv by done. by apply H4.
Qed.

End Links.

(** ** Putting an operation together *)

Definition none (_ : id) : Prop := False.

Lemma clear_none ts t : clear none ts t.
Proof. by intros n _ _ []. Qed.

Lemma clear_self ts t : clear (λ n, none n ∨ n = t) ts t.
Proof. by intros n _ Hn [[]|]. Qed.

#[export] Hint Resolve clear_none clear_self : kernel.

Lemma kernel_ok_flagged P ts :
  flagged P ts → queues_ok P → threads_except none P → acyclic P → shares_except none ts → kernel_ok ts.
Proof.
  intros Hf Hq Ht Ha Hs. rewrite Hf in Hq, Ht, Ha. split; [done| |done|].
  - intros n x Hx. apply (Ht n x); [by intros []|done].
  - intros n. apply Hs. by intros [].
Qed.

Lemma ok_threads_none ts : kernel_ok ts → threads_except none ts.
Proof. intros Hok n x _. apply (ok_threads _ Hok). Qed.

Lemma ok_shares_none ts : kernel_ok ts → shares_except none ts.
Proof. intros Hok n _. apply (ok_shares _ Hok). Qed.

#[export] Hint Resolve ok_queues ok_acyclic ok_threads_none ok_shares_none queues_links : kernel.

Lemma shares_same f X t ts :
  Keeps_edge f → (∀ x, runnable (f x) = runnable x) → shares_except X ts → shares_except X (alter f t ts).
Proof. intros Hk Hr Hs. apply shares_alter_same; [done|exact Hk|]. intros x _ _ _. apply Hr. Qed.

Lemma shares_open f (X Y : id → Prop) t ts :
  (∀ x, own_share_active (f x) = own_share_active x ∧ _cpu (f x) = _cpu x) →
  (∀ n, X n → Y n) → Y t → shares_except X ts → shares_except Y (alter f t ts).
Proof.
  intros Hf HXY Ht Hs. apply (shares_weaken (λ n, X n ∨ n = t)); [|by apply shares_alter].
  intros n [Hn| ->]; [by apply HXY|done].
Qed.

Lemma helps_alter_same f t ts n d : Keeps_edge f → helps (alter f t ts) n d → helps ts n d.
Proof.
  intros Hf [[_ H]|(-> & x & Hx & Hh & Hd)]%helps_alter; [done|]. destruct (Hf x) as (_ & _ & Eh & Eo).
  exists x. split; [done|]. by rewrite <- Eh, <- Eo.
Qed.

Lemma acyclic_alter f t ts : Keeps_edge f → acyclic ts → acyclic (alter f t ts).
Proof. intros Hf. apply acyclic_sub. intros n d. by apply helps_alter_same. Qed.

(** The thread that executes on CPU [e]. *)
Definition running (ts : heap) (e : Z) (t : id) (x : thread) : Prop :=
  ts !! t = Some x ∧ runnable x = true ∧ _cpu x = Some e.

Lemma running_state ts e t x :
  kernel_ok ts → running ts e t x →
  _state x = ACTIVE ∧ _paused x = false ∧ sending x = false ∧ waiting x = false ∧ _helping x = false ∧ out_node x = None ∧
    own_share_active x = true.
Proof.
  intros Hok (Hx & [Hst%bool_decide_eq_true Hp%negb_true_iff]%andb_true_iff & Hcpu).
  destruct (ok_threads _ Hok t x Hx) as [_ [_ Ho] Hb _ _]. pose proof (ok_shares _ Hok t x Hx) as Hs.
  assert (sending x = false) as Hse by (apply not_true_iff_false; intros H; rewrite Hst in Hb; naive_solver).
  assert (waiting x = false) as Hw by (apply not_true_iff_false; intros H; rewrite Hst in Hb; naive_solver).
  assert (_helping x = false) as Hh.
  { unfold _helping. unfold sending in Hse. apply orb_false_iff in Hse as [-> _]. done. }
  rewrite Hh in Hs. split_and!; try done.
  - destruct (out_node x); [|done]. rewrite Hse in Ho. naive_solver.
  - rewrite Hs. unfold runnable. by rewrite Hst, Hp.
Qed.

(** ** [send] *)

Definition enqueued (t : id) (y : thread) : thread := set_in_queue (Fifo.Seq.enqueue t (in_queue y)) y.

Definition received (u : list Z) : thread → thread :=
  set_state ACTIVE ∘ set_user_arg_0 0 ∘ set_in_state REPLY ∘ set_utcb u.

(** What the receiver of a request of [t] with message [u] becomes. *)
Definition delivered (t : id) (u : list Z) (y : thread) : thread :=
  if waiting y then received u (enqueued t y) else enqueued t y.

Definition sent (d : id) (help : bool) : thread → thread :=
  set_out_state (if help then SEND_HELPING else SEND) ∘ set_out_node (Some d).

#[export] Instance delivered_ignores t u : Ignores_share (delivered t u).
Proof. intros b x. unfold delivered. change (waiting (set_active b x)) with (waiting x). by destruct (waiting x). Qed.

Lemma links_enqueue ts t d x :
  queues_ok ts → ts !! t = Some x → out_node x = None → links_ok (alter (enqueued t) d ts).
Proof.
  intros [H1 H2 H3 H4] Hx Ho.
  assert (∀ n v, ts !! n = Some v → ∃ v', alter (enqueued t) d ts !! n = Some v' ∧ out_node v' = out_node v ∧
    in_queue v' = if decide (n = d) then in_queue v ++ [t] else in_queue v) as Hfwd.
  { intros n v Hv. destruct (decide (n = d)) as [->|]; [exists (enqueued t v); by rewrite lookup_alter_eq, Hv|].
    exists v. by rewrite lookup_alter_ne. }
  split.
  - intros m z n Hz Hn. destruct (alter_lookup _ _ _ _ _ Hz) as (z0 & Hz0 & ->).
    assert (n ∈ in_queue z0 ∨ m = d ∧ n = t) as [Hn0|[-> ->]].
    { destruct (decide (m = d)) as [->|]; [|by left]. cbn in Hn. unfold Fifo.Seq.enqueue in Hn. set_solver. }
    + destruct (H1 m z0 n Hz0 Hn0) as (v & Hv & Hm). destruct (Hfwd n v Hv) as (v' & Hv' & E & _). exists v'. split; [done|]. by rewrite E.
    + destruct (Hfwd t x Hx) as (v' & Hv' & E & _). exists v'. split; [done|]. intros Hh. unfold _helping in Hh.
      rewrite E, Ho in Hh. by rewrite andb_false_r in Hh.
  - intros n m (v & Hv & Hh & Hm). destruct (alter_lookup _ _ _ _ _ Hv) as (v0 & Hv0 & ->).
    assert (out_node v0 = Some m) as Hm0 by (by destruct (decide _)). destruct (H2 n v0 m Hv0 Hm0) as (z & Hz & Hn).
    destruct (Hfwd m z Hz) as (z' & Hz' & _ & E). exists z'. split; [done|]. rewrite E. destruct (decide (m = d)); [apply elem_of_app; by left|done].
  - intros m z Hz. destruct (alter_lookup _ _ _ _ _ Hz) as (z0 & Hz0 & ->). pose proof (H3 m z0 Hz0) as Hnd.
    destruct (decide (m = d)) as [->|]; [|done]. cbn. unfold Fifo.Seq.enqueue. rewrite NoDup_snoc. split; [done|].
    intros Hin. destruct (H1 d z0 t Hz0 Hin) as (? & ? & ?). congruence.
Qed.

Lemma receive_run ts e t d x y :
  kernel_ok ts → ts !! t = Some x → out_node x = None → t ≠ d → ts !! d = Some y → waiting y = true →
  ∃ ts', (_ ← Ipc_node._receive_from d t; ipc_await_request_succeeded d) (Kernel (alter (enqueued t) d ts) e) = (Ok tt, Kernel ts' e) ∧
    flagged (alter (received (_utcb x) ∘ enqueued t) d ts) ts' ∧ shares_except none ts' ∧ (_helping x = false → ts' !! t = Some x).
Proof.
  intros Hok Hx Ho Htd Hy Hw. destruct (ok_threads _ Hok d y Hy) as [_ [_ Hon] Hb Hei Hcpu].
  assert (_state y = AWAITS_IPC) as Hst by (apply Hb; by right).
  assert (_helping y = false) as Hh.
  { unfold _helping. apply andb_false_iff. left. apply bool_decide_eq_false. intros Hs.
    destruct Hei as [Hwf _]; [unfold sending; by rewrite Hs|congruence]. }
  set (ts1 := alter (enqueued t) d ts). assert (ts1 !! t = Some x) as Hx1 by (unfold ts1; by rewrite lookup_alter_ne).
  assert (ts1 !! d = Some (enqueued t y)) as Hy1 by (unfold ts1; by rewrite lookup_alter_eq, Hy).
  set (f := set_user_arg_0 0 ∘ set_in_state REPLY ∘ set_utcb (_utcb x)).
  assert ((_ ← Ipc_node._receive_from d t; ipc_await_request_succeeded d) (Kernel ts1 e) = _become_active d (Kernel (alter f d ts1) e)) as ->.
  { unfold f. rewrite <- !alter_alter_eq. set (ts2 := alter (set_utcb (_utcb x)) d ts1). set (ts3 := alter (set_in_state REPLY) d ts2).
    assert (ts2 !! d = Some (set_utcb (_utcb x) (enqueued t y))) as H2 by (unfold ts2; by rewrite lookup_alter_eq, Hy1).
    assert (ts3 !! d = Some (set_in_state REPLY (set_utcb (_utcb x) (enqueued t y)))) as H3 by (unfold ts3; by rewrite lookup_alter_eq, H2).
    assert (Ipc_node._receive_from d t (Kernel ts1 e) = (Ok tt, Kernel ts3 e)) as Hr.
    { assert (ipc_copy_msg d t (Kernel ts1 e) = (Ok tt, Kernel ts2 e)) as Hc.
      { unfold ipc_copy_msg. mrun (get_run ts1 e t x Hx1). by apply update_run with (enqueued t y). }
      unfold Ipc_node._receive_from. mrun Hc. by apply update_run with (set_utcb (_utcb x) (enqueued t y)). }
    mrun Hr. unfold ipc_await_request_succeeded, ipc_await_request_done. mrun (get_run ts3 e d _ H3). cbn [_state set_in_state set_utcb enqueued set_in_queue].
    rewrite Hst. mrun (assert_run (Kernel ts3 e)). by mrun (update_run ts3 e d _ (set_user_arg_0 0) H3). }
  assert (same_ipc ts1 (alter f d ts1)) as Hsame by (by apply same_ipc_alter).
  assert (links_ok ts1) as Hl1 by (apply (links_enqueue ts t d x); auto with kernel).
  assert (acyclic ts1) as Ha1 by (apply acyclic_alter; [apply _|auto with kernel]).
  assert (shares_except none (alter f d ts1)) as Hs1.
  { apply shares_same; [apply _|done|]. apply shares_same; [apply _|done|]. auto with kernel. }
  assert (alter f d ts1 !! t = Some x) as Hx2 by (by rewrite lookup_alter_ne).
  assert (alter f d ts1 !! d = Some (f (enqueued t y))) as Hy2 by (by rewrite lookup_alter_eq, Hy1).
  destruct (become_active_run none (alter f d ts1) e d (f (enqueued t y))) as (ts' & Hrun & Hfl & Hs' & Hfr); try done; auto with kernel.
  { by apply (same_ipc_links ts1). } { by apply (same_ipc_acyclic ts1). } { apply Hcpu. by rewrite Hst. }
  exists ts'. split; [exact Hrun|]. split; [|split; [done|intros Hhx; by apply (frame_idle (alter f d ts1) _ d)]].
  rewrite <- Hfl. unfold f, ts1. by rewrite !alter_alter_eq.
Qed.

(** The heap after a request of [t] with message [u] to [d]. *)
Definition requested (t d : id) (help : bool) (u : list Z) (ts : heap) : heap :=
  alter (set_state AWAITS_IPC ∘ sent d help) t (alter (delivered t u) d ts).

Lemma ipc_send_run ts e t d x y help :
  kernel_ok ts → ts !! t = Some x → out_node x = None → _helping x = false → t ≠ d → ts !! d = Some y →
  ∃ ts', Ipc_node.send t d help (Kernel ts e) = (Ok tt, Kernel (alter (sent d help) t ts') e) ∧
    flagged (alter (delivered t (_utcb x)) d ts) ts' ∧ shares_except none ts' ∧ ts' !! t = Some x.
Proof.
  intros Hok Hx Ho Hh Htd Hy. unfold Ipc_node.send. mrun (update_run ts e d y (enqueued t) Hy).
  set (ts1 := alter (enqueued t) d ts). assert (ts1 !! d = Some (enqueued t y)) as Hy1 by (unfold ts1; by rewrite lookup_alter_eq, Hy).
  mrun (get_run ts1 e d _ Hy1). change (waiting (enqueued t y)) with (waiting y).
  assert (∃ ts', when (waiting y) (_ ← Ipc_node._receive_from d t; ipc_await_request_succeeded d) (Kernel ts1 e) = (Ok tt, Kernel ts' e) ∧
    flagged (alter (delivered t (_utcb x)) d ts) ts' ∧ shares_except none ts' ∧ ts' !! t = Some x) as (ts' & Hrun & Hfl & Hs & Ht).
  { assert (∀ f, (∀ z, z = y → delivered t (_utcb x) z = f z) → alter (delivered t (_utcb x)) d ts = alter f d ts) as Hext.
    { intros f Hf. apply alter_ext. intros z Hz. apply Hf. congruence. }
    destruct (waiting y) eqn:Hw.
    - destruct (receive_run ts e t d x y) as (ts' & ? & ? & ? & ?); [done..|]. exists ts'. split_and!; auto.
      rewrite (Hext (received (_utcb x) ∘ enqueued t)); [done|]. intros z ->. unfold delivered. by rewrite Hw.
    - exists ts1. split; [done|]. split; [rewrite (Hext (enqueued t)); [done|]; intros z ->; unfold delivered; by rewrite Hw|].
      split; [|unfold ts1; by rewrite lookup_alter_ne]. apply shares_same; [apply _|done|auto with kernel]. }
  mrun Hrun. exists ts'. split; [|done]. mrun (update_run ts' e t x (set_out_node (Some d)) Ht).
  erewrite update_run by (by rewrite lookup_alter_eq, Ht). by rewrite alter_alter_eq.
Qed.

Section Send.
Context (ts : heap) (e : Z) (t d : id) (x y : thread).
Context (Hok : kernel_ok ts) (Hrun : running ts e t x) (Hy : ts !! d = Some y).
Let help := bool_decide (_cpu y = _cpu x).
Context (Hcycle : help = true → ¬ group ts t d).

Local Lemma send_other : t ≠ d.
Proof using Hrun Hy Hcycle.
  intros <-. apply Hcycle; [|apply rtc_refl]. apply bool_decide_eq_true. destruct Hrun as (Hx & _). by replace y with x by congruence.
Qed.

Let P := requested t d help (_utcb x) ts.

Local Lemma send_lookup :
  P !! t = Some (set_state AWAITS_IPC (sent d help x)) ∧ P !! d = Some (delivered t (_utcb x) y) ∧
  ∀ n, n ≠ t → n ≠ d → P !! n = ts !! n.
Proof using Hrun Hy Hcycle.
  pose proof send_other. destruct Hrun as (Hx & _). unfold P, requested. split_and!.
  - rewrite lookup_alter_eq, lookup_alter_ne, Hx by done. done.
  - rewrite lookup_alter_ne, lookup_alter_eq, Hy by done. done.
  - intros n Ht Hd. by rewrite !lookup_alter_ne.
Qed.

Local Lemma send_queues : queues_ok P.
Proof using Hok Hrun Hy Hcycle.
  destruct send_lookup as (Ht & Hd & Hn). destruct (running_state ts e t x Hok Hrun) as (_ & _ & _ & _ & _ & Ho & _).
  apply (queues_link ts P t d x (set_state AWAITS_IPC (sent d help x)) y (delivered t (_utcb x) y));
    auto with kernel; try apply send_other; try apply Hrun; unfold delivered; by destruct (waiting y).
Qed.

Local Lemma send_threads : threads_except none P.
Proof using Hok Hrun Hy Hcycle.
  destruct (running_state ts e t x Hok Hrun) as (Hst & Hp & Hse & Hw & _ & Ho & _). unfold P, requested.
  apply threads_alter; [apply threads_alter; [auto with kernel|]|].
  - intros z _ Hz [H1 H2 H3 H4 H5]. unfold delivered. destruct (waiting z) eqn:Hwz.
    + assert (sending z = false) as Hsz by (apply not_true_iff_false; intros Hsz; destruct (H4 Hsz); congruence).
      unfold waiting, sending in *. apply bool_decide_eq_true in Hwz. split; cbn.
      * unfold Fifo.Seq.enqueue. by destruct (in_queue z).
      * done.
      * unfold sending, waiting. cbn. rewrite Hsz. naive_solver.
      * unfold sending. cbn. rewrite Hsz. done.
      * apply (still_started _ _ _ _ H5); [|done]. intros Hz'. destruct H3 as [_ H3]. rewrite H3 in Hz'; [done|]. by right.
    + split; change (waiting (enqueued t z)) with (waiting z); rewrite ?Hwz; [|exact H2|exact H3|exact H4|exact H5]. cbn. unfold Fifo.Seq.enqueue. destruct (in_state z) eqn:Hi; try done; [|by destruct (in_queue z)].
      unfold waiting in Hwz. rewrite Hi in Hwz. done.
  - intros z _ Hz [H1 H2 H3 H4 H5]. rewrite lookup_alter_ne in Hz by (by apply not_eq_sym, send_other).
    assert (z = x) as -> by (destruct Hrun; congruence). split; cbn; try done.
    + split; [by destruct help|]. split; [|done]. intros _. unfold sending. cbn. by destruct help.
    + split; [|done]. intros _. left. unfold sending. cbn. by destruct help.
    + apply (still_started _ _ _ _ H5); [by rewrite Hst|done].
Qed.

Local Lemma send_acyclic : acyclic P.
Proof using Hok Hrun Hy Hcycle.
  assert (∀ n d', helps P n d' → helps ts n d' ∨ help = true ∧ n = t ∧ d' = d) as H.
  { intros n d' [[Hn Hh]|(-> & z & Hz & Hh & Hd)]%helps_alter.
    - left. destruct Hh as (z & Hz & Hh & Hd). destruct (alter_lookup _ _ _ _ _ Hz) as (z0 & Hz0 & ->). exists z0.
      split; [done|]. destruct (decide (n = d)); [|done]. unfold delivered in *. by destruct (waiting z0).
    - right. cbn in Hd. injection Hd as <-. split_and!; try done. unfold _helping in Hh. cbn in Hh. by destruct help. }
  destruct help eqn:Hhelp.
  - apply (acyclic_link ts _ t d); [auto with kernel|by apply Hcycle|]. intros n d' Hn. destruct (H n d' Hn) as [|[_ ?]]; tauto.
  - apply (acyclic_sub ts); [|auto with kernel]. intros n d' Hn. by destruct (H n d' Hn) as [|[? _]].
Qed.

Context (Hyst : _state y ≠ AWAITS_START).

Lemma send_request_run :
  ∃ ts', _call_send_request_msg t (Some d) (Kernel ts e) = (Ok tt, Kernel ts' e) ∧ flagged P ts' ∧ kernel_ok ts'.
Proof using Hok Hrun Hy Hcycle Hyst.
  destruct (running_state ts e t x Hok Hrun) as (Hst & Hp & Hse & Hw & Hh & Ho & Ha). pose proof send_other as Htd.
  destruct Hrun as (Hx & _ & Hcpu). destruct (ipc_send_run ts e t d x y help) as (ts1 & Hr1 & Hf1 & Hs1 & Hx1); [done..|].
  assert (ready_to_send x = true) as Hready.
  { unfold ready_to_send. rewrite Hw. destruct (ok_threads _ Hok t x Hx) as [_ [Hod _] _ _ _].
    unfold sending in Hse. apply orb_false_iff in Hse as [H1%bool_decide_eq_false H2%bool_decide_eq_false]. by destruct (out_state x). }
  set (ts2 := alter (set_state AWAITS_IPC ∘ sent d help) t ts1).
  assert (flagged P ts2) as Hf2 by (unfold P, requested, ts2; by rewrite Hf1).
  assert (∃ y2, ts2 !! d = Some y2 ∧ _cpu y2 = _cpu y) as (y2 & Hy2 & Hcy).
  { destruct (flagged_some P ts2 d (delivered t (_utcb x) y) Hf2) as [b Hb]; [apply send_lookup|]. eexists. split; [exact Hb|].
    unfold delivered. by destruct (waiting y). }
  set (x2 := set_state AWAITS_IPC (sent d help x)). assert (ts2 !! t = Some x2) as Hx2 by (unfold ts2; by rewrite lookup_alter_eq, Hx1).
  assert (shares_except (λ n, none n ∨ n = t) ts2) as Hs2.
  { apply (shares_open _ none); [by intros z|tauto|tauto|done]. }
  assert (_call_send_request_msg t (Some d) (Kernel ts e) =
    when (negb help || negb (own_share_active y2)) (_deactivate_used_shares t) (Kernel ts2 e)) as ->.
  { destruct (pd_run ts e t x) as [p1 Hp1]; [by apply (ok_threads _ Hok t)|done|rewrite Hst; done|].
    destruct (pd_run ts e d y) as [p2 Hp2]; [by apply (ok_threads _ Hok d)|done..|].
    unfold _call_send_request_msg. mrun Hp1. mrun (get_run ts e t x Hx). mrun (get_run ts e d y Hy). mrun Hp2. rewrite Hready. cbn [when]. fold help. mrun Hr1.
    erewrite (bind_ok (update t (set_state AWAITS_IPC))) by (apply update_run with (sent d help x); by rewrite lookup_alter_eq, Hx1).
    rewrite alter_alter_eq. by mrun (get_run ts2 e d y2 Hy2). }
  assert (_helping x2 = help) as Hhx2 by (unfold _helping; cbn; by destruct help).
  assert (∀ ts', flagged P ts' → shares_except (λ n, none n ∨ n = t) ts' → share_ok ts' t → kernel_ok ts') as Hclose.
  { intros ts' Hf' Hs' Ht'. apply (kernel_ok_flagged P); [done|apply send_queues|apply send_threads|apply send_acyclic|].
    by apply (shares_settle none ts' t). }
  destruct (negb help || negb (own_share_active y2)) eqn:Hc; cbn [when].
  - assert (queues_ok ts2 ∧ acyclic ts2) as [Hq2 Hac2] by (split; [rewrite <- Hf2; apply send_queues|rewrite <- Hf2; apply send_acyclic]).
    destruct (flip_run false (λ n, none n ∨ n = t) ts2 e t x2) as (ts3 & Hr3 & Hf3 & Hs3 & Hx3 & Hfr); auto with kernel.
    exists ts3. split; [exact Hr3|]. split; [by rewrite Hf2|]. apply Hclose; [by rewrite Hf2|apply (shares_weaken _ _ _) with (2 := Hs3); tauto|].
    intros z Hz. assert (z = set_active false x2) as -> by congruence. change (_helping (set_active false x2)) with (_helping x2).
    rewrite Hhx2. destruct help eqn:Hhelp; [|done]. exists d, y2. cbn in Hc. apply negb_true_iff in Hc. split_and!; [done| |by rewrite Hc|].
    + rewrite Hfr; [done|]. intros Hg. apply (Hac2 t). apply (tc_rtc_r _ d); [|exact Hg]. apply tc_once. by exists x2.
    + rewrite Hcy. symmetry. exact (proj1 (bool_decide_eq_true _) Hhelp).
  - exists ts2. split; [done|]. split; [done|]. apply Hclose; [done..|]. apply orb_false_iff in Hc as [Hhelp%negb_false_iff Hay%negb_false_iff].
    intros z Hz. assert (z = x2) as -> by congruence. rewrite Hhx2, Hhelp. exists d, y2. split_and!; [done|done|by rewrite Hay|].
    rewrite Hcy. symmetry. exact (proj1 (bool_decide_eq_true _) Hhelp).
Qed.

End Send.

(** ** [reply] *)

(** The sender leaves the conversation. *)
Definition unlinked : thread → thread := set_out_state OUT_READY ∘ set_out_node None.

Definition answered (u : list Z) : thread → thread :=
  set_state ACTIVE ∘ set_user_arg_0 0 ∘ unlinked ∘ set_utcb u.

(** The heap after the answer of [t], with message [u], to the first client [n]. *)
Definition replied (t n : id) (q : list id) (u : list Z) (ts : heap) : heap :=
  alter (set_in_state IN_READY) t (alter (answered u) n (alter (set_in_queue q) t ts)).

Lemma node_ok_in_ready x : waiting x = false → node_ok x → node_ok (set_in_state IN_READY x).
Proof. intros Hw [H1 H2 H3 H4 H5]. split; cbn; [done|exact H2| |intros Hs; by destruct (H4 Hs)|exact H5]. by rewrite Hw in H3. Qed.

Section Reply.
Context (ts : heap) (e : Z) (t n : id) (q : list id) (x y : thread).
Context (Hok : kernel_ok ts) (Hx : ts !! t = Some x) (Hw : waiting x = false) (Hq : in_queue x = n :: q)
  (Hy : ts !! n = Some y).
Let P := replied t n q (_utcb x) ts.

Local Lemma reply_client : out_node y = Some t ∧ t ≠ n ∧ sending y = true ∧ n ∉ q ∧ Fifo.Seq.remove n (n :: q) = q.
Proof using Hok Hx Hw Hq Hy.
  destruct (ok_queues _ Hok) as [H1 H2 H3 H4].
  destruct (H1 t x n Hx) as (y' & Hy' & Ho); [rewrite Hq; constructor|]. assert (y' = y) as -> by congruence.
  pose proof (H3 t x Hx) as Hnd. rewrite Hq in Hnd. apply NoDup_cons in Hnd as [Hn _]. split_and!; [done| | |done|by apply Fifo.remove_cons].
  - intros <-. by apply (H4 t y).
  - apply (node_out y (ok_threads _ Hok n y Hy)). by rewrite Ho.
Qed.

Local Lemma reply_queues : queues_ok P.
Proof using Hok Hx Hw Hq Hy.
  destruct reply_client as (Ho & Htn & _ & _ & Er). unfold P, replied.
  apply (queues_unlink ts _ n t y (answered (_utcb x) y) x (set_in_state IN_READY (set_in_queue q x))); auto with kernel.
  - by rewrite lookup_alter_ne, lookup_alter_eq, lookup_alter_ne, Hy by done.
  - by rewrite lookup_alter_eq, lookup_alter_ne, lookup_alter_eq, Hx by done.
  - intros m Hn Ht. by rewrite !lookup_alter_ne.
  - by rewrite Hq, Er.
Qed.

Local Lemma reply_threads : threads_except none P.
Proof using Hok Hx Hw Hq Hy.
  destruct reply_client as (Ho & Htn & Hsy & _). unfold P, replied.
  assert (∀ z, alter (answered (_utcb x)) n (alter (set_in_queue q) t ts) !! t = Some z → z = set_in_queue q x) as Hz.
  { intros z. rewrite lookup_alter_ne, lookup_alter_eq, Hx by done. by intros [= <-]. }
  assert (threads_except (λ m, m = t) (alter (answered (_utcb x)) n (alter (set_in_queue q) t ts))) as H.
  { apply threads_alter.
    - intros m z Hm Hz'. rewrite lookup_alter_ne in Hz' by congruence. by apply (ok_threads _ Hok m).
    - intros z _ Hz'. rewrite lookup_alter_ne in Hz' by done. assert (z = y) as -> by congruence. intros [H1 H2 H3 H4 H5].
      destruct (H4 Hsy) as [Hwy Hp]. split; cbn; try done.
      + unfold waiting in *. cbn. rewrite Hwy. unfold sending. cbn. naive_solver.
      + apply (still_started _ _ _ _ H5); [|done]. intros E. destruct H3 as [_ H3]. rewrite H3 in E; [done|by left]. }
  intros m z Hm Hz'. destruct (alter_lookup _ _ _ _ _ Hz') as (z0 & Hz0 & ->). destruct (decide (m = t)) as [->|Hmt]; [|by apply (H m)].
  rewrite (Hz z0 Hz0). destruct (ok_threads _ Hok t x Hx) as [H1 H2 H3 H4 H5].
  split; cbn; [done|exact H2|by rewrite Hw in H3|intros Hs; by destruct (H4 Hs)|exact H5].
Qed.

Local Lemma reply_acyclic : acyclic P.
Proof using Hok.
  apply (acyclic_sub ts); [|auto with kernel]. intros m d Hm. unfold P, replied in Hm.
  apply helps_alter_same in Hm; [|apply _]. apply helps_alter in Hm as [[_ Hm]|(-> & z & _ & _ & Hd)]; [|done].
  by apply helps_alter_same in Hm; [|apply _].
Qed.

Lemma reply_run :
  in_state x = REPLY →
  ∃ ts', Ipc_node.reply t (Kernel ts e) = (Ok tt, Kernel ts' e) ∧ flagged P ts' ∧ kernel_ok ts'.
Proof using Hok Hx Hw Hq Hy.
  intros Hr. destruct reply_client as (Ho & Htn & Hsy & Hnq & _).
  destruct (ok_threads _ Hok n y Hy) as [_ _ Hb Hei Hcpu]. destruct (Hei Hsy) as [Hwy Hp].
  assert (_state y = AWAITS_IPC) as Hst by (apply Hb; by left).
  set (ts1 := alter (set_in_queue q) t ts). set (f := unlinked ∘ set_utcb (_utcb x)). set (ts2 := alter f n ts1).
  assert (ts1 !! t = Some (set_in_queue q x)) as Hx1 by (unfold ts1; by rewrite lookup_alter_eq, Hx).
  assert (ts1 !! n = Some y) as Hy1 by (unfold ts1; by rewrite lookup_alter_ne).
  assert (ts2 !! n = Some (f y)) as Hy2 by (unfold ts2; by rewrite lookup_alter_eq, Hy1).
  assert (ts2 !! t = Some (set_in_queue q x)) as Hx2 by (unfold ts2; by rewrite lookup_alter_ne).
  assert (same_ipc P ts2) as Hsame.
  { intros m. unfold P, replied. destruct (decide (m = t)) as [->|Hmt].
    - by rewrite Hx2, lookup_alter_eq, lookup_alter_ne, lookup_alter_eq, Hx by done.
    - rewrite lookup_alter_ne by done. destruct (decide (m = n)) as [->|Hmn].
      + by rewrite Hy2, lookup_alter_eq, lookup_alter_ne, Hy by done.
      + unfold ts2, ts1. by rewrite !lookup_alter_ne. }
  assert (shares_except (λ m, none m ∨ m = n) ts2) as Hs2.
  { apply (shares_open _ none); [by intros z|tauto|tauto|]. apply shares_same; [apply _|done|auto with kernel]. }
  destruct (send_request_done_run 0 none ts2 e n (f y)) as (ts3 & Hr3 & Hf3 & Hs3 & Hfr3); auto with kernel.
  { apply (same_ipc_links P); [done|]. apply queues_links, reply_queues. } { apply (same_ipc_acyclic P); [done|apply reply_acyclic]. }
  { apply Hcpu. by rewrite Hst. }
  assert (∃ b, ts3 !! t = Some (set_active b (set_in_queue q x))) as [b Hx3].
  { apply (flagged_some _ _ t) with (1 := Hf3). by rewrite lookup_alter_ne. }
  exists (alter (set_in_state IN_READY) t ts3). assert (flagged P (alter (set_in_state IN_READY) t ts3)) as HfP.
  { unfold P, replied, answered. rewrite <- Hf3. unfold ts2, f, ts1. by rewrite alter_alter_eq. }
  split_and!; [|done|].
  - unfold Ipc_node.reply. mrun (get_run ts e t x Hx). rewrite Hr, Hq, bool_decide_eq_true_2 by done. cbn [when].
    erewrite bind_ok; [exact (update_run ts3 e t _ _ Hx3)|].
    mrun (update_run ts e t x (set_in_queue q) Hx).
    assert (ipc_copy_msg n t (Kernel ts1 e) = (Ok tt, Kernel (alter (set_utcb (_utcb x)) n ts1) e)) as Hc.
    { unfold ipc_copy_msg. mrun (get_run ts1 e t _ Hx1). by apply update_run with y. }
    fold ts1. mrun Hc. erewrite (bind_ok (update n (set_out_node None))) by (apply update_run with (set_utcb (_utcb x) y); by rewrite lookup_alter_eq, Hy1).
    rewrite alter_alter_eq. erewrite (bind_ok (update n (set_out_state OUT_READY)))
      by (eapply update_run; rewrite lookup_alter_eq, Hy1; done).
    rewrite alter_alter_eq. exact Hr3.
  - apply (kernel_ok_flagged P); [done|apply reply_queues|apply reply_threads|apply reply_acyclic|].
    apply shares_same; [apply _|done|done].
Qed.

End Reply.

(** A thread that has nobody to answer. *)
Lemma reply_none_run ts e t x :
  kernel_ok ts → ts !! t = Some x → waiting x = false → in_state x ≠ REPLY →
  Ipc_node.reply t (Kernel ts e) = (Ok tt, Kernel (alter (set_in_state IN_READY) t ts) e) ∧
  kernel_ok (alter (set_in_state IN_READY) t ts).
Proof.
  intros Hok Hx Hw Hr. split.
  - unfold Ipc_node.reply. mrun (get_run ts e t x Hx). rewrite bool_decide_eq_false_2 by done.
    erewrite bind_ok by apply when_false. by apply update_run with x.
  - assert (same_ipc ts (alter (set_in_state IN_READY) t ts)) as Hs by (by apply same_ipc_alter).
    apply (kernel_ok_flagged (alter (set_in_state IN_READY) t ts)); [done| | | |].
    + apply (same_ipc_queues ts); auto with kernel.
    + apply threads_alter; [auto with kernel|]. intros z _ Hz Hnz. apply node_ok_in_ready; [congruence|done].
    + apply (same_ipc_acyclic ts); auto with kernel.
    + apply shares_same; [apply _|done|auto with kernel].
Qed.

(** ** The other operations *)

(** All of a thread but the message buffer and the return value. *)
Definition control (x : thread) :=
  (in_state x, in_queue x, out_state x, out_node x, _state x, _paused x, own_share_active x, _cpu x, _pd x).

Class Data_only (f : thread → thread) := data_only x : control (f x) = control x.

#[export] Hint Extern 0 (Data_only _) => (intros ?; reflexivity) : typeclass_instances.

Lemma node_ok_control x x' : control x' = control x → node_ok x → node_ok x'.
Proof.
  intros [= E1 E2 E3 E4 E5 E6 E7 E8 E9] [H1 H2 H3 H4 H5]. unfold sending, waiting in *.
  split; unfold sending, waiting; by rewrite ?E1, ?E2, ?E3, ?E4, ?E5, ?E6, ?E7, ?E8, ?E9.
Qed.

#[export] Instance data_only_edge f : Data_only f → Keeps_edge f.
Proof. intros Hf x. pose proof (Hf x) as [= E1 E2 E3 E4 E5 E6 E7 E8 E9]. unfold _helping. by rewrite E3, E4, E7, E8. Qed.

Lemma data_only_ok f t ts : Data_only f → kernel_ok ts → kernel_ok (alter f t ts).
Proof.
  intros Hf Hok. assert (same_ipc ts (alter f t ts)) as Hs.
  { apply same_ipc_alter. intros x. pose proof (Hf x) as [= E1 E2 E3 E4 E5 E6 E7 E8 E9]. unfold ipc_part. by rewrite E2, E3, E4. }
  apply (kernel_ok_flagged (alter f t ts)); [done| | | |].
  - apply (same_ipc_queues ts); auto with kernel.
  - apply threads_alter; [auto with kernel|]. intros x _ _. apply node_ok_control, Hf.
  - apply (same_ipc_acyclic ts); auto with kernel.
  - apply shares_same; [apply _| |auto with kernel]. intros x. pose proof (Hf x) as [= E1 E2 E3 E4 E5 E6 E7 E8 E9]. unfold runnable. by rewrite E5, E6.
Qed.

(** A change that keeps the IPC node. *)
Lemma kernel_ok_same_ipc f t ts ts' :
  (∀ x, ipc_part (f x) = ipc_part x) → kernel_ok ts → (∀ x, ts !! t = Some x → node_ok x → node_ok (f x)) →
  flagged (alter f t ts) ts' → shares_except none ts' → kernel_ok ts'.
Proof.
  intros Hf Hok Hn Hfl Hs. assert (same_ipc ts (alter f t ts)) as Hsame by (by apply same_ipc_alter).
  apply (kernel_ok_flagged (alter f t ts)); [done| | |  |done].
  - apply (same_ipc_queues ts); auto with kernel.
  - apply threads_alter; [auto with kernel|]. intros x _ Hx. by apply Hn.
  - apply (same_ipc_acyclic ts); auto with kernel.
Qed.

Lemma node_idle x : node_ok x → _state x ≠ AWAITS_IPC → sending x = false ∧ waiting x = false ∧ _helping x = false.
Proof.
  intros [_ _ H3 _ _] Hst. assert (sending x = false) as Hs by (apply not_true_iff_false; intros E; rewrite E in H3; naive_solver).
  assert (waiting x = false) as -> by (apply not_true_iff_false; intros E; rewrite E in H3; naive_solver).
  split_and!; [done..|]. unfold _helping. unfold sending in Hs. by apply orb_false_iff in Hs as [-> _].
Qed.

(** The states a thread enters and leaves outside of IPC. *)
Definition plain (st : State) : Prop := st ≠ AWAITS_IPC ∧ st ≠ AWAITS_START.

Lemma node_ok_plain st x : plain st → plain (_state x) → node_ok x → node_ok (set_state st x).
Proof.
  intros [Hst Hst'] [Hx Hx'] Hn. destruct (node_idle x Hn Hx) as (Hs & Hw & _). destruct Hn as [H1 H2 H3 H4 H5].
  split; cbn; [done|exact H2| |exact H4|].
  - unfold sending, waiting in *. cbn. rewrite Hs, Hw. naive_solver.
  - by apply (still_started _ _ _ _ H5).
Qed.

Lemma become_inactive_ok st ts e t x :
  st ≠ ACTIVE → plain st → kernel_ok ts → running ts e t x →
  ∃ ts', _become_inactive t st (Kernel ts e) = (Ok tt, Kernel ts' e) ∧ flagged (alter (set_state st) t ts) ts' ∧ kernel_ok ts'.
Proof.
  intros Hact Hst Hok Hrun. destruct (running_state ts e t x Hok Hrun) as (Hx & _ & _ & _ & Hh & _ & _). destruct Hrun as (Ht & _ & Hcpu).
  destruct (become_inactive_run st none ts e t x) as (ts' & Hr & Hf & Hs & _); auto with kernel. exists ts'. split_and!; [done..|].
  apply (kernel_ok_same_ipc (set_state st) t ts); [done|done| |done|done]. intros z Hz. apply node_ok_plain; [done|].
  assert (z = x) as -> by congruence. by rewrite Hx.
Qed.

Lemma become_active_ok ts e t x :
  kernel_ok ts → ts !! t = Some x → plain (_state x) →
  ∃ ts', _become_active t (Kernel ts e) = (Ok tt, Kernel ts' e) ∧ flagged (alter (set_state ACTIVE) t ts) ts' ∧ kernel_ok ts'.
Proof.
  intros Hok Hx Hst. pose proof (ok_threads _ Hok t x Hx) as Hn. destruct (node_idle x Hn (proj1 Hst)) as (_ & _ & Hh).
  destruct (become_active_run none ts e t x) as (ts' & Hr & Hf & Hs & _); auto with kernel; [apply Hn, Hst|].
  exists ts'. split_and!; [done..|]. apply (kernel_ok_same_ipc (set_state ACTIVE) t ts); [done|done| |done|done].
  intros z Hz. assert (z = x) as -> by congruence. by apply node_ok_plain.
Qed.

Lemma pause_ok ts e t x :
  kernel_ok ts → ts !! t = Some x → sending x = false → (runnable x = true → _cpu x = Some e) →
  ∃ ts', _call_pause_thread t (Kernel ts e) = (Ok tt, Kernel ts' e) ∧ flagged (alter (set_paused true) t ts) ts' ∧ kernel_ok ts'.
Proof.
  intros Hok Hx Hse Hcpu. assert (_helping x = false) as Hh.
  { unfold _helping. unfold sending in Hse. by apply orb_false_iff in Hse as [-> _]. }
  destruct (pause_run none ts e t x) as (ts' & Hr & Hf & Hs & _); auto with kernel. exists ts'. split_and!; [done..|].
  apply (kernel_ok_same_ipc (set_paused true) t ts); [done|done| |done|done].
  intros z Hz [H1 H2 H3 H4 H5]. assert (z = x) as -> by congruence. split; cbn; [done|exact H2|exact H3| |exact H5].
  change (sending (set_paused true x)) with (sending x). by rewrite Hse.
Qed.

Lemma resume_ok ts e t x :
  kernel_ok ts → ts !! t = Some x →
  ∃ ts', _call_resume_thread t (Kernel ts e) = (Ok tt, Kernel ts' e) ∧ flagged (alter (set_paused false) t ts) ts' ∧ kernel_ok ts'.
Proof.
  intros Hok Hx. pose proof (ok_threads _ Hok t x Hx) as Hn.
  assert (node_ok (set_paused false x)) as Hn'.
  { destruct Hn as [H1 H2 H3 H4 H5]. split; cbn; [done|exact H2|exact H3| |exact H5]. intros Hs. by destruct (H4 Hs). }
  destruct (_helping x) eqn:Hh.
  - assert (_state x ≠ ACTIVE ∧ _paused x = false) as [Hst Hp].
    { assert (sending x = true) as Hs by (unfold _helping in Hh; apply andb_true_iff in Hh as [Hh _]; unfold sending; by rewrite Hh).
      destruct Hn as [_ _ H3 H4 _]. destruct (H4 Hs). split; [|done]. intros E. rewrite E, Hs in H3. naive_solver. }
    exists (alter (set_paused false) t ts). split; [|split; [done|]].
    + unfold _call_resume_thread. mrun (get_run ts e t x Hx). rewrite Hp, andb_false_r. erewrite bind_ok by apply when_false.
      by apply update_run with x.
    + replace (alter (set_paused false) t ts) with ts; [done|]. apply map_eq. intros n. rewrite lookup_alter. case_decide; [|done].
      subst. rewrite Hx. simpl. f_equal. destruct x. simpl in *. by subst.
  - destruct (resume_run none ts e t x) as (ts' & Hr & Hf & Hs & _); auto with kernel.
    { intros Hst. apply Hn. by rewrite Hst. }
    exists ts'. split_and!; [done..|]. apply (kernel_ok_same_ipc (set_paused false) t ts); [done|done| |done|done].
    intros z Hz _. by assert (z = x) as -> by congruence.
Qed.

(** ** [wait] *)

(** The heap after the running thread [t] asked for a request. *)
Definition awaited (t : id) (x : thread) (ts : heap) : heap :=
  if ready_to_wait x then
    match in_queue x with
    | [] => alter (set_state AWAITS_IPC ∘ set_in_state WAIT) t ts
    | n :: _ =>
        match ts !! n with
        | Some y => alter (set_user_arg_0 0 ∘ set_in_state REPLY ∘ set_utcb (_utcb y)) t ts
        | None => ts
        end
    end
  else alter (set_state DEAD) t ts.

Section Await.
Context (ts : heap) (e : Z) (t : id) (x : thread).
Context (Hok : kernel_ok ts) (Hrun : running ts e t x).

Lemma await_block_run :
  in_state x = IN_READY → in_queue x = [] →
  ∃ ts', _call_await_request_msg t (Kernel ts e) = (Ok tt, Kernel ts' e) ∧
    flagged (alter (set_state AWAITS_IPC ∘ set_in_state WAIT) t ts) ts' ∧ kernel_ok ts'.
Proof using Hok Hrun.
  intros Hi Hq. destruct (running_state ts e t x Hok Hrun) as (Hst & Hp & Hse & Hw & Hh & Ho & Ha). destruct Hrun as (Hx & Hr & Hcpu).
  set (ts1 := alter (set_in_state WAIT) t ts).
  assert (ts1 !! t = Some (set_in_state WAIT x)) as Hx1 by (unfold ts1; by rewrite lookup_alter_eq, Hx).
  assert (same_ipc ts ts1) as Hs1 by (by apply same_ipc_alter).
  destruct (become_inactive_run AWAITS_IPC none ts1 e t (set_in_state WAIT x)) as (ts' & Hr' & Hf & Hs & _); auto with kernel.
  { apply (same_ipc_links ts); auto with kernel. } { apply (same_ipc_acyclic ts); auto with kernel. }
  { apply shares_same; [apply _|done|auto with kernel]. }
  exists ts'. split; [|split; [by rewrite <- Hf; unfold ts1; rewrite alter_alter_eq|]].
  - unfold _call_await_request_msg. mrun (get_run ts e t x Hx). unfold ready_to_wait. rewrite Hi, bool_decide_eq_true_2 by done.
    assert (Ipc_node.wait t (Kernel ts e) = (Ok tt, Kernel ts1 e)) as Hwait.
    { unfold Ipc_node.wait. mrun (update_run ts e t x (set_in_state WAIT) Hx). mrun (get_run ts1 e t _ Hx1). cbn [in_queue set_in_state]. by rewrite Hq. }
    mrun Hwait. mrun (get_run ts1 e t _ Hx1). exact Hr'.
  - apply (kernel_ok_same_ipc (set_state AWAITS_IPC ∘ set_in_state WAIT) t ts); [done|done| |by rewrite <- Hf; unfold ts1; rewrite alter_alter_eq|done].
    intros z Hz [H1 H2 H3 H4 H5]. assert (z = x) as -> by congruence. split; cbn; [done|exact H2| | |].
    + split; [|done]. intros _. by right.
    + change (sending (set_state AWAITS_IPC (set_in_state WAIT x))) with (sending x). by rewrite Hse.
    + destruct Hrun as (_ & Hra & _). unfold runnable in Hra. apply andb_true_iff in Hra as [Hra%bool_decide_eq_true _].
      apply (still_started _ _ _ _ H5); [by rewrite Hra|done].
Qed.

Lemma await_take_run n q y :
  in_state x = IN_READY → in_queue x = n :: q → ts !! n = Some y →
  let ts' := alter (set_user_arg_0 0 ∘ set_in_state REPLY ∘ set_utcb (_utcb y)) t ts in
  _call_await_request_msg t (Kernel ts e) = (Ok tt, Kernel ts' e) ∧ kernel_ok ts'.
Proof using Hok Hrun.
  intros Hi Hq Hy ts'. destruct (running_state ts e t x Hok Hrun) as (Hst & Hp & Hse & Hw & Hh & Ho & Ha). destruct Hrun as (Hx & Hr & Hcpu).
  assert (n ≠ t) as Hnt.
  { intros ->. destruct (queue_item _ (ok_queues _ Hok) t x t Hx) as (z & Hz & Hoz); [rewrite Hq; constructor|]. by apply (queue_self _ (ok_queues _ Hok) t z). }
  split.
  - unfold _call_await_request_msg. mrun (get_run ts e t x Hx). unfold ready_to_wait. rewrite Hi, bool_decide_eq_true_2 by done.
    set (ts1 := alter (set_in_state WAIT) t ts). set (ts2 := alter (set_in_state REPLY ∘ set_utcb (_utcb y) ∘ set_in_state WAIT) t ts).
    assert (ts1 !! t = Some (set_in_state WAIT x)) as Hx1 by (unfold ts1; by rewrite lookup_alter_eq, Hx).
    assert (ts1 !! n = Some y) as Hy1 by (unfold ts1; by rewrite lookup_alter_ne).
    assert (Ipc_node.wait t (Kernel ts e) = (Ok tt, Kernel ts2 e)) as Hwait.
    { unfold Ipc_node.wait. mrun (update_run ts e t x (set_in_state WAIT) Hx). mrun (get_run ts1 e t _ Hx1). cbn [in_queue set_in_state]. rewrite Hq.
      cbn [list.head]. unfold Ipc_node._receive_from.
      assert (ipc_copy_msg t n (Kernel ts1 e) = (Ok tt, Kernel (alter (set_utcb (_utcb y)) t ts1) e)) as Hc.
      { unfold ipc_copy_msg. mrun (get_run ts1 e n y Hy1). by apply update_run with (set_in_state WAIT x). }
      mrun Hc. erewrite update_run by (by rewrite lookup_alter_eq, Hx1). unfold ts2, ts1. by rewrite !alter_alter_eq. }
    assert (ts2 !! t = Some (set_in_state REPLY (set_utcb (_utcb y) x))) as Hx2 by (unfold ts2; by rewrite lookup_alter_eq, Hx).
    mrun Hwait. mrun (get_run ts2 e t _ Hx2). change (waiting _) with false. cbv iota. rewrite (update_run ts2 e t _ _ Hx2).
    unfold ts2, ts'. by rewrite alter_alter_eq.
  - apply (kernel_ok_same_ipc (set_user_arg_0 0 ∘ set_in_state REPLY ∘ set_utcb (_utcb y)) t ts); [done|done| |done|].
    + intros z Hz [H1 H2 H3 H4 H5]. assert (z = x) as -> by congruence. split; cbn; [by rewrite Hq|exact H2| | |exact H5].
      * by rewrite Hw in H3.
      * intros Hs. by destruct (H4 Hs).
    + apply shares_same; [apply _|done|auto with kernel].
Qed.

Lemma await_ok :
  ∃ ts', _call_await_request_msg t (Kernel ts e) = (Ok tt, Kernel ts' e) ∧ flagged (awaited t x ts) ts' ∧ kernel_ok ts'.
Proof using Hok Hrun.
  unfold awaited. destruct (ready_to_wait x) eqn:Hi.
  - pose proof Hi as Hi'%bool_decide_eq_true. destruct (in_queue x) as [|n q] eqn:Hq; [by apply await_block_run|].
    destruct (queue_item _ (ok_queues _ Hok) t x n) as (y & Hy & _); [apply Hrun|rewrite Hq; constructor|].
    rewrite Hy. eexists. destruct (await_take_run n q y) as [H1 H2]; [done..|]. split; [exact H1|]. split; [done|exact H2].
  - destruct (become_inactive_ok DEAD ts e t x) as (ts' & Hr & Hf & Hok'); [done|done|done|done|]. exists ts'. split; [|done].
    unfold _call_await_request_msg. destruct Hrun as (Hx & _). mrun (get_run ts e t x Hx). by rewrite Hi.
Qed.

End Await.

(** ** The life of a thread *)

Lemma new_thread_ok ts e t :
  kernel_ok ts → ts !! t = None →
  let ts' := <[t := Thread IN_READY [] OUT_READY None AWAITS_START false false None None [] 0]> ts in
  new_thread t (Kernel ts e) = (Ok tt, Kernel ts' e) ∧ kernel_ok ts'.
Proof.
  intros Hok Ht ts'. split; [done|]. set (x0 := Thread IN_READY [] OUT_READY None AWAITS_START false false None None [] 0) in *.
  assert (∀ n x, ts !! n = Some x → ts' !! n = Some x) as Hfwd by (intros n x Hx; unfold ts'; rewrite lookup_insert_ne by congruence; done).
  assert (∀ n x, ts' !! n = Some x → n = t ∧ x = x0 ∨ ts !! n = Some x) as Hback.
  { intros n x. unfold ts'. destruct (decide (n = t)) as [->|]; [rewrite lookup_insert_eq; intros [= <-]; auto|]. rewrite lookup_insert_ne by done. auto. }
  destruct (ok_queues _ Hok) as [H1 H2 H3 H4]. split.
  - split.
    + intros d y n Hy Hn. destruct (Hback d y Hy) as [[_ ->]|Hy0]; [by apply elem_of_nil in Hn|]. destruct (H1 d y n Hy0 Hn) as (x & Hx & ?). eauto.
    + intros n x d Hx Hd. destruct (Hback n x Hx) as [[_ ->]|Hx0]; [done|]. destruct (H2 n x d Hx0 Hd) as (y & Hy & ?). eauto.
    + intros d y Hy. destruct (Hback d y Hy) as [[_ ->]|Hy0]; [apply NoDup_nil_2|by apply (H3 d)].
    + intros n x Hx. destruct (Hback n x Hx) as [[_ ->]|Hx0]; [done|by apply H4].
  - intros n x Hx. destruct (Hback n x Hx) as [[_ ->]|Hx0]; [|by apply (ok_threads _ Hok n)].
    split; try done; unfold sending, waiting; cbn; naive_solver.
  - apply (acyclic_sub ts); [|auto with kernel]. intros n d (x & Hx & Hh & Hd). destruct (Hback n x Hx) as [[_ ->]|Hx0]; [done|by exists x].
  - intros n x Hx. destruct (Hback n x Hx) as [[_ ->]|Hx0]; [done|]. pose proof (ok_shares _ Hok n x Hx0) as Hs.
    destruct (_helping x); [|done]. destruct Hs as (d & y & ? & Hy & ?). exists d, y. auto.
Qed.

(** What the start makes of a thread. *)
Definition started (cpu : Z) (new_pd : option Z) (u : list Z) : thread → thread :=
  set_state ACTIVE ∘ set_utcb u ∘ set_pd new_pd ∘ set_cpu (Some cpu).

Section Start.
Context (ts : heap) (e : Z) (starter t : id) (z x : thread) (cpu p : Z).
Context (Hok : kernel_ok ts) (Hz : ts !! starter = Some z) (Hx : ts !! t = Some x) (Hst : _state x = AWAITS_START).

Let placed := set_utcb (_utcb z) ∘ set_pd (Some p) ∘ set_cpu (Some cpu).

(** Nobody helps a thread that has not been started. *)
Local Lemma start_shares : shares_except none (alter placed t ts).
Proof using Hok Hx Hst.
  pose proof (ok_threads _ Hok t x Hx) as Hn. destruct (node_idle x Hn) as (Hse & Hw & Hh); [by rewrite Hst|].
  intros n _ y Hy. destruct (alter_lookup _ _ _ _ _ Hy) as (y0 & Hy0 & ->). pose proof (ok_shares _ Hok n y0 Hy0) as Hs.
  assert (_helping (if decide (n = t) then placed y0 else y0) = _helping y0) as -> by (by destruct (decide _)).
  destruct (_helping y0) eqn:Hhy; [|by destruct (decide _)]. destruct Hs as (d & v & Hd & Hv & Ha & Hc).
  assert (d ≠ t) as Hdt.
  { intros ->. assert (v = x) as -> by congruence. assert (sending y0 = true) as Hsy.
    { unfold _helping in Hhy. apply andb_true_iff in Hhy as [Hhy _]. unfold sending. by rewrite Hhy. }
    destruct Hn as [_ _ _ _ [[_ H5] _]]. destruct (ok_threads _ Hok n y0 Hy0) as [_ _ [_ H3] _ [[H5' _] _]].
    apply H5; [|done]. rewrite <- Hc. apply H5'. rewrite H3; [done|by left]. }
  assert (n ≠ t) as Hnt by (intros ->; congruence). rewrite decide_False by done.
  exists d, v. by rewrite lookup_alter_ne.
Qed.

Lemma start_placed :
  ∃ ts', (_ ← update t (set_cpu (Some cpu)); _ ← update t (set_pd (Some p)); _ ← ipc_copy_msg t starter; _become_active t)
      (Kernel ts e) = (Ok tt, Kernel ts' e) ∧
    flagged (alter (started cpu (Some p) (_utcb z)) t ts) ts' ∧ kernel_ok ts'.
Proof using Hok Hz Hx Hst.
  destruct (node_idle x (ok_threads _ Hok t x Hx)) as (Hse & Hw & Hh); [by rewrite Hst|].
  assert (same_ipc ts (alter placed t ts)) as Hs2 by by apply same_ipc_alter.
  assert (alter placed t ts !! t = Some (placed x)) as Hx2 by by rewrite lookup_alter_eq, Hx.
  destruct (become_active_run none (alter placed t ts) e t (placed x)) as (ts' & Hr & Hf & Hs & _); auto with kernel.
  { apply (same_ipc_links ts); auto with kernel. } { apply (same_ipc_acyclic ts); auto with kernel. } { exact start_shares. }
  assert (flagged (alter (started cpu (Some p) (_utcb z)) t ts) ts') as Hf'.
  { rewrite <- Hf. unfold placed, started. by rewrite !alter_alter_eq. }
  exists ts'. split; [|split; [done|]].
  - mrun (update_run ts e t x (set_cpu (Some cpu)) Hx). set (ts1 := alter (set_cpu (Some cpu)) t ts).
    assert (ts1 !! t = Some (set_cpu (Some cpu) x)) as Hx1 by (unfold ts1; by rewrite lookup_alter_eq, Hx).
    mrun (update_run ts1 e t _ (set_pd (Some p)) Hx1). unfold ts1. rewrite alter_alter_eq.
    set (ts2 := alter (set_pd (Some p) ∘ set_cpu (Some cpu)) t ts).
    assert (ts2 !! t = Some (set_pd (Some p) (set_cpu (Some cpu) x))) as Hxp by (unfold ts2; by rewrite lookup_alter_eq, Hx).
    assert (∃ z2, ts2 !! starter = Some z2 ∧ _utcb z2 = _utcb z) as (z2 & Hz2 & Ez).
    { unfold ts2. rewrite lookup_alter. case_decide as E; [|by exists z]. subst starter. rewrite Hx. simpl. eexists; split; [done|].
      by assert (z = x) as -> by congruence. }
    assert (ipc_copy_msg t starter (Kernel ts2 e) = (Ok tt, Kernel (alter placed t ts) e)) as Hc; [|by mrun Hc].
    unfold ipc_copy_msg. mrun (get_run ts2 e starter z2 Hz2). rewrite Ez, (update_run ts2 e t _ _ Hxp).
    unfold ts2. by rewrite alter_alter_eq.
  - apply (kernel_ok_same_ipc _ t ts) with (4 := Hf'); [done|done| |done]. intros v Hv [H1 H2 H3 H4 H5].
    assert (v = x) as -> by congruence. split; cbn; [done|exact H2| |exact H4|done]. unfold sending, waiting in *. cbn. rewrite Hse, Hw. naive_solver.
Qed.

End Start.

(** The start returns 0 to the starter. *)
Lemma start_ok ts e starter t z x cpu p :
  kernel_ok ts → ts !! starter = Some z → ts !! t = Some x → starter ≠ t → _state x = AWAITS_START →
  ∃ ts', _call_start_thread starter t (Some cpu) (Some p) (Kernel ts e) = (Ok tt, Kernel ts' e) ∧
    flagged (alter (started cpu (Some p) (_utcb z)) t (alter (set_user_arg_0 0) starter ts)) ts' ∧ kernel_ok ts'.
Proof.
  intros Hok Hz Hx Hne Hst. set (ts0 := alter (set_user_arg_0 0) starter ts).
  assert (ts0 !! t = Some x) as Hx0 by (unfold ts0; by rewrite lookup_alter_ne).
  assert (ts0 !! starter = Some (set_user_arg_0 0 z)) as Hz0 by (unfold ts0; by rewrite lookup_alter_eq, Hz).
  destruct (start_placed ts0 e starter t (set_user_arg_0 0 z) x cpu p) as (ts' & Hr & Hf & Hok'); [by apply data_only_ok; [apply _|]|done..|].
  exists ts'. split; [|done]. unfold _call_start_thread. mrun (update_run ts e starter z (set_user_arg_0 0) Hz). fold ts0.
  mrun (get_run ts0 e t x Hx0). rewrite Hst, bool_decide_eq_true_2 by done. by mrun (assert_run (Kernel ts0 e)).
Qed.

(** ** [_cancel_send] *)

(** The receiver when the message of [t] is withdrawn. *)
Definition withdrawn (t : id) (y : thread) : thread :=
  set_in_queue (Fifo.Seq.remove t (in_queue y))
    (if bool_decide (in_state y = REPLY) && bool_decide (list.head (in_queue y) = Some t) then set_in_state REPLY_NO_SENDER y else y).

#[export] Instance withdrawn_ignores t : Ignores_share (withdrawn t).
Proof. intros b x. unfold withdrawn. cbn. by destruct (_ && _). Qed.

#[export] Instance withdrawn_keeps t : Keeps_edge (withdrawn t).
Proof. intros x. unfold withdrawn, _helping. cbn. by destruct (_ && _). Qed.

Lemma withdrawn_runnable t x : runnable (withdrawn t x) = runnable x.
Proof. unfold withdrawn. by destruct (_ && _). Qed.

Lemma withdrawn_node_ok t x : node_ok x → node_ok (withdrawn t x).
Proof.
  intros [H1 H2 H3 H4 H5]. unfold withdrawn. destruct (_ && _) eqn:E.
  - apply andb_true_iff in E as [E%bool_decide_eq_true _].
    assert (waiting x = false) as Hw by (unfold waiting; by rewrite E). rewrite Hw in H3.
    split; cbn; [done|exact H2|exact H3|intros Hs; by destruct (H4 Hs)|exact H5].
  - split; cbn; [|exact H2|exact H3|exact H4|exact H5]. destruct (in_state x) eqn:Hi; try done; [by rewrite H1|].
    rewrite bool_decide_eq_true_2 in E by done. apply bool_decide_eq_false in E. destruct (in_queue x) as [|n q]; [done|].
    cbn in E. change (Fifo.Seq.remove t (n :: q) ≠ []). unfold Fifo.Seq.remove. rewrite filter_cons_True; [done|]. congruence.
Qed.

(** The message of [t] to [d] is withdrawn, and the state of [t] changes by [f]. *)
Definition unlink_from (f : thread → thread) (t d : id) (ts : heap) : heap :=
  alter (f ∘ set_out_node None) t (alter (withdrawn t) d ts).

Lemma unlink_queues f t d ts x :
  (∀ z, in_queue (f z) = in_queue z ∧ out_node (f z) = out_node z) →
  queues_ok ts → ts !! t = Some x → out_node x = Some d → queues_ok (unlink_from f t d ts).
Proof.
  intros Hf Hq Hx Ho. assert (t ≠ d) as Htd by (intros ->; by apply (queue_self _ Hq d x)).
  destruct (queue_node _ Hq t x d Hx Ho) as (y & Hy & _).
  apply (queues_unlink ts _ t d x (f (set_out_node None x)) y (withdrawn t y)); try done.
  - unfold unlink_from. by rewrite lookup_alter_eq, lookup_alter_ne, Hx by done.
  - unfold unlink_from. by rewrite lookup_alter_ne, lookup_alter_eq, Hy by done.
  - by rewrite (proj1 (Hf _)).
  - unfold withdrawn. by destruct (_ && _).
  - intros n Ht Hd. unfold unlink_from. by rewrite !lookup_alter_ne.
  - by rewrite (proj2 (Hf _)).
Qed.

Lemma unlink_acyclic f t d ts : (∀ z, out_node (f z) = out_node z) → acyclic ts → acyclic (unlink_from f t d ts).
Proof.
  intros Hf. apply acyclic_sub. intros n m [[_ H]|(_ & z & _ & _ & Ho)]%helps_alter; [by apply helps_alter_same in H; [|apply _]|].
  cbn in Ho. by rewrite Hf in Ho.
Qed.

Lemma unlink_run ts e t d x y :
  ts !! t = Some x → out_node x = Some d → t ≠ d → ts !! d = Some y →
  Ipc_node._cancel_send t (Kernel ts e) =
  when (sending x) (_ ← ipc_send_request_failed t; update t (set_out_state OUT_READY)) (Kernel (unlink_from (λ z, z) t d ts) e).
Proof.
  intros Hx Ho Htd Hy. unfold Ipc_node._cancel_send. mrun (get_run ts e t x Hx). rewrite Ho. f_equal.
  set (c := bool_decide (in_state y = REPLY) && bool_decide (list.head (in_queue y) = Some t)).
  set (ts1 := alter (λ z, if c then set_in_state REPLY_NO_SENDER z else z) d ts).
  assert (when c (update d (set_in_state REPLY_NO_SENDER)) (Kernel ts e) = (Ok tt, Kernel ts1 e)) as Hc.
  { unfold ts1. destruct c; [by apply update_run with y|]. by rewrite alter_id. }
  assert (ts1 !! d = Some (if c then set_in_state REPLY_NO_SENDER y else y)) as Hy1 by (unfold ts1; by rewrite lookup_alter_eq, Hy).
  assert (ts1 !! t = Some x) as Hx1 by (unfold ts1; by rewrite lookup_alter_ne).
  erewrite bind_ok; [done|]. mrun (get_run ts e d y Hy). fold c. mrun Hc. mrun (update_run ts1 e d _ (λ z, set_in_queue (Fifo.Seq.remove t (in_queue z)) z) Hy1).
  erewrite update_run by (by rewrite lookup_alter_ne). unfold unlink_from, ts1. f_equal. f_equal. rewrite alter_alter_eq. f_equal.
  apply alter_ext. intros z Hz. assert (z = y) as -> by congruence. unfold withdrawn. cbn. fold c. by destruct c.
Qed.

Section Cancel.
Context (X : id → Prop) (ts : heap) (e : Z) (t d : id) (x : thread).
Context (Hq : queues_ok ts) (Hac : acyclic ts) (Hth : threads_except X ts) (Hsh : shares_except X ts)
  (HX : ∀ n z, X n → ts !! n = Some z → _helping z = false)
  (HXt : ¬ X t) (Hx : ts !! t = Some x) (Ho : out_node x = Some d).

Definition cancelled : thread → thread := set_out_state OUT_READY ∘ set_state ACTIVE ∘ set_user_arg_0 (-1).
Let P := unlink_from cancelled t d ts.

Local Lemma cancel_threads : threads_except X P.
Proof using Hq Hth HXt Hx Ho.
  unfold P, unlink_from. apply threads_alter; [apply threads_alter; [done|]|].
  - intros z _ _. apply withdrawn_node_ok.
  - intros z _ Hz [H1 H2 H3 H4 H5]. rewrite lookup_alter_ne in Hz by (intros ->; by apply (queue_self _ Hq t x)).
    assert (z = x) as -> by congruence. assert (sending x = true) as Hs by (apply H2; by rewrite Ho). destruct (H4 Hs) as [Hw Hp].
    split; cbn; [done| | | |].
    + split; [done|]. unfold sending. cbn. naive_solver.
    + unfold sending, waiting in *. cbn. rewrite Hw. naive_solver.
    + unfold sending. cbn. done.
    + apply (still_started _ _ _ _ H5); [|done]. destruct H3 as [_ H3]. rewrite H3; [done|by left].
Qed.

Lemma cancel_send_run :
  ∃ ts', Ipc_node._cancel_send t (Kernel ts e) = (Ok tt, Kernel ts' e) ∧ flagged P ts' ∧ shares_except X ts' ∧
    queues_ok P ∧ acyclic P ∧ threads_except X P.
Proof using All.
  assert (t ≠ d) as Htd by (intros ->; by apply (queue_self _ Hq d x)). destruct (queue_node _ Hq t x d Hx Ho) as (y & Hy & _).
  destruct (Hth t x HXt Hx) as [_ H2 H3 H4 H5]. assert (sending x = true) as Hs by (apply H2; by rewrite Ho).
  destruct (H4 Hs) as [Hw Hp]. assert (_state x = AWAITS_IPC) as Hst by (apply H3; by left).
  set (ts1 := unlink_from (λ z, z) t d ts). set (x1 := set_out_node None x).
  assert (ts1 !! t = Some x1) as Hx1 by (unfold ts1, unlink_from; by rewrite lookup_alter_eq, lookup_alter_ne, Hx by done).
  assert (_helping x1 = false) as Hh1 by (unfold _helping; cbn; by rewrite andb_false_r).
  assert (acyclic ts1) as Hac1 by (by apply unlink_acyclic).
  assert (shares_except (λ n, X n ∨ n = t) ts1) as Hs1.
  { apply (shares_open _ X); [by intros z|tauto|tauto|]. apply shares_same; [apply _|apply withdrawn_runnable|done]. }
  assert (clear X ts1 t) as Hcl.
  { intros n Hn Hnt Hxn. inversion Hn as [|? k ? Hnk _]; subst; [done|]. apply helps_alter in Hnk as [[_ Hnk]|(-> & _)]; [|done].
    apply helps_alter_same in Hnk as (z & Hz & Hh & _); [|apply _]. by rewrite (HX n z) in Hh. }
  destruct (send_request_done_run (-1) X ts1 e t x1) as (ts2 & Hr2 & Hf2 & Hs2 & _); auto.
  { by apply queues_links, (unlink_queues (λ z, z) t d ts x). }
  { destruct H5 as [H5 _]. apply H5. by rewrite Hst. }
  destruct (flagged_some _ ts2 t (set_state ACTIVE (set_user_arg_0 (-1) x1)) Hf2) as [b Hx2]; [by rewrite lookup_alter_eq, Hx1|].
  exists (alter (set_out_state OUT_READY) t ts2). split_and!.
  - rewrite (unlink_run ts e t d x y) by done. rewrite Hs. cbn [when]. fold ts1.
    change (ipc_send_request_failed t) with (ipc_send_request_done (-1) t). mrun Hr2. exact (update_run ts2 e t _ _ Hx2).
  - rewrite <- Hf2. unfold P, ts1, unlink_from, cancelled. by rewrite !alter_alter_eq.
  - apply (shares_settle X _ t); [apply (shares_open _ X); [by intros z|tauto|tauto|done]|].
    intros z Hz. rewrite lookup_alter_eq, Hx2 in Hz. injection Hz as <-. pose proof (Hs2 t HXt _ Hx2) as Ht.
    replace (_helping _) with false in Ht by (unfold _helping; cbn; by rewrite andb_false_r). exact Ht.
  - by apply (unlink_queues _ t d ts x).
  - by apply unlink_acyclic.
  - apply cancel_threads.
Qed.

End Cancel.

(** ** The place of a client in the queue of its server *)

(** At most [k] answers of the server come before [n] is next in line and being served. *)
Definition ahead (k : nat) (n : id) (x : thread) : Prop :=
  ∃ j, in_queue x !! j = Some n ∧ (j + (if decide (in_state x = REPLY) then 0 else 1) ≤ k)%nat.

(** The client [n] of [t] does not fall behind. *)
Definition quiet (t n : id) (ts ts' : heap) : Prop :=
  ∀ k x, ts !! t = Some x → ahead k n x → ∃ x', ts' !! t = Some x' ∧ ahead k n x'.

#[export] Instance quiet_preorder t n : PreOrder (quiet t n).
Proof.
  split; [by intros ts k x; exists x|]. intros ts ts1 ts2 H1 H2 k x Hx Ha.
  destruct (H1 k x Hx Ha) as (x1 & Hx1 & Ha1). by apply (H2 k x1).
Qed.

Lemma ahead_same k n x x' : in_queue x' = in_queue x → in_state x' = in_state x → ahead k n x → ahead k n x'.
Proof. intros Eq Es (j & Hj & Hk). exists j. by rewrite Eq, Es. Qed.

Lemma quiet_flagged t n ts ts' : flagged ts ts' → quiet t n ts ts'.
Proof.
  intros Hf k x Hx Ha. destruct (flagged_some _ _ t x Hf Hx) as [b Hb]. exists (set_active b x). split; [done|].
  by apply (ahead_same _ _ x).
Qed.

Lemma quiet_alter f d t n ts :
  (∀ k x, d = t → ts !! d = Some x → ahead k n x → ahead k n (f x)) → quiet t n ts (alter f d ts).
Proof.
  intros Hf k x Hx Ha. destruct (decide (d = t)) as [->|Hd].
  - exists (f x). rewrite lookup_alter_eq, Hx. split; [done|]. by apply Hf.
  - exists x. by rewrite lookup_alter_ne.
Qed.

(** A change that keeps the receiving side of the IPC node. *)
Lemma quiet_alter_same f d t n ts :
  (∀ x, in_queue (f x) = in_queue x ∧ in_state (f x) = in_state x) → quiet t n ts (alter f d ts).
Proof. intros Hf. apply quiet_alter. intros k x _ _. apply ahead_same; apply Hf. Qed.

Lemma quiet_trans_flagged t n ts P ts' : quiet t n ts P → flagged P ts' → quiet t n ts ts'.
Proof. intros HP Hf. transitivity P; [done|by apply quiet_flagged]. Qed.

Lemma remove_lookup m n (q : list id) j : n ≠ m → q !! j = Some n → ∃ j', (j' ≤ j)%nat ∧ Fifo.Seq.remove m q !! j' = Some n.
Proof.
  intros Hnm. revert j. induction q as [|i q IH]; intros j Hj; [done|]. unfold Fifo.Seq.remove. destruct j as [|j].
  - injection Hj as ->. exists 0%nat. by rewrite filter_cons_True.
  - destruct (IH j Hj) as (j' & Hle & Hj'). destruct (decide (i = m)) as [->|Hi].
    + exists j'. rewrite filter_cons_False by (intros H; by apply H). split; [lia|done].
    + exists (S j'). rewrite filter_cons_True by done. split; [lia|done].
Qed.

Lemma withdrawn_ahead m k n x : n ≠ m → ahead k n x → ahead k n (withdrawn m x).
Proof.
  intros Hnm (j & Hj & Hk). unfold withdrawn, ahead. cbn [in_queue set_in_queue in_state].
  destruct (bool_decide (in_state x = REPLY)) eqn:Er, (bool_decide (list.head (in_queue x) = Some m)) eqn:Eh;
    try (destruct (remove_lookup m n (in_queue x) j Hnm Hj) as (j' & Hle & Hj'); exists j'; cbn; split; [done|lia]).
  cbn. apply bool_decide_eq_true in Er, Eh. rewrite decide_True in Hk by done.
  destruct (in_queue x) as [|i q]; [done|]. injection Eh as ->. destruct j as [|j]; [simpl in Hj; congruence|].
  destruct (remove_lookup m n q j Hnm Hj) as (j' & Hle & Hj'). exists j'.
  unfold Fifo.Seq.remove in *. rewrite filter_cons_False by (intros H; by apply H). split; [done|]. destruct (decide _); [done|lia].
Qed.

Lemma unlink_quiet f m d t n ts :
  (∀ z, in_queue (f z) = in_queue z ∧ in_state (f z) = in_state z) → n ≠ m ∨ t ≠ d → quiet t n ts (unlink_from f m d ts).
Proof.
  intros Hf Hn. unfold unlink_from. transitivity (alter (withdrawn m) d ts).
  - apply quiet_alter. intros k x -> _. destruct Hn as [Hn|]; [by apply withdrawn_ahead|done].
  - apply quiet_alter_same. intros z. destruct (Hf (set_out_node None z)) as [E1 E2]. cbn. by rewrite E1, E2.
Qed.

Lemma cancel_waiting_ok ts e t x :
  kernel_ok ts → ts !! t = Some x → _state x = AWAITS_IPC →
  ∃ ts' x', Ipc_node.cancel_waiting t (Kernel ts e) = (Ok tt, Kernel ts' e) ∧ kernel_ok ts' ∧
    ts' !! t = Some x' ∧ _state x' = ACTIVE ∧ user_arg_0 x' = -1 ∧ ∀ u n, n ≠ t → quiet u n ts ts'.
Proof.
  intros Hok Hx Hst. destruct (ok_threads _ Hok t x Hx) as [H1 H2 H3 H4 H5].
  unfold Ipc_node.cancel_waiting. mrun (get_run ts e t x Hx). destruct (sending x) eqn:Hs; cbn [when].
  - destruct (out_node x) as [d|] eqn:Ho; [|by destruct H2 as [_ [_ H2]]; destruct (H2 eq_refl)].
    destruct (cancel_send_run none ts e t d x) as (ts' & Hr & Hf & Hsh & Hq & Ha & Ht); auto with kernel; [by intros ? ? []|].
    destruct (flagged_some _ ts' t (cancelled (set_out_node None x)) Hf) as [b Hx'].
    { unfold unlink_from. rewrite lookup_alter_eq, lookup_alter_ne, Hx; [done|]. intros ->. by apply (queue_self _ (ok_queues _ Hok) t x). }
    exists ts'. eexists. split_and!; [|by eapply kernel_ok_flagged|exact Hx'|done|done|].
    2:{ intros u n Hn. refine (quiet_trans_flagged _ _ _ _ _ _ Hf). apply unlink_quiet; [done|by left]. }
    mrun Hr. mrun (get_run ts' e t _ Hx'). assert (waiting x = false) as Hw by (by destruct (H4 eq_refl)).
    change (waiting _) with (waiting x). by rewrite Hw.
  - assert (waiting x = true) as Hw by (apply H3 in Hst as [|]; done). erewrite bind_ok by done. mrun (get_run ts e t x Hx). rewrite Hw. cbn [when].
    assert (_helping x = false) as Hh by (unfold _helping; unfold sending in Hs; by apply orb_false_iff in Hs as [-> _]).
    set (f := set_user_arg_0 (-1) ∘ set_in_state IN_READY). set (ts2 := alter f t ts).
    assert (ts2 !! t = Some (f x)) as Hx2 by (unfold ts2; by rewrite lookup_alter_eq, Hx).
    assert (same_ipc ts ts2) as Hsame by (by apply same_ipc_alter).
    destruct (become_active_run none ts2 e t (f x)) as (ts' & Hr & Hf & Hsh & _); auto with kernel.
    { apply (same_ipc_links ts); auto with kernel. } { apply (same_ipc_acyclic ts); auto with kernel. }
    { apply shares_same; [apply _|done|auto with kernel]. } { destruct H5 as [H5 _]. apply H5. by rewrite Hst. }
    destruct (flagged_some _ ts' t (set_state ACTIVE (f x)) Hf) as [b Hx']; [by rewrite lookup_alter_eq, Hx2|].
    assert (flagged (alter (set_state ACTIVE ∘ f) t ts) ts') as Hf' by (rewrite <- Hf; unfold ts2; by rewrite alter_alter_eq).
    exists ts'. eexists. split_and!; [| |exact Hx'|done|done|].
    3:{ intros u n Hn. refine (quiet_trans_flagged _ _ _ _ _ _ Hf'). apply quiet_alter. intros k z _ Hz (j & Hj & _).
        assert (z = x) as -> by congruence. unfold waiting in Hw. apply bool_decide_eq_true in Hw. by rewrite Hw in H1; rewrite H1 in Hj. }
    + set (ts1 := alter (set_in_state IN_READY) t ts).
      assert (ts1 !! t = Some (set_in_state IN_READY x)) as Hx1 by (unfold ts1; by rewrite lookup_alter_eq, Hx).
      mrun (update_run ts e t x (set_in_state IN_READY) Hx). unfold ipc_await_request_failed, ipc_await_request_done.
      mrun (get_run ts1 e t _ Hx1). cbn [_state set_in_state]. rewrite Hst. mrun (assert_run (Kernel ts1 e)).
      mrun (update_run ts1 e t _ (set_user_arg_0 (-1)) Hx1). unfold ts1. rewrite alter_alter_eq. exact Hr.
    + apply (kernel_ok_same_ipc (set_state ACTIVE ∘ f) t ts); [done|done| |done|done].
      intros z Hz _. assert (z = x) as -> by congruence.
      split; change (sending ((set_state ACTIVE ∘ f) x)) with (sending x); cbn; rewrite ?Hs; [done|exact H2| |done|].
      * unfold waiting. cbn. naive_solver.
      * apply (still_started _ _ _ _ H5); [by rewrite Hst|done].
Qed.

Lemma cancel_blocking_ok ts e t x :
  kernel_ok ts → ts !! t = Some x →
  ∃ ts', _cancel_blocking t (Kernel ts e) = (Ok tt, Kernel ts' e) ∧ kernel_ok ts' ∧ ∀ u n, n ≠ t → quiet u n ts ts'.
Proof.
  intros Hok Hx. unfold _cancel_blocking. mrun (get_run ts e t x Hx).
  destruct (_state x) eqn:Hst; try (exists ts; split_and!; [done..|by intros; reflexivity]).
  - destruct (cancel_waiting_ok ts e t x) as (ts' & _ & Hr & Hok' & _ & _ & _ & Hqt); [done..|]. by exists ts'.
  - destruct (become_active_ok ts e t x) as (ts' & Hr & Hf & Hok'); [done|done|by rewrite Hst|]. exists ts'. split_and!; [done..|].
    intros u n _. refine (quiet_trans_flagged _ _ _ _ _ _ Hf). by apply quiet_alter_same.
  - mrun (update_run ts e t x (set_user_arg_0 (-1)) Hx).
    destruct (become_active_ok (alter (set_user_arg_0 (-1)) t ts) e t (set_user_arg_0 (-1) x)) as (ts' & Hr & Hf & Hok');
      [by apply data_only_ok; [apply _|]|by rewrite lookup_alter_eq, Hx|cbn; by rewrite Hst|]. exists ts'. split_and!; [done..|].
    intros u n _. refine (quiet_trans_flagged _ _ _ _ _ _ Hf). rewrite alter_alter_eq. by apply quiet_alter_same.
Qed.

(** ** The destruction of a thread *)

(** The thread [t] with its IPC node in destruction and [q] left in its queue. *)
Record dying (t : id) (q : list id) (ts : heap) : Prop := {
  dying_queues : queues_ok ts;
  dying_acyclic : acyclic ts;
  dying_threads : threads_except (λ n, n = t) ts;
  dying_shares : shares_except (λ n, n = t) ts;
  dying_node : ∃ x, ts !! t = Some x ∧ in_state x = IN_DESTRUCT ∧ out_state x = OUT_DESTRUCT ∧ out_node x = None ∧ in_queue x = q }.

Lemma dying_step t n q ts e :
  dying t (n :: q) ts →
  ∃ ts', Ipc_node._cancel_send n (Kernel ts e) = (Ok tt, Kernel ts' e) ∧ dying t q ts' ∧ flagged (unlink_from cancelled n t ts) ts'.
Proof.
  intros [Hq Hac Hth Hsh (x & Hx & Hi & Ho & Hn & Eq)].
  destruct (queue_item _ Hq t x n Hx) as (y & Hy & Hoy); [rewrite Eq; constructor|].
  assert (n ≠ t) as Hnt by (intros ->; by apply (queue_self _ Hq t y)).
  destruct (cancel_send_run (λ m, m = t) ts e n t y) as (ts' & Hr & Hf & Hs' & Hq' & Ha' & Ht'); try done.
  { intros m z -> Hz. replace z with x by congruence. unfold _helping. by rewrite Ho. }
  exists ts'. split; [done|]. split; [|exact Hf].
  pose proof (queue_nodup _ Hq t x Hx) as Hnd. rewrite Eq in Hnd. apply NoDup_cons in Hnd as [Hnq _].
  destruct (flagged_some _ ts' t (withdrawn n x) Hf) as [b Hx'].
  { unfold unlink_from. by rewrite lookup_alter_ne, lookup_alter_eq, Hx. }
  split; [by rewrite <- Hf|by rewrite <- Hf|by rewrite <- Hf|done|]. eexists. split; [exact Hx'|].
  unfold withdrawn. rewrite Hi, bool_decide_eq_false_2 by done. by rewrite Eq, Fifo.remove_cons.
Qed.

Lemma dying_all t q ts e :
  dying t q ts →
  ∃ ts', for_all Ipc_node._cancel_send q (Kernel ts e) = (Ok tt, Kernel ts' e) ∧ dying t [] ts' ∧
    (∀ u v, u ≠ t → quiet u v ts ts') ∧
    ∀ v z, v ≠ t → ts !! v = Some z →
      ∃ b, ts' !! v = Some (set_active b (if decide (v ∈ q) then cancelled (set_out_node None z) else z)).
Proof.
  revert ts. induction q as [|n q IH]; intros ts Hd.
  { exists ts. split_and!; [done..|by intros; reflexivity|]. intros v z Hv Hz. exists (own_share_active z).
    rewrite decide_False by apply not_elem_of_nil. by destruct z. }
  destruct (dying_step t n q ts e Hd) as (ts1 & Hr & Hd1 & Hf1). destruct (IH ts1 Hd1) as (ts2 & Hr2 & Hd2 & Hq2 & Hv2). exists ts2.
  split; [cbn [for_all]; by mrun Hr|]. split; [done|]. split.
  - intros u v Hu. transitivity ts1; [|by auto]. refine (quiet_trans_flagged _ _ _ _ _ _ Hf1). apply unlink_quiet; [done|by right].
  - intros v z Hv Hz. destruct (dying_node _ _ _ Hd) as (x & Hx & _ & _ & _ & Eq).
    pose proof (queue_nodup _ (dying_queues _ _ _ Hd) t x Hx) as Hnd. rewrite Eq in Hnd. apply NoDup_cons in Hnd as [Hnq _].
    destruct (decide (v = n)) as [->|Hvn].
    + destruct (flagged_some _ ts1 n (cancelled (set_out_node None z)) Hf1) as [b Hb].
      { unfold unlink_from. by rewrite lookup_alter_eq, lookup_alter_ne, Hz by done. }
      destruct (Hv2 n _ Hv Hb) as [b' Hb']. exists b'. rewrite Hb'. rewrite decide_False by done. by rewrite decide_True by constructor.
    + destruct (flagged_some _ ts1 v z Hf1) as [b Hb]; [unfold unlink_from; by rewrite !lookup_alter_ne by done|].
      destruct (Hv2 v _ Hv Hb) as [b' Hb']. exists b'. rewrite Hb'. destruct (decide (v ∈ q)) as [Hin|Hin].
      * by rewrite decide_True by (by constructor).
      * rewrite decide_False; [done|]. by intros [|]%elem_of_cons.
Qed.

Lemma dying_delete t ts : dying t [] ts → kernel_ok (base.delete t ts).
Proof.
  intros [[H1 H2 H3 H4] Hac Hth Hsh (x & Hx & _ & _ & Hn & Eq)].
  assert (∀ n y, base.delete t ts !! n = Some y → n ≠ t ∧ ts !! n = Some y) as Hback by (intros n y Hy; by apply lookup_delete_Some in Hy as [? ?]).
  assert (∀ n y, n ≠ t → ts !! n = Some y → base.delete t ts !! n = Some y) as Hfwd by (intros n y ? ?; by rewrite lookup_delete_ne).
  assert (∀ n y, ts !! n = Some y → out_node y ≠ Some t) as Hno.
  { intros n y Hy Ho. destruct (H2 n y t Hy Ho) as (x' & Hx' & Hin). assert (x' = x) as -> by congruence. rewrite Eq in Hin. by apply elem_of_nil in Hin. }
  split.
  - split.
    + intros d y n [Hd Hy]%Hback Hin. destruct (H1 d y n Hy Hin) as (z & Hz & Ho). exists z. split; [|done]. apply Hfwd; [|done].
      intros ->. congruence.
    + intros n z d [Hnt Hz]%Hback Ho. destruct (H2 n z d Hz Ho) as (y & Hy & Hin). exists y. split; [|done]. apply Hfwd; [|done].
      intros ->. by apply (Hno n z).
    + intros d y [Hd Hy]%Hback. by apply (H3 d).
    + intros n z [Hnt Hz]%Hback. by apply H4.
  - intros n z [Hnt Hz]%Hback. by apply (Hth n).
  - apply (acyclic_sub ts); [|done]. intros n d (z & [_ Hz]%Hback & ?). by exists z.
  - intros n z [Hnt Hz]%Hback. pose proof (Hsh n Hnt z Hz) as Hs. destruct (_helping z); [|done].
    destruct Hs as (d & y & Ho & Hy & ?). exists d, y. split; [done|]. split; [|done]. apply Hfwd; [|done]. intros ->. by apply (Hno n z).
Qed.

Lemma dying_start t ts e x :
  kernel_ok ts → ts !! t = Some x →
  ∃ ts', (_ ← update t (set_in_state IN_DESTRUCT); _ ← update t (set_out_state OUT_DESTRUCT); Ipc_node._cancel_send t) (Kernel ts e) =
    (Ok tt, Kernel ts' e) ∧ dying t (in_queue x) ts' ∧ (∀ u v, u ≠ t → v ≠ t → quiet u v ts ts') ∧
    ∀ v z, v ≠ t → ts !! v = Some z → ∃ z', ts' !! v = Some z' ∧ _state z' = _state z.
Proof.
  intros Hok Hx. set (f := set_out_state OUT_DESTRUCT ∘ set_in_state IN_DESTRUCT). set (ts0 := alter f t ts).
  assert (ts0 !! t = Some (f x)) as Hx0 by (unfold ts0; by rewrite lookup_alter_eq, Hx).
  assert (queues_ok ts0) as Hq0.
  { apply (same_links_queues ts); [|auto with kernel]. intros n. unfold ts0. rewrite lookup_alter. case_decide; [|done]. subst. by rewrite Hx. }
  assert (∀ u v, u ≠ t → quiet u v ts ts0) as Hq0' by (intros u v Hu; apply quiet_alter; intros k z Hz; congruence).
  assert (acyclic ts0) as Hac0.
  { apply (acyclic_sub ts); [|auto with kernel]. by intros n d [[_ Hh]|(_ & z & _ & Hh & _)]%helps_alter. }
  assert (threads_except (λ n, n = t) ts0) as Hth0.
  { intros n z Hn Hz. unfold ts0 in Hz. rewrite lookup_alter_ne in Hz by congruence. by apply (ok_threads _ Hok n). }
  assert (shares_except (λ n, n = t) ts0) as Hsh0.
  { apply (shares_open _ none); [by intros z|by intros n []|done|auto with kernel]. }
  assert ((_ ← update t (set_in_state IN_DESTRUCT); _ ← update t (set_out_state OUT_DESTRUCT); Ipc_node._cancel_send t) (Kernel ts e) =
    Ipc_node._cancel_send t (Kernel ts0 e)) as ->.
  { mrun (update_run ts e t x (set_in_state IN_DESTRUCT) Hx).
    erewrite (bind_ok (update t (set_out_state OUT_DESTRUCT))) by (apply update_run with (set_in_state IN_DESTRUCT x); by rewrite lookup_alter_eq, Hx).
    by rewrite alter_alter_eq. }
  destruct (out_node x) as [d|] eqn:Ho.
  - destruct (queue_node _ Hq0 t (f x) d Hx0 Ho) as (y & Hy & _).
    assert (t ≠ d) as Htd by (intros ->; by apply (queue_self _ Hq0 d (f x))).
    exists (unlink_from (λ z, z) t d ts0). split; [by rewrite (unlink_run ts0 e t d (f x) y)|].
    split; [|split].
    2:{ intros u v Hu Hv; transitivity ts0; [by apply Hq0'|apply unlink_quiet; [done|by left]]. }
    2:{ intros v z Hv Hz. unfold unlink_from, ts0. rewrite lookup_alter_ne by done.
        destruct (decide (v = d)) as [->|Hvd]; [|exists z; by rewrite !lookup_alter_ne by done].
        exists (withdrawn t z). rewrite lookup_alter_eq, lookup_alter_ne, Hz by done. split; [done|]. unfold withdrawn. by destruct (_ && _). }
    split.
    + by apply (unlink_queues _ t d ts0 (f x)).
    + by apply unlink_acyclic.
    + unfold unlink_from. apply threads_alter; [apply threads_alter; [done|]|by intros z []]. intros z _ _. apply withdrawn_node_ok.
    + apply (shares_open _ (λ n, n = t)); [by intros z|done|done|]. apply shares_same; [apply _|apply withdrawn_runnable|done].
    + eexists. split; [unfold unlink_from; by rewrite lookup_alter_eq, lookup_alter_ne, Hx0|]. done.
  - exists ts0. split; [|split; [split; [done..|by exists (f x)]|split; [intros u v Hu _; by apply Hq0'|]]].
    2:{ intros v z Hv Hz. exists z. unfold ts0. by rewrite lookup_alter_ne. }
    unfold Ipc_node._cancel_send. mrun (get_run ts0 e t (f x) Hx0).
    change (out_node (f x)) with (out_node x). rewrite Ho. erewrite bind_ok by done. done.
Qed.

Lemma destruct_ok ts e t x :
  kernel_ok ts → ts !! t = Some x →
  ∃ ts', destruct_thread t (Kernel ts e) = (Ok tt, Kernel ts' e) ∧ kernel_ok ts' ∧ ts' !! t = None ∧
    (∀ u v, u ≠ t → v ≠ t → quiet u v ts ts') ∧
    (∀ n, n ∈ in_queue x → ∃ y, ts' !! n = Some (cancelled (set_out_node None y))) ∧
    ∀ v z, v ≠ t → v ∉ in_queue x → ts !! v = Some z → ∃ z', ts' !! v = Some z' ∧ _state z' = _state z.
Proof.
  intros Hok Hx. destruct (dying_start t ts e x Hok Hx) as (ts1 & Hr1 & Hd1 & Hq1 & Hv1). pose proof (dying_node _ _ _ Hd1) as (x1 & Hx1 & _ & _ & _ & Eq).
  destruct (dying_all t (in_queue x) ts1 e Hd1) as (ts2 & Hr2 & Hd2 & Hq2 & Hv2).
  exists (base.delete t ts2). split_and!; [|by apply dying_delete|by rewrite lookup_delete_eq| | |].
  4:{ intros v z Hv Hn Hz. destruct (Hv1 v z Hv Hz) as (z1 & Hz1 & Es). destruct (Hv2 v z1 Hv Hz1) as [b Hb].
      rewrite decide_False in Hb by done. eexists. rewrite lookup_delete_ne by done. split; [exact Hb|exact Es]. }
  3:{ intros n Hn. rewrite <- Eq in Hn. destruct (queue_item _ (dying_queues _ _ _ Hd1) t x1 n Hx1 Hn) as (y & Hy & Hoy).
      assert (n ≠ t) as Hnt by (intros ->; by apply (queue_self _ (dying_queues _ _ _ Hd1) t y)).
      destruct (Hv2 n y Hnt Hy) as [b Hb]. exists (set_active b y). rewrite lookup_delete_ne by done. rewrite Hb.
      by rewrite decide_True by (by rewrite <- Eq). }
  2:{ intros u v Hu Hv k z Hz Ha. destruct (Hq1 u v Hu Hv k z Hz Ha) as (z1 & Hz1 & Ha1). destruct (Hq2 u v Hu k z1 Hz1 Ha1) as (z2 & Hz2 & Ha2).
      exists z2. by rewrite lookup_delete_ne. }
  assert (Ipc_node.destruct_node t (Kernel ts e) = (Ok tt, Kernel ts2 e)) as Hd; [|unfold destruct_thread; by mrun Hd].
  unfold Ipc_node.destruct_node. revert Hr1. unfold mbind, exc_bind.
  destruct (update t (set_in_state IN_DESTRUCT) (Kernel ts e)) as [[[]|] s1]; [|done].
  destruct (update t (set_out_state OUT_DESTRUCT) s1) as [[[]|] s2]; [|done]. intros ->.
  rewrite (get_run ts1 e t x1 Hx1), Eq. exact Hr2.
Qed.
