(* ===== verification/Kernel_props.v ===== *)
(** * Kernel_props: kernel calls on threads, their safety and their progress

    The calls of [Kernel_thread] as one step relation: any CPU enters the kernel and
    performs a call.  [admissible] says what core and the users of the kernel guarantee.
    In every reachable state an admissible call ends without a failed assertion, a wild
    access or an endless recursion, and the job a CPU picks is a runnable thread; a client
    in the queue of a server is answered after a bounded number of answers of the server.
    The lemmas at the end show what happens without the guarantees. *)

From Stdlib Require Import Setoid Morphisms.
From stdpp Require Import relations.
From S2P Require Import Prelude Kernel_thread Kernel_inv Kernel_ipc.

Inductive call :=
  | New_thread (t : id)
  | Start_thread (starter t : id) (cpu new_pd : option Z)
  | Pause_thread (t : id)
  | Resume_thread (t : id)
  | Stop_thread (t : id)
  | Restart_thread (t : id)
  | Delete_thread (caller t : id) (scheduled : bool)
  | Execute_destroy (caller t : id)
  | Cancel_blocking (t : id)
  | Die (t : id)
  | Await_request_msg (t : id)
  | Send_request_msg (t : id) (dst : option id)
  | Send_reply_msg (t : id) (await_request_msg : bool)
  | Kill_pending (t : id)
  | Kill_finished (arg : Z) (t : id)
  | Wait_for_signal (t : id)
  | Receive_signal (data : list Z) (t : id).

#[export] Instance call_eq_dec : EqDecision call.
Proof. solve_decision. Defined.

Definition perform (c : call) : M unit :=
  match c with
  | New_thread t => new_thread t
  | Start_thread starter t cpu new_pd => _call_start_thread starter t cpu new_pd
  | Pause_thread t => _call_pause_thread t
  | Resume_thread t => _call_resume_thread t
  | Stop_thread t => _call_stop_thread t
  | Restart_thread t => _ ← _restart t; mret tt
  | Delete_thread caller t scheduled => _call_delete_thread caller t scheduled
  | Execute_destroy caller t => Destroy_execute caller t
  | Cancel_blocking t => _cancel_blocking t
  | Die t => _die t
  | Await_request_msg t => _call_await_request_msg t
  | Send_request_msg t dst => _call_send_request_msg t dst
  | Send_reply_msg t await => _call_send_reply_msg t await
  | Kill_pending t => signal_context_kill_pending t
  | Kill_finished arg t => signal_context_kill_finished arg t
  | Wait_for_signal t => signal_wait_for_signal t
  | Receive_signal data t => signal_receive_signal data t
  end.

(** ** What the callers guarantee *)

Definition exists_with (P : thread → bool) (s : kernel) (t : id) : bool :=
  match threads s !! t with Some x => P x | None => false end.

Definition in_state_of (st : State) (s : kernel) (t : id) : bool := exists_with (λ x, bool_decide (_state x = st)) s t.

(** [t] is the thread that entered the kernel. *)
Definition executes (s : kernel) (t : id) : bool :=
  exists_with (λ x, runnable x && bool_decide (_cpu x = Some (executing_id s))) s t.

(** The thread at the end of the helping relationships of [d] is [t]. *)
Definition helps_finally (s : kernel) (d t : id) : bool :=
  match (helping_destination d s).1 with Ok n => n =? t | Err _ => false end.

(** A new thread gets a fresh object and is started once, with the id of an existing CPU
    and a protection domain; only the running thread stops, waits, sends and answers; no
    request goes to a thread that has not been started; a request that lets the receiver inherit the CPU time of
    the caller does not go to a thread that itself spends its time on the caller; a
    thread is paused on its own CPU and not while it waits for an answer. *)
Definition admissible (s : kernel) (c : call) : bool :=
  match c with
  | New_thread t => bool_decide (threads s !! t = None)
  | Start_thread starter t cpu new_pd =>
      executes s starter && in_state_of AWAITS_START s t && bool_decide (cpu ≠ None) && bool_decide (new_pd ≠ None)
  | Pause_thread t =>
      exists_with (λ x, negb (sending x) && (negb (runnable x) || bool_decide (_cpu x = Some (executing_id s)))) s t
  | Resume_thread t | Cancel_blocking t => exists_with (λ _, true) s t
  | Delete_thread caller t _ => executes s caller && exists_with (λ _, true) s t && negb (caller =? t)
  | Execute_destroy caller t =>
      (in_state_of ACTIVE s caller || in_state_of AWAITS_RESTART s caller) && exists_with (λ _, true) s t && negb (caller =? t)
  | Restart_thread t => in_state_of ACTIVE s t || in_state_of AWAITS_RESTART s t
  | Send_request_msg t None => executes s t
  | Send_request_msg t (Some d) =>
      executes s t &&
      exists_with (λ y, negb (bool_decide (_state y = AWAITS_START)) &&
        exists_with (λ x, negb (bool_decide (_cpu y = _cpu x) && helps_finally s d t)) s t) s d
  | Stop_thread t | Die t | Await_request_msg t | Send_reply_msg t _ | Kill_pending t | Wait_for_signal t => executes s t
  | Kill_finished _ t => in_state_of AWAITS_SIGNAL_CONTEXT_KILL s t
  | Receive_signal _ t => in_state_of AWAITS_SIGNAL s t
  end.

Lemma exists_with_true P s t : exists_with P s t = true ↔ ∃ x, threads s !! t = Some x ∧ P x = true.
Proof. unfold exists_with. destruct (threads s !! t) as [x|]; [|naive_solver]. split; [eauto|]. by intros (? & [= ->] & ?). Qed.

Lemma in_state_of_true st s t : in_state_of st s t = true ↔ ∃ x, threads s !! t = Some x ∧ _state x = st.
Proof.
  unfold in_state_of. rewrite exists_with_true. split; intros (x & Hx & H); exists x; (split; [done|]);
    [by apply bool_decide_eq_true in H|by apply bool_decide_eq_true].
Qed.

Lemma executes_true ts e t : executes (Kernel ts e) t = true ↔ ∃ x, running ts e t x.
Proof.
  unfold executes. rewrite exists_with_true. unfold running. split.
  - intros (x & Hx & [Hr Hc%bool_decide_eq_true]%andb_true_iff). by exists x.
  - intros (x & Hx & Hr & Hc). exists x. split; [done|]. rewrite Hr. by apply bool_decide_eq_true.
Qed.

(** ** The end of helping relationships *)

Lemma helping_loop_path fuel path ts e t :
  kernel_ok ts → is_Some (ts !! t) → NoDup path → (∀ p, p ∈ path → tc (helps ts) p t ∧ is_Some (ts !! p)) →
  (base.size ts < length path + fuel)%nat →
  ∃ d y, helping_destination_loop fuel t (Kernel ts e) = (Ok d, Kernel ts e) ∧ group ts d t ∧ ts !! d = Some y ∧ _helping y = false.
Proof.
  intros Hok. revert path t. induction fuel as [|fuel IH]; intros path t [x Hx] Hnd Hpath Hfuel.
  { assert (length path ≤ base.size ts)%nat; [|lia]. rewrite <- size_dom, <- (size_list_to_set (C := gset id) path) by done.
    apply subseteq_size. intros p Hp%elem_of_list_to_set. by apply elem_of_dom, Hpath. }
  cbn [helping_destination_loop]. mrun (get_run ts e t x Hx). destruct (_helping x) eqn:Hh.
  - assert (∃ d, out_node x = Some d) as [d Hd].
    { unfold _helping in Hh. apply andb_true_iff in Hh as [_ Hh%bool_decide_eq_true]. destruct (out_node x); [eauto|done]. }
    rewrite Hd. assert (helps ts t d) as Htd by (exists x; auto).
    destruct (queue_node _ (ok_queues _ Hok) t x d Hx Hd) as (y & Hy & _).
    assert (t ∉ path) as Htp by (intros Hin; by apply (ok_acyclic _ Hok t), Hpath).
    destruct (IH (t :: path) d) as (r & z & Hr & Hg & Hz & Hhz); [by eexists|by constructor| |simpl; lia|].
    { intros p [->|Hp]%elem_of_cons; [split; [by apply tc_once|by eexists]|]. destruct (Hpath p Hp) as [Htc Hs].
      split; [|done]. by eapply tc_r. }
    exists r, z. split_and!; [done| |done|done]. by eapply rtc_l.
  - exists t, x. split_and!; [done|apply rtc_refl|done|done].
Qed.

Lemma helping_destination_spec ts e t :
  kernel_ok ts → is_Some (ts !! t) →
  ∃ d y, helping_destination t (Kernel ts e) = (Ok d, Kernel ts e) ∧ group ts d t ∧ ts !! d = Some y ∧ _helping y = false.
Proof.
  intros Hok Ht. unfold helping_destination, get_state. unfold mbind at 1, exc_bind at 1.
  apply (helping_loop_path _ []); [done|done|apply NoDup_nil_2| |unfold helping_fuel; simpl; lia].
  intros p Hp. by apply elem_of_nil in Hp.
Qed.

Lemma helps_finally_group ts e d t x :
  kernel_ok ts → is_Some (ts !! d) → ts !! t = Some x → _helping x = false → group ts t d → helps_finally (Kernel ts e) d t = true.
Proof.
  intros Hok Hd Hx Hh Hg. destruct (helping_destination_spec ts e d Hok Hd) as (r & y & Hr & Hgr & Hy & Hhy).
  unfold helps_finally. rewrite Hr. cbn. apply Z.eqb_eq.
  destruct (group_linear ts d r t Hgr Hg) as [H|H]; [by apply (group_idle ts t r y)|symmetry; by apply (group_idle ts r t x)].
Qed.

(** ** One call *)

(** The calls after which [n] may have left the queue of [t] unanswered, or been answered. *)
Definition disturbs (t n : id) (c : call) : bool :=
  match c with
  | Delete_thread _ u _ | Execute_destroy _ u => (u =? t) || (u =? n)
  | Cancel_blocking u => u =? n
  | Send_reply_msg u _ => u =? t
  | _ => false
  end.

(** What a call of a safe kernel has to achieve. *)
Definition done_well (ts : heap) (e : Z) (c : call) : Prop :=
  ∃ ts', perform c (Kernel ts e) = (Ok tt, Kernel ts' e) ∧ kernel_ok ts' ∧
    ∀ t n, disturbs t n c = false → quiet t n ts ts'.

(** Most calls change one thread apart from the shares. *)
Lemma done_well_alter ts e c t f :
  (∃ ts', perform c (Kernel ts e) = (Ok tt, Kernel ts' e) ∧ flagged (alter f t ts) ts' ∧ kernel_ok ts') →
  (∀ x, in_queue (f x) = in_queue x ∧ in_state (f x) = in_state x) → done_well ts e c.
Proof.
  intros (ts' & Hr & Hf & Hok) Hsame. exists ts'. split_and!; [done..|]. intros u n _.
  refine (quiet_trans_flagged _ _ _ _ _ _ Hf). by apply quiet_alter_same.
Qed.

Section Call.
Context (ts : heap) (e : Z) (Hok : kernel_ok ts).

Lemma inactive_well c t x st :
  running ts e t x → st ≠ ACTIVE → plain st → perform c (Kernel ts e) = _become_inactive t st (Kernel ts e) → done_well ts e c.
Proof using Hok.
  intros Hrun Hst Hp Hc. apply (done_well_alter _ _ _ t (set_state st)); [|done]. rewrite Hc. by apply become_inactive_ok with x.
Qed.

Lemma active_well c t x f :
  Data_only f → ts !! t = Some x → plain (_state x) →
  perform c (Kernel ts e) = _become_active t (Kernel (alter f t ts) e) → done_well ts e c.
Proof using Hok.
  intros Hf Hx Hp Hc. apply (done_well_alter _ _ _ t (set_state ACTIVE ∘ f)).
  - rewrite Hc. destruct (become_active_ok (alter f t ts) e t (f x)) as (ts' & Hr & Hfl & Hok').
    { by apply data_only_ok. } { by rewrite lookup_alter_eq, Hx. } { by pose proof (Hf x) as [= _ _ _ _ -> _ _ _ _]. }
    exists ts'. split_and!; [done| |done]. by rewrite <- alter_alter_eq.
  - intros z. by pose proof (Hf z) as [= E1 E2 _ _ _ _ _ _ _].
Qed.

Lemma send_well t d x y :
  running ts e t x → ts !! d = Some y → _state y ≠ AWAITS_START → bool_decide (_cpu y = _cpu x) && helps_finally (Kernel ts e) d t = false →
  done_well ts e (Send_request_msg t (Some d)).
Proof using Hok.
  intros Hrun Hy Hst Hadm. destruct (send_request_run ts e t d x y Hok Hrun Hy) as (ts' & Hr & Hf & Hok'); [|done|].
  { intros Hh Hg. destruct (running_state ts e t x Hok Hrun) as (_ & _ & _ & _ & Hhx & _). destruct Hrun as (Hx & _).
    rewrite Hh, (helps_finally_group ts e d t x) in Hadm; [done..|by eexists|done|done|done]. }
  exists ts'. split_and!; [done..|]. intros u n _. refine (quiet_trans_flagged _ _ _ _ _ _ Hf).
  unfold requested. transitivity (alter (delivered t (_utcb x)) d ts); [|by apply quiet_alter_same].
  apply quiet_alter. intros k z _ Hz (j & Hj & Hk). unfold delivered. destruct (waiting z) eqn:Hw.
  - exfalso. unfold waiting in Hw. apply bool_decide_eq_true in Hw. destruct (ok_threads _ Hok d z Hz) as [H1 _ _ _ _].
    rewrite Hw in H1. by rewrite H1 in Hj.
  - exists j. split; [|done]. cbn. unfold Fifo.Seq.enqueue. by apply lookup_app_l_Some.
Qed.

Lemma awaited_quiet t x u n : ts !! t = Some x → waiting x = false → quiet u n ts (awaited t x ts).
Proof using Hok.
  intros Hx Hw. unfold awaited. destruct (ready_to_wait x); [|by apply quiet_alter_same].
  destruct (in_queue x) as [|i q] eqn:Hq.
  - apply quiet_alter. intros k z _ Hz (j & Hj & _). assert (z = x) as -> by congruence. by rewrite Hq in Hj.
  - destruct (ts !! i) as [y|]; [|reflexivity]. apply quiet_alter. intros k z _ Hz (j & Hj & Hk). exists j. cbn.
    split; [done|]. assert (j ≤ k)%nat by lia. destruct (decide (REPLY = REPLY)); [lia|done].
Qed.

Lemma await_well t x : running ts e t x → done_well ts e (Await_request_msg t).
Proof using Hok.
  intros Hrun. destruct (await_ok ts e t x Hok Hrun) as (ts' & Hr & Hf & Hok'). exists ts'. split_and!; [done..|].
  intros u n _. refine (quiet_trans_flagged _ _ _ _ _ _ Hf). apply awaited_quiet; [apply Hrun|].
  by apply (running_state ts e t x Hok Hrun).
Qed.

End Call.

(** *** The answer of a server *)

Lemma running_flagged ts ts' e t x : flagged ts ts' → running ts e t x → ∃ x', running ts' e t x' ∧ set_active true x' = set_active true x.
Proof.
  intros Hf (Hx & Hr & Hc). destruct (flagged_some _ ts' t x Hf Hx) as [b Hb]. exists (set_active b x). by repeat split.
Qed.

(** The heap after [reply]. *)
Definition after_reply (t : id) (x : thread) (ts : heap) : heap :=
  match in_state x, in_queue x with
  | REPLY, n :: q => replied t n q (_utcb x) ts
  | _, _ => alter (set_in_state IN_READY) t ts
  end.

Lemma reply_call_run ts e t x :
  kernel_ok ts → running ts e t x →
  ∃ ts1 x1, Ipc_node.reply t (Kernel ts e) = (Ok tt, Kernel ts1 e) ∧ flagged (after_reply t x ts) ts1 ∧ kernel_ok ts1 ∧
    running ts1 e t x1 ∧ in_state x1 = IN_READY ∧ in_queue x1 = (if decide (in_state x = REPLY) then tail (in_queue x) else in_queue x).
Proof.
  intros Hok Hrun. destruct (running_state ts e t x Hok Hrun) as (_ & _ & _ & Hw & _). pose proof Hrun as (Hx & Hr & Hc).
  destruct (decide (in_state x = REPLY)) as [Hi|Hi].
  - destruct (ok_threads _ Hok t x Hx) as [H1 _ _ _ _]. rewrite Hi in H1. destruct (in_queue x) as [|n q] eqn:Hq; [done|].
    destruct (queue_item _ (ok_queues _ Hok) t x n Hx) as (y & Hy & Hoy); [rewrite Hq; constructor|].
    destruct (reply_run ts e t n q x y Hok Hx Hw Hq Hy Hi) as (ts1 & Hr1 & Hf1 & Hok1).
    assert (running (replied t n q (_utcb x) ts) e t (set_in_state IN_READY (set_in_queue q x))) as Hrun1.
    { split; [|done]. unfold replied. rewrite lookup_alter_eq, lookup_alter_ne, lookup_alter_eq, Hx; [done|].
      intros <-. by apply (queue_self _ (ok_queues _ Hok) n y). }
    destruct (running_flagged _ ts1 e t _ Hf1 Hrun1) as (x1 & Hrx & E). exists ts1, x1. unfold after_reply. rewrite Hi, Hq.
    split_and!; [done..| |]; by injection E.
  - destruct (reply_none_run ts e t x Hok Hx Hw Hi) as [Hr1 Hok1]. exists (alter (set_in_state IN_READY) t ts), (set_in_state IN_READY x).
    split_and!; try done; [|split; [by rewrite lookup_alter_eq, Hx|done]]. unfold after_reply. destruct (in_state x); done.
Qed.

Lemma after_reply_quiet ts e t x u n : kernel_ok ts → running ts e t x → u ≠ t → quiet u n ts (after_reply t x ts).
Proof.
  intros Hok Hrun Hu. assert (∀ f, quiet u n ts (alter f t ts)) as H by (intros f; apply quiet_alter; intros ? ? ?; congruence).
  unfold after_reply. destruct (in_state x); try apply H. destruct (in_queue x) as [|i q]; [apply H|]. unfold replied.
  etransitivity; [apply H|]. etransitivity; [by apply (quiet_alter_same (answered (_utcb x)) i)|].
  apply quiet_alter. intros ? ? ?; congruence.
Qed.

Lemma reply_well ts e t x aw : kernel_ok ts → running ts e t x → done_well ts e (Send_reply_msg t aw).
Proof.
  intros Hok Hrun. destruct (reply_call_run ts e t x Hok Hrun) as (ts1 & x1 & Hr1 & Hf1 & Hok1 & Hrun1 & _).
  assert (∀ u n, u ≠ t → quiet u n ts ts1) as Hq.
  { intros u n Hu. refine (quiet_trans_flagged _ _ _ _ _ _ Hf1). by apply (after_reply_quiet ts e t x). }
  assert (∀ u n, disturbs u n (Send_reply_msg t aw) = false → u ≠ t) as Hd.
  { intros u n H. cbn in H. by apply Z.eqb_neq in H. }
  destruct aw.
  - destruct (await_well ts1 e Hok1 t x1 Hrun1) as (ts2 & Hr2 & Hok2 & Hq2). exists ts2. split_and!; [|done|].
    + cbn [perform]. unfold _call_send_reply_msg. mrun Hr1. exact Hr2.
    + intros u n H. apply Hd in H. transitivity ts1; [by apply Hq|by apply Hq2].
  - exists (alter (set_user_arg_0 0) t ts1). split_and!; [|by apply data_only_ok; [apply _|]|].
    + cbn [perform]. unfold _call_send_reply_msg. mrun Hr1. by apply update_run with x1; destruct Hrun1.
    + intros u n H. apply Hd in H. transitivity ts1; [by apply Hq|by apply quiet_alter_same].
Qed.

(** *** Every admissible call *)

(** The calls that begin with a check of the thread's state. *)
Lemma checked_run {A} (P : thread → bool) (m : M A) ts e t x :
  ts !! t = Some x → P x = true → (x ← get t; _ ← assert (P x); m) (Kernel ts e) = m (Kernel ts e).
Proof. intros Hx HP. mrun (get_run ts e t x Hx). rewrite HP. by mrun (assert_run (Kernel ts e)). Qed.

Lemma running_active ts e t x : running ts e t x → bool_decide (_state x = ACTIVE) = true.
Proof. intros (_ & Hr & _). unfold runnable in Hr. by apply andb_true_iff in Hr as [Hr _]. Qed.

Lemma start_well ts e starter t cpu p z x :
  kernel_ok ts → running ts e starter z → ts !! t = Some x → _state x = AWAITS_START →
  done_well ts e (Start_thread starter t (Some cpu) (Some p)).
Proof.
  intros Hok Hz Hx Hst. destruct (start_ok ts e starter t z x cpu p) as (ts' & Hr & Hf & Hok'); try done; [apply Hz| |].
  { intros ->. pose proof (running_active ts e t z Hz) as Ha%bool_decide_eq_true. destruct Hz as (Hz & _). congruence. }
  exists ts'. split_and!; [done..|]. intros u n _. refine (quiet_trans_flagged _ _ _ _ _ _ Hf).
  transitivity (alter (set_user_arg_0 0) starter ts); by apply quiet_alter_same.
Qed.

Lemma restart_well ts e t x :
  kernel_ok ts → ts !! t = Some x → _state x = ACTIVE ∨ _state x = AWAITS_RESTART → done_well ts e (Restart_thread t).
Proof.
  intros Hok Hx Hst. assert (∀ b, _restart t (Kernel ts e) = (Ok b, Kernel ts e) → perform (Restart_thread t) (Kernel ts e) = (Ok tt, Kernel ts e)) as Hb.
  { intros b Hr. cbn [perform]. by mrun Hr. }
  destruct Hst as [Hst|Hst].
  - exists ts. split_and!; [|done|by intros; reflexivity]. apply (Hb false). unfold _restart. mrun (get_run ts e t x Hx). rewrite Hst.
    by mrun (assert_run (Kernel ts e)).
  - destruct (become_active_ok ts e t x) as (ts' & Hr & Hf & Hok'); [done|done|by rewrite Hst|].
    apply (done_well_alter _ _ _ t (set_state ACTIVE)); [|done]. exists ts'. split_and!; [|done|done].
    assert (_restart t (Kernel ts e) = (Ok true, Kernel ts' e)) as Hrun; [|cbn [perform]; by mrun Hrun].
    unfold _restart. mrun (get_run ts e t x Hx). rewrite Hst. mrun (assert_run (Kernel ts e)).
    rewrite (bool_decide_eq_true_2 (AWAITS_RESTART = AWAITS_RESTART)) by done. cbn [negb]. by mrun Hr.
Qed.

(** The deletion of a thread leaves a caller that is not blocked for IPC in its state. *)
Lemma destruct_well ts e t x :
  kernel_ok ts → ts !! t = Some x →
  ∃ ts', destruct_thread t (Kernel ts e) = (Ok tt, Kernel ts' e) ∧ kernel_ok ts' ∧
    (∀ u n, (u =? t) || (n =? t) = false → quiet u n ts ts') ∧
    ∀ v z, v ≠ t → _state z ≠ AWAITS_IPC → ts !! v = Some z → ∃ z', ts' !! v = Some z' ∧ _state z' = _state z.
Proof.
  intros Hok Hx. destruct (destruct_ok ts e t x Hok Hx) as (ts' & Hr & Hok' & _ & Hq & _ & Hv). exists ts'. split_and!; [done..| |].
  - intros u n [H1 H2]%orb_false_iff. apply Z.eqb_neq in H1, H2. by apply Hq.
  - intros v z Hvt Hst Hz. apply Hv; [done| |done]. intros Hin.
    destruct (queue_item _ (ok_queues _ Hok) t x v Hx Hin) as (z' & Hz' & Ho). assert (z' = z) as -> by congruence.
    destruct (ok_threads _ Hok v z Hz) as [_ [_ H2] [_ H3] _ _]. apply Hst, H3. left. apply H2. by rewrite Ho.
Qed.

Lemma delete_well ts e caller t scheduled z x :
  kernel_ok ts → running ts e caller z → ts !! t = Some x → done_well ts e (Delete_thread caller t scheduled).
Proof.
  intros Hok Hz Hx.
  destruct (bool_decide (_cpu x = None) || (bool_decide (_cpu x = Some e) || negb scheduled)) eqn:Hc.
  - destruct (destruct_well ts e t x Hok Hx) as (ts' & Hr & Hok' & Hq & _). exists ts'. split_and!; [|done|].
    + cbn [perform]. unfold _call_delete_thread. mrun (get_run ts e t x Hx). unfold get_state. unfold mbind at 1, exc_bind at 1. cbn [executing_id]. by rewrite Hc.
    + intros u n Hd. apply Hq. cbn in Hd. by rewrite (Z.eqb_sym u), (Z.eqb_sym n).
  - apply (inactive_well ts e Hok _ caller z AWAITS_RESTART); try done. cbn [perform]. unfold _call_delete_thread. mrun (get_run ts e t x Hx).
    unfold get_state. unfold mbind at 1, exc_bind at 1. cbn [executing_id]. by rewrite Hc.
Qed.

Lemma execute_well ts e caller t z x :
  kernel_ok ts → ts !! caller = Some z → _state z = ACTIVE ∨ _state z = AWAITS_RESTART → ts !! t = Some x → caller ≠ t →
  done_well ts e (Execute_destroy caller t).
Proof.
  intros Hok Hz Hst Hx Hne. destruct (destruct_well ts e t x Hok Hx) as (ts1 & Hr1 & Hok1 & Hq1 & Hv1).
  destruct (Hv1 caller z Hne) as (z1 & Hz1 & Es); [destruct Hst as [->| ->]; done|done|]. rewrite <- Es in Hst.
  destruct (restart_well ts1 e caller z1 Hok1 Hz1 Hst) as (ts2 & Hr2 & Hok2 & Hq2). exists ts2. split_and!; [|done|].
  - cbn [perform] in *. unfold Destroy_execute. by mrun Hr1.
  - intros u n Hd. transitivity ts1; [|by apply Hq2]. apply Hq1. cbn in Hd. by rewrite (Z.eqb_sym u), (Z.eqb_sym n).
Qed.

(** The end of a blocking operation on signals. *)
Lemma signal_well ts e t x c f st :
  kernel_ok ts → ts !! t = Some x → plain st → _state x = st → Data_only f →
  perform c = (x ← get t; _ ← assert (bool_decide (_state x = st)); _ ← update t f; _become_active t) → done_well ts e c.
Proof.
  intros Hok Hx Hp Hst Hf Hc. apply (active_well ts e Hok c t x f); [done|done|by rewrite Hst|]. rewrite Hc.
  rewrite (checked_run _ _ ts e t x Hx) by (by apply bool_decide_eq_true). by mrun (update_run ts e t x f Hx).
Qed.

(** A request to nobody. *)
Lemma send_unknown_run ts e t x :
  kernel_ok ts → running ts e t x → _call_send_request_msg t None (Kernel ts e) = _become_inactive t DEAD (Kernel ts e).
Proof.
  intros Hok Hrun. pose proof (running_active ts e t x Hrun) as Ha%bool_decide_eq_true. destruct Hrun as (Hx & _).
  destruct (pd_run ts e t x) as [p Hp]; [by apply (ok_threads _ Hok t)|done|by rewrite Ha|]. unfold _call_send_request_msg. by mrun Hp.
Qed.

Lemma call_well ts e c : kernel_ok ts → admissible (Kernel ts e) c = true → done_well ts e c.
Proof.
  intros Hok Hadm. destruct c as [t|s t cpu new_pd|t|t|t|t|r t sch|r t|t|t|t|t [d|]|t aw|t|arg t|t|data t]; cbn [admissible] in Hadm;
    rewrite ?andb_true_iff, ?orb_true_iff, ?executes_true, ?in_state_of_true, ?exists_with_true in Hadm; cbn [threads executing_id] in Hadm.
  - apply bool_decide_eq_true in Hadm. destruct (new_thread_ok ts e t Hok Hadm) as [Hr Hok']. eexists. split_and!; [exact Hr|done|].
    intros u n _ k x Hx Ha. exists x. by rewrite lookup_insert_ne by congruence.
  - destruct Hadm as [[[(z & Hz) (x & Hx & Hst)] Hcpu%bool_decide_eq_true] Hpd%bool_decide_eq_true].
    destruct cpu as [cpu|], new_pd as [p|]; try done. by apply (start_well ts e s t cpu p z x).
  - destruct Hadm as (x & Hx & [Hse%negb_true_iff Hcpu]%andb_true_iff). apply (done_well_alter _ _ _ t (set_paused true)); [|done].
    apply (pause_ok ts e t x); try done. intros Hr. rewrite Hr in Hcpu. by apply bool_decide_eq_true in Hcpu.
  - destruct Hadm as (x & Hx & _). apply (done_well_alter _ _ _ t (set_paused false)); [|done]. by apply (resume_ok ts e t x).
  - destruct Hadm as (x & Hrun). apply (inactive_well ts e Hok _ t x AWAITS_RESTART); try done. cbn [perform]. unfold _call_stop_thread.
    apply (checked_run (λ x, bool_decide (_state x = ACTIVE)) _ ts e t x); [apply Hrun|by eapply running_active].
  - destruct Hadm as [(x & Hx & Hst)|(x & Hx & Hst)]; apply (restart_well ts e t x); auto.
  - destruct Hadm as [[(z & Hz) (x & Hx & _)] _]. by apply (delete_well ts e r t sch z x).
  - destruct Hadm as [[Hz (x & Hx & _)] Hne%negb_true_iff%Z.eqb_neq].
    destruct Hz as [(z & Hz & Hst)|(z & Hz & Hst)]; apply (execute_well ts e r t z x); auto.
  - destruct Hadm as (x & Hx & _). destruct (cancel_blocking_ok ts e t x Hok Hx) as (ts' & Hr & Hok' & Hq). exists ts'. split_and!; [done..|].
    intros u n H. apply Z.eqb_neq in H. by apply Hq, not_eq_sym.
  - destruct Hadm as (x & Hrun). by apply (inactive_well ts e Hok _ t x DEAD).
  - destruct Hadm as (x & Hrun). by apply (await_well ts e Hok t x).
  - destruct Hadm as [(x & Hrun) (y & Hy & [Hst%negb_true_iff%bool_decide_eq_false Hc]%andb_true_iff)].
    apply exists_with_true in Hc as (x' & Hx' & Hc). cbn in Hx'.
    assert (x' = x) as -> by (destruct Hrun; congruence). apply (send_well ts e Hok t d x y); [done..|by apply negb_true_iff in Hc].
  - destruct Hadm as (x & Hrun). apply (inactive_well ts e Hok _ t x DEAD); try done. by apply send_unknown_run with x.
  - destruct Hadm as (x & Hrun). by apply (reply_well ts e t x).
  - destruct Hadm as (x & Hrun). apply (inactive_well ts e Hok _ t x AWAITS_SIGNAL_CONTEXT_KILL); try done.
    cbn [perform]. unfold signal_context_kill_pending.
    apply (checked_run (λ x, bool_decide (_state x = ACTIVE)) _ ts e t x); [apply Hrun|by eapply running_active].
  - destruct Hadm as (x & Hx & Hst). by apply (signal_well ts e t x _ (set_user_arg_0 arg) AWAITS_SIGNAL_CONTEXT_KILL).
  - destruct Hadm as (x & Hrun). by apply (inactive_well ts e Hok _ t x AWAITS_SIGNAL).
  - destruct Hadm as (x & Hx & Hst). by apply (signal_well ts e t x _ (λ x, set_utcb (data ++ drop (length data) (_utcb x)) x) AWAITS_SIGNAL).
Qed.

(** ** The kernel as a state machine *)

Definition at_cpu (e : Z) (s : kernel) : kernel := Kernel (threads s) e.

(** Some CPU enters the kernel and performs a call. *)
Inductive step (s : kernel) : kernel → Prop :=
  | step_call e c s' : admissible (at_cpu e s) c = true → perform c (at_cpu e s) = (Ok tt, s') → step s s'.

(** The kernel when it leaves its initialisation. *)
Definition booted (core : id) (cpu : Z) : kernel := (Core_main_thread core cpu (Kernel ∅ cpu)).2.

Definition reachable (s : kernel) : Prop := ∃ core cpu, rtc step (booted core cpu) s.

(** The calls of [cs], each with the CPU that performs it, if all are admissible. *)
Fixpoint execute (cs : list (Z * call)) (s : kernel) : option kernel :=
  match cs with
  | [] => Some s
  | (e, c) :: cs =>
      if admissible (at_cpu e s) c then
        match perform c (at_cpu e s) with (Ok _, s') => execute cs s' | (Err _, _) => None end
      else None
  end.

Lemma execute_steps cs s s' : execute cs s = Some s' → rtc step s s'.
Proof.
  revert s. induction cs as [|[e c] cs IH]; intros s H; cbn in H; [by injection H as ->|].
  destruct (admissible _ _) eqn:Ha; [|done]. destruct (perform _ _) as [[[]|] s1] eqn:Hp; [|done].
  eapply rtc_l; [by eapply step_call|by apply IH].
Qed.

(** A single thread without IPC. *)
Lemma single_queues t x : in_queue x = [] → out_node x = None → queues_ok {[t := x]}.
Proof.
  intros Hq Ho. assert (∀ n y, ({[t := x]} : heap) !! n = Some y → y = x) as H by (by intros n y [_ <-]%lookup_singleton_Some).
  split.
  - intros d y n ->%H Hn. rewrite Hq in Hn. by apply elem_of_nil in Hn.
  - intros n y d ->%H. by rewrite Ho.
  - intros d y ->%H. rewrite Hq. apply NoDup_nil_2.
  - intros n y ->%H. by rewrite Ho.
Qed.

Lemma single_acyclic t x : out_node x = None → acyclic {[t := x]}.
Proof.
  intros Ho n Hn. assert (∀ a b, ¬ helps {[t := x]} a b) as H.
  { intros a b (y & Hy & _ & Hd). apply lookup_singleton_Some in Hy as [_ <-]. congruence. }
  inversion Hn; subst; by eapply H.
Qed.

Lemma booted_ok core cpu : ∃ ts, booted core cpu = Kernel ts cpu ∧ kernel_ok ts.
Proof.
  set (x := Thread IN_READY [] OUT_READY None AWAITS_START false false (Some cpu) (Some core_pd) [] 0). set (ts := {[core := x]} : heap).
  destruct (become_active_run none ts cpu core x) as (ts' & Hr & Hf & Hs & _); auto with kernel.
  { by apply queues_links, single_queues. } { by apply single_acyclic. }
  { intros n _ y Hy. by apply lookup_singleton_Some in Hy as [_ <-]. } { apply lookup_singleton_eq. }
  exists ts'. split.
  - set (x0 := Thread IN_READY [] OUT_READY None AWAITS_START false false None None [] 0).
    assert (new_thread core (Kernel ∅ cpu) = (Ok tt, Kernel (<[core := x0]> ∅) cpu)) as Hn by done.
    unfold booted, Core_main_thread. mrun Hn. mrun (update_run (<[core := x0]> ∅) cpu core x0 (set_cpu (Some cpu)) (lookup_insert_eq _ _ _)).
    rewrite alter_insert_eq.
    mrun (update_run (<[core := set_cpu (Some cpu) x0]> ∅) cpu core _ (set_pd (Some core_pd)) (lookup_insert_eq _ _ _)).
    rewrite alter_insert_eq. change (<[core := _]> ∅) with ts. by rewrite Hr.
  - assert (alter (set_state ACTIVE) core ts = {[core := set_state ACTIVE x]}) as E by (unfold ts; by rewrite alter_singleton_eq).
    rewrite E in Hf. apply (kernel_ok_flagged _ _ Hf); [by apply single_queues| |by apply single_acyclic|done].
    intros n y _ Hy. apply lookup_singleton_Some in Hy as [_ <-]. split; try done; unfold sending, waiting; cbn; naive_solver.
Qed.

Lemma step_ok s s' : kernel_ok (threads s) → step s s' → kernel_ok (threads s').
Proof.
  intros Hok [e c s1 Ha Hp]. destruct (call_well (threads s) e c Hok Ha) as (ts' & Hr & Hok' & _). unfold at_cpu in Hp. rewrite Hr in Hp.
  by injection Hp as <-.
Qed.

Lemma steps_ok s s' : rtc step s s' → kernel_ok (threads s) → kernel_ok (threads s').
Proof. induction 1 as [|s1 s2 s3 H12 _ IH]; [done|]. intros Hok. apply IH. by apply (step_ok s1). Qed.

Lemma reachable_ok s : reachable s → kernel_ok (threads s).
Proof.
  intros (core & cpu & Hr). destruct (booted_ok core cpu) as (ts & E & Hok). rewrite E in Hr. by apply (steps_ok _ _ Hr).
Qed.

Lemma reachable_execute core cpu cs s : execute cs (booted core cpu) = Some s → reachable s.
Proof. intros H. exists core, cpu. by apply execute_steps with cs. Qed.

(** ** Safety *)


(** C6: the bookkeeping of IPC is consistent.  In every reachable state a message is in the
    queue of exactly the thread its sender points to, once; a thread is blocked for IPC
    exactly if it sends or waits, never both; a waiting server has an empty queue, and one
    that has a request to answer has it in front. *)
Theorem ipc_queues s n x :
  reachable s → threads s !! n = Some x →
  NoDup (in_queue x) ∧ (∀ d, out_node x = Some d → is_Some (threads s !! d)) ∧
  (∀ d y, threads s !! d = Some y → n ∈ in_queue y ↔ out_node x = Some d) ∧
  (∀ m, m ∈ in_queue x → is_Some (threads s !! m)) ∧
  (_state x = AWAITS_IPC ↔ sending x = true ∨ waiting x = true) ∧ sending x && waiting x = false ∧
  (sending x = true ↔ out_node x ≠ None) ∧
  (waiting x = true → in_queue x = []) ∧ (in_state x = REPLY → in_queue x ≠ []).
Proof.
  intros Hr Hx. pose proof (reachable_ok s Hr) as Hok. destruct (ok_queues _ Hok) as [H1 H2 H3 _].
  destruct (ok_threads _ Hok n x Hx) as [Hi Ho Hb He _]. split_and!; [by apply (H3 n)| | | |done| | | |].
  - intros d Hd. destruct (H2 n x d Hx Hd) as (y & Hy & _). by eexists.
  - intros d y Hy. split; [intros Hn; destruct (H1 d y n Hy Hn) as (x' & Hx' & Hd); congruence|].
    intros Hd. destruct (H2 n x d Hx Hd) as (y' & Hy' & Hn). congruence.
  - intros m Hm. destruct (H1 n x m Hx Hm) as (y & Hy & _). by eexists.
  - destruct (sending x) eqn:Hs; [|done]. by destruct (He eq_refl) as [-> _].
  - destruct Ho as [_ Ho]. by rewrite Ho.
  - intros Hw. unfold waiting in Hw. apply bool_decide_eq_true in Hw. by rewrite Hw in Hi.
  - intros E. by rewrite E in Hi.
Qed.

(** C7: the end of a server is reported.  Destructing a thread of a reachable state succeeds,
    whatever the thread does, and every client in its queue, being served or not, becomes
    active with the return value -1 and can send again. *)
Theorem server_deleted s e t x :
  reachable s → threads s !! t = Some x →
  ∃ s', destruct_thread t (at_cpu e s) = (Ok tt, s') ∧ threads s' !! t = None ∧
    ∀ n, n ∈ in_queue x → ∃ y, threads s' !! n = Some y ∧ _state y = ACTIVE ∧ user_arg_0 y = -1 ∧ ready_to_send y = true.
Proof.
  intros Hr Hx. pose proof (reachable_ok s Hr) as Hok.
  destruct (destruct_ok (threads s) e t x Hok Hx) as (ts' & Hp & Hok' & Hn & _ & Hc & _). exists (Kernel ts' e). split_and!; [done..|].
  intros n Hin. destruct (Hc n Hin) as (y & Hy). eexists. split_and!; [exact Hy|done|done|].
  destruct (ok_threads _ Hok' n _ Hy) as [_ _ Hb _ _]. unfold ready_to_send. cbn [out_state cancelled compose set_out_state].
  rewrite bool_decide_eq_true_2 by done. cbn [andb]. apply negb_true_iff, not_true_iff_false. intros Hw. cbn in Hb. naive_solver.
Qed.

(** ** Progress of clients *)

Definition spares (t n : id) (c : call) : bool :=
  match c with
  | Delete_thread _ u _ | Execute_destroy _ u => negb ((u =? t) || (u =? n))
  | Cancel_blocking u => negb (u =? n)
  | _ => true
  end.

(** The call takes the kernel from [s] to [s'] and answers the request of [n] with the
    message of [t]. *)
Definition answers (t n : id) (s s' : kernel) : Prop :=
  ∃ x y, threads s !! t = Some x ∧ in_state x = REPLY ∧ list.head (in_queue x) = Some n ∧
    threads s' !! n = Some y ∧ _state y = ACTIVE ∧ sending y = false ∧ user_arg_0 y = 0 ∧ _utcb y = _utcb x.

Definition is_reply (t : id) (c : Z * call) : bool := bool_decide (c.2 = Send_reply_msg t true).

Lemma reply_answers ts e t x n aw s' :
  kernel_ok ts → running ts e t x → in_state x = REPLY → list.head (in_queue x) = Some n →
  perform (Send_reply_msg t aw) (Kernel ts e) = (Ok tt, s') → answers t n (Kernel ts e) s'.
Proof.
  intros Hok Hrun Hi Hn Hp. destruct (reply_call_run ts e t x Hok Hrun) as (ts1 & x1 & Hr1 & Hf1 & Hok1 & Hrun1 & Hi1 & _).
  destruct (in_queue x) as [|i q] eqn:Hq; [done|]. injection Hn as ->. pose proof Hrun as (Hx & _).
  destruct (queue_item _ (ok_queues _ Hok) t x n Hx) as (y & Hy & Hoy); [rewrite Hq; constructor|].
  assert (n ≠ t) as Hnt by (intros ->; by apply (queue_self _ (ok_queues _ Hok) t y)).
  destruct (flagged_some _ ts1 n (answered (_utcb x) y) Hf1) as [b Hy1].
  { unfold after_reply. rewrite Hi, Hq. unfold replied. by rewrite lookup_alter_ne, lookup_alter_eq, lookup_alter_ne, Hy by done. }
  exists x. cut (∃ b', threads s' !! n = Some (set_active b' (answered (_utcb x) y))).
  { intros [b' Hb']. eexists. split_and!; [done|done|by rewrite Hq|exact Hb'|done..]. }
  cbn [perform] in Hp. unfold _call_send_reply_msg in Hp. rewrite (bind_ok _ _ _ _ _ Hr1) in Hp. destruct aw.
  - destruct (await_ok ts1 e t x1 Hok1 Hrun1) as (ts2 & Hr2 & Hf2 & _). rewrite Hr2 in Hp. injection Hp as <-.
    destruct (flagged_some _ ts2 n (set_active b (answered (_utcb x) y)) Hf2) as [b' Hb']; [|by exists b'].
    unfold awaited. destruct (ready_to_wait x1); [|by rewrite lookup_alter_ne]. destruct (in_queue x1) as [|j q']; [by rewrite lookup_alter_ne|].
    destruct (ts1 !! j); [by rewrite lookup_alter_ne|done].
  - rewrite (update_run ts1 e t x1) in Hp by apply Hrun1. injection Hp as <-. exists b. cbn. by rewrite lookup_alter_ne.
Qed.

Lemma reply_ahead ts e t x n aw k :
  kernel_ok ts → running ts e t x → ahead k n x → (in_state x = REPLY → list.head (in_queue x) ≠ Some n) →
  ∃ ts' x', perform (Send_reply_msg t aw) (Kernel ts e) = (Ok tt, Kernel ts' e) ∧ ts' !! t = Some x' ∧
    if aw then ∃ k', k = S k' ∧ ahead k' n x' else ahead k n x'.
Proof.
  intros Hok Hrun (j & Hj & Hk) Hno. destruct (reply_call_run ts e t x Hok Hrun) as (ts1 & x1 & Hr1 & Hf1 & Hok1 & Hrun1 & Hi1 & Eq1).
  assert (∃ j1, in_queue x1 !! j1 = Some n ∧ (S j1 ≤ k)%nat) as (j1 & Hj1 & Hk1).
  { rewrite Eq1. destruct (decide (in_state x = REPLY)) as [Hi|]; [|exists j; split; [done|lia]].
    specialize (Hno Hi). destruct (in_queue x) as [|i q]; [done|]. destruct j as [|j]; [by simpl in *; congruence|]. exists j. split; [done|lia]. }
  cbn [perform]. unfold _call_send_reply_msg. destruct aw.
  - destruct (await_ok ts1 e t x1 Hok1 Hrun1) as (ts2 & Hr2 & Hf2 & _). unfold awaited in Hf2.
    unfold ready_to_wait in Hf2. rewrite Hi1, bool_decide_eq_true_2 in Hf2 by done.
    destruct (in_queue x1) as [|i q] eqn:Hq; [done|].
    destruct (queue_item _ (ok_queues _ Hok1) t x1 i) as (y & Hy & _); [apply Hrun1|rewrite Hq; constructor|]. rewrite Hy in Hf2.
    destruct (flagged_some _ ts2 t ((set_user_arg_0 0 ∘ set_in_state REPLY ∘ set_utcb (_utcb y)) x1) Hf2) as [b Hb].
    { destruct Hrun1 as (Hx1 & _). by rewrite lookup_alter_eq, Hx1. }
    exists ts2. eexists. split_and!; [by mrun Hr1|exact Hb|]. exists (pred k). split; [lia|]. exists j1. split; [by rewrite <- Hq in Hj1|]. cbn.
    destruct (decide (REPLY = REPLY)); [lia|done].
  - exists (alter (set_user_arg_0 0) t ts1), (set_user_arg_0 0 x1). destruct Hrun1 as (Hx1 & _).
    split_and!; [mrun Hr1; by apply update_run with x1|by rewrite lookup_alter_eq, Hx1|]. exists j1. split; [done|]. cbn. rewrite Hi1.
    destruct (decide (IN_READY = REPLY)); [done|lia].
Qed.

(** C5: clients are served.  Take any reachable state with the message of [n] at position [k]
    in the queue of [t], and any admissible calls from there that neither delete [t] or [n]
    nor cancel the request.  If [t] answers with the wish for a further request more than
    [k] times among them - once more if it has not taken its current request yet -, one of
    the answers of [t] goes to [n]: it hands the message of [t] over and makes [n] active
    again. *)
Theorem client_answered s s' cs t n x k :
  reachable s → threads s !! t = Some x → in_queue x !! k = Some n →
  execute cs s = Some s' → Forall (λ c, spares t n c.2 = true) cs →
  (k + (if decide (in_state x = REPLY) then 0 else 1) < length (filter (λ c, is_reply t c = true) cs))%nat →
  ∃ cs1 e aw cs2 s1 s2,
    cs = cs1 ++ (e, Send_reply_msg t aw) :: cs2 ∧ execute cs1 s = Some s1 ∧
    perform (Send_reply_msg t aw) (at_cpu e s1) = (Ok tt, s2) ∧ answers t n s1 s2 ∧ execute cs2 s2 = Some s'.
Proof.
  intros Hr Hx Hk Hex Hsp Hlen. pose proof (reachable_ok s Hr) as Hok. clear Hr.
  set (m := (k + (if decide (in_state x = REPLY) then 0 else 1))%nat) in Hlen. assert (ahead m n x) as Ha by (by exists k).
  clear Hk. clearbody m. rename Hlen into Hl. revert m s x Hok Hx Hex Ha Hl.
  induction cs as [|[e c] cs IH]; intros m s x Hok Hx Hex Ha Hl; [simpl in Hl; lia|].
  apply Forall_cons in Hsp as [Hc Hsp]. cbn [execute] in Hex.
  destruct (admissible (at_cpu e s) c) eqn:Hadm; [|done].
  destruct (call_well (threads s) e c Hok Hadm) as (ts1 & Hp & Hok1 & Hq). fold (at_cpu e s) in Hp. rewrite Hp in Hex.
  assert (∀ m' x1, ts1 !! t = Some x1 → ahead m' n x1 → (m' < length (filter (λ c, is_reply t c = true) cs))%nat →
    ∃ cs1 e' aw cs2 s1 s2, (e, c) :: cs = cs1 ++ (e', Send_reply_msg t aw) :: cs2 ∧ execute cs1 s = Some s1 ∧
    perform (Send_reply_msg t aw) (at_cpu e' s1) = (Ok tt, s2) ∧ answers t n s1 s2 ∧ execute cs2 s2 = Some s') as Hlater.
  { intros m' x1 Hx1 Ha1 Hl1. destruct (IH Hsp m' (Kernel ts1 e) x1) as (cs1 & e' & aw & cs2 & s1 & s2 & -> & He & ?); try done.
    exists ((e, c) :: cs1), e', aw, cs2, s1, s2. split; [done|]. split; [|done]. cbn [execute]. by rewrite Hadm, Hp. }
  destruct (disturbs t n c) eqn:Hd.
  - assert (∃ aw, c = Send_reply_msg t aw) as [aw ->].
    { cbn [snd] in Hc. destruct c; cbn in Hd, Hc; try done; try (by rewrite Hd in Hc). apply Z.eqb_eq in Hd as ->. eauto. }
    cbn [admissible] in Hadm. apply executes_true in Hadm as [x' Hrun]. assert (x' = x) as -> by (destruct Hrun; congruence).
    destruct (decide (in_state x = REPLY ∧ list.head (in_queue x) = Some n)) as [[Hi Hn]|Hno].
    + exists [], e, aw, cs, s, (Kernel ts1 e). split_and!; [done|done|done| |done].
      apply (reply_answers (threads s) e t x n aw) in Hp; done.
    + destruct (reply_ahead (threads s) e t x n aw m Hok Hrun Ha) as (ts2 & x2 & Hp2 & Hx2 & Ha2); [tauto|].
      fold (at_cpu e s) in Hp2. assert (ts2 = ts1) as -> by congruence.
      unfold is_reply in Hl. rewrite filter_cons in Hl. cbn [snd] in Hl. destruct aw.
      * destruct Ha2 as (m' & -> & Ha2). apply (Hlater m' x2); [done|done|]. rewrite decide_True in Hl by (by apply bool_decide_eq_true).
        simpl in Hl. unfold is_reply. lia.
      * apply (Hlater m x2); [done|done|]. by rewrite decide_False in Hl by (by rewrite bool_decide_eq_true).
  - destruct (Hq t n Hd m x Hx Ha) as (x1 & Hx1 & Ha1). apply (Hlater m x1); [done|done|].
    rewrite filter_cons, decide_False in Hl; [done|]. unfold is_reply. rewrite bool_decide_eq_true. cbn. intros ->.
    cbn in Hd. by rewrite Z.eqb_refl in Hd.
Qed.

(** ** A server and its clients on two CPUs *)

(** A server 2 and a client 3 on CPU 0, a client 4 on CPU 1. *)
Definition demo_threads : list (Z * call) :=
  [(0, New_thread 2); (0, Start_thread 1 2 (Some 0) (Some 1)); (0, New_thread 3); (0, Start_thread 1 3 (Some 0) (Some 1));
   (0, New_thread 4); (0, Start_thread 1 4 (Some 1) (Some 2)); (0, Await_request_msg 2)].

Definition demo_idle : kernel := default (booted 1 0) (execute demo_threads (booted 1 0)).

Definition demo_requests : list (Z * call) := [(0, Send_request_msg 3 (Some 2)); (1, Send_request_msg 4 (Some 2))].

Definition demo : kernel := default demo_idle (execute demo_requests demo_idle).

Definition demo_server : thread := Thread REPLY [3; 4] OUT_READY None ACTIVE false true (Some 0) (Some 1) [] 0.

Lemma demo_idle_reachable : reachable demo_idle.
Proof. apply (reachable_execute 1 0 demo_threads). vm_compute. reflexivity. Qed.

Lemma demo_reachable : reachable demo.
Proof. apply (reachable_execute 1 0 (demo_threads ++ demo_requests)). vm_compute. reflexivity. Qed.


Theorem ipc_queues_witness :
  reachable demo ∧ threads demo !! 2 = Some demo_server ∧ NoDup [3; 4] ∧ is_Some (threads demo !! 4).
Proof.
  assert (threads demo !! 2 = Some demo_server) as Hx by (vm_compute; reflexivity).
  destruct (ipc_queues demo 2 demo_server demo_reachable Hx) as (Hnd & _ & _ & Hm & _).
  split; [exact demo_reachable|]. split; [exact Hx|]. split; [exact Hnd|]. apply Hm. repeat constructor.
Defined.

Theorem server_deleted_witness :
  reachable demo ∧ threads demo !! 2 = Some demo_server ∧
  ∃ s', destruct_thread 2 (at_cpu 0 demo) = (Ok tt, s') ∧
    ∃ y, threads s' !! 4 = Some y ∧ _state y = ACTIVE ∧ user_arg_0 y = -1.
Proof.
  assert (threads demo !! 2 = Some demo_server) as Hx by (vm_compute; reflexivity).
  split; [exact demo_reachable|]. split; [exact Hx|].
  destruct (server_deleted demo 0 2 demo_server demo_reachable Hx) as (s' & Hp & _ & Hc). exists s'. split; [exact Hp|].
  destruct (Hc 4) as (y & Hy & Hs & Ha & _); [repeat constructor|]. exists y. split; [exact Hy|]. split; [exact Hs|exact Ha].
Defined.

Theorem client_answered_witness :
  reachable demo ∧ threads demo !! 2 = Some demo_server ∧
  ∃ cs1 e aw cs2 s1 s2,
    [(0, Send_reply_msg 2 true); (0, New_thread 5); (0, Send_reply_msg 2 true)] = cs1 ++ (e, Send_reply_msg 2 aw) :: cs2 ∧
    execute cs1 demo = Some s1 ∧ perform (Send_reply_msg 2 aw) (at_cpu e s1) = (Ok tt, s2) ∧ answers 2 4 s1 s2.
Proof.
  set (cs := [(0, Send_reply_msg 2 true); (0, New_thread 5); (0, Send_reply_msg 2 true)]).
  assert (threads demo !! 2 = Some demo_server) as Hx by (vm_compute; reflexivity).
  split; [exact demo_reachable|]. split; [exact Hx|].
  destruct (execute cs demo) as [s'|] eqn:He; [|vm_compute in He; discriminate He].
  destruct (client_answered demo s' cs 2 4 demo_server 1 demo_reachable Hx) as (cs1 & e & aw & cs2 & s1 & s2 & H1 & H2 & H3 & H4 & _).
  - reflexivity.
  - exact He.
  - repeat constructor.
  - vm_compute. lia.
  - exists cs1, e, aw, cs2, s1, s2. split; [exact H1|]. split; [exact H2|]. split; [exact H3|exact H4].
Defined.

(** ** Without the guarantees *)

(** A thread that sends a request to itself: the call succeeds and its share stays active,
    but the search for the thread to execute in its place never ends. *)
Lemma self_request_diverges :
  ∃ s' x, executes (at_cpu 0 demo_idle) 3 = true ∧
    perform (Send_request_msg 3 (Some 3)) (at_cpu 0 demo_idle) = (Ok tt, s') ∧
    threads s' !! 3 = Some x ∧ own_share_active x = true ∧
    ∀ fuel, (helping_destination_loop fuel 3 s').1 = Err Out_of_fuel.
Proof.
  set (s' := (perform (Send_request_msg 3 (Some 3)) (at_cpu 0 demo_idle)).2).
  set (x := Thread IN_READY [3] SEND_HELPING (Some 3) AWAITS_IPC false true (Some 0) (Some 1) [] 0).
  assert (get 3 s' = (Ok x, s')) as Hg by (vm_compute; reflexivity).
  exists s', x. split_and!; [vm_compute; reflexivity..|]. clearbody s'. intros fuel. induction fuel as [|fuel IH]; [done|].
  cbn [helping_destination_loop]. mrun Hg. exact IH.
Qed.

(** Two threads on one CPU that send requests to each other. *)
Lemma mutual_requests_diverge :
  ∃ s1 s2, reachable s1 ∧ executes (at_cpu 0 s1) 2 = true ∧
    perform (Send_request_msg 2 (Some 3)) (at_cpu 0 s1) = (Ok tt, s2) ∧
    ∀ fuel, (helping_destination_loop fuel 2 s2).1 = Err Out_of_fuel.
Proof.
  set (s1 := demo). set (s2 := (perform (Send_request_msg 2 (Some 3)) (at_cpu 0 s1)).2).
  exists s1, s2. split_and!; [apply demo_reachable|vm_compute; reflexivity..|].
  set (x := Thread REPLY [3; 4] SEND_HELPING (Some 3) AWAITS_IPC false true (Some 0) (Some 1) [] 0).
  set (y := Thread IN_READY [2] SEND_HELPING (Some 2) AWAITS_IPC false true (Some 0) (Some 1) [] 0).
  assert (get 2 s2 = (Ok x, s2)) as Hx by (vm_compute; reflexivity).
  assert (get 3 s2 = (Ok y, s2)) as Hy by (vm_compute; reflexivity).
  clearbody s2. intros fuel. cut ((helping_destination_loop fuel 2 s2).1 = Err Out_of_fuel ∧ (helping_destination_loop fuel 3 s2).1 = Err Out_of_fuel); [tauto|].
  induction fuel as [|fuel [IH1 IH2]]; [done|]. cbn [helping_destination_loop]. split; [by mrun Hx|by mrun Hy].
Qed.

(** A client is paused while it waits for its answer; the answer makes it run again, and
    to resume it fails. *)
Lemma paused_client_runs :
  ∃ s1 s2 x, perform (Pause_thread 4) (at_cpu 1 demo) = (Ok tt, s1) ∧
    execute [(0, Send_reply_msg 2 true); (0, Send_reply_msg 2 true)] s1 = Some s2 ∧
    threads s2 !! 4 = Some x ∧ _paused x = true ∧ own_share_active x = true ∧
    (perform (Resume_thread 4) (at_cpu 1 s2)).1 = Err Assertion.
Proof.
  set (s1 := (perform (Pause_thread 4) (at_cpu 1 demo)).2).
  set (s2 := default s1 (execute [(0, Send_reply_msg 2 true); (0, Send_reply_msg 2 true)] s1)).
  exists s1, s2, (Thread IN_READY [] OUT_READY None ACTIVE true true (Some 1) (Some 2) [] 0). split_and!; vm_compute; reflexivity.
Qed.

(** A runnable thread of another CPU is paused. *)
Lemma pause_across_cpus :
  (∃ x, threads demo_idle !! 4 = Some x ∧ runnable x = true ∧ _cpu x = Some 1) ∧
  (perform (Pause_thread 4) (at_cpu 0 demo_idle)).1 = Err Assertion.
Proof.
  split; [|vm_compute; reflexivity]. exists (Thread IN_READY [] OUT_READY None ACTIVE false true (Some 1) (Some 2) [] 0).
  split_and!; vm_compute; reflexivity.
Qed.

(** A request to a thread that has been created but not started: the kernel stops in
    [pd()] of the destination. *)
Lemma request_before_start :
  ∃ s1, execute [(0, New_thread 5)] demo_idle = Some s1 ∧ executes (at_cpu 0 s1) 3 = true ∧
    in_state_of AWAITS_START s1 5 = true ∧ helps_finally s1 5 3 = false ∧
    (perform (Send_request_msg 3 (Some 5)) (at_cpu 0 s1)).1 = Err Assertion.
Proof.
  set (s1 := default demo_idle (execute [(0, New_thread 5)] demo_idle)). exists s1. split_and!; vm_compute; reflexivity.
Qed.
