(* ===== verification/Signal.v ===== *)
(** * Signal: asynchronous notifications of the kernel

    Model of [src/repos/base-hw/src/core/kernel/signal_receiver.h] and
    [signal_receiver.cc] and of the kernel calls of [thread.cc] on signals.  Contexts and
    receivers are objects in stores; the signal handler and the context killer that are
    embedded in each thread are the [client] of the thread's identity.  A queue is the
    sequence [Fifo] refines, and an element is enqueued exactly if it is in the one queue
    that its link serves.  What a thread does when the signal objects block it, hand it a
    signal or report the end of a context is the interface [Thread_ops]; [Signal_threads]
    gives the threads of [Kernel_thread] as an instance.  An operation is [None] if it
    accesses an object that does not exist, if the thread refuses, or if a loop does not
    end. *)

From S2P Require Import Prelude Fifo.

(** ** What signals need of threads *)

(** The callbacks of [Thread], its return register, its state and its creation and
    destruction. *)
Class Thread_ops (T : Type) := {
  construct_thread : id → T → option T;
  destruct_thread : id → T → option T;
  user_arg_0 : Z → id → T → option T;
  _die : id → T → option T;
  await_restart : id → T → option T;
  signal_wait_for_signal : id → T → option T;
  signal_receive_signal : Z → Z → id → T → option T;
  signal_context_kill_pending : id → T → option T;
  signal_context_kill_done : id → T → option T;
  signal_context_kill_failed : id → T → option T;
  awaits_signal : T → id → bool;
  resume_from_signal : id → T → option T }.

(** ** The objects *)

(** [Signal_handler], [Signal_context_killer] and the flag of the thread *)
Record client := Client { h_receiver : option id; k_context : option id; _cancel_next_await_signal : bool }.

(** [Signal_context] *)
Record context := Context {
  c_receiver : id; _imprint : Z; _killer : option id; _submits : Z; _ack : bool; _killed : bool }.

(** [Signal_receiver] *)
Record receiver := Receiver { _handlers : list id; _deliver : list id; _contexts : list id }.

Definition set_h_receiver (v : option id) (h : client) : client := Client v (k_context h) (_cancel_next_await_signal h).
Definition set_k_context (v : option id) (h : client) : client := Client (h_receiver h) v (_cancel_next_await_signal h).
Definition set_cancel_next (v : bool) (h : client) : client := Client (h_receiver h) (k_context h) v.
Definition set_killer (v : option id) (x : context) : context := Context (c_receiver x) (_imprint x) v (_submits x) (_ack x) (_killed x).
Definition set_submits (v : Z) (x : context) : context := Context (c_receiver x) (_imprint x) (_killer x) v (_ack x) (_killed x).
Definition set_ack (v : bool) (x : context) : context := Context (c_receiver x) (_imprint x) (_killer x) (_submits x) v (_killed x).
Definition set_killed (v : bool) (x : context) : context := Context (c_receiver x) (_imprint x) (_killer x) (_submits x) (_ack x) v.
Definition set_handlers (v : list id) (r : receiver) : receiver := Receiver v (_deliver r) (_contexts r).
Definition set_deliver (v : list id) (r : receiver) : receiver := Receiver (_handlers r) v (_contexts r).
Definition set_contexts (v : list id) (r : receiver) : receiver := Receiver (_handlers r) (_deliver r) v.

Record system (T : Type) := System {
  threads : T; clients : gmap id client; contexts : gmap id context; receivers : gmap id receiver }.
Arguments System {T}.
Arguments threads {T}.
Arguments clients {T}.
Arguments contexts {T}.
Arguments receivers {T}.

Section Signal.
Context {T : Type} `{Thread_ops T}.

Local Abbreviation op := (system T → option (system T)).

Definition on_threads (f : T → option T) : op := fun s =>
  t ← f (threads s); Some (System t (clients s) (contexts s) (receivers s)).
Definition on_client (t : id) (f : client → client) : op := fun s =>
  _ ← clients s !! t; Some (System (threads s) (alter f t (clients s)) (contexts s) (receivers s)).
Definition on_context (c : id) (f : context → context) : op := fun s =>
  _ ← contexts s !! c; Some (System (threads s) (clients s) (alter f c (contexts s)) (receivers s)).
Definition on_receiver (r : id) (f : receiver → receiver) : op := fun s =>
  _ ← receivers s !! r; Some (System (threads s) (clients s) (contexts s) (alter f r (receivers s))).

(** ** [Signal_receiver] *)

Definition _handler_cancelled (r t : id) : op := on_receiver r (λ x, set_handlers (Seq.remove t (_handlers x)) x).

(** [Signal_context::_delivered] *)
Definition _delivered (c : id) : op := on_context c (set_ack false ∘ set_submits 0).

Fixpoint listen_loop (fuel : nat) (r : id) : op := fun s =>
  match fuel with
  | O => None
  | S fuel =>
      x ← receivers s !! r;
      match _deliver x, _handlers x with
      | c :: deliver, t :: handlers =>
          s ← on_receiver r (set_deliver deliver) s;
          y ← contexts s !! c;
          s ← on_receiver r (set_handlers handlers) s;
          s ← on_client t (set_h_receiver None) s;
          s ← on_threads (signal_receive_signal (_imprint y) (_submits y) t) s;
          s ← _delivered c s;
          listen_loop fuel r s
      | _, _ => Some s
      end
  end.

Definition _listen (r : id) : op := fun s => x ← receivers s !! r; listen_loop (S (length (_deliver x))) r s.

Definition _add_deliverable (r c : id) : op := fun s =>
  x ← receivers s !! r;
  s ← (if decide (c ∈ _deliver x) then Some s
       else on_receiver r (λ x, set_deliver (Seq.enqueue c (_deliver x)) x) s);
  _listen r s.

Definition _context_destructed (r c : id) : op := fun s =>
  s ← on_receiver r (λ x, set_contexts (Seq.remove c (_contexts x)) x) s;
  x ← receivers s !! r;
  if decide (c ∈ _deliver x) then on_receiver r (λ x, set_deliver (Seq.remove c (_deliver x)) x) s else Some s.

Definition _add_context (r c : id) : op := on_receiver r (λ x, set_contexts (Seq.enqueue c (_contexts x)) x).

Definition can_add_handler (t : id) (s : system T) : option bool :=
  h ← clients s !! t; Some (bool_decide (h_receiver h = None)).

Definition add_handler (r t : id) : op := fun s =>
  h ← clients s !! t;
  match h_receiver h with
  | Some _ => Some s
  | None =>
      s ← on_receiver r (λ x, set_handlers (Seq.enqueue t (_handlers x)) x) s;
      s ← on_client t (set_h_receiver (Some r)) s;
      s ← on_threads (signal_wait_for_signal t) s;
      _listen r s
  end.

(** ** [Signal_context] *)

Definition _deliverable (c : id) : op := fun s =>
  x ← contexts s !! c;
  if _submits x =? 0 then Some s else _add_deliverable (c_receiver x) c s.

Definition _killer_cancelled (c : id) : op := on_context c (set_killer None).

(** [_killed || _submits >= (unsigned)~0 - n] *)
Definition refuses (n : Z) (x : context) : bool := _killed x || (u32 (u32 (Z.lnot 0) - n) <=? _submits x).

Definition can_submit (n : Z) (x : context) : bool := if refuses n x then false else true.

Definition submit (n c : id) : op := fun s =>
  x ← contexts s !! c;
  if refuses n x then Some s
  else
    s ← on_context c (λ x, set_submits (u32 (_submits x + n)) x) s;
    if _ack x then _deliverable c s else Some s.

Definition ack (c : id) : op := fun s =>
  x ← contexts s !! c;
  if _ack x then Some s
  else if negb (_killed x) then
    s ← on_context c (set_ack true) s;
    _deliverable c s
  else
    match _killer x with
    | None => Some s
    | Some t =>
        s ← on_client t (set_k_context None) s;
        s ← on_threads (signal_context_kill_done t) s;
        on_context c (set_killer None) s
    end.

Definition can_kill (x : context) : bool := if _killed x then _ack x else true.

Definition kill (t c : id) : op := fun s =>
  x ← contexts s !! c;
  if _killed x then Some s
  else if _ack x then on_context c (set_killed true) s
  else
    s ← on_context c (set_killed true ∘ set_killer (Some t)) s;
    s ← on_client t (set_k_context (Some c)) s;
    on_threads (signal_context_kill_pending t) s.

(** [Signal_context::Signal_context] *)
Definition new_context (c r imprint : Z) : op := fun s =>
  _add_context r c
    (System (threads s) (clients s) (<[c := Context r imprint None 0 true false]> (contexts s)) (receivers s)).

(** [~Signal_context] *)
Definition destruct_context (c : id) : op := fun s =>
  x ← contexts s !! c;
  s ← match _killer x with None => Some s | Some t => on_threads (signal_context_kill_failed t) s end;
  s ← _context_destructed (c_receiver x) c s;
  Some (System (threads s) (clients s) (base.delete c (contexts s)) (receivers s)).

Definition new_receiver (r : id) : op := fun s =>
  Some (System (threads s) (clients s) (contexts s) (<[r := Receiver [] [] []]> (receivers s))).

Fixpoint dequeue_contexts (fuel : nat) (r : id) : op := fun s =>
  x ← receivers s !! r;
  match _contexts x, fuel with
  | [], _ => Some s
  | _ :: _, O => None
  | c :: q, S fuel => s ← on_receiver r (set_contexts q) s; s ← destruct_context c s; dequeue_contexts fuel r s
  end.

(** [~Signal_receiver] *)
Definition destruct_receiver (r : id) : op := fun s =>
  x ← receivers s !! r;
  s ← dequeue_contexts (length (_contexts x)) r s;
  Some (System (threads s) (clients s) (contexts s) (base.delete r (receivers s))).

(** ** The parts embedded in a thread *)

(** [Signal_handler::cancel_waiting] *)
Definition handler_cancel_waiting (t : id) : op := fun s =>
  h ← clients s !! t;
  match h_receiver h with
  | None => Some s
  | Some r => s ← _handler_cancelled r t s; on_client t (set_h_receiver None) s
  end.

(** [Signal_context_killer::cancel_waiting] *)
Definition killer_cancel_waiting (t : id) : op := fun s =>
  h ← clients s !! t;
  match k_context h with None => Some s | Some c => _killer_cancelled c s end.

(** The constructor and the destructor of a thread, with those of its handler and its
    killer, in the reverse order of their declaration. *)
Definition new_thread (t : id) : op := fun s =>
  s ← on_threads (construct_thread t) s;
  Some (System (threads s) (<[t := Client None None false]> (clients s)) (contexts s) (receivers s)).

Definition delete_thread (t : id) : op := fun s =>
  s ← killer_cancel_waiting t s;
  s ← handler_cancel_waiting t s;
  s ← on_threads (destruct_thread t) s;
  Some (System (threads s) (base.delete t (clients s)) (contexts s) (receivers s)).

(** The part of [Thread::_cancel_blocking] for a thread that awaits a signal. *)
Definition cancel_blocking (t : id) : op := fun s =>
  s ← handler_cancel_waiting t s; on_threads (resume_from_signal t) s.

(** ** Kernel calls; [r] and [c] are what the lookup of a capability yields *)

Definition return_value (v : Z) (t : id) : op := on_threads (user_arg_0 v t).

Definition _call_await_signal (t : id) (r : option id) : op := fun s =>
  h ← clients s !! t;
  if _cancel_next_await_signal h then
    s ← return_value (-1) t s; on_client t (set_cancel_next false) s
  else
    match r with
    | None => return_value (-1) t s
    | Some r =>
        can ← can_add_handler t s;
        if negb can then return_value (-1) t s
        else s ← add_handler r t s; return_value 0 t s
    end.

Definition _call_pending_signal (t : id) (r : option id) : op := fun s =>
  match r with
  | None => return_value (-1) t s
  | Some r =>
      can ← can_add_handler t s;
      if negb can then return_value (-1) t s
      else
        s ← add_handler r t s;
        if awaits_signal (threads s) t then s ← cancel_blocking t s; return_value (-1) t s
        else return_value 0 t s
  end.

Definition _call_cancel_next_await_signal (t : id) (u : option id) : op := fun s =>
  match u with
  | None => on_threads (_die t) s
  | Some u => if awaits_signal (threads s) u then cancel_blocking u s else on_client u (set_cancel_next true) s
  end.

Definition _call_submit_signal (t : id) (c : option id) (n : Z) : op := fun s =>
  match c with
  | None => return_value (-1) t s
  | Some c =>
      x ← contexts s !! c;
      if negb (can_submit n x) then return_value (-1) t s
      else s ← submit n c s; return_value 0 t s
  end.

Definition _call_ack_signal (c : option id) : op := fun s => match c with None => Some s | Some c => ack c s end.

Definition _call_kill_signal_context (t : id) (c : option id) : op := fun s =>
  match c with
  | None => return_value (-1) t s
  | Some c =>
      x ← contexts s !! c;
      if negb (can_kill x) then return_value (-1) t s else kill t c s
  end.

(** ** Submits of the kernel itself *)

(** [User_irq::occurred], without the masking of the interrupt *)
Definition occurred (c : id) : op := fun s => x ← contexts s !! c; if can_submit 1 x then submit 1 c s else Some s.

(** [Thread::timeout_triggered] *)
Definition timeout_triggered (c : option id) : op := fun s =>
  match c with
  | None => Some s
  | Some c => x ← contexts s !! c; if negb (can_submit 1 x) then Some s else submit 1 c s
  end.

(** [Thread::_mmu_exception] of [t] with the pager [p]; the decoding of the fault by the
    CPU is the argument [unknown]. *)
Definition _mmu_exception (t : id) (p : option id) (unknown : bool) : op := fun s =>
  s ← on_threads (await_restart t) s;
  if unknown then Some s
  else match p with
       | None => Some s
       | Some c => x ← contexts s !! c; if can_submit 1 x then submit 1 c s else Some s
       end.

End Signal.
