(* ===== verification/Signal_inv.v ===== *)
(** * Signal_inv: what signals rely on and what they keep

    [Thread_laws] states what the signal objects rely on at the interface to threads;
    [Signal_threads] discharges it for the threads of the kernel.  On top of it, the
    invariant of contexts, receivers, handlers and killers and the effect of each
    operation. *)

From S2P Require Import Prelude Fifo Signal.

(** ** What signals rely on *)

(** Why a thread does not run, as far as signals are concerned. *)
Inductive status := Free | In_signal | In_kill.

#[export] Instance status_eq_dec : EqDecision status.
Proof. solve_decision. Defined.

Class Thread_view (T : Type) := {
  thread_ok : T → Prop;
  status_of : T → id → option status;
  executes : T → id → bool;
  thread_step : T → T → Prop }.

(** [t] goes to the status [st], and nothing else happens as far as signals see. *)
Definition moves {T} `{Thread_view T} (ts ts' : T) (t : id) (st : option status) : Prop :=
  thread_ok ts' ∧ ∀ u, status_of ts' u = if decide (u = t) then st else status_of ts u.

Class Thread_laws (T : Type) `{Thread_ops T, Thread_view T} : Prop := {
  law_construct ts t : thread_ok ts → status_of ts t = None → ∃ ts', construct_thread t ts = Some ts' ∧ moves ts ts' t (Some Free);
  law_destruct ts t : thread_ok ts → is_Some (status_of ts t) → ∃ ts', destruct_thread t ts = Some ts' ∧ moves ts ts' t None;
  law_return ts t v : thread_ok ts → is_Some (status_of ts t) →
    ∃ ts', user_arg_0 v t ts = Some ts' ∧ moves ts ts' t (status_of ts t);
  law_die ts t : thread_ok ts → executes ts t = true → ∃ ts', _die t ts = Some ts' ∧ moves ts ts' t (Some Free);
  law_restart ts t : thread_ok ts → executes ts t = true → ∃ ts', await_restart t ts = Some ts' ∧ moves ts ts' t (Some Free);
  law_wait ts t : thread_ok ts → executes ts t = true → ∃ ts', signal_wait_for_signal t ts = Some ts' ∧ moves ts ts' t (Some In_signal);
  law_receive ts t i n : thread_ok ts → status_of ts t = Some In_signal →
    ∃ ts', signal_receive_signal i n t ts = Some ts' ∧ moves ts ts' t (Some Free);
  law_pending ts t : thread_ok ts → executes ts t = true →
    ∃ ts', signal_context_kill_pending t ts = Some ts' ∧ moves ts ts' t (Some In_kill);
  law_done ts t : thread_ok ts → status_of ts t = Some In_kill →
    ∃ ts', signal_context_kill_done t ts = Some ts' ∧ moves ts ts' t (Some Free);
  law_failed ts t : thread_ok ts → status_of ts t = Some In_kill →
    ∃ ts', signal_context_kill_failed t ts = Some ts' ∧ moves ts ts' t (Some Free);
  law_resume ts t : thread_ok ts → status_of ts t = Some In_signal →
    ∃ ts', resume_from_signal t ts = Some ts' ∧ moves ts ts' t (Some Free);
  law_awaits ts t : thread_ok ts → awaits_signal ts t = bool_decide (status_of ts t = Some In_signal);
  law_executes ts t : thread_ok ts → executes ts t = true → status_of ts t = Some Free;
  law_step ts ts' : thread_ok ts → thread_step ts ts' → thread_ok ts' ∧ ∀ t, status_of ts' t = status_of ts t }.

(** ** The invariant *)

Section Invariant.
Context {T : Type} {Ops : Thread_ops T} {View : Thread_view T} {Laws : Thread_laws T}.

(** The context has submits to deliver and may deliver them. *)
Definition due (x : context) : bool := negb (_submits x =? 0) && _ack x.

(** Where a thread waits for signals, and which context it waits to kill. *)
Definition waits_at (s : system T) (t : id) : option id := h ← clients s !! t; h_receiver h.
Definition kills (s : system T) (t : id) : option id := h ← clients s !! t; k_context h.

(** The receiver of a context, the one where the context is due, and its killer. *)
Definition belongs (s : system T) (c : id) : option id := c_receiver <$> contexts s !! c.
Definition due_at (s : system T) (c : id) : option id :=
  x ← contexts s !! c; if due x then Some (c_receiver x) else None.
Definition killer (s : system T) (c : id) : option id := x ← contexts s !! c; _killer x.

(** The queues of a receiver hold what the objects say. *)
Record receiver_ok (s : system T) (r : id) (R : receiver) : Prop := {
  r_nodup : NoDup (_contexts R) ∧ NoDup (_deliver R) ∧ NoDup (_handlers R);
  r_contexts c : c ∈ _contexts R ↔ belongs s c = Some r;
  r_deliver c : c ∈ _deliver R ↔ due_at s c = Some r;
  r_handlers t : t ∈ _handlers R ↔ waits_at s t = Some r }.

Record context_ok (x : context) : Prop := {
  x_killer : _killer x ≠ None → _killed x = true ∧ _ack x = false;
  x_submits : 0 ≤ _submits x < 2 ^ 32 - 1 }.

Definition client_status (h : client) : status :=
  match h_receiver h, k_context h with Some _, _ => In_signal | None, Some _ => In_kill | None, None => Free end.

(** All but that nobody waits while something is due. *)
Record base_ok (s : system T) : Prop := {
  ok_threads : thread_ok (threads s);
  ok_status t : status_of (threads s) t = client_status <$> clients s !! t;
  ok_receiver r R : receivers s !! r = Some R → receiver_ok s r R;
  ok_belongs c r : belongs s c = Some r → is_Some (receivers s !! r);
  ok_waits t r : waits_at s t = Some r → is_Some (receivers s !! r);
  ok_kills t c : kills s t = Some c ↔ killer s c = Some t;
  ok_either t : waits_at s t = None ∨ kills s t = None;
  ok_context c x : contexts s !! c = Some x → context_ok x }.

Definition settled (R : receiver) : Prop := _deliver R = [] ∨ _handlers R = [].

Definition all_settled (s : system T) : Prop := ∀ r R, receivers s !! r = Some R → settled R.

Definition signals_ok (s : system T) : Prop := base_ok s ∧ all_settled s.

(** *** Single changes *)

Lemma bind_alter {A B} (f : A → A) (g : A → option B) (m : gmap id A) i j :
  (x ← alter f i m !! j; g x) = if decide (j = i) then x ← m !! i; g (f x) else x ← m !! j; g x.
Proof. rewrite lookup_alter. destruct (decide (i = j)), (decide (j = i)); try congruence; subst; by destruct (m !! _). Qed.

Lemma due_belongs s c r : due_at s c = Some r → belongs s c = Some r.
Proof. unfold due_at, belongs. destruct (contexts s !! c) as [x|]; [|done]. simpl. destruct (due x); [|done]. by intros [= ->]. Qed.

Lemma in_remove i j l : i ∈ Seq.remove j l ↔ i ≠ j ∧ i ∈ l.
Proof. unfold Seq.remove. by rewrite list_elem_of_filter. Qed.

Lemma remove_nodup j l : NoDup l → NoDup (Seq.remove j l).
Proof. apply NoDup_filter. Qed.

(** A change of a context that its surroundings do not see. *)
Lemma context_change s c f :
  base_ok s →
  (∀ x, contexts s !! c = Some x → c_receiver (f x) = c_receiver x ∧ _killer (f x) = _killer x ∧ due (f x) = due x ∧
    (context_ok x → context_ok (f x))) →
  base_ok (System (threads s) (clients s) (alter f c (contexts s)) (receivers s)).
Proof.
  intros [H1 H2 H3 H4 H5 H6 H7 H8] Hf. set (s' := System _ _ _ _).
  assert (∀ d, belongs s' d = belongs s d ∧ due_at s' d = due_at s d ∧ killer s' d = killer s d) as Hp.
  { intros d. unfold belongs, due_at, killer, s'. cbn. rewrite !bind_alter, lookup_alter.
    destruct (decide (d = c)) as [->|Hd]; [|by rewrite decide_False by congruence]. rewrite decide_True by done.
    destruct (contexts s !! c) as [x|] eqn:Hx; [|done]. destruct (Hf x eq_refl) as (E1 & E2 & E3 & _). simpl. by rewrite E1, E2, E3. }
  split; cbn; try done.
  - intros r R HR. destruct (H3 r R HR) as [G1 G2 G3 G4]. split; [done| | |done]; intros d; destruct (Hp d) as (E1 & E2 & _); [rewrite E1|rewrite E2]; auto.
  - intros d r. destruct (Hp d) as (-> & _). apply H4.
  - intros t d. destruct (Hp d) as (_ & _ & ->). apply H6.
  - intros d x Hx. rewrite lookup_alter in Hx. case_decide; [|by apply (H8 d)]. subst.
    destruct (contexts s !! d) as [y|] eqn:Hy; [|done]. injection Hx as <-. apply (Hf y eq_refl), (H8 d y Hy).
Qed.

(** A context becomes due. *)
Lemma context_due s c f x :
  base_ok s → contexts s !! c = Some x → due x = false → due (f x) = true → c_receiver (f x) = c_receiver x →
  _killer (f x) = _killer x → (context_ok x → context_ok (f x)) →
  base_ok (System (threads s) (clients s) (alter f c (contexts s))
    (alter (λ R, set_deliver (Seq.enqueue c (_deliver R)) R) (c_receiver x) (receivers s))).
Proof.
  intros [H1 H2 H3 H4 H5 H6 H7 H8] Hx Hd Hd' Hr Hk Hok. set (s' := System _ _ _ _).
  assert (∀ d, belongs s' d = belongs s d ∧ killer s' d = killer s d) as Hp.
  { intros d. unfold belongs, killer, s'. cbn. rewrite !bind_alter, lookup_alter.
    destruct (decide (d = c)) as [->|]; [|by rewrite decide_False by congruence]. rewrite decide_True by done. rewrite Hx. simpl. by rewrite Hr, Hk. }
  assert (∀ d, due_at s' d = if decide (d = c) then Some (c_receiver x) else due_at s d) as Hdue.
  { intros d. unfold due_at, s'. cbn. rewrite bind_alter. case_decide; [|done]. rewrite Hx. simpl. by rewrite Hd', Hr. }
  assert (∀ r, is_Some (receivers s !! r) → is_Some (receivers s' !! r)) as Hsome.
  { intros r [R HR]. unfold s'. cbn. rewrite lookup_alter. case_decide; subst; rewrite ?HR; simpl; eauto. }
  assert (∀ r, due_at s c = Some r → False) as Hnot by (intros r; unfold due_at; rewrite Hx; simpl; by rewrite Hd).
  split; cbn; try done.
  - intros r R' HR'. rewrite lookup_alter in HR'. destruct (decide (c_receiver x = r)) as [Er|Hne].
    + rewrite Er in HR'. destruct (receivers s !! r) as [R|] eqn:HR; [|done]. injection HR' as <-.
      destruct (H3 r R HR) as [(G0 & G0' & G0'') G2 G3 G4]. split; cbn.
      * split_and!; [done| |done]. unfold Seq.enqueue. rewrite NoDup_snoc. split; [done|]. rewrite G3. intros E. by apply (Hnot r).
      * intros d. destruct (Hp d) as (-> & _). apply G2.
      * intros d. unfold Seq.enqueue. rewrite Hdue, elem_of_app, list_elem_of_singleton, G3. destruct (decide (d = c)) as [->|]; [|naive_solver].
        rewrite Er. naive_solver.
      * apply G4.
    + destruct (H3 r R' HR') as [G1 G2 G3 G4]. split; [done| | |done].
      * intros d. destruct (Hp d) as (-> & _). apply G2.
      * intros d. rewrite Hdue, G3. destruct (decide (d = c)) as [->|]; [|done]. split; [intros E; by destruct (Hnot r)|congruence].
  - intros d r. destruct (Hp d) as (-> & _). intros E. by apply Hsome, (H4 d).
  - intros t r E. by apply Hsome, (H5 t).
  - intros t d. destruct (Hp d) as (_ & ->). apply H6.
  - intros d y Hy. rewrite lookup_alter in Hy. case_decide; [|by apply (H8 d)]. subst. rewrite Hx in Hy. injection Hy as <-. apply Hok, (H8 d x Hx).
Qed.

(** *** The primitive changes *)

Lemma on_receiver_run (s : system T) r R f : receivers s !! r = Some R →
  on_receiver r f s = Some (System (threads s) (clients s) (contexts s) (alter f r (receivers s))).
Proof. intros HR. unfold on_receiver. by rewrite HR. Qed.

Lemma on_context_run (s : system T) c x f : contexts s !! c = Some x →
  on_context c f s = Some (System (threads s) (clients s) (alter f c (contexts s)) (receivers s)).
Proof. intros Hx. unfold on_context. by rewrite Hx. Qed.

Lemma on_client_run (s : system T) t h f : clients s !! t = Some h →
  on_client t f s = Some (System (threads s) (alter f t (clients s)) (contexts s) (receivers s)).
Proof. intros Hh. unfold on_client. by rewrite Hh. Qed.

Lemma on_threads_run (s : system T) f ts' : f (threads s) = Some ts' →
  on_threads f s = Some (System ts' (clients s) (contexts s) (receivers s)).
Proof. intros Ht. unfold on_threads. by rewrite Ht. Qed.

Lemma bind_some {A B} (m : option A) (f : A → option B) x : m = Some x → m ≫= f = f x.
Proof. by intros ->. Qed.

Lemma alter_here {A} (f : A → A) (m : gmap id A) i x : m !! i = Some x → alter f i m !! i = Some (f x).
Proof. intros Hx. by rewrite lookup_alter_eq, Hx. Qed.

(** One step of an operation, by a lemma about its result. *)
Local Tactic Notation "orun" uconstr(H) := rewrite (bind_some _ _ _ H); cbn [threads clients contexts receivers].

(** *** Delivery *)

(** The system after the signal of [c] with the data of [y] went to [t]. *)
Definition delivered (s : system T) (ts' : T) (r c t : id) (q hs : list id) : system T :=
  System ts' (alter (set_h_receiver None) t (clients s)) (alter (set_ack false ∘ set_submits 0) c (contexts s))
    (alter (set_handlers hs ∘ set_deliver q) r (receivers s)).

(** What [_listen] does on a receiver where at most one signal can be delivered. *)
Inductive listened (s : system T) (r : id) : system T → Prop :=
  | listened_none R : receivers s !! r = Some R → settled R → listened s r s
  | listened_one R c q t hs y ts' :
      receivers s !! r = Some R → _deliver R = c :: q → _handlers R = t :: hs → contexts s !! c = Some y →
      status_of (threads s) t = Some In_signal →
      signal_receive_signal (_imprint y) (_submits y) t (threads s) = Some ts' →
      moves (threads s) ts' t (Some Free) → listened s r (delivered s ts' r c t q hs).

Lemma waiting_client s t r :
  base_ok s → waits_at s t = Some r →
  ∃ h, clients s !! t = Some h ∧ h_receiver h = Some r ∧ k_context h = None ∧ status_of (threads s) t = Some In_signal.
Proof.
  intros Hok Ht. pose proof (ok_either s Hok t) as He. pose proof (ok_status s Hok t) as Hs. unfold waits_at, kills in *.
  destruct (clients s !! t) as [h|]; [|done]. simpl in *. exists h. split_and!; [done|done| |].
  - destruct He; congruence.
  - rewrite Hs. unfold client_status. by rewrite Ht.
Qed.

Lemma delivered_ok s r R c q t hs ts' :
  base_ok s → receivers s !! r = Some R → _deliver R = c :: q → _handlers R = t :: hs →
  moves (threads s) ts' t (Some Free) → base_ok (delivered s ts' r c t q hs).
Proof.
  intros Hok HR Hd Hh [Hts Hst]. destruct (ok_receiver s Hok r R HR) as [(N1 & N2 & N3) G2 G3 G4].
  rewrite Hd in N2, G3. rewrite Hh in N3, G4. apply NoDup_cons in N2 as [Nc N2]. apply NoDup_cons in N3 as [Nt N3].
  assert (waits_at s t = Some r) as Hw by (apply G4; constructor).
  destruct (waiting_client s t r Hok Hw) as (h & Hcl & Hhr & Hkc & _).
  destruct Hok as [H1 H2 H3 H4 H5 H6 H7 H8]. set (s' := delivered _ _ _ _ _ _ _).
  assert (∀ d, belongs s' d = belongs s d ∧ killer s' d = killer s d ∧ due_at s' d = if decide (d = c) then None else due_at s d) as Hp.
  { intros d. unfold belongs, killer, due_at, s', delivered. cbn. rewrite !bind_alter, lookup_alter.
    destruct (decide (d = c)) as [->|]; [|by rewrite decide_False by congruence]. rewrite decide_True by done. by destruct (contexts s !! c). }
  assert (∀ u, kills s' u = kills s u ∧ waits_at s' u = if decide (u = t) then None else waits_at s u) as Hq.
  { intros u. unfold kills, waits_at, s', delivered. cbn. rewrite !bind_alter. destruct (decide (u = t)) as [->|]; [|done]. by destruct (clients s !! t). }
  assert (∀ r', is_Some (receivers s !! r') → is_Some (receivers s' !! r')) as Hsome.
  { intros r' [R' HR']. unfold s', delivered. cbn. rewrite lookup_alter. case_decide; subst; rewrite ?HR'; simpl; eauto. }
  split; cbn; try done.
  - intros u. rewrite Hst, lookup_alter. destruct (decide (u = t)) as [->|]; [|by rewrite decide_False by congruence; apply H2].
    rewrite decide_True by done. rewrite Hcl. simpl. unfold client_status. simpl. by rewrite Hkc.
  - intros r' R' HR'. unfold s', delivered in HR'. cbn in HR'. rewrite lookup_alter in HR'. destruct (decide (r = r')) as [<-|Hne].
    + rewrite HR in HR'. injection HR' as <-. split; cbn; [done| | |].
      * intros d. destruct (Hp d) as (-> & _). apply G2.
      * intros d. destruct (Hp d) as (_ & _ & ->). destruct (decide (d = c)) as [->|]; [done|]. rewrite <- G3, elem_of_cons. tauto.
      * intros u. destruct (Hq u) as (_ & ->). destruct (decide (u = t)) as [->|]; [done|]. rewrite <- G4, elem_of_cons. tauto.
    + destruct (H3 r' R' HR') as [K1 K2 K3 K4]. assert (due_at s c = Some r) as Hdc by (apply G3; constructor). split; [done| | |].
      * intros d. destruct (Hp d) as (-> & _). apply K2.
      * intros d. destruct (Hp d) as (_ & _ & ->). rewrite K3. destruct (decide (d = c)) as [->|]; [|done]. rewrite Hdc. split; congruence.
      * intros u. destruct (Hq u) as (_ & ->). rewrite K4. destruct (decide (u = t)) as [->|]; [|done]. rewrite Hw. split; congruence.
  - intros d r'. destruct (Hp d) as (-> & _). intros E. by apply Hsome, (H4 d).
  - intros u r'. destruct (Hq u) as (_ & ->). case_decide; [done|]. intros E. by apply Hsome, (H5 u).
  - intros u d. destruct (Hp d) as (_ & -> & _), (Hq u) as (-> & _). apply H6.
  - intros u. destruct (Hq u) as (-> & ->). case_decide; [by left|apply H7].
  - intros d y Hy. unfold s', delivered in Hy. cbn in Hy. rewrite lookup_alter in Hy. case_decide; [|by apply (H8 d)].
    subst. destruct (contexts s !! d) as [y0|] eqn:Hy0; [|done]. injection Hy as <-. destruct (H8 d y0 Hy0) as [K1 K2].
    split; cbn; [|lia]. intros Hk. by destruct (K1 Hk).
Qed.

Lemma settled_run fuel s r R : receivers s !! r = Some R → settled R → listen_loop (S fuel) r s = Some s.
Proof. intros HR [E|E]; cbn; rewrite HR; cbn; rewrite E; [done|by destruct (_deliver R)]. Qed.

Lemma listen_run s r R :
  base_ok s → receivers s !! r = Some R → (length (_deliver R) ≤ 1 ∨ length (_handlers R) ≤ 1)%nat →
  (∀ r' R', r' ≠ r → receivers s !! r' = Some R' → settled R') →
  ∃ s', _listen r s = Some s' ∧ listened s r s' ∧ signals_ok s'.
Proof.
  intros Hok HR Hlen Hrest.
  destruct (_deliver R) as [|c q] eqn:Hd; [|destruct (_handlers R) as [|t hs] eqn:Hh].
  1-2: exists s; assert (settled R) as Hset by (unfold settled; auto); split_and!;
    [unfold _listen; rewrite HR; by apply (settled_run _ s r R)|by apply (listened_none s r R)|split; [done|]];
    intros r' R' HR'; (destruct (decide (r' = r)) as [->|]; [by replace R' with R by congruence|by apply (Hrest r')]).
  destruct (ok_receiver s Hok r R HR) as [_ _ G3 G4].
  assert (waits_at s t = Some r) as Hw by (apply G4; rewrite Hh; constructor).
  assert (due_at s c = Some r) as Hdc by (apply G3; rewrite Hd; constructor).
  destruct (waiting_client s t r Hok Hw) as (h & Hcl & _ & _ & Hst).
  destruct (contexts s !! c) as [y|] eqn:Hy; [|unfold due_at in Hdc; by rewrite Hy in Hdc].
  destruct (law_receive (threads s) t (_imprint y) (_submits y)) as (ts' & Hrec & Hm); [apply Hok|done|].
  set (R' := (set_handlers hs ∘ set_deliver q) R).
  assert (receivers (delivered s ts' r c t q hs) !! r = Some R') as HR' by (cbn; by rewrite lookup_alter_eq, HR).
  assert (settled R') as Hset by (unfold settled, R'; cbn in *; destruct Hlen; [left; by destruct q; [|simpl in *; lia]|right; by destruct hs; [|simpl in *; lia]]).
  exists (delivered s ts' r c t q hs). split; [|split; [by eapply listened_one|split; [by eapply delivered_ok|]]].
  - unfold _listen. rewrite (bind_some _ _ _ HR), Hd. cbn [length listen_loop]. rewrite (bind_some _ _ _ HR), Hd, Hh.
    orun (on_receiver_run s r R (set_deliver q) HR). cbn [contexts]. orun Hy.
    orun (on_receiver_run (System _ _ _ _) r _ (set_handlers hs) (alter_here (set_deliver q) _ _ _ HR)).
    orun (on_client_run (System _ _ _ _) t h (set_h_receiver None) Hcl).
    orun (on_threads_run (System _ _ _ _) _ ts' Hrec). unfold _delivered.
    orun (on_context_run (System _ _ _ _) c y (set_ack false ∘ set_submits 0) Hy). cbn [threads clients contexts receivers].
    rewrite alter_alter_eq. by apply (settled_run _ (delivered s ts' r c t q hs) r R').
  - intros r' R0 HR0. destruct (decide (r' = r)) as [->|Hne]; [by replace R0 with R' by congruence|].
    cbn in HR0. rewrite lookup_alter_ne in HR0 by congruence. by apply (Hrest r').
Qed.

(** *** Threads and handlers *)

Lemma some_alter {A} (f : A → A) (m : gmap id A) i j : is_Some (m !! j) → is_Some (alter f i m !! j).
Proof. intros [x Hx]. rewrite lookup_alter. case_decide; subst; rewrite ?Hx; simpl; eauto. Qed.

(** Nothing that signals see of the threads changes. *)
Lemma threads_moved s ts' :
  base_ok s → thread_ok ts' → (∀ t, status_of ts' t = status_of (threads s) t) → base_ok (System ts' (clients s) (contexts s) (receivers s)).
Proof.
  intros [H1 H2 H3 H4 H5 H6 H7 H8] Hts Hst. split; cbn; try done; [intros t; by rewrite Hst|].
  intros r R HR. destruct (H3 r R HR). by split.
Qed.

(** The flag of a client is of no concern. *)
Lemma client_flag s t b : base_ok s → base_ok (System (threads s) (alter (set_cancel_next b) t (clients s)) (contexts s) (receivers s)).
Proof.
  intros [H1 H2 H3 H4 H5 H6 H7 H8]. set (s' := System _ _ _ _).
  assert (∀ u, kills s' u = kills s u ∧ waits_at s' u = waits_at s u) as Hq.
  { intros u. unfold kills, waits_at, s'. cbn. rewrite !bind_alter. by destruct (decide (u = t)) as [->|]. }
  split; cbn; try done.
  - intros u. rewrite H2, lookup_alter. case_decide; [|done]. subst. by destruct (clients s !! u).
  - intros r R HR. destruct (H3 r R HR) as [G1 G2 G3 G4]. split; try done. intros u. destruct (Hq u) as (_ & ->). apply G4.
  - intros u r. destruct (Hq u) as (_ & ->). apply H5.
  - intros u d. destruct (Hq u) as (-> & _). apply H6.
  - intros u. destruct (Hq u) as (-> & ->). apply H7.
Qed.

Section Handler.
Context (s : system T) (Hok : base_ok s) (t r : id) (ts' : T).

(** [t] begins to wait at [r]. *)
Definition waiting_at : system T :=
  System ts' (alter (set_h_receiver (Some r)) t (clients s)) (contexts s)
    (alter (λ R, set_handlers (Seq.enqueue t (_handlers R)) R) r (receivers s)).

Lemma waiting_ok :
  clients s !! t ≠ None → status_of (threads s) t = Some Free → is_Some (receivers s !! r) →
  moves (threads s) ts' t (Some In_signal) → base_ok waiting_at.
Proof using Hok.
  intros Hcl Hfree Hr [Hts Hst]. pose proof (ok_status s Hok t) as Hs. destruct (clients s !! t) as [h|] eqn:Hh; [|done].
  rewrite Hfree in Hs. simpl in Hs. injection Hs as Hs. unfold client_status in Hs.
  destruct (h_receiver h) eqn:Hhr, (k_context h) eqn:Hkc; try done. clear Hs Hcl.
  assert (waits_at s t = None) as Hw by (unfold waits_at; by rewrite Hh).
  destruct Hok as [H1 H2 H3 H4 H5 H6 H7 H8].
  assert (∀ u, kills waiting_at u = kills s u ∧ waits_at waiting_at u = if decide (u = t) then Some r else waits_at s u) as Hq.
  { intros u. unfold kills, waits_at, waiting_at. cbn. rewrite !bind_alter. destruct (decide (u = t)) as [->|]; [|done]. by rewrite Hh. }
  split; cbn; try done.
  - intros u. rewrite Hst, lookup_alter. destruct (decide (u = t)) as [->|]; [|by rewrite decide_False by congruence; apply H2].
    rewrite decide_True by done. by rewrite Hh.
  - intros r' R' HR'. rewrite lookup_alter in HR'. destruct (decide (r = r')) as [<-|Hne].
    + destruct (receivers s !! r) as [R|] eqn:HR; [|done]. injection HR' as <-. destruct (H3 r R HR) as [(N1 & N2 & N3) G2 G3 G4]. split; cbn; try done.
      * split_and!; [done..|]. unfold Seq.enqueue. rewrite NoDup_snoc. split; [done|]. rewrite G4. congruence.
      * intros u. destruct (Hq u) as (_ & ->). unfold Seq.enqueue. rewrite elem_of_app, list_elem_of_singleton, G4.
        destruct (decide (u = t)) as [->|]; naive_solver.
    + destruct (H3 r' R' HR') as [G1 G2 G3 G4]. split; try done. intros u. destruct (Hq u) as (_ & ->). rewrite G4.
      destruct (decide (u = t)) as [->|]; [|done]. rewrite Hw. split; congruence.
  - intros d r' E. by apply some_alter, (H4 d).
  - intros u r'. destruct (Hq u) as (_ & ->). case_decide; [intros [= <-]; by apply some_alter|]. intros E. by apply some_alter, (H5 u).
  - intros u d. destruct (Hq u) as (-> & _). apply H6.
  - intros u. destruct (Hq u) as (-> & ->). case_decide; [|apply H7]. subst. right. unfold kills. by rewrite Hh.
Qed.

(** [t] ceases to wait at [r]. *)
Definition left_at : system T :=
  System ts' (alter (set_h_receiver None) t (clients s)) (contexts s)
    (alter (λ R, set_handlers (Seq.remove t (_handlers R)) R) r (receivers s)).

Lemma left_ok : waits_at s t = Some r → moves (threads s) ts' t (Some Free) → base_ok left_at.
Proof using Hok.
  intros Hw [Hts Hst]. destruct (waiting_client s t r Hok Hw) as (h & Hh & Hhr & Hkc & _).
  destruct Hok as [H1 H2 H3 H4 H5 H6 H7 H8].
  assert (∀ u, kills left_at u = kills s u ∧ waits_at left_at u = if decide (u = t) then None else waits_at s u) as Hq.
  { intros u. unfold kills, waits_at, left_at. cbn. rewrite !bind_alter. destruct (decide (u = t)) as [->|]; [|done]. by rewrite Hh. }
  split; cbn; try done.
  - intros u. rewrite Hst, lookup_alter. destruct (decide (u = t)) as [->|]; [|by rewrite decide_False by congruence; apply H2].
    rewrite decide_True, Hh by done. simpl. unfold client_status. simpl. by rewrite Hkc.
  - intros r' R' HR'. rewrite lookup_alter in HR'. destruct (decide (r = r')) as [<-|Hne].
    + destruct (receivers s !! r) as [R|] eqn:HR; [|done]. injection HR' as <-. destruct (H3 r R HR) as [(N1 & N2 & N3) G2 G3 G4]. split; cbn; try done.
      * split_and!; [done..|]. by apply remove_nodup.
      * intros u. destruct (Hq u) as (_ & ->). rewrite in_remove, G4. destruct (decide (u = t)) as [->|]; naive_solver.
    + destruct (H3 r' R' HR') as [G1 G2 G3 G4]. split; try done. intros u. destruct (Hq u) as (_ & ->). rewrite G4.
      destruct (decide (u = t)) as [->|]; [|done]. rewrite Hw. split; congruence.
  - intros d r' E. by apply some_alter, (H4 d).
  - intros u r'. destruct (Hq u) as (_ & ->). case_decide; [done|]. intros E. by apply some_alter, (H5 u).
  - intros u d. destruct (Hq u) as (-> & _). apply H6.
  - intros u. destruct (Hq u) as (-> & ->). case_decide; [by left|apply H7].
Qed.

End Handler.

(** *** Killing *)

Section Kill.
Context (s : system T) (Hok : base_ok s) (t c : id) (ts' : T) (x : context) (Hx : contexts s !! c = Some x).

(** [t] begins to wait for the acknowledgement of [c]. *)
Definition killing : system T :=
  System ts' (alter (set_k_context (Some c)) t (clients s)) (alter (set_killed true ∘ set_killer (Some t)) c (contexts s)) (receivers s).

(** The acknowledgement ends the wait of [t]. *)
Definition unblocked : system T :=
  System ts' (alter (set_k_context None) t (clients s)) (alter (set_killer None) c (contexts s)) (receivers s).

Lemma killing_ok :
  _killed x = false → _ack x = false → clients s !! t ≠ None → status_of (threads s) t = Some Free →
  moves (threads s) ts' t (Some In_kill) → base_ok killing.
Proof using Hok Hx.
  intros Hkd Hack Hcl Hfree [Hts Hst]. pose proof (ok_status s Hok t) as Hs. destruct (clients s !! t) as [h|] eqn:Hh; [|done].
  rewrite Hfree in Hs. simpl in Hs. injection Hs as Hs. unfold client_status in Hs.
  destruct (h_receiver h) eqn:Hhr, (k_context h) eqn:Hkc; try done. clear Hs Hcl.
  destruct Hok as [H1 H2 H3 H4 H5 H6 H7 H8]. destruct (H8 c x Hx) as [Hxk Hxs].
  assert (_killer x = None) as Hkx by (destruct (_killer x); [|done]; destruct Hxk; congruence).
  assert (∀ d, belongs killing d = belongs s d ∧ due_at killing d = due_at s d ∧ killer killing d = if decide (d = c) then Some t else killer s d) as Hp.
  { intros d. unfold belongs, due_at, killer, killing. cbn. rewrite !bind_alter, lookup_alter.
    destruct (decide (d = c)) as [->|]; [|by rewrite decide_False by congruence]. rewrite decide_True by done. by rewrite Hx. }
  assert (∀ u, waits_at killing u = waits_at s u ∧ kills killing u = if decide (u = t) then Some c else kills s u) as Hq.
  { intros u. unfold kills, waits_at, killing. cbn. rewrite !bind_alter. destruct (decide (u = t)) as [->|]; [|done]. by rewrite Hh. }
  assert (kills s t = None ∧ killer s c = None) as [Hkt Hkc'] by (unfold kills, killer; by rewrite Hh, Hx).
  split; cbn; try done.
  - intros u. rewrite Hst, lookup_alter. destruct (decide (u = t)) as [->|]; [|by rewrite decide_False by congruence; apply H2].
    rewrite decide_True, Hh by done. simpl. unfold client_status. simpl. by rewrite Hhr.
  - intros r R HR. destruct (H3 r R HR) as [G1 G2 G3 G4]. split; [done| | |]; intros d; [destruct (Hp d) as (-> & _)|destruct (Hp d) as (_ & -> & _)|destruct (Hq d) as (-> & _)]; auto.
  - intros d r. destruct (Hp d) as (-> & _). apply H4.
  - intros u r. destruct (Hq u) as (-> & _). apply H5.
  - intros u d. destruct (Hp d) as (_ & _ & ->), (Hq u) as (_ & ->). pose proof (H6 u d) as H6'. pose proof (H6 t d) as H6t. pose proof (H6 u c) as H6c.
    destruct (decide (u = t)) as [->|], (decide (d = c)) as [->|]; naive_solver congruence.
  - intros u. destruct (Hq u) as (-> & ->). case_decide; [|apply H7]. subst. left. unfold waits_at. by rewrite Hh.
  - intros d y Hy. rewrite lookup_alter in Hy. case_decide; [|by apply (H8 d)]. subst. rewrite Hx in Hy. injection Hy as <-. by split.
Qed.

Lemma unblocked_ok : _killer x = Some t → moves (threads s) ts' t (Some Free) → base_ok unblocked.
Proof using Hok Hx.
  intros Hk [Hts Hst]. destruct Hok as [H1 H2 H3 H4 H5 H6 H7 H8].
  assert (killer s c = Some t) as Hkc by (unfold killer; by rewrite Hx). pose proof (proj2 (H6 t c) Hkc) as Hkt.
  pose proof (H7 t) as H7t. unfold kills in Hkt. destruct (clients s !! t) as [h|] eqn:Hh; [|done]. simpl in Hkt.
  assert (h_receiver h = None) as Hhr by (unfold waits_at, kills in H7t; rewrite Hh in H7t; simpl in H7t; destruct H7t; congruence).
  assert (∀ d, belongs unblocked d = belongs s d ∧ due_at unblocked d = due_at s d ∧ killer unblocked d = if decide (d = c) then None else killer s d) as Hp.
  { intros d. unfold belongs, due_at, killer, unblocked. cbn. rewrite !bind_alter, lookup_alter.
    destruct (decide (d = c)) as [->|]; [|by rewrite decide_False by congruence]. rewrite decide_True by done. by rewrite Hx. }
  assert (∀ u, waits_at unblocked u = waits_at s u ∧ kills unblocked u = if decide (u = t) then None else kills s u) as Hq.
  { intros u. unfold kills, waits_at, unblocked. cbn. rewrite !bind_alter. destruct (decide (u = t)) as [->|]; [|done]. by rewrite Hh. }
  assert (kills s t = Some c) as Hkt' by (unfold kills; by rewrite Hh).
  split; cbn; try done.
  - intros u. rewrite Hst, lookup_alter. destruct (decide (u = t)) as [->|]; [|by rewrite decide_False by congruence; apply H2].
    rewrite decide_True, Hh by done. simpl. unfold client_status. simpl. by rewrite Hhr.
  - intros r R HR. destruct (H3 r R HR) as [G1 G2 G3 G4]. split; [done| | |]; intros d; [destruct (Hp d) as (-> & _)|destruct (Hp d) as (_ & -> & _)|destruct (Hq d) as (-> & _)]; auto.
  - intros d r. destruct (Hp d) as (-> & _). apply H4.
  - intros u r. destruct (Hq u) as (-> & _). apply H5.
  - intros u d. destruct (Hp d) as (_ & _ & ->), (Hq u) as (_ & ->). pose proof (H6 u d) as H6'. pose proof (H6 t d) as H6t. pose proof (H6 u c) as H6c.
    destruct (decide (u = t)) as [->|], (decide (d = c)) as [->|]; naive_solver congruence.
  - intros u. destruct (Hq u) as (-> & ->). case_decide; [by right|apply H7].
  - intros d y Hy. rewrite lookup_alter in Hy. case_decide; [|by apply (H8 d)]. subst. rewrite Hx in Hy. injection Hy as <-.
    destruct (H8 c x Hx) as [_ ?]. by split.
Qed.

End Kill.

(** *** Creation and destruction *)

Lemma context_new s c r imprint :
  base_ok s → contexts s !! c = None → is_Some (receivers s !! r) →
  base_ok (System (threads s) (clients s) (<[c := Context r imprint None 0 true false]> (contexts s))
    (alter (λ R, set_contexts (Seq.enqueue c (_contexts R)) R) r (receivers s))).
Proof.
  intros [H1 H2 H3 H4 H5 H6 H7 H8] Hc Hr. set (s' := System _ _ _ _).
  assert (∀ d, belongs s' d = (if decide (d = c) then Some r else belongs s d) ∧ due_at s' d = due_at s d ∧ killer s' d = killer s d) as Hp.
  { intros d. unfold belongs, due_at, killer, s'. cbn. destruct (decide (d = c)) as [->|]; [by rewrite lookup_insert_eq, Hc|by rewrite lookup_insert_ne]. }
  split; cbn; try done.
  - intros r' R' HR'. rewrite lookup_alter in HR'. destruct (decide (r = r')) as [<-|Hne].
    + destruct (receivers s !! r) as [R|] eqn:HR; [|done]. injection HR' as <-. destruct (H3 r R HR) as [(N1 & N2 & N3) G2 G3 G4].
      assert (belongs s c = None) as Hb by (unfold belongs; by rewrite Hc). split; cbn; try done.
      * split_and!; [|done..]. unfold Seq.enqueue. rewrite NoDup_snoc. split; [done|]. rewrite G2. congruence.
      * intros d. destruct (Hp d) as (-> & _). unfold Seq.enqueue. rewrite elem_of_app, list_elem_of_singleton, G2.
        destruct (decide (d = c)) as [->|]; naive_solver.
      * intros d. destruct (Hp d) as (_ & -> & _). apply G3.
    + destruct (H3 r' R' HR') as [G1 G2 G3 G4]. split; try done; intros d; destruct (Hp d) as (E1 & E2 & _); [rewrite E1, G2|rewrite E2, G3; done].
      destruct (decide (d = c)) as [->|]; [|done]. unfold belongs. rewrite Hc. split; [done|congruence].
  - intros d r'. destruct (Hp d) as (-> & _). case_decide; [intros [= <-]; by apply some_alter|]. intros E. by apply some_alter, (H4 d).
  - intros u r' E. by apply some_alter, (H5 u).
  - intros u d. destruct (Hp d) as (_ & _ & ->). apply H6.
  - intros d y Hy. destruct (decide (d = c)) as [->|]; [|rewrite lookup_insert_ne in Hy by done; by apply (H8 d)].
    rewrite lookup_insert_eq in Hy. injection Hy as <-. split; cbn; [done|lia].
Qed.

(** The context [c] without a killer is gone. *)
Definition without_context (s : system T) (c r : id) : system T :=
  System (threads s) (clients s) (base.delete c (contexts s))
    (alter (λ R, set_deliver (Seq.remove c (_deliver R)) (set_contexts (Seq.remove c (_contexts R)) R)) r (receivers s)).

Lemma context_removed s c x :
  base_ok s → contexts s !! c = Some x → _killer x = None → base_ok (without_context s c (c_receiver x)).
Proof.
  intros [H1 H2 H3 H4 H5 H6 H7 H8] Hx Hk. set (s' := without_context _ _ _).
  assert (∀ d, belongs s' d = (if decide (d = c) then None else belongs s d) ∧ due_at s' d = (if decide (d = c) then None else due_at s d) ∧
    killer s' d = killer s d) as Hp.
  { intros d. unfold belongs, due_at, killer, s', without_context. cbn.
    destruct (decide (d = c)) as [->|]; [by rewrite lookup_delete_eq, Hx|by rewrite lookup_delete_ne]. }
  assert (belongs s c = Some (c_receiver x)) as Hb by (unfold belongs; by rewrite Hx).
  split; cbn; try done.
  - intros r' R' HR'. rewrite lookup_alter in HR'. destruct (decide (c_receiver x = r')) as [<-|Hne].
    + destruct (receivers s !! c_receiver x) as [R|] eqn:HR; [|done]. injection HR' as <-. destruct (H3 _ R HR) as [(N1 & N2 & N3) G2 G3 G4].
      split; cbn; try done.
      * split_and!; [by apply remove_nodup..|done].
      * intros d. destruct (Hp d) as (-> & _). rewrite in_remove, G2. destruct (decide (d = c)) as [->|]; naive_solver.
      * intros d. destruct (Hp d) as (_ & -> & _). rewrite in_remove, G3. destruct (decide (d = c)) as [->|]; naive_solver.
    + destruct (H3 r' R' HR') as [G1 G2 G3 G4]. split; try done; intros d; destruct (Hp d) as (E1 & E2 & _); [rewrite E1, G2|rewrite E2, G3];
        (destruct (decide (d = c)) as [->|]; [|done]); [rewrite Hb; split; congruence|].
      split; [intros E; apply due_belongs in E; congruence|done].
  - intros d r'. destruct (Hp d) as (-> & _). case_decide; [done|]. intros E. by apply some_alter, (H4 d).
  - intros u r' E. by apply some_alter, (H5 u).
  - intros u d. destruct (Hp d) as (_ & _ & ->). apply H6.
  - intros d y [_ Hy]%lookup_delete_Some. by apply (H8 d).
Qed.

Lemma receiver_new s r :
  base_ok s → receivers s !! r = None →
  base_ok (System (threads s) (clients s) (contexts s) (<[r := Receiver [] [] []]> (receivers s))).
Proof.
  intros [H1 H2 H3 H4 H5 H6 H7 H8] Hr.
  assert (∀ r', is_Some (receivers s !! r') → is_Some (<[r := Receiver [] [] []]> (receivers s) !! r')) as Hsome.
  { intros r' Hr'. destruct (decide (r' = r)) as [->|]; [by rewrite lookup_insert_eq|by rewrite lookup_insert_ne]. }
  assert (∀ r', is_Some (receivers s !! r') → r' ≠ r) as Hne by (intros r' [R HR] ->; congruence).
  split; cbn; try done.
  - intros r' R' HR'. destruct (decide (r' = r)) as [->|]; [|rewrite lookup_insert_ne in HR' by done; by destruct (H3 r' R' HR')].
    rewrite lookup_insert_eq in HR'. injection HR' as <-. split; cbn.
    + split_and!; apply NoDup_nil_2.
    + intros c. split; [by intros ?%elem_of_nil|]. intros E. by destruct (Hne r (H4 c r E)).
    + intros c. split; [by intros ?%elem_of_nil|]. intros E%due_belongs. by destruct (Hne r (H4 c r E)).
    + intros t. split; [by intros ?%elem_of_nil|]. intros E. by destruct (Hne r (H5 t r E)).
  - intros c r' E. by apply Hsome, (H4 c).
  - intros t r' E. by apply Hsome, (H5 t).
Qed.

Lemma receiver_removed s r R :
  base_ok s → receivers s !! r = Some R → _contexts R = [] → _handlers R = [] →
  base_ok (System (threads s) (clients s) (contexts s) (base.delete r (receivers s))).
Proof.
  intros [H1 H2 H3 H4 H5 H6 H7 H8] HR Hc Hh. destruct (H3 r R HR) as [_ G2 _ G4]. rewrite Hc in G2. rewrite Hh in G4.
  assert (∀ r', r' ≠ r → is_Some (receivers s !! r') → is_Some (base.delete r (receivers s) !! r')) as Hsome by (intros r' Hne Hr'; by rewrite lookup_delete_ne).
  split; cbn; try done.
  - intros r' R' [Hne HR']%lookup_delete_Some. by destruct (H3 r' R' HR').
  - intros c r' E. apply Hsome; [|by apply (H4 c)]. intros ->. by apply G2, elem_of_nil in E.
  - intros t r' E. apply Hsome; [|by apply (H5 t)]. intros ->. by apply G4, elem_of_nil in E.
Qed.

Lemma client_new s t ts' :
  base_ok s → clients s !! t = None → moves (threads s) ts' t (Some Free) →
  base_ok (System ts' (<[t := Client None None false]> (clients s)) (contexts s) (receivers s)).
Proof.
  intros [H1 H2 H3 H4 H5 H6 H7 H8] Ht [Hts Hst]. set (s' := System _ _ _ _).
  assert (∀ u, kills s' u = kills s u ∧ waits_at s' u = waits_at s u) as Hq.
  { intros u. unfold kills, waits_at, s'. cbn. destruct (decide (u = t)) as [->|]; [by rewrite lookup_insert_eq, Ht|by rewrite lookup_insert_ne]. }
  split; cbn; try done.
  - intros u. rewrite Hst. destruct (decide (u = t)) as [->|]; [by rewrite lookup_insert_eq|by rewrite lookup_insert_ne by congruence].
  - intros r R HR. destruct (H3 r R HR) as [G1 G2 G3 G4]. split; try done. intros u. destruct (Hq u) as (_ & ->). apply G4.
  - intros u r. destruct (Hq u) as (_ & ->). apply H5.
  - intros u d. destruct (Hq u) as (-> & _). apply H6.
  - intros u. destruct (Hq u) as (-> & ->). apply H7.
Qed.

(** A client that neither waits nor kills is gone. *)
Lemma client_removed s t ts' :
  base_ok s → waits_at s t = None → kills s t = None → moves (threads s) ts' t None →
  base_ok (System ts' (base.delete t (clients s)) (contexts s) (receivers s)).
Proof.
  intros [H1 H2 H3 H4 H5 H6 H7 H8] Hw Hk [Hts Hst]. set (s' := System _ _ _ _).
  assert (∀ u, kills s' u = kills s u ∧ waits_at s' u = waits_at s u) as Hq.
  { intros u. unfold kills, waits_at, s' in *. cbn. destruct (decide (u = t)) as [->|]; [|by rewrite lookup_delete_ne]. rewrite lookup_delete_eq. by rewrite Hk, Hw. }
  split; cbn; try done.
  - intros u. rewrite Hst. destruct (decide (u = t)) as [->|]; [by rewrite lookup_delete_eq|by rewrite lookup_delete_ne].
  - intros r R HR. destruct (H3 r R HR) as [G1 G2 G3 G4]. split; try done. intros u. destruct (Hq u) as (_ & ->). apply G4.
  - intros u r. destruct (Hq u) as (_ & ->). apply H5.
  - intros u d. destruct (Hq u) as (-> & _). apply H6.
  - intros u. destruct (Hq u) as (-> & ->). apply H7.
Qed.

End Invariant.

(** *** The status of the threads alone

    The invariant depends on the threads only through their status, so that several
    changes of objects can be put together before the threads follow. *)

#[export] Instance status_view : Thread_view (id → option status) := {
  thread_ok _ := True; status_of f := f; executes _ _ := false; thread_step _ _ := False }.

Section Shadow.
Context {T : Type} {View : Thread_view T}.

Definition shadow (s : system T) : system (id → option status) :=
  System (status_of (threads s)) (clients s) (contexts s) (receivers s).

Lemma shadow_ok s : base_ok s → base_ok (shadow s).
Proof.
  intros [H1 H2 H3 H4 H5 H6 H7 H8]. split; try done. intros r R HR. destruct (H3 r R HR). by split.
Qed.

Lemma shadow_back (s : system (id → option status)) ts :
  base_ok s → thread_ok ts → (∀ t, status_of ts t = threads s t) → base_ok (System ts (clients s) (contexts s) (receivers s)).
Proof.
  intros [H1 H2 H3 H4 H5 H6 H7 H8] Hts Hst. split; try done; [intros t; cbn; rewrite Hst; apply H2|].
  intros r R HR. destruct (H3 r R HR). by split.
Qed.

Definition set_status (t : id) (st : option status) (f : id → option status) : id → option status :=
  λ u, if decide (u = t) then st else f u.

Lemma set_status_moves t st f : moves f (set_status t st f) t st.
Proof. by split. Qed.

(** A client is gone that waits at [r] ... *)
Lemma waiting_removed (s : system T) t r ts' :
  base_ok s → waits_at s t = Some r → moves (threads s) ts' t None →
  base_ok (System ts' (base.delete t (clients s)) (contexts s)
    (alter (λ R, set_handlers (Seq.remove t (_handlers R)) R) r (receivers s))).
Proof.
  intros Hok Hw [Hts Hst]. apply shadow_ok in Hok.
  pose proof (left_ok (shadow s) Hok t r _ Hw (set_status_moves t (Some Free) _)) as Hl. set (s1 := left_at _ _ _ _) in Hl.
  destruct (waiting_client _ t r Hok Hw) as (h & Hh & _ & Hk & _). cbn in Hh.
  assert (base_ok (System (set_status t None (threads s1)) (base.delete t (clients s1)) (contexts s1) (receivers s1))) as Hr.
  { apply client_removed; [done| | |apply set_status_moves]; [unfold waits_at|unfold kills]; unfold s1; cbn; rewrite lookup_alter_eq, Hh; [done|exact Hk]. }
  unfold s1 in Hr. cbn in Hr. rewrite delete_alter_eq in Hr. apply (shadow_back _ ts' Hr Hts).
  intros u. rewrite Hst. cbn. unfold set_status. by case_decide.
Qed.

(** ... or waits to kill [c]. *)
Lemma killing_removed (s : system T) t c ts' :
  base_ok s → kills s t = Some c → moves (threads s) ts' t None →
  base_ok (System ts' (base.delete t (clients s)) (alter (set_killer None) c (contexts s)) (receivers s)).
Proof.
  intros Hok Hk [Hts Hst]. apply shadow_ok in Hok. pose proof (proj1 (ok_kills _ Hok t c) Hk) as Hkc. pose proof (ok_either _ Hok t) as He.
  unfold killer in Hkc. cbn in Hkc. destruct (contexts s !! c) as [x|] eqn:Hx; [|done]. simpl in Hkc.
  pose proof (unblocked_ok (shadow s) Hok t c _ x Hx Hkc (set_status_moves t (Some Free) _)) as Hl. set (s1 := unblocked _ _ _ _) in Hl.
  assert (base_ok (System (set_status t None (threads s1)) (base.delete t (clients s1)) (contexts s1) (receivers s1))) as Hr.
  { unfold kills, waits_at in Hk, He. cbn in Hk, He. destruct (clients s !! t) as [h|] eqn:Hh; [|done]. simpl in Hk, He.
    apply client_removed; [done| | |apply set_status_moves]; [unfold waits_at|unfold kills]; unfold s1; cbn; rewrite lookup_alter_eq, Hh; [|done].
    simpl. destruct He; congruence. }
  unfold s1 in Hr. cbn in Hr. rewrite delete_alter_eq in Hr. apply (shadow_back _ ts' Hr Hts).
  intros u. rewrite Hst. cbn. unfold set_status. by case_decide.
Qed.

End Shadow.
