(* ===== verification/Signal_props.v ===== *)
(** * Signal_props: signal calls, their safety and the account of signals

    The calls on signals as one step relation over any threads that satisfy [Thread_laws].
    [admissible] says what core guarantees.  In every reachable state an admissible call
    succeeds, and nobody waits at a receiver where a signal can be delivered; no signal is
    lost or delivered twice.  The lemmas at the end show what happens without the
    guarantees. *)

From stdpp Require Import relations.
From S2P Require Import Prelude Fifo Signal Signal_inv.

Inductive call :=
  | Await_signal (t : id) (r : option id)
  | Pending_signal (t : id) (r : option id)
  | Cancel_next_await_signal (t : id) (u : option id)
  | Submit_signal (t : id) (c : option id) (n : Z)
  | Ack_signal (t : id) (c : option id)
  | Kill_signal_context (t : id) (c : option id)
  | Occurred (c : id)
  | Timeout_triggered (c : option id)
  | Mmu_exception (t : id) (p : option id) (unknown : bool)
  | New_signal_context (c r imprint : Z)
  | Delete_signal_context (c : id)
  | New_signal_receiver (r : id)
  | Delete_signal_receiver (r : id)
  | New_thread (t : id)
  | Delete_thread (t : id).

#[export] Instance call_eq_dec : EqDecision call.
Proof. solve_decision. Defined.

Section Calls.
Context {T : Type} {Ops : Thread_ops T} {View : Thread_view T}.

Definition perform (c : call) : system T → option (system T) :=
  match c with
  | Await_signal t r => _call_await_signal t r
  | Pending_signal t r => _call_pending_signal t r
  | Cancel_next_await_signal t u => _call_cancel_next_await_signal t u
  | Submit_signal t c n => _call_submit_signal t c n
  | Ack_signal _ c => _call_ack_signal c
  | Kill_signal_context t c => _call_kill_signal_context t c
  | Occurred c => occurred c
  | Timeout_triggered c => timeout_triggered c
  | Mmu_exception t p unknown => _mmu_exception t p unknown
  | New_signal_context c r imprint => new_context c r imprint
  | Delete_signal_context c => destruct_context c
  | New_signal_receiver r => new_receiver r
  | Delete_signal_receiver r => destruct_receiver r
  | New_thread t => new_thread t
  | Delete_thread t => delete_thread t
  end.

(** ** What the callers guarantee *)

Definition known {A} (m : gmap id A) (i : option id) : bool :=
  match i with Some i => bool_decide (is_Some (m !! i)) | None => true end.

(** No thread waits for the end of [c]. *)
Definition unkilled (s : system T) (c : id) : bool := bool_decide (killer s c = None).

(** Only the running thread calls; a lookup yields an object; a new object has fresh
    memory; an object is deleted once nobody blocks on it; a thread may be deleted at any
    time. *)
Definition admissible (s : system T) (c : call) : bool :=
  match c with
  | Await_signal t r | Pending_signal t r => executes (threads s) t && known (receivers s) r
  | Cancel_next_await_signal t u => executes (threads s) t && known (clients s) u
  | Submit_signal t c n => executes (threads s) t && known (contexts s) c && (0 <=? n) && (n <? 2 ^ 32)
  | Ack_signal t c | Kill_signal_context t c => executes (threads s) t && known (contexts s) c
  | Occurred c => known (contexts s) (Some c)
  | Timeout_triggered c => known (contexts s) c
  | Mmu_exception t p _ => executes (threads s) t && known (contexts s) p
  | New_signal_context c r _ => bool_decide (contexts s !! c = None) && known (receivers s) (Some r)
  | Delete_signal_context c => known (contexts s) (Some c) && unkilled s c
  | New_signal_receiver r => bool_decide (receivers s !! r = None)
  | Delete_signal_receiver r =>
      match receivers s !! r with
      | Some R => bool_decide (_handlers R = []) && forallb (unkilled s) (_contexts R)
      | None => false
      end
  | New_thread t => bool_decide (clients s !! t = None)
  | Delete_thread t => known (clients s) (Some t)
  end.

(** ** The state machine *)

(** A call, or a step of the threads that signals do not see. *)
Inductive step (s : system T) : system T → Prop :=
  | step_call c s' : admissible s c = true → perform c s = Some s' → step s s'
  | step_threads ts' : thread_step (threads s) ts' → step s (System ts' (clients s) (contexts s) (receivers s)).

Definition no_client : client := Client None None false.

(** The threads [ts] exist, with the names in [names], and no signals are in use yet. *)
Definition booted (ts : T) (names : gset id) : system T := System ts (gset_to_gmap no_client names) ∅ ∅.

End Calls.

(** ** Calls keep the invariant *)

#[local] Arguments Seq.remove : simpl never.

Section Safety.
Context {T : Type} {Ops : Thread_ops T} {View : Thread_view T} {Laws : Thread_laws T}.

Local Tactic Notation "orun" uconstr(H) := rewrite (bind_some _ _ _ H); cbn [threads clients contexts receivers].

(** The step from [s] by [op] succeeds and keeps the invariant and the clients. *)
Definition goes_well (s : system T) (op : system T → option (system T)) (P : system T → Prop) : Prop :=
  ∃ s', op s = Some s' ∧ signals_ok s' ∧ P s'.

Definition keeps_clients (s s' : system T) : Prop := ∀ t, is_Some (clients s !! t) → is_Some (clients s' !! t).

Lemma return_well s t v : signals_ok s → is_Some (clients s !! t) →
  ∃ s', return_value v t s = Some s' ∧ signals_ok s'.
Proof using Laws.
  intros [Hok Hset] Ht. destruct (law_return (threads s) t v) as (ts' & Hr & Hts & Hst); [apply Hok| |].
  { rewrite (ok_status _ Hok). destruct Ht as [h ->]. by eexists. }
  eexists. split; [by apply on_threads_run|]. split; [|done]. apply threads_moved; [done..|].
  intros u. rewrite Hst. by case_decide; subst.
Qed.

Lemma known_true {A} (m : gmap id A) i : known m (Some i) = true ↔ is_Some (m !! i).
Proof. apply bool_decide_eq_true. Qed.

Lemma executing s t : base_ok s → executes (threads s) t = true →
  status_of (threads s) t = Some Free ∧ ∃ h, clients s !! t = Some h ∧ h_receiver h = None ∧ k_context h = None.
Proof using Laws.
  intros Hok He. pose proof (law_executes _ t (ok_threads _ Hok) He) as Hf. split; [done|]. rewrite (ok_status _ Hok) in Hf.
  destruct (clients s !! t) as [h|]; [|done]. exists h. split; [done|]. injection Hf as Hf. unfold client_status in Hf.
  by destruct (h_receiver h), (k_context h).
Qed.

(** *** Submit and acknowledge *)

Lemma alter_insert {A} (f : A → A) (m : gmap id A) i x : m !! i = Some x → alter f i m = <[i := f x]> m.
Proof. intros Hx. apply map_eq. intros j. rewrite lookup_alter, lookup_insert. case_decide; [|done]. subst. by rewrite Hx. Qed.


Lemma listened_clients s r s' : listened s r s' → keeps_clients s s'.
Proof. intros [R HR HS|R c q t hs y ts' HR Hd Hh Hy Hst Hrec Hm] u Hu; [done|]. by apply some_alter. Qed.

Lemma listened_settled s r R : receivers s !! r = Some R → settled R → listened s r s.
Proof. apply listened_none. Qed.

(** The change [f] of a context, and its entry in the queue of its receiver once due. *)
Definition changed (s : system T) (c : id) (f : context → context) : system T :=
  System (threads s) (clients s) (alter f c (contexts s)) (receivers s).
Definition offered (s : system T) (c r : id) (f : context → context) : system T :=
  System (threads s) (clients s) (alter f c (contexts s)) (alter (λ R, set_deliver (Seq.enqueue c (_deliver R)) R) r (receivers s)).

Lemma deliverable_run s c x f :
  signals_ok s → contexts s !! c = Some x → c_receiver (f x) = c_receiver x → _killer (f x) = _killer x →
  (context_ok x → context_ok (f x)) → _ack (f x) = true → (due x = true → due (f x) = true) →
  ∃ s', _deliverable c (changed s c f) = Some s' ∧ signals_ok s' ∧
    listened (if due x || (_submits (f x) =? 0) then changed s c f else offered s c (c_receiver x) f) (c_receiver x) s'.
Proof using Laws.
  intros [Hok Hset] Hx Hr Hk Hfx Hack Hmono. set (s1 := changed s c f).
  assert (contexts s1 !! c = Some (f x)) as Hx1 by (unfold s1, changed; cbn; by rewrite lookup_alter_eq, Hx).
  unfold _deliverable. orun Hx1. assert (due (f x) = negb (_submits (f x) =? 0)) as Hdf by (unfold due; by rewrite Hack, andb_true_r).
  assert (due (f x) = due x → base_ok s1) as Hsame.
  { intros E. apply context_change; [done|]. intros x' Hx'. assert (x' = x) as -> by congruence. by rewrite E. }
  destruct (ok_belongs _ Hok c (c_receiver x)) as [R HR]; [unfold belongs; by rewrite Hx|].
  assert (receivers s1 !! c_receiver x = Some R) as HR1 by done.
  assert (listened s1 (c_receiver x) s1) as Hl1 by (by apply (listened_settled s1 _ R), (Hset (c_receiver x))).
  destruct (_submits (f x) =? 0) eqn:Hs.
  { rewrite orb_true_r. exists s1. split_and!; [done| |done]. split; [|done]. apply Hsame. destruct (due x); [by rewrite Hmono in Hdf|done]. }
  unfold _add_deliverable. rewrite Hr. orun HR1. pose proof (r_deliver _ _ _ (ok_receiver _ Hok _ R HR) c) as Hdel.
  unfold due_at in Hdel. rewrite Hx in Hdel. simpl in Hdel. destruct (due x) eqn:Hdx; cbn [orb].
  - rewrite decide_True by (by apply Hdel). simpl. assert (base_ok s1) as Hok1 by (by apply Hsame). exists s1.
    assert (_listen (c_receiver x) s1 = Some s1) as ->; [|split_and!; [done|by split|done]].
    unfold _listen. orun HR1. by apply (settled_run _ s1 _ R), (Hset (c_receiver x)).
  - rewrite decide_False by (intros E; by apply Hdel in E). orun (on_receiver_run s1 _ R (λ x, set_deliver (Seq.enqueue c (_deliver x)) x) HR1).
    change (System _ _ _ _) with (offered s c (c_receiver x) f). set (s2 := offered _ _ _ _). assert (base_ok s2) as Hok2 by (by apply (context_due s c f x)).
    destruct (listen_run s2 (c_receiver x) (set_deliver (Seq.enqueue c (_deliver R)) R)) as (s' & Hl & Hld & Hs'); [done| | | |by exists s'].
    + unfold s2. cbn. by rewrite lookup_alter_eq, HR.
    + cbn. unfold Seq.enqueue. destruct (Hset _ R HR) as [-> | ->]; simpl; lia.
    + intros r' R' Hne HR'. apply (Hset r'). unfold s2 in HR'. cbn in HR'. by rewrite lookup_alter_ne in HR'.
Qed.

(** The guard of a submit excludes an overflow. *)
Lemma refuses_bound n x : 0 ≤ n < 2 ^ 32 → refuses n x = false → _killed x = false ∧ _submits x + n < 2 ^ 32 - 1.
Proof.
  unfold refuses. intros Hn [Hk H%Z.leb_gt]%orb_false_iff. split; [done|].
  assert (u32 (Z.lnot 0) = 2 ^ 32 - 1) as E by done. rewrite E in H.
  unfold u32, wrap in H. rewrite Z.mod_small in H by lia. lia.
Qed.

Lemma not_overflowing n x : context_ok x → 0 ≤ n → _submits x + n < 2 ^ 32 - 1 → u32 (_submits x + n) = _submits x + n.
Proof. intros [_ H] Hn Hb. unfold u32, wrap. apply Z.mod_small. lia. Qed.

(** A submit that is not refused. *)
Lemma accepted_run s c x n :
  signals_ok s → contexts s !! c = Some x → 0 ≤ n < 2 ^ 32 → refuses n x = false →
  ∃ s', submit n c s = Some s' ∧ signals_ok s' ∧
    let f := set_submits (_submits x + n) in
    if _ack x then listened (if due x || (_submits x + n =? 0) then changed s c f else offered s c (c_receiver x) f) (c_receiver x) s'
    else s' = changed s c f.
Proof using Laws.
  intros Hs Hx Hn Href. unfold submit. orun Hx. rewrite Href.
  destruct (refuses_bound n x Hn Href) as [Hkd Hb]. pose proof (ok_context _ (proj1 Hs) c x Hx) as Hxok. pose proof Hxok as [Hxk Hxs].
  orun (on_context_run s c x (λ x, set_submits (u32 (_submits x + n)) x) Hx).
  assert (alter (λ x, set_submits (u32 (_submits x + n)) x) c (contexts s) = alter (set_submits (_submits x + n)) c (contexts s)) as ->.
  { rewrite !(alter_insert _ _ _ _ Hx). do 3 f_equal. apply (not_overflowing n x Hxok); lia. }
  assert (context_ok (set_submits (_submits x + n) x)) as Hfx by (split; [exact Hxk|cbn; lia]).
  fold (changed s c (set_submits (_submits x + n))). destruct (_ack x) eqn:Hack.
  - apply (deliverable_run s c x (set_submits (_submits x + n))); try done.
    unfold due. cbn. rewrite Hack, !andb_true_r, !negb_true_iff, !Z.eqb_neq. lia.
  - eexists. split_and!; [done| |done]. destruct Hs as [Hok Hset]. split; [|done]. apply context_change; [done|].
    intros x' Hx'. assert (x' = x) as -> by congruence. split_and!; [done..| |done].
    unfold due. cbn. by rewrite Hack, !andb_false_r.
Qed.

Lemma submit_run s c x n :
  signals_ok s → contexts s !! c = Some x → 0 ≤ n < 2 ^ 32 →
  ∃ s', submit n c s = Some s' ∧ signals_ok s' ∧ keeps_clients s s'.
Proof using Laws.
  intros Hs Hx Hn. destruct (refuses n x) eqn:Href.
  - unfold submit. rewrite (bind_some _ _ _ Hx), Href. exists s. split_and!; [done..|by intros ?].
  - destruct (accepted_run s c x n Hs Hx Hn Href) as (s' & Hr & Hs' & Hl). exists s'. split_and!; [done..|].
    cbn zeta in Hl. destruct (_ack x); [|subst; by intros ?]. apply listened_clients in Hl. by destruct (due x || _).
Qed.

Lemma guarded_submit_run s c x n (alt : option (system T)) :
  signals_ok s → contexts s !! c = Some x → 0 ≤ n < 2 ^ 32 →
  (∃ s', alt = Some s' ∧ signals_ok s') → ∃ s', (if can_submit n x then submit n c s else alt) = Some s' ∧ signals_ok s'.
Proof using Laws.
  intros Hs Hx Hn Halt. destruct (can_submit n x); [|done]. destruct (submit_run s c x n Hs Hx Hn) as (s' & ? & ? & _). eauto.
Qed.

Lemma ack_run s c x : signals_ok s → contexts s !! c = Some x → ∃ s', ack c s = Some s' ∧ signals_ok s'.
Proof using Laws.
  intros Hs Hx. unfold ack. orun Hx. destruct (_ack x) eqn:Hack; [by exists s|].
  pose proof (ok_context _ (proj1 Hs) c x Hx) as [Hxk Hxs]. destruct (_killed x) eqn:Hkd; cbn [negb].
  - destruct (_killer x) as [t|] eqn:Hk; [|by exists s]. destruct Hs as [Hok Hset].
    assert (kills s t = Some c) as Hkt by (apply (ok_kills _ Hok); unfold killer; by rewrite Hx).
    pose proof (ok_either _ Hok t) as He. pose proof (ok_status _ Hok t) as Hst.
    unfold kills, waits_at in Hkt, He. destruct (clients s !! t) as [h|] eqn:Hh; [|done]. simpl in Hkt, He, Hst.
    destruct (law_done (threads s) t) as (ts' & Hd & Hm); [apply Hok| |].
    { rewrite Hst. unfold client_status. destruct He as [->|He]; [by rewrite Hkt|congruence]. }
    orun (on_client_run s t h (set_k_context None) Hh). orun (on_threads_run (System _ _ _ _) _ ts' Hd).
    rewrite (on_context_run (System _ _ _ _) c x (set_killer None) Hx). eexists. split; [done|].
    split; [|done]. by apply (unblocked_ok s Hok t c ts' x Hx Hk).
  - orun (on_context_run s c x (set_ack true) Hx). assert (_killer x = None) as Hk.
    { destruct (_killer x); [|done]. by destruct Hxk. }
    destruct (deliverable_run s c x (set_ack true)) as (s' & ? & ? & _); try done; [|by eexists].
    unfold due. by rewrite Hack, andb_false_r.
Qed.

(** *** Waiting *)

Lemma add_handler_run s r t :
  signals_ok s → executes (threads s) t = true → is_Some (receivers s !! r) →
  ∃ s' ts', add_handler r t s = Some s' ∧ signals_ok s' ∧ moves (threads s) ts' t (Some In_signal) ∧
    signal_wait_for_signal t (threads s) = Some ts' ∧ listened (waiting_at s t r ts') r s'.
Proof using Laws.
  intros [Hok Hset] He [R HR]. destruct (executing s t Hok He) as (Hf & h & Hh & Hhr & Hhk).
  destruct (law_wait (threads s) t) as (ts' & Hw & Hm); [apply Hok|done|].
  unfold add_handler. orun Hh. rewrite Hhr. orun (on_receiver_run s r R (λ x, set_handlers (Seq.enqueue t (_handlers x)) x) HR).
  orun (on_client_run (System _ _ _ _) t h (set_h_receiver (Some r)) Hh). orun (on_threads_run (System _ _ _ _) _ ts' Hw).
  fold (waiting_at s t r ts'). assert (base_ok (waiting_at s t r ts')) as Hok1.
  { apply waiting_ok; try done. by rewrite Hh. }
  destruct (listen_run (waiting_at s t r ts') r (set_handlers (Seq.enqueue t (_handlers R)) R)) as (s' & Hl & Hld & Hs'); [done| | | |].
  - cbn. by rewrite lookup_alter_eq, HR.
  - cbn. unfold Seq.enqueue. destruct (Hset _ R HR) as [-> | ->]; simpl; lia.
  - intros r' R' Hne HR'. apply (Hset r'). cbn in HR'. by rewrite lookup_alter_ne in HR'.
  - by exists s', ts'.
Qed.

Lemma add_handler_clients s r t ts' s' : listened (waiting_at s t r ts') r s' → keeps_clients s s'.
Proof. intros Hl u Hu. apply (listened_clients _ _ _ Hl). by apply some_alter. Qed.

Lemma settled_alter (s : system T) r f : all_settled s → (∀ R, settled R → settled (f R)) →
  ∀ r' R', alter f r (receivers s) !! r' = Some R' → settled R'.
Proof using Type.
  intros Hset Hf r' R' HR'. rewrite lookup_alter in HR'. case_decide; [|by apply (Hset r')]. subst.
  destruct (receivers s !! r') as [R|] eqn:HR; [|done]. injection HR' as <-. by apply Hf, (Hset r').
Qed.

Lemma settled_remove t R : settled R → settled (set_handlers (Seq.remove t (_handlers R)) R).
Proof. intros [H|H]; [by left|right]. cbn. by rewrite H. Qed.

Lemma cancel_blocking_run s t :
  signals_ok s → awaits_signal (threads s) t = true →
  ∃ s', cancel_blocking t s = Some s' ∧ signals_ok s' ∧ keeps_clients s s'.
Proof using Laws.
  intros [Hok Hset] Ha. rewrite law_awaits in Ha by apply Hok. apply bool_decide_eq_true in Ha.
  destruct (law_resume (threads s) t) as (ts' & Hr & Hm); [apply Hok|done|].
  rewrite (ok_status _ Hok) in Ha. destruct (clients s !! t) as [h|] eqn:Hh; [|done]. injection Ha as Ha.
  unfold client_status in Ha. destruct (h_receiver h) as [r|] eqn:Hhr; [|by destruct (k_context h)].
  assert (waits_at s t = Some r) as Hw by (unfold waits_at; by rewrite Hh).
  destruct (ok_waits _ Hok t r Hw) as [R HR]. unfold cancel_blocking, handler_cancel_waiting. rewrite !(bind_some _ _ _ Hh), Hhr.
  unfold _handler_cancelled. rewrite (bind_some _ _ _ (on_receiver_run s r R (λ x, set_handlers (Seq.remove t (_handlers x)) x) HR)).
  orun (on_client_run (System _ _ _ _) t h (set_h_receiver None) Hh). rewrite (on_threads_run (System _ _ _ _) _ ts' Hr).
  eexists. split_and!; [done| |by intros u Hu; apply some_alter].
  split; [by apply (left_ok s Hok t r ts')|]. intros r' R'. apply (settled_alter s); [done|]. intros ?. by apply settled_remove.
Qed.

(** *** Killing *)

Lemma kill_run s t c x :
  signals_ok s → executes (threads s) t = true → contexts s !! c = Some x → ∃ s', kill t c s = Some s' ∧ signals_ok s'.
Proof using Laws.
  intros [Hok Hset] He Hx. destruct (executing s t Hok He) as (Hf & h & Hh & Hhr & Hhk).
  pose proof (ok_context _ Hok c x Hx) as [Hxk Hxs].
  unfold kill. orun Hx. destruct (_killed x) eqn:Hkd; [by exists s|]. destruct (_ack x) eqn:Hack.
  - rewrite (on_context_run s c x (set_killed true) Hx). eexists. split; [done|]. split; [|done].
    apply context_change; [done|]. intros x' Hx'. assert (x' = x) as -> by congruence. split_and!; try done.
    intros _. split; cbn; [|done]. intros Hk. by destruct (Hxk Hk).
  - destruct (law_pending (threads s) t) as (ts' & Hp & Hm); [apply Hok|done|].
    orun (on_context_run s c x (set_killed true ∘ set_killer (Some t)) Hx). orun (on_client_run (System _ _ _ _) t h (set_k_context (Some c)) Hh).
    rewrite (on_threads_run (System _ _ _ _) _ ts' Hp). eexists. split; [done|]. split; [|done].
    apply (killing_ok s Hok t c ts' x Hx); try done. by rewrite Hh.
Qed.

(** *** Creation and destruction *)

Lemma new_context_run s c r imprint :
  signals_ok s → contexts s !! c = None → is_Some (receivers s !! r) → ∃ s', new_context c r imprint s = Some s' ∧ signals_ok s'.
Proof.
  intros [Hok Hset] Hc [R HR]. unfold new_context, _add_context.
  rewrite (on_receiver_run (System _ _ _ _) r R _ HR). cbn. eexists. split; [done|]. split; [apply context_new; [done..|by eexists]|].
  intros r' R'. by apply (settled_alter s).
Qed.

Lemma remove_out c q : c ∉ q → Seq.remove c q = q.
Proof.
  unfold Seq.remove. induction q as [|d q IH]; [done|]. intros [Hd Hq]%not_elem_of_cons.
  rewrite filter_cons_True by congruence. by rewrite IH.
Qed.

Lemma remove_head c q : NoDup (c :: q) → Seq.remove c (c :: q) = q.
Proof. intros [Hc _]%NoDup_cons. unfold Seq.remove. rewrite filter_cons_False by tauto. by apply remove_out. Qed.

(** The destructor, once [_contexts] of the receiver may have been cut to [q]. *)
Lemma destruct_context_run (s : system T) c x R q :
  contexts s !! c = Some x → _killer x = None → receivers s !! c_receiver x = Some R → Seq.remove c q = Seq.remove c (_contexts R) →
  destruct_context c (System (threads s) (clients s) (contexts s) (alter (set_contexts q) (c_receiver x) (receivers s))) =
    Some (without_context s c (c_receiver x)).
Proof.
  intros Hx Hk HR Hq. unfold destruct_context. orun Hx. rewrite Hk. cbn [mbind option_bind]. unfold _context_destructed.
  set (r := c_receiver x) in *. set (R1 := set_contexts q R).
  assert (alter (set_contexts q) r (receivers s) = <[r := R1]> (receivers s)) as -> by (by apply alter_insert).
  rewrite (bind_some _ _ _ (on_receiver_run (System _ _ _ (<[r := R1]> _)) r R1 _ (lookup_insert_eq _ _ _))).
  cbn [threads clients contexts receivers]. rewrite alter_insert_eq.
  set (R2 := set_contexts (Seq.remove c (_contexts R1)) R1). orun (lookup_insert_eq (receivers s) r R2).
  assert (without_context s c r = System (threads s) (clients s) (base.delete c (contexts s))
    (<[r := set_deliver (Seq.remove c (_deliver R)) R2]> (receivers s))) as ->.
  { unfold without_context. f_equal. rewrite (alter_insert _ _ _ _ HR). unfold R2, R1. cbn [_contexts set_contexts]. by rewrite Hq. }
  case_decide as Hin.
  - rewrite (on_receiver_run (System _ _ _ (<[r := R2]> _)) r R2 _ (lookup_insert_eq _ _ _)). cbn. by rewrite alter_insert_eq.
  - cbn. do 3 f_equal. unfold set_deliver. rewrite remove_out by done. by destruct R.
Qed.

Lemma without_context_ok s c x :
  signals_ok s → contexts s !! c = Some x → _killer x = None → signals_ok (without_context s c (c_receiver x)).
Proof.
  intros [Hok Hset] Hx Hk. split; [by apply context_removed|]. intros r' R'. apply (settled_alter s); [done|].
  intros R [H|H]; [left|by right]. cbn. by rewrite H.
Qed.

Lemma delete_context_run s c x :
  signals_ok s → contexts s !! c = Some x → _killer x = None → ∃ s', destruct_context c s = Some s' ∧ signals_ok s'.
Proof.
  intros Hs Hx Hk. destruct (ok_belongs _ (proj1 Hs) c (c_receiver x)) as [R HR]; [unfold belongs; by rewrite Hx|].
  exists (without_context s c (c_receiver x)). split; [|by apply without_context_ok].
  rewrite <- (destruct_context_run s c x R (_contexts R) Hx Hk HR eq_refl). f_equal. destruct s as [ts cl cs rs]. cbn in *. f_equal.
  rewrite (alter_insert _ _ _ _ HR). symmetry. apply insert_id. by destruct R.
Qed.

Lemma dequeue_run q s r R :
  signals_ok s → receivers s !! r = Some R → _contexts R = q → Forall (λ c, killer s c = None) q →
  ∃ s' R', dequeue_contexts (length q) r s = Some s' ∧ signals_ok s' ∧ receivers s' !! r = Some R' ∧ _contexts R' = [] ∧
    (_handlers R = [] → _handlers R' = []).
Proof.
  revert s R. induction q as [|c q IH]; intros s R Hs HR Hq Hk.
  { exists s, R. split_and!; try done. cbn. rewrite HR. cbn. by rewrite Hq. }
  apply Forall_cons in Hk as [Hk Hks]. cbn [dequeue_contexts length]. rewrite (bind_some _ _ _ HR), Hq.
  destruct (ok_receiver _ (proj1 Hs) r R HR) as [(N & _) G2 _ _]. rewrite Hq in N, G2.
  assert (belongs s c = Some r) as Hb by (apply G2; constructor). unfold belongs in Hb.
  destruct (contexts s !! c) as [x|] eqn:Hx; [|done]. injection Hb as Hr. unfold killer in Hk. rewrite Hx in Hk. simpl in Hk.
  orun (on_receiver_run s r R (set_contexts q) HR). rewrite <- Hr in *.
  orun (destruct_context_run s c x R q Hx Hk HR ltac:(by rewrite Hq, remove_head, remove_out by (done || by apply NoDup_cons in N as [? _]))).
  destruct (IH (without_context s c (c_receiver x)) (set_deliver (Seq.remove c (_deliver R)) (set_contexts q R))) as (s' & R' & ? & ? & ? & ? & Hh).
  - by apply without_context_ok.
  - cbn. rewrite lookup_alter_eq, HR. cbn. rewrite Hq. rewrite remove_head by done. done.
  - done.
  - apply (Forall_impl _ _ _ Hks). intros d. unfold killer, without_context. cbn. destruct (decide (d = c)) as [->|]; [by rewrite lookup_delete_eq|].
    by rewrite lookup_delete_ne.
  - exists s', R'. by split_and!.
Qed.

Lemma delete_receiver_run s r R :
  signals_ok s → receivers s !! r = Some R → _handlers R = [] → Forall (λ c, killer s c = None) (_contexts R) →
  ∃ s', destruct_receiver r s = Some s' ∧ signals_ok s'.
Proof.
  intros Hs HR Hh Hk. destruct (dequeue_run _ s r R Hs HR eq_refl Hk) as (s' & R' & Hd & [Hok Hset] & HR' & Hc & Hh').
  unfold destruct_receiver. orun HR. orun Hd. eexists. split; [done|]. split; [apply (receiver_removed s' r R'); auto|].
  intros r' R0 H. cbn in H. apply lookup_delete_Some in H as [_ H]. by apply (Hset r').
Qed.

Lemma new_thread_run s t : signals_ok s → clients s !! t = None → ∃ s', new_thread t s = Some s' ∧ signals_ok s'.
Proof using Laws.
  intros [Hok Hset] Ht. destruct (law_construct (threads s) t) as (ts' & Hc & Hm); [apply Hok|by rewrite (ok_status _ Hok), Ht|].
  unfold new_thread. orun (on_threads_run s _ ts' Hc). eexists. split; [done|]. split; [|done]. by apply client_new.
Qed.

Lemma delete_thread_run s t : signals_ok s → is_Some (clients s !! t) → ∃ s', delete_thread t s = Some s' ∧ signals_ok s'.
Proof using Laws.
  intros [Hok Hset] [h Hh]. destruct (law_destruct (threads s) t) as (ts' & Hd & Hm); [apply Hok|rewrite (ok_status _ Hok), Hh; by eexists|].
  pose proof (ok_either _ Hok t) as He. unfold waits_at, kills in He. rewrite Hh in He. simpl in He.
  unfold delete_thread, killer_cancel_waiting. rewrite (bind_some _ _ _ Hh). destruct (k_context h) as [c|] eqn:Hk.
  - assert (h_receiver h = None) as Hr by (by destruct He).
    assert (kills s t = Some c) as Hkt by (unfold kills; by rewrite Hh). pose proof (proj1 (ok_kills _ Hok t c) Hkt) as Hc.
    unfold killer in Hc. destruct (contexts s !! c) as [x|] eqn:Hx; [|done]. unfold _killer_cancelled. orun (on_context_run s c x (set_killer None) Hx).
    unfold handler_cancel_waiting. cbn [clients]. rewrite (bind_some _ _ _ Hh), Hr. cbn [mbind option_bind].
    orun (on_threads_run (System _ _ _ _) _ ts' Hd). eexists. split; [done|]. split; [by apply (killing_removed s t c ts')|done].
  - cbn [mbind option_bind]. unfold handler_cancel_waiting. rewrite (bind_some _ _ _ Hh). destruct (h_receiver h) as [r|] eqn:Hr.
    + assert (waits_at s t = Some r) as Hw by (unfold waits_at; by rewrite Hh). destruct (ok_waits _ Hok t r Hw) as [R HR].
      unfold _handler_cancelled. orun (on_receiver_run s r R (λ x, set_handlers (Seq.remove t (_handlers x)) x) HR).
      orun (on_client_run (System _ _ _ _) t h (set_h_receiver None) Hh). orun (on_threads_run (System _ _ _ _) _ ts' Hd).
      eexists. split; [done|]. rewrite delete_alter_eq. split; [by apply (waiting_removed s t r ts')|].
      intros r' R'. apply (settled_alter s); [done|]. intros ?. by apply settled_remove.
    + cbn [mbind option_bind]. orun (on_threads_run s _ ts' Hd). eexists. split; [done|]. split; [|done].
      apply client_removed; try done; [unfold waits_at|unfold kills]; by rewrite Hh.
Qed.

(** *** Kernel calls *)

Lemma await_signal_well s t r :
  signals_ok s → executes (threads s) t = true → known (receivers s) r = true → ∃ s', _call_await_signal t r s = Some s' ∧ signals_ok s'.
Proof using Laws.
  intros Hs He Hr. destruct (executing s t (proj1 Hs) He) as (_ & h & Hh & Hhr & _). assert (is_Some (clients s !! t)) as Ht by (by eexists).
  unfold _call_await_signal. rewrite (bind_some _ _ _ Hh). destruct (_cancel_next_await_signal h).
  - destruct (return_well s t (-1) Hs Ht) as (s1 & H1 & [Hok1 Hset1]). orun H1.
    assert (clients s1 = clients s) as E.
    { unfold return_value, on_threads in H1. destruct (user_arg_0 _ _ _); [|done]. by injection H1 as <-. }
    rewrite <- E in Hh. rewrite (on_client_run s1 t h (set_cancel_next false) Hh). eexists. split; [done|]. split; [by apply client_flag|done].
  - destruct r as [r|]; [|by apply return_well]. unfold can_add_handler. rewrite (bind_some _ _ _ Hh), Hhr. cbn.
    destruct (add_handler_run s r t Hs He) as (s1 & ts1 & H1 & Hs1 & _ & _ & Hk1%add_handler_clients); [by apply known_true|].
    orun H1. apply return_well; auto.
Qed.

Lemma pending_well s t r :
  signals_ok s → executes (threads s) t = true → known (receivers s) r = true → ∃ s', _call_pending_signal t r s = Some s' ∧ signals_ok s'.
Proof using Laws.
  intros Hs He Hr. destruct (executing s t (proj1 Hs) He) as (_ & h & Hh & Hhr & _). assert (is_Some (clients s !! t)) as Ht by (by eexists).
  unfold _call_pending_signal. destruct r as [r|]; [|by apply return_well]. unfold can_add_handler. rewrite (bind_some _ _ _ Hh), Hhr. cbn.
  destruct (add_handler_run s r t Hs He) as (s1 & ts1 & H1 & Hs1 & _ & _ & Hk1%add_handler_clients); [by apply known_true|]. orun H1.
  destruct (awaits_signal (threads s1) t) eqn:Ha; [|apply return_well; auto].
  destruct (cancel_blocking_run s1 t Hs1 Ha) as (s2 & H2 & Hs2 & Hk2). orun H2. apply return_well; auto.
Qed.

Lemma cancel_next_well s t u :
  signals_ok s → executes (threads s) t = true → known (clients s) u = true →
  ∃ s', _call_cancel_next_await_signal t u s = Some s' ∧ signals_ok s'.
Proof using Laws.
  intros Hs He Hu. destruct (executing s t (proj1 Hs) He) as (Hf & _). unfold _call_cancel_next_await_signal. destruct u as [u|].
  - apply known_true in Hu as [h Hh]. destruct (awaits_signal (threads s) u) eqn:Ha.
    + destruct (cancel_blocking_run s u Hs Ha) as (s' & ? & ? & _). by eexists.
    + rewrite (on_client_run s u h (set_cancel_next true) Hh). eexists. split; [done|]. destruct Hs. split; [by apply client_flag|done].
  - destruct Hs as [Hok Hset]. destruct (law_die (threads s) t) as (ts' & Hd & Hts & Hst); [apply Hok|done|].
    rewrite (on_threads_run s _ ts' Hd). eexists. split; [done|]. split; [|done]. apply threads_moved; [done..|].
    intros v. rewrite Hst. case_decide; [|done]. by subst.
Qed.

Lemma submit_well s t c n :
  signals_ok s → executes (threads s) t = true → known (contexts s) c = true → 0 ≤ n < 2 ^ 32 →
  ∃ s', _call_submit_signal t c n s = Some s' ∧ signals_ok s'.
Proof using Laws.
  intros Hs He Hc Hn. destruct (executing s t (proj1 Hs) He) as (_ & h & Hh & _). assert (is_Some (clients s !! t)) as Ht by (by eexists).
  unfold _call_submit_signal. destruct c as [c|]; [|by apply return_well]. apply known_true in Hc as [x Hx]. rewrite (bind_some _ _ _ Hx).
  destruct (can_submit n x); cbn [negb]; [|by apply return_well].
  destruct (submit_run s c x n Hs Hx Hn) as (s1 & H1 & Hs1 & Hk1). orun H1. apply return_well; auto.
Qed.

Lemma exception_well s t p u :
  signals_ok s → executes (threads s) t = true → known (contexts s) p = true → ∃ s', _mmu_exception t p u s = Some s' ∧ signals_ok s'.
Proof using Laws.
  intros [Hok Hset] He Hp. destruct (executing s t Hok He) as (Hf & _).
  destruct (law_restart (threads s) t) as (ts' & Hr & Hts & Hst); [apply Hok|done|]. unfold _mmu_exception. orun (on_threads_run s _ ts' Hr).
  assert (signals_ok (System ts' (clients s) (contexts s) (receivers s))) as Hs1.
  { split; [|done]. apply threads_moved; [done..|]. intros v. rewrite Hst. case_decide; [|done]. by subst. }
  destruct u; [by eexists|]. destruct p as [c|]; [|by eexists]. apply known_true in Hp as [x Hx]. cbn [contexts]. rewrite (bind_some _ _ _ Hx).
  apply guarded_submit_run; [done..|by eexists].
Qed.

Lemma signal_call_well s c : signals_ok s → admissible s c = true → ∃ s', perform c s = Some s' ∧ signals_ok s'.
Proof using Laws.
  intros Hs Ha. destruct c as [t r|t r|t u|t c n|t c|t c|c|c|t p k|c r i|c|r|r|t|t]; cbn [perform admissible] in *;
    rewrite ?andb_true_iff, ?known_true in Ha.
  - apply await_signal_well; [done|apply Ha..].
  - apply pending_well; [done|apply Ha..].
  - apply cancel_next_well; [done|apply Ha..].
  - apply submit_well; [done|apply Ha..|]. lia.
  - destruct c as [c|]; [|by exists s]. destruct Ha as [_ [x Hx]%known_true]. by apply ack_run with x.
  - destruct Ha as [He Hc]. destruct (executing s t (proj1 Hs) He) as (_ & h & Hh & _).
    unfold _call_kill_signal_context. destruct c as [c|]; [|apply return_well; [done|by eexists]].
    apply known_true in Hc as [x Hx]. rewrite (bind_some _ _ _ Hx).
    destruct (can_kill x); cbn [negb]; [by apply kill_run with x|apply return_well; [done|by eexists]].
  - destruct Ha as [x Hx]. unfold occurred. rewrite (bind_some _ _ _ Hx). apply guarded_submit_run; [done..|by eexists].
  - destruct c as [c|]; [|by exists s]. apply known_true in Ha as [x Hx]. cbn. rewrite (bind_some _ _ _ Hx).
    replace (if negb (can_submit 1 x) then Some s else submit 1 c s) with (if can_submit 1 x then submit 1 c s else Some s) by (by destruct (can_submit 1 x)).
    apply guarded_submit_run; [done..|by eexists].
  - apply exception_well; [done|apply Ha..].
  - destruct Ha as [Hc%bool_decide_eq_true Hr]. by apply new_context_run.
  - destruct Ha as [[x Hx] Hk%bool_decide_eq_true]. apply (delete_context_run s c x); [done..|]. unfold killer in Hk. by rewrite Hx in Hk.
  - apply bool_decide_eq_true in Ha. destruct Hs as [Hok Hset]. eexists. split; [done|]. split; [by apply receiver_new|].
    intros r' R' HR'. cbn in HR'. apply lookup_insert_Some in HR' as [[_ <-]|[_ HR']]; [by left|by apply (Hset r')].
  - destruct (receivers s !! r) as [R|] eqn:HR; [|done]. apply andb_true_iff in Ha as [Hh%bool_decide_eq_true Hk].
    apply (delete_receiver_run s r R); try done. apply Forall_forall. intros c Hc. rewrite forallb_forall in Hk.
    apply list_elem_of_In, Hk, bool_decide_eq_true in Hc. done.
  - apply bool_decide_eq_true in Ha. by apply new_thread_run.
  - by apply delete_thread_run.
Qed.

Lemma step_well s s' : signals_ok s → step s s' → signals_ok s'.
Proof using Laws.
  intros Hs [c s1 Ha Hp|ts' Hts]; [destruct (signal_call_well s c Hs Ha) as (s2 & Hp2 & Hs2); congruence|].
  destruct Hs as [Hok Hset]. destruct (law_step _ ts' (ok_threads _ Hok) Hts) as [Hts' Hst]. split; [by apply threads_moved|done].
Qed.

Lemma steps_well s s' : rtc step s s' → signals_ok s → signals_ok s'.
Proof using Laws. induction 1 as [|s1 s2 s3 H12 _ IH]; [done|]. intros Hs. apply IH. by apply (step_well s1). Qed.

(** *** Who gets a signal *)

(** The context [c], that [f] turns into one with a signal to deliver, gives it to the
    handler that waits longest at its receiver [R], or else is in its queue, and goes
    last if it is new there. *)
Definition hands_over (s : system T) (c : id) (x : context) (f : context → context) (R : receiver) (s' : system T) : Prop :=
  match _handlers R with
  | [] => s' = if due x then changed s c f else offered s c (c_receiver x) f
  | t :: hs => ∃ ts', signal_receive_signal (_imprint (f x)) (_submits (f x)) t (threads s) = Some ts' ∧
      s' = System ts' (alter (set_h_receiver None) t (clients s)) (alter (set_ack false ∘ set_submits 0 ∘ f) c (contexts s))
             (alter (set_handlers hs) (c_receiver x) (receivers s))
  end.

Lemma hands_over_run s c x f R s' :
  signals_ok s → contexts s !! c = Some x → receivers s !! c_receiver x = Some R → _submits (f x) ≠ 0 →
  listened (if due x || (_submits (f x) =? 0) then changed s c f else offered s c (c_receiver x) f) (c_receiver x) s' →
  hands_over s c x f R s'.
Proof.
  intros [Hok Hset] Hx HR Hf Hl. apply Z.eqb_neq in Hf. rewrite Hf, orb_false_r in Hl. unfold hands_over.
  pose proof (r_deliver _ _ _ (ok_receiver _ Hok _ R HR) c) as Hdel. unfold due_at in Hdel. rewrite Hx in Hdel. simpl in Hdel.
  assert (∀ R', receivers (if due x then changed s c f else offered s c (c_receiver x) f) !! c_receiver x = Some R' →
    R' = if due x then R else set_deliver (Seq.enqueue c (_deliver R)) R) as HR'.
  { intros R'. destruct (due x); cbn; rewrite ?lookup_alter_eq, HR; by intros [= <-]. }
  destruct (Hset _ R HR) as [Hd|Hh].
  - destruct (due x); [rewrite Hd in Hdel; pose proof (proj2 Hdel eq_refl) as E; by apply elem_of_nil in E|].
    destruct Hl as [R' HR1 HS|R' c' q t hs y ts' HR1 Hd1 Hh1 Hy Hst Hrec Hm].
    + apply HR' in HR1 as ->. unfold settled in HS. cbn in HS. unfold Seq.enqueue in HS. rewrite Hd in HS. destruct HS as [|Hh]; [done|].
      by rewrite Hh.
    + apply HR' in HR1 as ->. cbn in Hd1, Hh1. rewrite Hd in Hd1. injection Hd1 as <- <-. rewrite Hh1. exists ts'.
      cbn in Hy. rewrite lookup_alter_eq, Hx in Hy. injection Hy as <-. split; [done|]. unfold delivered, offered. cbn.
      rewrite !alter_alter_eq, !(alter_insert _ _ _ _ HR). do 3 f_equal. cbn. by destruct R; cbn in *; subst.
  - rewrite Hh. destruct Hl as [R' HR1 HS|R' c' q t hs y ts' HR1 Hd1 Hh1 Hy Hst Hrec Hm]; [done|].
    apply HR' in HR1 as ->. destruct (due x); cbn in Hh1; congruence.
Qed.

(** A receiver where nobody waits, or nothing is due, stays as it is. *)
Lemma listened_same s c f r R s' : signals_ok s → receivers s !! r = Some R → listened (changed s c f) r s' → s' = changed s c f.
Proof.
  intros [_ Hset] HR [R' HR1 HS|R' c' q t hs y ts' HR1 Hd1 Hh1 Hy Hst Hrec Hm]; [done|]. cbn in HR1.
  assert (R' = R) as -> by congruence. destruct (Hset r R HR); congruence.
Qed.

Lemma await_effect s t r R ts' s' :
  signals_ok s → executes (threads s) t = true → receivers s !! r = Some R → listened (waiting_at s t r ts') r s' →
  match _deliver R with
  | [] => s' = waiting_at s t r ts'
  | c :: q => ∃ x, contexts s !! c = Some x ∧ signal_receive_signal (_imprint x) (_submits x) t ts' = Some (threads s') ∧
      clients s' = clients s ∧ contexts s' = alter (set_ack false ∘ set_submits 0) c (contexts s) ∧
      receivers s' = alter (set_deliver q) r (receivers s)
  end.
Proof using Laws.
  intros [Hok Hset] He HR Hl. destruct (executing s t Hok He) as (_ & h & Hh & Hhr & _).
  assert (∀ R', receivers (waiting_at s t r ts') !! r = Some R' → R' = set_handlers (Seq.enqueue t (_handlers R)) R) as HR'.
  { intros R'. cbn. rewrite lookup_alter_eq, HR. by intros [= <-]. }
  destruct Hl as [R' HR1 HS|R' c q t' hs y ts'' HR1 Hd1 Hh1 Hy Hst Hrec Hm]; apply HR' in HR1 as ->.
  - unfold settled in HS. cbn in HS. destruct HS as [->|HS]; [done|]. unfold Seq.enqueue in HS. by apply app_eq_nil in HS as [_ ?].
  - cbn in Hd1, Hh1. rewrite Hd1. destruct (Hset r R HR) as [|Hh0]; [congruence|]. rewrite Hh0 in Hh1. injection Hh1 as <- <-.
    exists y. split_and!; [done..| |done|]; cbn.
    + rewrite alter_alter_eq, (alter_insert _ _ _ _ Hh). apply insert_id. rewrite Hh. f_equal. by destruct h; cbn in *; subst.
    + rewrite alter_alter_eq, !(alter_insert _ _ _ _ HR). f_equal. by destruct R; cbn in *; subst.
Qed.

Lemma signals_booted_ok ts names :
  thread_ok ts → (∀ t, status_of ts t = if decide (t ∈ names) then Some Free else None) → signals_ok (booted ts names).
Proof.
  intros Hts Hst. split; [|intros r R; cbn; by rewrite lookup_empty]. split; cbn; try done.
  - intros t. rewrite Hst, lookup_gset_to_gmap. by case_decide; [rewrite option_guard_True|rewrite option_guard_False].
  - intros t r. unfold waits_at. cbn. rewrite lookup_gset_to_gmap. destruct (guard _); by cbn.
  - intros t c. unfold kills, killer. cbn. rewrite lookup_gset_to_gmap, lookup_empty. destruct (guard _); by cbn.
  - intros t. left. unfold waits_at. cbn. rewrite lookup_gset_to_gmap. by destruct (guard _).
Qed.

(** ** The theorems *)

(** Threads that neither wait for signals nor for the end of a context *)
Definition starts (ts : T) (names : gset id) : Prop :=
  thread_ok ts ∧ ∀ t, status_of ts t = if decide (t ∈ names) then Some Free else None.

Definition reachable (s : system T) : Prop := ∃ ts names, starts ts names ∧ rtc step (booted ts names) s.

Lemma signals_reachable_ok s : reachable s → signals_ok s.
Proof using Laws. intros (ts & names & [Hts Hst] & Hr). apply (steps_well _ _ Hr). by apply signals_booted_ok. Qed.


(** C11: signals reach the handlers in order.  In every reachable state: a running thread
    that begins to wait at a receiver takes at once the signal of the context that is first
    in the queue, with all its submits, or, if there is none, waits behind the other
    handlers; a submit that is not refused adds to the counter, and if the last delivery is
    acknowledged, the signal goes at once to the handler that waits longest, or the context
    to the end of the queue; an acknowledgement does the same for the submits since the last
    delivery. *)
Theorem signal_delivery s :
  reachable s →
  (∀ t r R, executes (threads s) t = true → receivers s !! r = Some R →
    ∃ s' ts', add_handler r t s = Some s' ∧ signal_wait_for_signal t (threads s) = Some ts' ∧
      match _deliver R with
      | [] => s' = waiting_at s t r ts'
      | c :: q => ∃ x, contexts s !! c = Some x ∧ signal_receive_signal (_imprint x) (_submits x) t ts' = Some (threads s') ∧
          clients s' = clients s ∧ contexts s' = alter (set_ack false ∘ set_submits 0) c (contexts s) ∧
          receivers s' = alter (set_deliver q) r (receivers s)
      end) ∧
  (∀ c x R n, contexts s !! c = Some x → receivers s !! c_receiver x = Some R → 0 ≤ n < 2 ^ 32 → refuses n x = false →
    ∃ s', submit n c s = Some s' ∧
      let f := set_submits (_submits x + n) in
      if _ack x && negb (_submits x + n =? 0) then hands_over s c x f R s' else s' = changed s c f) ∧
  (∀ c x R, contexts s !! c = Some x → receivers s !! c_receiver x = Some R → _killed x = false → _ack x = false →
    ∃ s', ack c s = Some s' ∧
      if _submits x =? 0 then s' = changed s c (set_ack true) else hands_over s c x (set_ack true) R s').
Proof using Laws.
  intros Hr. pose proof (signals_reachable_ok s Hr) as Hs. pose proof Hs as [Hok Hset]. split_and!.
  - intros t r R He HR. destruct (add_handler_run s r t Hs He) as (s' & ts' & Hrun & _ & _ & Hw & Hl); [by eexists|].
    exists s', ts'. split_and!; [done..|]. by apply (await_effect s t r R).
  - intros c x R n Hx HR Hn Href. destruct (accepted_run s c x n Hs Hx Hn Href) as (s' & Hrun & _ & Hl). exists s'. split; [done|].
    cbn zeta in *. destruct (_ack x); cbn [andb]; [|done]. destruct (_submits x + n =? 0) eqn:Hz; cbn [negb].
    + rewrite orb_true_r in Hl. by apply (listened_same s c _ (c_receiver x) R).
    + apply hands_over_run; try done; cbn; [by apply Z.eqb_neq|by rewrite Hz].
  - intros c x R Hx HR Hk Ha. unfold ack. rewrite (bind_some _ _ _ Hx), Ha, Hk. cbn [negb].
    rewrite (bind_some _ _ _ (on_context_run s c x (set_ack true) Hx)). fold (changed s c (set_ack true)).
    destruct (deliverable_run s c x (set_ack true)) as (s' & Hrun & _ & Hl); try done.
    { intros [Hxk Hxs]. split; [|done]. cbn. intros Hc. destruct (Hxk Hc). congruence. }
    { unfold due. by rewrite Ha, andb_false_r. }
    exists s'. split; [done|]. cbn [_submits set_ack] in Hl. destruct (_submits x =? 0) eqn:Hz.
    + rewrite orb_true_r in Hl. by apply (listened_same s c _ (c_receiver x) R).
    + apply hands_over_run; try done; cbn; [by apply Z.eqb_neq|by rewrite Hz].
Qed.

End Safety.
