(* ===== verification/Signal_account.v ===== *)
(** * Signal_account: no signal is lost or delivered twice

    The threads of [Signal] with a record of what they receive.  Over any calls, what the
    threads receive from a context and what the context still counts is what was submitted
    to it and not refused. *)

From S2P Require Import Prelude Fifo Signal Signal_inv Signal_props.

(** A signal as it arrives: the thread, the imprint of the context and the number. *)
Definition delivery : Type := id * Z * Z.

Section Recorded.
Context {T : Type} {Ops : Thread_ops T}.

Definition lift (f : T → option T) (p : T * list delivery) : option (T * list delivery) := ts ← f p.1; Some (ts, p.2).

#[export] Instance recorded : Thread_ops (T * list delivery) := {
  construct_thread t := lift (construct_thread t);
  destruct_thread t := lift (destruct_thread t);
  user_arg_0 v t := lift (user_arg_0 v t);
  _die t := lift (_die t);
  await_restart t := lift (await_restart t);
  signal_wait_for_signal t := lift (signal_wait_for_signal t);
  signal_receive_signal i n t p := ts ← signal_receive_signal i n t p.1; Some (ts, p.2 ++ [(t, i, n)]);
  signal_context_kill_pending t := lift (signal_context_kill_pending t);
  signal_context_kill_done t := lift (signal_context_kill_done t);
  signal_context_kill_failed t := lift (signal_context_kill_failed t);
  awaits_signal p := awaits_signal p.1;
  resume_from_signal t := lift (resume_from_signal t) }.

Local Abbreviation sys := (system (T * list delivery)).
Local Abbreviation op := (sys → option sys).

(** ** The account *)

(** What arrived with the imprint [i]. *)
Definition received (i : Z) (s : sys) : Z :=
  foldr Z.add 0 ((λ d : delivery, if d.1.2 =? i then d.2 else 0) <$> (threads s).2).

(** What the context [c] counts, if it has the imprint [i]. *)
Definition counted (i : Z) (c : id) (s : sys) : Z :=
  match contexts s !! c with Some x => if _imprint x =? i then _submits x else 0 | None => 0 end.

Definition account (i : Z) (c : id) (s : sys) : Z := received i s + counted i c s.

(** [c] exists with the imprint [i]. *)
Definition alive (i : Z) (c : id) (s : sys) : Prop := ∃ x, contexts s !! c = Some x ∧ _imprint x = i.

(** No other context has the imprint [i], and the counters are numbers of 32 bits. *)
Definition distinct (i : Z) (c : id) (s : sys) : Prop :=
  ∀ d x, contexts s !! d = Some x → (_imprint x = i → d = c) ∧ 0 ≤ _submits x < 2 ^ 32.

(** From [s] to [s'] the account grows by [n] if [c] survives. *)
Definition grows (i : Z) (c : id) (n : Z) (s s' : sys) : Prop :=
  distinct i c s → distinct i c s' ∧ (alive i c s' → alive i c s ∧ account i c s' = account i c s + n).

Section Account.
Context (i : Z) (c : id).

Lemma grows_refl s : grows i c 0 s s.
Proof. intros Hd. split; [done|]. intros Ha. split; [done|lia]. Qed.

Lemma grows_trans n m s1 s2 s3 : grows i c n s1 s2 → grows i c m s2 s3 → grows i c (n + m) s1 s3.
Proof.
  intros H1 H2 Hd. destruct (H1 Hd) as [Hd2 G1]. destruct (H2 Hd2) as [Hd3 G2]. split; [done|].
  intros Ha. destruct (G2 Ha) as [Ha2 E2]. destruct (G1 Ha2) as [Ha1 E1]. split; [done|lia].
Qed.

(** *** Single changes *)

Lemma grows_frame s s' : contexts s' = contexts s → (threads s').2 = (threads s).2 → grows i c 0 s s'.
Proof.
  intros Hc Ht. unfold grows, distinct, alive, account, received, counted. rewrite Hc, Ht. intros Hd. split; [done|].
  intros Ha. split; [done|lia].
Qed.

Lemma on_receiver_grows r f s s' : on_receiver r f s = Some s' → grows i c 0 s s'.
Proof. unfold on_receiver. intros (R & _ & [= <-])%bind_Some. by apply grows_frame. Qed.

Lemma on_client_grows t f s s' : on_client t f s = Some s' → grows i c 0 s s'.
Proof. unfold on_client. intros (h & _ & [= <-])%bind_Some. by apply grows_frame. Qed.

Lemma on_threads_grows f s s' : on_threads (lift f) s = Some s' → grows i c 0 s s'.
Proof. unfold on_threads, lift. intros (p & (ts & _ & [= <-])%bind_Some & [= <-])%bind_Some. by apply grows_frame. Qed.

(** A change of the counter of [d], and of the record of deliveries. *)
Lemma context_grows d f x n log s s' :
  contexts s !! d = Some x → _imprint (f x) = _imprint x → (0 ≤ _submits x < 2 ^ 32 → 0 ≤ _submits (f x) < 2 ^ 32) →
  contexts s' = alter f d (contexts s) → (threads s').2 = (threads s).2 ++ log →
  (d = c → _imprint x = i → foldr Z.add 0 ((λ d : delivery, if d.1.2 =? i then d.2 else 0) <$> log) + _submits (f x) = _submits x + n) →
  ((d ≠ c → _imprint x ≠ i) → d ≠ c → foldr Z.add 0 ((λ d : delivery, if d.1.2 =? i then d.2 else 0) <$> log) = n) →
  grows i c n s s'.
Proof.
  intros Hx Hi Hb Hc Ht Hc1 Hc2 Hd. split.
  - intros e y. rewrite Hc, lookup_alter. case_decide; [|apply Hd]. subst. rewrite Hx. intros [= <-]. rewrite Hi.
    destruct (Hd e x Hx) as [? ?]. split; [done|auto].
  - intros (y & Hy & Hyi). rewrite Hc, lookup_alter in Hy. unfold account, received, counted.
    assert (∀ l1 l2, foldr Z.add 0 (l1 ++ l2) = foldr Z.add 0 l1 + foldr Z.add 0 l2) as Happ.
    { induction l1; intros; simpl; [done|]. rewrite IHl1. lia. }
    rewrite Hc, Ht, fmap_app, Happ, lookup_alter. destruct (decide (d = c)) as [->|Hne].
    + rewrite Hx in Hy |- *. injection Hy as <-. rewrite Hi in Hyi. split; [by exists x|]. cbn. rewrite Hi, Hyi, Z.eqb_refl.
      specialize (Hc1 eq_refl Hyi). lia.
    + split; [by exists y|]. rewrite Hy, (Hc2 (λ _ E, Hne (proj1 (Hd d x Hx) E)) Hne). lia.
Qed.

Lemma on_context_grows d f s s' :
  (∀ x, _imprint (f x) = _imprint x ∧ _submits (f x) = _submits x) → on_context d f s = Some s' → grows i c 0 s s'.
Proof.
  intros Hf. unfold on_context. intros (x & Hx & [= <-])%bind_Some. destruct (Hf x) as [Hi Hs].
  apply (context_grows d f x 0 []); try done; cbn; [by rewrite Hs|by rewrite app_nil_r|lia].
Qed.

(** *** Operations

    [passes] goes through the steps of an operation, [through] adds up what they do. *)

Create HintDb account.
Hint Resolve on_receiver_grows on_client_grows grows_refl : account.
Hint Extern 1 (grows _ _ 0 ?s ?s') =>
  match goal with E : on_threads _ s = Some s' |- _ => exact (on_threads_grows _ _ _ E) end : account.

Local Ltac passes H :=
  lazymatch type of H with
  | Some ?s1 = Some ?s2 => apply (inj Some) in H; subst
  | (_ ≫= _) = Some _ => let x := fresh "x" in let E := fresh "E" in apply bind_Some in H as (x & E & H); cbn beta in H; passes E; passes H
  | (match ?b with _ => _ end) = Some _ => let E := fresh "E" in destruct b eqn:E; cbn beta iota in H; try discriminate H; passes H
  | _ => idtac
  end.

Local Ltac through :=
  lazymatch goal with
  | |- grows _ _ 0 ?s ?s => apply grows_refl
  | E : ?f ?s = Some ?s2 |- grows _ _ 0 ?s ?s2 => solve [eauto with account]
  | E : ?f ?s = Some ?s1 |- grows _ _ 0 ?s ?s2 => apply (grows_trans 0 0 s s1 s2); [clear - E; solve [eauto with account]|clear E; through]
  end.

Lemma handler_cancel_waiting_grows t s s' : handler_cancel_waiting t s = Some s' → grows i c 0 s s'.
Proof. unfold handler_cancel_waiting, _handler_cancelled. intros H. passes H; through. Qed.

Lemma killer_cancel_waiting_grows t s s' : killer_cancel_waiting t s = Some s' → grows i c 0 s s'.
Proof.
  unfold killer_cancel_waiting, _killer_cancelled. intros H. passes H; [|through]. by apply on_context_grows in H.
Qed.

Lemma cancel_blocking_grows t s s' : cancel_blocking t s = Some s' → grows i c 0 s s'.
Proof. unfold cancel_blocking. intros H. apply bind_Some in H as (s1 & E & H). apply handler_cancel_waiting_grows in E. apply on_threads_grows in H. by apply (grows_trans 0 0 s s1). Qed.

Hint Resolve handler_cancel_waiting_grows killer_cancel_waiting_grows cancel_blocking_grows : account.

(** A delivery moves the counter of the context to the record. *)
Lemma receive_grows d y t s1 s2 s' :
  contexts s1 !! d = Some y → on_threads (signal_receive_signal (_imprint y) (_submits y) t) s1 = Some s2 → _delivered d s2 = Some s' →
  grows i c 0 s1 s'.
Proof.
  intros Hy H1 H2. unfold on_threads in H1. apply bind_Some in H1 as (p & Hp & [= <-]). cbn in Hp.
  apply bind_Some in Hp as (ts & _ & [= <-]). unfold _delivered, on_context in H2. cbn in H2. rewrite Hy in H2. injection H2 as <-.
  apply (context_grows d (set_ack false ∘ set_submits 0) y 0 [(t, _imprint y, _submits y)]); try done; cbn.
  - intros -> Hi. apply Z.eqb_eq in Hi. rewrite Hi. lia.
  - intros Hne Hd. specialize (Hne Hd). apply Z.eqb_neq in Hne. by rewrite Hne.
Qed.

Lemma on_receiver_contexts r f (s s' : sys) : on_receiver r f s = Some s' → contexts s' = contexts s.
Proof. unfold on_receiver. by intros (R & _ & [= <-])%bind_Some. Qed.

Lemma on_client_contexts t f (s s' : sys) : on_client t f s = Some s' → contexts s' = contexts s.
Proof. unfold on_client. by intros (h & _ & [= <-])%bind_Some. Qed.

Lemma on_threads_contexts f (s s' : sys) : on_threads f s = Some s' → contexts s' = contexts s.
Proof. unfold on_threads. by intros (ts & _ & [= <-])%bind_Some. Qed.

Lemma listen_grows fuel r s s' : listen_loop fuel r s = Some s' → grows i c 0 s s'.
Proof.
  revert s. induction fuel as [|fuel IH]; intros s H; [done|]. cbn [listen_loop] in H. apply bind_Some in H as (x & Hx & H).
  destruct (_deliver x) as [|d q], (_handlers x) as [|t hs]; try (injection H as <-; apply grows_refl).
  apply bind_Some in H as (s1 & H1 & H). apply bind_Some in H as (y & Hy & H). apply bind_Some in H as (s2 & H2 & H).
  apply bind_Some in H as (s3 & H3 & H). apply bind_Some in H as (s4 & H4 & H). apply bind_Some in H as (s5 & H5 & H).
  apply (grows_trans 0 0 s s1); [by apply on_receiver_grows in H1|]. apply (grows_trans 0 0 s1 s2); [by apply on_receiver_grows in H2|].
  apply (grows_trans 0 0 s2 s3); [by apply on_client_grows in H3|]. apply (grows_trans 0 0 s3 s5); [|by apply IH].
  apply (receive_grows d y t s3 s4); [|done..].
  by rewrite (on_client_contexts _ _ _ _ H3), (on_receiver_contexts _ _ _ _ H2).
Qed.

Lemma _listen_grows r s s' : _listen r s = Some s' → grows i c 0 s s'.
Proof. unfold _listen. intros (x & _ & H)%bind_Some. by apply listen_grows in H. Qed.

Hint Resolve _listen_grows : account.

Lemma _deliverable_grows d s s' : _deliverable d s = Some s' → grows i c 0 s s'.
Proof. unfold _deliverable, _add_deliverable. intros H. passes H; through. Qed.

Hint Resolve _deliverable_grows : account.

Lemma add_handler_grows r t s s' : add_handler r t s = Some s' → grows i c 0 s s'.
Proof. unfold add_handler. intros H. passes H; through. Qed.

Lemma set_ack_grows d b s s' : on_context d (set_ack b) s = Some s' → grows i c 0 s s'.
Proof. by apply on_context_grows. Qed.

Lemma set_killer_grows d o s s' : on_context d (set_killer o) s = Some s' → grows i c 0 s s'.
Proof. by apply on_context_grows. Qed.

Lemma set_killed_grows d b s s' : on_context d (set_killed b) s = Some s' → grows i c 0 s s'.
Proof. by apply on_context_grows. Qed.

Lemma set_killing_grows d b o s s' : on_context d (set_killed b ∘ set_killer o) s = Some s' → grows i c 0 s s'.
Proof. by apply on_context_grows. Qed.

Hint Resolve add_handler_grows set_ack_grows set_killer_grows set_killed_grows set_killing_grows : account.

Lemma ack_grows d s s' : ack d s = Some s' → grows i c 0 s s'.
Proof. unfold ack. intros H. passes H; through. Qed.

Lemma kill_grows t d s s' : kill t d s = Some s' → grows i c 0 s s'.
Proof. unfold kill. intros H. passes H; through. Qed.

Hint Resolve ack_grows kill_grows : account.

Lemma return_grows v t s s' : return_value v t s = Some s' → grows i c 0 s s'.
Proof. apply on_threads_grows. Qed.

Hint Resolve return_grows : account.

(** *** Submits *)

(** What a submit of [n] to [d] adds for [c]. *)
Definition accepted (d : id) (n : Z) (s : sys) : Z :=
  match contexts s !! c with Some x => if (d =? c) && can_submit n x then n else 0 | None => 0 end.

Lemma submit_grows d n s s' : 0 ≤ n < 2 ^ 32 → submit n d s = Some s' → grows i c (accepted d n s) s s'.
Proof.
  intros Hn H. unfold submit in H. apply bind_Some in H as (x & Hx & H). unfold accepted, can_submit.
  destruct (decide (d = c)) as [->|Hdc].
  - rewrite Hx, Z.eqb_refl. destruct (refuses n x) eqn:Hr; [injection H as <-; apply grows_refl|]. cbn.
    destruct (refuses_bound n x Hn Hr) as [_ Hb]. apply bind_Some in H as (s1 & H1 & H).
    assert (grows i c n s s1) as Hg.
    { unfold on_context in H1. rewrite Hx in H1. injection H1 as <-. intros Hd. destruct (Hd c x Hx) as [_ Hs].
      assert (u32 (_submits x + n) = _submits x + n) as Hu by (unfold u32, wrap; apply Z.mod_small; lia). revert Hd.
      eapply (context_grows c _ x n []); try done; cbn; rewrite ?Hu; first [reflexivity|lia|by rewrite app_nil_r]. }
    replace n with (n + 0) by lia. apply (grows_trans n 0 s s1); [done|]. destruct (_ack x); [eauto with account|].
    injection H as <-. apply grows_refl.
  - apply Z.eqb_neq in Hdc as E. rewrite E. cbn. replace (match contexts s !! c with Some _ => 0 | None => 0 end) with 0 by (by destruct (contexts s !! c)).
    destruct (refuses n x); [injection H as <-; apply grows_refl|]. apply bind_Some in H as (s1 & H1 & H).
    apply (grows_trans 0 0 s s1).
    + unfold on_context in H1. rewrite Hx in H1. injection H1 as <-.
      eapply (context_grows d _ x 0 []); try done; cbn; first [reflexivity|by rewrite app_nil_r|intros _; unfold wrap; apply Z.mod_pos_bound; lia].
    + destruct (_ack x); [eauto with account|]. injection H as <-. apply grows_refl.
Qed.

(** *** Creation and destruction *)

Lemma new_context_grows d r j s s' : j ≠ i → new_context d r j s = Some s' → grows i c 0 s s'.
Proof.
  intros Hj H. unfold new_context, _add_context in H. eapply (grows_trans 0 0 s); [|by eapply on_receiver_grows].
  intros Hd. split.
  - intros e x. cbn. destruct (decide (e = d)) as [->|]; [|rewrite lookup_insert_ne by done; apply Hd].
    rewrite lookup_insert_eq. intros [= <-]. by split.
  - intros (x & Hx & Hi). cbn in Hx. destruct (decide (c = d)) as [->|Hne]; [rewrite lookup_insert_eq in Hx; by injection Hx as <-|].
    rewrite lookup_insert_ne in Hx by done. split; [by exists x|]. unfold account, received, counted. cbn.
    rewrite lookup_insert_ne by done. lia.
Qed.

Lemma delete_context_grows d s : grows i c 0 s (System (threads s) (clients s) (base.delete d (contexts s)) (receivers s)).
Proof.
  intros Hd. split; [intros e x; cbn; intros [_ Hx]%lookup_delete_Some; by apply Hd|].
  intros (x & Hx & Hi). cbn in Hx. apply lookup_delete_Some in Hx as [Hne Hx]. split; [by exists x|].
  unfold account, received, counted. cbn. rewrite lookup_delete_ne by done. lia.
Qed.

Lemma context_destructed_grows r d s s' : _context_destructed r d s = Some s' → grows i c 0 s s'.
Proof. unfold _context_destructed. intros H. passes H; through. Qed.

Hint Resolve context_destructed_grows : account.

Lemma destruct_context_grows d s s' : destruct_context d s = Some s' → grows i c 0 s s'.
Proof.
  unfold destruct_context. intros H. apply bind_Some in H as (x & Hx & H). apply bind_Some in H as (s1 & H1 & H).
  apply bind_Some in H as (s2 & H2 & [= <-]). apply (grows_trans 0 0 s s2); [|apply delete_context_grows].
  destruct (_killer x); [|injection H1 as <-]; through.
Qed.

Lemma dequeue_contexts_grows fuel r s s' : dequeue_contexts fuel r s = Some s' → grows i c 0 s s'.
Proof.
  revert s. induction fuel as [|fuel IH]; intros s H; cbn [dequeue_contexts] in H; apply bind_Some in H as (x & _ & H);
    destruct (_contexts x) as [|d q]; try done; try (injection H as <-; apply grows_refl).
  apply bind_Some in H as (s1 & H1 & H). apply bind_Some in H as (s2 & H2 & H).
  apply (grows_trans 0 0 s s1); [by apply on_receiver_grows in H1|]. apply (grows_trans 0 0 s1 s2); [by apply destruct_context_grows in H2|by apply IH].
Qed.

(** *** Calls *)

(** What the call adds to the account of [c]. *)
Definition submitted (k : call) (s : sys) : Z :=
  match k with
  | Submit_signal _ (Some d) n => accepted d n s
  | Occurred d | Timeout_triggered (Some d) | Mmu_exception _ (Some d) false => accepted d 1 s
  | _ => 0
  end.

(** A submit is of 32 bits, and no new context has the imprint [i]. *)
Definition regular (k : call) : bool :=
  match k with
  | Submit_signal _ _ n => (0 <=? n) && (n <? 2 ^ 32)
  | New_signal_context _ _ j => negb (j =? i)
  | _ => true
  end.

Lemma guarded_grows d x n (alt : option sys) s s' :
  contexts s !! d = Some x → 0 ≤ n < 2 ^ 32 → (∀ s', alt = Some s' → grows i c 0 s s') →
  (if can_submit n x then submit n d s else alt) = Some s' → grows i c (accepted d n s) s s'.
Proof.
  intros Hx Hn Halt H. destruct (can_submit n x) eqn:Hc; [by apply submit_grows|].
  replace (accepted d n s) with 0; [by apply Halt|]. unfold accepted. destruct (Z.eqb_spec d c) as [->|]; [by rewrite Hx, Hc|by destruct (contexts s !! c)].
Qed.

Lemma submit_call_grows t d n s s' : 0 ≤ n < 2 ^ 32 → _call_submit_signal t (Some d) n s = Some s' → grows i c (accepted d n s) s s'.
Proof.
  intros Hn H. unfold _call_submit_signal in H. apply bind_Some in H as (x & Hx & H). destruct (can_submit n x) eqn:Hc; cbn [negb] in H.
  - apply bind_Some in H as (s1 & H1 & H). replace (accepted d n s) with (accepted d n s + 0) by lia.
    apply (grows_trans (accepted d n s) 0 s s1); [by apply submit_grows|by apply return_grows in H].
  - apply (guarded_grows d x n (return_value (-1) t s)); try done; [apply return_grows|by rewrite Hc].
Qed.

Lemma exception_grows t p u s s' : _mmu_exception t p u s = Some s' → grows i c (submitted (Mmu_exception t p u) s) s s'.
Proof.
  unfold _mmu_exception. intros H. apply bind_Some in H as (s1 & H1 & H). pose proof (on_threads_contexts _ _ _ H1) as Hc.
  apply on_threads_grows in H1. cbn. destruct u; [destruct p; by injection H as <-|]. destruct p as [d|]; [|by injection H as <-].
  apply bind_Some in H as (x & Hx & H). assert (accepted d 1 s = accepted d 1 s1) as -> by (unfold accepted; by rewrite Hc).
  apply (grows_trans 0 (accepted d 1 s1) s s1); [done|]. refine (guarded_grows d x 1 _ _ _ Hx _ _ H); [done|]. intros s2 [= <-]. apply grows_refl.
Qed.

Lemma perform_grows k s s' : regular k = true → perform k s = Some s' → grows i c (submitted k s) s s'.
Proof.
  intros Hk H. destruct k as [t r|t r|t u|t d n|t d|t d|d|d|t p u|d r j|d|r|r|t|t]; cbn [perform] in H; try (apply exception_grows; exact H);
    cbn [submitted regular] in *.
  - unfold _call_await_signal, can_add_handler in H. passes H; through.
  - unfold _call_pending_signal, can_add_handler in H. passes H; through.
  - unfold _call_cancel_next_await_signal in H. passes H; through.
  - destruct d as [d|]; [|by apply return_grows in H]. apply (submit_call_grows t); [lia|done].
  - unfold _call_ack_signal in H. passes H; through.
  - unfold _call_kill_signal_context in H. passes H; through.
  - unfold occurred in H. apply bind_Some in H as (x & Hx & H). refine (guarded_grows d x 1 _ _ _ Hx _ _ H); [done|].
    intros s2 [= <-]. apply grows_refl.
  - destruct d as [d|]; [|injection H as <-; apply grows_refl]. cbn in H. apply bind_Some in H as (x & Hx & H).
    apply (guarded_grows d x 1 (Some s)); try done; [intros s2 [= <-]; apply grows_refl|by destruct (can_submit 1 x)].
  - apply (new_context_grows d r j); [|done]. by apply negb_true_iff, Z.eqb_neq in Hk.
  - by apply destruct_context_grows in H.
  - injection H as <-. by apply grows_frame.
  - unfold destruct_receiver in H. apply bind_Some in H as (x & Hx & H). apply bind_Some in H as (s1 & H1 & [= <-]).
    apply dequeue_contexts_grows in H1. apply (grows_trans 0 0 s s1); [done|by apply grows_frame].
  - unfold new_thread in H. apply bind_Some in H as (s1 & H1 & [= <-]). apply on_threads_grows in H1.
    apply (grows_trans 0 0 s s1); [done|by apply grows_frame].
  - unfold delete_thread in H. apply bind_Some in H as (s1 & H1 & H). apply bind_Some in H as (s2 & H2 & H).
    apply bind_Some in H as (s3 & H3 & [= <-]). apply killer_cancel_waiting_grows in H1. apply handler_cancel_waiting_grows in H2.
    apply on_threads_grows in H3. apply (grows_trans 0 0 s s1); [done|]. apply (grows_trans 0 0 s1 s2); [done|].
    apply (grows_trans 0 0 s2 s3); [done|by apply grows_frame].
Qed.

(** The calls [ks] in order, and what they submit to [c]. *)
Fixpoint run (ks : list call) (s : sys) : option (sys * Z) :=
  match ks with
  | [] => Some (s, 0)
  | k :: ks => s1 ← perform k s; '(s2, n) ← run ks s1; Some (s2, submitted k s + n)
  end.

End Account.

(** C10: no signal is lost or delivered twice.  Let the context [c] have an imprint that no
    other context has or gets.  Over any calls that [c] survives, by any threads and in any
    order, what all threads receive with this imprint and what [c] still counts at the end
    is what they had received and [c] counted at the start and all that was submitted to [c]
    and not refused, in spite of the limited width of the counter. *)
Theorem signals_conserved i c ks s s' n :
  distinct i c s → forallb (regular i) ks = true → run c ks s = Some (s', n) → alive i c s' →
  received i s' + counted i c s' = received i s + counted i c s + n.
Proof.
  intros Hd Hks Hr Ha. cut (grows i c n s s').
  { intros Hg. destruct (Hg Hd) as [_ G]. by apply G. }
  clear Hd Ha. revert s n Hr. induction ks as [|k ks IH]; intros s n Hr; cbn [run] in Hr; [injection Hr as <- <-; apply grows_refl|].
  cbn [forallb] in Hks. apply andb_true_iff in Hks as [Hk Hks].
  apply bind_Some in Hr as (s1 & H1 & Hr). apply bind_Some in Hr as ([s2 m] & H2 & [= -> <-]).
  apply (grows_trans i c _ _ s s1); [by apply perform_grows|by apply IH].
Qed.

End Recorded.
