(* ===== verification/Signal_threads.v ===== *)
(** * Signal_threads: the threads of the kernel as the threads of signals

    The threads and IPC nodes of [Kernel_thread] provide what the signal objects rely on:
    their operations are an instance of [Thread_ops], and the invariant of threads and IPC
    discharges [Thread_laws].  So the theorems on signals hold for the kernel that
    handles threads, IPC and signals together, whatever its threads do in between. *)

From stdpp Require Import relations.
From S2P Require Import Prelude Kernel_thread Kernel_inv Kernel_ipc Kernel_props Fifo Signal Signal_inv Signal_props Signal_account.

Abbreviation heap := (gmap Fifo.id thread).
Abbreviation kthreads := Kernel_thread.threads.

(** ** The instance *)

Definition run {A} (m : M A) (s : kernel) : option kernel := match m s with (Ok _, s') => Some s' | (Err _, _) => None end.

(** The data of a signal is its imprint and the number of submits. *)
#[export] Instance kernel_ops : Thread_ops kernel := {
  construct_thread t := run (Kernel_thread.new_thread t);
  destruct_thread t := run (Kernel_thread.destruct_thread t);
  user_arg_0 v t := run (update t (set_user_arg_0 v));
  _die t := run (Kernel_thread._die t);
  await_restart t := run (_become_inactive t AWAITS_RESTART);
  signal_wait_for_signal t := run (Kernel_thread.signal_wait_for_signal t);
  signal_receive_signal imprint num t := run (Kernel_thread.signal_receive_signal [imprint; num] t);
  signal_context_kill_pending t := run (Kernel_thread.signal_context_kill_pending t);
  signal_context_kill_done t := run (Kernel_thread.signal_context_kill_done t);
  signal_context_kill_failed t := run (Kernel_thread.signal_context_kill_failed t);
  awaits_signal s t := in_state_of AWAITS_SIGNAL s t;
  resume_from_signal t := run (_cancel_blocking t) }.

Definition status (x : thread) : Signal_inv.status :=
  match _state x with AWAITS_SIGNAL => In_signal | AWAITS_SIGNAL_CONTEXT_KILL => In_kill | _ => Free end.

(** The calls on threads and IPC that have nothing to do with signals: all but those
    that signals, the creation and the destruction of threads make. *)
Definition apart (c : Kernel_props.call) : bool :=
  match c with
  | Start_thread _ _ _ _ | Pause_thread _ | Resume_thread _ | Stop_thread _ | Restart_thread _ | Die _
  | Await_request_msg _ | Send_request_msg _ _ | Send_reply_msg _ _ => true
  | _ => false
  end.

(** Another CPU enters the kernel, or a thread performs such a call. *)
Inductive other_step (s : kernel) : kernel → Prop :=
  | other_cpu e : other_step s (at_cpu e s)
  | other_call c s' : apart c = true → Kernel_props.admissible s c = true → Kernel_props.perform c s = (Ok tt, s') → other_step s s'.

#[export] Instance kernel_view : Thread_view kernel := {
  thread_ok s := kernel_ok (kthreads s);
  status_of s t := status <$> kthreads s !! t;
  executes := Kernel_props.executes;
  thread_step := other_step }.

(** ** What the operations of threads mean for signals *)

Definition same_status (ts ts' : heap) : Prop := ∀ u, status <$> ts' !! u = status <$> ts !! u.

#[export] Instance same_status_preorder : PreOrder same_status.
Proof. split; [by intros ts u|]. intros ts1 ts2 ts3 H1 H2 u. by rewrite (H2 u), (H1 u). Qed.

Lemma flagged_status ts ts' : flagged ts ts' → same_status ts ts'.
Proof.
  intros Hf u. specialize (Hf u). destruct (ts !! u) as [x|], (ts' !! u) as [x'|]; try done. simpl in *.
  apply (inj Some), (f_equal _state) in Hf. cbn in Hf. unfold status. by rewrite Hf.
Qed.

Lemma alter_status ts t f : (∀ x, ts !! t = Some x → status (f x) = status x) → same_status ts (alter f t ts).
Proof. intros Hf u. rewrite lookup_alter. case_decide; [|done]. subst. destruct (ts !! u) as [x|] eqn:Hx; [|done]. simpl. by rewrite Hf. Qed.

Lemma flagged_moves ts ts' e t x f :
  ts !! t = Some x → flagged (alter f t ts) ts' → kernel_ok ts' → moves (Kernel ts e) (Kernel ts' e) t (Some (status (f x))).
Proof.
  intros Hx Hf Hok. split; [done|]. intros u. cbn. rewrite (flagged_status _ _ Hf u), lookup_alter.
  destruct (decide (t = u)) as [<-|]; [by rewrite decide_True, Hx|by rewrite decide_False by congruence].
Qed.

(** *** The operations signals use *)

Section Laws.
Context (ts : heap) (e : Z) (Hok : kernel_ok ts).

Lemma executes_inv t : executes (Kernel ts e) t = true → ∃ x, running ts e t x.
Proof. apply executes_true. Qed.

Lemma blocks t st :
  st ≠ ACTIVE → plain st → executes (Kernel ts e) t = true →
  ∃ s', run (_become_inactive t st) (Kernel ts e) = Some s' ∧
    moves (Kernel ts e) s' t (Some (match st with AWAITS_SIGNAL => In_signal | AWAITS_SIGNAL_CONTEXT_KILL => In_kill | _ => Free end)).
Proof using Hok.
  intros Hst Hp [x Hrun]%executes_inv. destruct (become_inactive_ok st ts e t x Hst Hp Hok Hrun) as (ts' & Hr & Hf & Hok').
  exists (Kernel ts' e). unfold run. rewrite Hr. split; [done|]. by apply (flagged_moves ts ts' e t x (set_state st)); [apply Hrun|..].
Qed.

(** A blocked thread gets data and becomes active. *)
Lemma wakes (m : M unit) t x f :
  Data_only f → ts !! t = Some x → plain (_state x) → m (Kernel ts e) = _become_active t (Kernel (alter f t ts) e) →
  ∃ s', run m (Kernel ts e) = Some s' ∧ moves (Kernel ts e) s' t (Some Free).
Proof using Hok.
  intros Hf Hx Hp Hm. destruct (become_active_ok (alter f t ts) e t (f x)) as (ts' & Hr & Hfl & Hok').
  { by apply data_only_ok. } { by rewrite lookup_alter_eq, Hx. } { by pose proof (Hf x) as [= _ _ _ _ -> _ _ _ _]. }
  exists (Kernel ts' e). unfold run. rewrite Hm, Hr. split; [done|]. rewrite alter_alter_eq in Hfl.
  by apply (flagged_moves ts ts' e t x (set_state ACTIVE ∘ f)).
Qed.

Lemma in_status t st : status_of (Kernel ts e) t = Some st → ∃ x, ts !! t = Some x ∧ status x = st.
Proof. cbn. intros H. apply fmap_Some in H as (x & Hx & ->). by exists x. Qed.

Lemma state_of_signal x : status x = In_signal ↔ _state x = AWAITS_SIGNAL.
Proof. unfold status. by destruct (_state x). Qed.

Lemma state_of_kill x : status x = In_kill ↔ _state x = AWAITS_SIGNAL_CONTEXT_KILL.
Proof. unfold status. by destruct (_state x). Qed.

Lemma returns t v : is_Some (status_of (Kernel ts e) t) →
  ∃ s', run (update t (set_user_arg_0 v)) (Kernel ts e) = Some s' ∧ moves (Kernel ts e) s' t (status_of (Kernel ts e) t).
Proof using Hok.
  intros [st Hst]. destruct (in_status t st Hst) as (x & Hx & Hs). exists (Kernel (alter (set_user_arg_0 v) t ts) e).
  unfold run. rewrite (update_run ts e t x _ Hx). split; [done|]. rewrite Hst, <- Hs.
  apply (flagged_moves ts _ e t x (set_user_arg_0 v)); [done|done|]. by apply data_only_ok; [apply _|].
Qed.

Lemma receives t i n : status_of (Kernel ts e) t = Some In_signal →
  ∃ s', run (Kernel_thread.signal_receive_signal [i; n] t) (Kernel ts e) = Some s' ∧ moves (Kernel ts e) s' t (Some Free).
Proof using Hok.
  intros (x & Hx & Hst%state_of_signal)%in_status.
  apply (wakes _ t x (λ x, set_utcb ([i; n] ++ drop (length [i; n]) (_utcb x)) x)); [apply _|done|by rewrite Hst|].
  unfold Kernel_thread.signal_receive_signal. rewrite (checked_run (λ x, bool_decide (_state x = AWAITS_SIGNAL)) _ ts e t x Hx) by (by apply bool_decide_eq_true).
  by mrun (update_run ts e t x (λ x, set_utcb ([i; n] ++ drop (length [i; n]) (_utcb x)) x) Hx).
Qed.

Lemma finishes t arg : status_of (Kernel ts e) t = Some In_kill →
  ∃ s', run (signal_context_kill_finished arg t) (Kernel ts e) = Some s' ∧ moves (Kernel ts e) s' t (Some Free).
Proof using Hok.
  intros (x & Hx & Hst%state_of_kill)%in_status. apply (wakes _ t x (set_user_arg_0 arg)); [apply _|done|by rewrite Hst|].
  unfold signal_context_kill_finished.
  rewrite (checked_run (λ x, bool_decide (_state x = AWAITS_SIGNAL_CONTEXT_KILL)) _ ts e t x Hx) by (by apply bool_decide_eq_true).
  by mrun (update_run ts e t x (set_user_arg_0 arg) Hx).
Qed.

Lemma resumes t : status_of (Kernel ts e) t = Some In_signal →
  ∃ s', run (_cancel_blocking t) (Kernel ts e) = Some s' ∧ moves (Kernel ts e) s' t (Some Free).
Proof using Hok.
  intros (x & Hx & Hst%state_of_signal)%in_status. apply (wakes _ t x (set_user_arg_0 (-1))); [apply _|done|by rewrite Hst|].
  unfold _cancel_blocking. mrun (get_run ts e t x Hx). rewrite Hst. by mrun (update_run ts e t x (set_user_arg_0 (-1)) Hx).
Qed.

Lemma pends t : executes (Kernel ts e) t = true →
  ∃ s', run (Kernel_thread.signal_context_kill_pending t) (Kernel ts e) = Some s' ∧ moves (Kernel ts e) s' t (Some In_kill).
Proof using Hok.
  intros He. destruct (blocks t AWAITS_SIGNAL_CONTEXT_KILL) as (s' & Hr & Hm); try done. exists s'. split; [|done].
  destruct (executes_inv t He) as (x & Hrun). unfold run in *. unfold Kernel_thread.signal_context_kill_pending.
  rewrite (checked_run (λ x, bool_decide (_state x = ACTIVE)) _ ts e t x); [done|apply Hrun|by eapply running_active].
Qed.

Lemma constructs t : status_of (Kernel ts e) t = None →
  ∃ s', run (Kernel_thread.new_thread t) (Kernel ts e) = Some s' ∧ moves (Kernel ts e) s' t (Some Free).
Proof using Hok.
  intros Ht. assert (ts !! t = None) as Hn by (cbn in Ht; by apply fmap_None in Ht). destruct (new_thread_ok ts e t Hok Hn) as [Hr Hok'].
  eexists. unfold run. rewrite Hr. split; [done|]. split; [done|]. intros u. cbn.
  destruct (decide (u = t)) as [->|]; [by rewrite lookup_insert_eq|by rewrite lookup_insert_ne by congruence].
Qed.

End Laws.

(** *** No operation on threads brings one into being *)

Class No_birth {A} (m : M A) := no_birth s t : kthreads s !! t = None → kthreads (m s).2 !! t = None.

Section Births.

#[local] Instance ret_no_birth {A} (a : A) : No_birth (mret a).
Proof. by intros s t. Qed.

#[local] Instance throw_no_birth {A} (x : error) : No_birth (throw x : M A).
Proof. by intros s t. Qed.

#[local] Instance state_no_birth : No_birth (get_state : M kernel).
Proof. by intros s t. Qed.

#[local] Instance bind_no_birth {A B} (m : M A) (f : A → M B) : No_birth m → (∀ a, No_birth (f a)) → No_birth (a ← m; f a).
Proof.
  intros Hm Hf s t Ht. specialize (Hm s t Ht). unfold mbind, exc_bind. destruct (m s) as [[a|x] s1]; [by apply Hf|done].
Qed.

#[local] Instance get_no_birth t : No_birth (get t).
Proof. intros s u Hu. unfold get. by destruct (kthreads s !! t). Qed.

#[local] Instance update_no_birth t f : No_birth (update t f).
Proof.
  intros s u Hu. unfold update. destruct (kthreads s !! t) eqn:Ht; [|done]. cbn. rewrite lookup_alter. case_decide; [|done]. congruence.
Qed.

#[local] Instance assert_no_birth b : No_birth (assert b).
Proof. unfold assert. destruct b; apply _. Qed.

#[local] Instance when_no_birth b m : No_birth m → No_birth (when b m).
Proof. intros Hm. unfold when. destruct b; apply _. Qed.

#[local] Instance for_all_no_birth f l : (∀ i, No_birth (f i)) → No_birth (for_all f l).
Proof. intros Hf. induction l; cbn [for_all]; apply _. Qed.

#[local] Instance used_shares_no_birth fuel own t : (∀ i, No_birth (own i)) → No_birth (used_shares fuel own t).
Proof. intros Hown. revert t. induction fuel; intros t; cbn [used_shares]; apply _. Qed.

#[local] Instance activate_no_birth t : No_birth (_activate_used_shares t).
Proof.
  unfold _activate_used_shares. apply bind_no_birth; [apply _|]. intros s. apply used_shares_no_birth. intros i.
  unfold _activate_own_share. apply bind_no_birth; [apply _|]. intros x. destruct (_cpu x); apply _.
Qed.

#[local] Instance done_no_birth arg t : No_birth (ipc_send_request_done arg t).
Proof. unfold ipc_send_request_done. apply _. Qed.

#[local] Instance cancel_send_no_birth t : No_birth (Ipc_node._cancel_send t).
Proof.
  unfold Ipc_node._cancel_send. apply bind_no_birth; [apply _|]. intros x. apply bind_no_birth; [destruct (out_node x); apply _|].
  intros _. unfold ipc_send_request_failed. apply _.
Qed.

Lemma destruct_no_birth t : No_birth (Kernel_thread.destruct_thread t).
Proof.
  unfold Kernel_thread.destruct_thread, Ipc_node.destruct_node. apply bind_no_birth; [apply _|]. intros _ s u Hu. cbn.
  rewrite lookup_delete. by case_decide.
Qed.

End Births.

Lemma destructs ts e t : kernel_ok ts → is_Some (status_of (Kernel ts e) t) →
  ∃ s', run (Kernel_thread.destruct_thread t) (Kernel ts e) = Some s' ∧ moves (Kernel ts e) s' t None.
Proof.
  intros Hok [st Hst]. destruct (in_status ts e t st Hst) as (x & Hx & _).
  destruct (destruct_ok ts e t x Hok Hx) as (ts' & Hr & Hok' & Hgone & _ & Hq & Hv). exists (Kernel ts' e). unfold run. rewrite Hr.
  split; [done|]. split; [done|]. intros u. cbn. destruct (decide (u = t)) as [->|Hu]; [by rewrite Hgone|].
  destruct (ts !! u) as [z|] eqn:Hz.
  - destruct (decide (u ∈ in_queue x)) as [Hin|Hin].
    + destruct (Hq u Hin) as [y Hy]. rewrite Hy. simpl. f_equal.
      destruct (queue_item _ (ok_queues _ Hok) t x u Hx Hin) as (z' & Hz' & Ho). assert (z' = z) as -> by congruence.
      assert (_state z = AWAITS_IPC) as Es; [|unfold status; by rewrite Es].
      destruct (Kernel_inv.ok_threads _ Hok u z Hz) as [_ [_ H2] [_ H3] _ _]. apply H3. left. apply H2. by rewrite Ho.
    + destruct (Hv u z Hu Hin Hz) as (z' & Hz' & Es). rewrite Hz'. simpl. unfold status. by rewrite Es.
  - pose proof (destruct_no_birth t (Kernel ts e) u Hz) as H. rewrite Hr in H. cbn in H. by rewrite H.
Qed.

(** *** The other calls *)

Section Other.
Context (ts : heap) (e : Z) (Hok : kernel_ok ts).

Lemma requested_status t d help u x : ts !! t = Some x → status x = Free → same_status ts (requested t d help u ts).
Proof using Hok.
  intros Hx Hs. unfold requested. transitivity (alter (Kernel_ipc.delivered t u) d ts).
  - apply alter_status. intros y Hy. unfold Kernel_ipc.delivered. destruct (waiting y) eqn:Hw; [|done].
    assert (_state y = AWAITS_IPC) as E by (by apply (Kernel_inv.ok_threads _ Hok d y Hy); right). unfold status. by rewrite E.
  - apply alter_status. intros y Hy. unfold status at 1. cbn. symmetry. rewrite lookup_alter in Hy. case_decide; [|congruence].
    subst. rewrite Hx in Hy. injection Hy as <-. unfold Kernel_ipc.delivered. destruct (waiting x); [done|exact Hs].
Qed.

Lemma awaited_status t x : ts !! t = Some x → status x = Free → same_status ts (awaited t x ts).
Proof using Hok.
  intros Hx Hs. unfold awaited. destruct (ready_to_wait x); [destruct (in_queue x) as [|n q]; [|destruct (ts !! n); [|reflexivity]]|];
    apply alter_status; intros y Hy; (assert (y = x) as -> by congruence); [by rewrite Hs|done|by rewrite Hs].
Qed.

Lemma replied_status t x : ts !! t = Some x → same_status ts (after_reply t x ts).
Proof using Hok.
  intros Hx. unfold after_reply. destruct (in_state x); try (by apply alter_status). destruct (in_queue x) as [|n q] eqn:Hq; [by apply alter_status|].
  unfold replied. transitivity (alter (set_in_queue q) t ts); [by apply alter_status|].
  transitivity (alter (answered (_utcb x)) n (alter (set_in_queue q) t ts)); [|by apply alter_status].
  apply alter_status. intros y Hy. unfold status at 1. cbn.
  destruct (queue_item _ (ok_queues _ Hok) t x n Hx) as (z & Hz & Ho); [rewrite Hq; constructor|].
  assert (_state z = AWAITS_IPC) as E.
  { destruct (Kernel_inv.ok_threads _ Hok n z Hz) as [_ [_ H2] [_ H3] _ _]. apply H3. left. apply H2. by rewrite Ho. }
  rewrite lookup_alter in Hy. case_decide; [|by assert (y = z) as -> by congruence; unfold status; rewrite E].
  subst. rewrite Hz in Hy. injection Hy as <-. unfold status. cbn. by rewrite E.
Qed.

End Other.

(** A call that changes one thread, not its status, leaves the status of all alone. *)
Lemma status_one ts e t f (m : M unit) s' :
  (∃ ts', m (Kernel ts e) = (Ok tt, Kernel ts' e) ∧ flagged (alter f t ts) ts' ∧ kernel_ok ts') →
  (∀ x, ts !! t = Some x → status (f x) = status x) → m (Kernel ts e) = (Ok tt, s') →
  kernel_ok (kthreads s') ∧ same_status ts (kthreads s').
Proof.
  intros (ts' & Hr & Hf & Hok) Hst Hr'. rewrite Hr in Hr'. injection Hr' as <-. split; [done|].
  transitivity (alter f t ts); [by apply alter_status|by apply flagged_status].
Qed.

Lemma running_free ts e t x : running ts e t x → ts !! t = Some x ∧ status x = Free.
Proof. intros Hrun. split; [apply Hrun|]. apply running_active in Hrun as Hs. apply bool_decide_eq_true in Hs. unfold status. by rewrite Hs. Qed.

Lemma status_inactive ts e t x st (m : M unit) s' :
  kernel_ok ts → running ts e t x → st ≠ ACTIVE → plain st → st = AWAITS_RESTART ∨ st = DEAD →
  m (Kernel ts e) = _become_inactive t st (Kernel ts e) → m (Kernel ts e) = (Ok tt, s') → kernel_ok (kthreads s') ∧ same_status ts (kthreads s').
Proof.
  intros Hok Hrun Hst Hp Hor Hm. apply (status_one ts e t (set_state st)).
  - rewrite Hm. by apply become_inactive_ok with x.
  - destruct (running_free ts e t x Hrun) as [Hx Hs]. intros y Hy. assert (y = x) as -> by congruence. rewrite Hs. by destruct Hor as [->| ->].
Qed.

Lemma status_send ts e t d s' :
  kernel_ok ts → Kernel_props.admissible (Kernel ts e) (Send_request_msg t d) = true →
  Kernel_props.perform (Send_request_msg t d) (Kernel ts e) = (Ok tt, s') → kernel_ok (kthreads s') ∧ same_status ts (kthreads s').
Proof.
  intros Hok Ha. destruct d as [d|]; cbn [Kernel_props.admissible] in Ha.
  - rewrite andb_true_iff, executes_true, exists_with_true in Ha. destruct Ha as [(x & Hrun) (y & Hy & [Hst%negb_true_iff%bool_decide_eq_false Hc]%andb_true_iff)].
    apply exists_with_true in Hc as (x' & Hx' & Hc). cbn in Hx'. destruct (running_free ts e t x Hrun) as [Hx Hs].
    assert (x' = x) as -> by congruence. cbn in Hy. destruct (running_state ts e t x Hok Hrun) as (_ & _ & _ & _ & Hhx & _).
    intros Hr. destruct (send_request_run ts e t d x y Hok Hrun Hy) as (ts' & Hr' & Hf & Hok'); [|done|].
    { intros Hh Hg. rewrite Hh, (helps_finally_group ts e d t x) in Hc; [done..|by eexists|done|done|done]. }
    cbn [Kernel_props.perform] in Hr. rewrite Hr' in Hr. injection Hr as <-. split; [done|].
    transitivity (requested t d (bool_decide (_cpu y = _cpu x)) (_utcb x) ts); [by apply (requested_status ts Hok t d _ _ x)|by apply flagged_status].
  - apply executes_true in Ha as (x & Hrun). apply (status_inactive ts e t x DEAD); auto; try done. by apply (send_unknown_run ts e t x).
Qed.

Lemma status_await ts e t x s' :
  kernel_ok ts → running ts e t x → _call_await_request_msg t (Kernel ts e) = (Ok tt, s') → kernel_ok (kthreads s') ∧ same_status ts (kthreads s').
Proof.
  intros Hok Hrun Hr. destruct (await_ok ts e t x Hok Hrun) as (ts' & Hr' & Hf & Hok'). rewrite Hr' in Hr. injection Hr as <-. split; [done|].
  destruct (running_free ts e t x Hrun) as [Hx Hs]. transitivity (awaited t x ts); [by apply awaited_status|by apply flagged_status].
Qed.

Lemma status_reply ts e t x aw s' :
  kernel_ok ts → running ts e t x → _call_send_reply_msg t aw (Kernel ts e) = (Ok tt, s') → kernel_ok (kthreads s') ∧ same_status ts (kthreads s').
Proof.
  intros Hok Hrun Hr. destruct (reply_call_run ts e t x Hok Hrun) as (ts1 & x1 & Hr1 & Hf1 & Hok1 & Hrun1 & _).
  assert (same_status ts ts1) as H1.
  { transitivity (after_reply t x ts); [apply replied_status; [done|apply Hrun]|by apply flagged_status]. }
  unfold _call_send_reply_msg in Hr. rewrite (bind_ok _ _ _ _ _ Hr1) in Hr. destruct aw.
  - destruct (status_await ts1 e t x1 s' Hok1 Hrun1 Hr) as [? ?]. split; [done|]. by transitivity ts1.
  - rewrite (update_run ts1 e t x1) in Hr by apply Hrun1. injection Hr as <-. split; [by apply data_only_ok; [apply _|]|].
    transitivity ts1; [done|by apply alter_status].
Qed.

Lemma status_restart ts e t s' :
  kernel_ok ts → (∃ x, ts !! t = Some x ∧ (_state x = ACTIVE ∨ _state x = AWAITS_RESTART)) →
  (_ ← _restart t; mret tt) (Kernel ts e) = (Ok tt, s') → kernel_ok (kthreads s') ∧ same_status ts (kthreads s').
Proof.
  intros Hok (x & Hx & Hst) Hr.
  assert (∀ b s1, _restart t (Kernel ts e) = (Ok b, s1) → s' = s1) as Hb.
  { intros b s1 H. rewrite (bind_ok _ _ _ _ _ H) in Hr. by injection Hr as <-. }
  unfold _restart in Hb. rewrite (bind_ok _ _ _ _ _ (get_run ts e t x Hx)) in Hb. destruct Hst as [Hst|Hst]; rewrite Hst in Hb.
  - by rewrite (Hb false (Kernel ts e) eq_refl).
  - destruct (become_active_ok ts e t x) as (ts' & Hr' & Hf & Hok'); [done|done|by rewrite Hst|].
    rewrite (Hb true (Kernel ts' e)).
    + split; [done|]. transitivity (alter (set_state ACTIVE) t ts); [|by apply flagged_status]. apply alter_status. intros y Hy.
      assert (y = x) as -> by congruence. unfold status. by rewrite Hst.
    + rewrite (bool_decide_eq_true_2 (AWAITS_RESTART = AWAITS_RESTART)) by done. cbn [negb orb]. rewrite orb_true_r.
      mrun (assert_run (Kernel ts e)). by mrun Hr'.
Qed.

Lemma status_other ts e c s' :
  kernel_ok ts → apart c = true → Kernel_props.admissible (Kernel ts e) c = true → Kernel_props.perform c (Kernel ts e) = (Ok tt, s') →
  kernel_ok (kthreads s') ∧ same_status ts (kthreads s').
Proof.
  intros Hok Hap Ha. destruct c as [t|s t cpu new_pd|t|t|t|t|r t sch|r t|t|t|t|t d|t aw|t|arg t|t|data t]; try done; [..|by apply status_send| ];
    cbn [Kernel_props.admissible Kernel_props.perform] in *;
    rewrite ?andb_true_iff, ?orb_true_iff, ?executes_true, ?in_state_of_true, ?exists_with_true in Ha; cbn [kthreads executing_id] in Ha.
  - destruct Ha as [[[(z & Hz) (x & Hx & Hst)] Hcpu%bool_decide_eq_true] Hpd%bool_decide_eq_true]. cbn in Hx.
    destruct cpu as [cpu|], new_pd as [p|]; try done.
    destruct (start_ok ts e s t z x cpu p) as (ts' & Hr & Hf & Hok'); try done; [apply Hz| |].
    + intros ->. destruct Hz as (Hz & Hr & _). unfold runnable in Hr. apply andb_true_iff in Hr as [Hr%bool_decide_eq_true _]. congruence.
    + rewrite Hr. intros [= <-]. split; [done|]. etransitivity; [|by apply flagged_status].
      transitivity (alter (set_user_arg_0 0) s ts); [by apply alter_status|]. apply alter_status. intros y Hy.
      destruct (alter_lookup _ _ _ _ _ Hy) as (y0 & Hy0 & ->). assert (y0 = x) as -> by congruence.
      unfold status. destruct (decide _); cbn; by rewrite Hst.
  - destruct Ha as (x & Hx & [Hse%negb_true_iff Hcpu]%andb_true_iff). cbn in Hx, Hcpu. eapply status_one; [apply (pause_ok ts e t x); try done|done].
    intros Hr. rewrite Hr in Hcpu. by apply bool_decide_eq_true in Hcpu.
  - destruct Ha as (x & Hx & _). eapply status_one; [by apply (resume_ok ts e t x)|done].
  - destruct Ha as (x & Hrun). apply (status_inactive ts e t x AWAITS_RESTART); auto; try done. unfold _call_stop_thread.
    apply (checked_run (λ x, bool_decide (_state x = ACTIVE)) _ ts e t x); [apply Hrun|by eapply running_active].
  - apply (status_restart ts e t); [done|]. by destruct Ha as [(x & ?)|(x & ?)]; exists x; tauto.
  - destruct Ha as (x & Hrun). apply (status_inactive ts e t x DEAD); auto; done.
  - destruct Ha as (x & Hrun). by apply (status_await ts e t x).
  - destruct Ha as (x & Hrun). by apply (status_reply ts e t x).
Qed.

#[export] Instance kernel_laws : Thread_laws kernel.
Proof.
  split.
  - intros [ts e] t Hok. by apply constructs.
  - intros [ts e] t Hok. by apply destructs.
  - intros [ts e] t v Hok. by apply returns.
  - intros [ts e] t Hok He. by apply (blocks ts e Hok t DEAD).
  - intros [ts e] t Hok He. by apply (blocks ts e Hok t AWAITS_RESTART).
  - intros [ts e] t Hok He. by apply (blocks ts e Hok t AWAITS_SIGNAL).
  - intros [ts e] t i n Hok. by apply receives.
  - intros [ts e] t Hok. by apply pends.
  - intros [ts e] t Hok. by apply finishes.
  - intros [ts e] t Hok. by apply finishes.
  - intros [ts e] t Hok. by apply resumes.
  - intros [ts e] t Hok. cbn. apply eq_true_iff_eq. rewrite bool_decide_eq_true, in_state_of_true. cbn. split.
    + intros (x & -> & Hs). simpl. f_equal. by apply state_of_signal.
    + intros (x & Hx & Hs)%fmap_Some. exists x. split; [done|]. by apply state_of_signal.
  - intros [ts e] t Hok (x & Hrun)%executes_true. destruct (running_free ts e t x Hrun) as [Hx Hs]. cbn. by rewrite Hx, <- Hs.
  - intros [ts e] s' Hok [e'|c s1 Hap Ha Hp]; [done|]. by destruct (status_other ts e c s1 Hok Hap Ha Hp).
Qed.

(** ** Two threads with signals *)

(** A call on signals or one of the others. *)
Inductive kernel_call := On_signals (c : Signal_props.call) | Other (c : Kernel_props.call).

(** The calls in order, if all are admissible. *)
Fixpoint execute (cs : list kernel_call) (s : system kernel) : option (system kernel) :=
  match cs with
  | [] => Some s
  | On_signals c :: cs => if Signal_props.admissible s c then s ← Signal_props.perform c s; execute cs s else None
  | Other c :: cs =>
      if apart c && Kernel_props.admissible (threads s) c then
        k ← run (Kernel_props.perform c) (threads s); execute cs (System k (clients s) (contexts s) (receivers s))
      else None
  end.

Lemma signal_execute_steps cs s s' : execute cs s = Some s' → rtc Signal_props.step s s'.
Proof.
  revert s. induction cs as [|[c|c] cs IH]; intros s H; cbn [execute] in H; [by injection H as ->| |].
  - destruct (Signal_props.admissible s c) eqn:Ha; [|done]. apply bind_Some in H as (s1 & H1 & H).
    eapply rtc_l; [by eapply Signal_props.step_call|by apply IH].
  - destruct (apart c && _) eqn:Ha; [|done]. apply andb_true_iff in Ha as [Ha1 Ha2]. apply bind_Some in H as (k & Hk & H).
    eapply rtc_l; [eapply step_threads|by apply IH]. unfold run in Hk. destruct (Kernel_props.perform c (threads s)) as [[[]|] s1] eqn:Hp; [|done].
    injection Hk as <-. by eapply other_call.
Qed.

(** The kernel that has just booted, with its first thread 1 on CPU 0. *)
Lemma boot_starts : starts (Kernel_props.booted 1 0) {[1]}.
Proof.
  split; [destruct (Kernel_props.booted_ok 1 0) as (ts & -> & Hok); exact Hok|]. intros t.
  set (x := Thread IN_READY [] OUT_READY None ACTIVE false true (Some 0) (Some core_pd) [] 0).
  assert (kthreads (Kernel_props.booted 1 0) = {[1 := x]}) as E by (vm_compute; reflexivity).
  cbn [status_of kernel_view]. rewrite E. destruct (decide (t = 1)) as [->|Ht].
  - by rewrite lookup_singleton_eq, decide_True by (by apply elem_of_singleton).
  - by rewrite lookup_singleton_ne, decide_False by (by rewrite ?elem_of_singleton).
Qed.

(** The second thread waits at the receiver 10, gets a signal of the context 20 and does
    not acknowledge it; then both contexts of the receiver get submits. *)
Definition demo_calls : list kernel_call :=
  [On_signals (New_thread 2); Other (Start_thread 1 2 (Some 0) (Some 1));
   On_signals (New_signal_receiver 10); On_signals (New_signal_context 20 10 200); On_signals (New_signal_context 21 10 210);
   On_signals (Await_signal 2 (Some 10)); On_signals (Submit_signal 1 (Some 20) 3);
   On_signals (Submit_signal 1 (Some 20) 2); On_signals (Submit_signal 1 (Some 21) 1)].

Definition demo_start : system kernel := Signal_props.booted (Kernel_props.booted 1 0) {[1]}.
Definition demo_signals : system kernel := default demo_start (execute demo_calls demo_start).

Definition demo_receiver : receiver := Receiver [] [21] [20; 21].
Definition demo_context : context := Context 10 200 None 2 false false.

Lemma demo_signals_reachable : Signal_props.reachable demo_signals.
Proof. exists (Kernel_props.booted 1 0), {[1]}. split; [exact boot_starts|]. apply (signal_execute_steps demo_calls). vm_compute. reflexivity. Qed.


Theorem signal_delivery_witness :
  Signal_props.reachable demo_signals ∧ contexts demo_signals !! 20 = Some demo_context ∧ receivers demo_signals !! 10 = Some demo_receiver ∧
  ∃ s', ack 20 demo_signals = Some s' ∧ s' = offered demo_signals 20 10 (set_ack true).
Proof.
  assert (contexts demo_signals !! 20 = Some demo_context) as Hx by (vm_compute; reflexivity).
  assert (receivers demo_signals !! 10 = Some demo_receiver) as HR by (vm_compute; reflexivity).
  destruct (signal_delivery demo_signals demo_signals_reachable) as (_ & _ & H). split; [exact demo_signals_reachable|]. split; [exact Hx|]. split; [exact HR|].
  exact (H 20 demo_context demo_receiver Hx HR eq_refl eq_refl).
Defined.

(** *** With a record of the deliveries *)

Definition demo_recorded : system (kernel * list delivery) :=
  System (threads demo_signals, []) (clients demo_signals) (contexts demo_signals) (receivers demo_signals).

Definition demo_later : list Signal_props.call :=
  [Ack_signal 2 (Some 20); Submit_signal 1 (Some 20) 5; Await_signal 2 (Some 10); Ack_signal 2 (Some 21); Await_signal 2 (Some 10); Occurred 20].

Definition demo_end : system (kernel * list delivery) := default demo_recorded (fst <$> Signal_account.run 20 demo_later demo_recorded).

Lemma demo_distinct : distinct 200 20 demo_recorded.
Proof.
  assert (contexts demo_recorded = {[20 := demo_context; 21 := Context 10 210 None 1 true false]}) as E by (vm_compute; reflexivity).
  intros d x. rewrite E. intros [[<- <-]|[_ [<- <-]%lookup_singleton_Some]]%lookup_insert_Some; cbn; lia.
Qed.

Theorem signals_conserved_witness :
  Signal_account.run 20 demo_later demo_recorded = Some (demo_end, 6) ∧ received 200 demo_end = 7 ∧ counted 200 20 demo_end = 1 ∧
  received 200 demo_end + counted 200 20 demo_end = received 200 demo_recorded + counted 200 20 demo_recorded + 6.
Proof.
  assert (Signal_account.run 20 demo_later demo_recorded = Some (demo_end, 6)) as Hr by (vm_compute; reflexivity).
  split; [exact Hr|]. split; [vm_compute; reflexivity|]. split; [vm_compute; reflexivity|].
  apply (signals_conserved 200 20 demo_later); [exact demo_distinct|vm_compute; reflexivity|exact Hr|].
  destruct (contexts demo_end !! 20) as [x|] eqn:Hx; [|vm_compute in Hx; discriminate Hx].
  exists x. split; [exact Hx|]. vm_compute in Hx. injection Hx as <-. reflexivity.
Defined.

(** ** Without the guarantees *)

(** The thread 2 waits for the end of the context 20; the context is destructed in the
    meantime, which wakes 2 up but leaves its killer with the address of the context.  The
    destructor of the thread then uses the context that is gone. *)
Lemma killer_keeps_context :
  ∃ s, execute [On_signals (Kill_signal_context 2 (Some 20))] demo_signals = Some s ∧
  ∃ s', destruct_context 20 s = Some s' ∧ awaits_signal (threads s') 2 = false ∧ contexts s' !! 20 = None ∧
    (k_context <$> clients s' !! 2) = Some (Some 20) ∧ delete_thread 2 s' = None.
Proof.
  destruct (execute [On_signals (Kill_signal_context 2 (Some 20))] demo_signals) as [s|] eqn:Hs; [|vm_compute in Hs; discriminate Hs].
  exists s. split; [done|]. destruct (destruct_context 20 s) as [s'|] eqn:Hs'.
  - exists s'. split; [done|]. vm_compute in Hs. injection Hs as <-. vm_compute in Hs'. injection Hs' as <-. by vm_compute.
  - vm_compute in Hs. injection Hs as <-. vm_compute in Hs'. discriminate Hs'.
Qed.

(** A receiver is destructed while the thread 2 waits there: the thread stays blocked, and
    its handler keeps the address of the receiver, which its destructor then uses. *)
Lemma handler_keeps_receiver :
  ∃ s, execute [On_signals (New_signal_receiver 11); On_signals (Await_signal 2 (Some 11))] demo_signals = Some s ∧
  ∃ s', destruct_receiver 11 s = Some s' ∧ awaits_signal (threads s') 2 = true ∧ receivers s' !! 11 = None ∧ delete_thread 2 s' = None.
Proof.
  destruct (execute [On_signals (New_signal_receiver 11); On_signals (Await_signal 2 (Some 11))] demo_signals) as [s|] eqn:Hs;
    [|vm_compute in Hs; discriminate Hs].
  exists s. split; [done|]. destruct (destruct_receiver 11 s) as [s'|] eqn:Hs'.
  - exists s'. split; [done|]. vm_compute in Hs. injection Hs as <-. vm_compute in Hs'. injection Hs' as <-. by vm_compute.
  - vm_compute in Hs. injection Hs as <-. vm_compute in Hs'. discriminate Hs'.
Qed.

(** A context without an unacknowledged delivery is killed at once, and the call writes no
    return value. *)
Lemma immediate_kill_returns_nothing (s s' : system kernel) t c x :
  contexts s !! c = Some x → _killed x = false → _ack x = true → _call_kill_signal_context t (Some c) s = Some s' →
  threads s' = threads s ∧ contexts s' !! c = Some (set_killed true x).
Proof.
  intros Hx Hk Ha. unfold _call_kill_signal_context, can_kill, kill. rewrite !(bind_some _ _ _ Hx), Hk. cbn [negb].
  rewrite Ha, (on_context_run s c x (set_killed true) Hx). intros [= <-]. cbn. by rewrite lookup_alter_eq, Hx.
Qed.
